(* ===== verification/_CoqProject ===== *)
-Q . S2P
Prelude.v
Ports.v
Registry.v
Vhost.v
Bytes.v
Wire.v
UdpBinary.v
Messages.v
TCPGroup.v
HTTPGroup.v
MuxGroup.v
Control.v
Handoff.v
Chars.v
Nathole.v
DateCounter.v
Proxies.v
Visitor.v
PortsRange.v
Binding.v
Rendezvous.v
ClientProxy.v
Service.v
Config.v
Source.v
ClientService.v
Metrics.v
Dashboard.v
ReverseProxy.v
ServerProxy.v
Transport.v
Backoff.v
FeatureGate.v
AdminAPI.v
Bootstrap.v
UdpForward.v
HolePunch.v
XtcpPeer.v
VNet.v
SecretVisitor.v
ClientWork.v
Dispatch.v
CommonConfig.v
AuthRuntime.v
ConnectMux.v
ConnWrap.v
SSHGateway.v
Legacy.v
Endpoints.v
