(* ===== verification/Prelude.v ===== *)
(** * Verification of the FRP peer

    The program is the Go peer under [peer/frp]: a server (frps) that gives
    clients behind NAT public ports, host names and rendezvous points, and a
    client (frpc) that logs in, registers proxies and visitors and joins the work
    connections the server asks for with local services.

    ** How the parts interact

    A connection of a client starts with the magic of wire protocol v2, hellos
    that negotiate cipher and codec, and one first message.  A login is checked
    (plugins, token, run id, codec), gives the client an entry in the registry
    and a control in the control manager, where it may replace an older
    generation of the same run id.  A control registers proxies: ports come from
    the port managers, host names from the vhost routers, shared ones from the
    groups.  A user's connection takes a work connection from the pool of the
    control and is joined with it.  Visitors reach secret proxies through
    internal listeners; XTCP visitors and providers meet in the rendezvous, get
    one signed manifest, punch a hole and connect directly.  The client keeps its
    configuration in sources (file and store), merges them, and runs proxy and
    visitor managers against the current control.  Dashboard and store API read
    and change all this.

    ** Files, and the code they model (paths under [peer/frp])

    - [Prelude]: results of fallible functions, tactics, lists and maps keyed by
      a name, wrap-around of [int64].  [Bytes], [Chars]: byte slices, big-endian
      integers, hexadecimal, [strconv] and character lists.
    - Server resources: [Ports] (server/ports), [Registry] (server/registry),
      [Vhost] (pkg/util/vhost router and muxer), [TCPGroup], [HTTPGroup],
      [MuxGroup] (server/group), [Visitor] (server/visitor, internal listeners),
      [DateCounter], [Metrics] (pkg/util/metric, pkg/metrics/mem), [Dashboard]
      (server/http), [ReverseProxy] (pkg/util/vhost/http.go, server/proxy/http.go),
      [ConnectMux] (pkg/util/tcpmux, pkg/util/vhost/https.go, server/proxy/https.go
      and tcpmux.go), [SSHGateway] (pkg/ssh, with the dialler of
      client/control_session.go).
    - Controls: [Control] (critical sections of server/control.go), [Handoff]
      (their interleavings), [Proxies] (registration of proxies by controls),
      [Service] (login, work connections, plugins, token authentication),
      [ServerProxy] (user connections, translation of secret UDP packets, ports
      and names of the proxies), [Transport] (pkg/msg/handler.go,
      pkg/transport), [Bootstrap] (the first messages of a connection, both sides),
      [Dispatch] (the first byte, the accept loop and the dispatch of accepted
      connections in server/service.go), [AuthRuntime] (pkg/auth: setters, verifiers and
      OIDC), [ConnWrap] (pkg/util/net/conn.go: keys of a control, closing, counting),
      [Endpoints] (start and end of the server in server/service.go, client/connector.go,
      pkg/transport/tls.go).
    - Wire: [Wire] (pkg/proto/wire), [UdpBinary], [Messages] (pkg/msg),
      [UdpForward] (pkg/proto/udp with server/proxy/udp.go and client/proxy/udp.go),
      [VNet] (pkg/vnet and the visitor plugin).
    - Hole punching: [Nathole] (classification, advice), [Binding]
      (pkg/xtcpbinding), [Rendezvous] (pkg/nathole/controller.go), [HolePunch]
      (pkg/nathole/nathole.go, utils.go, discovery.go), [XtcpPeer]
      (client/visitor/xtcp.go, client/proxy/xtcp.go).
    - Client: [ClientProxy] (proxy wrappers, manager, health checks, names),
      [ClientService] (service, controls, visitor manager, configuration
      manager), [SecretVisitor] (client/visitor/visitor.go, stcp.go, sudp.go),
      [ClientWork] (work connections in client/control.go and client/proxy, the
      heartbeats of both ends), [AdminAPI] (client/http), [Backoff] (pkg/util/wait),
      [FeatureGate] (pkg/policy/featuregate).
    - Configuration: [PortsRange] (pkg/config/types), [Config] (pkg/config/v1 and
      its validation), [CommonConfig] (settings of clients and servers, their defaults
      and validation, values from files and commands), [Source] (pkg/config/source),
      [Legacy] (pkg/config/legacy, pkg/config/load.go, cmd/frpc/sub/root.go).

    Every component is a Module: its state is a Record with the fields of the Go
    type, its operations are functions named as in the source.  Code under a lock
    is one function; what runs in several goroutines is a step relation over
    these functions, and invariants are proved by induction on its runs.  Objects
    shared by pointer are heaps with numbers as addresses.  Errors are values of
    [res].  Interfaces between components are type classes with laws ([Lib] of
    [Rendezvous], [HelloJson] of [Bootstrap], [SidJson] of [HolePunch],
    [Definable] of [AdminAPI] and the codecs of [Config] and [Source]).

    ** What the theorems show

    - Generations: of one run id at most one generation holds proxies, an online
      client has a control, work connections are not sent to closed pools, a
      login passes every check before it succeeds and leaves no control behind when
      it fails, every accepted connection is closed or with the part it is for, controls
      live exactly as long as their heartbeats ([Handoff], [Service], [Dispatch],
      [ClientWork]).
    - Start: a server starts exactly when its sockets, certificates, keys and issuer of
      tokens can be had, a connector owns its carrier, and a client that dials gets to a listener for
      clients whatever shares the port ([Endpoints]).
    - Authentication: validated settings give a setter and a verifier and run only
      commands the user allowed, OIDC tokens are fresh and exactly those of subjects
      that logged in are accepted, a tunnel over SSH is exempted from the token only
      with an authorized key, both ends of a control derive matching keys that depend
      on token, cipher, direction and transcript ([AuthRuntime], [SSHGateway], [ConnWrap]).
    - Configuration: validation reports no error exactly when the settings fit
      together, defaults are idempotent, the old format keeps every setting but
      those named, a client runs exactly what its files and its store select, once each
      ([CommonConfig], [Legacy]).
    - Resources: ports are partitioned into free and used, a group with members owns
      exactly one open socket whoever else uses ports, routes refine a table of routes
      and the longest match is found, registrations of proxies are exclusive, a
      running proxy keeps its port, round robin is fair ([Ports], [TCPGroup],
      [MuxGroup], [HTTPGroup], [Vhost], [Proxies], [ServerProxy]).
    - Wire: frames, messages, UDP packets, manifests and datagrams round-trip
      and decoders accept nothing else; both ends of a bootstrap agree on
      cipher, transcript and codec ([Wire], [UdpBinary], [Messages], [Binding],
      [HolePunch], [Bootstrap]).
    - Secrecy and isolation: requests reach HTTP proxies only with the credentials of
      the route they match when they arrive, visitors only what they may, UDP users
      only answers to their own datagrams, responses only the call they belong to,
      packets of the virtual network only live connections of their destination,
      tunnelled and TLS connections their listener with every byte it should see
      ([ReverseProxy], [Visitor], [UdpForward], [Transport], [VNet], [ConnectMux]).
    - Hole punching: manifests are sent to authenticated pairs only, handlers return
      once their offer is over and their answers are handed over, closing a control
      removes what it took part in, both peers of a tunnel hold the same manifest,
      advice explores every behaviour ([Rendezvous], [XtcpPeer], [Nathole]).
    - Client: server and client agree on the registered proxies after any events, the
      running control runs what is published, the store implements its maps and
      survives crashes with entries its codec keeps, the API answers truthfully,
      retries are bounded, users of secret visitors are handled completely and in
      order, work connections end in exactly one way and reach the service they are
      for ([ClientProxy], [ClientService], [Source], [AdminAPI], [Backoff],
      [SecretVisitor], [ClientWork]).
    - Examples beside the theorems show where the code does otherwise than it says or
      means: a reserved port handed out twice, an address range lost after repeated
      addresses, daily counts under the wrong day, statistics and ports of another
      proxy freed by a late close, a route that changes between check and use, tunnels
      and visitors that outlive their owner, a back-off that overflows, a first window
      with twice the fast retries, silent connections that hold up the accept loop, a
      port in use that is marked as free, data that overtakes the answer to a visitor,
      data lost behind a CONNECT request, a default address that is never taken, port
      ranges whose error allows every port, an HTTP port that stays open, a comment
      that locks out all SSH keys.

    ** Bounds and assumptions

    Recursion is structural; [Itoa] has one unit of fuel per binary digit, which
    is enough since a number has no more decimal digits; the loop over authorized keys
    has one per byte of the file, since each key takes at least one.  Machine integers wrap
    where the source computes with them; identifiers and counters of 64 bits are
    assumed not to wrap where a theorem says so.  What the code gets from outside
    is an argument: clock readings (one per check), random bytes, results of the
    network and the file system, JSON, hashes, HMAC, X.509, the order in which
    Go visits a map, floating-point products of the back-off.  Hypotheses on them
    are the documented behaviour (decoding gives back what was encoded, digests
    have 32 bytes) and hold for concrete functions in the witnesses; which configurations
    [encoding/json] keeps is a condition on them and not on the library.  Session ids
    of the rendezvous are fresh; where a theorem says so probing a port in use fails and
    keys of calls differ; lower-casing is
    that of ASCII; nil and empty maps are not distinguished; a collision of a hash
    appears as an alternative in a conclusion, and then of the two inputs at hand.

    ** Not modelled

    The C sources for ESP devices, their tests and tools and the web interface
    (other languages).  The transports (wrappers of QUIC, KCP and
    websocket libraries).  Command line and
    flags, templates, and the decoders of TOML, YAML, JSON and INI (libraries that work
    by reflection; what they return is an argument of [Legacy]).  The plugins of the
    client (HTTP, SOCKS5 and TLS libraries) and the virtual client of the SSH gateway
    (the client service over a pipe).  Byte streams after two connections are joined,
    limiters, encryption and compression themselves; the goroutines of a SUDP proxy of
    the client after its set up (its forwarder is in [UdpForward]);
    Prometheus export; deadlines and keep-alives, which end a goroutine at any time in
    the models.  They hold little state of their own: what they do is decided in the
    libraries, which are arguments here. *)
From stdpp Require Export base gmap strings list fin_maps sorting.
From stdpp Require Export fin_map_dom.
From Stdlib Require Export ZArith Lia Ascii.

#[global] Set Default Proof Using "Type".
#[global] Open Scope Z_scope.

(** ** Results of fallible Go functions *)

(** A Go function that returns [(v, err)] is a function into [res E A]. *)
Inductive res (E A : Type) : Type :=
| Ok (a : A)
| Err (e : E).
Arguments Ok {E A} a.
Arguments Err {E A} e.

Declare Scope go_scope.
Delimit Scope go_scope with go.
Notation "'let?' p ':=' c 'in' k" :=
  (match c with Ok p => k | Err e => Err e end)
    (at level 10, p pattern, c at level 200, k at level 200) : go_scope.
Notation "'guard?' b 'else' e ;; k" :=
  (if b then k else Err e)
    (at level 100, b at next level, e at next level, right associativity) : go_scope.
#[global] Open Scope go_scope.

#[global] Instance res_eq_dec {E A} `{EqDecision E, EqDecision A} : EqDecision (res E A).
Proof. solve_decision. Defined.

Definition is_Ok {E A} (r : res E A) : Prop := ∃ a, r = Ok a.

(** ** Automation *)

Create HintDb frp discriminated.
#[export] Hint Constants Opaque : frp.

(** Case analysis on the matches and conditionals of a translated body. *)
Ltac go_case :=
  repeat (case_match || case_decide || case_bool_decide); simplify_eq/=.

Ltac go_inv H :=
  repeat match type of H with
  | context [ match ?x with _ => _ end ] => destruct x eqn:?
  end; simplify_eq/=.

(** Turn boolean comparisons of the source into propositions. *)
Ltac bool_to_prop :=
  repeat match goal with
  | H : _ && _ = true |- _ => apply andb_true_iff in H as [? ?]
  | H : _ || _ = false |- _ => apply orb_false_iff in H as [? ?]
  | H : negb _ = true |- _ => apply negb_true_iff in H
  | H : negb _ = false |- _ => apply negb_false_iff in H
  | H : (_ =? _)%Z = true |- _ => apply Z.eqb_eq in H
  | H : (_ =? _)%Z = false |- _ => apply Z.eqb_neq in H
  | H : (_ <=? _)%Z = true |- _ => apply Z.leb_le in H
  | H : (_ <=? _)%Z = false |- _ => apply Z.leb_gt in H
  | H : (_ <? _)%Z = true |- _ => apply Z.ltb_lt in H
  | H : (_ <? _)%Z = false |- _ => apply Z.ltb_ge in H
  | H : bool_decide _ = true |- _ => apply bool_decide_eq_true in H
  | H : bool_decide _ = false |- _ => apply bool_decide_eq_false in H
  end.

(** ** Lists *)

Section lists.
Context {A : Type}.
Implicit Types (l : list A).

Lemma Forall_filter (Q R : A → Prop) `{∀ x, Decision (R x)} l :
  Forall Q l → Forall Q (filter R l).
Proof. rewrite !Forall_forall. intros HQ x [_ Hx]%list_elem_of_filter. auto. Qed.

Lemma StronglySorted_filter (S : relation A) (R : A → Prop) `{∀ x, Decision (R x)} l :
  StronglySorted S l → StronglySorted S (filter R l).
Proof.
  induction 1 as [|x l Hs IH Hf]; [constructor|]. rewrite filter_cons.
  case_decide; [constructor; [done|by apply Forall_filter]|done].
Qed.

Lemma NoDup_fmap_filter {B} (f : A → B) (R : A → Prop) `{∀ x, Decision (R x)} l :
  NoDup (f <$> l) → NoDup (f <$> filter R l).
Proof.
  induction l as [|x l IH]; [done|]. rewrite fmap_cons, NoDup_cons, filter_cons.
  intros [Hx Hl]. case_decide; [|by apply IH]. rewrite fmap_cons, NoDup_cons. split; [|by apply IH].
  intros (y & Hy & Hin)%list_elem_of_fmap. apply Hx. apply list_elem_of_fmap. exists y.
  split; [done|]. by apply list_elem_of_filter in Hin as [_ ?].
Qed.

(** [append(l[:i], l[i+1:]...)] at the first [i] with [l[i] == x]. *)
Fixpoint removeFirst `{EqDecision A} (x : A) l : list A :=
  match l with
  | [] => []
  | y :: l' => if decide (y = x) then l' else y :: removeFirst x l'
  end.

Lemma elem_of_removeFirst `{EqDecision A} (x y : A) l :
  NoDup l → y ∈ removeFirst x l ↔ y ∈ l ∧ y ≠ x.
Proof.
  induction 1 as [|z l Hz Hl IH]; simpl; [set_solver|].
  case_decide; [subst; set_solver|]. rewrite !elem_of_cons, IH. naive_solver.
Qed.

Lemma NoDup_removeFirst `{EqDecision A} (x : A) l : NoDup l → NoDup (removeFirst x l).
Proof.
  induction 1 as [|z l Hz Hl IH]; simpl; [constructor|].
  case_decide; [done|]. constructor; [|done]. by rewrite elem_of_removeFirst by done; intros [? _].
Qed.

Lemma removeFirst_app `{EqDecision A} (x : A) l l' : x ∉ l → removeFirst x (l ++ x :: l') = l ++ l'.
Proof.
  induction l as [|y l IH]; simpl; intros Hx; [by rewrite decide_True|].
  apply not_elem_of_cons in Hx as [Hne Hx]. rewrite decide_False by done. by rewrite IH.
Qed.

Lemma length_removeFirst `{EqDecision A} (x : A) l :
  x ∈ l → length l = S (length (removeFirst x l)).
Proof.
  induction l as [|y l IH]; [set_solver|]. simpl. rewrite elem_of_cons. case_decide; [done|].
  intros [?|?]; [congruence|]. simpl. by rewrite <-IH.
Qed.

End lists.

(** ** Maps keyed by a name of their values *)

Section keyed.
Context {A : Type} (f : A → string).

Lemma lookup_keyed_fold (l : list A) (n : string) :
  NoDup (f <$> l) → ∀ m0 : gmap string A, (∀ c, c ∈ l → m0 !! f c = None) →
  ∀ c, foldl (λ m c, <[ f c := c ]> m) m0 l !! n = Some c ↔ m0 !! n = Some c ∨ (c ∈ l ∧ f c = n).
Proof.
  induction l as [|x l IH]; intros Hnd m0 Hm c; simpl.
  - split; [by left|]. intros [?|[?%elem_of_nil _]]; done.
  - apply NoDup_cons in Hnd as [Hx Hnd]. rewrite IH; [|done|].
    + rewrite lookup_insert_Some, elem_of_cons. split.
      * intros [[[<- <-]|[? ?]]|[? ?]]; auto.
      * intros [Hc|[[->|Hin] Hn]]; [|by left; left|by right].
        left. right. split; [|done]. intros Heq. specialize (Hm x ltac:(left)). rewrite Heq in Hm. congruence.
    + intros y Hy. rewrite lookup_insert_ne; [apply Hm; by right|]. intros Heq. apply Hx.
      apply list_elem_of_fmap. exists y. split; [exact Heq|done].
Qed.

Definition keyed (m : gmap string A) : Prop := ∀ k c, m !! k = Some c → f c = k.

Lemma keyed_values (m : gmap string A) : keyed m → f <$> (map_to_list m).*2 = (map_to_list m).*1.
Proof.
  intros Hk. rewrite <-list_fmap_compose. apply list_fmap_ext. intros i [k c] Hi. simpl. apply Hk.
  apply elem_of_map_to_list. by eapply list_elem_of_lookup_2.
Qed.

Lemma elem_of_values (m : gmap string A) c : keyed m → c ∈ (map_to_list m).*2 ↔ m !! f c = Some c.
Proof.
  intros Hk. rewrite list_elem_of_fmap. split.
  - intros ([k c'] & -> & Hin). apply elem_of_map_to_list in Hin. simpl. by rewrite (Hk _ _ Hin).
  - intros Hc. exists (f c, c). split; [done|]. by apply elem_of_map_to_list.
Qed.

(** Inserting the values of a keyed map in any order rebuilds it. *)
Lemma keyed_rebuild (m : gmap string A) (l : list A) :
  keyed m → l ≡ₚ (map_to_list m).*2 → foldl (λ m c, <[ f c := c ]> m) ∅ l = m.
Proof.
  intros Hk Hl. assert (Hnd : NoDup (f <$> l)).
  { rewrite Hl, keyed_values by done. apply NoDup_fst_map_to_list. }
  apply map_eq. intros k. apply option_eq. intros c.
  rewrite lookup_keyed_fold by (done || intros; apply lookup_empty).
  rewrite Hl, elem_of_values by done. rewrite lookup_empty. split; [|intros Hc; right; by rewrite (Hk _ _ Hc)].
  by intros [?|[? <-]].
Qed.

End keyed.

(** ** Machine integers *)

(** The value of an [int64] computation: arithmetic wraps around. *)
Definition int64 (z : Z) : Z := (z + 2 ^ 63) mod 2 ^ 64 - 2 ^ 63.
Definition is_int64 (z : Z) : Prop := - 2 ^ 63 ≤ z < 2 ^ 63.

Lemma int64_id z : is_int64 z → int64 z = z.
Proof. unfold int64, is_int64. intros. rewrite Z.mod_small; lia. Qed.

Lemma int64_range z : is_int64 (int64 z).
Proof. unfold int64, is_int64. pose proof (Z.mod_pos_bound (z + 2 ^ 63) (2 ^ 64)). lia. Qed.
