(* ===== verification/Ports.v ===== *)
(** * Port manager of the server: [server/ports/ports.go]

    The manager keeps the free ports, the ports in use and, per proxy name,
    the port the proxy had last (the reservation).  [usedPorts] and
    [reservedPorts] hold pointers to the same [PortCtx]: [Release] writes
    through the pointer of [usedPorts] and [cleanReservedPortsOnce] reads the
    change through the pointer of [reservedPorts], so the contexts live in a
    store and the maps hold locations. *)
From S2P Require Import Prelude.

Module Ports.

Definition MinPort : Z := 1.
Definition MaxPort : Z := 65535.
Definition Hour : Z := 3600 * 10 ^ 9.
Definition MaxPortReservedDuration : Z := 24 * Hour.

Inductive error := ErrPortAlreadyUsed | ErrPortNotAllowed | ErrPortUnAvailable | ErrNoAvailablePort.

#[export] Instance error_eq_dec : EqDecision error.
Proof. solve_decision. Defined.

Record PortCtx := mkPortCtx {
  ProxyName : string;
  Port : Z;
  Closed : bool;
  UpdateTime : Z }.

Record Manager := mkManager {
  reservedPorts : gmap string nat;
  usedPorts : gmap Z nat;
  freePorts : gset Z;
  store : gmap nat PortCtx;
  nextLoc : nat }.

(** One entry of the [allowPorts] configuration. *)
Record PortsRange := mkPortsRange { Start : Z; End : Z; Single : Z }.

(** The ports [i] with [from <= i <= to]. *)
Definition portsBetween (from to : Z) : gset Z := list_to_set (seqZ from (to - from + 1)).

Definition addRange (free : gset Z) (pair : PortsRange) : gset Z :=
  if decide (0 < Single pair) then {[ Single pair ]} ∪ free
  else portsBetween (Start pair) (End pair) ∪ free.

Definition allowedPorts (allowPorts : list PortsRange) : gset Z :=
  match allowPorts with
  | [] => portsBetween MinPort MaxPort
  | _ => foldl addRange ∅ allowPorts
  end.

Definition NewManager (allowPorts : list PortsRange) : Manager :=
  {| reservedPorts := ∅; usedPorts := ∅; freePorts := allowedPorts allowPorts;
     store := ∅; nextLoc := 0 |}.

(** [markPortAcquiredLocked] with the deferred [portCtx.Port = realPort];
    [portCtx] is the context allocated at the start of [Acquire]. *)
Definition markPortAcquiredLocked (name : string) (port now : Z) (pm : Manager) : Manager :=
  let l := nextLoc pm in
  {| reservedPorts := <[ name := l ]> (reservedPorts pm);
     usedPorts := <[ port := l ]> (usedPorts pm);
     freePorts := freePorts pm ∖ {[ port ]};
     store := <[ l := mkPortCtx name port false now ]> (store pm);
     nextLoc := S l |}.

Definition maxTryTimes : nat := 5.

(** The search over the free ports.  [avail] answers the bind probes of one
    call, the [i]-th probe being [avail i]; [order] is the order in which the
    iteration over the map [freePorts] yields its keys. *)
Fixpoint tryPorts (avail : nat → Z → bool) (count : nat) (order : list Z) : option Z :=
  match order with
  | [] => None
  | k :: order' =>
      let count := S count in
      if decide (maxTryTimes < count)%nat then None
      else if avail count k then Some k
      else tryPorts avail count order'
  end.

Definition reservedPort (name : string) (pm : Manager) : option Z :=
  l ← reservedPorts pm !! name; Port <$> store pm !! l.

Definition acquireRandom (avail : nat → Z → bool) (order : list Z) (now : Z)
    (name : string) (pm : Manager) : res error Z * Manager :=
  match tryPorts avail 0 order with
  | Some k =>
      (* a key 0 of [freePorts] is recorded and still reported as an error *)
      (if decide (k = 0) then Err ErrNoAvailablePort else Ok k,
       markPortAcquiredLocked name k now pm)
  | None => (Err ErrNoAvailablePort, pm)
  end.

Definition Acquire (avail : nat → Z → bool) (order : list Z) (now : Z)
    (name : string) (port : Z) (pm : Manager) : res error Z * Manager :=
  if decide (port = 0) then
    match reservedPort name pm with
    | Some p =>
        if avail 0%nat p then (Ok p, markPortAcquiredLocked name p now pm)
        else acquireRandom avail order now name pm
    | None => acquireRandom avail order now name pm
    end
  else if decide (port ∈ freePorts pm) then
    if avail 0%nat port then (Ok port, markPortAcquiredLocked name port now pm)
    else (Err ErrPortUnAvailable, pm)
  else match usedPorts pm !! port with
       | Some _ => (Err ErrPortAlreadyUsed, pm)
       | None => (Err ErrPortNotAllowed, pm)
       end.

Definition Release (now port : Z) (pm : Manager) : Manager :=
  match usedPorts pm !! port with
  | Some l =>
      {| reservedPorts := reservedPorts pm;
         usedPorts := delete port (usedPorts pm);
         freePorts := {[ port ]} ∪ freePorts pm;
         store := alter (λ ctx, mkPortCtx (ProxyName ctx) (Port ctx) true now) l (store pm);
         nextLoc := nextLoc pm |}
  | None => pm
  end.

(** The test of the cleaner on one reservation. *)
Definition stale (now : Z) (st : gmap nat PortCtx) (l : nat) : bool :=
  match st !! l with
  | Some ctx => Closed ctx && (MaxPortReservedDuration <? now - UpdateTime ctx)
  | None => false
  end.

Definition cleanReservedPortsOnce (now : Z) (pm : Manager) : Manager :=
  {| reservedPorts := filter (λ e, stale now (store pm) e.2 = false) (reservedPorts pm);
     usedPorts := usedPorts pm; freePorts := freePorts pm;
     store := store pm; nextLoc := nextLoc pm |}.

(** ** Operations as steps *)

Inductive op :=
| OpAcquire (avail : nat → Z → bool) (order : list Z) (now : Z) (name : string) (port : Z)
| OpRelease (now port : Z)
| OpClean (now : Z).

Definition run_op (o : op) (pm : Manager) : Manager :=
  match o with
  | OpAcquire avail order now name port => (Acquire avail order now name port pm).2
  | OpRelease now port => Release now port pm
  | OpClean now => cleanReservedPortsOnce now pm
  end.

(** The iteration of [Acquire] ranges over the keys of [freePorts]. *)
Definition op_ok (pm : Manager) (o : op) : Prop :=
  match o with
  | OpAcquire _ order _ _ _ => order ≡ₚ elements (freePorts pm)
  | _ => True
  end.

Inductive step (pm : Manager) : Manager → Prop :=
| step_op o : op_ok pm o → step pm (run_op o pm).

(** ** Invariant *)

Record wf (allowed : gset Z) (pm : Manager) : Prop := {
  wf_disjoint p : p ∈ freePorts pm → usedPorts pm !! p = None;
  wf_cover p : p ∈ allowed ↔ p ∈ freePorts pm ∨ is_Some (usedPorts pm !! p);
  wf_used p l : usedPorts pm !! p = Some l →
    ∃ ctx, store pm !! l = Some ctx ∧ Port ctx = p ∧ Closed ctx = false;
  wf_reserved n l : reservedPorts pm !! n = Some l →
    ∃ ctx, store pm !! l = Some ctx ∧ ProxyName ctx = n ∧ Port ctx ∈ allowed;
  wf_store l : (nextLoc pm ≤ l)%nat → store pm !! l = None }.

Section invariant.
Context (allowed : gset Z).

Lemma ports_wf_new allowPorts : wf (allowedPorts allowPorts) (NewManager allowPorts).
Proof.
  split; simpl; try done.
  intros p. rewrite lookup_empty. split; [by left | by intros [?|[? [=]]]].
Qed.

Lemma wf_lt pm l ctx : wf allowed pm → store pm !! l = Some ctx → (l < nextLoc pm)%nat.
Proof. intros W H. destruct (decide (nextLoc pm ≤ l)%nat); [|lia]. by rewrite (wf_store _ _ W) in H. Qed.

Lemma wf_mark pm name port now :
  wf allowed pm → port ∈ allowed → wf allowed (markPortAcquiredLocked name port now pm).
Proof.
  intros W Hp. split; unfold markPortAcquiredLocked; simpl.
  - intros p Hin. rewrite lookup_insert_ne; [apply (wf_disjoint _ _ W)|]; set_solver.
  - intros p. rewrite (wf_cover _ _ W). destruct (decide (port = p)) as [->|].
    + rewrite lookup_insert_eq. split; [intros; right; eauto|].
      intros _. by apply (wf_cover _ _ W).
    + rewrite lookup_insert_ne by done. set_solver.
  - intros p l. rewrite lookup_insert_Some. intros [[<- <-]|[Hne Hu]].
    + rewrite lookup_insert_eq. eauto.
    + destruct (wf_used _ _ W p l Hu) as (ctx & Hs & ? & ?). exists ctx.
      rewrite lookup_insert_ne; [done|]. pose proof (wf_lt _ _ _ W Hs). lia.
  - intros n l. rewrite lookup_insert_Some. intros [[<- <-]|[Hne Hu]].
    + rewrite lookup_insert_eq. eauto.
    + destruct (wf_reserved _ _ W n l Hu) as (ctx & Hs & ? & ?). exists ctx.
      rewrite lookup_insert_ne; [done|]. pose proof (wf_lt _ _ _ W Hs). lia.
  - intros l Hl. rewrite lookup_insert_ne by lia. apply (wf_store _ _ W). lia.
Qed.

Lemma reservedPort_allowed pm name p :
  wf allowed pm → reservedPort name pm = Some p → p ∈ allowed.
Proof.
  unfold reservedPort. intros W (l & Hl & H)%bind_Some.
  apply fmap_Some in H as (ctx & Hs & ->).
  destruct (wf_reserved _ _ W _ _ Hl) as (ctx' & ? & ? & ?). by simplify_eq.
Qed.

Lemma tryPorts_Some avail order k : ∀ count,
  tryPorts avail count order = Some k →
  ∃ i, (i < maxTryTimes - count)%nat ∧ order !! i = Some k ∧ avail (S (count + i)) k = true ∧
       ∀ j q, (j < i)%nat → order !! j = Some q → avail (S (count + j)) q = false.
Proof.
  induction order as [|q order IH]; intros count; simpl; [done|].
  case_decide as Hc; [done|]. destruct (avail (S count) q) eqn:Hq.
  - intros [= ->]. exists 0%nat. rewrite Nat.add_0_r. repeat split; try done; unfold maxTryTimes in *; lia.
  - intros (i & Hi & Ho & Ha & Hlt)%IH. exists (S i). rewrite <-Nat.add_succ_comm.
    repeat split; try done; [lia|]. intros [|j] q' Hj Hq'; simplify_eq/=.
    + by rewrite Nat.add_0_r.
    + rewrite <-Nat.add_succ_comm. apply Hlt; [lia|done].
Qed.

Lemma tryPorts_None avail order : ∀ count,
  tryPorts avail count order = None →
  ∀ i q, (i < maxTryTimes - count)%nat → order !! i = Some q → avail (S (count + i)) q = false.
Proof.
  induction order as [|q order IH]; intros count; simpl; [done|].
  case_decide as Hc; [unfold maxTryTimes in *; intros; lia|].
  destruct (avail (S count) q) eqn:Hq; [done|].
  intros Hn [|i] q' Hi Hq'; simplify_eq/=; [by rewrite Nat.add_0_r|].
  rewrite <-Nat.add_succ_comm. eapply IH; [done|lia|done].
Qed.

Lemma tryPorts_free avail pm order k :
  order ≡ₚ elements (freePorts pm) → tryPorts avail 0 order = Some k → k ∈ freePorts pm.
Proof.
  intros Ho (i & _ & Hi & _)%tryPorts_Some. apply elem_of_elements. rewrite <-Ho.
  by eapply list_elem_of_lookup_2.
Qed.

Lemma free_allowed pm p : wf allowed pm → p ∈ freePorts pm → p ∈ allowed.
Proof. intros W ?. apply (wf_cover _ _ W). by left. Qed.

(** Every run of [Acquire] either leaves the state alone or records one port. *)
Lemma Acquire_cases avail order now name port pm :
  wf allowed pm → order ≡ₚ elements (freePorts pm) →
  let '(r, pm') := Acquire avail order now name port pm in
  (∃ p i, p ∈ allowed ∧ avail i p = true ∧ pm' = markPortAcquiredLocked name p now pm ∧
     (port = 0 ∨ port = p) ∧ (p ∈ freePorts pm ∨ port = 0 ∧ reservedPort name pm = Some p) ∧
     (r = Ok p ∨ p = 0 ∧ r = Err ErrNoAvailablePort))
  ∨ (∃ e, r = Err e ∧ pm' = pm).
Proof.
  intros W Ho. unfold Acquire, acquireRandom.
  case_decide as Hp; [subst port; destruct (reservedPort name pm) as [p|] eqn:Hr; [destruct (avail 0%nat p) eqn:Ha|]|].
  - left. exists p, 0%nat. split_and!; eauto using reservedPort_allowed.
  - destruct (tryPorts avail 0 order) as [k|] eqn:Ht; [left|right; eauto].
    pose proof (tryPorts_free _ _ _ _ Ho Ht). apply tryPorts_Some in Ht as (i & ? & ? & ? & ?).
    exists k, (S (0 + i)). split_and!; eauto using free_allowed. case_decide; auto.
  - destruct (tryPorts avail 0 order) as [k|] eqn:Ht; [left|right; eauto].
    pose proof (tryPorts_free _ _ _ _ Ho Ht). apply tryPorts_Some in Ht as (i & ? & ? & ? & ?).
    exists k, (S (0 + i)). split_and!; eauto using free_allowed. case_decide; auto.
  - case_decide; [destruct (avail 0%nat port) eqn:Ha; [left|right; eauto]|destruct (usedPorts pm !! port); right; eauto].
    exists port, 0%nat. split_and!; eauto using free_allowed.
Qed.

Lemma wf_acquire avail order now name port pm :
  wf allowed pm → order ≡ₚ elements (freePorts pm) →
  wf allowed (Acquire avail order now name port pm).2.
Proof.
  intros W Ho. pose proof (Acquire_cases avail order now name port pm W Ho) as H.
  destruct (Acquire _ _ _ _ _ _) as [r pm']. destruct H as [(p & i & ? & ? & -> & _)|(e & _ & ->)]; [|done].
  by apply wf_mark.
Qed.

Lemma wf_release now port pm : wf allowed pm → wf allowed (Release now port pm).
Proof.
  intros W. unfold Release. destruct (usedPorts pm !! port) as [l|] eqn:Hu; [|done].
  destruct (wf_used _ _ W _ _ Hu) as (ctx & Hs & Hport & _).
  split; simpl.
  - intros p. destruct (decide (port = p)) as [->|]; [by rewrite lookup_delete_eq|].
    rewrite lookup_delete_ne by done. intros. apply (wf_disjoint _ _ W). set_solver.
  - intros p. rewrite (wf_cover _ _ W). destruct (decide (port = p)) as [->|].
    + split; [set_solver|]. right; eauto.
    + rewrite lookup_delete_ne by done. set_solver.
  - intros p l' [Hne Hu']%lookup_delete_Some.
    destruct (wf_used _ _ W _ _ Hu') as (ctx' & Hs' & Hp' & Hc'). exists ctx'.
    rewrite lookup_alter_ne; [done|]. congruence.
  - intros n l' Hr. destruct (wf_reserved _ _ W _ _ Hr) as (ctx' & Hs' & Hn & Ha).
    destruct (decide (l = l')) as [<-|].
    + rewrite lookup_alter_eq, Hs'. simpl. eauto.
    + rewrite lookup_alter_ne by done. eauto.
  - intros l' Hl. rewrite lookup_alter_None. by apply (wf_store _ _ W).
Qed.

Lemma wf_clean now pm : wf allowed pm → wf allowed (cleanReservedPortsOnce now pm).
Proof.
  intros [? ? ? W4 ?]. split; simpl; try done.
  intros n l [Hr _]%map_lookup_filter_Some. by apply (W4 n l).
Qed.

Lemma ports_wf_step pm pm' : wf allowed pm → step pm pm' → wf allowed pm'.
Proof.
  intros W [[] Ho]; simpl in *; [by apply wf_acquire|by apply wf_release|by apply wf_clean].
Qed.

Lemma ports_wf_steps pm pm' : wf allowed pm → rtc step pm pm' → wf allowed pm'.
Proof. intros W H. induction H; [done|]. eauto using ports_wf_step. Qed.

End invariant.

#[export] Hint Resolve wf_acquire wf_release wf_clean wf_mark ports_wf_steps : frp.

(** ** Properties *)

(** C5: after any sequence of acquisitions, releases and cleanups the free and
    the used ports are disjoint and together are exactly the configured ports,
    and each used port has a context of its own number that is not closed. *)
Theorem ports_partition allowPorts pm :
  rtc step (NewManager allowPorts) pm →
  (∀ p, p ∈ freePorts pm → usedPorts pm !! p = None) ∧
  (∀ p, p ∈ allowedPorts allowPorts ↔ p ∈ freePorts pm ∨ is_Some (usedPorts pm !! p)) ∧
  (∀ p l, usedPorts pm !! p = Some l →
     ∃ ctx, store pm !! l = Some ctx ∧ Port ctx = p ∧ Closed ctx = false).
Proof.
  intros H. destruct (ports_wf_steps _ _ _ (ports_wf_new allowPorts) H). auto.
Qed.

(** if a bind probe never succeeds on a port that is in use, an acquired
    port was not in use before; it is one of the configured ports, it is the
    requested one when a port was requested, and afterwards it is recorded for
    the proxy in [usedPorts] and [reservedPorts] and is no longer free. *)
Theorem Acquire_exclusive allowed avail order now name port pm p pm' :
  wf allowed pm → order ≡ₚ elements (freePorts pm) →
  (∀ i q, avail i q = true → usedPorts pm !! q = None) →
  Acquire avail order now name port pm = (Ok p, pm') →
  usedPorts pm !! p = None ∧ p ∈ allowed ∧ (port = 0 ∨ port = p) ∧ (p ∉ freePorts pm') ∧
  ∃ l, usedPorts pm' !! p = Some l ∧ reservedPorts pm' !! name = Some l ∧
       store pm' !! l = Some (mkPortCtx name p false now).
Proof.
  intros W Ho Hos HA. pose proof (Acquire_cases _ avail order now name port pm W Ho) as H.
  rewrite HA in H. destruct H as [(q & i & ? & ? & -> & ? & ? & Hr)|(e & ? & _)]; [|done].
  destruct Hr as [[= <-]|[_ ?]]; [|done]. unfold markPortAcquiredLocked; simpl.
  split_and!; eauto; [set_solver|]. exists (nextLoc pm). by rewrite !lookup_insert_eq.
Qed.

(** the outcome for a requested port, on every branch: success exactly on
    a free port the probe can bind, [ErrPortUnAvailable] on a free port it
    cannot bind, [ErrPortAlreadyUsed] on a port in use and [ErrPortNotAllowed]
    on a port that is not configured; failures leave the manager as it was. *)
Theorem Acquire_requested allowed avail order now name port pm :
  wf allowed pm → port ≠ 0 →
  let '(r, pm') := Acquire avail order now name port pm in
  match r with
  | Ok p => p = port ∧ port ∈ freePorts pm ∧ avail 0%nat port = true ∧
            pm' = markPortAcquiredLocked name port now pm
  | Err ErrPortUnAvailable => port ∈ freePorts pm ∧ avail 0%nat port = false ∧ pm' = pm
  | Err ErrPortAlreadyUsed => is_Some (usedPorts pm !! port) ∧ pm' = pm
  | Err ErrPortNotAllowed => (port ∉ allowed) ∧ pm' = pm
  | Err ErrNoAvailablePort => False
  end.
Proof.
  intros W Hp. unfold Acquire. rewrite decide_False by done.
  case_decide as Hf; [by destruct (avail 0%nat port)|].
  destruct (usedPorts pm !! port) eqn:Hu; [by eauto|]. split; [|done].
  rewrite (wf_cover _ _ W), Hu. intros [?|[? [=]]]; done.
Qed.

(** a request for any port fails only with [ErrNoAvailablePort], only when
    neither the reserved port of the proxy nor any of the first five free ports
    of the iteration can be bound, and then changes nothing. *)
Theorem Acquire_any_fails allowed avail order now name pm e pm' :
  wf allowed pm → 0 ∉ allowed → order ≡ₚ elements (freePorts pm) →
  Acquire avail order now name 0 pm = (Err e, pm') →
  e = ErrNoAvailablePort ∧ pm' = pm ∧
  (∀ p, reservedPort name pm = Some p → avail 0%nat p = false) ∧
  (∀ i p, (i < 5)%nat → order !! i = Some p → avail (S i) p = false).
Proof.
  intros W H0 Ho HA.
  assert (acquireRandom avail order now name pm = (Err e, pm') ∧
    ∀ p, reservedPort name pm = Some p → avail 0%nat p = false) as [Hr Hres].
  { revert HA. unfold Acquire. rewrite decide_True by done.
    destruct (reservedPort name pm) as [p|]; [|by intros].
    destruct (avail 0%nat p) eqn:Ha; [done|]. intros; split; [done|]. by intros ? [= <-]. }
  revert Hr. unfold acquireRandom. destruct (tryPorts avail 0 order) as [k|] eqn:Ht.
  - pose proof (tryPorts_free _ _ _ _ Ho Ht) as Hk. case_decide as Hk0; [|done].
    subst k. intros _. by apply (free_allowed allowed) in Hk.
  - intros [= <- <-]. split_and!; auto. intros i p Hi Hp.
    by apply (tryPorts_None avail order 0 Ht i p).
Qed.

(** a proxy gets its port back: after it acquired [p] and released it at
    time [t1], and after a cleanup at most 24 hours later, a request of the same
    proxy for any port returns [p] whenever [p] can be bound. *)
Theorem reservation_honoured allowed avail order now name port pm p pm1 t1 t2 avail' order' t3 :
  wf allowed pm → order ≡ₚ elements (freePorts pm) →
  Acquire avail order now name port pm = (Ok p, pm1) →
  t2 - t1 ≤ MaxPortReservedDuration → avail' 0%nat p = true →
  (Acquire avail' order' t3 name 0 (cleanReservedPortsOnce t2 (Release t1 p pm1))).1 = Ok p.
Proof.
  intros W Ho HA Ht Hav. pose proof (Acquire_cases _ avail order now name port pm W Ho) as H.
  rewrite HA in H. destruct H as [(q & i & ? & ? & -> & ? & ? & Hr)|(e & ? & _)]; [|done].
  destruct Hr as [[= <-]|[_ ?]]; [|done].
  unfold Acquire. rewrite decide_True by done.
  assert (reservedPort name (cleanReservedPortsOnce t2
    (Release t1 p (markPortAcquiredLocked name p now pm))) = Some p) as ->; [|by rewrite Hav].
  unfold reservedPort, cleanReservedPortsOnce, Release, markPortAcquiredLocked; simpl.
  rewrite lookup_insert_eq; simpl. rewrite map_lookup_filter, lookup_insert_eq; simpl.
  rewrite option_guard_True; simpl; [by rewrite lookup_alter_eq, lookup_insert_eq|].
  unfold stale. rewrite lookup_alter_eq, lookup_insert_eq; simpl. by apply Z.ltb_ge.
Qed.

(** the cleaner drops exactly the reservations whose context is closed and
    was last updated more than 24 hours ago; in particular the context of a
    port in use is never dropped, and free and used ports are untouched. *)
Theorem clean_drops_exactly_stale allowed now pm n l :
  wf allowed pm →
  (reservedPorts (cleanReservedPortsOnce now pm) !! n = Some l ↔
     reservedPorts pm !! n = Some l ∧
     ∃ ctx, store pm !! l = Some ctx ∧
       (Closed ctx = false ∨ now - UpdateTime ctx ≤ MaxPortReservedDuration)) ∧
  (∀ p, usedPorts pm !! p = Some l → reservedPorts pm !! n = Some l →
     reservedPorts (cleanReservedPortsOnce now pm) !! n = Some l).
Proof.
  intros W.
  assert (Hiff : reservedPorts (cleanReservedPortsOnce now pm) !! n = Some l ↔
     reservedPorts pm !! n = Some l ∧
     ∃ ctx, store pm !! l = Some ctx ∧
       (Closed ctx = false ∨ now - UpdateTime ctx ≤ MaxPortReservedDuration)).
  { simpl. rewrite map_lookup_filter_Some. simpl. unfold stale. split.
    - intros [Hr Hs]. destruct (wf_reserved _ _ W _ _ Hr) as (ctx & Hc & _).
      rewrite Hc in Hs. split; [done|]. exists ctx. split; [done|].
      apply andb_false_iff in Hs. rewrite Z.ltb_ge in Hs. naive_solver.
    - intros (Hr & ctx & -> & Hs). split; [done|]. apply andb_false_iff.
      rewrite Z.ltb_ge. naive_solver. }
  split; [done|]. intros p Hu Hr. apply Hiff.
  destruct (wf_used _ _ W _ _ Hu) as (ctx & ? & ? & ?). eauto.
Qed.

(** ** Concrete runs *)

Definition demoRange : list PortsRange := [mkPortsRange 6000 6002 0; mkPortsRange 0 0 7000].
Definition allFree (_ : nat) (_ : Z) : bool := true.
Definition demo1 : Manager := (Acquire allFree [] 10 "ssh" 6000 (NewManager demoRange)).2.

Lemma demo1_wf : wf (allowedPorts demoRange) demo1.
Proof.
  unfold demo1, Acquire. rewrite decide_False by done.
  rewrite decide_True by (vm_compute; done).
  apply (wf_mark (allowedPorts demoRange)); [apply ports_wf_new|vm_compute; done].
Qed.

Lemma ports_partition_witness :
  (∀ p, p ∈ freePorts demo1 → usedPorts demo1 !! p = None) ∧
  (∀ p, p ∈ allowedPorts demoRange ↔ p ∈ freePorts demo1 ∨ is_Some (usedPorts demo1 !! p)) ∧
  (∀ p l, usedPorts demo1 !! p = Some l →
     ∃ ctx, store demo1 !! l = Some ctx ∧ Port ctx = p ∧ Closed ctx = false).
Proof.
  apply ports_partition.
  apply rtc_once, (step_op (NewManager demoRange)
    (OpAcquire allFree (elements (freePorts (NewManager demoRange))) 10 "ssh" 6000)).
  apply Permutation_refl.
Defined.

Lemma Acquire_exclusive_witness :
  usedPorts demo1 !! 6001 = None ∧ 6001 ∈ allowedPorts demoRange ∧ (0 = 0 ∨ 0 = 6001) ∧
  (6001 ∉ freePorts (markPortAcquiredLocked "web" 6001 11 demo1)) ∧
  ∃ l, usedPorts (markPortAcquiredLocked "web" 6001 11 demo1) !! 6001 = Some l ∧
       reservedPorts (markPortAcquiredLocked "web" 6001 11 demo1) !! "web" = Some l ∧
       store (markPortAcquiredLocked "web" 6001 11 demo1) !! l =
         Some (mkPortCtx "web" 6001 false 11).
Proof.
  apply (Acquire_exclusive (allowedPorts demoRange) (λ _ q, bool_decide (q = 6001))
    (elements (freePorts demo1)) 11 "web" 0 demo1); [apply demo1_wf|done| |].
  - intros i q ->%bool_decide_eq_true. reflexivity.
  - vm_compute. reflexivity.
Defined.

Lemma Acquire_requested_witness :
  (let '(r, pm') := Acquire allFree [] 11 "web" 6000 demo1 in
   match r with
   | Ok p => p = 6000 ∧ 6000 ∈ freePorts demo1 ∧ allFree 0%nat 6000 = true ∧
             pm' = markPortAcquiredLocked "web" 6000 11 demo1
   | Err ErrPortUnAvailable => 6000 ∈ freePorts demo1 ∧ allFree 0%nat 6000 = false ∧ pm' = demo1
   | Err ErrPortAlreadyUsed => is_Some (usedPorts demo1 !! 6000) ∧ pm' = demo1
   | Err ErrPortNotAllowed => (6000 ∉ allowedPorts demoRange) ∧ pm' = demo1
   | Err ErrNoAvailablePort => False
   end) ∧ (Acquire allFree [] 11 "web" 6000 demo1).1 = Err ErrPortAlreadyUsed.
Proof.
  split; [|vm_compute; reflexivity].
  apply (Acquire_requested (allowedPorts demoRange)); [apply demo1_wf|lia].
Defined.

Lemma Acquire_any_fails_witness :
  ErrNoAvailablePort = ErrNoAvailablePort ∧ demo1 = demo1 ∧
  (∀ p, reservedPort "ssh" demo1 = Some p → (λ _ _, false) 0%nat p = false) ∧
  (∀ i p, (i < 5)%nat → elements (freePorts demo1) !! i = Some p → (λ _ _, false) (S i) p = false).
Proof.
  apply (Acquire_any_fails (allowedPorts demoRange) (λ _ _, false) (elements (freePorts demo1)) 11 "ssh");
    [apply demo1_wf|by vm_compute|done|vm_compute; reflexivity].
Defined.

Lemma reservation_honoured_witness :
  (Acquire allFree [] 300 "web" 0
     (cleanReservedPortsOnce 200 (Release 100 6001 (markPortAcquiredLocked "web" 6001 11 demo1)))).1
  = Ok 6001.
Proof.
  apply (reservation_honoured (allowedPorts demoRange) allFree (elements (freePorts demo1)) 11
    "web" 6001 demo1); [apply demo1_wf|done|vm_compute; reflexivity|vm_compute; discriminate|done].
Defined.

Lemma clean_drops_exactly_stale_witness :
  (reservedPorts (cleanReservedPortsOnce (10 ^ 18) demo1) !! "ssh" = Some 0%nat ↔
     reservedPorts demo1 !! "ssh" = Some 0%nat ∧
     ∃ ctx, store demo1 !! 0%nat = Some ctx ∧
       (Closed ctx = false ∨ 10 ^ 18 - UpdateTime ctx ≤ MaxPortReservedDuration)) ∧
  (∀ p, usedPorts demo1 !! p = Some 0%nat → reservedPorts demo1 !! "ssh" = Some 0%nat →
     reservedPorts (cleanReservedPortsOnce (10 ^ 18) demo1) !! "ssh" = Some 0%nat).
Proof. apply (clean_drops_exactly_stale (allowedPorts demoRange)), demo1_wf. Defined.

(** The reservation of a proxy is probed with the bind test only, not looked up
    in [usedPorts]: between the [Acquire] of another proxy and its [listen] the
    same port is handed out a second time. *)
Example reserved_port_handed_out_twice :
  let pm := Release 20 6000 demo1 in
  let '(r1, pm1) := Acquire allFree [] 30 "web" 6000 pm in
  let '(r2, pm2) := Acquire allFree [] 31 "ssh" 0 pm1 in
  r1 = Ok 6000 ∧ r2 = Ok 6000.
Proof. vm_compute. split; reflexivity. Qed.

End Ports.
