(* ===== verification/Registry.v ===== *)
(** * Client registry of the server: [server/registry/registry.go]

    The registry keeps one [ClientInfo] per client key and an index from run
    id to client key.  Each [*ClientInfo] is reachable through exactly one
    entry of [clients], so the map holds the records themselves. *)
From S2P Require Import Prelude.

Module Registry.

(** Times are nanoseconds; [0] is the zero [time.Time]. *)
Record ClientInfo := mkClientInfo {
  Key : string;
  User : string;
  RawClientID : string;
  RunID : string;
  ControlID : Z;
  Hostname : string;
  IP : string;
  Version : string;
  WireProtocol : string;
  FirstConnectedAt : Z;
  LastConnectedAt : Z;
  DisconnectedAt : Z;
  Online : bool }.

Record ClientRegistry := mkRegistry {
  clients : gmap string ClientInfo;
  runIndex : gmap string string }.

Definition NewClientRegistry : ClientRegistry := mkRegistry ∅ ∅.

Definition composeClientKey (user id : string) : string :=
  if decide (user = "") then id
  else if decide (id = "") then user
  else (user +:+ "." +:+ id)%string.

Definition setClientOffline (now : Z) (info : ClientInfo) : ClientInfo :=
  {| Key := Key info; User := User info; RawClientID := RawClientID info;
     RunID := ""; ControlID := 0; Hostname := Hostname info; IP := IP info;
     Version := Version info; WireProtocol := WireProtocol info;
     FirstConnectedAt := FirstConnectedAt info; LastConnectedAt := LastConnectedAt info;
     DisconnectedAt := now; Online := false |}.

(** The arguments of [RegisterWithControlID]. *)
Record Login := mkLogin {
  l_user : string; l_rawClientID : string; l_runID : string; l_hostname : string;
  l_version : string; l_remoteAddr : string; l_wireProtocol : string; l_controlID : Z }.

Definition effectiveID (a : Login) : string :=
  if decide (l_rawClientID a = "") then l_runID a else l_rawClientID a.

Definition loginKey (a : Login) : string := composeClientKey (l_user a) (effectiveID a).

(** The entry of [clients] is dropped when it has no client id of its own and
    is set offline otherwise. *)
Definition retire (now : Z) (key : string) (info : ClientInfo) (cs : gmap string ClientInfo)
    : gmap string ClientInfo :=
  if decide (RawClientID info = "") then delete key cs
  else <[ key := setClientOffline now info ]> cs.

(** A run id that moves to another key leaves its previous entry. *)
Definition leavePrevious (now : Z) (runID key : string) (cr : ClientRegistry) : ClientRegistry :=
  match runIndex cr !! runID with
  | Some previousKey =>
      if decide (previousKey = key) then cr
      else
        let cs := match clients cr !! previousKey with
                  | Some previous =>
                      if decide (RunID previous = runID) then retire now previousKey previous (clients cr)
                      else clients cr
                  | None => clients cr
                  end in
        mkRegistry cs (delete runID (runIndex cr))
  | None => cr
  end.

Definition loginInfo (now : Z) (a : Login) (key : string) (old : option ClientInfo) : ClientInfo :=
  let first := match old with
               | Some i => if decide (FirstConnectedAt i = 0) then now else FirstConnectedAt i
               | None => now
               end in
  {| Key := match old with Some i => Key i | None => key end;
     User := match old with Some i => User i | None => l_user a end;
     RawClientID := l_rawClientID a; RunID := l_runID a; ControlID := l_controlID a;
     Hostname := l_hostname a; IP := l_remoteAddr a; Version := l_version a;
     WireProtocol := l_wireProtocol a;
     FirstConnectedAt := first; LastConnectedAt := now; DisconnectedAt := 0; Online := true |}.

(** The test that refuses a second client of the same id. *)
Definition conflicts (a : Login) (info : option ClientInfo) : bool :=
  match info with
  | Some i => negb (bool_decide (l_rawClientID a = "")) && Online i
              && negb (bool_decide (RunID i = "")) && negb (bool_decide (RunID i = l_runID a))
  | None => false
  end.

Definition RegisterWithControlID (now : Z) (a : Login) (cr : ClientRegistry)
    : (string * bool) * ClientRegistry :=
  if decide (l_runID a = "") then (("", false), cr)
  else
    let key := loginKey a in
    let old := clients cr !! key in
    if conflicts a old then ((key, true), cr)
    else
      let cr1 := leavePrevious now (l_runID a) key cr in
      let idx := match old with
                 | Some i => if decide (RunID i = "") then runIndex cr1
                             else delete (RunID i) (runIndex cr1)
                 | None => runIndex cr1
                 end in
      ((key, false), mkRegistry (<[ key := loginInfo now a key old ]> (clients cr1))
                                (<[ l_runID a := key ]> idx)).

Definition Register (now : Z) (user rawClientID runID hostname version remoteAddr wireProtocol : string)
    (cr : ClientRegistry) : (string * bool) * ClientRegistry :=
  RegisterWithControlID now
    (mkLogin user rawClientID runID hostname version remoteAddr wireProtocol 0) cr.

Definition markOfflineByRunID (now : Z) (runID : string) (controlID : Z) (matchControlID : bool)
    (cr : ClientRegistry) : ClientRegistry :=
  match runIndex cr !! runID with
  | None => cr
  | Some key =>
      let cs := match clients cr !! key with
                | Some info =>
                    if bool_decide (RunID info = runID)
                       && (negb matchControlID || (ControlID info =? controlID))
                    then retire now key info (clients cr) else clients cr
                | None => clients cr
                end in
      let idx := match cs !! key with
                 | Some info => if decide (RunID info = runID) then runIndex cr
                                else delete runID (runIndex cr)
                 | None => delete runID (runIndex cr)
                 end in
      mkRegistry cs idx
  end.

Definition MarkOfflineByRunID (now : Z) (runID : string) (cr : ClientRegistry) : ClientRegistry :=
  markOfflineByRunID now runID 0 false cr.

Definition MarkOfflineByRunIDAndControlID (now : Z) (runID : string) (controlID : Z)
    (cr : ClientRegistry) : ClientRegistry :=
  markOfflineByRunID now runID controlID true cr.

Definition List (cr : ClientRegistry) : list ClientInfo := (map_to_list (clients cr)).*2.

Definition GetByKey (key : string) (cr : ClientRegistry) : option ClientInfo := clients cr !! key.

Definition ClientID (info : ClientInfo) : string :=
  if decide (RawClientID info = "") then RunID info else RawClientID info.

(** ** Steps and invariant *)

Inductive step (cr : ClientRegistry) : ClientRegistry → Prop :=
| step_register now a : step cr (RegisterWithControlID now a cr).2
| step_offline now runID id m : step cr (markOfflineByRunID now runID id m cr).

(** The index and the entries describe each other, an entry is online exactly
    when a run id owns it, and an entry without a client id is online. *)
Record wf (cr : ClientRegistry) : Prop := {
  wf_index r k : runIndex cr !! r = Some k →
    r ≠ "" ∧ ∃ i, clients cr !! k = Some i ∧ RunID i = r;
  wf_indexed k i : clients cr !! k = Some i → RunID i ≠ "" → runIndex cr !! RunID i = Some k;
  wf_key k i : clients cr !! k = Some i → Key i = k;
  wf_online k i : clients cr !! k = Some i → Online i = true ↔ RunID i ≠ "";
  wf_anonymous k i : clients cr !! k = Some i → RawClientID i = "" → Online i = true;
  wf_offline k i : clients cr !! k = Some i → Online i = false → ControlID i = 0 }.

Lemma reg_wf_new : wf NewClientRegistry.
Proof. split; by intros. Qed.

Lemma lookup_retire now key info cs k :
  retire now key info cs !! k =
    if decide (key = k)
    then (if decide (RawClientID info = "") then None else Some (setClientOffline now info))
    else cs !! k.
Proof.
  unfold retire. repeat case_decide; subst;
    by rewrite ?lookup_delete_eq, ?lookup_insert_eq, ?lookup_delete_ne, ?lookup_insert_ne.
Qed.

(** Retiring the entry that a run id owns, with the run id taken out of the
    index, keeps the registry well formed and frees the run id. *)
Lemma wf_retire now r key info cr :
  wf cr → runIndex cr !! r = Some key → clients cr !! key = Some info →
  wf (mkRegistry (retire now key info (clients cr)) (delete r (runIndex cr))).
Proof.
  intros W Hr Hk. destruct (wf_index _ W _ _ Hr) as (Hr0 & i & Hi & Hir). simplify_eq.
  split; simpl.
  - intros r k [Hne Hx]%lookup_delete_Some. destruct (wf_index _ W _ _ Hx) as (? & j & Hj & Hjr).
    split; [done|]. exists j. rewrite lookup_retire. case_decide; [simplify_eq|done].
  - intros k j. rewrite lookup_retire. intros Hj Hn.
    repeat case_decide; simplify_eq/=. rewrite lookup_delete_ne; [by apply (wf_indexed _ W)|].
    intros E. pose proof (wf_indexed _ W _ _ Hj Hn). congruence.
  - intros k j. rewrite lookup_retire. intros. repeat case_decide; simplify_eq/=;
      by eapply (wf_key _ W).
  - intros k j. rewrite lookup_retire. intros. repeat case_decide; simplify_eq/=;
      [done|by eapply (wf_online _ W)].
  - intros k j. rewrite lookup_retire. intros. repeat case_decide; simplify_eq/=;
      by eapply (wf_anonymous _ W).
  - intros k j. rewrite lookup_retire. intros. repeat case_decide; simplify_eq/=;
      [done|by eapply (wf_offline _ W)].
Qed.

Lemma leavePrevious_spec now r key cr :
  wf cr → r ≠ "" →
  let cr1 := leavePrevious now r key cr in
  wf cr1 ∧ clients cr1 !! key = clients cr !! key ∧
  (runIndex cr1 !! r = None ∨ runIndex cr1 !! r = Some key) ∧
  (∀ r', r' ≠ r → runIndex cr1 !! r' = runIndex cr !! r').
Proof.
  intros W Hr0. unfold leavePrevious. destruct (runIndex cr !! r) as [k|] eqn:Hr.
  - destruct (wf_index _ W _ _ Hr) as (_ & i & Hi & Hir).
    case_decide; [subst k; by eauto|]. rewrite Hi, decide_True by done. split_and!; simpl.
    + by apply wf_retire.
    + by rewrite lookup_retire, decide_False.
    + left. apply lookup_delete_eq.
    + intros. by rewrite lookup_delete_ne.
  - simpl. by eauto.
Qed.

(** A login of run id [r] under [key] on a registry in which [r] owns at most
    that key. *)
Lemma wf_login now a key cr :
  wf cr → l_runID a ≠ "" → (runIndex cr !! l_runID a = None ∨ runIndex cr !! l_runID a = Some key) →
  wf (mkRegistry (<[ key := loginInfo now a key (clients cr !! key) ]> (clients cr))
       (<[ l_runID a := key ]>
          (match clients cr !! key with
           | Some i => if decide (RunID i = "") then runIndex cr else delete (RunID i) (runIndex cr)
           | None => runIndex cr
           end))).
Proof.
  intros W Hr0 Hown. set (idx := match clients cr !! key with Some _ => _ | None => _ end).
  assert (Hidx : ∀ r k, idx !! r = Some k → k ≠ key → runIndex cr !! r = Some k).
  { intros r k. unfold idx. destruct (clients cr !! key); [case_decide|]; try done.
    by rewrite lookup_delete_Some; intros [_ ?]. }
  assert (Hidx' : ∀ r k, runIndex cr !! r = Some k → k ≠ key → idx !! r = Some k).
  { intros r k Hx Hne. unfold idx. destruct (clients cr !! key) as [i|] eqn:Hi; [case_decide|]; try done.
    rewrite lookup_delete_ne; [done|]. intros <-. pose proof (wf_indexed _ W _ _ Hi). naive_solver. }
  assert (Hself : ∀ r, idx !! r ≠ Some key).
  { intros r Hx. unfold idx in Hx. destruct (clients cr !! key) as [i|] eqn:Hi; [case_decide|].
    - destruct (wf_index _ W _ _ Hx) as (? & j & ? & ?). by simplify_eq.
    - apply lookup_delete_Some in Hx as [? Hx]. destruct (wf_index _ W _ _ Hx) as (? & j & ? & ?). by simplify_eq.
    - destruct (wf_index _ W _ _ Hx) as (? & j & ? & ?). by simplify_eq. }
  split; simpl.
  - intros r k. rewrite lookup_insert_Some. intros [[<- <-]|[Hne Hx]].
    + split; [done|]. rewrite lookup_insert_eq. eauto.
    + assert (k ≠ key) as Hk by (intros ->; by apply (Hself r)).
      destruct (wf_index _ W _ _ (Hidx _ _ Hx Hk)) as (? & j & ? & ?).
      rewrite lookup_insert_ne by done. eauto.
  - intros k j. rewrite lookup_insert_Some. intros [[<- <-]|[Hne Hj]] Hn.
    + by rewrite lookup_insert_eq.
    + pose proof (wf_indexed _ W _ _ Hj Hn) as Hx. rewrite lookup_insert_ne; [by apply Hidx'|].
      intros E. destruct Hown as [Ho|Ho]; rewrite E in Ho; congruence.
  - intros k j. rewrite lookup_insert_Some. intros [[<- <-]|[Hne Hj]]; [|by eapply (wf_key _ W)].
    simpl. destruct (clients cr !! key) as [i|] eqn:Hi; [by eapply (wf_key _ W)|done].
  - intros k j. rewrite lookup_insert_Some. intros [[<- <-]|[Hne Hj]]; [done|by eapply (wf_online _ W)].
  - intros k j. rewrite lookup_insert_Some. intros [[<- <-]|[Hne Hj]]; [done|by eapply (wf_anonymous _ W)].
  - intros k j. rewrite lookup_insert_Some. intros [[<- <-]|[Hne Hj]]; [done|by eapply (wf_offline _ W)].
Qed.

Lemma wf_register now a cr : wf cr → wf (RegisterWithControlID now a cr).2.
Proof.
  intros W. unfold RegisterWithControlID. case_decide as Hr; [done|].
  destruct (conflicts _ _); [done|].
  destruct (leavePrevious_spec now _ (loginKey a) _ W Hr) as (W1 & Hk & Hown & _).
  simpl. rewrite <-Hk. by apply wf_login.
Qed.

Lemma wf_markOffline now r id m cr : wf cr → wf (markOfflineByRunID now r id m cr).
Proof.
  intros W. unfold markOfflineByRunID. destruct (runIndex cr !! r) as [k|] eqn:Hr; [|done].
  destruct (wf_index _ W _ _ Hr) as (Hr0 & i & Hi & Hir). rewrite Hi.
  destruct (bool_decide _ && _).
  - rewrite lookup_retire, decide_True by done. case_decide; simpl.
    + by apply wf_retire.
    + rewrite decide_False by done. by apply wf_retire.
  - rewrite Hi, decide_True by done. by destruct cr.
Qed.

Lemma reg_wf_step cr cr' : wf cr → step cr cr' → wf cr'.
Proof. intros W []; auto using wf_register, wf_markOffline. Qed.

Lemma reg_wf_steps cr cr' : wf cr → rtc step cr cr' → wf cr'.
Proof. intros W H. induction H; eauto using reg_wf_step. Qed.

#[export] Hint Resolve reg_wf_new wf_register wf_markOffline reg_wf_steps : frp.

(** ** Properties *)

(** in every reachable registry the run index and the entries are inverse
    to each other, an entry is online exactly when some run id owns it, and an
    entry without an explicit client id is never kept offline. *)
Theorem registry_invariant cr :
  rtc step NewClientRegistry cr →
  (∀ r k, runIndex cr !! r = Some k ↔ r ≠ "" ∧ ∃ i, clients cr !! k = Some i ∧ RunID i = r) ∧
  (∀ k i, clients cr !! k = Some i →
     Key i = k ∧ (Online i = true ↔ RunID i ≠ "") ∧ (RawClientID i = "" → Online i = true) ∧
     (Online i = false → ControlID i = 0)).
Proof.
  intros H. destruct (reg_wf_steps _ _ reg_wf_new H) as [W1 W2 W3 W4 W5 W6]. split; [|by eauto 10].
  intros r k. split; [apply W1|]. intros (Hr & i & Hi & <-). by apply W2.
Qed.

(** a login is refused exactly when it carries a client id whose entry is
    online under another run id, and a refused login changes nothing; an
    accepted one makes its run id the owner of its key with the given control
    id, online, and no other key is owned by that run id. *)
Theorem RegisterWithControlID_spec now a cr :
  wf cr → l_runID a ≠ "" →
  let '((key, conflict), cr') := RegisterWithControlID now a cr in
  key = loginKey a ∧
  (conflict = true ↔ l_rawClientID a ≠ "" ∧
     ∃ i, clients cr !! key = Some i ∧ Online i = true ∧ RunID i ≠ l_runID a) ∧
  (if conflict then cr' = cr
   else runIndex cr' !! l_runID a = Some key ∧
        (∃ i, clients cr' !! key = Some i ∧ Online i = true ∧ RunID i = l_runID a ∧
              ControlID i = l_controlID a ∧ RawClientID i = l_rawClientID a) ∧
        (∀ k i, clients cr' !! k = Some i → RunID i = l_runID a → k = key)).
Proof.
  intros W Hr. pose proof (wf_register now a cr W) as W'. revert W'.
  unfold RegisterWithControlID. rewrite decide_False by done.
  assert (Hc : conflicts a (clients cr !! loginKey a) = true ↔ l_rawClientID a ≠ "" ∧
     ∃ i, clients cr !! loginKey a = Some i ∧ Online i = true ∧ RunID i ≠ l_runID a).
  { unfold conflicts. destruct (clients cr !! loginKey a) as [i|] eqn:Hi; [|naive_solver].
    rewrite !andb_true_iff, !negb_true_iff, !bool_decide_eq_false.
    pose proof (wf_online _ W _ _ Hi). naive_solver. }
  destruct (conflicts _ _) eqn:E; intros W'; simpl in W'; (split; [done|split; [exact Hc|]]); [done|].
  split; [apply lookup_insert_eq|]. split.
  - simpl. rewrite lookup_insert_eq. eexists; split; [done|]. done.
  - intros k i Hi Hir.
    pose proof (wf_indexed _ W' k i Hi ltac:(congruence)) as Hx. rewrite Hir in Hx.
    simpl in Hx. rewrite lookup_insert_eq in Hx. congruence.
Qed.

(** a disconnect of an older control generation never touches the entry
    of a newer one: marking a run id offline with a control id that is not the
    one of its entry leaves the whole registry as it is. *)
Theorem MarkOffline_old_generation now r id cr k i :
  wf cr → runIndex cr !! r = Some k → clients cr !! k = Some i → ControlID i ≠ id →
  MarkOfflineByRunIDAndControlID now r id cr = cr.
Proof.
  intros W Hr Hi Hid. unfold MarkOfflineByRunIDAndControlID, markOfflineByRunID.
  destruct (wf_index _ W _ _ Hr) as (_ & j & Hj & Hjr). simplify_eq. rewrite Hr, Hi.
  rewrite (proj2 (Z.eqb_neq _ _) Hid), andb_false_r, Hi, decide_True by done. by destruct cr.
Qed.

(** marking a run id offline (of the matching generation when one is
    given) frees the run id; its entry disappears when it has no client id and
    stays, offline with the time of the disconnect, otherwise; every other
    entry and every other run id is as before. *)
Theorem markOffline_effect now r id m cr k i :
  wf cr → runIndex cr !! r = Some k → clients cr !! k = Some i → (m = true → ControlID i = id) →
  let cr' := markOfflineByRunID now r id m cr in
  runIndex cr' !! r = None ∧
  clients cr' !! k = (if decide (RawClientID i = "") then None else Some (setClientOffline now i)) ∧
  (∀ k', k' ≠ k → clients cr' !! k' = clients cr !! k') ∧
  (∀ r', r' ≠ r → runIndex cr' !! r' = runIndex cr !! r').
Proof.
  intros W Hr Hi Hm. unfold markOfflineByRunID.
  destruct (wf_index _ W _ _ Hr) as (Hr0 & j & Hj & Hjr). simplify_eq. rewrite Hr, Hi.
  assert (bool_decide (RunID i = RunID i) && (negb m || (ControlID i =? id)) = true) as ->.
  { rewrite bool_decide_eq_true_2 by done. destruct m; simpl; [|done]. apply Z.eqb_eq; auto. }
  rewrite lookup_retire, decide_True by done.
  assert (Hidx : match (if decide (RawClientID i = "") then None else Some (setClientOffline now i)) with
     | Some info => if decide (RunID info = RunID i) then runIndex cr else delete (RunID i) (runIndex cr)
     | None => delete (RunID i) (runIndex cr) end = delete (RunID i) (runIndex cr)).
  { case_decide; [done|]. simpl. by rewrite decide_False. }
  rewrite Hidx. simpl. split_and!.
  - apply lookup_delete_eq.
  - by rewrite lookup_retire, decide_True.
  - intros k' Hk. by rewrite lookup_retire, decide_False.
  - intros r' Hr'. by rewrite lookup_delete_ne.
Qed.

(** ** Concrete runs *)

Definition demoLogin (user cid run : string) (id : Z) : Login :=
  mkLogin user cid run "host" "0.60" "10.0.0.1" "v2" id.
Definition demoReg : ClientRegistry :=
  (RegisterWithControlID 5 (demoLogin "alice" "cam" "r1" 7) NewClientRegistry).2.

Lemma demoReg_wf : wf demoReg.
Proof. apply wf_register, reg_wf_new. Qed.

Lemma registry_invariant_witness :
  (∀ r k, runIndex demoReg !! r = Some k ↔
     r ≠ "" ∧ ∃ i, clients demoReg !! k = Some i ∧ RunID i = r) ∧
  (∀ k i, clients demoReg !! k = Some i →
     Key i = k ∧ (Online i = true ↔ RunID i ≠ "") ∧ (RawClientID i = "" → Online i = true) ∧
     (Online i = false → ControlID i = 0)).
Proof. apply registry_invariant. apply rtc_once. apply step_register. Defined.

Lemma RegisterWithControlID_spec_witness :
  let a := demoLogin "alice" "cam" "r2" 8 in
  let '((key, conflict), cr') := RegisterWithControlID 9 a demoReg in
  key = loginKey a ∧
  (conflict = true ↔ l_rawClientID a ≠ "" ∧
     ∃ i, clients demoReg !! key = Some i ∧ Online i = true ∧ RunID i ≠ l_runID a) ∧
  (if conflict then cr' = demoReg
   else runIndex cr' !! l_runID a = Some key ∧
        (∃ i, clients cr' !! key = Some i ∧ Online i = true ∧ RunID i = l_runID a ∧
              ControlID i = l_controlID a ∧ RawClientID i = l_rawClientID a) ∧
        (∀ k i, clients cr' !! k = Some i → RunID i = l_runID a → k = key)).
Proof. apply (RegisterWithControlID_spec 9 (demoLogin "alice" "cam" "r2" 8)); [apply demoReg_wf|done]. Defined.

Lemma MarkOffline_old_generation_witness :
  MarkOfflineByRunIDAndControlID 12 "r1" 6 demoReg = demoReg.
Proof.
  eapply (MarkOffline_old_generation 12 "r1" 6 demoReg "alice.cam");
    [apply demoReg_wf|reflexivity|vm_compute; reflexivity|done].
Defined.

Lemma markOffline_effect_witness :
  let cr' := markOfflineByRunID 12 "r1" 7 true demoReg in
  let i := loginInfo 5 (demoLogin "alice" "cam" "r1" 7) "alice.cam" None in
  runIndex cr' !! "r1" = None ∧
  clients cr' !! "alice.cam" =
    (if decide (RawClientID i = "") then None else Some (setClientOffline 12 i)) ∧
  (∀ k', k' ≠ "alice.cam" → clients cr' !! k' = clients demoReg !! k') ∧
  (∀ r', r' ≠ "r1" → runIndex cr' !! r' = runIndex demoReg !! r').
Proof.
  apply (markOffline_effect 12 "r1" 7 true demoReg "alice.cam");
    [apply demoReg_wf|reflexivity|vm_compute; reflexivity|done].
Defined.

(** [composeClientKey] joins user and client id with a dot that may occur in
    either: two users share a key, and the second one is refused. *)
Example client_keys_collide :
  (RegisterWithControlID 9 (demoLogin "a" "b.c" "r2" 2)
     (RegisterWithControlID 5 (demoLogin "a.b" "c" "r1" 1) NewClientRegistry).2).1
  = (("a.b.c")%string, true).
Proof. vm_compute. reflexivity. Qed.

End Registry.
