(* ===== verification/Vhost.v ===== *)
(** * Virtual host routing: [pkg/util/vhost]

    [Routers] ([router.go]) maps a domain and an HTTP user to the routes of
    that pair, each with the location (path prefix) it serves.  [Muxer]
    ([vhost.go]) and [HTTPReverseProxy] ([http.go]) register their listeners
    and route configurations in it and look up connections and requests. *)
From S2P Require Import Prelude.

Module Vhost.

(** ** The strings functions the router uses *)

(** [strings.ToLower] on ASCII text, byte by byte. *)
Definition lowerAscii (c : Ascii.ascii) : Ascii.ascii :=
  let n := Ascii.nat_of_ascii c in
  if (Nat.leb 65 n && Nat.leb n 90)%bool then Ascii.ascii_of_nat (n + 32) else c.

Fixpoint ToLower (s : string) : string :=
  match s with
  | EmptyString => EmptyString
  | String c s' => String (lowerAscii c) (ToLower s')
  end.

(** [strings.Split(s, ".")]: never empty, and a single label without a dot. *)
Fixpoint SplitDot (s : string) : list string :=
  match s with
  | EmptyString => [""]
  | String c s' =>
      let rest := SplitDot s' in
      if decide (c = "."%char) then "" :: rest
      else match rest with
           | [] => [String c ""]
           | w :: ws => String c w :: ws
           end
  end.

Definition JoinDot (l : list string) : string := String.concat "." l.

(** [strings.HasPrefix(s, p)]. *)
Definition HasPrefix (s p : string) : bool := String.prefix p s.

(** ** Routers *)

Inductive error := ErrRouterConfigConflict.

Record Router (P : Type) := mkRouter {
  domain : string; location : string; httpUser : string; payload : P }.
Arguments mkRouter {P}.
Arguments domain {P}.
Arguments location {P}.
Arguments httpUser {P}.
Arguments payload {P}.

(** The order of [slices.SortFunc]: larger locations first. *)
Definition byLocationDesc {P} (a b : Router P) : Prop := String.le (location b) (location a).
#[export] Instance byLocationDesc_dec {P} : RelDecision (@byLocationDesc P).
Proof. intros a b. unfold byLocationDesc. apply _. Defined.
#[export] Instance byLocationDesc_total {P} : Total (@byLocationDesc P).
Proof. intros a b. apply String.le_total. Qed.
#[export] Instance byLocationDesc_trans {P} : Transitive (@byLocationDesc P).
Proof. intros a b c H1 H2. unfold byLocationDesc in *. by etrans. Qed.

Record Routers (P : Type) := mkRouters {
  indexByDomain : gmap string (gmap string (list (Router P))) }.
Arguments mkRouters {P}.
Arguments indexByDomain {P}.

Section routers.
Context {P : Type}.
Implicit Types (r : Routers P) (vrs : list (Router P)) (vr : Router P).

Definition NewRouters : Routers P := mkRouters ∅.

(** The routes stored for a domain and a user, when there is such a list. *)
Definition routes r (host user : string) : option (list (Router P)) :=
  byUser ← indexByDomain r !! host; byUser !! user.

Fixpoint findLocation (path : string) vrs : option (Router P) :=
  match vrs with
  | [] => None
  | vr :: vrs' => if decide (path = location vr) then Some vr else findLocation path vrs'
  end.

Definition exist r (host path user : string) : option (Router P) :=
  vrs ← routes r host user; findLocation path vrs.

Definition Add (dom loc user : string) (p : P) r : res error unit * Routers P :=
  let dom := ToLower dom in
  match exist r dom loc user with
  | Some _ => (Err ErrRouterConfigConflict, r)
  | None =>
      let byUser := default ∅ (indexByDomain r !! dom) in
      let vrs := default [] (byUser !! user) in
      let vrs := merge_sort byLocationDesc (vrs ++ [mkRouter dom loc user p]) in
      (Ok tt, mkRouters (<[ dom := <[ user := vrs ]> byUser ]> (indexByDomain r)))
  end.

Definition Del (dom loc user : string) r : Routers P :=
  let dom := ToLower dom in
  match indexByDomain r !! dom with
  | None => r
  | Some byUser =>
      match byUser !! user with
      | None => r
      | Some vrs =>
          let newVrs := filter (λ vr, location vr ≠ loc) vrs in
          mkRouters (<[ dom := <[ user := newVrs ]> byUser ]> (indexByDomain r))
      end
  end.

Fixpoint firstPrefix (path : string) vrs : option (Router P) :=
  match vrs with
  | [] => None
  | vr :: vrs' => if HasPrefix path (location vr) then Some vr else firstPrefix path vrs'
  end.

Definition getLocked r (host path user : string) : option (Router P) :=
  vrs ← routes r host user; firstPrefix path vrs.

Definition Get r (host path user : string) : option (Router P) :=
  getLocked r (ToLower host) path user.

Definition getExactOrAllUsersLocked r (host path user : string) : option (Router P) :=
  match getLocked r host path user with
  | Some vr => Some vr
  | None => getLocked r host path ""
  end.

(** The loop over the labels of the host: while three or more are left, the
    leftmost is replaced by the wildcard and the result looked up. *)
Fixpoint wildcardWalk r (path user : string) (hostSplit : list string) : option (Router P) :=
  match hostSplit with
  | [] => None
  | _ :: rest =>
      if (3 <=? length hostSplit)%nat then
        match getExactOrAllUsersLocked r (JoinDot ("*" :: rest)) path user with
        | Some vr => Some vr
        | None => wildcardWalk r path user rest
        end
      else None
  end.

Definition getByRoute r (host path user : string) : option (Router P) :=
  let host := ToLower host in
  match getExactOrAllUsersLocked r host path user with
  | Some vr => Some vr
  | None =>
      match wildcardWalk r path user (SplitDot host) with
      | Some vr => Some vr
      | None => getExactOrAllUsersLocked r "*" path user
      end
  end.

(** ** Steps and invariant *)

Inductive step r : Routers P → Prop :=
| step_add dom loc user p : step r (Add dom loc user p r).2
| step_del dom loc user : step r (Del dom loc user r).

(** Every stored route carries the pair it is stored under, in lower case, and
    the routes of a pair have distinct locations in descending order. *)
Record wf r : Prop := {
  wf_entry host user vrs : routes r host user = Some vrs →
    Forall (λ vr, domain vr = host ∧ httpUser vr = user) vrs;
  wf_lower host user vrs : routes r host user = Some vrs → ToLower host = host;
  wf_sorted host user vrs : routes r host user = Some vrs → StronglySorted byLocationDesc vrs;
  wf_distinct host user vrs : routes r host user = Some vrs → NoDup (location <$> vrs) }.

Lemma routers_wf_new : wf NewRouters.
Proof. split; unfold routes, NewRouters; simpl; intros *; rewrite lookup_empty; done. Qed.

Lemma routes_insert r dom user vrs' host u :
  routes (mkRouters (<[ dom := <[ user := vrs' ]> (default ∅ (indexByDomain r !! dom)) ]>
            (indexByDomain r))) host u =
    if decide (dom = host ∧ user = u) then Some vrs' else routes r host u.
Proof.
  unfold routes; simpl. destruct (decide (dom = host)) as [<-|].
  - rewrite lookup_insert_eq; simpl. destruct (decide (user = u)) as [<-|].
    + by rewrite lookup_insert_eq, decide_True.
    + rewrite lookup_insert_ne, decide_False by naive_solver.
      destruct (indexByDomain r !! dom); simpl; [done|]. by rewrite lookup_empty.
  - by rewrite lookup_insert_ne, decide_False by naive_solver.
Qed.

Lemma findLocation_None path vrs :
  findLocation path vrs = None ↔ path ∉ location <$> vrs.
Proof.
  induction vrs as [|vr vrs IH]; simpl; [set_solver|]. rewrite not_elem_of_cons.
  case_decide; naive_solver.
Qed.

Lemma findLocation_Some path vrs vr :
  NoDup (location <$> vrs) → findLocation path vrs = Some vr ↔ vr ∈ vrs ∧ location vr = path.
Proof.
  induction vrs as [|w vrs IH]; simpl; [set_solver|]. rewrite NoDup_cons, elem_of_cons.
  intros [Hn Hd]. case_decide; subst.
  - split; [by intros [= ->]; eauto|]. intros [[->|Hin] Hl]; [done|].
    destruct Hn. rewrite <-Hl. apply list_elem_of_fmap. eauto.
  - rewrite IH by done. naive_solver.
Qed.

Lemma routes_default r dom user :
  default [] (default ∅ (indexByDomain r !! dom) !! user) = default [] (routes r dom user).
Proof. unfold routes. destruct (indexByDomain r !! dom); simpl; [done|]. by rewrite lookup_empty. Qed.

Lemma wf_insert r dom user vrs :
  wf r → ToLower dom = dom → Forall (λ vr, domain vr = dom ∧ httpUser vr = user) vrs →
  StronglySorted byLocationDesc vrs → NoDup (location <$> vrs) →
  wf (mkRouters (<[ dom := <[ user := vrs ]> (default ∅ (indexByDomain r !! dom)) ]> (indexByDomain r))).
Proof.
  intros [W1 W2 W3 W4] ????. split; intros host u vrs'; rewrite routes_insert;
    (case_decide as Hd; [destruct Hd; intros; by simplify_eq|by eauto]).
Qed.

Lemma lowerAscii_idemp c : lowerAscii (lowerAscii c) = lowerAscii c.
Proof. destruct c as [[] [] [] [] [] [] [] []]; reflexivity. Qed.

Lemma ToLower_idemp s : ToLower (ToLower s) = ToLower s.
Proof. induction s as [|c s IH]; simpl; [done|]. by rewrite lowerAscii_idemp, IH. Qed.

Lemma wf_Add dom loc user p r : wf r → wf (Add dom loc user p r).2.
Proof.
  intros W. unfold Add. destruct (exist _ _ _ _) eqn:He; [done|]. simpl. rewrite routes_default.
  set (vrs := default [] (routes r (ToLower dom) user)).
  assert (Hvrs : Forall (λ vr, domain vr = ToLower dom ∧ httpUser vr = user) vrs ∧
    NoDup (location <$> vrs) ∧ loc ∉ location <$> vrs).
  { unfold vrs, exist in *. destruct (routes r (ToLower dom) user) as [l|] eqn:Hl; simpl in *.
    - split_and!; [by eapply wf_entry|by eapply wf_distinct|by apply findLocation_None].
    - split_and!; [done|constructor|set_solver]. }
  destruct Hvrs as (H1 & H2 & H3). apply wf_insert; [done|apply ToLower_idemp|..].
  - rewrite merge_sort_Permutation. apply Forall_app. split; [done|]. by apply Forall_singleton.
  - apply StronglySorted_merge_sort; apply _.
  - rewrite merge_sort_Permutation, fmap_app, Permutation_app_comm. simpl.
    by constructor.
Qed.

Lemma wf_Del dom loc user r : wf r → wf (Del dom loc user r).
Proof.
  intros W. unfold Del. destruct (indexByDomain r !! ToLower dom) as [byUser|] eqn:Hb; [|done].
  destruct (byUser !! user) as [vrs|] eqn:Hu; [|done].
  assert (Hr : routes r (ToLower dom) user = Some vrs) by (unfold routes; by rewrite Hb).
  pose proof (wf_insert r (ToLower dom) user (filter (λ vr, location vr ≠ loc) vrs) W) as Hw.
  rewrite Hb in Hw. apply Hw.
  - apply ToLower_idemp.
  - by eapply Forall_filter, wf_entry.
  - by eapply StronglySorted_filter, wf_sorted.
  - by eapply NoDup_fmap_filter, wf_distinct.
Qed.

Lemma routers_wf_steps r r' : wf r → rtc step r r' → wf r'.
Proof. intros W H. induction H as [|? ? ? []]; eauto using wf_Add, wf_Del. Qed.

(** ** Refinement of the router by a map from (domain, location, user) *)

Definition key : Type := (string * string * string)%type.

Inductive op :=
| OpAdd (dom loc user : string) (p : P)
| OpDel (dom loc user : string).

Definition run_op (o : op) r : res error unit * Routers P :=
  match o with
  | OpAdd dom loc user p => Add dom loc user p r
  | OpDel dom loc user => (Ok tt, Del dom loc user r)
  end.

Definition spec_op (o : op) (m : gmap key P) : res error unit * gmap key P :=
  match o with
  | OpAdd dom loc user p =>
      match m !! (ToLower dom, loc, user) with
      | Some _ => (Err ErrRouterConfigConflict, m)
      | None => (Ok tt, <[ (ToLower dom, loc, user) := p ]> m)
      end
  | OpDel dom loc user => (Ok tt, delete (ToLower dom, loc, user) m)
  end.

Fixpoint run_ops (os : list op) r : list (res error unit) * Routers P :=
  match os with
  | [] => ([], r)
  | o :: os' => let '(e, r1) := run_op o r in let '(es, r2) := run_ops os' r1 in (e :: es, r2)
  end.

Fixpoint spec_ops (os : list op) (m : gmap key P) : list (res error unit) * gmap key P :=
  match os with
  | [] => ([], m)
  | o :: os' => let '(e, m1) := spec_op o m in let '(es, m2) := spec_ops os' m1 in (e :: es, m2)
  end.

Definition refines r (m : gmap key P) : Prop :=
  wf r ∧ ∀ h l u, m !! (h, l, u) = payload <$> exist r h l u.

Lemma findLocation_sorted l vrs :
  NoDup (location <$> vrs) → findLocation l (merge_sort byLocationDesc vrs) = findLocation l vrs.
Proof.
  intros Hd. assert (Hd' : NoDup (location <$> merge_sort byLocationDesc vrs))
    by by rewrite merge_sort_Permutation.
  apply option_eq. intros vr. rewrite !findLocation_Some by done. by rewrite merge_sort_Permutation.
Qed.

Lemma findLocation_app l vrs vr :
  findLocation l (vrs ++ [vr]) =
    match findLocation l vrs with
    | Some w => Some w
    | None => if decide (l = location vr) then Some vr else None
    end.
Proof. induction vrs as [|w vrs IH]; simpl; [done|]. by destruct (decide (l = location w)). Qed.

Lemma findLocation_filter l l' vrs :
  findLocation l (filter (λ vr, location vr ≠ l') vrs) =
    if decide (l = l') then None else findLocation l vrs.
Proof.
  induction vrs as [|w vrs IH]; [by case_decide|]. rewrite filter_cons.
  destruct (decide (location w ≠ l')) as [Hw|Hw%dec_stable]; cbn [findLocation];
    rewrite IH; repeat case_decide; congruence.
Qed.

Lemma routes_find r h l u :
  exist r h l u = findLocation l (default [] (routes r h u)).
Proof. unfold exist. by destruct (routes r h u). Qed.

Lemma exist_Add (dom loc user : string) (p : P) r h l u :
  wf r →
  match Add dom loc user p r with
  | (Ok _, r') => exist r (ToLower dom) loc user = None ∧
      exist r' h l u = if decide ((ToLower dom, loc, user) = (h, l, u))
                       then Some (mkRouter (ToLower dom) loc user p) else exist r h l u
  | (Err _, r') => r' = r ∧ is_Some (exist r (ToLower dom) loc user)
  end.
Proof.
  intros W. unfold Add. destruct (exist r (ToLower dom) loc user) as [vr|] eqn:He; [by eauto|].
  split; [done|]. rewrite routes_default. rewrite routes_find in He.
  assert (Hd : NoDup (location <$> (default [] (routes r (ToLower dom) user) ++
       [mkRouter (ToLower dom) loc user p]))).
  { rewrite fmap_app, Permutation_app_comm. simpl. constructor; [by apply findLocation_None|].
    destruct (routes r (ToLower dom) user) eqn:Hr; simpl; [by eapply (wf_distinct _ W)|constructor]. }
  unfold exist at 1. rewrite routes_insert. case_decide as Hk; simpl.
  - destruct Hk as [<- <-]. rewrite findLocation_sorted, findLocation_app by done.
    destruct (decide (l = loc)) as [->|Hne].
    + by rewrite He, !decide_True.
    + rewrite (decide_False (P := (_, _, _) = _)) by congruence. rewrite routes_find.
      destruct (findLocation l _); [done|]. by rewrite decide_False.
  - rewrite decide_False by naive_solver. done.
Qed.

Lemma exist_Del (dom loc user : string) r h l u :
  exist (Del dom loc user r) h l u =
    if decide ((ToLower dom, loc, user) = (h, l, u)) then None else exist r h l u.
Proof.
  unfold Del. destruct (indexByDomain r !! ToLower dom) as [bu|] eqn:Hb;
    [destruct (bu !! user) as [vrs|] eqn:Hu|].
  - replace bu with (default ∅ (indexByDomain r !! ToLower dom)) at 1 by by rewrite Hb.
    unfold exist at 1. rewrite routes_insert. case_decide as Hk; simpl.
    + destruct Hk as [<- <-]. rewrite findLocation_filter. unfold exist, routes.
      rewrite Hb; simpl; rewrite Hu; simpl. repeat case_decide; congruence.
    + by rewrite decide_False by naive_solver.
  - case_decide; [simplify_eq|done]. unfold exist, routes. by rewrite Hb; simpl; rewrite Hu.
  - case_decide; [simplify_eq|done]. unfold exist, routes. by rewrite Hb.
Qed.

Lemma op_refines o r m :
  refines r m →
  (run_op o r).1 = (spec_op o m).1 ∧ refines (run_op o r).2 (spec_op o m).2.
Proof.
  intros [W Hm]. destruct o as [dom loc user p|dom loc user]; simpl.
  - pose proof (wf_Add dom loc user p r W) as W'.
    assert (HA := λ h l u, exist_Add dom loc user p r h l u W).
    destruct (Add dom loc user p r) as [[[]|[]] r']; simpl in *.
    + rewrite Hm. destruct (HA "" "" "") as [-> _]; simpl. split; [done|]. split; [done|].
      intros h l u. destruct (HA h l u) as [_ ->]. rewrite lookup_insert. by case_decide.
    + rewrite Hm. destruct (HA "" "" "") as [-> [vr Hvr]]. by rewrite Hvr.
  - split; [done|]. split; [by apply wf_Del|]. intros h l u.
    rewrite exist_Del, lookup_delete. by case_decide.
Qed.

(** ** The longest matching location *)

Lemma leb_prefix p q : String.prefix p q = true → String.le p q.
Proof.
  revert q. induction p as [|c p IH]; intros [|d q]; simpl; try done.
  case_match; [subst|done]. intros Hp. specialize (IH _ Hp). revert IH.
  unfold String.le, String.leb. simpl. unfold Ascii.compare. by rewrite N.compare_refl.
Qed.

Lemma prefix_both p q s :
  String.prefix p s = true → String.prefix q s = true → (String.length p ≤ String.length q)%nat →
  String.prefix p q = true.
Proof.
  revert q s. induction p as [|c p IH]; intros [|d q] [|e s]; simpl; try done; try lia.
  repeat case_match; subst; try done. intros; eapply IH; eauto with lia.
Qed.

Lemma firstPrefix_Some path vrs vr :
  StronglySorted byLocationDesc vrs → firstPrefix path vrs = Some vr →
  vr ∈ vrs ∧ HasPrefix path (location vr) = true ∧
  ∀ w, w ∈ vrs → HasPrefix path (location w) = true →
       (String.length (location w) ≤ String.length (location vr))%nat.
Proof.
  induction 1 as [|v vrs Hs IH Hf]; simpl; [done|]. destruct (HasPrefix path (location v)) eqn:Hp.
  - intros [= ->]. split_and!; [by left|done|]. intros w [->|Hw]%elem_of_cons Hwp; [done|].
    rewrite Forall_forall in Hf. specialize (Hf _ Hw). unfold byLocationDesc in Hf.
    destruct (decide (String.length (location w) ≤ String.length (location vr))%nat); [done|].
    assert (location vr = location w) as ->; [|done].
    apply (anti_symm String.le); [|done]. apply leb_prefix, (prefix_both _ _ path); [done|done|lia].
  - intros Hfp. destruct (IH Hfp) as (? & ? & Hmax). split_and!; [by right|done|].
    intros w [->|Hw]%elem_of_cons Hwp; [congruence|]. by apply Hmax.
Qed.

Lemma firstPrefix_None path vrs :
  firstPrefix path vrs = None ↔ ∀ w, w ∈ vrs → HasPrefix path (location w) = false.
Proof.
  induction vrs as [|v vrs IH]; simpl; [set_solver|]. setoid_rewrite elem_of_cons.
  destruct (HasPrefix path (location v)) eqn:Hp; [|naive_solver].
  split; [done|]. intros H. rewrite H in Hp; naive_solver.
Qed.

(** [vr] serves [path] for the pair of [host] and [user]. *)
Definition serves r (host path user : string) vr : Prop :=
  ∃ vrs, routes r host user = Some vrs ∧ vr ∈ vrs ∧ HasPrefix path (location vr) = true.

Definition longest r (host path user : string) vr : Prop :=
  serves r host path user vr ∧
  ∀ w, serves r host path user w → (String.length (location w) ≤ String.length (location vr))%nat.

Lemma getLocked_Some r host path user vr :
  wf r → getLocked r host path user = Some vr → longest r host path user vr.
Proof.
  unfold getLocked. intros W (vrs & Hr & Hf)%bind_Some.
  apply firstPrefix_Some in Hf as (? & ? & Hmax); [|by eapply wf_sorted].
  split; [by exists vrs|]. intros w (vrs' & ? & ? & ?). simplify_eq. auto.
Qed.

Lemma getLocked_None r host path user :
  getLocked r host path user = None ↔ ∀ vr, ¬ serves r host path user vr.
Proof.
  unfold getLocked, serves. destruct (routes r host user) as [vrs|]; simpl; [|naive_solver].
  rewrite firstPrefix_None. split.
  - intros H vr (? & [= <-] & Hin & Hp). by rewrite H in Hp.
  - intros H w Hw. apply not_true_is_false. naive_solver.
Qed.

(** ** Order of the fallbacks *)

Fixpoint wildcards (labels : list string) : list string :=
  match labels with
  | [] => []
  | _ :: rest => if (3 <=? length labels)%nat then JoinDot ("*" :: rest) :: wildcards rest else []
  end.

Definition candidates (host : string) : list string :=
  ToLower host :: wildcards (SplitDot (ToLower host)) ++ ["*"].

Lemma wildcardWalk_candidates r path user labels :
  wildcardWalk r path user labels =
    head (omap (λ h, getExactOrAllUsersLocked r h path user) (wildcards labels)).
Proof.
  induction labels as [|w labels IH]; [done|]. cbn [wildcardWalk wildcards].
  destruct (3 <=? _)%nat; [|done]. simpl. destruct (getExactOrAllUsersLocked _ _ _ _); [done|]. apply IH.
Qed.

Lemma getByRoute_candidates r host path user :
  getByRoute r host path user =
    head (omap (λ h, getExactOrAllUsersLocked r h path user) (candidates host)).
Proof.
  unfold getByRoute, candidates. simpl. destruct (getExactOrAllUsersLocked r (ToLower host) _ _); [done|].
  rewrite wildcardWalk_candidates, omap_app. simpl.
  destruct (omap _ (wildcards _)); simpl; [|done]. by destruct (getExactOrAllUsersLocked _ _ _ _).
Qed.

Lemma head_omap_Some {A B} (f : A → option B) l b :
  head (omap f l) = Some b →
  ∃ i x, l !! i = Some x ∧ f x = Some b ∧ ∀ j y, (j < i)%nat → l !! j = Some y → f y = None.
Proof.
  induction l as [|x l IH]; simpl; [done|]. destruct (f x) eqn:Hx; simpl.
  - intros [= ->]. exists 0%nat, x. split_and!; try done. lia.
  - intros (i & y & ? & ? & H)%IH. exists (S i), y. split_and!; try done.
    intros [|j] z Hj Hz; simplify_eq/=; [done|]. eapply H; [|done]. lia.
Qed.

Lemma head_omap_None {A B} (f : A → option B) l :
  head (omap f l) = None ↔ ∀ x, x ∈ l → f x = None.
Proof.
  induction l as [|x l IH]; simpl; [set_solver|]. setoid_rewrite elem_of_cons.
  destruct (f x) eqn:Hx; simpl; [naive_solver|]. rewrite IH. naive_solver.
Qed.

Lemma exactOrAll_None r host path user :
  getExactOrAllUsersLocked r host path user = None ↔
  ∀ vr, ¬ serves r host path user vr ∧ ¬ serves r host path "" vr.
Proof.
  unfold getExactOrAllUsersLocked. destruct (getLocked r host path user) as [vr|] eqn:Hg.
  - split; [done|]. intros H. exfalso.
    assert (getLocked r host path user = None) by (apply getLocked_None; intros w; apply H).
    congruence.
  - rewrite getLocked_None in Hg. rewrite getLocked_None. naive_solver.
Qed.

Lemma exactOrAll_Some r host path user vr :
  wf r → getExactOrAllUsersLocked r host path user = Some vr →
  longest r host path user vr ∨
  (∀ w, ¬ serves r host path user w) ∧ longest r host path "" vr.
Proof.
  unfold getExactOrAllUsersLocked. intros W. destruct (getLocked r host path user) as [w|] eqn:Hg.
  - intros [= ->]. left. by apply getLocked_Some.
  - intros ?. right. split; [by apply getLocked_None|by apply getLocked_Some].
Qed.

(** ** Properties of the router *)

(** C31: whatever sequence of additions and deletions is applied to an empty
    router, it answers as a map from (lower-cased domain, location, user) to
    payload would: the same conflicts are reported and the same keys hold the
    same payloads afterwards. *)
Theorem routers_refine (os : list op) :
  let '(es, r) := run_ops os NewRouters in
  let '(es', m) := spec_ops os ∅ in
  es = es' ∧ ∀ h l u, payload <$> exist r h l u = m !! (h, l, u).
Proof.
  assert (H : ∀ r m, refines r m →
    (run_ops os r).1 = (spec_ops os m).1 ∧ refines (run_ops os r).2 (spec_ops os m).2).
  { induction os as [|o os IH]; intros r m Hr; simpl; [done|].
    destruct (op_refines o r m Hr) as [He Hr']. destruct (run_op o r) as [e r1], (spec_op o m) as [e' m1].
    simpl in *. destruct (IH _ _ Hr'). destruct (run_ops os r1), (spec_ops os m1). simpl in *. by subst. }
  destruct (H NewRouters ∅) as [He [_ Hm]].
  { split; [apply routers_wf_new|]. intros. by rewrite lookup_empty. }
  destruct (run_ops os NewRouters), (spec_ops os ∅). simpl in *. split; [done|]. intros. by rewrite Hm.
Qed.

(** C9: the route found for a host, a path and a user: its domain is the first
    of the candidate hosts (the host itself, its wildcard parents down to two
    labels after the star, then the star alone) that serves the path for the
    user or for all users; within that host the user's own routes win over the
    routes for all users, and of those the longest matching location is taken. *)
Theorem getByRoute_found r host path user vr :
  wf r → getByRoute r host path user = Some vr →
  ∃ i h, candidates host !! i = Some h ∧
    (longest r h path user vr ∨ (∀ w, ¬ serves r h path user w) ∧ longest r h path "" vr) ∧
    (∀ j h' w, (j < i)%nat → candidates host !! j = Some h' →
       ¬ serves r h' path user w ∧ ¬ serves r h' path "" w).
Proof.
  rewrite getByRoute_candidates. intros W (i & h & Hi & Hh & Hj)%head_omap_Some.
  exists i, h. split_and!; [done|by apply exactOrAll_Some|].
  intros j h' w Hlt Hc. by apply exactOrAll_None, (Hj j).
Qed.

(** no route is found exactly when no candidate host serves the path for
    the user or for all users. *)
Theorem getByRoute_none r host path user :
  getByRoute r host path user = None ↔
  ∀ h vr, h ∈ candidates host → ¬ serves r h path user vr ∧ ¬ serves r h path "" vr.
Proof.
  rewrite getByRoute_candidates, head_omap_None. split.
  - intros H h vr Hh. by apply exactOrAll_None, H.
  - intros H h Hh. apply exactOrAll_None. intros vr. by apply H.
Qed.

End routers.

(** ** Muxer: listeners behind one port, selected by host name *)

Record RouteConfig := mkRouteConfig {
  Domain : string; Location : string; RewriteHost : string;
  Username : string; Password : string; RouteByHTTPUser : string }.

(** [ln_id] identifies the object (and its accept channel). *)
Record Listener := mkListener {
  ln_name : string; ln_location : string; ln_routeByHTTPUser : string;
  ln_rewriteHost : string; ln_username : string; ln_password : string; ln_id : nat }.

Record Muxer := mkMuxer {
  registryRouter : Routers Listener;
  closedListeners : gset nat;
  nextListener : nat }.

Definition NewMuxer : Muxer := mkMuxer NewRouters ∅ 0.

Definition Listen (cfg : RouteConfig) (v : Muxer) : res error Listener * Muxer :=
  let l := mkListener (Domain cfg) (Location cfg) (RouteByHTTPUser cfg) (RewriteHost cfg)
             (Username cfg) (Password cfg) (nextListener v) in
  match Add (Domain cfg) (Location cfg) (RouteByHTTPUser cfg) l (registryRouter v) with
  | (Ok _, r) => (Ok l, mkMuxer r (closedListeners v) (S (nextListener v)))
  | (Err e, r) => (Err e, mkMuxer r (closedListeners v) (S (nextListener v)))
  end.

(** [Listener.Close]; [None] is the panic of closing the channel twice. *)
Definition CloseListener (l : Listener) (v : Muxer) : option Muxer :=
  let r := Del (ln_name l) (ln_location l) (ln_routeByHTTPUser l) (registryRouter v) in
  if decide (ln_id l ∈ closedListeners v) then None
  else Some (mkMuxer r ({[ ln_id l ]} ∪ closedListeners v) (nextListener v)).

Definition getListener (name path user : string) (v : Muxer) : option Listener :=
  payload <$> getByRoute (registryRouter v) name path user.

(** What becomes of an accepted connection. *)
Inductive outcome :=
| Closed            (** the connection is closed *)
| FailHook          (** no listener: [failHook] answers *)
| Delivered (l : Listener)
| Ignored.          (** the listener was closed in the meantime *)

(** The functions set on the muxer, as their results on this connection. *)
Record Hooks := mkHooks {
  setDeadlineOk : bool;
  vhostFunc : option (gmap string string);
  successHook : option (gmap string string → bool);
  checkAuth : option (string → string → gmap string string → bool);
  clearDeadlineOk : bool }.

Definition reqField (k : string) (info : gmap string string) : string := default "" (info !! k).

Definition authOk (h : Hooks) (l : Listener) (info : gmap string string) : bool :=
  match checkAuth h with
  | Some f => if decide (ln_username l = "") then true else f (ln_username l) (ln_password l) info
  | None => true
  end.

Definition handle (h : Hooks) (v : Muxer) : outcome :=
  if negb (setDeadlineOk h) then Closed else
  match vhostFunc h with
  | None => Closed
  | Some info =>
      match getListener (ToLower (reqField "Host" info)) (ToLower (reqField "Path" info))
              (reqField "HTTPUser" info) v with
      | None => FailHook
      | Some l =>
          if negb (match successHook h with Some f => f info | None => true end) then Closed
          else if negb (authOk h l info) then Closed
          else if negb (clearDeadlineOk h) then Closed
          else if decide (ln_id l ∈ closedListeners v) then Ignored
          else Delivered l
      end
  end.

(** The steps of a muxer; a listener is closed at most once. *)
Inductive mux_step (v : Muxer) : Muxer → Prop :=
| mux_listen cfg : mux_step v (Listen cfg v).2
| mux_close vr v' : CloseListener (payload vr) v = Some v' →
    exist (registryRouter v) (domain vr) (location vr) (httpUser vr) = Some vr → mux_step v v'.

(** Every registered listener is stored under its own key, and its accept
    channel is open. *)
Record mux_wf (v : Muxer) : Prop := {
  mw_router : wf (registryRouter v);
  mw_listener h l u vr : exist (registryRouter v) h l u = Some vr →
    ToLower (ln_name (payload vr)) = h ∧ ln_location (payload vr) = l ∧
    ln_routeByHTTPUser (payload vr) = u ∧ (ln_id (payload vr) < nextListener v)%nat ∧
    (ln_id (payload vr) ∉ closedListeners v);
  mw_unique h l u vr h' l' u' vr' :
    exist (registryRouter v) h l u = Some vr → exist (registryRouter v) h' l' u' = Some vr' →
    ln_id (payload vr) = ln_id (payload vr') → (h, l, u) = (h', l', u');
  mw_closed i : i ∈ closedListeners v → (i < nextListener v)%nat }.

Lemma mux_wf_new : mux_wf NewMuxer.
Proof. split; simpl; [apply routers_wf_new| | |set_solver]; intros *; unfold exist, routes; simpl; by rewrite lookup_empty. Qed.

Lemma mux_wf_Listen cfg v : mux_wf v → mux_wf (Listen cfg v).2.
Proof.
  intros [W Hl Hu Hc]. unfold Listen. set (ln := mkListener _ _ _ _ _ _ _).
  pose proof (wf_Add (Domain cfg) (Location cfg) (RouteByHTTPUser cfg) ln _ W) as W'.
  assert (HA := λ h l u, exist_Add (Domain cfg) (Location cfg) (RouteByHTTPUser cfg) ln _ h l u W).
  destruct (Add _ _ _ _ _) as [[[]|[]] r']; simpl in *; [|destruct (HA "" "" "") as [-> _]].
  - split; simpl; [done| | |intros i Hi; specialize (Hc _ Hi); lia].
    + intros h l u vr. destruct (HA h l u) as [_ ->]. case_decide; [intros; simplify_eq/=|].
      * split_and!; [done|done|done|lia|]. intros Hi%Hc. lia.
      * intros He. destruct (Hl _ _ _ _ He) as (? & ? & ? & ? & ?). split_and!; try done. lia.
    + intros h l u vr h' l' u' vr'. destruct (HA h l u) as [_ ->], (HA h' l' u') as [_ ->].
      repeat case_decide; intros E1 E2 Hid; simplify_eq/=; [done|..].
      * destruct (Hl _ _ _ _ E2) as (_ & _ & _ & ? & _). lia.
      * destruct (Hl _ _ _ _ E1) as (_ & _ & _ & ? & _). lia.
      * eauto.
  - split; simpl; [done| |done|intros i Hi; specialize (Hc _ Hi); lia].
    intros h l u vr He. destruct (Hl _ _ _ _ He) as (? & ? & ? & ? & ?). split_and!; try done. lia.
Qed.

Lemma mux_wf_close v vr v' :
  mux_wf v → exist (registryRouter v) (domain vr) (location vr) (httpUser vr) = Some vr →
  CloseListener (payload vr) v = Some v' → mux_wf v'.
Proof.
  intros [W Hl Hu Hc] Hvr. unfold CloseListener. case_decide; [done|]. intros [= <-].
  destruct (Hl _ _ _ _ Hvr) as (Hd & Hloc & Hus & Hlt & _).
  split; simpl; [by apply wf_Del| | |set_solver].
  - intros h l u w. rewrite exist_Del, Hd, Hloc, Hus. case_decide as Hk; [done|]. intros He.
    destruct (Hl _ _ _ _ He) as (? & ? & ? & ? & ?). split_and!; try done.
    apply not_elem_of_union. split; [|done]. intros Hid%elem_of_singleton.
    apply Hk. symmetry. eapply Hu; eauto.
  - intros h l u w h' l' u' w'. rewrite !exist_Del. repeat case_decide; naive_solver.
Qed.

Lemma mux_wf_steps v v' : mux_wf v → rtc mux_step v v' → mux_wf v'.
Proof. intros W H. induction H as [|? ? ? []]; eauto using mux_wf_Listen, mux_wf_close. Qed.

(** A route found by the router is stored under the key it carries. *)
Lemma serves_exist {P} (r : Routers P) h path u vr :
  wf r → serves r h path u vr → exist r h (location vr) u = Some vr.
Proof.
  intros W (vrs & Hr & Hin & _). unfold exist. rewrite Hr. simpl.
  apply findLocation_Some; [by eapply (wf_distinct _ W)|done].
Qed.

Lemma getByRoute_exist {P} (r : Routers P) host path u vr :
  wf r → getByRoute r host path u = Some vr →
  ∃ h u', h ∈ candidates host ∧ (u' = u ∨ u' = "") ∧ HasPrefix path (location vr) = true ∧
    exist r h (location vr) u' = Some vr.
Proof.
  rewrite getByRoute_candidates. intros W (i & h & Hi & Hh & _)%head_omap_Some.
  apply list_elem_of_lookup_2 in Hi. apply exactOrAll_Some in Hh; [|done].
  destruct Hh as [[Hs _]|[_ [Hs _]]]; [exists h, u|exists h, ""];
    (split_and!; [done|auto|by destruct Hs as (? & ? & ? & ?)|by eapply serves_exist]).
Qed.

(** A well-formed muxer hands no connection to a closed listener. *)
Lemma handle_open v h info : mux_wf v → vhostFunc h = Some info → handle h v ≠ Ignored.
Proof.
  intros [W Hl _ _] Hv. unfold handle, getListener. rewrite Hv. destruct (setDeadlineOk h); simpl; [|done].
  destruct (getByRoute _ _ _ _) as [vr|] eqn:Hg; simpl; [|done].
  destruct (getByRoute_exist _ _ _ _ _ W Hg) as (d & u & _ & _ & _ & He).
  destruct (Hl _ _ _ _ He) as (_ & _ & _ & _ & Hopen). rewrite (decide_False _ _ Hopen). by repeat case_match.
Qed.

(** A connection is delivered to a listener that fits it. *)
Lemma handle_delivered v h info l : mux_wf v → vhostFunc h = Some info → handle h v = Delivered l →
  (ln_id l ∉ closedListeners v) ∧
  ToLower (ln_name l) ∈ candidates (ToLower (reqField "Host" info)) ∧
  HasPrefix (ToLower (reqField "Path" info)) (ln_location l) = true ∧
  (ln_routeByHTTPUser l = reqField "HTTPUser" info ∨ ln_routeByHTTPUser l = "") ∧
  (∀ f, checkAuth h = Some f → ln_username l ≠ "" → f (ln_username l) (ln_password l) info = true).
Proof.
  intros [W Hl _ _] Hv. unfold handle, getListener. rewrite Hv. destruct (setDeadlineOk h); simpl; [|done].
  destruct (getByRoute _ _ _ _) as [vr|] eqn:Hg; simpl; [|done].
  destruct (getByRoute_exist _ _ _ _ _ W Hg) as (d & u & Hd & Hu & Hp & He).
  destruct (Hl _ _ _ _ He) as (<- & Hloc & Hus & _ & Hopen).
  rewrite (decide_False _ _ Hopen). destruct (match successHook h with Some _ => _ | None => _ end); simpl; [|done].
  destruct (authOk h (payload vr) info) eqn:Ha; simpl; [|done]. destruct (clearDeadlineOk h); simpl; [|done].
  intros [= <-]. rewrite Hloc, Hus. split_and!; try done.
  intros f Hf Hn. unfold authOk in Ha. by rewrite Hf, decide_False in Ha.
Qed.

(** in every reachable muxer a connection is delivered only to a listener
    that is registered and open, whose domain is a candidate for the requested
    host, whose location is a prefix of the path and whose user is the
    requested one or none, and only after the credentials of a listener with a
    user name have been accepted; it is never handed to a closed listener. *)
Theorem handle_delivers v h info :
  rtc mux_step NewMuxer v → vhostFunc h = Some info →
  handle h v ≠ Ignored ∧
  ∀ l, handle h v = Delivered l →
    (ln_id l ∉ closedListeners v) ∧
    ToLower (ln_name l) ∈ candidates (ToLower (reqField "Host" info)) ∧
    HasPrefix (ToLower (reqField "Path" info)) (ln_location l) = true ∧
    (ln_routeByHTTPUser l = reqField "HTTPUser" info ∨ ln_routeByHTTPUser l = "") ∧
    (∀ f, checkAuth h = Some f → ln_username l ≠ "" → f (ln_username l) (ln_password l) info = true).
Proof.
  intros Hr Hv. pose proof (mux_wf_steps _ _ mux_wf_new Hr) as Wm. split; [by eapply handle_open|]. intros l. by apply handle_delivered.
Qed.

(** ** Concrete runs *)

Definition demoRouters : Routers nat :=
  (Add "*" "/" "" 4%nat (Add "*.example.com" "/" "bob" 3%nat
    (Add "*.example.com" "/api" "" 2%nat (Add "*.Example.com" "/" "" 1%nat NewRouters).2).2).2).2.

Lemma demoRouters_wf : wf demoRouters.
Proof. repeat apply wf_Add. apply routers_wf_new. Qed.

Definition demoApi : Router nat := mkRouter "*.example.com" "/api" "" 2%nat.

Lemma getByRoute_found_witness :
  ∃ i h, candidates "www.example.com" !! i = Some h ∧
    (longest demoRouters h "/api/v1" "" demoApi ∨
     (∀ w, ¬ serves demoRouters h "/api/v1" "" w) ∧ longest demoRouters h "/api/v1" "" demoApi) ∧
    (∀ j h' w, (j < i)%nat → candidates "www.example.com" !! j = Some h' →
       ¬ serves demoRouters h' "/api/v1" "" w ∧ ¬ serves demoRouters h' "/api/v1" "" w).
Proof.
  apply (getByRoute_found demoRouters "www.example.com" "/api/v1" "" demoApi);
    [apply demoRouters_wf|vm_compute; reflexivity].
Defined.

(** A two-label host is not matched by the wildcard of its top-level domain. *)
Example two_labels_not_wild : candidates "example.com" = ["example.com"; "*"].
Proof. reflexivity. Qed.
Example three_labels : candidates "A.b.example.com" =
  ["a.b.example.com"; "*.b.example.com"; "*.example.com"; "*"].
Proof. reflexivity. Qed.

Definition demoCfg : RouteConfig := mkRouteConfig "*.example.com" "" "" "admin" "pw" "".
Definition demoMux : Muxer := (Listen demoCfg NewMuxer).2.
Definition demoHooks : Hooks :=
  mkHooks true (Some {[ "Host" := "www.example.com" ]}) None (Some (λ _ _ _, true)) true.

Lemma handle_delivers_witness :
  handle demoHooks demoMux = Delivered (mkListener "*.example.com" "" "" "" "admin" "pw" 0) ∧
  handle demoHooks demoMux ≠ Ignored ∧
  ∀ l, handle demoHooks demoMux = Delivered l →
    (ln_id l ∉ closedListeners demoMux) ∧
    ToLower (ln_name l) ∈ candidates (ToLower (reqField "Host" {[ "Host" := "www.example.com" ]})) ∧
    HasPrefix (ToLower (reqField "Path" {[ "Host" := "www.example.com" ]})) (ln_location l) = true ∧
    (ln_routeByHTTPUser l = reqField "HTTPUser" {[ "Host" := "www.example.com" ]} ∨
     ln_routeByHTTPUser l = "") ∧
    (∀ f, checkAuth demoHooks = Some f → ln_username l ≠ "" →
       f (ln_username l) (ln_password l) {[ "Host" := "www.example.com" ]} = true).
Proof.
  split; [vm_compute; reflexivity|].
  apply (handle_delivers demoMux demoHooks); [|reflexivity].
  apply rtc_once. apply mux_listen.
Defined.

End Vhost.
