(* ===== verification/Bytes.v ===== *)
(** * Bytes, big-endian integers and slices

    Go byte slices are lists of [Byte.byte]; integers of a fixed width are [Z]
    and wrap on encoding.  The functions of [encoding/binary], [copy] and the
    slice expressions the codecs use are defined here with their laws. *)
From S2P Require Import Prelude.
From Stdlib Require Export Strings.Byte.

Abbreviation byte := Byte.byte.
Abbreviation bytes := (list Byte.byte).

#[global] Instance byte_eq_dec : EqDecision byte := Byte.byte_eq_dec.

(** ** One byte *)

Definition Zb (b : byte) : Z := Z.of_N (Byte.to_N b).
Definition bZ (z : Z) : byte := default x00 (Byte.of_N (Z.to_N (z mod 256))).

Lemma Zb_range b : 0 ≤ Zb b < 256.
Proof. unfold Zb. pose proof (Byte.to_N_bounded b). lia. Qed.

Lemma bZ_Zb b : bZ (Zb b) = b.
Proof.
  unfold bZ. rewrite Z.mod_small by apply Zb_range. unfold Zb. rewrite N2Z.id.
  by rewrite Byte.of_to_N.
Qed.

Lemma Zb_bZ z : Zb (bZ z) = z mod 256.
Proof.
  unfold bZ. pose proof (Z.mod_pos_bound z 256 ltac:(lia)) as Hz.
  destruct (Byte.of_N (Z.to_N (z mod 256))) as [b|] eqn:E; simpl.
  - apply Byte.to_of_N in E. unfold Zb. rewrite E. lia.
  - apply Byte.of_N_None_iff in E. lia.
Qed.

Lemma Zb_bZ_small z : 0 ≤ z < 256 → Zb (bZ z) = z.
Proof. intros. rewrite Zb_bZ. by apply Z.mod_small. Qed.

#[global] Instance Zb_inj : Inj (=) (=) Zb.
Proof. intros a b H. by rewrite <-(bZ_Zb a), H, bZ_Zb. Qed.

#[global] Program Instance byte_countable : Countable byte :=
  inj_countable Byte.to_N Byte.of_N _.
Next Obligation. apply Byte.of_to_N. Qed.

(** ** [encoding/binary.BigEndian] *)

(** The [n] low-order bytes of [z], most significant first. *)
Fixpoint putBE (n : nat) (z : Z) : bytes :=
  match n with
  | O => []
  | S n' => putBE n' (z / 256) ++ [bZ z]
  end.

Definition getBE (l : bytes) : Z := foldl (λ acc b, acc * 256 + Zb b) 0 l.

Definition PutUint16 : Z → bytes := putBE 2.
Definition PutUint32 : Z → bytes := putBE 4.
Definition PutUint64 : Z → bytes := putBE 8.

Lemma length_putBE n z : length (putBE n z) = n.
Proof. revert z. induction n as [|n IH]; intros z; simpl; [done|]. rewrite length_app, IH. simpl. lia. Qed.

Lemma getBE_snoc l b : getBE (l ++ [b]) = getBE l * 256 + Zb b.
Proof. unfold getBE. by rewrite foldl_app. Qed.

Lemma getBE_putBE n z : 0 ≤ z < 256 ^ Z.of_nat n → getBE (putBE n z) = z.
Proof.
  revert z. induction n as [|n IH]; intros z Hz; simpl; [change (256 ^ Z.of_nat 0) with 1 in Hz; unfold getBE; simpl; lia|].
  rewrite Nat2Z.inj_succ, Z.pow_succ_r in Hz by lia.
  rewrite getBE_snoc, IH, Zb_bZ by (split; [apply Z.div_pos; lia|apply Z.div_lt_upper_bound; lia]).
  pose proof (Z.div_mod z 256). lia.
Qed.

Lemma getBE_range l : 0 ≤ getBE l < 256 ^ Z.of_nat (length l).
Proof.
  induction l as [|b l IH] using rev_ind; [done|]. rewrite getBE_snoc, length_app. simpl.
  rewrite Nat.add_1_r, Nat2Z.inj_succ, Z.pow_succ_r by lia. pose proof (Zb_range b). nia.
Qed.

Lemma putBE_getBE l : putBE (length l) (getBE l) = l.
Proof.
  induction l as [|b l IH] using rev_ind; [done|]. rewrite length_app. simpl.
  rewrite Nat.add_1_r, getBE_snoc. simpl. pose proof (Zb_range b).
  rewrite Z.div_add_l, (Z.div_small (Zb b)), Z.add_0_r, IH by lia. f_equal. f_equal.
  apply (inj Zb). rewrite Zb_bZ, Z.add_comm, Z.mod_add by lia. by apply Z.mod_small.
Qed.

Lemma putBE_getBE' n l : n = length l → putBE n (getBE l) = l.
Proof. intros ->. apply putBE_getBE. Qed.

Lemma putBE_inj n z1 z2 :
  0 ≤ z1 < 256 ^ Z.of_nat n → 0 ≤ z2 < 256 ^ Z.of_nat n → putBE n z1 = putBE n z2 → z1 = z2.
Proof. intros H1 H2 H. by rewrite <-(getBE_putBE n z1), H, getBE_putBE. Qed.

(** ** Slices *)

(** [b[i:j]] *)
Definition slice (b : bytes) (i j : nat) : bytes := take (j - i) (drop i b).

(** [copy(b[i:], src)]: as many bytes as fit. *)
Definition copyAt (b : bytes) (i : nat) (src : bytes) : bytes :=
  take i b ++ take (length b - i) src ++ drop (i + length src) b.

Lemma copyAt_app pre rest src :
  (length src ≤ length rest)%nat →
  copyAt (pre ++ rest) (length pre) src = pre ++ src ++ drop (length src) rest.
Proof.
  intros H. unfold copyAt. rewrite take_app_length. f_equal. rewrite length_app.
  rewrite take_ge by lia. f_equal. by rewrite drop_app_add'.
Qed.

Lemma slice_app_l b1 b2 i j : (j ≤ length b1)%nat → slice (b1 ++ b2) i j = slice b1 i j.
Proof.
  intros H. unfold slice. destruct (decide (i ≤ length b1)%nat).
  - rewrite drop_app_le by done. rewrite take_app_le; [done|]. rewrite length_drop. lia.
  - rewrite !(proj2 (Nat.sub_0_le j i)) by lia. done.
Qed.

Lemma slice_app_at b1 b2 b3 i j :
  i = length b1 → (j = length b1 + length b2)%nat → slice (b1 ++ b2 ++ b3) i j = b2.
Proof.
  intros -> ->. unfold slice. rewrite drop_app_length.
  by replace (length b1 + length b2 - length b1)%nat with (length b2) by lia; rewrite take_app_length.
Qed.

Lemma slice_app_end b1 b2 i j :
  i = length b1 → (j = length b1 + length b2)%nat → slice (b1 ++ b2) i j = b2.
Proof. intros. rewrite <-(app_nil_r b2) at 1. by apply slice_app_at. Qed.

Lemma length_slice b i j : (i ≤ j ≤ length b)%nat → length (slice b i j) = (j - i)%nat.
Proof. intros. unfold slice. rewrite length_take, length_drop. lia. Qed.

Lemma slice_split b i j : (i ≤ j ≤ length b)%nat → drop i b = slice b i j ++ drop j b.
Proof.
  intros. unfold slice. rewrite <-(take_drop (j - i) (drop i b)) at 1. f_equal.
  rewrite drop_drop. f_equal. lia.
Qed.

Create Rewrite HintDb blen.
#[export] Hint Rewrite length_putBE @length_app @length_take @length_drop @length_replicate
  @length_cons @length_nil : blen.
Ltac blen := autorewrite with blen in *; simpl in *; lia.

(** Bytes of a string constant. *)
Definition ofString (s : string) : bytes := Stdlib.Strings.String.list_byte_of_string s.

(** ** [encoding/hex] *)

Definition hexChar (d : Z) : ascii :=
  ascii_of_N (Z.to_N (if d <? 10 then 48 + d else 87 + d)).
Definition hexDigit (c : ascii) : option Z :=
  let n := Z.of_N (N_of_ascii c) in
  if (48 <=? n) && (n <=? 57) then Some (n - 48)
  else if (97 <=? n) && (n <=? 102) then Some (n - 87)
  else if (65 <=? n) && (n <=? 70) then Some (n - 55)
  else None.

(** [hex.EncodeToString] and [hex.DecodeString]. *)
Fixpoint hexEncode (b : bytes) : string :=
  match b with
  | [] => EmptyString
  | x :: b' => String (hexChar (Zb x / 16)) (String (hexChar (Zb x mod 16)) (hexEncode b'))
  end.

Fixpoint hexDecode (s : string) : option bytes :=
  match s with
  | EmptyString => Some []
  | String a (String b s') =>
      match hexDigit a, hexDigit b, hexDecode s' with
      | Some x, Some y, Some l => Some (bZ (x * 16 + y) :: l)
      | _, _, _ => None
      end
  | String _ EmptyString => None
  end.

Lemma hexDigit_char d : 0 ≤ d < 16 → hexDigit (hexChar d) = Some d.
Proof.
  intros H. assert (d ∈ seqZ 0 16) as Hin by (apply elem_of_seqZ; lia). revert Hin. clear H.
  vm_compute seqZ. intros Hin. repeat (apply elem_of_cons in Hin as [->|Hin]; [reflexivity|]).
  by apply not_elem_of_nil in Hin.
Qed.

Lemma hexDecode_encode b : hexDecode (hexEncode b) = Some b.
Proof.
  induction b as [|x b IH]; [done|]. cbn [hexEncode hexDecode]. pose proof (Zb_range x) as Hx.
  rewrite !hexDigit_char by (first [apply Z.mod_pos_bound; lia|split; [apply Z.div_pos; lia|apply Z.div_lt_upper_bound; lia]]).
  rewrite IH. f_equal. f_equal. rewrite <-(bZ_Zb x) at 3. f_equal. pose proof (Z.div_mod (Zb x) 16). lia.
Qed.
