(* ===== verification/Wire.v ===== *)
(** * Wire protocol v2: [pkg/proto/wire]

    Frames on a byte stream ([wire.go]), the hello negotiation and the
    transcript that binds it ([crypto.go]).  A connection is the list of bytes
    still to be read; a write produces the bytes it puts on the stream.
    SHA-256, the random source and the CPU test are arguments. *)
From S2P Require Import Prelude Bytes.

Module Wire.

Definition ProtocolV1 : string := "v1".
Definition ProtocolV2 : string := "v2".
Definition FrameTypeClientHello : Z := 1.
Definition FrameTypeServerHello : Z := 2.
Definition FrameTypeMessage : Z := 16.
Definition MessageCodecJSON : string := "json".
Definition UDPPacketCodecBinary : string := "binary-v1".
Definition DefaultMaxFramePayloadSize : Z := 64 * 1024.
(** ["FRP\x00\x02\r\n"] *)
Definition MagicV2 : bytes := ofString "FRP" ++ [x00; x02; x0d; x0a].

(** ** Frames *)

Record Frame := mkFrame { Type_ : Z; Flags : Z; Payload : bytes }.

Inductive error :=
| ErrShortRead                        (** [io.ReadFull] got fewer bytes *)
| ErrFlags (flags : Z)
| ErrTooLong (length limit : Z).

Record Conn := mkConn { input : bytes; maxFramePayloadSize : Z }.
Definition NewConn (rw : bytes) : Conn := mkConn rw DefaultMaxFramePayloadSize.

(** [io.ReadFull] of [n] bytes. *)
Definition ReadFull (n : nat) (rw : bytes) : res error (bytes * bytes) :=
  if decide (n ≤ length rw)%nat then Ok (take n rw, drop n rw) else Err ErrShortRead.

Definition ReadFrame (c : Conn) : res error (Frame * Conn) :=
  let? (header, rw) := ReadFull 8 (input c) in
  let frameType := getBE (slice header 0 2) in
  let flags := getBE (slice header 2 4) in
  let len := getBE (slice header 4 8) in
  if decide (flags ≠ 0) then Err (ErrFlags flags)
  else if decide (maxFramePayloadSize c < len) then Err (ErrTooLong len (maxFramePayloadSize c))
  else
    let? (payload, rw) := ReadFull (Z.to_nat len) rw in
    Ok (mkFrame frameType flags payload, mkConn rw (maxFramePayloadSize c)).

Definition frameHeader (f : Frame) : bytes :=
  PutUint16 (Type_ f) ++ PutUint16 (Flags f) ++ PutUint32 (Z.of_nat (length (Payload f))).

(** The bytes written: first the header, then the payload. *)
Definition WriteFrame (c : Conn) (f : Frame) : res error bytes :=
  if decide (Flags f ≠ 0) then Err (ErrFlags (Flags f))
  else if decide (maxFramePayloadSize c < Z.of_nat (length (Payload f)))
  then Err (ErrTooLong (Z.of_nat (length (Payload f))) (maxFramePayloadSize c))
  else Ok (frameHeader f ++ Payload f).

Definition WriteMagicIfV2 (wireProtocol : string) : bytes :=
  if decide (wireProtocol = ProtocolV2) then MagicV2 else [].

(** [CheckMagic]: the stream the caller goes on reading and whether it is v2;
    a stream that does not start with the magic is given back whole. *)
Definition CheckMagic (conn : bytes) : res error (bytes * bool) :=
  let? (buf, rest) := ReadFull (length MagicV2) conn in
  if decide (buf = MagicV2) then Ok (rest, true) else Ok (conn, false).

(** ** Hello messages *)

Record BootstrapInfo := mkBootstrap { Transport : string; TLS : bool; TCPMux : bool }.
Record MessageCapabilities := mkMsgCaps { Codecs : list string; UDPPacketCodecs : list string }.
Record CryptoCapabilities := mkCryptoCaps { Algorithms : list string; ClientRandom : bytes }.
Record ClientHello := mkClientHello {
  Bootstrap : BootstrapInfo; Message : MessageCapabilities; Crypto : CryptoCapabilities }.
Record MessageSelection := mkMsgSel { Codec : string; UDPPacketCodec : string }.
Record CryptoSelection := mkCryptoSel { Algorithm : string; ServerRandom : bytes }.
Record ServerHello := mkServerHello {
  SelMessage : MessageSelection; SelCrypto : CryptoSelection; Error : string }.

Inductive hello_error :=
| ErrMessageCodec
| ErrClientRandom (len : nat)
| ErrNoAlgorithm
| ErrRandom
| ErrSelectedCodec
| ErrSelectedUDPCodec
| ErrUDPCodecNotAdvertised
| ErrSelectedAlgorithm
| ErrAlgorithmNotAdvertised
| ErrServerRandom (len : nat).

Definition AEADAlgorithmAES256GCM : string := "aes-256-gcm".
Definition AEADAlgorithmXChaCha20Poly1305 : string := "xchacha20-poly1305".
Definition CryptoRandomSize : nat := 32.
Definition supportedAEADAlgorithms : list string :=
  [AEADAlgorithmAES256GCM; AEADAlgorithmXChaCha20Poly1305].

Definition Supports (l : list string) (value : string) : bool := bool_decide (value ∈ l).
Definition IsSupportedAEADAlgorithm (algorithm : string) : bool :=
  Supports supportedAEADAlgorithms algorithm.

Fixpoint SelectAEADAlgorithm (clientAlgorithms : list string) : option string :=
  match clientAlgorithms with
  | [] => None
  | algorithm :: rest =>
      if IsSupportedAEADAlgorithm algorithm then Some algorithm else SelectAEADAlgorithm rest
  end.

Definition PreferredAEADAlgorithms (hasFastAESGCM : bool) : list string :=
  if hasFastAESGCM then [AEADAlgorithmAES256GCM; AEADAlgorithmXChaCha20Poly1305]
  else [AEADAlgorithmXChaCha20Poly1305; AEADAlgorithmAES256GCM].

Definition ValidateCryptoCapabilities (c : CryptoCapabilities) : res hello_error unit :=
  if decide (length (ClientRandom c) ≠ CryptoRandomSize)
  then Err (ErrClientRandom (length (ClientRandom c)))
  else match SelectAEADAlgorithm (Algorithms c) with
       | None => Err ErrNoAlgorithm
       | Some _ => Ok tt
       end.

Definition ValidateClientHello (h : ClientHello) : res hello_error unit :=
  if negb (Supports (Codecs (Message h)) MessageCodecJSON) then Err ErrMessageCodec
  else ValidateCryptoCapabilities (Crypto h).

Definition selectUDPPacketCodec (codecs : list string) : string :=
  if Supports codecs UDPPacketCodecBinary then UDPPacketCodecBinary else "".

Definition clientHelloWithCryptoRandom (fast : bool) (bootstrap : BootstrapInfo)
    (clientRandom : bytes) : ClientHello :=
  mkClientHello bootstrap (mkMsgCaps [MessageCodecJSON] [UDPPacketCodecBinary])
    (mkCryptoCaps (PreferredAEADAlgorithms fast) clientRandom).

(** [random] is what [rand.Read] put into the 32-byte buffer, if it did not fail. *)
Definition NewClientHello (fast : bool) (random : option bytes) (bootstrap : BootstrapInfo)
    : res hello_error ClientHello :=
  match random with
  | None => Err ErrRandom
  | Some clientRandom => Ok (clientHelloWithCryptoRandom fast bootstrap clientRandom)
  end.

Definition NewServerHello (random : option bytes) (clientHello : ClientHello)
    : res hello_error ServerHello :=
  let? _ := ValidateClientHello clientHello in
  match SelectAEADAlgorithm (Algorithms (Crypto clientHello)) with
  | None => Err ErrNoAlgorithm
  | Some algorithm =>
      match random with
      | None => Err ErrRandom
      | Some serverRandom =>
          Ok (mkServerHello
                (mkMsgSel MessageCodecJSON
                   (selectUDPPacketCodec (UDPPacketCodecs (Message clientHello))))
                (mkCryptoSel algorithm serverRandom) "")
      end
  end.

Definition ValidateServerHelloForClient (clientHello : ClientHello) (serverHello : ServerHello)
    : res hello_error unit :=
  let udpPacketCodec := UDPPacketCodec (SelMessage serverHello) in
  let selection := SelCrypto serverHello in
  if decide (Codec (SelMessage serverHello) ≠ MessageCodecJSON) then Err ErrSelectedCodec
  else if negb (bool_decide (udpPacketCodec = "")) && negb (bool_decide (udpPacketCodec = UDPPacketCodecBinary))
  then Err ErrSelectedUDPCodec
  else if negb (bool_decide (udpPacketCodec = ""))
          && negb (Supports (UDPPacketCodecs (Message clientHello)) udpPacketCodec)
  then Err ErrUDPCodecNotAdvertised
  else if negb (IsSupportedAEADAlgorithm (Algorithm selection)) then Err ErrSelectedAlgorithm
  else if negb (Supports (Algorithms (Crypto clientHello)) (Algorithm selection))
  then Err ErrAlgorithmNotAdvertised
  else if decide (length (ServerRandom selection) ≠ CryptoRandomSize)
  then Err (ErrServerRandom (length (ServerRandom selection)))
  else Ok tt.

(** ** Transcript *)

Definition cryptoTranscriptLabel : bytes := ofString "frp wire v2 crypto transcript".

(** What [writeCryptoTranscriptPart] feeds to the hash. *)
Definition writeCryptoTranscriptPart (label payload : bytes) : bytes :=
  [x00] ++ label ++ [x00] ++ PutUint64 (Z.of_nat (length payload)) ++ payload.

Definition cryptoTranscript (clientHelloPayload serverHelloPayload : bytes) : bytes :=
  cryptoTranscriptLabel
    ++ writeCryptoTranscriptPart (ofString "client hello") clientHelloPayload
    ++ writeCryptoTranscriptPart (ofString "server hello") serverHelloPayload.

Definition HashCryptoTranscript (sha256 : bytes → bytes) (clientHelloPayload serverHelloPayload : bytes)
    : bytes := sha256 (cryptoTranscript clientHelloPayload serverHelloPayload).

(** ** Lemmas *)

Lemma ReadFull_app l r : ReadFull (length l) (l ++ r) = Ok (l, r).
Proof.
  unfold ReadFull. rewrite decide_True by (rewrite length_app; lia).
  by rewrite take_app_length, drop_app_length.
Qed.

Lemma ReadFull_app' n l r : n = length l → ReadFull n (l ++ r) = Ok (l, r).
Proof. intros ->. apply ReadFull_app. Qed.

Lemma ReadFull_Ok n rw l r : ReadFull n rw = Ok (l, r) → rw = l ++ r ∧ length l = n.
Proof.
  unfold ReadFull. case_decide; [|done]. intros [= <- <-]. rewrite take_drop, length_take. split; [done|lia].
Qed.

Lemma SelectAEADAlgorithm_Some algs a :
  SelectAEADAlgorithm algs = Some a → a ∈ algs ∧ IsSupportedAEADAlgorithm a = true.
Proof.
  induction algs as [|b algs IH]; simpl; [done|]. destruct (IsSupportedAEADAlgorithm b) eqn:Hb.
  - intros [= ->]. split; [by left|done].
  - intros [??]%IH. split; [by right|done].
Qed.

Lemma slice_frameHeader f :
  slice (frameHeader f) 0 2 = PutUint16 (Type_ f) ∧
  slice (frameHeader f) 2 4 = PutUint16 (Flags f) ∧
  slice (frameHeader f) 4 8 = PutUint32 (Z.of_nat (length (Payload f))).
Proof.
  unfold frameHeader. split_and!.
  - by apply (slice_app_at [] (PutUint16 (Type_ f))).
  - by apply (slice_app_at (PutUint16 (Type_ f)) (PutUint16 (Flags f))).
  - rewrite app_assoc, <-(app_nil_r (PutUint32 _)).
    by apply (slice_app_at (PutUint16 (Type_ f) ++ PutUint16 (Flags f))).
Qed.

(** ** Properties *)

Definition frame_ok (c : Conn) (f : Frame) : Prop :=
  0 ≤ Type_ f < 2 ^ 16 ∧ Flags f = 0 ∧ Z.of_nat (length (Payload f)) ≤ maxFramePayloadSize c.

(** A frame within the limits is written, and read back with what follows. *)
Lemma frame_written c f rest :
  frame_ok c f → 0 ≤ maxFramePayloadSize c < 2 ^ 32 →
  ∃ bs, WriteFrame c f = Ok bs ∧
    ReadFrame (mkConn (bs ++ rest) (maxFramePayloadSize c)) = Ok (f, mkConn rest (maxFramePayloadSize c)).
Proof.
  intros (Ht & Hf & Hl) Hm. unfold WriteFrame. rewrite decide_False by lia. rewrite decide_False by lia.
  eexists; split; [done|]. unfold ReadFrame; cbn [input maxFramePayloadSize].
  rewrite <-app_assoc, (ReadFull_app' 8 (frameHeader f))
    by (unfold frameHeader, PutUint16, PutUint32; blen).
  destruct (slice_frameHeader f) as (-> & -> & ->).
  unfold PutUint16, PutUint32. rewrite !getBE_putBE by (simpl; lia).
  rewrite decide_False by lia. rewrite decide_False by lia. rewrite Nat2Z.id, ReadFull_app.
  destruct f; simpl in *. by subst.
Qed.

(** Write, respectively read, frames one after the other. *)
Fixpoint WriteFrames (c : Conn) (fs : list Frame) : res error bytes :=
  match fs with
  | [] => Ok []
  | f :: fs' => let? b := WriteFrame c f in let? bs := WriteFrames c fs' in Ok (b ++ bs)
  end.

Fixpoint ReadFrames (n : nat) (c : Conn) : res error (list Frame * Conn) :=
  match n with
  | O => Ok ([], c)
  | S n' => let? (f, c) := ReadFrame c in let? (fs, c) := ReadFrames n' c in Ok (f :: fs, c)
  end.

(** C16: frames within the limits can all be written, and a reader with the
    same limit gets exactly these frames back, in order, and is then positioned
    at the bytes that followed them. *)
Theorem frames_roundtrip c fs rest :
  0 ≤ maxFramePayloadSize c < 2 ^ 32 → Forall (frame_ok c) fs →
  ∃ bs, WriteFrames c fs = Ok bs ∧
    ReadFrames (length fs) (mkConn (bs ++ rest) (maxFramePayloadSize c)) =
      Ok (fs, mkConn rest (maxFramePayloadSize c)).
Proof.
  intros Hm. induction 1 as [|f fs Hf Hfs IH]; [by exists []|].
  destruct IH as (bs & Hw & Hr). destruct (frame_written c f (bs ++ rest) Hf Hm) as (b & Hb & Hrb).
  exists (b ++ bs). simpl. rewrite Hb, Hw. split; [done|]. by rewrite <-app_assoc, Hrb, Hr.
Qed.

(** whatever bytes arrive, a frame that [ReadFrame] accepts has no flags, a
    payload of at most the limit, and the bytes consumed are exactly the ones
    [WriteFrame] produces for it: nothing is skipped and nothing is read twice. *)
Theorem ReadFrame_sound c f c' :
  0 ≤ maxFramePayloadSize c →
  ReadFrame c = Ok (f, c') →
  frame_ok c f ∧ maxFramePayloadSize c' = maxFramePayloadSize c ∧
  ∃ bs, WriteFrame c f = Ok bs ∧ input c = bs ++ input c'.
Proof.
  intros Hm. unfold ReadFrame. destruct (ReadFull 8 (input c)) as [[h rw]|] eqn:Hh; [|done].
  apply ReadFull_Ok in Hh as [-> Hh]. destruct h as [|b0 [|b1 [|b2 [|b3 [|b4 [|b5 [|b6 [|b7 []]]]]]]]]; try done.
  set (h := [b0; b1; b2; b3; b4; b5; b6; b7]).
  change (slice h 0 2) with [b0; b1]. change (slice h 2 4) with [b2; b3].
  change (slice h 4 8) with [b4; b5; b6; b7].
  case_decide as Hfl; [done|]. case_decide as Hlen; [done|].
  destruct (ReadFull _ rw) as [[p rw']|] eqn:Hp; [|done]. apply ReadFull_Ok in Hp as [-> Hp].
  intros [= <- <-]. pose proof (getBE_range [b0; b1]). pose proof (getBE_range [b4; b5; b6; b7]).
  unfold frame_ok, WriteFrame; cbn [Type_ Flags Payload maxFramePayloadSize input].
  rewrite (decide_False (P := _ ≠ 0)) by lia. rewrite decide_False by lia.
  split_and!; [simpl in *; lia..|done|]. eexists; split; [done|].
  unfold frameHeader; cbn [Type_ Flags Payload]. rewrite Hp, Z2Nat.id by lia. unfold PutUint16, PutUint32.
  by rewrite (putBE_getBE' 2 [b0; b1]), (putBE_getBE' 2 [b2; b3]), (putBE_getBE' 4 [b4; b5; b6; b7]).
Qed.

(** The client accepts the answer to its hello. *)
Lemma server_hello_accepted random clientHello serverHello :
  NewServerHello (Some random) clientHello = Ok serverHello → length random = CryptoRandomSize →
  ValidateServerHelloForClient clientHello serverHello = Ok tt ∧
  SelectAEADAlgorithm (Algorithms (Crypto clientHello)) = Some (Algorithm (SelCrypto serverHello)).
Proof.
  unfold NewServerHello. destruct (ValidateClientHello clientHello) as [[]|]; [|done].
  destruct (SelectAEADAlgorithm _) as [a|] eqn:Ha; [|done]. intros [= <-] Hr.
  split; [|done]. apply SelectAEADAlgorithm_Some in Ha as [Hin Hs].
  unfold ValidateServerHelloForClient; simpl. rewrite Hs, Hr; simpl.
  unfold selectUDPPacketCodec. destruct (Supports (UDPPacketCodecs _) UDPPacketCodecBinary) eqn:Hu; simpl.
  - rewrite Hu. simpl. unfold Supports. by rewrite bool_decide_eq_true_2.
  - unfold Supports. by rewrite bool_decide_eq_true_2.
Qed.

(** the hello exchange agrees: the answer the server builds for a hello it
    accepts passes the checks of the client that sent the hello, and the
    algorithm of the answer is the first of the client's list that is
    supported. *)
Theorem hello_agreement random clientHello serverHello :
  NewServerHello (Some random) clientHello = Ok serverHello → length random = CryptoRandomSize →
  ValidateServerHelloForClient clientHello serverHello = Ok tt ∧
  SelectAEADAlgorithm (Algorithms (Crypto clientHello)) = Some (Algorithm (SelCrypto serverHello)).
Proof. apply server_hello_accepted. Qed.

(** the transcript binds both hello payloads: two pairs of payloads of
    less than [2^64] bytes with the same transcript are the same pair. *)
Theorem cryptoTranscript_inj c1 s1 c2 s2 :
  Z.of_nat (length c1) < 2 ^ 64 → Z.of_nat (length c2) < 2 ^ 64 →
  cryptoTranscript c1 s1 = cryptoTranscript c2 s2 → c1 = c2 ∧ s1 = s2.
Proof.
  intros H1 H2 H. unfold cryptoTranscript, writeCryptoTranscriptPart in H.
  rewrite <-!app_assoc in H. repeat (apply app_inv_head in H).
  apply app_inj_1 in H as [Hlen H]; [|unfold PutUint64; by rewrite !length_putBE].
  apply putBE_inj in Hlen; [|simpl; lia..].
  apply app_inj_1 in H as [<- H]; [|lia]. split; [done|].
  repeat (apply app_inv_head in H). by apply app_inj_1 in H as [_ ?]; [|unfold PutUint64; by rewrite !length_putBE].
Qed.

(** ** Concrete runs *)

Definition demoFrame : Frame := mkFrame FrameTypeMessage 0 [x01; x02; x03].
Definition demoConn : Conn := NewConn [].

Lemma frames_roundtrip_witness :
  ∃ bs, WriteFrames demoConn [demoFrame; demoFrame] = Ok bs ∧
    ReadFrames 2 (mkConn (bs ++ [xff]) (maxFramePayloadSize demoConn)) =
      Ok ([demoFrame; demoFrame], mkConn [xff] (maxFramePayloadSize demoConn)).
Proof.
  apply (frames_roundtrip demoConn [demoFrame; demoFrame] [xff]); [vm_compute; done|].
  repeat constructor; vm_compute; done.
Defined.

Definition demoInput : bytes := [x00; x10; x00; x00; x00; x00; x00; x01; xaa; xbb].

Lemma ReadFrame_sound_witness :
  frame_ok (NewConn demoInput) (mkFrame 16 0 [xaa]) ∧
  maxFramePayloadSize (NewConn [xbb]) = maxFramePayloadSize (NewConn demoInput) ∧
  ∃ bs, WriteFrame (NewConn demoInput) (mkFrame 16 0 [xaa]) = Ok bs ∧
    input (NewConn demoInput) = bs ++ input (NewConn [xbb]).
Proof. apply ReadFrame_sound; [vm_compute; done|vm_compute; reflexivity]. Defined.

Definition demoHello : ClientHello :=
  clientHelloWithCryptoRandom false (mkBootstrap "tcp" true true) (replicate 32 x07).
Definition demoServerHello : ServerHello :=
  mkServerHello (mkMsgSel MessageCodecJSON UDPPacketCodecBinary)
    (mkCryptoSel AEADAlgorithmXChaCha20Poly1305 (replicate 32 x09)) "".

Lemma hello_agreement_witness :
  ValidateServerHelloForClient demoHello demoServerHello = Ok tt ∧
  SelectAEADAlgorithm (Algorithms (Crypto demoHello)) = Some (Algorithm (SelCrypto demoServerHello)).
Proof. apply (hello_agreement (replicate 32 x09)); vm_compute; reflexivity. Defined.

Lemma cryptoTranscript_inj_witness : [x01] = [x01] ∧ [x02] = [x02].
Proof. apply cryptoTranscript_inj; [done|done|reflexivity]. Defined.

End Wire.
