(* ===== verification/UdpBinary.v ===== *)
(** * Binary UDP packets of wire protocol v2: [pkg/msg/udp_binary.go]

    A UDP packet with its addresses is packed into one message body.  The
    encoder fills a buffer of the computed length at increasing offsets, the
    decoder reads the body at increasing offsets; both are modelled with their
    offsets. *)
From S2P Require Import Prelude Bytes Wire.

Module UdpBinary.

Definition MaxUDPPayloadSize : Z := 65507.
Definition udpPacketFlagLocalAddr : Z := 1.
Definition udpPacketFlagRemoteAddr : Z := 2.
Definition udpPacketValidFlags : Z := Z.lor udpPacketFlagLocalAddr udpPacketFlagRemoteAddr.

(** [net.UDPAddr] and the packet; nil pointers are [None]. *)
Record UDPAddr := mkUDPAddr { IP : bytes; Port : Z; Zone : bytes }.
Record UDPPacket := mkUDPPacket {
  Content : bytes; LocalAddr : option UDPAddr; RemoteAddr : option UDPAddr }.

Record binaryUDPAddr := mkBinaryUDPAddr {
  family : Z; ip : bytes; port : Z; zone : bytes }.

Inductive addr_error :=
| ErrPortRange (port : Z) | ErrIPv4Zone | ErrInvalidIP | ErrZoneTooLong | ErrZoneUTF8
| ErrTruncatedFamily | ErrUnknownFamily (family : Z) | ErrTruncatedAddress | ErrTruncatedZone.

Inductive error :=
| ErrNilPacket | ErrNoRemote | ErrPayloadTooLong (len : Z) | ErrFrameTooLong (len : Z)
| ErrLocal (e : addr_error) | ErrRemote (e : addr_error)
| ErrBodyTooShort | ErrReservedFlags (flags : Z) | ErrTruncatedLength
| ErrTruncatedPayload | ErrTrailing (n : nat).

(** ** The library functions used *)

Definition inRange (lo hi : Z) (b : byte) : bool := (lo <=? Zb b) && (Zb b <=? hi).

(** [utf8.Valid]: well-formed sequences of one to four bytes. *)
Fixpoint utf8Valid (s : bytes) : bool :=
  match s with
  | [] => true
  | b0 :: s1 =>
      if inRange 0 127 b0 then utf8Valid s1 else
      match s1 with
      | [] => false
      | b1 :: s2 =>
          if inRange 194 223 b0 then inRange 128 191 b1 && utf8Valid s2 else
          match s2 with
          | [] => false
          | b2 :: s3 =>
              if inRange 224 239 b0 then
                inRange (if Zb b0 =? 224 then 160 else 128) (if Zb b0 =? 237 then 159 else 191) b1
                && inRange 128 191 b2 && utf8Valid s3
              else
              match s3 with
              | [] => false
              | b3 :: s4 =>
                  inRange 240 244 b0
                  && inRange (if Zb b0 =? 240 then 144 else 128) (if Zb b0 =? 244 then 143 else 191) b1
                  && inRange 128 191 b2 && inRange 128 191 b3 && utf8Valid s4
              end
          end
      end
  end.

Definition v4InV6Prefix : bytes := replicate 10 x00 ++ [xff; xff].

(** [net.IP.To4] and [net.IP.To16]. *)
Definition To4 (a : bytes) : option bytes :=
  if decide (length a = 4%nat) then Some a
  else if decide (length a = 16%nat ∧ take 12 a = v4InV6Prefix) then Some (drop 12 a)
  else None.

Definition To16 (a : bytes) : option bytes :=
  if decide (length a = 4%nat) then Some (v4InV6Prefix ++ a)
  else if decide (length a = 16%nat) then Some a
  else None.

(** ** Encoder *)

Definition validateBinaryUDPAddr (addr : UDPAddr) : res addr_error binaryUDPAddr :=
  if decide (Port addr < 0 ∨ 65535 < Port addr) then Err (ErrPortRange (Port addr))
  else match To4 (IP addr) with
       | Some ip4 =>
           if decide (Zone addr ≠ []) then Err ErrIPv4Zone
           else Ok (mkBinaryUDPAddr 4 ip4 (Port addr) [])
       | None =>
           match To16 (IP addr) with
           | None => Err ErrInvalidIP
           | Some ip6 =>
               if decide (255 < length (Zone addr))%nat then Err ErrZoneTooLong
               else if negb (utf8Valid (Zone addr)) then Err ErrZoneUTF8
               else Ok (mkBinaryUDPAddr 6 ip6 (Port addr) (Zone addr))
           end
       end.

Definition binaryUDPAddrLen (addr : binaryUDPAddr) : nat :=
  1 + length (ip addr) + 2 + 1 + length (zone addr).

(** Write [src] at the offset and move the offset behind it. *)
Definition put (src : bytes) (bo : bytes * nat) : bytes * nat :=
  (copyAt bo.1 bo.2 src, (bo.2 + length src)%nat).

Definition putBinaryUDPAddr (addr : binaryUDPAddr) (bo : bytes * nat) : bytes * nat :=
  let bo := put [bZ (family addr)] bo in
  let bo := put (ip addr) bo in
  let bo := put (PutUint16 (port addr)) bo in
  let bo := put [bZ (Z.of_nat (length (zone addr)))] bo in
  put (zone addr) bo.

Definition EncodeUDPPacketBinary (packet : option UDPPacket) : res error bytes :=
  match packet with
  | None => Err ErrNilPacket
  | Some packet =>
  match RemoteAddr packet with
  | None => Err ErrNoRemote
  | Some remote =>
  if decide (MaxUDPPayloadSize < Z.of_nat (length (Content packet)))
  then Err (ErrPayloadTooLong (Z.of_nat (length (Content packet))))
  else
  let bodyLen := (1 + 2 + length (Content packet))%nat in
  let? (flags, localAddr, bodyLen) :=
    match LocalAddr packet with
    | None => Ok (0, None, bodyLen)
    | Some local =>
        match validateBinaryUDPAddr local with
        | Err e => Err (ErrLocal e)
        | Ok a => Ok (Z.lor 0 udpPacketFlagLocalAddr, Some a, (bodyLen + binaryUDPAddrLen a)%nat)
        end
    end in
  let flags := Z.lor flags udpPacketFlagRemoteAddr in
  match validateBinaryUDPAddr remote with
  | Err e => Err (ErrRemote e)
  | Ok remoteAddr =>
  let bodyLen := (bodyLen + binaryUDPAddrLen remoteAddr)%nat in
  if decide (Wire.DefaultMaxFramePayloadSize < 2 + Z.of_nat bodyLen)
  then Err (ErrFrameTooLong (2 + Z.of_nat bodyLen))
  else
  let bo := put [bZ flags] (replicate bodyLen x00, 0%nat) in
  let bo := match localAddr with Some a => putBinaryUDPAddr a bo | None => bo end in
  let bo := putBinaryUDPAddr remoteAddr bo in
  let bo := put (PutUint16 (Z.of_nat (length (Content packet)))) bo in
  Ok (put (Content packet) bo).1
  end end end.

(** ** Decoder *)

Definition readBinaryUDPAddr (body : bytes) (offset : nat) : res addr_error (UDPAddr * nat) :=
  match body !! offset with
  | None => Err ErrTruncatedFamily
  | Some fam =>
  let offset := S offset in
  let? ipLen := (if decide (Zb fam = 4) then Ok 4%nat
                 else if decide (Zb fam = 6) then Ok 16%nat
                 else Err (ErrUnknownFamily (Zb fam))) in
  if decide (length body - offset < ipLen + 3)%nat then Err ErrTruncatedAddress
  else
  let ip := slice body offset (offset + ipLen) in
  let offset := (offset + ipLen)%nat in
  let port := getBE (slice body offset (offset + 2)) in
  let offset := (offset + 2)%nat in
  let zoneLen := Z.to_nat (Zb (default x00 (body !! offset))) in
  let offset := S offset in
  if decide (length body - offset < zoneLen)%nat then Err ErrTruncatedZone
  else
  let zoneBytes := slice body offset (offset + zoneLen) in
  if decide (Zb fam = 4 ∧ zoneLen ≠ 0%nat) then Err ErrIPv4Zone
  else if negb (utf8Valid zoneBytes) then Err ErrZoneUTF8
  else Ok (mkUDPAddr ip port zoneBytes, (offset + zoneLen)%nat)
  end.

(** The optional address of a flag; [wrap] names which one failed. *)
Definition readFlagged (present : bool) (wrap : addr_error → error) (body : bytes) (offset : nat)
    : res error (option UDPAddr * nat) :=
  if present then
    match readBinaryUDPAddr body offset with
    | Err e => Err (wrap e)
    | Ok (a, offset) => Ok (Some a, offset)
    end
  else Ok (None, offset).

Definition DecodeUDPPacketBinary (body : bytes) : res error UDPPacket :=
  if decide (length body < 3)%nat then Err ErrBodyTooShort
  else if decide (Wire.DefaultMaxFramePayloadSize < 2 + Z.of_nat (length body))
  then Err (ErrFrameTooLong (2 + Z.of_nat (length body)))
  else
  let flags := Zb (default x00 (body !! 0%nat)) in
  if decide (Z.ldiff flags udpPacketValidFlags ≠ 0) then Err (ErrReservedFlags flags)
  else if decide (Z.land flags udpPacketFlagRemoteAddr = 0) then Err ErrNoRemote
  else
  let? (local, offset) :=
    readFlagged (negb (Z.land flags udpPacketFlagLocalAddr =? 0)) ErrLocal body 1 in
  let? (remote, offset) :=
    readFlagged (negb (Z.land flags udpPacketFlagRemoteAddr =? 0)) ErrRemote body offset in
  if decide (length body - offset < 2)%nat then Err ErrTruncatedLength
  else
  let payloadLen := Z.to_nat (getBE (slice body offset (offset + 2))) in
  let offset := (offset + 2)%nat in
  if decide (MaxUDPPayloadSize < Z.of_nat payloadLen) then Err (ErrPayloadTooLong (Z.of_nat payloadLen))
  else
  let remaining := (length body - offset)%nat in
  if decide (remaining < payloadLen)%nat then Err ErrTruncatedPayload
  else if decide (payloadLen < remaining)%nat then Err (ErrTrailing (remaining - payloadLen))
  else Ok (mkUDPPacket (slice body offset (offset + payloadLen)) local remote).

(** ** Reference format *)

Definition addrBytes (a : binaryUDPAddr) : bytes :=
  [bZ (family a)] ++ ip a ++ PutUint16 (port a) ++ [bZ (Z.of_nat (length (zone a)))] ++ zone a.

Definition optBytes (a : option binaryUDPAddr) : bytes :=
  match a with Some a => addrBytes a | None => [] end.

(** The body of a packet: flags, addresses, length and payload in sequence. *)
Definition bodyBytes (local : option binaryUDPAddr) (remote : binaryUDPAddr) (content : bytes) : bytes :=
  [bZ (match local with Some _ => 3 | None => 2 end)] ++ optBytes local ++ addrBytes remote
    ++ PutUint16 (Z.of_nat (length content)) ++ content.

Definition addr_ok (a : binaryUDPAddr) : Prop :=
  0 ≤ port a < 65536 ∧ utf8Valid (zone a) = true ∧
  (family a = 4 ∧ length (ip a) = 4%nat ∧ zone a = [] ∨
   family a = 6 ∧ length (ip a) = 16%nat ∧ (length (zone a) ≤ 255)%nat).

Definition toUDPAddr (a : binaryUDPAddr) : UDPAddr := mkUDPAddr (ip a) (port a) (zone a).

(** The address the receiver sees: IPv4-mapped addresses arrive as IPv4. *)
Definition canonAddr (a : UDPAddr) : UDPAddr :=
  match To4 (IP a) with Some ip4 => mkUDPAddr ip4 (Port a) (Zone a) | None => a end.

Definition canonPacket (p : UDPPacket) : UDPPacket :=
  mkUDPPacket (Content p) (canonAddr <$> LocalAddr p) (canonAddr <$> RemoteAddr p).

(** ** The encoder writes the reference format *)

Definition filled (pre : bytes) (n : nat) : bytes * nat :=
  (pre ++ replicate (n - length pre) x00, length pre).

Lemma put_filled src pre n :
  (length pre + length src ≤ n)%nat → put src (filled pre n) = filled (pre ++ src) n.
Proof.
  intros H. unfold put, filled; cbn [fst snd]. rewrite copyAt_app by (rewrite length_replicate; lia).
  rewrite length_app, <-app_assoc, drop_replicate. do 4 f_equal. lia.
Qed.

Lemma length_addrBytes a : length (addrBytes a) = binaryUDPAddrLen a.
Proof. unfold addrBytes, binaryUDPAddrLen, PutUint16. blen. Qed.

Lemma length_PutUint16 z : length (PutUint16 z) = 2%nat.
Proof. apply length_putBE. Qed.

Ltac plen :=
  rewrite ?length_app, ?length_PutUint16, ?length_addrBytes; cbn [length];
  unfold binaryUDPAddrLen in *; lia.

Lemma putAddr_filled a pre n :
  (length pre + length (addrBytes a) ≤ n)%nat →
  putBinaryUDPAddr a (filled pre n) = filled (pre ++ addrBytes a) n.
Proof.
  rewrite length_addrBytes. unfold binaryUDPAddrLen. intros H.
  unfold putBinaryUDPAddr, addrBytes. rewrite !put_filled by plen.
  by rewrite <-!app_assoc.
Qed.

Definition validOpt (a : option UDPAddr) (ba : option binaryUDPAddr) : Prop :=
  match a, ba with
  | None, None => True
  | Some a, Some ba => validateBinaryUDPAddr a = Ok ba
  | _, _ => False
  end.

Lemma length_bodyBytes local ra content :
  length (bodyBytes local ra content) =
    (1 + 2 + length content + length (optBytes local) + binaryUDPAddrLen ra)%nat.
Proof. unfold bodyBytes. plen. Qed.

Lemma encode_eq p remote ra local :
  RemoteAddr p = Some remote → validateBinaryUDPAddr remote = Ok ra → validOpt (LocalAddr p) local →
  Z.of_nat (length (Content p)) ≤ MaxUDPPayloadSize →
  EncodeUDPPacketBinary (Some p) =
    let n := Z.of_nat (length (bodyBytes local ra (Content p))) in
    if decide (Wire.DefaultMaxFramePayloadSize < 2 + n) then Err (ErrFrameTooLong (2 + n))
    else Ok (bodyBytes local ra (Content p)).
Proof.
  intros Hr Hra Hl Hc. unfold EncodeUDPPacketBinary. rewrite Hr, (decide_False (P := _ < _)) by lia.
  set (n := length (bodyBytes local ra (Content p))).
  assert (Hn : n = (1 + 2 + length (Content p) + length (optBytes local) + binaryUDPAddrLen ra)%nat)
    by apply length_bodyBytes.
  assert (Hfill : ∀ fl, Zb fl = Zb (bZ (match local with Some _ => 3 | None => 2 end)) →
    (put (Content p) (put (PutUint16 (Z.of_nat (length (Content p))))
       (putBinaryUDPAddr ra (match local with Some a => putBinaryUDPAddr a (put [fl] (filled [] n))
                             | None => put [fl] (filled [] n) end)))).1 = bodyBytes local ra (Content p)).
  { intros fl ->%(inj Zb). rewrite put_filled by plen.
    assert (match local with Some a => putBinaryUDPAddr a _ | None => _ end =
      filled ([bZ (match local with Some _ => 3 | None => 2 end)] ++ optBytes local) n) as ->.
    { destruct local; simpl optBytes in *; [|by rewrite app_nil_r].
      rewrite putAddr_filled; [done|]. rewrite length_addrBytes in Hn. plen. }
    rewrite putAddr_filled by plen.
    rewrite !put_filled by plen.
    unfold filled; cbn [fst]. rewrite (proj2 (Nat.sub_0_le _ _)), app_nil_r; [by rewrite <-!app_assoc|]. plen. }
  destruct (LocalAddr p) as [l|], local as [la|]; simpl in Hl; try done; [rewrite Hl|]; cbn zeta;
    rewrite Hra; simpl optBytes in Hn; rewrite ?length_addrBytes in Hn; simpl in Hn.
  - replace (1 + 2 + length (Content p) + binaryUDPAddrLen la + binaryUDPAddrLen ra)%nat with n by (simpl; lia).
    case_decide; [done|]. f_equal.
    change (replicate n x00, 0%nat) with ([] ++ replicate n x00, 0%nat).
    replace n with (n - 0)%nat at 1 by lia. by apply Hfill.
  - replace (1 + 2 + length (Content p) + binaryUDPAddrLen ra)%nat with n by (simpl; lia).
    case_decide; [done|]. f_equal.
    change (replicate n x00, 0%nat) with ([] ++ replicate n x00, 0%nat).
    replace n with (n - 0)%nat at 1 by lia. by apply Hfill.
Qed.

Lemma encode_Ok p body :
  EncodeUDPPacketBinary (Some p) = Ok body →
  ∃ remote ra local, RemoteAddr p = Some remote ∧ validateBinaryUDPAddr remote = Ok ra ∧
    validOpt (LocalAddr p) local ∧ Z.of_nat (length (Content p)) ≤ MaxUDPPayloadSize ∧
    body = bodyBytes local ra (Content p) ∧
    2 + Z.of_nat (length body) ≤ Wire.DefaultMaxFramePayloadSize.
Proof.
  intros H. assert (H' := H). unfold EncodeUDPPacketBinary in H.
  destruct (RemoteAddr p) as [remote|] eqn:Hr; [|done]. case_decide as Hc; [done|].
  assert (∃ local, validOpt (LocalAddr p) local) as [local Hl].
  { destruct (LocalAddr p) as [l|]; [|by exists None]. destruct (validateBinaryUDPAddr l) as [la|] eqn:Hl; [|done].
    by exists (Some la). }
  assert (∃ ra, validateBinaryUDPAddr remote = Ok ra) as [ra Hra].
  { destruct (validateBinaryUDPAddr remote) as [ra|]; [by eexists|].
    destruct (LocalAddr p); [destruct (validateBinaryUDPAddr _)|]; done. }
  rewrite (encode_eq p remote ra local) in H' by (done || lia). cbn zeta in H'.
  case_decide; [done|]. injection H' as <-. exists remote, ra, local. split_and!; try done; lia.
Qed.

Lemma To4_length a b : To4 a = Some b → length b = 4%nat.
Proof.
  unfold To4. repeat case_decide; intros; simplify_eq; [done|]. rewrite length_drop. lia.
Qed.

Lemma validate_Ok a ba :
  validateBinaryUDPAddr a = Ok ba → addr_ok ba ∧ toUDPAddr ba = canonAddr a.
Proof.
  unfold validateBinaryUDPAddr, addr_ok, canonAddr, toUDPAddr. case_decide as Hp; [done|].
  destruct (To4 (IP a)) as [i4|] eqn:H4.
  - case_decide as Hz; [done|]. intros [= <-]; simpl. apply To4_length in H4.
    split; [split_and!; try done; try lia; by left|]. congruence.
  - destruct (To16 (IP a)) as [i6|] eqn:H6; [|done]. case_decide as Hz; [done|].
    destruct (utf8Valid (Zone a)) eqn:Hu; [|done]. intros [= <-]; simpl.
    unfold To16 in H6. unfold To4 in H4. repeat case_decide; simplify_eq.
    split; [split_and!; try done; try lia; right; split_and!; try done; lia|]. by destruct a.
Qed.

(** ** The decoder reads the reference format *)

Lemma read_addrBytes pre a rest :
  addr_ok a →
  readBinaryUDPAddr (pre ++ addrBytes a ++ rest) (length pre) =
    Ok (toUDPAddr a, (length pre + length (addrBytes a))%nat).
Proof.
  intros (Hp & Hu & Hcase). rewrite length_addrBytes. unfold addrBytes, binaryUDPAddrLen.
  set (body := pre ++ _ ++ rest). unfold readBinaryUDPAddr.
  assert (Hf : 0 ≤ family a < 256) by (destruct Hcase as [[-> _]|[-> _]]; lia).
  assert (Hz : (length (zone a) ≤ 255)%nat) by (destruct Hcase as [(_ & _ & ->)|(_ & _ & ?)]; simpl; lia).
  assert (Hlen : length body = (length pre + (1 + length (ip a) + 2 + 1 + length (zone a)) + length rest)%nat)
    by (unfold body, PutUint16; blen).
  assert (body !! length pre = Some (bZ (family a))) as ->.
  { unfold body. rewrite <-app_assoc. simpl. by apply list_lookup_middle. }
  rewrite !Zb_bZ_small by done.
  assert ((if decide (family a = 4) then Ok 4%nat
           else if decide (family a = 6) then Ok 16%nat
           else Err (ErrUnknownFamily (family a))) = Ok (length (ip a))) as ->.
  { destruct Hcase as [(-> & -> & _)|(-> & -> & _)]; done. }
  rewrite (decide_False (P := (_ < _)%nat)) by lia.
  assert (slice body (S (length pre)) (S (length pre) + length (ip a)) = ip a) as ->.
  { unfold body. rewrite <-!app_assoc. rewrite (app_assoc pre).
    apply slice_app_at; plen. }
  assert (slice body (S (length pre) + length (ip a)) (S (length pre) + length (ip a) + 2)
    = PutUint16 (port a)) as ->.
  { unfold body. rewrite <-!app_assoc. rewrite (app_assoc pre), (app_assoc (pre ++ _)).
    apply slice_app_at; plen. }
  assert (body !! (S (length pre) + length (ip a) + 2)%nat = Some (bZ (Z.of_nat (length (zone a))))) as ->.
  { unfold body. rewrite <-!app_assoc. rewrite (app_assoc pre), (app_assoc (pre ++ _)), (app_assoc ((pre ++ _) ++ _)).
    apply list_lookup_middle. plen. }
  simpl default. rewrite Zb_bZ_small, Nat2Z.id by lia.
  rewrite (decide_False (P := (_ < _)%nat)) by lia.
  assert (slice body (S (S (length pre) + length (ip a) + 2))
    (S (S (length pre) + length (ip a) + 2) + length (zone a)) = zone a) as ->.
  { unfold body. rewrite <-!app_assoc.
    rewrite (app_assoc pre), (app_assoc (pre ++ _)), (app_assoc ((pre ++ _) ++ _)), (app_assoc (((pre ++ _) ++ _) ++ _)).
    apply slice_app_at; plen. }
  rewrite (decide_False (P := _ ∧ _)).
  2: { intros [H4 Hz0]. destruct Hcase as [(_ & _ & Hn)|(H6 & _)]; [by rewrite Hn in Hz0|lia]. }
  rewrite Hu. simpl negb. cbn iota. unfold toUDPAddr, PutUint16. rewrite getBE_putBE by (simpl; lia).
  do 2 f_equal. lia.
Qed.

Lemma read_inv body off a off' :
  readBinaryUDPAddr body off = Ok (a, off') →
  ∃ ba, addr_ok ba ∧ toUDPAddr ba = a ∧ off' = (off + length (addrBytes ba))%nat ∧
    (off' ≤ length body)%nat ∧ drop off body = addrBytes ba ++ drop off' body.
Proof.
  unfold readBinaryUDPAddr. destruct (body !! off) as [fam|] eqn:Hfam; [|done].
  destruct (if decide (Zb fam = 4) then _ else _) as [ipLen|] eqn:Hip; [|done].
  assert (Hfl : Zb fam = 4 ∧ ipLen = 4%nat ∨ Zb fam = 6 ∧ ipLen = 16%nat)
    by (repeat case_decide; simplify_eq; tauto). clear Hip.
  case_decide as Hl; [done|]. set (o1 := (S off + ipLen)%nat). set (o2 := (o1 + 2)%nat).
  destruct (body !! o2) as [zl|] eqn:Hzl; [|apply lookup_ge_None in Hzl; lia]. simpl default.
  case_decide as Hz; [done|]. case_decide as H4z; [done|].
  destruct (utf8Valid _) eqn:Hu; [|done]. intros [= <- <-].
  set (zn := Z.to_nat (Zb zl)) in *. pose proof (Zb_range zl).
  exists (mkBinaryUDPAddr (Zb fam) (slice body (S off) o1) (getBE (slice body o1 o2))
            (slice body (S o2) (S o2 + zn))).
  assert (Hli : length (slice body (S off) o1) = ipLen) by (rewrite length_slice; lia).
  assert (Hlp : length (slice body o1 o2) = 2%nat) by (rewrite length_slice; lia).
  assert (Hlz : length (slice body (S o2) (S o2 + zn)) = zn) by (rewrite length_slice; lia).
  assert (Hlen : length (addrBytes (mkBinaryUDPAddr (Zb fam) (slice body (S off) o1)
     (getBE (slice body o1 o2)) (slice body (S o2) (S o2 + zn)))) = (1 + ipLen + 2 + 1 + zn)%nat).
  { rewrite length_addrBytes. unfold binaryUDPAddrLen; cbn [ip zone]. by rewrite Hli, Hlz. }
  split_and!; [|done|rewrite Hlen; lia|lia|].
  - pose proof (getBE_range (slice body o1 o2)) as Hg. rewrite Hlp in Hg. unfold addr_ok; cbn [port zone family ip].
    split_and!; [simpl in Hg; lia|simpl in Hg; lia|done|].
    rewrite Hli, Hlz. destruct Hfl as [[H4 ->]|[H6 ->]]; [left|right; split_and!; try done; lia].
    split_and!; try done. apply nil_length_inv. rewrite Hlz. lia.
  - unfold addrBytes; cbn [port zone family ip]. rewrite Hlz. unfold PutUint16.
    rewrite (putBE_getBE' 2) by done. unfold zn at 1. rewrite Z2Nat.id, !bZ_Zb by lia.
    rewrite (drop_S _ _ _ Hfam). simpl. f_equal. rewrite (slice_split body (S off) o1) by lia.
    rewrite <-?app_assoc. f_equal. rewrite (slice_split body o1 o2) by lia. rewrite <-?app_assoc. f_equal.
    rewrite (drop_S _ _ _ Hzl). simpl. f_equal. by apply slice_split; lia.
Qed.

Lemma validate_toUDPAddr ba :
  addr_ok ba → (length (ip ba) = 16%nat → To4 (ip ba) = None) →
  validateBinaryUDPAddr (toUDPAddr ba) = Ok ba.
Proof.
  intros (Hp & Hu & Hc) Hm. unfold validateBinaryUDPAddr, toUDPAddr; cbn [Port IP Zone].
  rewrite decide_False by lia. destruct ba as [f i po z]; cbn [family ip port zone] in *.
  destruct Hc as [(-> & Hi & ->)|(-> & Hi & Hz)].
  - unfold To4. by rewrite decide_True.
  - rewrite Hm by done. unfold To16. rewrite decide_False by lia. rewrite decide_True by done.
    rewrite decide_False by lia. by rewrite Hu.
Qed.

(** The flags byte is 2 or 3 once the decoder has checked it. *)
Lemma flags_cases fl :
  Z.ldiff (Zb fl) udpPacketValidFlags = 0 → Z.land (Zb fl) udpPacketFlagRemoteAddr ≠ 0 →
  fl = x02 ∨ fl = x03.
Proof. destruct fl; vm_compute; intros; (by left) || (by right) || (exfalso; congruence). Qed.

Lemma decode_bodyBytes local ra content :
  (∀ a, local = Some a → addr_ok a) → addr_ok ra → Z.of_nat (length content) ≤ MaxUDPPayloadSize →
  2 + Z.of_nat (length (bodyBytes local ra content)) ≤ Wire.DefaultMaxFramePayloadSize →
  DecodeUDPPacketBinary (bodyBytes local ra content) =
    Ok (mkUDPPacket content (toUDPAddr <$> local) (Some (toUDPAddr ra))).
Proof.
  intros Hl Hr Hc Hn. unfold DecodeUDPPacketBinary.
  set (fl := bZ (match local with Some _ => 3 | None => 2 end)).
  set (tail := PutUint16 (Z.of_nat (length content)) ++ content).
  assert (Hb : bodyBytes local ra content = [fl] ++ optBytes local ++ addrBytes ra ++ tail) by done.
  assert (Hlen := length_bodyBytes local ra content). unfold binaryUDPAddrLen in Hlen.
  rewrite (decide_False (P := (_ < 3)%nat)) by lia. rewrite (decide_False (P := _ < 2 + _)) by lia.
  assert (bodyBytes local ra content !! 0%nat = Some fl) as -> by by rewrite Hb.
  simpl default. rewrite (decide_False (P := _ ≠ 0)) by (destruct local; vm_compute; tauto).
  rewrite (decide_False (P := _ = 0)) by (destruct local; vm_compute; discriminate).
  assert (readFlagged (negb (Z.land (Zb fl) udpPacketFlagLocalAddr =? 0)) ErrLocal
    (bodyBytes local ra content) 1 = Ok (toUDPAddr <$> local, length ([fl] ++ optBytes local))) as ->.
  { unfold readFlagged, fl. rewrite Hb. destruct local as [a|]; simpl optBytes.
    - change (negb _) with true. cbn iota. change 1%nat with (length [fl]) at 1.
      rewrite read_addrBytes by auto. simpl. done.
    - done. }
  cbn iota zeta.
  assert (negb (Z.land (Zb fl) udpPacketFlagRemoteAddr =? 0) = true) as -> by (destruct local; done).
  unfold readFlagged. rewrite Hb, (app_assoc [fl]), read_addrBytes by done. cbn iota zeta.
  set (pre := ([fl] ++ optBytes local) ++ addrBytes ra).
  replace (([fl] ++ optBytes local) ++ addrBytes ra ++ tail) with (pre ++ tail) by (unfold pre; by rewrite <-!app_assoc).
  replace (length ([fl] ++ optBytes local) + length (addrBytes ra))%nat with (length pre)
    by (unfold pre; rewrite !length_app; lia).
  assert (Hlt : length (pre ++ tail) = (length pre + 2 + length content)%nat)
    by (unfold tail; rewrite !length_app, length_PutUint16; lia).
  rewrite (decide_False (P := (_ < 2)%nat)) by lia.
  assert (slice (pre ++ tail) (length pre) (length pre + 2) = PutUint16 (Z.of_nat (length content))) as ->.
  { apply slice_app_at; rewrite ?length_PutUint16; lia. }
  unfold MaxUDPPayloadSize in *.
  assert (getBE (putBE 2 (Z.of_nat (length content))) = Z.of_nat (length content)) as Hbe
    by (apply getBE_putBE; simpl; lia).
  change (putBE 2) with PutUint16 in *. rewrite Hbe, Nat2Z.id.
  repeat (rewrite decide_False by lia). do 2 f_equal. unfold tail. rewrite app_assoc.
  apply slice_app_end; rewrite ?length_app, ?length_PutUint16; lia.
Qed.

(** ** Properties *)

Lemma validOpt_canon a ba : validOpt a ba → toUDPAddr <$> ba = canonAddr <$> a ∧ (∀ b, ba = Some b → addr_ok b).
Proof.
  destruct a as [a|], ba as [ba|]; simpl; try done. intros [Hok <-]%validate_Ok.
  split; [done|]. by intros ? [= <-].
Qed.

(** Decoding an encoded packet gives the packet back with its addresses in the
    form they have on the wire, and the encoding fits a frame. *)
Lemma decode_encoded p body :
  EncodeUDPPacketBinary (Some p) = Ok body →
  DecodeUDPPacketBinary body = Ok (canonPacket p) ∧
  2 + Z.of_nat (length body) ≤ Wire.DefaultMaxFramePayloadSize.
Proof.
  intros (remote & ra & local & Hr & Hra & Hl & Hc & -> & Hn)%encode_Ok. split; [|done].
  destruct (validOpt_canon _ _ Hl) as [Hcl Hlok]. apply validate_Ok in Hra as [Hrok Hrc].
  rewrite decode_bodyBytes by done. unfold canonPacket. by rewrite Hr, Hcl, Hrc.
Qed.

(** The addresses of a packet. *)
Definition packetAddr (p : UDPPacket) (a : UDPAddr) : Prop :=
  LocalAddr p = Some a ∨ RemoteAddr p = Some a.

(** A body the decoder accepts is the encoding of the packet it yields, unless an IPv6
    address of it is an IPv4 address in disguise. *)
Lemma encode_decoded body p :
  DecodeUDPPacketBinary body = Ok p →
  (∀ a, packetAddr p a → length (IP a) = 16%nat → To4 (IP a) = None) →
  EncodeUDPPacketBinary (Some p) = Ok body.
Proof.
  unfold DecodeUDPPacketBinary. intros H Hv4. case_decide as Hshort; [done|]. case_decide as Hlong; [done|].
  destruct body as [|fl body']; [done|]. simpl default in H. set (body := fl :: body') in *.
  case_decide as Hres; [done|]. case_decide as Hrem; [done|].
  rewrite (proj2 (Z.eqb_neq _ _) Hrem) in H. simpl negb in H.
  assert (Hlocal : ∃ local off, readFlagged (negb (Z.land (Zb fl) udpPacketFlagLocalAddr =? 0)) ErrLocal body 1
     = Ok (toUDPAddr <$> local, off) ∧ drop 1 body = optBytes local ++ drop off body ∧ (off ≤ length body)%nat ∧
     (∀ a, local = Some a → addr_ok a) ∧ bZ (match local with Some _ => 3 | None => 2 end) = fl).
  { destruct (flags_cases fl Hres Hrem) as [-> | ->].
    - exists None, 1%nat. split_and!; try done; lia.
    - simpl negb in *. unfold readFlagged in *. cbn iota in *.
      change (negb (Z.land (Zb x03) udpPacketFlagLocalAddr =? 0)) with true in *. cbn iota in *.
      destruct (readBinaryUDPAddr body 1) as [[a off]|] eqn:Hread; [|done].
      apply read_inv in Hread as (ba & Hok & <- & Hoff & Hle & Hd). exists (Some ba), off.
      split_and!; try done. by intros ? [= <-]. }
  destruct Hlocal as (local & off & Hrd & Hd1 & Hle1 & Hlok & Hfl). rewrite Hrd in H.
  destruct (readFlagged true ErrRemote body off) as [[rem off2]|] eqn:Hrd2; [|done].
  unfold readFlagged in Hrd2. destruct (readBinaryUDPAddr body off) as [[a off']|] eqn:Hread; [|done].
  injection Hrd2 as <- <-. apply read_inv in Hread as (ra & Hrok & <- & Hoff & Hle2 & Hd2).
  case_decide as Hl2; [done|]. case_decide as Hmax; [done|].
  set (n := Z.to_nat (getBE (slice body off' (off' + 2)))) in *.
  case_decide as Hrt; [done|]. case_decide as Htr; [done|]. injection H as <-.
  set (content := slice body (off' + 2) (off' + 2 + n)) in *.
  assert (Hlc : length content = n) by (unfold content; rewrite length_slice; lia).
  assert (Hbody : body = bodyBytes local ra content).
  { change body with ([fl] ++ drop 1 body). unfold bodyBytes. rewrite Hfl, Hd1, Hd2. do 3 f_equal.
    rewrite (slice_split body off' (off' + 2)) by lia. f_equal.
    - rewrite Hlc. unfold n, PutUint16. pose proof (getBE_range (slice body off' (off' + 2))).
      rewrite Z2Nat.id by lia. symmetry. apply putBE_getBE'. rewrite length_slice; lia.
    - rewrite (slice_split body (off' + 2) (off' + 2 + n)) by lia.
      rewrite (drop_ge body), app_nil_r by lia. done. }
  rewrite (encode_eq _ (toUDPAddr ra) ra local); simpl LocalAddr; simpl RemoteAddr; simpl Content; try done.
  - rewrite <-Hbody. cbn zeta. by rewrite decide_False by lia.
  - apply validate_toUDPAddr; [done|]. apply (Hv4 (toUDPAddr ra)). by right.
  - destruct local as [la|]; [|done]. apply validate_toUDPAddr; [by apply Hlok|].
    apply (Hv4 (toUDPAddr la)). by left.
  - lia.
Qed.

(** C17: encoding and decoding of UDP packets are inverse to each other up to the form of
    addresses.  A packet the encoder accepts is decoded from the body with its content and its
    addresses in the form they have on the wire, IPv4-mapped addresses as IPv4, and the body
    fits a frame; a body the decoder accepts is the encoding of the packet it yields, unless
    an address of it is an IPv4 address mapped into IPv6, so no two other bodies decode to the
    same packet and no byte of a body is ignored. *)
Theorem udp_decode_encode p body :
  (EncodeUDPPacketBinary (Some p) = Ok body →
   DecodeUDPPacketBinary body = Ok (canonPacket p) ∧ 2 + Z.of_nat (length body) ≤ Wire.DefaultMaxFramePayloadSize) ∧
  (DecodeUDPPacketBinary body = Ok p →
   (∀ a, packetAddr p a → length (IP a) = 16%nat → To4 (IP a) = None) →
   EncodeUDPPacketBinary (Some p) = Ok body).
Proof. split; [apply decode_encoded|apply encode_decoded]. Qed.

(** ** Concrete runs *)

Definition demoPacket : UDPPacket :=
  mkUDPPacket [x68; x69] (Some (mkUDPAddr (v4InV6Prefix ++ [x7f; x00; x00; x01]) 53 []))
    (Some (mkUDPAddr (replicate 15 x00 ++ [x01]) 4096 (ofString "eth0"))).
Definition demoBody : bytes :=
  bodyBytes (Some (mkBinaryUDPAddr 4 [x7f; x00; x00; x01] 53 []))
    (mkBinaryUDPAddr 6 (replicate 15 x00 ++ [x01]) 4096 (ofString "eth0")) [x68; x69].

Lemma udp_decode_encode_witness :
  DecodeUDPPacketBinary demoBody = Ok (canonPacket demoPacket) ∧
  EncodeUDPPacketBinary (Some (canonPacket demoPacket)) = Ok demoBody.
Proof.
  split.
  - apply (proj1 (udp_decode_encode demoPacket demoBody)). vm_compute. reflexivity.
  - apply (proj2 (udp_decode_encode (canonPacket demoPacket) demoBody)); [vm_compute; reflexivity|].
    intros a [Ha|Ha]; vm_compute in Ha; injection Ha as <-; vm_compute; done.
Defined.

(** An IPv4 address inside an IPv6 address with a zone is accepted by the
    decoder and refused by the encoder. *)
Example mapped_with_zone_not_reencodable :
  let a := mkBinaryUDPAddr 6 (v4InV6Prefix ++ [x7f; x00; x00; x01]) 53 (ofString "eth0") in
  let p := mkUDPPacket [] None (Some (toUDPAddr a)) in
  DecodeUDPPacketBinary (bodyBytes None a []) = Ok p ∧
  EncodeUDPPacketBinary (Some p) = Err (ErrRemote ErrIPv4Zone).
Proof. split; vm_compute; reflexivity. Qed.

End UdpBinary.
