(* ===== verification/Messages.v ===== *)
(** * Typed messages of wire protocol v2: [pkg/msg/wire_v2.go], [udp_binary.go]

    A message frame carries a type id and the message.  The JSON encoding is
    an argument: [marshal] and [unmarshal] stand for [encoding/json] on the
    message structs. *)
From S2P Require Import Prelude Bytes Wire UdpBinary.

Module Messages.

Inductive MsgType :=
| Login | LoginResp | NewProxy | NewProxyResp | CloseProxy | NewWorkConn | ReqWorkConn
| StartWorkConn | NewVisitorConn | NewVisitorConnResp | Ping | Pong | UDPPacket
| NatHoleVisitor | NatHoleClient | NatHoleResp | NatHoleSid | NatHoleReport.

#[export] Instance MsgType_eq_dec : EqDecision MsgType.
Proof. solve_decision. Defined.

Definition V2TypeUDPPacket : Z := 13.
Definition V2TypeUDPPacketBinary : Z := 19.

Definition v2MsgTypeMap : list (Z * MsgType) :=
  [(1, Login); (2, LoginResp); (3, NewProxy); (4, NewProxyResp); (5, CloseProxy);
   (6, NewWorkConn); (7, ReqWorkConn); (8, StartWorkConn); (9, NewVisitorConn);
   (10, NewVisitorConnResp); (11, Ping); (12, Pong); (V2TypeUDPPacket, UDPPacket);
   (20, NatHoleVisitor); (21, NatHoleClient); (22, NatHoleResp); (23, NatHoleSid);
   (24, NatHoleReport)].

(** The two maps of [buildV2MsgTypeMaps]. *)
Definition v2MsgReflectTypeMap (id : Z) : option MsgType :=
  (λ e : nat * (Z * MsgType), e.2.2) <$> list_find (λ e, e.1 = id) v2MsgTypeMap.

Definition v2MsgTypeIDMap (t : MsgType) : option Z :=
  (λ e : nat * (Z * MsgType), e.2.1) <$> list_find (λ e, e.2 = t) v2MsgTypeMap.

Inductive error :=
| ErrWire (e : Wire.error)
| ErrUDP (e : UdpBinary.error)
| ErrNilMessage
| ErrFrameType (t : Z)
| ErrPayloadShort
| ErrUnknownID (id : Z)
| ErrUnknownType
| ErrNotPointer
| ErrUnexpectedType (t : MsgType)
| ErrUnexpectedID (id : Z)
| ErrJSONPacketAfterNegotiation
| ErrMarshal
| ErrUnmarshal
| ErrCodecNeedsV2
| ErrUnsupportedCodec
| ErrUnsupportedProtocol.

Section messages.
(** The message values, their struct type when it is a registered one, and the
    JSON encoding of each. *)
Context {M : Type} (typeOf : M → option MsgType).
Context (marshal : M → option bytes) (unmarshal : MsgType → bytes → option M).

Definition EncodeV2MessageFrame (m : option M) : res error Wire.Frame :=
  match m with
  | None => Err ErrNilMessage
  | Some m =>
      match typeOf m ≫= v2MsgTypeIDMap with
      | None => Err ErrUnknownType
      | Some typeID =>
          match marshal m with
          | None => Err ErrMarshal
          | Some content => Ok (Wire.mkFrame Wire.FrameTypeMessage 0 (PutUint16 typeID ++ content))
          end
      end
  end.

Definition typeIDOf (f : Wire.Frame) : Z := getBE (take 2 (Wire.Payload f)).

Definition DecodeV2MessageFrame (f : Wire.Frame) : res error M :=
  if decide (Wire.Type_ f ≠ Wire.FrameTypeMessage) then Err (ErrFrameType (Wire.Type_ f))
  else if decide (length (Wire.Payload f) < 2)%nat then Err ErrPayloadShort
  else match v2MsgReflectTypeMap (typeIDOf f) with
       | None => Err (ErrUnknownID (typeIDOf f))
       | Some t =>
           match unmarshal t (drop 2 (Wire.Payload f)) with
           | None => Err ErrUnmarshal
           | Some m => Ok m
           end
       end.

(** The target of a decode: not a pointer, or a pointer to a struct. *)
Inductive target := NotPointer | PointerTo (t : option MsgType).

Definition DecodeV2MessageFrameInto (f : Wire.Frame) (out : target) : res error M :=
  if decide (Wire.Type_ f ≠ Wire.FrameTypeMessage) then Err (ErrFrameType (Wire.Type_ f))
  else if decide (length (Wire.Payload f) < 2)%nat then Err ErrPayloadShort
  else match out with
       | NotPointer => Err ErrNotPointer
       | PointerTo None => Err ErrUnknownType
       | PointerTo (Some elemType) =>
           match v2MsgTypeIDMap elemType with
           | None => Err ErrUnknownType
           | Some expected =>
               if decide (typeIDOf f ≠ expected) then
                 match v2MsgReflectTypeMap (typeIDOf f) with
                 | None => Err (ErrUnknownID (typeIDOf f))
                 | Some actual => Err (ErrUnexpectedType actual)
                 end
               else match unmarshal elemType (drop 2 (Wire.Payload f)) with
                    | None => Err ErrUnmarshal
                    | Some m => Ok m
                    end
           end
       end.

Definition liftWire {A} (r : res Wire.error A) : res error A :=
  match r with Ok a => Ok a | Err e => Err (ErrWire e) end.
Definition liftUDP {A} (r : res UdpBinary.error A) : res error A :=
  match r with Ok a => Ok a | Err e => Err (ErrUDP e) end.

(** [V2ReadWriter] *)
Definition V2WriteMsg (c : Wire.Conn) (m : option M) : res error bytes :=
  let? f := EncodeV2MessageFrame m in liftWire (Wire.WriteFrame c f).

Definition V2ReadMsg (c : Wire.Conn) : res error (M * Wire.Conn) :=
  let? (f, c) := liftWire (Wire.ReadFrame c) in
  let? m := DecodeV2MessageFrame f in Ok (m, c).

(** ** The binary UDP packet reader and writer *)

(** A message on a work connection: a UDP packet or another message. *)
Inductive message := MUDP (p : option UdpBinary.UDPPacket) | MOther (m : option M).

Definition isV2MessageType (f : Wire.Frame) (typeID : Z) : bool :=
  bool_decide (Wire.Type_ f = Wire.FrameTypeMessage) && (2 <=? length (Wire.Payload f))%nat
    && (typeIDOf f =? typeID).

Definition unexpectedV2UDPPacketType (f : Wire.Frame) : error :=
  if decide (Wire.Type_ f ≠ Wire.FrameTypeMessage) then ErrFrameType (Wire.Type_ f)
  else if decide (length (Wire.Payload f) < 2)%nat then ErrPayloadShort
  else if decide (typeIDOf f = V2TypeUDPPacket) then ErrJSONPacketAfterNegotiation
  else ErrUnexpectedID (typeIDOf f).

Definition decodeV2BinaryUDPPacketFrame (f : Wire.Frame) : res error UdpBinary.UDPPacket :=
  if decide (Wire.Type_ f ≠ Wire.FrameTypeMessage) then Err (ErrFrameType (Wire.Type_ f))
  else if decide (length (Wire.Payload f) < 2)%nat then Err ErrPayloadShort
  else if decide (typeIDOf f ≠ V2TypeUDPPacketBinary) then Err (unexpectedV2UDPPacketType f)
  else liftUDP (UdpBinary.DecodeUDPPacketBinary (drop 2 (Wire.Payload f))).

Definition ReadMsg (c : Wire.Conn) : res error (message * Wire.Conn) :=
  let? (f, c) := liftWire (Wire.ReadFrame c) in
  if isV2MessageType f V2TypeUDPPacketBinary then
    let? p := decodeV2BinaryUDPPacketFrame f in Ok (MUDP (Some p), c)
  else if isV2MessageType f V2TypeUDPPacket then Err ErrJSONPacketAfterNegotiation
  else let? m := DecodeV2MessageFrame f in Ok (MOther (Some m), c).

(** [ReadMsgInto] with the kind of its target: a [*UDPPacket] or another one. *)
Definition ReadMsgInto (c : Wire.Conn) (out : option target) : res error (message * Wire.Conn) :=
  let? (f, c) := liftWire (Wire.ReadFrame c) in
  match out with
  | None =>
      if negb (isV2MessageType f V2TypeUDPPacketBinary) then Err (unexpectedV2UDPPacketType f)
      else let? p := decodeV2BinaryUDPPacketFrame f in Ok (MUDP (Some p), c)
  | Some out => let? m := DecodeV2MessageFrameInto f out in Ok (MOther (Some m), c)
  end.

Definition WriteMsg (c : Wire.Conn) (msg : message) : res error bytes :=
  match msg with
  | MOther m => let? f := EncodeV2MessageFrame m in liftWire (Wire.WriteFrame c f)
  | MUDP packet =>
      let? body := liftUDP (UdpBinary.EncodeUDPPacketBinary packet) in
      liftWire (Wire.WriteFrame c
        (Wire.mkFrame Wire.FrameTypeMessage 0 (PutUint16 V2TypeUDPPacketBinary ++ body)))
  end.

(** ** Choice of the codec *)

Inductive codec := CodecV1 | CodecV2 | CodecV2Binary.

Definition NewUDPPacketReadWriter (wireProtocol udpPacketCodec : string) : res error codec :=
  if decide (wireProtocol = "" ∨ wireProtocol = Wire.ProtocolV1) then
    if decide (udpPacketCodec ≠ "") then Err ErrCodecNeedsV2 else Ok CodecV1
  else if decide (wireProtocol = Wire.ProtocolV2) then
    if decide (udpPacketCodec = "") then Ok CodecV2
    else if decide (udpPacketCodec = Wire.UDPPacketCodecBinary) then Ok CodecV2Binary
    else Err ErrUnsupportedCodec
  else Err ErrUnsupportedProtocol.

(** ** Lemmas *)

Lemma typeID_range t id : v2MsgTypeIDMap t = Some id → 0 ≤ id < 2 ^ 16.
Proof. destruct t; intros [= <-]; done. Qed.

Lemma typeID_known t : is_Some (v2MsgTypeIDMap t).
Proof. destruct t; by eexists. Qed.

(** The two maps are inverse to each other. *)
Lemma typeID_inverse t id : v2MsgTypeIDMap t = Some id → v2MsgReflectTypeMap id = Some t.
Proof. destruct t; intros [= <-]; done. Qed.

Lemma typeID_binary t id : v2MsgTypeIDMap t = Some id → id ≠ V2TypeUDPPacketBinary.
Proof. destruct t; intros [= <-]; done. Qed.

Lemma typeIDOf_put id content f fl :
  0 ≤ id < 2 ^ 16 → typeIDOf (Wire.mkFrame f fl (PutUint16 id ++ content)) = id.
Proof.
  intros H. unfold typeIDOf; cbn [Wire.Payload]. rewrite take_app_le by by rewrite UdpBinary.length_PutUint16.
  rewrite take_ge by by rewrite UdpBinary.length_PutUint16. apply getBE_putBE. simpl. lia.
Qed.

Lemma drop_put id content : drop 2 (PutUint16 id ++ content) = content.
Proof. apply drop_app_length'. by rewrite UdpBinary.length_PutUint16. Qed.

Lemma length_put id content : length (PutUint16 id ++ content) = (2 + length content)%nat.
Proof. by rewrite length_app, UdpBinary.length_PutUint16. Qed.

(** A message frame written on a default connection is read back. *)
Lemma WriteFrame_read id content bs rest :
  0 ≤ id < 2 ^ 16 →
  Wire.WriteFrame (Wire.NewConn []) (Wire.mkFrame Wire.FrameTypeMessage 0 (PutUint16 id ++ content)) = Ok bs →
  Wire.ReadFrame (Wire.NewConn (bs ++ rest)) =
    Ok (Wire.mkFrame Wire.FrameTypeMessage 0 (PutUint16 id ++ content), Wire.NewConn rest).
Proof.
  intros Hid Hw. set (f := Wire.mkFrame _ _ _) in *.
  assert (Hok : Wire.frame_ok (Wire.NewConn []) f).
  { unfold Wire.WriteFrame in Hw. repeat case_decide; try done. split_and!; try done. lia. }
  destruct (Wire.frame_written (Wire.NewConn []) f rest Hok) as (bs' & Hw' & Hr); [done|].
  rewrite Hw in Hw'. by injection Hw' as <-.
Qed.

(** ** Properties *)

(** a message of a registered type whose JSON encoding can be decoded is
    read back from the stream as it was written, with the rest of the stream
    untouched, by the plain v2 reader and by the reader with the binary UDP
    codec (which treats every type but the UDP packet the same way). *)
Theorem v2_message_roundtrip m t content bs rest :
  typeOf m = Some t → t ≠ UDPPacket → marshal m = Some content → unmarshal t content = Some m →
  V2WriteMsg (Wire.NewConn []) (Some m) = Ok bs →
  V2ReadMsg (Wire.NewConn (bs ++ rest)) = Ok (m, Wire.NewConn rest) ∧
  ReadMsg (Wire.NewConn (bs ++ rest)) = Ok (MOther (Some m), Wire.NewConn rest) ∧
  WriteMsg (Wire.NewConn []) (MOther (Some m)) = Ok bs.
Proof.
  intros Ht Hudp Hm Hu. unfold V2WriteMsg, WriteMsg, EncodeV2MessageFrame. rewrite Ht, Hm; simpl.
  destruct (typeID_known t) as [id Hid]. rewrite Hid. pose proof (typeID_range _ _ Hid) as Hr.
  destruct (Wire.WriteFrame _ _) as [bs'|] eqn:Hw; [|done]. simpl. intros [= ->].
  assert (Hrf := WriteFrame_read id content bs rest Hr Hw).
  assert (Hd : DecodeV2MessageFrame (Wire.mkFrame Wire.FrameTypeMessage 0 (PutUint16 id ++ content)) = Ok m).
  { unfold DecodeV2MessageFrame; cbn [Wire.Type_ Wire.Payload]. rewrite typeIDOf_put, drop_put, length_put by done.
    rewrite (decide_False (P := _ ≠ _)) by tauto. rewrite decide_False by lia. by rewrite (typeID_inverse t), Hu. }
  unfold V2ReadMsg, ReadMsg. rewrite Hrf. cbn [liftWire]. rewrite Hd. split_and!; try done.
  unfold isV2MessageType. rewrite typeIDOf_put by done.
  rewrite (proj2 (Z.eqb_neq id V2TypeUDPPacketBinary)) by by eapply typeID_binary.
  rewrite (proj2 (Z.eqb_neq id V2TypeUDPPacket)), !andb_false_r; [done|].
  intros ->. apply typeID_inverse in Hid. vm_compute in Hid. congruence.
Qed.

(** end to end, a UDP packet written with the negotiated binary codec is
    read from the stream as the same packet with addresses in wire form, and
    the rest of the stream is untouched; the write fails only when the packet
    itself cannot be encoded, never because of the frame limit. *)
Theorem udp_stream_roundtrip p body rest :
  UdpBinary.EncodeUDPPacketBinary (Some p) = Ok body →
  ∃ bs, WriteMsg (Wire.NewConn []) (MUDP (Some p)) = Ok bs ∧
    ReadMsg (Wire.NewConn (bs ++ rest)) =
      Ok (MUDP (Some (UdpBinary.canonPacket p)), Wire.NewConn rest) ∧
    ReadMsgInto (Wire.NewConn (bs ++ rest)) None =
      Ok (MUDP (Some (UdpBinary.canonPacket p)), Wire.NewConn rest).
Proof.
  intros He. destruct (UdpBinary.decode_encoded p body He) as [Hd Hn].
  unfold WriteMsg. rewrite He. cbn [liftUDP].
  assert (∃ bs, Wire.WriteFrame (Wire.NewConn [])
    (Wire.mkFrame Wire.FrameTypeMessage 0 (PutUint16 V2TypeUDPPacketBinary ++ body)) = Ok bs) as [bs Hw].
  { unfold Wire.WriteFrame; cbn [Wire.Flags Wire.Payload Wire.maxFramePayloadSize Wire.NewConn].
    rewrite length_put, !decide_False by lia. by eexists. }
  exists bs. rewrite Hw. split; [done|].
  assert (Hrf := WriteFrame_read V2TypeUDPPacketBinary body bs rest ltac:(done) Hw).
  unfold ReadMsg, ReadMsgInto. rewrite Hrf. cbn [liftWire].
  assert (Hi : isV2MessageType (Wire.mkFrame Wire.FrameTypeMessage 0
     (PutUint16 V2TypeUDPPacketBinary ++ body)) V2TypeUDPPacketBinary = true).
  { unfold isV2MessageType; cbn [Wire.Type_ Wire.Payload]. by rewrite typeIDOf_put, length_put. }
  rewrite Hi. unfold decodeV2BinaryUDPPacketFrame; cbn [Wire.Type_ Wire.Payload].
  rewrite typeIDOf_put, drop_put, length_put, !decide_False by done || lia. by rewrite Hd.
Qed.

(** A JSON UDP packet on a connection with the binary codec is refused. *)
Lemma json_packet_refused f c c' :
  Wire.ReadFrame c = Ok (f, c') → isV2MessageType f V2TypeUDPPacket = true →
  ReadMsg c = Err ErrJSONPacketAfterNegotiation ∧
  ReadMsgInto c None = Err ErrJSONPacketAfterNegotiation.
Proof.
  intros Hr Hi. unfold ReadMsg, ReadMsgInto. rewrite Hr; cbn [liftWire].
  assert (H := Hi). unfold isV2MessageType in H. bool_to_prop.
  assert (isV2MessageType f V2TypeUDPPacketBinary = false) as ->.
  { unfold isV2MessageType. rewrite (proj2 (Z.eqb_neq (typeIDOf f) _)), !andb_false_r; [done|].
    match goal with H : typeIDOf f = _ |- _ => rewrite H end. done. }
  rewrite Hi. split; [done|]. simpl. unfold unexpectedV2UDPPacketType.
  apply Nat.leb_le in H1. by rewrite (decide_False (P := _ ≠ _)), decide_False, decide_True by (done || lia).
Qed.

End messages.

(** ** Concrete runs *)

(** A JSON codec for one message: a ping with an empty body. *)
Definition demoMarshal (_ : unit) : option bytes := Some (ofString "{}").
Definition demoUnmarshal (_ : MsgType) (b : bytes) : option unit :=
  if decide (b = ofString "{}") then Some tt else None.
Definition demoType (_ : unit) : option MsgType := Some Ping.
Definition demoPing : bytes :=
  [x00; x10; x00; x00; x00; x00; x00; x04; x00; x0b; x7b; x7d].

Lemma v2_message_roundtrip_witness :
  V2ReadMsg demoUnmarshal (Wire.NewConn (demoPing ++ [xff])) = Ok (tt, Wire.NewConn [xff]) ∧
  ReadMsg demoUnmarshal (Wire.NewConn (demoPing ++ [xff])) = Ok (MOther (Some tt), Wire.NewConn [xff]) ∧
  WriteMsg demoType demoMarshal (Wire.NewConn []) (MOther (Some tt)) = Ok demoPing.
Proof.
  apply (v2_message_roundtrip demoType demoMarshal demoUnmarshal tt Ping (ofString "{}"));
    try reflexivity; discriminate.
Defined.

Lemma udp_stream_roundtrip_witness :
  ∃ bs, WriteMsg demoType demoMarshal (Wire.NewConn []) (MUDP (Some UdpBinary.demoPacket)) = Ok bs ∧
    ReadMsg demoUnmarshal (Wire.NewConn (bs ++ [xff])) =
      Ok (MUDP (Some (UdpBinary.canonPacket UdpBinary.demoPacket)), Wire.NewConn [xff]) ∧
    ReadMsgInto demoUnmarshal (Wire.NewConn (bs ++ [xff])) None =
      Ok (MUDP (Some (UdpBinary.canonPacket UdpBinary.demoPacket)), Wire.NewConn [xff]).
Proof.
  apply (udp_stream_roundtrip demoType demoMarshal demoUnmarshal UdpBinary.demoPacket UdpBinary.demoBody).
  vm_compute. reflexivity.
Defined.

End Messages.
