(* ===== verification/TCPGroup.v ===== *)
(** * TCP load-balancing groups: [server/group/registry.go], [base.go], [tcp.go]

    Proxies of one group share a real listener.  Groups are objects that
    outlive their entry in the registry, so they live in a store and the
    registry holds their locations; a call that looked a group up may run when
    the group has already left the registry, which the group detects itself
    ([isCurrent]). *)
From S2P Require Import Prelude Ports.

Module TCPGroup.

Inductive error :=
| ErrGroupAuthFailed | ErrGroupParamsInvalid | ErrGroupDifferentPort | errGroupStale
| ErrPorts (e : Ports.error)
| ErrListen.                      (** [net.Listen] failed *)

(** A group: the fields of [baseGroup] and [TCPGroup].  Listeners are
    identified by numbers; [accepting] says that [acceptCh] and the real
    listener are open. *)
Record TCPGroup := mkTCPGroup {
  group : string; groupKey : string; addr : string; port : Z; realPort : Z;
  lns : list nat; accepting : bool }.

Definition NewTCPGroup : TCPGroup := mkTCPGroup "" "" "" 0 0 [] false.

Record TCPGroupCtl := mkCtl {
  groups : gmap string nat;
  objs : gmap nat TCPGroup;
  portManager : Ports.Manager;
  nextObj : nat;
  nextLn : nat }.

Definition NewTCPGroupCtl (pm : Ports.Manager) : TCPGroupCtl := mkCtl ∅ ∅ pm 0 0.

(** [groupRegistry.getOrCreate]. *)
Definition getOrCreate (key : string) (ctl : TCPGroupCtl) : nat * TCPGroupCtl :=
  match groups ctl !! key with
  | Some g => (g, ctl)
  | None =>
      let g := nextObj ctl in
      (g, mkCtl (<[ key := g ]> (groups ctl)) (<[ g := NewTCPGroup ]> (objs ctl))
            (portManager ctl) (S g) (nextLn ctl))
  end.

(** [groupRegistry.isCurrent] and [removeIf] with the test of pointer equality. *)
Definition isCurrent (key : string) (g : nat) (ctl : TCPGroupCtl) : bool :=
  bool_decide (groups ctl !! key = Some g).

Definition removeIf (key : string) (g : nat) (m : gmap string nat) : gmap string nat :=
  if decide (m !! key = Some g) then delete key m else m.

(** What the environment answers: the bind probes, the iteration order and the
    clock of [Acquire], and whether the real listener can be opened. *)
Record Env := mkEnv {
  avail : nat → Z → bool; order : list Z; now : Z; listenOk : bool }.

Definition putObj (g : nat) (tg : TCPGroup) (pm : Ports.Manager) (next : nat) (ctl : TCPGroupCtl)
    : TCPGroupCtl :=
  mkCtl (groups ctl) (<[ g := tg ]> (objs ctl)) pm (nextObj ctl) next.

(** [TCPGroup.Listen] of the group at location [g]. *)
Definition groupListen (e : Env) (g : nat) (proxyName grp key ad : string) (po : Z)
    (ctl : TCPGroupCtl) : res error (nat * Z) * TCPGroupCtl :=
  match objs ctl !! g with
  | None => (Err errGroupStale, ctl)
  | Some tg =>
  if negb (isCurrent grp g ctl) then (Err errGroupStale, ctl)
  else match lns tg with
  | [] =>
      match Ports.Acquire (avail e) (order e) (now e) proxyName po (portManager ctl) with
      | (Err er, pm) => (Err (ErrPorts er), putObj g tg pm (nextLn ctl) ctl)
      | (Ok rp, pm) =>
          if listenOk e then
            (Ok (nextLn ctl, rp),
             putObj g (mkTCPGroup grp key ad po rp [nextLn ctl] true) pm (S (nextLn ctl)) ctl)
          else (Err ErrListen, putObj g tg (Ports.Release (now e) rp pm) (nextLn ctl) ctl)
      end
  | _ =>
      if decide (group tg ≠ grp ∨ addr tg ≠ ad) then (Err ErrGroupParamsInvalid, ctl)
      else if decide (port tg ≠ po) then (Err ErrGroupDifferentPort, ctl)
      else if decide (groupKey tg ≠ key) then (Err ErrGroupAuthFailed, ctl)
      else
        (Ok (nextLn ctl, realPort tg),
         putObj g (mkTCPGroup (group tg) (groupKey tg) (addr tg) (port tg) (realPort tg)
                     (lns tg ++ [nextLn ctl]) (accepting tg)) (portManager ctl) (S (nextLn ctl)) ctl)
  end
  end.

(** [TCPGroupCtl.Listen]: one turn of the retry loop. *)
Definition Listen (e : Env) (proxyName grp key ad : string) (po : Z) (ctl : TCPGroupCtl)
    : res error (nat * Z) * TCPGroupCtl :=
  let '(g, ctl) := getOrCreate grp ctl in groupListen e g proxyName grp key ad po ctl.

(** [baseGroup.closeListener] with the cleanup function of [TCPGroup]. *)
Definition closeListener (t : Z) (g ln : nat) (ctl : TCPGroupCtl) : TCPGroupCtl :=
  match objs ctl !! g with
  | None => ctl
  | Some tg =>
      let rest := removeFirst ln (lns tg) in
      match rest with
      | [] =>
          mkCtl (removeIf (group tg) g (groups ctl))
            (<[ g := mkTCPGroup (group tg) (groupKey tg) (addr tg) (port tg) (realPort tg) [] false ]>
               (objs ctl))
            (Ports.Release t (realPort tg) (portManager ctl)) (nextObj ctl) (nextLn ctl)
      | _ =>
          putObj g (mkTCPGroup (group tg) (groupKey tg) (addr tg) (port tg) (realPort tg) rest
                      (accepting tg)) (portManager ctl) (nextLn ctl) ctl
      end
  end.

(** ** Calls one after the other

    Here a listen call is two steps, the lookup and the call on the group found, and nobody
    else uses the ports; [race] below interleaves their parts with everything else. *)
Inductive step (ctl : TCPGroupCtl) : TCPGroupCtl → Prop :=
| step_get key : step ctl (getOrCreate key ctl).2
| step_listen e g proxyName grp key ad po :
    (∀ i q, avail e i q = true → Ports.usedPorts (portManager ctl) !! q = None) →
    order e ≡ₚ elements (Ports.freePorts (portManager ctl)) →
    step ctl (groupListen e g proxyName grp key ad po ctl).2
| step_close t g ln tg :
    objs ctl !! g = Some tg → ln ∈ lns tg → step ctl (closeListener t g ln ctl).

(** ** Invariant *)

(** A group with listeners is the registered group of its name, is accepting
    and holds its port; listeners and ports belong to one group only. *)
Record wf (allowed : gset Z) (ctl : TCPGroupCtl) : Prop := {
  wf_ports : Ports.wf allowed (portManager ctl);
  wf_registered key g : groups ctl !! key = Some g →
    ∃ tg, objs ctl !! g = Some tg ∧ (lns tg ≠ [] → group tg = key);
  wf_inj key key' g : groups ctl !! key = Some g → groups ctl !! key' = Some g → key = key';
  wf_objs g : (nextObj ctl ≤ g)%nat → objs ctl !! g = None;
  wf_live g tg : objs ctl !! g = Some tg → lns tg ≠ [] →
    groups ctl !! group tg = Some g ∧ accepting tg = true ∧
    is_Some (Ports.usedPorts (portManager ctl) !! realPort tg);
  wf_idle g tg : objs ctl !! g = Some tg → lns tg = [] → accepting tg = false;
  wf_fresh g tg ln : objs ctl !! g = Some tg → ln ∈ lns tg → (ln < nextLn ctl)%nat;
  wf_nodup g tg : objs ctl !! g = Some tg → NoDup (lns tg);
  wf_owner g tg g' tg' ln : objs ctl !! g = Some tg → objs ctl !! g' = Some tg' →
    ln ∈ lns tg → ln ∈ lns tg' → g = g';
  wf_unique g tg g' tg' : objs ctl !! g = Some tg → objs ctl !! g' = Some tg' →
    lns tg ≠ [] → lns tg' ≠ [] → realPort tg = realPort tg' → g = g' }.

Section invariant.
Context (allowed : gset Z).

(** Ports in use stay in use. *)
Definition keeps (pm pm' : Ports.Manager) : Prop :=
  ∀ q, is_Some (Ports.usedPorts pm !! q) → is_Some (Ports.usedPorts pm' !! q).

Lemma keeps_mark name p t pm : keeps pm (Ports.markPortAcquiredLocked name p t pm).
Proof.
  intros q Hq. simpl. destruct (decide (p = q)) as [->|]; [rewrite lookup_insert_eq; eauto|].
  by rewrite lookup_insert_ne.
Qed.

Lemma acquire_ports e name po pm r pm' :
  Ports.wf allowed pm → order e ≡ₚ elements (Ports.freePorts pm) →
  (∀ i q, avail e i q = true → Ports.usedPorts pm !! q = None) →
  Ports.Acquire (avail e) (order e) (now e) name po pm = (r, pm') →
  Ports.wf allowed pm' ∧ keeps pm pm' ∧
  (∀ rp, r = Ok rp → Ports.usedPorts pm !! rp = None ∧ is_Some (Ports.usedPorts pm' !! rp) ∧
     Ports.wf allowed (Ports.Release (now e) rp pm') ∧ keeps pm (Ports.Release (now e) rp pm')).
Proof.
  intros W Ho Hav HA.
  pose proof (Ports.wf_acquire allowed (avail e) (order e) (now e) name po pm W Ho) as W'.
  pose proof (Ports.Acquire_cases allowed (avail e) (order e) (now e) name po pm W Ho) as H.
  rewrite HA in H, W'. simpl in W'.
  destruct H as [(p & i & Hp & Ha & -> & _ & _ & Hr)|(er & -> & ->)]; [|split_and!; try done; by intros ?].
  split_and!; [done|apply keeps_mark|]. intros rp ->. destruct Hr as [[= <-]|[_ ?]]; [|done].
  specialize (Hav _ _ Ha). split_and!; [done|simpl; rewrite lookup_insert_eq; eauto|by apply Ports.wf_release|].
  intros q Hq. unfold Ports.Release; simpl. rewrite lookup_insert_eq; simpl.
  assert (rp ≠ q) by (intros ->; rewrite Hav in Hq; by destruct Hq).
  by rewrite lookup_delete_ne, lookup_insert_ne.
Qed.

Lemma wf_putSame ctl g tg pm' :
  wf allowed ctl → objs ctl !! g = Some tg → Ports.wf allowed pm' → keeps (portManager ctl) pm' →
  wf allowed (putObj g tg pm' (nextLn ctl) ctl).
Proof.
  intros [W1 W2 W3 W4 W5 W6 W7 W8 W9 W10] Hg Wp Hk. unfold putObj. rewrite insert_id by done.
  split; simpl; eauto. intros h th Hh Hn. destruct (W5 h th Hh Hn) as (? & ? & ?). eauto.
Qed.

(** A group gets a new state in which it has listeners. *)
Lemma wf_putLive ctl g tg tg' pm' next' :
  wf allowed ctl → objs ctl !! g = Some tg → Ports.wf allowed pm' → keeps (portManager ctl) pm' →
  (nextLn ctl ≤ next')%nat → groups ctl !! group tg' = Some g → accepting tg' = true →
  is_Some (Ports.usedPorts pm' !! realPort tg') → lns tg' ≠ [] → NoDup (lns tg') →
  (∀ ln, ln ∈ lns tg' → (ln < next')%nat ∧ (ln ∈ lns tg ∨ (nextLn ctl ≤ ln)%nat)) →
  (realPort tg' = realPort tg ∧ lns tg ≠ [] ∨ Ports.usedPorts (portManager ctl) !! realPort tg' = None) →
  wf allowed (putObj g tg' pm' next' ctl).
Proof.
  intros [W1 W2 Wi W3 W4 W5 W6 W7 W8 W9] Hg Wp Hk Hnx Hcur Hacc Hused Hne Hnd Hln Hport.
  assert (Hport' : ∀ h th, objs ctl !! h = Some th → g ≠ h → lns th ≠ [] → realPort tg' ≠ realPort th).
  { intros h th Hh Hneq Hl E. destruct Hport as [[E' Hl']|Hfree].
    - apply Hneq. eapply (W9 g tg h th); eauto. congruence.
    - destruct (W4 h th Hh Hl) as (_ & _ & [? Hu]). congruence. }
  assert (Hln' : ∀ h th ln, objs ctl !! h = Some th → g ≠ h → ln ∈ lns tg' → ln ∈ lns th → False).
  { intros h th ln Hh Hneq H1 H2. destruct (Hln ln H1) as [_ [H3|H3]]; [by apply Hneq, (W8 g tg h th ln)|].
    pose proof (W6 h th ln Hh H2). lia. }
  split; simpl; [done|..].
  - intros key h Hh. destruct (W2 key h Hh) as (th & Ho & Hgr). destruct (decide (g = h)) as [<-|].
    + rewrite lookup_insert_eq. exists tg'. split; [done|]. intros _. by eapply Wi.
    + rewrite lookup_insert_ne by done. eauto.
  - done.
  - intros h Hh. rewrite lookup_insert_ne; [by apply W3|]. intros <-. by rewrite W3 in Hg.
  - intros h th. rewrite lookup_insert_Some. intros [[<- <-]|[Hneq Hh]] Hn; [done|].
    destruct (W4 h th Hh Hn) as (? & ? & ?). eauto.
  - intros h th. rewrite lookup_insert_Some. intros [[<- <-]|[Hneq Hh]] Hn; [done|eauto].
  - intros h th ln. rewrite lookup_insert_Some. intros [[<- <-]|[Hneq Hh]] Hl; [by apply Hln|].
    specialize (W6 h th ln Hh Hl). lia.
  - intros h th. rewrite lookup_insert_Some. intros [[<- <-]|[Hneq Hh]]; [done|eauto].
  - intros h th h' th' ln. rewrite !lookup_insert_Some.
    intros [[<- <-]|[Hneq Hh]] [[<- <-]|[Hneq' Hh']] H1 H2; [done|exfalso; eauto..|eauto].
  - intros h th h' th'. rewrite !lookup_insert_Some.
    intros [[<- <-]|[Hneq Hh]] [[<- <-]|[Hneq' Hh']] H1 H2 E; [done| | |eauto].
    + by destruct (Hport' _ _ Hh' Hneq' H2).
    + by destruct (Hport' _ _ Hh Hneq H1).
Qed.

Lemma wf_getOrCreate key ctl : wf allowed ctl → wf allowed (getOrCreate key ctl).2.
Proof.
  intros W. unfold getOrCreate. destruct (groups ctl !! key) eqn:Hk; [done|].
  destruct W as [W1 W2 Wi W3 W4 W5 W6 W7 W8 W9]. set (n := nextObj ctl).
  assert (Hn : objs ctl !! n = None) by by apply W3.
  assert (Hreg : ∀ k g, groups ctl !! k = Some g → g ≠ n).
  { intros k g Hg ->. destruct (W2 k n Hg) as (? & ? & _). congruence. }
  split; simpl; [done|..].
  - intros k g. rewrite lookup_insert_Some. intros [[<- <-]|[Hne Hg]].
    + rewrite lookup_insert_eq. by exists NewTCPGroup.
    + rewrite lookup_insert_ne; [eauto|]. by apply not_eq_sym, (Hreg k).
  - intros k k' g. rewrite !lookup_insert_Some. specialize (Hreg k). assert (Hreg' := Hreg).
    intros [[<- <-]|[Hne Hg]] [[<- Heq]|[Hne' Hg']]; try done; [|by destruct (Hreg g Hg)|by eapply Wi].
    destruct (W2 k' n Hg') as (? & ? & _). congruence.
  - intros g Hg. rewrite lookup_insert_ne by lia. apply W3. lia.
  - intros g tg. rewrite lookup_insert_Some. intros [[<- <-]|[Hne Hg]] Hl; [done|].
    destruct (W4 g tg Hg Hl) as (Hr & ? & ?). split_and!; try done.
    rewrite lookup_insert_ne; [done|]. intros ->. congruence.
  - intros g tg. rewrite lookup_insert_Some. intros [[<- <-]|[Hne Hg]]; [done|eauto].
  - intros g tg ln. rewrite lookup_insert_Some. intros [[<- <-]|[Hne Hg]]; [set_solver|eauto].
  - intros g tg. rewrite lookup_insert_Some. intros [[<- <-]|[Hne Hg]]; [constructor|eauto].
  - intros g tg g' tg' ln. rewrite !lookup_insert_Some.
    intros [[<- <-]|[Hne Hg]] [[<- <-]|[Hne' Hg']] H1 H2; [done|set_solver..|eauto].
  - intros g tg g' tg'. rewrite !lookup_insert_Some.
    intros [[<- <-]|[Hne Hg]] [[<- <-]|[Hne' Hg']] H1 H2 E; [done|done|done|eauto].
Qed.

Lemma wf_groupListen e g name grp key ad po ctl :
  wf allowed ctl → (∀ i q, avail e i q = true → Ports.usedPorts (portManager ctl) !! q = None) →
  order e ≡ₚ elements (Ports.freePorts (portManager ctl)) →
  wf allowed (groupListen e g name grp key ad po ctl).2.
Proof.
  intros W Hav Ho. unfold groupListen. destruct (objs ctl !! g) as [tg|] eqn:Hg; [|done].
  destruct (isCurrent grp g ctl) eqn:Hcur; [|done]. apply bool_decide_eq_true in Hcur. simpl.
  destruct (lns tg) as [|l0 ls] eqn:Hl.
  - destruct (Ports.Acquire _ _ _ _ _ _) as [r pm'] eqn:HA.
    destruct (acquire_ports e name po _ r pm' (wf_ports _ _ W) Ho Hav HA) as (Wp & Hk & Hr).
    destruct r as [rp|er]; simpl; [|by apply wf_putSame].
    destruct (Hr rp eq_refl) as (Hfree & Hused & Wp' & Hk').
    destruct (listenOk e); simpl; [|by apply wf_putSame].
    eapply wf_putLive; simpl; eauto using NoDup_singleton.
    intros ln ->%list_elem_of_singleton. lia.
  - repeat case_decide; cbn [snd]; try done. assert (Hn : lns tg ≠ []) by by rewrite Hl.
    destruct (wf_live _ _ W g tg Hg Hn) as (Hr & Hacc & Hu). rewrite <-Hl.
    eapply wf_putLive; simpl; eauto using wf_ports.
    + by intros q.
    + by destruct (lns tg).
    + apply NoDup_app. split_and!; [by eapply wf_nodup| |apply NoDup_singleton].
      intros x Hx ->%list_elem_of_singleton. pose proof (wf_fresh _ _ W g tg _ Hg Hx). lia.
    + intros ln [Hin| ->%list_elem_of_singleton]%elem_of_app; [|lia].
      pose proof (wf_fresh _ _ W g tg _ Hg Hin). split; [lia|by left].
Qed.

Lemma wf_closeListener t g ln tg ctl :
  wf allowed ctl → objs ctl !! g = Some tg → ln ∈ lns tg → wf allowed (closeListener t g ln ctl).
Proof.
  intros W Hg Hin. unfold closeListener. rewrite Hg.
  assert (Hn : lns tg ≠ []) by (intros E; rewrite E in Hin; set_solver).
  destruct (wf_live _ _ W g tg Hg Hn) as (Hr & Hacc & Hu). pose proof (wf_nodup _ _ W g tg Hg) as Hnd.
  destruct (removeFirst ln (lns tg)) as [|l0 ls] eqn:Hrest.
  - assert (Hothers : ∀ h th, objs ctl !! h = Some th → g ≠ h → lns th ≠ [] →
      realPort tg ≠ realPort th ∧ group tg ≠ group th).
    { intros h th Hh Hneq Hl. split; intros E; apply Hneq.
      - by eapply (wf_unique _ _ W g tg h th).
      - destruct (wf_live _ _ W h th Hh Hl) as (Hr' & _). congruence. }
    unfold removeIf. rewrite decide_True by done. destruct W as [W1 W2 Wi W3 W4 W5 W6 W7 W8 W9].
    split; simpl; [by apply Ports.wf_release|..].
    + intros k h [Hk Hh]%lookup_delete_Some. destruct (W2 k h Hh) as (th & Ho & Hgr).
      destruct (decide (g = h)) as [<-|]; [|rewrite lookup_insert_ne by done; eauto].
      exfalso. apply Hk. by eapply Wi.
    + intros k k' h [_ ?]%lookup_delete_Some [_ ?]%lookup_delete_Some. by eapply Wi.
    + intros h Hh. rewrite lookup_insert_ne; [by apply W3|]. intros <-. by rewrite W3 in Hg.
    + intros h th. rewrite lookup_insert_Some. intros [[<- <-]|[Hneq Hh]] Hl; [done|].
      destruct (W4 h th Hh Hl) as (? & ? & ?). destruct (Hothers h th Hh Hneq Hl).
      rewrite lookup_delete_ne by done. split_and!; try done.
      unfold Ports.Release. destruct (Ports.usedPorts (portManager ctl) !! realPort tg); [|done].
      simpl. by rewrite lookup_delete_ne.
    + intros h th. rewrite lookup_insert_Some. intros [[<- <-]|[Hneq Hh]]; [done|eauto].
    + intros h th l. rewrite lookup_insert_Some. intros [[<- <-]|[Hneq Hh]]; [set_solver|eauto].
    + intros h th. rewrite lookup_insert_Some. intros [[<- <-]|[Hneq Hh]]; [constructor|eauto].
    + intros h th h' th' l. rewrite !lookup_insert_Some.
      intros [[<- <-]|[Hne Hh]] [[<- <-]|[Hne' Hh']] H1 H2; [done|set_solver..|eauto].
    + intros h th h' th'. rewrite !lookup_insert_Some.
      intros [[<- <-]|[Hne Hh]] [[<- <-]|[Hne' Hh']] H1 H2 E; [done|done|done|eauto].
  - rewrite <-Hrest. eapply wf_putLive; simpl; eauto using wf_ports, NoDup_removeFirst.
    + by intros q.
    + by rewrite Hrest.
    + intros l [Hl _]%elem_of_removeFirst; [|done]. split; [by eapply wf_fresh|by left].
Qed.

Lemma tcpgroup_wf_steps ctl ctl' : wf allowed ctl → rtc step ctl ctl' → wf allowed ctl'.
Proof.
  intros W H. induction H as [|? ? ? [] ? IH]; [done|..]; apply IH;
    eauto using wf_getOrCreate, wf_groupListen, wf_closeListener.
Qed.

Lemma tcpgroup_wf_new pm : Ports.wf allowed pm → wf allowed (NewTCPGroupCtl pm).
Proof. intros. split; simpl; try done; intros *; by rewrite lookup_empty. Qed.

End invariant.

(** ** Interleavings

    The mutex of a group is held over [Acquire] and [net.Listen], and over the end of its
    last listener, but other groups, other users of the port manager and of the ports
    themselves run in between.  The two calls in their parts: *)

(** [Listen] up to [net.Listen]: a result, or the port that was acquired. *)
Definition beginListen (e : Env) (g : nat) (proxyName grp key ad : string) (po : Z) (ctl : TCPGroupCtl)
    : (res error (nat * Z) + Z) * TCPGroupCtl :=
  match objs ctl !! g with
  | None => (inl (Err errGroupStale), ctl)
  | Some tg =>
  if negb (isCurrent grp g ctl) then (inl (Err errGroupStale), ctl)
  else match lns tg with
  | [] =>
      match Ports.Acquire (avail e) (order e) (now e) proxyName po (portManager ctl) with
      | (Err er, pm) => (inl (Err (ErrPorts er)), putObj g tg pm (nextLn ctl) ctl)
      | (Ok rp, pm) => (inr rp, putObj g tg pm (nextLn ctl) ctl)
      end
  | _ =>
      if decide (group tg ≠ grp ∨ addr tg ≠ ad) then (inl (Err ErrGroupParamsInvalid), ctl)
      else if decide (port tg ≠ po) then (inl (Err ErrGroupDifferentPort), ctl)
      else if decide (groupKey tg ≠ key) then (inl (Err ErrGroupAuthFailed), ctl)
      else
        (inl (Ok (nextLn ctl, realPort tg)),
         putObj g (mkTCPGroup (group tg) (groupKey tg) (addr tg) (port tg) (realPort tg)
                     (lns tg ++ [nextLn ctl]) (accepting tg)) (portManager ctl) (S (nextLn ctl)) ctl)
  end
  end.

(** [Listen] from [net.Listen] on, whose result is [ok]. *)
Definition finishListen (ok : bool) (t : Z) (g : nat) (grp key ad : string) (po rp : Z) (ctl : TCPGroupCtl)
    : res error (nat * Z) * TCPGroupCtl :=
  if ok then (Ok (nextLn ctl, rp), putObj g (mkTCPGroup grp key ad po rp [nextLn ctl] true) (portManager ctl) (S (nextLn ctl)) ctl)
  else (Err ErrListen, mkCtl (groups ctl) (objs ctl) (Ports.Release t rp (portManager ctl)) (nextObj ctl) (nextLn ctl)).

Lemma groupListen_parts e g proxyName grp key ad po ctl :
  groupListen e g proxyName grp key ad po ctl =
  match beginListen e g proxyName grp key ad po ctl with
  | (inl r, ctl) => (r, ctl)
  | (inr rp, ctl) => finishListen (listenOk e) (now e) g grp key ad po rp ctl
  end.
Proof.
  unfold groupListen, beginListen, finishListen. destruct (objs ctl !! g) as [tg|]; [|done]. destruct (negb _); [done|].
  destruct (lns tg); [|by repeat case_decide]. destruct (Ports.Acquire _ _ _ _ _ _) as [[rp|er] pm]; [|done].
  unfold putObj. simpl. by destruct (listenOk e); rewrite ?insert_insert_eq.
Qed.

(** [closeListener] up to the cleanup function: the listener leaves, and with the last one
    the real listener is closed. *)
Definition beginClose (g ln : nat) (tg : TCPGroup) (ctl : TCPGroupCtl) : TCPGroupCtl :=
  let rest := removeFirst ln (lns tg) in
  putObj g (mkTCPGroup (group tg) (groupKey tg) (addr tg) (port tg) (realPort tg) rest
              (match rest with [] => false | _ => accepting tg end)) (portManager ctl) (nextLn ctl) ctl.
(** The cleanup function: the port, then the registry. *)
Definition releasePort (t : Z) (tg : TCPGroup) (ctl : TCPGroupCtl) : TCPGroupCtl :=
  mkCtl (groups ctl) (objs ctl) (Ports.Release t (realPort tg) (portManager ctl)) (nextObj ctl) (nextLn ctl).
Definition leaveRegistry (g : nat) (tg : TCPGroup) (ctl : TCPGroupCtl) : TCPGroupCtl :=
  mkCtl (removeIf (group tg) g (groups ctl)) (objs ctl) (portManager ctl) (nextObj ctl) (nextLn ctl).

Lemma closeListener_parts t g ln tg ctl : objs ctl !! g = Some tg →
  closeListener t g ln ctl =
  match removeFirst ln (lns tg) with
  | [] => leaveRegistry g tg (releasePort t tg (beginClose g ln tg ctl))
  | _ => beginClose g ln tg ctl
  end.
Proof. intros Hg. unfold closeListener, beginClose. rewrite Hg. by destruct (removeFirst ln (lns tg)). Qed.

(** Who listens on a port of the system: a group, or anybody else. *)
Inductive holder := ByGroup (g : nat) | Elsewhere.
(** What the holder of the mutex of a group is about to do. *)
Inductive inside := Opening (grp key ad : string) (po rp : Z) | Releasing | Removing.

Record World := mkWorld { ctlOf : TCPGroupCtl; bound : gmap Z holder; held : gmap nat inside }.
Definition NewWorld (allowPorts : list Ports.PortsRange) (bound : gmap Z holder) : World :=
  mkWorld (NewTCPGroupCtl (Ports.NewManager allowPorts)) bound ∅.

(** A port is opened by one holder at a time; [net.Listen] may always fail.  The others
    acquire, release and clean ports as they like. *)
Inductive race (w : World) : World → Prop :=
| race_get key : race w (mkWorld (getOrCreate key (ctlOf w)).2 (bound w) (held w))
| race_begin e g proxyName grp key ad po r ctl :
    held w !! g = None → order e ≡ₚ elements (Ports.freePorts (portManager (ctlOf w))) →
    beginListen e g proxyName grp key ad po (ctlOf w) = (r, ctl) →
    race w (mkWorld ctl (bound w) (match r with inr rp => <[ g := Opening grp key ad po rp ]> (held w) | inl _ => held w end))
| race_open g t grp key ad po rp :
    held w !! g = Some (Opening grp key ad po rp) → bound w !! rp = None →
    race w (mkWorld (finishListen true t g grp key ad po rp (ctlOf w)).2 (<[ rp := ByGroup g ]> (bound w)) (delete g (held w)))
| race_openFails g t grp key ad po rp :
    held w !! g = Some (Opening grp key ad po rp) →
    race w (mkWorld (finishListen false t g grp key ad po rp (ctlOf w)).2 (bound w) (delete g (held w)))
| race_close g ln tg :
    held w !! g = None → objs (ctlOf w) !! g = Some tg → ln ∈ lns tg → removeFirst ln (lns tg) ≠ [] →
    race w (mkWorld (beginClose g ln tg (ctlOf w)) (bound w) (held w))
| race_closeLast g ln tg :
    held w !! g = None → objs (ctlOf w) !! g = Some tg → ln ∈ lns tg → removeFirst ln (lns tg) = [] →
    race w (mkWorld (beginClose g ln tg (ctlOf w)) (delete (realPort tg) (bound w)) (<[ g := Releasing ]> (held w)))
| race_release t g tg :
    held w !! g = Some Releasing → objs (ctlOf w) !! g = Some tg →
    race w (mkWorld (releasePort t tg (ctlOf w)) (bound w) (<[ g := Removing ]> (held w)))
| race_remove g tg :
    held w !! g = Some Removing → objs (ctlOf w) !! g = Some tg →
    race w (mkWorld (leaveRegistry g tg (ctlOf w)) (bound w) (delete g (held w)))
| race_ports pm :
    Ports.step (portManager (ctlOf w)) pm →
    race w (mkWorld (mkCtl (groups (ctlOf w)) (objs (ctlOf w)) pm (nextObj (ctlOf w)) (nextLn (ctlOf w))) (bound w) (held w))
| race_bind q : bound w !! q = None → race w (mkWorld (ctlOf w) (<[ q := Elsewhere ]> (bound w)) (held w))
| race_unbind q : bound w !! q = Some Elsewhere → race w (mkWorld (ctlOf w) (delete q (bound w)) (held w)).

Section race.
Context (allowed : gset Z).

(** What holds of a group whose mutex is held. *)
Definition insideOk (ctl : TCPGroupCtl) (g : nat) (tg : TCPGroup) (i : inside) : Prop :=
  lns tg = [] ∧ match i with
    | Opening grp _ _ _ rp => groups ctl !! grp = Some g ∧ rp ∈ allowed
    | Releasing | Removing => groups ctl !! group tg = Some g
    end.

Record rinv (w : World) : Prop := {
  ri_ports : Ports.wf allowed (portManager (ctlOf w));
  ri_registered key g : groups (ctlOf w) !! key = Some g → ∃ tg, objs (ctlOf w) !! g = Some tg ∧ (lns tg ≠ [] → group tg = key);
  ri_inj key key' g : groups (ctlOf w) !! key = Some g → groups (ctlOf w) !! key' = Some g → key = key';
  ri_objs g : (nextObj (ctlOf w) ≤ g)%nat → objs (ctlOf w) !! g = None;
  ri_live g tg : objs (ctlOf w) !! g = Some tg → lns tg ≠ [] →
    groups (ctlOf w) !! group tg = Some g ∧ accepting tg = true ∧ bound w !! realPort tg = Some (ByGroup g) ∧ realPort tg ∈ allowed;
  ri_idle g tg : objs (ctlOf w) !! g = Some tg → lns tg = [] → accepting tg = false;
  ri_lns g tg : objs (ctlOf w) !! g = Some tg → NoDup (lns tg) ∧ ∀ ln, ln ∈ lns tg → (ln < nextLn (ctlOf w))%nat;
  ri_owner g tg g' tg' ln : objs (ctlOf w) !! g = Some tg → objs (ctlOf w) !! g' = Some tg' → ln ∈ lns tg → ln ∈ lns tg' → g = g';
  ri_bound p g : bound w !! p = Some (ByGroup g) → ∃ tg, objs (ctlOf w) !! g = Some tg ∧ lns tg ≠ [] ∧ realPort tg = p;
  ri_held g i : held w !! g = Some i → ∃ tg, objs (ctlOf w) !! g = Some tg ∧ insideOk (ctlOf w) g tg i }.

(** A group gets a new state, and with it its socket and its mutex. *)
Lemma rinv_put w g tg tg' next' bound' held' :
  rinv w → objs (ctlOf w) !! g = Some tg → (nextLn (ctlOf w) ≤ next')%nat →
  (∀ p, bound' !! p = Some (ByGroup g) ↔ lns tg' ≠ [] ∧ p = realPort tg') →
  (∀ p h, h ≠ g → bound' !! p = Some (ByGroup h) ↔ bound w !! p = Some (ByGroup h)) →
  (∀ h, h ≠ g → held' !! h = held w !! h) →
  (lns tg' ≠ [] → held' !! g = None ∧ groups (ctlOf w) !! group tg' = Some g ∧ accepting tg' = true ∧ realPort tg' ∈ allowed) →
  (lns tg' = [] → accepting tg' = false ∧ ∀ i, held' !! g = Some i → insideOk (ctlOf w) g tg' i) →
  NoDup (lns tg') → (∀ ln, ln ∈ lns tg' → (ln < next')%nat ∧ (ln ∈ lns tg ∨ (nextLn (ctlOf w) ≤ ln)%nat)) →
  rinv (mkWorld (putObj g tg' (portManager (ctlOf w)) next' (ctlOf w)) bound' held').
Proof.
  intros [W1 W2 Wi W3 W4 W5 W6 W7 W8 W9] Hg Hnx Hb Hb' Hh Hlive Hidle Hnd Hln.
  split; simpl; [done|..].
  - intros key h Hk. destruct (W2 key h Hk) as (th & Ho & Hgr). rewrite lookup_insert. case_decide as E; [subst h|eauto].
    exists tg'. split; [done|]. intros Hl. destruct (Hlive Hl) as (_ & Hr & _). by eapply Wi.
  - done.
  - intros h Hle. rewrite lookup_insert_ne; [by apply W3|]. intros <-. by rewrite W3 in Hg.
  - intros h th. rewrite lookup_insert_Some. intros [[<- <-]|[Hne Ho]] Hl; [destruct (Hlive Hl) as (_ & ? & ? & ?); split_and!; try done; by apply Hb|].
    destruct (W4 h th Ho Hl) as (? & ? & ? & ?). split_and!; try done. by apply Hb'.
  - intros h th. rewrite lookup_insert_Some. intros [[<- <-]|[Hne Ho]] Hl; [by apply Hidle|eauto].
  - intros h th. rewrite lookup_insert_Some. intros [[<- <-]|[Hne Ho]]; [split; [done|]; intros ln Hin; by apply Hln|].
    destruct (W6 h th Ho) as [? Hlt]. split; [done|]. intros ln Hin. specialize (Hlt ln Hin). lia.
  - assert (Hx : ∀ h th ln, objs (ctlOf w) !! h = Some th → g ≠ h → ln ∈ lns tg' → ln ∈ lns th → False).
    { intros h th ln Ho Hne H1 H2. destruct (Hln ln H1) as [_ [H3|H3]]; [by apply Hne, (W7 g tg h th ln)|]. destruct (W6 h th Ho) as [_ H4]. specialize (H4 ln H2). lia. }
    intros h th h' th' ln. rewrite !lookup_insert_Some. intros [[<- <-]|[Hne Ho]] [[<- <-]|[Hne' Ho']] H1 H2; [done|exfalso; eauto..|eauto].
  - intros p h Hp. destruct (decide (h = g)) as [->|Hne].
    + apply Hb in Hp as [Hl ->]. rewrite lookup_insert_eq. by exists tg'.
    + apply Hb' in Hp; [|done]. destruct (W8 p h Hp) as (th & Ho & ?). rewrite lookup_insert_ne by done. eauto.
  - intros h i Hi. destruct (decide (h = g)) as [->|Hne].
    + rewrite lookup_insert_eq. exists tg'. split; [done|]. destruct (decide (lns tg' = [])) as [Hl|Hl]; [by apply Hidle|].
      destruct (Hlive Hl) as [Hn _]. congruence.
    + rewrite Hh in Hi by done. destruct (W9 h i Hi) as (th & Ho & Hok). rewrite lookup_insert_ne by done. eauto.
Qed.

(** Only the port manager and sockets of others change, or a mutex is given back. *)
Lemma rinv_ports w pm bound' held' :
  rinv w → Ports.wf allowed pm → (∀ p g, bound' !! p = Some (ByGroup g) ↔ bound w !! p = Some (ByGroup g)) →
  (∀ g i, held' !! g = Some i → held w !! g = Some i ∨ i = Removing ∧ held w !! g = Some Releasing) →
  rinv (mkWorld (mkCtl (groups (ctlOf w)) (objs (ctlOf w)) pm (nextObj (ctlOf w)) (nextLn (ctlOf w))) bound' held').
Proof.
  intros [W1 W2 Wi W3 W4 W5 W6 W7 W8 W9] Wp Hb Hh. split; simpl; eauto.
  - intros g tg Hg Hl. destruct (W4 g tg Hg Hl) as (? & ? & ? & ?). split_and!; try done. by apply Hb.
  - intros p g Hp. apply Hb in Hp. eauto.
  - intros g i Hi. destruct (Hh g i Hi) as [Hi'|[-> Hi']]; [by apply W9|]. destruct (W9 g _ Hi') as (tg & Hg & Hok). by exists tg.
Qed.

Lemma rinv_get key w : rinv w → rinv (mkWorld (getOrCreate key (ctlOf w)).2 (bound w) (held w)).
Proof.
  intros W. unfold getOrCreate. destruct (groups (ctlOf w) !! key) eqn:Hk; [by destruct w, W|].
  destruct W as [W1 W2 Wi W3 W4 W5 W6 W7 W8 W9]. set (n := nextObj (ctlOf w)).
  assert (Hn : objs (ctlOf w) !! n = None) by by apply W3.
  assert (Hreg : ∀ k g, groups (ctlOf w) !! k = Some g → g ≠ n) by (intros k g Hg ->; destruct (W2 k n Hg) as (? & ? & _); congruence).
  assert (Hold : ∀ k g, groups (ctlOf w) !! k = Some g → <[ key := n ]> (groups (ctlOf w)) !! k = Some g) by (intros k g Hg; rewrite lookup_insert_ne; [done|congruence]).
  assert (Hobj : ∀ g tg, <[ n := NewTCPGroup ]> (objs (ctlOf w)) !! g = Some tg → lns tg ≠ [] → objs (ctlOf w) !! g = Some tg).
  { intros g tg. rewrite lookup_insert_Some. intros [[<- <-]|[_ ?]] ?; done. }
  assert (Hkeep : ∀ g tg, objs (ctlOf w) !! g = Some tg → <[ n := NewTCPGroup ]> (objs (ctlOf w)) !! g = Some tg) by (intros g tg Hg; rewrite lookup_insert_ne; [done|congruence]).
  split; simpl; [done|..].
  - intros k g. rewrite lookup_insert_Some. intros [[<- <-]|[Hne Hg]]; [rewrite lookup_insert_eq; by exists NewTCPGroup|].
    destruct (W2 k g Hg) as (tg & Ho & ?). exists tg. eauto.
  - intros k k' g. rewrite !lookup_insert_Some. intros [[<- <-]|[Hne Hg]] [[<- E]|[Hne' Hg']]; try done; [by destruct (Hreg _ _ Hg')|subst; by destruct (Hreg _ _ Hg)|by eapply Wi].
  - intros g Hg. rewrite lookup_insert_ne by lia. apply W3. lia.
  - intros g tg Hg Hl. destruct (W4 g tg (Hobj _ _ Hg Hl) Hl) as (? & ? & ? & ?). split_and!; eauto.
  - intros g tg. rewrite lookup_insert_Some. intros [[<- <-]|[Hne Hg]]; [done|eauto].
  - intros g tg. rewrite lookup_insert_Some. intros [[<- <-]|[Hne Hg]]; [split; [constructor|by intros ln ?%elem_of_nil]|eauto].
  - intros g tg g' tg' ln Hg Hg' H1 H2. apply (W7 g tg g' tg' ln); try done; apply Hobj; try done.
    + intros E. rewrite E in H1. by apply elem_of_nil in H1.
    + intros E. rewrite E in H2. by apply elem_of_nil in H2.
  - intros p g Hp. destruct (W8 p g Hp) as (tg & Hg & ?). exists tg. eauto.
  - intros g i Hi. destruct (W9 g i Hi) as (tg & Hg & Hl & Hok). exists tg. split; [eauto|]. split; [done|]. destruct i; [destruct Hok|..]; eauto.
Qed.

Lemma rinv_begin w e g proxyName grp key ad po r ctl :
  rinv w → held w !! g = None → order e ≡ₚ elements (Ports.freePorts (portManager (ctlOf w))) →
  beginListen e g proxyName grp key ad po (ctlOf w) = (r, ctl) →
  rinv (mkWorld ctl (bound w) (match r with inr rp => <[ g := Opening grp key ad po rp ]> (held w) | inl _ => held w end)).
Proof.
  intros W Hh Ho. unfold beginListen. destruct (objs (ctlOf w) !! g) as [tg|] eqn:Hg; [|intros [= <- <-]; by destruct w].
  destruct (isCurrent grp g (ctlOf w)) eqn:Hcur; simpl; [|intros [= <- <-]; by destruct w]. apply bool_decide_eq_true in Hcur.
  destruct (lns tg) as [|l0 ls] eqn:Hl.
  - pose proof (Ports.wf_acquire allowed (avail e) (order e) (now e) proxyName po _ (ri_ports _ W) Ho) as Wp.
    pose proof (Ports.Acquire_cases allowed (avail e) (order e) (now e) proxyName po _ (ri_ports _ W) Ho) as Hc.
    destruct (Ports.Acquire _ _ _ _ _ _) as [[rp|er] pm]; intros [= <- <-]; unfold putObj; rewrite insert_id by done.
    + assert (rp ∈ allowed) as Hrp by (destruct Hc as [(p & i & Hp & _ & _ & _ & _ & [[= ->]|[_ ?]])|(? & ? & _)]; done).
      assert (W' : rinv (mkWorld (mkCtl (groups (ctlOf w)) (objs (ctlOf w)) pm (nextObj (ctlOf w)) (nextLn (ctlOf w))) (bound w) (held w))) by (apply rinv_ports; auto).
      destruct W' as [W1 W2 Wi W3 W4 W5 W6 W7 W8 W9]. split; try done. intros h i. simpl. rewrite lookup_insert_Some. intros [[<- <-]|[_ Hi]]; [by exists tg|by apply W9].
    + apply rinv_ports; auto.
  - case_decide; [intros [= <- <-]; by destruct w|]. case_decide; [intros [= <- <-]; by destruct w|]. case_decide; [intros [= <- <-]; by destruct w|].
    intros [= <- <-]. assert (Hn : lns tg ≠ []) by by rewrite Hl. destruct (ri_live _ W g tg Hg Hn) as (Hr & Hacc & Hb & Hal). destruct (ri_lns _ W g tg Hg) as [Hnd Hlt].
    rewrite app_comm_cons, <-Hl. eapply (rinv_put w g tg); simpl; eauto with lia.
    + intros p. split; [|intros [_ ->]; done]. intros Hp. destruct (ri_bound _ W p g Hp) as (tg' & Hg' & _ & <-). split; [by destruct (lns tg)|congruence].
    + by destruct (lns tg).
    + apply NoDup_app. split_and!; [done| |apply NoDup_singleton]. intros x Hx ->%list_elem_of_singleton. specialize (Hlt _ Hx). lia.
    + intros ln [Hin| ->%list_elem_of_singleton]%elem_of_app; [|lia]. specialize (Hlt _ Hin). split; [lia|by left].
Qed.

Lemma rinv_open w g t grp key ad po rp : rinv w → held w !! g = Some (Opening grp key ad po rp) → bound w !! rp = None →
  rinv (mkWorld (finishListen true t g grp key ad po rp (ctlOf w)).2 (<[ rp := ByGroup g ]> (bound w)) (delete g (held w))).
Proof.
  intros W Hh Hb. destruct (ri_held _ W g _ Hh) as (tg & Hg & Hl & Hr & Hal). simpl. eapply (rinv_put w g tg); simpl; eauto using NoDup_singleton.
  - intros p. rewrite lookup_insert_Some. split; [|intros [_ ->]; by left]. intros [[<- _]|[_ Hp]]; [done|].
    destruct (ri_bound _ W p g Hp) as (tg' & Hg' & Hn & _). congruence.
  - intros p h Hne. rewrite lookup_insert_Some. split; [intros [[_ [= ?]]|[_ ?]]; [by subst|done]|]. intros Hp. right. split; [congruence|done].
  - intros h Hne. by rewrite lookup_delete_ne.
  - intros _. by rewrite lookup_delete_eq.
  - done.
  - intros ln ->%list_elem_of_singleton. lia.
Qed.

Lemma rinv_close w g ln tg : rinv w → held w !! g = None → objs (ctlOf w) !! g = Some tg → ln ∈ lns tg →
  rinv (mkWorld (beginClose g ln tg (ctlOf w)) (match removeFirst ln (lns tg) with [] => delete (realPort tg) (bound w) | _ => bound w end)
    (match removeFirst ln (lns tg) with [] => <[ g := Releasing ]> (held w) | _ => held w end)).
Proof.
  intros W Hh Hg Hin. assert (Hn : lns tg ≠ []) by (intros E; rewrite E in Hin; by apply elem_of_nil in Hin).
  destruct (ri_live _ W g tg Hg Hn) as (Hr & Hacc & Hb & Hal). destruct (ri_lns _ W g tg Hg) as [Hnd Hlt].
  assert (Hown : ∀ p, bound w !! p = Some (ByGroup g) → p = realPort tg) by (intros p Hp; destruct (ri_bound _ W p g Hp) as (tg' & ? & _ & <-); congruence).
  unfold beginClose. destruct (removeFirst ln (lns tg)) as [|l0 ls] eqn:Hrest; eapply (rinv_put w g tg); simpl; eauto.
  - intros p. rewrite lookup_delete_Some. split; [intros [Hne Hp]; by destruct Hne; rewrite (Hown p Hp)|by intros [? _]].
  - intros p h Hne. rewrite lookup_delete_Some. split; [by intros [_ ?]|]. intros Hp. split; [congruence|done].
  - intros h Hne. by rewrite lookup_insert_ne.
  - done.
  - intros _. split; [done|]. intros i. rewrite lookup_insert_eq. intros [= <-]. done.
  - constructor.
  - intros x ?%elem_of_nil. done.
  - intros p. split; [intros Hp; split; [done|by apply Hown]|by intros [_ ->]].
  - done.
  - rewrite <-Hrest. by apply NoDup_removeFirst.
  - rewrite <-Hrest. intros x [Hx _]%elem_of_removeFirst; [|done]. split; [by apply Hlt|by left].
Qed.

Lemma rinv_remove w g tg : rinv w → held w !! g = Some Removing → objs (ctlOf w) !! g = Some tg →
  rinv (mkWorld (leaveRegistry g tg (ctlOf w)) (bound w) (delete g (held w))).
Proof.
  intros W Hh Hg. destruct (ri_held _ W g _ Hh) as (tg' & Hg' & Hl & Hr). assert (tg' = tg) as -> by congruence. unfold leaveRegistry, removeIf. rewrite decide_True by done.
  destruct W as [W1 W2 Wi W3 W4 W5 W6 W7 W8 W9]. split; simpl; try done.
  - intros k h [_ Hk]%lookup_delete_Some. by apply W2.
  - intros k k' h [_ ?]%lookup_delete_Some [_ ?]%lookup_delete_Some. by eapply Wi.
  - intros h th Ho Hn. destruct (W4 h th Ho Hn) as (Hr' & ? & ? & ?). split_and!; try done. rewrite lookup_delete_ne; [done|]. intros E. rewrite E in Hr. congruence.
  - intros h i [Hne Hi]%lookup_delete_Some. destruct (W9 h i Hi) as (th & Ho & Hl' & Hok). exists th. split; [done|]. split; [done|].
    assert (Hkeep : ∀ k, groups (ctlOf w) !! k = Some h → delete (group tg) (groups (ctlOf w)) !! k = Some h) by (intros k Hk; rewrite lookup_delete_ne; [done|intros <-; congruence]).
    destruct i; [destruct Hok|..]; eauto.
Qed.

Lemma rinv_step w w' : rinv w → race w w' → rinv w'.
Proof.
  intros W [key|e g proxyName grp key ad po r ctl Hh Ho Hb|g t grp key ad po rp Hh Hb|g t grp key ad po rp Hh|g ln tg Hh Hg Hin Hne|g ln tg Hh Hg Hin He|t g tg Hh Hg|g tg Hh Hg|pm Hp|q Hq|q Hq].
  - by apply rinv_get.
  - by eapply rinv_begin.
  - by apply rinv_open.
  - simpl. apply rinv_ports; [done|apply Ports.wf_release, W|done|]. intros h i [_ ?]%lookup_delete_Some. by left.
  - pose proof (rinv_close w g ln tg W Hh Hg Hin) as H. by destruct (removeFirst ln (lns tg)).
  - pose proof (rinv_close w g ln tg W Hh Hg Hin) as H. by rewrite He in H.
  - apply rinv_ports; [done|apply Ports.wf_release, W|done|]. intros h i. rewrite lookup_insert_Some. intros [[<- <-]|[_ ?]]; auto.
  - by apply rinv_remove.
  - apply rinv_ports; [done|eapply Ports.ports_wf_step; [apply W|done]|done|auto].
  - assert (ctlOf w = mkCtl (groups (ctlOf w)) (objs (ctlOf w)) (portManager (ctlOf w)) (nextObj (ctlOf w)) (nextLn (ctlOf w))) as -> by by destruct (ctlOf w).
    apply rinv_ports; [done|apply W|intros p g; simpl; rewrite lookup_insert_Some; split; [by intros [[_ ?]|[_ ?]]|intros Hp; right; split; [congruence|done]]|auto].
  - assert (ctlOf w = mkCtl (groups (ctlOf w)) (objs (ctlOf w)) (portManager (ctlOf w)) (nextObj (ctlOf w)) (nextLn (ctlOf w))) as -> by by destruct (ctlOf w).
    apply rinv_ports; [done|apply W|intros p g; simpl; rewrite lookup_delete_Some; split; [by intros [_ ?]|intros Hp; split; [congruence|done]]|auto].
Qed.

Lemma rinv_steps w w' : rinv w → rtc race w w' → rinv w'.
Proof. intros W H. induction H; eauto using rinv_step. Qed.

End race.

Lemma rinv_new allowPorts bd : (∀ p g, bd !! p ≠ Some (ByGroup g)) → rinv (Ports.allowedPorts allowPorts) (NewWorld allowPorts bd).
Proof. intros Hb. split; simpl; try (by intros *; rewrite lookup_empty); [apply Ports.ports_wf_new|]. intros p g Hp. by destruct (Hb p g). Qed.

(** C14: a group owns one listening port exactly while it has listeners.  Other groups, other
    users of the port manager, who acquire, release and clean ports, and others who listen on
    ports may all run between the parts of a call, and [net.Listen] may fail.  At any time a
    group with listeners is the registered group of its name, is accepting, and the socket on
    its port is open and its own, on a port that is allowed, so that no two of them share a
    port or a listener; every socket of a group belongs to one with listeners; and a group
    that is not in the registry has no listeners.  (The mark of the port in the port manager
    is not part of it: [mark_lost] below shows that it can be lost.) *)
Theorem tcpgroup_invariant allowPorts bd w :
  (∀ p g, bd !! p ≠ Some (ByGroup g)) → rtc race (NewWorld allowPorts bd) w →
  (∀ g tg, objs (ctlOf w) !! g = Some tg → lns tg ≠ [] →
     groups (ctlOf w) !! group tg = Some g ∧ accepting tg = true ∧
     bound w !! realPort tg = Some (ByGroup g) ∧ realPort tg ∈ Ports.allowedPorts allowPorts) ∧
  (∀ g tg g' tg', objs (ctlOf w) !! g = Some tg → objs (ctlOf w) !! g' = Some tg' →
     lns tg ≠ [] → lns tg' ≠ [] → realPort tg = realPort tg' ∨ (∃ ln, ln ∈ lns tg ∧ ln ∈ lns tg') → g = g') ∧
  (∀ p g, bound w !! p = Some (ByGroup g) → ∃ tg, objs (ctlOf w) !! g = Some tg ∧ lns tg ≠ [] ∧ realPort tg = p) ∧
  (∀ g tg, objs (ctlOf w) !! g = Some tg → (∀ k, groups (ctlOf w) !! k ≠ Some g) → lns tg = []).
Proof.
  intros Hb H. pose proof (rinv_steps _ _ _ (rinv_new allowPorts bd Hb) H) as W. split_and!; [apply W| |apply W|].
  - intros g tg g' tg' Hg Hg' Hl Hl' [E|(ln & H1 & H2)]; [|by eapply (ri_owner _ _ W)].
    destruct (ri_live _ _ W g tg Hg Hl) as (_ & _ & H1 & _), (ri_live _ _ W g' tg' Hg' Hl') as (_ & _ & H2 & _). congruence.
  - intros g tg Hg Hk. destruct (lns tg) as [|l ls] eqn:Hl; [done|].
    destruct (ri_live _ _ W g tg Hg) as [Hr _]; [by rewrite Hl|]. by destruct (Hk _ Hr).
Qed.

(** a listen call that runs on the group it has just looked up is never
    told that the group is stale, so the retry loop ends; and a call on a group
    that already has listeners joins it exactly when address, port and key
    agree, is given the port of the group, and otherwise changes nothing and
    names the first disagreement. *)
Theorem tcpgroup_listen_join allowed e name grp key ad po ctl g tg :
  wf allowed ctl →
  (Listen e name grp key ad po ctl).1 ≠ Err errGroupStale ∧
  (groups ctl !! grp = Some g → objs ctl !! g = Some tg → lns tg ≠ [] →
   let '(r, ctl') := Listen e name grp key ad po ctl in
   match r with
   | Ok (ln, rp) => addr tg = ad ∧ port tg = po ∧ groupKey tg = key ∧ rp = realPort tg ∧
       ln = nextLn ctl ∧ groups ctl' = groups ctl ∧ portManager ctl' = portManager ctl ∧
       ∃ tg', objs ctl' !! g = Some tg' ∧ lns tg' = lns tg ++ [ln] ∧ realPort tg' = realPort tg
   | Err er => ctl' = ctl ∧
       er = (if decide (addr tg ≠ ad) then ErrGroupParamsInvalid
             else if decide (port tg ≠ po) then ErrGroupDifferentPort else ErrGroupAuthFailed)
   end).
Proof.
  intros W. split.
  - unfold Listen. destruct (getOrCreate grp ctl) as [h c] eqn:Hget.
    assert (groups c !! grp = Some h ∧ is_Some (objs c !! h)) as [Hc [th Hh]].
    { unfold getOrCreate in Hget. destruct (groups ctl !! grp) as [h'|] eqn:Hk; simplify_eq/=.
      - split; [done|]. destruct (wf_registered _ _ W _ _ Hk) as (? & ? & _). eauto.
      - rewrite !lookup_insert_eq. eauto. }
    unfold groupListen, isCurrent. rewrite Hh, bool_decide_eq_true_2 by done. simpl.
    destruct (lns th); [destruct (Ports.Acquire _ _ _ _ _ _) as [[] ?]; [destruct (listenOk e)|]; done|].
    by repeat case_decide.
  - intros Hk Hg Hl. unfold Listen, getOrCreate. rewrite Hk.
    unfold groupListen, isCurrent. rewrite Hg, bool_decide_eq_true_2 by done. simpl.
    destruct (wf_live _ _ W g tg Hg Hl) as [Hr _].
    assert (group tg = grp) as -> by by eapply (wf_inj _ _ W).
    destruct (lns tg) eqn:E; [done|].
    destruct (decide (addr tg = ad)); [rewrite (decide_False (P := _ ∨ _)) by tauto|rewrite decide_True by tauto].
    + destruct (decide (port tg = po)); [rewrite (decide_False (P := port tg ≠ po)) by tauto|].
      * destruct (decide (groupKey tg = key)); [rewrite (decide_False (P := groupKey tg ≠ key)) by tauto|].
        -- split_and!; try done. simpl. rewrite lookup_insert_eq. eauto.
        -- rewrite (decide_True (P := groupKey tg ≠ key)) by done. split; [done|].
           by rewrite !decide_False by tauto.
      * rewrite (decide_True (P := port tg ≠ po)) by done. split; [done|].
        rewrite decide_False by tauto. by rewrite decide_True.
    + split; [done|]. by rewrite decide_True.
Qed.

(** Close the listeners of a list one after the other. *)
Definition closeAll (t : Z) (g : nat) (ls : list nat) (ctl : TCPGroupCtl) : TCPGroupCtl :=
  foldl (λ c ln, closeListener t g ln c) ctl ls.

(** The listeners of a group leave one by one until one is left. *)
Lemma close_prefix allowed t g ctl tg ls ln :
  wf allowed ctl → objs ctl !! g = Some tg → lns tg = ls ++ [ln] →
  wf allowed (closeAll t g ls ctl) ∧ groups (closeAll t g ls ctl) = groups ctl ∧
  portManager (closeAll t g ls ctl) = portManager ctl ∧
  (∃ tg', objs (closeAll t g ls ctl) !! g = Some tg' ∧ lns tg' = [ln] ∧ group tg' = group tg ∧
     realPort tg' = realPort tg) ∧
  (∀ h, h ≠ g → objs (closeAll t g ls ctl) !! h = objs ctl !! h).
Proof.
  revert ctl tg. induction ls as [|l ls IH]; intros ctl tg W Hg Hl; simpl in *; [split_and!; eauto|].
  assert (W' : wf allowed (closeListener t g l ctl))
    by (eapply wf_closeListener; eauto; rewrite Hl; by left).
  unfold closeListener in *. rewrite Hg, Hl in *. simpl in *. rewrite decide_True in * by done.
  destruct (ls ++ [ln]) as [|l1 ls'] eqn:E; [by destruct ls|]. rewrite <-E in *.
  destruct (IH _ (mkTCPGroup (group tg) (groupKey tg) (addr tg) (port tg) (realPort tg) (ls ++ [ln])
    (accepting tg)) W') as (? & ? & ? & ? & Ho); [simpl; by rewrite lookup_insert_eq|done|].
  split_and!; try done. intros h Hh. rewrite Ho by done. simpl. by rewrite lookup_insert_ne.
Qed.

(** when all listeners of a group have been closed, and not before, the
    port of the group is free again and the group has left the registry; the
    other groups and their entries are untouched. *)
Theorem tcpgroup_close_all allowed t g ctl tg ls ln :
  wf allowed ctl → objs ctl !! g = Some tg → lns tg = ls ++ [ln] →
  (Ports.usedPorts (portManager (closeAll t g ls ctl)) = Ports.usedPorts (portManager ctl) ∧
   groups (closeAll t g ls ctl) !! group tg = Some g) ∧
  let ctl' := closeAll t g (ls ++ [ln]) ctl in
  realPort tg ∈ Ports.freePorts (portManager ctl') ∧
  Ports.usedPorts (portManager ctl') !! realPort tg = None ∧
  groups ctl' = delete (group tg) (groups ctl) ∧
  (∀ h, h ≠ g → objs ctl' !! h = objs ctl !! h).
Proof.
  intros W Hg Hl. destruct (close_prefix _ t g ctl tg ls ln W Hg Hl)
    as (W' & Hgr & Hpm & (tg' & Hg' & Hl' & Hn' & Hp') & Ho).
  destruct (wf_live _ _ W g tg Hg) as (Hr & _ & [l Hu]); [rewrite Hl; by destruct ls|].
  split; [by rewrite Hpm, Hgr|]. cbn zeta.
  replace (closeAll t g (ls ++ [ln]) ctl) with (closeListener t g ln (closeAll t g ls ctl))
    by (unfold closeAll; by rewrite foldl_app).
  unfold closeListener. rewrite Hg', Hl'. simpl. rewrite decide_True by done. simpl.
  rewrite Hp', Hn', Hpm, Hgr. unfold Ports.Release. rewrite Hu. simpl. split_and!.
  - set_solver.
  - by rewrite lookup_delete_eq.
  - unfold removeIf. by rewrite decide_True.
  - intros h Hh. rewrite lookup_insert_ne by done. by apply Ho.
Qed.

(** ** Concrete runs *)

Definition demoEnv : Env := mkEnv (λ _ q, bool_decide (q = 6001)) (elements (Ports.allowedPorts Ports.demoRange)) 5 true.
Definition demoCtl0 : TCPGroupCtl := NewTCPGroupCtl (Ports.NewManager Ports.demoRange).
Definition demoCtl1 : TCPGroupCtl := (Listen demoEnv "a" "web" "k" "0.0.0.0" 6001 demoCtl0).2.
Definition demoCtl2 : TCPGroupCtl := (Listen demoEnv "b" "web" "k" "0.0.0.0" 6001 demoCtl1).2.
Definition demoGroup2 : TCPGroup := mkTCPGroup "web" "k" "0.0.0.0" 6001 6001 [0%nat; 1%nat] true.

Lemma demo_steps : rtc step demoCtl0 demoCtl1.
Proof.
  eapply rtc_l; [apply (step_get _ "web")|]. apply rtc_once.
  apply (step_listen _ demoEnv 0 "a" "web" "k" "0.0.0.0" 6001).
  - intros i q ->%bool_decide_eq_true. reflexivity.
  - apply Permutation_refl.
Qed.

Lemma demoCtl1_wf : wf (Ports.allowedPorts Ports.demoRange) demoCtl1.
Proof. eapply tcpgroup_wf_steps, demo_steps. apply tcpgroup_wf_new, Ports.ports_wf_new. Qed.

(** The second proxy joins the group of the first one. *)
Lemma demoCtl2_wf : wf (Ports.allowedPorts Ports.demoRange) demoCtl2.
Proof.
  change demoCtl2 with (groupListen (mkEnv (λ _ _, false)
    (elements (Ports.freePorts (portManager demoCtl1))) 5 true) 0 "b" "web" "k" "0.0.0.0" 6001 demoCtl1).2.
  apply wf_groupListen; [apply demoCtl1_wf|done|apply Permutation_refl].
Qed.

(** A stranger listens on port 7000; the lookup, the port is acquired, and the real listener
    is opened. *)
Definition demoWorld0 : World := NewWorld Ports.demoRange {[ 7000 := Elsewhere ]}.
Definition demoWorld : World :=
  let c := (beginListen demoEnv 0 "a" "web" "k" "0.0.0.0" 6001 (getOrCreate "web" (ctlOf demoWorld0)).2).2 in
  mkWorld (finishListen true 7 0 "web" "k" "0.0.0.0" 6001 6001 c).2 (<[ 6001 := ByGroup 0 ]> {[ 7000 := Elsewhere ]}) (delete 0%nat {[ 0%nat := Opening "web" "k" "0.0.0.0" 6001 6001 ]}).

Lemma demo_race : rtc race demoWorld0 demoWorld.
Proof.
  eapply rtc_l; [apply (race_get _ "web")|].
  eapply rtc_l; [apply (race_begin _ demoEnv 0 "a" "web" "k" "0.0.0.0" 6001 (inr 6001)); [done|apply Permutation_refl|vm_compute; reflexivity]|].
  apply rtc_once. exact (race_open (mkWorld (beginListen demoEnv 0 "a" "web" "k" "0.0.0.0" 6001 (getOrCreate "web" (ctlOf demoWorld0)).2).2
    {[ 7000 := Elsewhere ]} {[ 0%nat := Opening "web" "k" "0.0.0.0" 6001 6001 ]}) 0 7 "web" "k" "0.0.0.0" 6001 6001 eq_refl eq_refl).
Qed.

Lemma tcpgroup_invariant_witness :
  lns (mkTCPGroup "web" "k" "0.0.0.0" 6001 6001 [0%nat] true) ≠ [] ∧ bound demoWorld !! 6001 = Some (ByGroup 0).
Proof.
  split; [done|].
  apply (proj1 (tcpgroup_invariant Ports.demoRange {[ 7000 := Elsewhere ]} demoWorld ltac:(intros p g; rewrite lookup_singleton_Some; naive_solver) demo_race)
    0%nat (mkTCPGroup "web" "k" "0.0.0.0" 6001 6001 [0%nat] true)); [vm_compute; reflexivity|done].
Defined.

(** The mark of the port in the port manager is not the socket.  Between [Acquire] and
    [net.Listen] of the group another call under the same proxy name is given the same port
    from the reservation, without a look at the ports in use; the group opens its listener,
    that of the other call fails, and the other call gives the port back: the group listens
    on a port that is marked as free. *)
Definition demoCtlA : TCPGroupCtl := (beginListen demoEnv 0 "a" "web" "k" "0.0.0.0" 6001 (getOrCreate "web" (ctlOf demoWorld0)).2).2.
Definition demoOther : Ports.op := Ports.OpAcquire (avail demoEnv) (elements (Ports.freePorts (portManager demoCtlA))) 6 "a" 0.
Definition demoCtlB : TCPGroupCtl := mkCtl (groups demoCtlA) (objs demoCtlA) (Ports.run_op demoOther (portManager demoCtlA)) (nextObj demoCtlA) (nextLn demoCtlA).
Definition demoCtlC : TCPGroupCtl := (finishListen true 7 0 "web" "k" "0.0.0.0" 6001 6001 demoCtlB).2.
Definition demoLost : World :=
  mkWorld (mkCtl (groups demoCtlC) (objs demoCtlC) (Ports.run_op (Ports.OpRelease 8 6001) (portManager demoCtlC)) (nextObj demoCtlC) (nextLn demoCtlC)) (bound demoWorld) (held demoWorld).

Lemma mark_lost :
  (Ports.Acquire (avail demoEnv) (elements (Ports.freePorts (portManager demoCtlA))) 6 "a" 0 (portManager demoCtlA)).1 = Ok 6001 ∧
  Ports.usedPorts (portManager (ctlOf demoLost)) !! 6001 = None ∧
  bound demoLost !! 6001 = Some (ByGroup 0) ∧ rtc race demoWorld0 demoLost.
Proof.
  split_and!; [vm_compute; reflexivity..|]. eapply rtc_l; [apply (race_get _ "web")|].
  eapply rtc_l; [apply (race_begin _ demoEnv 0 "a" "web" "k" "0.0.0.0" 6001 (inr 6001) demoCtlA); [done|apply Permutation_refl|vm_compute; reflexivity]|].
  set (hd := {[ 0%nat := Opening "web" "k" "0.0.0.0" 6001 6001 ]} : gmap nat inside).
  eapply rtc_l; [exact (race_ports (mkWorld demoCtlA {[ 7000 := Elsewhere ]} hd) _ (Ports.step_op _ demoOther (Permutation_refl _)))|].
  eapply rtc_l; [exact (race_open (mkWorld demoCtlB {[ 7000 := Elsewhere ]} hd) 0 7 "web" "k" "0.0.0.0" 6001 6001 eq_refl eq_refl)|].
  apply rtc_once. exact (race_ports (mkWorld demoCtlC (bound demoWorld) (held demoWorld)) _ (Ports.step_op _ (Ports.OpRelease 8 6001) I)).
Qed.

Lemma tcpgroup_listen_join_witness :
  (Listen demoEnv "c" "web" "other" "0.0.0.0" 6001 demoCtl2).1 ≠ Err errGroupStale ∧
  (groups demoCtl2 !! "web" = Some 0%nat → objs demoCtl2 !! 0%nat = Some demoGroup2 →
   lns demoGroup2 ≠ [] →
   let '(r, ctl') := Listen demoEnv "c" "web" "other" "0.0.0.0" 6001 demoCtl2 in
   match r with
   | Ok (ln, rp) => addr demoGroup2 = "0.0.0.0" ∧ port demoGroup2 = 6001 ∧
       groupKey demoGroup2 = "other" ∧ rp = realPort demoGroup2 ∧
       ln = nextLn demoCtl2 ∧ groups ctl' = groups demoCtl2 ∧ portManager ctl' = portManager demoCtl2 ∧
       ∃ tg', objs ctl' !! 0%nat = Some tg' ∧ lns tg' = lns demoGroup2 ++ [ln] ∧
              realPort tg' = realPort demoGroup2
   | Err er => ctl' = demoCtl2 ∧
       er = (if decide (addr demoGroup2 ≠ "0.0.0.0") then ErrGroupParamsInvalid
             else if decide (port demoGroup2 ≠ 6001) then ErrGroupDifferentPort else ErrGroupAuthFailed)
   end).
Proof.
  apply (tcpgroup_listen_join (Ports.allowedPorts Ports.demoRange)). apply demoCtl2_wf.
Defined.

Lemma tcpgroup_close_all_witness :
  (Ports.usedPorts (portManager (closeAll 9 0 [0%nat] demoCtl2)) = Ports.usedPorts (portManager demoCtl2) ∧
   groups (closeAll 9 0 [0%nat] demoCtl2) !! group demoGroup2 = Some 0%nat) ∧
  let ctl' := closeAll 9 0 ([0%nat] ++ [1%nat]) demoCtl2 in
  realPort demoGroup2 ∈ Ports.freePorts (portManager ctl') ∧
  Ports.usedPorts (portManager ctl') !! realPort demoGroup2 = None ∧
  groups ctl' = delete (group demoGroup2) (groups demoCtl2) ∧
  (∀ h, h ≠ 0%nat → objs ctl' !! h = objs demoCtl2 !! h).
Proof.
  apply (tcpgroup_close_all (Ports.allowedPorts Ports.demoRange) 9 0 demoCtl2 demoGroup2 [0%nat] 1);
    [apply demoCtl2_wf|vm_compute; reflexivity|reflexivity].
Defined.

End TCPGroup.
