(* ===== verification/HTTPGroup.v ===== *)
(** * HTTP load-balancing groups: [server/group/http.go]

    The proxies of a group share one route of the HTTP router.  The group is
    the target of that route and picks the member for each connection by a
    round robin over [pxyNames] with an atomic 64-bit counter. *)
From S2P Require Import Prelude Vhost.

Module HTTPGroup.

Inductive error :=
| ErrGroupAuthFailed | ErrGroupParamsInvalid | ErrProxyRepeated | errGroupStale
| ErrRouter (e : Vhost.error)
| ErrNoCreateConnFunc | ErrNoEndpoint.

(** What a route of the router leads to: a group or a single proxy. *)
Inductive owner := OwnGroup (g : nat) | OwnProxy (name : string).

(** The route configuration stored in the router: that of the proxy, or of the first member
    of the group with the connection functions of the group. *)
Record target := mkTarget { cfg : Vhost.RouteConfig; own : owner }.

Section groups.
(** The functions that open a connection to a member. *)
Context {F : Type}.

Record HTTPGroup := mkHTTPGroup {
  group : string; groupKey : string; domain : string; location : string; routeByHTTPUser : string;
  createFuncs : gmap string F; pxyNames : list string; index : Z }.

Definition NewHTTPGroup : HTTPGroup := mkHTTPGroup "" "" "" "" "" ∅ [] 0.

Record HTTPGroupController := mkCtl {
  groups : gmap string nat;
  objs : gmap nat HTTPGroup;
  vhostRouter : Vhost.Routers target;
  nextObj : nat }.

Definition NewHTTPGroupController : HTTPGroupController := mkCtl ∅ ∅ Vhost.NewRouters 0.

Definition getOrCreate (key : string) (ctl : HTTPGroupController) : nat * HTTPGroupController :=
  match groups ctl !! key with
  | Some g => (g, ctl)
  | None =>
      let g := nextObj ctl in
      (g, mkCtl (<[ key := g ]> (groups ctl)) (<[ g := NewHTTPGroup ]> (objs ctl))
            (vhostRouter ctl) (S g))
  end.

Definition isCurrent (key : string) (g : nat) (ctl : HTTPGroupController) : bool :=
  bool_decide (groups ctl !! key = Some g).

Definition removeIf (key : string) (g : nat) (m : gmap string nat) : gmap string nat :=
  if decide (m !! key = Some g) then delete key m else m.

(** The last part of [Register]: add the member. *)
Definition addMember (g : nat) (hg : HTTPGroup) (proxyName : string) (f : F)
    (r : Vhost.Routers target) (ctl : HTTPGroupController) : res error unit * HTTPGroupController :=
  match createFuncs hg !! proxyName with
  | Some _ => (Err ErrProxyRepeated, mkCtl (groups ctl) (<[ g := hg ]> (objs ctl)) r (nextObj ctl))
  | None =>
      (Ok tt, mkCtl (groups ctl)
         (<[ g := mkHTTPGroup (group hg) (groupKey hg) (domain hg) (location hg) (routeByHTTPUser hg)
                    (<[ proxyName := f ]> (createFuncs hg)) (pxyNames hg ++ [proxyName]) (index hg) ]>
            (objs ctl)) r (nextObj ctl))
  end.

(** [HTTPGroup.Register] of the group at [g]; [f] is [routeConfig.CreateConnFn]. *)
Definition groupRegister (g : nat) (proxyName grp key : string) (rc : Vhost.RouteConfig) (f : F)
    (ctl : HTTPGroupController) : res error unit * HTTPGroupController :=
  match objs ctl !! g with
  | None => (Err errGroupStale, ctl)
  | Some hg =>
  if negb (isCurrent grp g ctl) then (Err errGroupStale, ctl)
  else if decide (createFuncs hg = ∅) then
    match Vhost.Add (Vhost.Domain rc) (Vhost.Location rc) (Vhost.RouteByHTTPUser rc) (mkTarget rc (OwnGroup g))
            (vhostRouter ctl) with
    | (Err e, _) => (Err (ErrRouter e), ctl)
    | (Ok _, r) =>
        addMember g (mkHTTPGroup grp key (Vhost.Domain rc) (Vhost.Location rc) (Vhost.RouteByHTTPUser rc)
                       (createFuncs hg) (pxyNames hg) (index hg)) proxyName f r ctl
    end
  else if decide (group hg ≠ grp ∨ domain hg ≠ Vhost.Domain rc ∨ location hg ≠ Vhost.Location rc
                  ∨ routeByHTTPUser hg ≠ Vhost.RouteByHTTPUser rc)
  then (Err ErrGroupParamsInvalid, ctl)
  else if decide (groupKey hg ≠ key) then (Err ErrGroupAuthFailed, ctl)
  else addMember g hg proxyName f (vhostRouter ctl) ctl
  end.

(** [HTTPGroupController.Register]: one turn of the retry loop. *)
Definition Register (proxyName grp key : string) (rc : Vhost.RouteConfig) (f : F)
    (ctl : HTTPGroupController) : res error unit * HTTPGroupController :=
  let '(g, ctl) := getOrCreate grp ctl in groupRegister g proxyName grp key rc f ctl.

(** [HTTPGroup.UnRegister] *)
Definition groupUnRegister (g : nat) (proxyName : string) (ctl : HTTPGroupController)
    : HTTPGroupController :=
  match objs ctl !! g with
  | None => ctl
  | Some hg =>
      let fs := delete proxyName (createFuncs hg) in
      let hg' := mkHTTPGroup (group hg) (groupKey hg) (domain hg) (location hg) (routeByHTTPUser hg)
                   fs (removeFirst proxyName (pxyNames hg)) (index hg) in
      if decide (fs = ∅) then
        mkCtl (removeIf (group hg) g (groups ctl)) (<[ g := hg' ]> (objs ctl))
          (Vhost.Del (domain hg) (location hg) (routeByHTTPUser hg) (vhostRouter ctl)) (nextObj ctl)
      else mkCtl (groups ctl) (<[ g := hg' ]> (objs ctl)) (vhostRouter ctl) (nextObj ctl)
  end.

(** [HTTPGroupController.UnRegister] *)
Definition UnRegister (proxyName grp : string) (ctl : HTTPGroupController) : HTTPGroupController :=
  match groups ctl !! grp with
  | None => ctl
  | Some g => groupUnRegister g proxyName ctl
  end.

(** ** Choice of a member *)

(** [g.index.Add(1)] *)
Definition nextIndex (hg : HTTPGroup) : Z := (index hg + 1) mod 2 ^ 64.
Definition bump (hg : HTTPGroup) : HTTPGroup :=
  mkHTTPGroup (group hg) (groupKey hg) (domain hg) (location hg) (routeByHTTPUser hg)
    (createFuncs hg) (pxyNames hg) (nextIndex hg).

Definition picked (hg : HTTPGroup) : option string :=
  match pxyNames hg with
  | [] => None
  | _ => pxyNames hg !! Z.to_nat (nextIndex hg mod Z.of_nat (length (pxyNames hg)))
  end.

(** The function [createConn] calls, or the error. *)
Definition createConn (hg : HTTPGroup) : res error F * HTTPGroup :=
  (match picked hg ≫= λ name, createFuncs hg !! name with
   | Some f => Ok f
   | None => Err ErrNoCreateConnFunc
   end, bump hg).

Definition chooseEndpoint (hg : HTTPGroup) : res error string * HTTPGroup :=
  (match picked hg with
   | Some name => if decide (name = "") then Err ErrNoEndpoint else Ok name
   | None => Err ErrNoEndpoint
   end, bump hg).

Definition createConnByEndpoint (endpoint : string) (hg : HTTPGroup) : res error F :=
  match createFuncs hg !! endpoint with
  | Some f => Ok f
  | None => Err ErrNoCreateConnFunc
  end.

(** ** Steps

    Lookups and calls on the group found are separate steps; single proxies
    add and remove their own routes in the same router; requests advance the
    counters.  A member is unregistered by its owner. *)
Inductive step (ctl : HTTPGroupController) : HTTPGroupController → Prop :=
| step_get key : step ctl (getOrCreate key ctl).2
| step_register g proxyName grp key rc f : step ctl (groupRegister g proxyName grp key rc f ctl).2
| step_unregister g proxyName hg : objs ctl !! g = Some hg → is_Some (createFuncs hg !! proxyName) →
    step ctl (groupUnRegister g proxyName ctl)
| step_request g hg : objs ctl !! g = Some hg →
    step ctl (mkCtl (groups ctl) (<[ g := bump hg ]> (objs ctl)) (vhostRouter ctl) (nextObj ctl))
| step_proxy_add dom loc user rc name :
    step ctl (mkCtl (groups ctl) (objs ctl)
      (Vhost.Add dom loc user (mkTarget rc (OwnProxy name)) (vhostRouter ctl)).2 (nextObj ctl))
| step_proxy_del dom loc user vr name :
    Vhost.exist (vhostRouter ctl) (Vhost.ToLower dom) loc user = Some vr → own (Vhost.payload vr) = OwnProxy name →
    step ctl (mkCtl (groups ctl) (objs ctl) (Vhost.Del dom loc user (vhostRouter ctl)) (nextObj ctl)).

(** ** Invariant *)

Definition routeOf (hg : HTTPGroup) (ctl : HTTPGroupController) : option (Vhost.Router target) :=
  Vhost.exist (vhostRouter ctl) (Vhost.ToLower (domain hg)) (location hg) (routeByHTTPUser hg).

Record wf (ctl : HTTPGroupController) : Prop := {
  wf_router : Vhost.wf (vhostRouter ctl);
  wf_registered key g : groups ctl !! key = Some g →
    ∃ hg, objs ctl !! g = Some hg ∧ (createFuncs hg ≠ ∅ → group hg = key);
  wf_inj key key' g : groups ctl !! key = Some g → groups ctl !! key' = Some g → key = key';
  wf_objs g : (nextObj ctl ≤ g)%nat → objs ctl !! g = None;
  wf_members g hg name : objs ctl !! g = Some hg →
    name ∈ pxyNames hg ↔ is_Some (createFuncs hg !! name);
  wf_nodup g hg : objs ctl !! g = Some hg → NoDup (pxyNames hg);
  wf_live g hg : objs ctl !! g = Some hg → createFuncs hg ≠ ∅ →
    groups ctl !! group hg = Some g ∧ ∃ vr, routeOf hg ctl = Some vr ∧ own (Vhost.payload vr) = OwnGroup g;
  wf_route h l u vr g : Vhost.exist (vhostRouter ctl) h l u = Some vr → own (Vhost.payload vr) = OwnGroup g →
    ∃ hg, objs ctl !! g = Some hg ∧ createFuncs hg ≠ ∅ ∧
      (h, l, u) = (Vhost.ToLower (domain hg), location hg, routeByHTTPUser hg) }.

Lemma httpgroup_wf_new : wf NewHTTPGroupController.
Proof.
  split; simpl; try apply Vhost.routers_wf_new; try done; intros *; rewrite ?lookup_empty; try done.
Qed.

Lemma wf_get key ctl : wf ctl → wf (getOrCreate key ctl).2.
Proof.
  intros W. unfold getOrCreate. destruct (groups ctl !! key) eqn:Hk; [done|].
  destruct W as [W1 W2 Wi W3 W4 W5 W6 W7]. set (n := nextObj ctl).
  assert (Hn : objs ctl !! n = None) by by apply W3.
  assert (Hreg : ∀ k g, groups ctl !! k = Some g → g ≠ n).
  { intros k g Hg ->. destruct (W2 k n Hg) as (? & ? & _). congruence. }
  split; simpl; [done|..].
  - intros k g. rewrite lookup_insert_Some. intros [[<- <-]|[Hne Hg]].
    + rewrite lookup_insert_eq. by exists NewHTTPGroup.
    + rewrite lookup_insert_ne; [eauto|]. by apply not_eq_sym, (Hreg k).
  - intros k k' g. rewrite !lookup_insert_Some.
    intros [[<- <-]|[Hne Hg]] [[<- Heq]|[Hne' Hg']]; try done; [by destruct (Hreg k' n Hg')|by destruct (Hreg k g Hg)|by eapply Wi].
  - intros g Hg. rewrite lookup_insert_ne by lia. apply W3. lia.
  - intros g hg name. rewrite lookup_insert_Some. intros [[<- <-]|[Hne Hg]]; [|eauto].
    simpl. rewrite lookup_empty. split; [set_solver|by intros []].
  - intros g hg. rewrite lookup_insert_Some. intros [[<- <-]|[Hne Hg]]; [constructor|eauto].
  - intros g hg. rewrite lookup_insert_Some. intros [[<- <-]|[Hne Hg]] Hf; [done|].
    destruct (W6 g hg Hg Hf) as (Hr & ?). split; [|done].
    rewrite lookup_insert_ne; [done|]. intros ->. congruence.
  - intros h l u vr g He Ho. destruct (W7 _ _ _ _ _ He Ho) as (hg & Hg & ? & ?). exists hg.
    rewrite lookup_insert_ne; [done|]. intros ->. congruence.
Qed.

Definition routeKey (hg : HTTPGroup) : string * string * string :=
  (Vhost.ToLower (domain hg), location hg, routeByHTTPUser hg).

(** Replace a live group, or make a group live on a route it owns. *)
Lemma wf_put g hg hg' ctl r :
  wf ctl → objs ctl !! g = Some hg → Vhost.wf r → groups ctl !! group hg' = Some g →
  (∀ name, name ∈ pxyNames hg' ↔ is_Some (createFuncs hg' !! name)) → NoDup (pxyNames hg') →
  createFuncs hg' ≠ ∅ →
  (∃ vr, Vhost.exist r (Vhost.ToLower (domain hg')) (location hg') (routeByHTTPUser hg') = Some vr ∧
     own (Vhost.payload vr) = OwnGroup g) →
  (∀ h l u, (h, l, u) ≠ routeKey hg' → Vhost.exist r h l u = Vhost.exist (vhostRouter ctl) h l u) →
  (∀ h l u vr, Vhost.exist (vhostRouter ctl) h l u = Some vr →
     own (Vhost.payload vr) = OwnGroup g ↔ (h, l, u) = routeKey hg') →
  wf (mkCtl (groups ctl) (<[ g := hg' ]> (objs ctl)) r (nextObj ctl)).
Proof.
  intros [W1 W2 Wi W3 W4 W5 W6 W7] Hg Wr Hcur Hmem Hnd Hne (vr0 & Hvr0 & Hp0) Hframe Hown.
  split; simpl; [done|..].
  - intros k h Hh. destruct (W2 k h Hh) as (th & Ho & Hgr). destruct (decide (g = h)) as [<-|].
    + rewrite lookup_insert_eq. exists hg'. split; [done|]. intros _. by eapply Wi.
    + rewrite lookup_insert_ne by done. eauto.
  - done.
  - intros h Hh. rewrite lookup_insert_ne; [by apply W3|]. intros <-. by rewrite W3 in Hg.
  - intros h hh name. rewrite lookup_insert_Some. intros [[<- <-]|[Hneq Hh]]; [done|eauto].
  - intros h hh. rewrite lookup_insert_Some. intros [[<- <-]|[Hneq Hh]]; [done|eauto].
  - intros h hh. rewrite lookup_insert_Some. unfold routeOf; simpl. intros [[<- <-]|[Hneq Hh]] Hf; [by eauto|].
    destruct (W6 h hh Hh Hf) as (? & vr & Hvr & Hp). split; [done|]. exists vr. split; [|done].
    rewrite Hframe; [done|]. intros E. apply (Hown _ _ _ _ Hvr) in E. congruence.
  - intros h l u vr k He Ho. destruct (decide ((h, l, u) = routeKey hg')) as [E|E].
    + assert (vr = vr0) as -> by (unfold routeKey in E; simplify_eq; congruence).
      rewrite Hp0 in Ho. injection Ho as <-. exists hg'. by rewrite lookup_insert_eq.
    + rewrite Hframe in He by done. destruct (W7 _ _ _ _ _ He Ho) as (hh & ? & ? & ?). exists hh.
      rewrite lookup_insert_ne; [done|]. intros <-. by apply E, (Hown _ _ _ _ He).
Qed.

(** A group owns no route but its own. *)
Lemma live_owns g hg ctl h l u vr :
  wf ctl → objs ctl !! g = Some hg → createFuncs hg ≠ ∅ → Vhost.exist (vhostRouter ctl) h l u = Some vr →
  own (Vhost.payload vr) = OwnGroup g ↔ (h, l, u) = routeKey hg.
Proof.
  intros W Hg Hf He. split.
  - intros Ho. destruct (wf_route _ W _ _ _ _ _ He Ho) as (hg' & ? & _ & ->). by simplify_eq.
  - intros E. destruct (wf_live _ W g hg Hg Hf) as (_ & vr' & Hvr & Hp). unfold routeOf in Hvr.
    unfold routeKey in E. simplify_eq. congruence.
Qed.

Lemma idle_owns g hg ctl h l u vr :
  wf ctl → objs ctl !! g = Some hg → createFuncs hg = ∅ → Vhost.exist (vhostRouter ctl) h l u = Some vr →
  own (Vhost.payload vr) ≠ OwnGroup g.
Proof. intros W Hg Hf He Ho. destruct (wf_route _ W _ _ _ _ _ He Ho) as (hg' & ? & ? & _). by simplify_eq. Qed.

(** The members after [addMember]. *)
Lemma members_add (fs : gmap string F) names name f n :
  (∀ m, m ∈ names ↔ is_Some (fs !! m)) → n ∈ names ++ [name] ↔ is_Some (<[ name := f ]> fs !! n).
Proof.
  intros H. rewrite elem_of_app, list_elem_of_singleton, H. destruct (decide (name = n)) as [->|Hn].
  - rewrite lookup_insert_eq. naive_solver.
  - rewrite lookup_insert_ne by done. naive_solver.
Qed.

Lemma wf_groupRegister g name grp key rc f ctl : wf ctl → wf (groupRegister g name grp key rc f ctl).2.
Proof.
  intros W. unfold groupRegister. destruct (objs ctl !! g) as [hg|] eqn:Hg; [|done].
  destruct (isCurrent grp g ctl) eqn:Hcur; [|done]. apply bool_decide_eq_true in Hcur. cbn [negb].
  pose proof (wf_members _ W g hg) as Hm. pose proof (wf_nodup _ W g hg Hg) as Hnd.
  assert (Hnew : createFuncs hg !! name = None → NoDup (pxyNames hg ++ [name])).
  { intros Hn. apply NoDup_app. split_and!; [done| |apply NoDup_singleton].
    intros x Hx ->%list_elem_of_singleton. apply Hm in Hx; [|done]. rewrite Hn in Hx. by destruct Hx. }
  case_decide as Hempty.
  - pose proof (Vhost.wf_Add (Vhost.Domain rc) (Vhost.Location rc) (Vhost.RouteByHTTPUser rc) (mkTarget rc (OwnGroup g))
      _ (wf_router _ W)) as Wr.
    assert (HA := λ h l u, Vhost.exist_Add (Vhost.Domain rc) (Vhost.Location rc) (Vhost.RouteByHTTPUser rc)
      (mkTarget rc (OwnGroup g)) _ h l u (wf_router _ W)).
    destruct (Vhost.Add _ _ _ _ _) as [[[]|e] r]; [|done]. cbn [snd] in Wr.
    unfold addMember; cbn [createFuncs pxyNames]. rewrite Hempty, lookup_empty. cbn [snd].
    rewrite Hempty in *. eapply wf_put; cbn [group domain location routeByHTTPUser createFuncs pxyNames]; eauto.
    + intros n. apply members_add. intros m. apply (Hm m Hg).
    + destruct (HA (Vhost.ToLower (Vhost.Domain rc)) (Vhost.Location rc) (Vhost.RouteByHTTPUser rc)) as [_ ->].
      rewrite decide_True by done. eauto.
    + intros h l u Hne. destruct (HA h l u) as [_ ->]. rewrite decide_False; [done|]. by apply not_eq_sym.
    + intros h l u vr He. split; [|intros E; unfold routeKey in E; simpl in E; simplify_eq].
      * intros Ho. by destruct (idle_owns g hg ctl h l u vr W Hg Hempty He).
      * destruct (HA "" "" "") as [Hn _]. congruence.
  - repeat case_decide; try done. assert (group hg = grp) as Hgr by (apply dec_stable; tauto).
    destruct (wf_live _ W g hg Hg Hempty) as (_ & vr & Hvr & Hp).
    unfold addMember. destruct (createFuncs hg !! name) eqn:Hn; cbn [snd];
      eapply wf_put; cbn [group domain location routeByHTTPUser createFuncs pxyNames];
      eauto using wf_router, insert_non_empty; try congruence.
    + intros h l u vr' He. by apply (live_owns g hg ctl).
    + intros n. apply members_add. intros m. apply (Hm m Hg).
    + apply insert_non_empty.
    + intros h l u vr' He. by apply (live_owns g hg ctl).
Qed.

Lemma wf_request g hg ctl :
  wf ctl → objs ctl !! g = Some hg →
  wf (mkCtl (groups ctl) (<[ g := bump hg ]> (objs ctl)) (vhostRouter ctl) (nextObj ctl)).
Proof.
  intros [W1 W2 Wi W3 W4 W5 W6 W7] Hg. split; simpl; [done|..]; try done.
  - intros k h Hh. destruct (W2 k h Hh) as (th & Ho & Hgr). destruct (decide (g = h)) as [<-|].
    + rewrite lookup_insert_eq. simplify_eq. by exists (bump hg).
    + rewrite lookup_insert_ne by done. eauto.
  - intros h Hh. rewrite lookup_insert_ne; [by apply W3|]. intros <-. by rewrite W3 in Hg.
  - intros h hh name. rewrite lookup_insert_Some. intros [[<- <-]|[Hneq Hh]]; [by apply (W4 g hg)|eauto].
  - intros h hh. rewrite lookup_insert_Some. intros [[<- <-]|[Hneq Hh]]; [by apply (W5 g hg)|eauto].
  - intros h hh. rewrite lookup_insert_Some. intros [[<- <-]|[Hneq Hh]]; [by apply (W6 g hg)|eauto].
  - intros h l u vr k He Ho. destruct (W7 _ _ _ _ _ He Ho) as (hh & ? & ? & ?).
    destruct (decide (g = k)) as [<-|].
    + rewrite lookup_insert_eq. simplify_eq. by exists (bump hg).
    + rewrite lookup_insert_ne by done. eauto.
Qed.

Lemma delete_member (fs : gmap string F) names name n :
  NoDup names → (∀ m, m ∈ names ↔ is_Some (fs !! m)) →
  n ∈ removeFirst name names ↔ is_Some (delete name fs !! n).
Proof.
  intros Hnd H. rewrite elem_of_removeFirst, H by done. rewrite lookup_delete_is_Some. naive_solver.
Qed.

Lemma wf_unregister g name hg ctl :
  wf ctl → objs ctl !! g = Some hg → is_Some (createFuncs hg !! name) → wf (groupUnRegister g name ctl).
Proof.
  intros W Hg Hname. unfold groupUnRegister. rewrite Hg.
  assert (Hf : createFuncs hg ≠ ∅) by (intros E; rewrite E, lookup_empty in Hname; by destruct Hname).
  destruct (wf_live _ W g hg Hg Hf) as (Hr & vr & Hvr & Hp).
  pose proof (wf_members _ W g hg) as Hm. pose proof (wf_nodup _ W g hg Hg) as Hnd.
  assert (Hmem : ∀ n, n ∈ removeFirst name (pxyNames hg) ↔ is_Some (delete name (createFuncs hg) !! n)).
  { intros n. apply delete_member; [done|]. intros m. apply (Hm m Hg). }
  case_decide as He.
  - unfold removeIf. rewrite decide_True by done.
    assert (Hothers : ∀ h hh, objs ctl !! h = Some hh → g ≠ h → createFuncs hh ≠ ∅ →
      group hg ≠ group hh ∧ routeKey hh ≠ routeKey hg).
    { intros h hh Hh Hneq Hl. destruct (wf_live _ W h hh Hh Hl) as (Hr' & vr' & Hvr' & Hp'). split; intros E.
      - congruence.
      - apply (live_owns g hg ctl _ _ _ _ W Hg Hf Hvr') in E. congruence. }
    pose proof (live_owns g hg ctl) as Hlo.
    destruct W as [W1 W2 Wi W3 W4 W5 W6 W7] eqn:EW. split; simpl; [by apply Vhost.wf_Del|..].
    + intros k h [Hk Hh]%lookup_delete_Some. destruct (W2 k h Hh) as (th & Ho & Hgr).
      destruct (decide (g = h)) as [<-|]; [|rewrite lookup_insert_ne by done; eauto].
      exfalso. apply Hk. by eapply Wi.
    + intros k k' h [_ ?]%lookup_delete_Some [_ ?]%lookup_delete_Some. by eapply Wi.
    + intros h Hh. rewrite lookup_insert_ne; [by apply W3|]. intros <-. by rewrite W3 in Hg.
    + intros h hh n. rewrite lookup_insert_Some. intros [[<- <-]|[Hneq Hh]]; [apply Hmem|eauto].
    + intros h hh. rewrite lookup_insert_Some. intros [[<- <-]|[Hneq Hh]]; [by apply NoDup_removeFirst|eauto].
    + intros h hh. rewrite lookup_insert_Some. intros [[<- <-]|[Hneq Hh]] Hl; [done|].
      destruct (W6 h hh Hh Hl) as (? & vr' & Hvr' & Hp'). destruct (Hothers h hh Hh Hneq Hl) as [H1 H2].
      rewrite lookup_delete_ne by done. split; [done|]. exists vr'. split; [|done]. unfold routeOf; simpl.
      rewrite Vhost.exist_Del, decide_False; [done|]. by apply not_eq_sym.
    + intros h l u vr' k. rewrite Vhost.exist_Del. case_decide as Hk; [done|]. intros Hex Ho.
      destruct (W7 _ _ _ _ _ Hex Ho) as (hh & Hh & Hl & E). exists hh. rewrite lookup_insert_ne; [done|].
      intros <-. by simplify_eq.
  - eapply wf_put; cbn [group domain location routeByHTTPUser createFuncs pxyNames];
      eauto using wf_router, NoDup_removeFirst.
    intros h l u vr' Hex. by apply (live_owns g hg ctl).
Qed.

(** Changes of the router that leave the routes of the groups alone. *)
Lemma wf_foreign ctl r :
  wf ctl → Vhost.wf r →
  (∀ h l u vr g, own (Vhost.payload vr) = OwnGroup g →
     Vhost.exist r h l u = Some vr ↔ Vhost.exist (vhostRouter ctl) h l u = Some vr) →
  wf (mkCtl (groups ctl) (objs ctl) r (nextObj ctl)).
Proof.
  intros [W1 W2 Wi W3 W4 W5 W6 W7] Wr Hr. split; simpl; try done.
  - intros g hg Hg Hf. destruct (W6 g hg Hg Hf) as (? & vr & Hvr & Hp). split; [done|].
    exists vr. split; [by eapply Hr|done].
  - intros h l u vr g He Ho. eapply (Hr _ _ _ _ _ Ho) in He. eauto.
Qed.

Lemma wf_proxy_add dom loc user rc name ctl :
  wf ctl → wf (mkCtl (groups ctl) (objs ctl) (Vhost.Add dom loc user (mkTarget rc (OwnProxy name)) (vhostRouter ctl)).2 (nextObj ctl)).
Proof.
  intros W. apply wf_foreign; [done|apply Vhost.wf_Add, W|]. intros h l u vr g Ho.
  pose proof (Vhost.exist_Add dom loc user (mkTarget rc (OwnProxy name)) _ h l u (wf_router _ W)) as HA.
  destruct (Vhost.Add _ _ _ _ _) as [[[]|e] r]; cbn [snd]; [|by destruct HA as [-> _]].
  destruct HA as [Hn ->]. case_decide; [|done]. simplify_eq. rewrite Hn.
  split; [|done]. intros [= <-]. done.
Qed.

Lemma wf_proxy_del dom loc user vr name ctl :
  wf ctl → Vhost.exist (vhostRouter ctl) (Vhost.ToLower dom) loc user = Some vr → own (Vhost.payload vr) = OwnProxy name →
  wf (mkCtl (groups ctl) (objs ctl) (Vhost.Del dom loc user (vhostRouter ctl)) (nextObj ctl)).
Proof.
  intros W He Hp. apply wf_foreign; [done|apply Vhost.wf_Del, W|]. intros h l u vr' g Ho.
  rewrite Vhost.exist_Del. case_decide; [|done]. simplify_eq. split; [done|]. intros. simplify_eq. congruence.
Qed.

Lemma httpgroup_wf_steps ctl ctl' : wf ctl → rtc step ctl ctl' → wf ctl'.
Proof.
  intros W H. induction H as [|? ? ? [] ? IH]; [done|..]; apply IH;
    eauto using wf_get, wf_groupRegister, wf_unregister, wf_request, wf_proxy_add, wf_proxy_del.
Qed.

(** ** Round robin *)

Lemma picked_index hg : pxyNames hg ≠ [] →
  picked hg = pxyNames hg !! Z.to_nat (nextIndex hg mod Z.of_nat (length (pxyNames hg))).
Proof. unfold picked. by destruct (pxyNames hg). Qed.

(** A request opens a connection with the function for CONNECT, or chooses an endpoint
    first, whose error is ignored, and opens the connection to it. *)
Inductive via := ByConn | ByEndpoint.
Definition serve (v : via) (hg : HTTPGroup) : res error F * HTTPGroup :=
  match v with
  | ByConn => createConn hg
  | ByEndpoint =>
      let '(r, hg) := chooseEndpoint hg in
      (createConnByEndpoint (match r with Ok name => name | Err _ => EmptyString end) hg, hg)
  end.

(** The connections of requests in a row. *)
Fixpoint serveAll (vs : list via) (hg : HTTPGroup) : list (res error F) * HTTPGroup :=
  match vs with
  | [] => ([], hg)
  | v :: vs => let '(r, hg) := serve v hg in let '(rs, hg) := serveAll vs hg in (r :: rs, hg)
  end.

Definition called (hg : HTTPGroup) (name : option string) : res error F :=
  match name ≫= λ name, createFuncs hg !! name with Some f => Ok f | None => Err ErrNoCreateConnFunc end.

(** Both kinds of requests go to the member the counter picks, and advance it. *)
Lemma serve_picked v hg : pxyNames hg ≠ [] → serve v hg = (called hg (picked hg), bump hg).
Proof.
  intros Hne. destruct v; [done|]. unfold serve, chooseEndpoint, called, createConnByEndpoint. rewrite picked_index by done.
  destruct (lookup_lt_is_Some_2 (pxyNames hg) (Z.to_nat (nextIndex hg mod Z.of_nat (length (pxyNames hg))))) as [name ->].
  { destruct (pxyNames hg); [done|]. pose proof (Z.mod_pos_bound (nextIndex hg) (Z.of_nat (length (s :: l)))). simpl length in *. lia. }
  simpl. by case_decide; subst.
Qed.

Lemma serveAll_seq vs : ∀ hg, pxyNames hg ≠ [] → 0 ≤ index hg → index hg + Z.of_nat (length vs) < 2 ^ 64 →
  (serveAll vs hg).1 =
  (λ i, called hg (pxyNames hg !! ((Z.to_nat (index hg + 1) + i) mod length (pxyNames hg))%nat)) <$> seq 0 (length vs).
Proof.
  induction vs as [|v vs IH]; intros hg Hne H0 Hb; [done|]. cbn [serveAll length] in *.
  assert (Hl : (length (pxyNames hg) ≠ 0)%nat) by by destruct (pxyNames hg).
  assert (Hi : nextIndex hg = index hg + 1) by (unfold nextIndex; apply Z.mod_small; lia).
  specialize (IH (bump hg)). rewrite serve_picked by done. destruct (serveAll vs (bump hg)) as [rs hg'].
  cbn [fst] in *. cbn [bump pxyNames index createFuncs] in IH. rewrite Hi in IH. rewrite IH by (done || lia).
  cbn [seq]. rewrite <- fmap_S_seq, fmap_cons, <- list_fmap_compose.
  f_equal.
  - rewrite picked_index, Hi by done. do 3 f_equal.
    rewrite Z2Nat.inj_mod by lia. by rewrite Nat2Z.id, Nat.add_0_r.
  - apply list_fmap_ext. intros i x _. unfold compose, called. cbn [createFuncs bump].
    by replace (Z.to_nat (index hg + 1 + 1) + x)%nat with (Z.to_nat (index hg + 1) + S x)%nat by lia.
Qed.

(** One round serves the members in the order of the list, from some member on. *)
Lemma serveAll_round vs hg : length vs = length (pxyNames hg) →
  pxyNames hg ≠ [] → 0 ≤ index hg → index hg + Z.of_nat (length (pxyNames hg)) < 2 ^ 64 →
  (serveAll vs hg).1 =
  (λ name, called hg (Some name)) <$> rotate (Z.to_nat (index hg + 1)) (pxyNames hg).
Proof.
  intros Hv Hne H0 Hb. rewrite serveAll_seq, Hv by (done || lia). apply list_eq. intros i.
  rewrite !list_lookup_fmap. destruct (decide (i < length (pxyNames hg))%nat) as [Hi|Hi].
  - rewrite lookup_seq_lt, lookup_rotate_r by done. cbn [fmap option_fmap option_map].
    unfold rotate_nat_add. rewrite <- Nat2Z.inj_add, <- Nat2Z.inj_mod, Nat2Z.id.
    destruct (lookup_lt_is_Some_2 (pxyNames hg) ((Z.to_nat (index hg + 1) + i) mod length (pxyNames hg))%nat)
      as [name Hname]; [apply Nat.mod_upper_bound; lia|]. by rewrite Nat.add_0_l, Hname.
  - rewrite !lookup_ge_None_2; [done|rewrite length_rotate; lia|rewrite length_seq; lia].
Qed.

Lemma Permutation_rotate n (l : list string) : rotate n l ≡ₚ l.
Proof. unfold rotate. rewrite Permutation_app_comm. by rewrite take_drop. Qed.

Lemma called_members hg names :
  (∀ name, name ∈ names → is_Some (createFuncs hg !! name)) →
  ∃ fs, (λ name, called hg (Some name)) <$> names = Ok <$> fs ∧
    Forall2 (λ name f, createFuncs hg !! name = Some f) names fs.
Proof.
  induction names as [|n names IH]; intros H; [by exists []|].
  destruct IH as (fs & Hfs & HF); [intros; apply H; set_solver|].
  destruct (H n) as [f Hf]; [set_solver|]. exists (f :: fs). split; [|by constructor].
  rewrite !fmap_cons, Hfs. f_equal. unfold called. cbn. by rewrite Hf.
Qed.

Lemma zip_members (m : gmap string F) names fs :
  NoDup names → (∀ name, name ∈ names ↔ is_Some (m !! name)) →
  Forall2 (λ name f, m !! name = Some f) names fs → zip names fs ≡ₚ map_to_list m.
Proof.
  intros Hnd Hm HF. assert (Hl : length names = length fs) by by eapply Forall2_length.
  assert (Hz : (zip names fs).*1 = names) by (apply fst_zip; lia).
  apply NoDup_Permutation; [apply (NoDup_fmap_1 fst); by rewrite Hz|apply NoDup_map_to_list|].
  intros [n f]. rewrite elem_of_map_to_list. split.
  - rewrite list_elem_of_lookup. intros [i Hi]. apply lookup_zip_with_Some in Hi as (a & b & [= -> ->] & Ha & Hb).
    by apply (Forall2_lookup_lr _ _ _ i _ _ HF).
  - intros Hf. assert (n ∈ names) as [i Hi]%list_elem_of_lookup by by apply Hm.
    destruct (Forall2_lookup_l _ _ _ _ _ HF Hi) as (f' & Hi' & ?). simplify_eq.
    apply list_elem_of_lookup. exists i. rewrite lookup_zip_with, Hi, Hi'. done.
Qed.

End groups.
Arguments HTTPGroup : clear implicits.
Arguments HTTPGroupController : clear implicits.

Section properties.
Context {F : Type}.
Implicit Types (ctl : HTTPGroupController F) (hg : HTTPGroup F).

(** in every reachable controller, whatever the order in which lookups,
    registrations, removals, requests and the routes of single proxies
    interleave, a group with members is the registered one of its name and the
    router leads its domain, location and user to it; a route to a group leads
    to a group with members registered for exactly that route; and the names
    the round robin goes through are exactly the members, each once. *)
Theorem httpgroup_invariant ctl :
  rtc step NewHTTPGroupController ctl →
  (∀ g hg, objs ctl !! g = Some hg → createFuncs hg ≠ ∅ →
     groups ctl !! group hg = Some g ∧ ∃ vr, routeOf hg ctl = Some vr ∧ own (Vhost.payload vr) = OwnGroup g) ∧
  (∀ h l u vr g, Vhost.exist (vhostRouter ctl) h l u = Some vr → own (Vhost.payload vr) = OwnGroup g →
     ∃ hg, objs ctl !! g = Some hg ∧ createFuncs hg ≠ ∅ ∧
       (h, l, u) = (Vhost.ToLower (domain hg), location hg, routeByHTTPUser hg)) ∧
  (∀ g hg, objs ctl !! g = Some hg →
     NoDup (pxyNames hg) ∧ ∀ name, name ∈ pxyNames hg ↔ is_Some (createFuncs hg !! name)).
Proof.
  intros H. pose proof (httpgroup_wf_steps _ _ httpgroup_wf_new H) as W.
  split_and!; [apply W|apply W|]. intros g hg Hg. split; [by apply (wf_nodup _ W g)|].
  intros name. by apply (wf_members _ W g).
Qed.

Lemma index_step ctl ctl' : (∀ g hg, objs ctl !! g = Some hg → 0 ≤ index hg) → step ctl ctl' → ∀ g hg, objs ctl' !! g = Some hg → 0 ≤ index hg.
Proof.
  intros H0 Hs. assert (Hput : ∀ g hg', 0 ≤ index hg' → ∀ k hg, <[ g := hg' ]> (objs ctl) !! k = Some hg → 0 ≤ index hg).
  { intros g hg' Hg' k hg. rewrite lookup_insert. case_decide; [by intros [= <-]|apply H0]. }
  destruct Hs as [key|g pn grp key rc f|g pn hg0 Hg _|g hg0 Hg|dom loc user rc name|]; simpl; try exact H0.
  - unfold getOrCreate. destruct (groups ctl !! key); simpl; [exact H0|by apply Hput].
  - unfold groupRegister, addMember. destruct (objs ctl !! g) as [hg0|] eqn:Hg; [|exact H0]. pose proof (H0 _ _ Hg).
    repeat (case_match; simpl in *; try exact H0; simplify_eq); by apply Hput.
  - unfold groupUnRegister. rewrite Hg. pose proof (H0 _ _ Hg). case_decide; simpl; by apply Hput.
  - apply Hput. simpl. unfold nextIndex. apply Z.mod_pos_bound. lia.
Qed.

Lemma index_reachable ctl : rtc step NewHTTPGroupController ctl → ∀ g hg, objs ctl !! g = Some hg → 0 ≤ index hg.
Proof. revert ctl. apply (rtc_ind_r (λ ctl, ∀ g hg, objs ctl !! g = Some hg → 0 ≤ index hg)); [intros g hg; simpl; by rewrite lookup_empty|]. intros ctl1 ctl2 _ Hs IH. by eapply index_step. Qed.

(** C15: a group serves its members in turn.  As long as the 64-bit counter does not wrap, as
    many requests in a row as a reachable group has members, CONNECT requests and ordinary
    ones in any mixture, each over a new connection, succeed and call the function of every
    member exactly once. *)
Theorem round_robin_fair ctl g hg vs :
  rtc step NewHTTPGroupController ctl → objs ctl !! g = Some hg → createFuncs hg ≠ ∅ →
  index hg + Z.of_nat (length (pxyNames hg)) < 2 ^ 64 → length vs = length (pxyNames hg) →
  ∃ names fs, (serveAll vs hg).1 = Ok <$> fs ∧
    length names = length fs ∧ zip names fs ≡ₚ map_to_list (createFuncs hg).
Proof.
  intros H Hg Hf Hb Hv. pose proof (index_reachable ctl H g hg Hg) as H0. pose proof (httpgroup_wf_steps _ _ httpgroup_wf_new H) as W.
  pose proof (wf_members _ W g hg) as Hm.
  assert (pxyNames hg ≠ []) as Hne.
  { intros E. apply Hf, map_empty. intros n. apply eq_None_not_Some. rewrite <- (Hm n Hg), E. set_solver. }
  rewrite serveAll_round by done. set (r := rotate _ _).
  destruct (called_members hg r) as (fs & -> & HF).
  { intros n. unfold r. rewrite elem_of_rotate. by apply Hm. }
  exists r, fs. split; [done|]. split; [by eapply Forall2_length|].
  apply zip_members; [|intros n; unfold r; rewrite elem_of_rotate; by apply Hm|done].
  unfold r. rewrite (Permutation_rotate _ (pxyNames hg)). by apply (wf_nodup _ W g).
Qed.

End properties.

(** ** A controller with one group of two members *)

Definition demoRoute : Vhost.RouteConfig := Vhost.mkRouteConfig "A.com" "/" "" "" "" "".
Definition demo : HTTPGroupController nat :=
  (Register "web2" "g" "k" demoRoute 22%nat (Register "web1" "g" "k" demoRoute 11%nat NewHTTPGroupController).2).2.
Definition demoGroup : HTTPGroup nat :=
  mkHTTPGroup "g" "k" "A.com" "/" "" {[ "web1" := 11%nat; "web2" := 22%nat ]} ["web1"; "web2"] 0.

Lemma demo_group : objs demo !! 0%nat = Some demoGroup.
Proof. vm_compute. reflexivity. Qed.

Lemma demo_reachable : rtc step NewHTTPGroupController demo.
Proof.
  eapply rtc_l; [apply (step_get _ "g")|].
  eapply rtc_l; [apply (step_register _ 0%nat "web1" "g" "k" demoRoute 11%nat)|].
  eapply rtc_l; [apply (step_register _ 0%nat "web2" "g" "k" demoRoute 22%nat)|].
  apply rtc_refl.
Qed.

Lemma httpgroup_invariant_witness :
  rtc step NewHTTPGroupController demo ∧ groups demo !! "g" = Some 0%nat.
Proof.
  split; [apply demo_reachable|].
  destruct (httpgroup_invariant demo demo_reachable) as (H & _ & _).
  destruct (H 0%nat demoGroup demo_group) as [Hr _]; [vm_compute; discriminate|exact Hr].
Defined.

Lemma round_robin_fair_witness :
  (serveAll [ByConn; ByEndpoint] demoGroup).1 = [Ok 22%nat; Ok 11%nat] ∧
  ∃ names fs, (serveAll [ByConn; ByEndpoint] demoGroup).1 = Ok <$> fs ∧ length names = length fs ∧
    zip names fs ≡ₚ map_to_list (createFuncs demoGroup).
Proof.
  split; [vm_compute; reflexivity|].
  apply (round_robin_fair demo 0%nat demoGroup [ByConn; ByEndpoint] demo_reachable demo_group); vm_compute; congruence.
Defined.

End HTTPGroup.
