(* ===== verification/MuxGroup.v ===== *)
(** * Groups behind a muxer: [server/group/https.go], [tcpmux.go], [base.go], [listener.go]

    Proxies of one group share one listener of a muxer.  The two kinds of groups
    differ in the part of the route on which their members have to agree, which is
    the class [Agreement].  Groups live in a store, as those of [TCPGroup]; the
    muxer also has listeners of proxies without a group. *)
From S2P Require Import Prelude Vhost.
Import Vhost.

(** When a member may join a group: the comparison of its route with the route of the
    group. *)
Class Agreement := { agrees : RouteConfig → RouteConfig → bool }.

Module MuxGroup.

Definition HTTPSAgreement : Agreement := {| agrees a b := bool_decide (Domain a = Domain b) |}.
Definition TCPMuxAgreement : Agreement := {| agrees a b :=
  bool_decide (Domain a = Domain b) && bool_decide (RouteByHTTPUser a = RouteByHTTPUser b)
  && bool_decide (Username a = Username b) && bool_decide (Password a = Password b) |}.

Inductive error :=
| ErrGroupAuthFailed | ErrGroupParamsInvalid | errGroupStale | ErrMultiplexer
| ErrMux (e : Vhost.error).

(** [baseGroup] with the route of its first member; [realLn] is set while there are
    listeners, and [accepting] says that [acceptCh] is open. *)
Record Group := mkGroup {
  group : string; groupKey : string; route : RouteConfig; realLn : option Listener; lns : list nat; accepting : bool }.

Definition zeroRoute : RouteConfig := mkRouteConfig "" "" "" "" "" "".
Definition NewGroup : Group := mkGroup "" "" zeroRoute None [] false.

(** [direct]: the listeners that proxies without a group have on the muxer; [panicked]
    is set when a listener of the muxer is closed twice. *)
Record Ctl := mkCtl {
  groups : gmap string nat; objs : gmap nat Group; muxer : Muxer; direct : gmap nat Listener;
  nextObj : nat; nextLn : nat; panicked : bool }.

Definition NewCtl : Ctl := mkCtl ∅ ∅ NewMuxer ∅ 0 0 false.

Section groups.
Context `{Agreement}.

Definition getOrCreate (key : string) (ctl : Ctl) : nat * Ctl :=
  match groups ctl !! key with
  | Some g => (g, ctl)
  | None =>
      let g := nextObj ctl in
      (g, mkCtl (<[ key := g ]> (groups ctl)) (<[ g := NewGroup ]> (objs ctl)) (muxer ctl) (direct ctl) (S g) (nextLn ctl) (panicked ctl))
  end.

Definition isCurrent (key : string) (g : nat) (ctl : Ctl) : bool := bool_decide (groups ctl !! key = Some g).
Definition removeIf (key : string) (g : nat) (m : gmap string nat) : gmap string nat :=
  if decide (m !! key = Some g) then delete key m else m.

Definition putObj (g : nat) (x : Group) (v : Muxer) (next : nat) (ctl : Ctl) : Ctl :=
  mkCtl (groups ctl) (<[ g := x ]> (objs ctl)) v (direct ctl) (nextObj ctl) next (panicked ctl).

(** [HTTPSGroup.Listen] and [TCPMuxGroup.HTTPConnectListen] of the group at [g]. *)
Definition groupListen (g : nat) (grp key : string) (rc : RouteConfig) (ctl : Ctl) : res error (nat * nat) * Ctl :=
  match objs ctl !! g with
  | None => (Err errGroupStale, ctl)
  | Some x =>
      if negb (isCurrent grp g ctl) then (Err errGroupStale, ctl)
      else match lns x with
      | [] =>
          match Vhost.Listen rc (muxer ctl) with
          | (Err e, v) => (Err (ErrMux e), putObj g x v (nextLn ctl) ctl)
          | (Ok l, v) => (Ok (g, nextLn ctl), putObj g (mkGroup grp key rc (Some l) [nextLn ctl] true) v (S (nextLn ctl)) ctl)
          end
      | _ =>
          if decide (group x ≠ grp) then (Err ErrGroupParamsInvalid, ctl)
          else if negb (agrees (route x) rc) then (Err ErrGroupParamsInvalid, ctl)
          else if decide (groupKey x ≠ key) then (Err ErrGroupAuthFailed, ctl)
          else (Ok (g, nextLn ctl),
                putObj g (mkGroup (group x) (groupKey x) (route x) (realLn x) (lns x ++ [nextLn ctl]) (accepting x))
                  (muxer ctl) (S (nextLn ctl)) ctl)
      end
  end.

(** [Listen] of the controllers: one turn of the retry loop. *)
Definition Listen (grp key : string) (rc : RouteConfig) (ctl : Ctl) : res error (nat * nat) * Ctl :=
  let '(g, ctl) := getOrCreate grp ctl in groupListen g grp key rc ctl.

(** [TCPMuxGroupCtl.Listen] creates the group before it looks at the multiplexer. *)
Definition TCPMuxListen (multiplexer grp key : string) (rc : RouteConfig) (ctl : Ctl) : res error (nat * nat) * Ctl :=
  let '(g, ctl) := getOrCreate grp ctl in
  if decide (multiplexer = "httpconnect"%string) then groupListen g grp key rc ctl else (Err ErrMultiplexer, ctl).

(** [baseGroup.closeListener]; the listener itself calls it once. *)
Definition closeListener (g ln : nat) (ctl : Ctl) : Ctl :=
  match objs ctl !! g with
  | None => ctl
  | Some x =>
      let rest := removeFirst ln (lns x) in
      match rest with
      | [] =>
          let closed := match realLn x with Some l => Vhost.CloseListener l (muxer ctl) | None => None end in
          mkCtl (removeIf (group x) g (groups ctl))
            (<[ g := mkGroup (group x) (groupKey x) (route x) (realLn x) [] false ]> (objs ctl))
            (default (muxer ctl) closed) (direct ctl) (nextObj ctl) (nextLn ctl)
            (panicked ctl || match closed with Some _ => false | None => true end)
      | _ =>
          putObj g (mkGroup (group x) (groupKey x) (route x) (realLn x) rest (accepting x)) (muxer ctl) (nextLn ctl) ctl
      end
  end.

(** A proxy without a group listens on the muxer and closes its listener. *)
Definition directListen (rc : RouteConfig) (ctl : Ctl) : res error nat * Ctl :=
  match Vhost.Listen rc (muxer ctl) with
  | (Err e, v) => (Err (ErrMux e), mkCtl (groups ctl) (objs ctl) v (direct ctl) (nextObj ctl) (nextLn ctl) (panicked ctl))
  | (Ok l, v) => (Ok (ln_id l), mkCtl (groups ctl) (objs ctl) v (<[ ln_id l := l ]> (direct ctl)) (nextObj ctl) (nextLn ctl) (panicked ctl))
  end.
Definition directClose (i : nat) (ctl : Ctl) : Ctl :=
  match direct ctl !! i with
  | None => ctl
  | Some l =>
      match Vhost.CloseListener l (muxer ctl) with
      | Some v => mkCtl (groups ctl) (objs ctl) v (delete i (direct ctl)) (nextObj ctl) (nextLn ctl) (panicked ctl)
      | None => mkCtl (groups ctl) (objs ctl) (muxer ctl) (delete i (direct ctl)) (nextObj ctl) (nextLn ctl) true
      end
  end.

(** ** Steps *)

Inductive step (ctl : Ctl) : Ctl → Prop :=
| step_get key : step ctl (getOrCreate key ctl).2
| step_listen g grp key rc : step ctl (groupListen g grp key rc ctl).2
| step_close g ln x : objs ctl !! g = Some x → ln ∈ lns x → step ctl (closeListener g ln ctl)
| step_direct rc : step ctl (directListen rc ctl).2
| step_direct_close i : step ctl (directClose i ctl).

(** ** Listeners of the muxer *)

(** The listener is the one stored for its route. *)
Definition registered (v : Muxer) (l : Listener) : Prop :=
  ∃ vr, exist (registryRouter v) (ToLower (ln_name l)) (ln_location l) (ln_routeByHTTPUser l) = Some vr ∧ payload vr = l.

Lemma registered_id v l : mux_wf v → registered v l → (ln_id l < nextListener v)%nat ∧ ln_id l ∉ closedListeners v.
Proof. intros W (vr & He & <-). by destruct (mw_listener _ W _ _ _ _ He) as (_ & _ & _ & ? & ?). Qed.

Lemma registered_listen rc v l : mux_wf v → registered v l → registered (Vhost.Listen rc v).2 l.
Proof.
  intros W (vr & He & Hp). unfold Vhost.Listen.
  pose proof (exist_Add (Domain rc) (Location rc) (RouteByHTTPUser rc)
    (mkListener (Domain rc) (Location rc) (RouteByHTTPUser rc) (RewriteHost rc) (Username rc) (Password rc) (nextListener v))
    (registryRouter v) (ToLower (ln_name l)) (ln_location l) (ln_routeByHTTPUser l) (mw_router _ W)) as HA.
  destruct (Add _ _ _ _ _) as [[[]|e] r']; simpl; exists vr; split; try done; simpl.
  - destruct HA as [Hn ->]. case_decide as E; [|done]. injection E as E1 E2 E3. rewrite E1, E2, E3 in Hn. congruence.
  - by destruct HA as [-> _].
Qed.

Lemma listen_ok rc v l v' : mux_wf v → Vhost.Listen rc v = (Ok l, v') →
  registered v' l ∧ ln_id l = nextListener v ∧ nextListener v' = S (nextListener v) ∧
  (ln_name l, ln_location l, ln_routeByHTTPUser l, ln_username l, ln_password l) =
  (Domain rc, Location rc, RouteByHTTPUser rc, Username rc, Password rc).
Proof.
  intros W. unfold Vhost.Listen. set (l0 := mkListener _ _ _ _ _ _ _).
  pose proof (exist_Add (Domain rc) (Location rc) (RouteByHTTPUser rc) l0
    (registryRouter v) (ToLower (Domain rc)) (Location rc) (RouteByHTTPUser rc) (mw_router _ W)) as HA.
  destruct (Add _ _ _ _ _) as [[[]|e] r']; intros [= <- <-]. destruct HA as [_ HA]. rewrite decide_True in HA by done.
  split_and!; try done. eexists. split; [exact HA|done].
Qed.

(** Closing a registered listener never panics and leaves the others registered. *)
Lemma close_registered v l : mux_wf v → registered v l →
  ∃ v', Vhost.CloseListener l v = Some v' ∧ mux_wf v' ∧ nextListener v' = nextListener v ∧
    ∀ l', registered v l' → ln_id l' ≠ ln_id l → registered v' l'.
Proof.
  intros W Hr. pose proof (registered_id v l W Hr) as [_ Hopen]. destruct Hr as (vr & He & <-).
  eexists. split; [unfold Vhost.CloseListener; by rewrite decide_False|]. split_and!.
  - assert (Hk : domain vr = ToLower (ln_name (payload vr)) ∧ location vr = ln_location (payload vr) ∧ httpUser vr = ln_routeByHTTPUser (payload vr)).
    { unfold exist in He. destruct (routes _ _ _) as [vrs|] eqn:Hrt; [|done]. simpl in He.
      apply findLocation_Some in He as [Hin Hloc]; [|by eapply wf_distinct; [apply W|]].
      pose proof (wf_entry _ (mw_router _ W) _ _ _ Hrt) as Hf. rewrite Forall_forall in Hf. destruct (Hf _ Hin). done. }
    destruct Hk as (K1 & K2 & K3). apply (mux_wf_close v vr); [done|by rewrite K1, K2, K3|].
    unfold Vhost.CloseListener. by rewrite decide_False.
  - done.
  - intros l' (vr' & He' & Hp') Hne. exists vr'. split; [|done]. simpl. rewrite exist_Del. case_decide as E; [|done].
    injection E as E1 E2 E3. rewrite <-E1, <-E2, <-E3, He in He'. congruence.
Qed.

(** ** Invariant *)

(** A group with listeners is the registered group of its name and accepts; its listener
    is registered with the muxer for the route of its first member; no two groups and no
    proxy share a listener; nothing was closed twice. *)
Record wf (ctl : Ctl) : Prop := {
  wf_mux : mux_wf (muxer ctl);
  wf_registered key g : groups ctl !! key = Some g → ∃ x, objs ctl !! g = Some x ∧ (lns x ≠ [] → group x = key);
  wf_inj key key' g : groups ctl !! key = Some g → groups ctl !! key' = Some g → key = key';
  wf_objs g : (nextObj ctl ≤ g)%nat → objs ctl !! g = None;
  wf_live g x : objs ctl !! g = Some x → lns x ≠ [] →
    groups ctl !! group x = Some g ∧ accepting x = true ∧
    ∃ l, realLn x = Some l ∧ registered (muxer ctl) l ∧ direct ctl !! ln_id l = None ∧
      (ln_name l, ln_location l, ln_routeByHTTPUser l, ln_username l, ln_password l) =
      (Domain (route x), Location (route x), RouteByHTTPUser (route x), Username (route x), Password (route x));
  wf_direct i l : direct ctl !! i = Some l → ln_id l = i ∧ registered (muxer ctl) l;
  wf_fresh g x ln : objs ctl !! g = Some x → ln ∈ lns x → (ln < nextLn ctl)%nat;
  wf_nodup g x : objs ctl !! g = Some x → NoDup (lns x);
  wf_owner g x g' x' ln : objs ctl !! g = Some x → objs ctl !! g' = Some x' → ln ∈ lns x → ln ∈ lns x' → g = g';
  wf_unique g x l g' x' l' : objs ctl !! g = Some x → objs ctl !! g' = Some x' → lns x ≠ [] → lns x' ≠ [] →
    realLn x = Some l → realLn x' = Some l' → ln_id l = ln_id l' → g = g';
  wf_calm : panicked ctl = false }.

(** A muxer that kept the registrations of [ctl]. *)
Definition keeps (ctl : Ctl) (v : Muxer) : Prop :=
  mux_wf v ∧ ∀ l, registered (muxer ctl) l → registered v l.

Lemma keeps_listen ctl rc : wf ctl → keeps ctl (Vhost.Listen rc (muxer ctl)).2.
Proof. intros W. split; [apply mux_wf_Listen, W|]. intros l. apply registered_listen, W. Qed.

Lemma wf_mux_change ctl v : wf ctl → keeps ctl v → wf (mkCtl (groups ctl) (objs ctl) v (direct ctl) (nextObj ctl) (nextLn ctl) (panicked ctl)).
Proof.
  intros [W1 W2 W3 W4 W5 W6 W7 W8 W9 W10 W11] [Wv Hk]. split; simpl; eauto.
  - intros g x Hg Hl. destruct (W5 g x Hg Hl) as (? & ? & l & ? & ? & ? & ?). split_and!; try done. exists l. eauto.
  - intros i l Hi. destruct (W6 i l Hi). eauto.
Qed.

(** A group gets a new state in which it has listeners. *)
Lemma mg_putLive ctl g x x' v next' l :
  wf ctl → objs ctl !! g = Some x → keeps ctl v → (nextLn ctl ≤ next')%nat →
  groups ctl !! group x' = Some g → accepting x' = true → realLn x' = Some l → registered v l → direct ctl !! ln_id l = None →
  (ln_name l, ln_location l, ln_routeByHTTPUser l, ln_username l, ln_password l) =
    (Domain (route x'), Location (route x'), RouteByHTTPUser (route x'), Username (route x'), Password (route x')) →
  lns x' ≠ [] → NoDup (lns x') →
  (∀ ln, ln ∈ lns x' → (ln < next')%nat ∧ (ln ∈ lns x ∨ (nextLn ctl ≤ ln)%nat)) →
  (realLn x = Some l ∧ lns x ≠ [] ∨ (nextListener (muxer ctl) ≤ ln_id l)%nat) →
  wf (putObj g x' v next' ctl).
Proof.
  intros [W1 W2 Wi W3 W4 Wd W6 W7 W8 W9 Wc] Hg [Wv Hk] Hnx Hcur Hacc Hreal Hreg Hdir Hroute Hne Hnd Hln Hid.
  assert (Hln' : ∀ h y ln, objs ctl !! h = Some y → g ≠ h → ln ∈ lns x' → ln ∈ lns y → False).
  { intros h y ln Hh Hneq H1 H2. destruct (Hln ln H1) as [_ [H3|H3]]; [by apply Hneq, (W8 g x h y ln)|].
    pose proof (W6 h y ln Hh H2). lia. }
  assert (Hid' : ∀ h y m, objs ctl !! h = Some y → g ≠ h → lns y ≠ [] → realLn y = Some m → ln_id l ≠ ln_id m).
  { intros h y m Hh Hneq Hl Hm E. destruct Hid as [[Hx Hlx]|Hfresh]; [by apply Hneq, (W9 g x l h y m)|].
    destruct (W4 h y Hh Hl) as (_ & _ & m' & Hm' & Hreg' & _). assert (m' = m) as -> by congruence.
    destruct (registered_id _ _ W1 Hreg'). lia. }
  split; simpl; [done|..].
  - intros key h Hh. destruct (W2 key h Hh) as (y & Ho & Hgr). destruct (decide (g = h)) as [<-|].
    + rewrite lookup_insert_eq. exists x'. split; [done|]. intros _. by eapply Wi.
    + rewrite lookup_insert_ne by done. eauto.
  - done.
  - intros h Hh. rewrite lookup_insert_ne; [by apply W3|]. intros <-. by rewrite W3 in Hg.
  - intros h y. rewrite lookup_insert_Some. intros [[<- <-]|[Hneq Hh]] Hn; [by split_and!; eauto|].
    destruct (W4 h y Hh Hn) as (? & ? & m & ? & ? & ? & ?). split_and!; try done. exists m. eauto.
  - intros i m Hi. destruct (Wd i m Hi). eauto.
  - intros h y ln. rewrite lookup_insert_Some. intros [[<- <-]|[Hneq Hh]] Hl; [by apply Hln|].
    specialize (W6 h y ln Hh Hl). lia.
  - intros h y. rewrite lookup_insert_Some. intros [[<- <-]|[Hneq Hh]]; [done|eauto].
  - intros h y h' y' ln. rewrite !lookup_insert_Some.
    intros [[<- <-]|[Hneq Hh]] [[<- <-]|[Hneq' Hh']] H1 H2; [done|exfalso; eauto..|eauto].
  - intros h y m h' y' m'. rewrite !lookup_insert_Some.
    intros [[<- <-]|[Hneq Hh]] [[<- <-]|[Hneq' Hh']] H1 H2 H3 H4 E; [done| | |eauto].
    + assert (m = l) as -> by congruence. by destruct (Hid' _ _ _ Hh' Hneq' H2 H4).
    + assert (m' = l) as -> by congruence. by destruct (Hid' _ _ _ Hh Hneq H1 H3).
  - done.
Qed.

Lemma mg_get key ctl : wf ctl → wf (getOrCreate key ctl).2.
Proof.
  intros W. unfold getOrCreate. destruct (groups ctl !! key) eqn:Hk; [done|].
  destruct W as [W1 W2 Wi W3 W4 Wd W6 W7 W8 W9 Wc]. set (n := nextObj ctl).
  assert (Hn : objs ctl !! n = None) by by apply W3.
  assert (Hreg : ∀ k g, groups ctl !! k = Some g → g ≠ n).
  { intros k g Hg ->. destruct (W2 k n Hg) as (? & ? & _). congruence. }
  split; simpl; [done|..].
  - intros k g. rewrite lookup_insert_Some. intros [[<- <-]|[Hne Hg]].
    + rewrite lookup_insert_eq. by exists NewGroup.
    + rewrite lookup_insert_ne; [eauto|]. by apply not_eq_sym, (Hreg k).
  - intros k k' g. rewrite !lookup_insert_Some.
    intros [[<- <-]|[Hne Hg]] [[<- Heq]|[Hne' Hg']]; try done; [|by destruct (Hreg k g Hg)|by eapply Wi].
    by destruct (Hreg k' n Hg').
  - intros g Hg. rewrite lookup_insert_ne by lia. apply W3. lia.
  - intros g x. rewrite lookup_insert_Some. intros [[<- <-]|[Hne Hg]] Hl; [done|].
    destruct (W4 g x Hg Hl) as (Hr & ? & ?). split_and!; try done.
    rewrite lookup_insert_ne; [done|]. intros ->. congruence.
  - done.
  - intros g x ln. rewrite lookup_insert_Some. intros [[<- <-]|[Hne Hg]]; [set_solver|eauto].
  - intros g x. rewrite lookup_insert_Some. intros [[<- <-]|[Hne Hg]]; [constructor|eauto].
  - intros g x g' x' ln. rewrite !lookup_insert_Some.
    intros [[<- <-]|[Hne Hg]] [[<- <-]|[Hne' Hg']] H1 H2; [done|set_solver..|eauto].
  - intros g x l g' x' l'. rewrite !lookup_insert_Some.
    intros [[<- <-]|[Hne Hg]] [[<- <-]|[Hne' Hg']] H1 H2 H3 H4 E; [done|done|done|eauto].
  - done.
Qed.

Lemma mg_listen g grp key rc ctl : wf ctl → wf (groupListen g grp key rc ctl).2.
Proof.
  intros W. unfold groupListen. destruct (objs ctl !! g) as [x|] eqn:Hg; [|done].
  destruct (isCurrent grp g ctl) eqn:Hcur; [|done]. apply bool_decide_eq_true in Hcur. simpl.
  destruct (lns x) as [|l0 ls] eqn:Hl.
  - pose proof (keeps_listen ctl rc W) as Hk. destruct (Vhost.Listen rc (muxer ctl)) as [[l|e] v] eqn:HL; simpl in *.
    + destruct (listen_ok rc _ _ _ (wf_mux _ W) HL) as (Hreg & Hid & _ & Hroute).
      eapply mg_putLive; simpl; eauto using NoDup_singleton; [| |rewrite Hid; by right].
      * destruct (direct ctl !! ln_id l) as [m|] eqn:Hd; [|done]. destruct (wf_direct _ W _ _ Hd) as [E Hm].
        destruct (registered_id _ _ (wf_mux _ W) Hm). lia.
      * intros ln ->%list_elem_of_singleton. lia.
    + unfold putObj. rewrite insert_id by done. by apply wf_mux_change.
  - destruct (agrees (route x) rc); repeat case_decide; cbn [snd negb]; try done.
    assert (Hn : lns x ≠ []) by by rewrite Hl. rewrite <-Hl.
    destruct (wf_live _ W g x Hg Hn) as (Hr & Hacc & l & Hreal & Hreg & Hdir & Hroute).
    eapply mg_putLive; simpl; eauto.
    + by split; [apply W|].
    + by destruct (lns x).
    + apply NoDup_app. split_and!; [by eapply wf_nodup| |apply NoDup_singleton].
      intros y Hy ->%list_elem_of_singleton. pose proof (wf_fresh _ W g x _ Hg Hy). lia.
    + intros ln [Hin| ->%list_elem_of_singleton]%elem_of_app; [|lia].
      pose proof (wf_fresh _ W g x _ Hg Hin). split; [lia|by left].
Qed.

(** Closing a listener that a group or a proxy owns, as the other owners see it. *)
Lemma close_others ctl l : wf ctl → registered (muxer ctl) l →
  ∃ v, Vhost.CloseListener l (muxer ctl) = Some v ∧ mux_wf v ∧
    (∀ h y, objs ctl !! h = Some y → lns y ≠ [] → (∀ m, realLn y = Some m → ln_id m ≠ ln_id l) →
       ∃ m, realLn y = Some m ∧ registered v m ∧ direct ctl !! ln_id m = None ∧
         (ln_name m, ln_location m, ln_routeByHTTPUser m, ln_username m, ln_password m) =
         (Domain (route y), Location (route y), RouteByHTTPUser (route y), Username (route y), Password (route y))) ∧
    (∀ i m, direct ctl !! i = Some m → i ≠ ln_id l → registered v m).
Proof.
  intros W Hreg. destruct (close_registered _ _ (wf_mux _ W) Hreg) as (v & Hc & Wv & _ & Hothers).
  exists v. split_and!; try done.
  - intros h y Hh Hl Hm. destruct (wf_live _ W h y Hh Hl) as (_ & _ & m & Hr & Hrg & ? & ?). exists m. split_and!; eauto.
  - intros i m Hi Hne. destruct (wf_direct _ W i m Hi) as [<- Hrg]. eauto.
Qed.

Lemma mg_close g ln x ctl : wf ctl → objs ctl !! g = Some x → ln ∈ lns x → wf (closeListener g ln ctl).
Proof.
  intros W Hg Hin. unfold closeListener. rewrite Hg.
  assert (Hn : lns x ≠ []) by (intros E; rewrite E in Hin; set_solver).
  destruct (wf_live _ W g x Hg Hn) as (Hr & Hacc & l & Hreal & Hreg & Hdir & Hroute). pose proof (wf_nodup _ W g x Hg) as Hnd.
  destruct (removeFirst ln (lns x)) as [|l0 ls] eqn:Hrest.
  - rewrite Hreal. destruct (close_others ctl l W Hreg) as (v & -> & Wv & Hlive & Hd). simpl. rewrite orb_false_r.
    assert (Hne : ∀ h y, objs ctl !! h = Some y → g ≠ h → lns y ≠ [] → (∀ m, realLn y = Some m → ln_id m ≠ ln_id l) ∧ group x ≠ group y).
    { intros h y Hh Hneq Hl. split.
      - intros m Hm E. apply Hneq. by eapply (wf_unique _ W g x l h y m).
      - intros E. destruct (wf_live _ W h y Hh Hl) as (Hr' & _). congruence. }
    unfold removeIf. rewrite decide_True by done. destruct W as [W1 W2 Wi W3 W4 Wd W6 W7 W8 W9 Wc].
    split; simpl; [done|..].
    + intros k h [Hk Hh]%lookup_delete_Some. destruct (W2 k h Hh) as (y & Ho & Hgr).
      destruct (decide (g = h)) as [<-|]; [|rewrite lookup_insert_ne by done; eauto].
      exfalso. apply Hk. by eapply Wi.
    + intros k k' h [_ ?]%lookup_delete_Some [_ ?]%lookup_delete_Some. by eapply Wi.
    + intros h Hh. rewrite lookup_insert_ne; [by apply W3|]. intros <-. by rewrite W3 in Hg.
    + intros h y. rewrite lookup_insert_Some. intros [[<- <-]|[Hneq Hh]] Hl; [done|].
      destruct (Hne h y Hh Hneq Hl) as [Hm Hgr]. destruct (W4 h y Hh Hl) as (? & ? & _). rewrite lookup_delete_ne by done. eauto.
    + intros i m Hi. destruct (Wd i m Hi) as [<- _]. split; [done|]. apply (Hd _ _ Hi). intros E. rewrite E in Hi. congruence.
    + intros h y k. rewrite lookup_insert_Some. intros [[<- <-]|[Hneq Hh]]; [set_solver|eauto].
    + intros h y. rewrite lookup_insert_Some. intros [[<- <-]|[Hneq Hh]]; [constructor|eauto].
    + intros h y h' y' k. rewrite !lookup_insert_Some.
      intros [[<- <-]|[Hneq Hh]] [[<- <-]|[Hneq' Hh']] H1 H2; [done|set_solver..|eauto].
    + intros h y m h' y' m'. rewrite !lookup_insert_Some.
      intros [[<- <-]|[Hneq Hh]] [[<- <-]|[Hneq' Hh']] H1 H2 H3 H4 E; [done|done|done|eauto].
    + done.
  - rewrite <-Hrest. eapply mg_putLive; simpl; eauto using NoDup_removeFirst.
    + by split; [apply W|].
    + by rewrite Hrest.
    + intros k [Hk _]%elem_of_removeFirst; [|done]. split; [by eapply wf_fresh|by left].
Qed.

Lemma wf_directListen rc ctl : wf ctl → wf (directListen rc ctl).2.
Proof.
  intros W. unfold directListen. pose proof (keeps_listen ctl rc W) as Hk.
  destruct (Vhost.Listen rc (muxer ctl)) as [[l|e] v] eqn:HL; simpl in *; [|by apply wf_mux_change].
  destruct (listen_ok rc _ _ _ (wf_mux _ W) HL) as (Hreg & Hid & _ & _).
  destruct (wf_mux_change ctl v W Hk) as [W1 W2 Wi W3 W4 Wd W6 W7 W8 W9 Wc]. simpl in *. split; simpl; eauto.
  - intros g x Hg Hl. destruct (W4 g x Hg Hl) as (? & ? & m & Hm & Hrg & Hd & ?). split_and!; try done. exists m. split_and!; try done.
    destruct (wf_live _ W g x Hg Hl) as (_ & _ & m' & Hm' & Hrg' & _). assert (m' = m) as -> by congruence.
    destruct (registered_id _ _ (wf_mux _ W) Hrg'). rewrite lookup_insert_ne by lia. done.
  - intros i m. rewrite lookup_insert_Some. intros [[<- <-]|[_ Hi]]; [done|eauto].
Qed.

Lemma wf_directClose i ctl : wf ctl → wf (directClose i ctl).
Proof.
  intros W. unfold directClose. destruct (direct ctl !! i) as [l|] eqn:Hi; [|done].
  destruct (wf_direct _ W i l Hi) as [<- Hreg]. destruct (close_others ctl l W Hreg) as (v & -> & Wv & Hlive & Hd).
  destruct W as [W1 W2 Wi W3 W4 Wd W6 W7 W8 W9 Wc]. split; simpl; eauto.
  - intros g x Hg Hl. destruct (W4 g x Hg Hl) as (? & ? & m & Hm & _ & Hdm & _). split_and!; try done.
    destruct (Hlive g x Hg Hl) as (m' & ? & ? & ? & ?); [intros m' Hm' E; assert (m' = m) as -> by congruence; by rewrite E in Hdm; congruence|].
    exists m'. split_and!; try done. rewrite lookup_delete_None. by right.
  - intros j m [Hj Hm]%lookup_delete_Some. destruct (Wd j m Hm). eauto.
Qed.

Lemma muxgroup_wf_steps ctl ctl' : wf ctl → rtc step ctl ctl' → wf ctl'.
Proof.
  intros W Hs. induction Hs as [|? ? ? [] ? IH]; [done|..]; apply IH;
    eauto using mg_get, mg_listen, mg_close, wf_directListen, wf_directClose.
Qed.

Lemma muxgroup_wf_new : wf NewCtl.
Proof. split; simpl; try apply mux_wf_new; try done; intros *; by rewrite lookup_empty. Qed.

(** ** Properties *)

(** C23: Groups behind a muxer own exactly one open listener each.  Under every interleaving of
    lookups, listen calls, closes and proxies without a group on the same muxer, a group with
    members is the registered group of its name, accepts, and its listener is the one that
    the muxer has for the route of its first member, with that member's credentials, and
    is open; no two groups and no other proxy share a listener; no listener is closed
    twice, which would panic; and the muxer delivers to no closed listener. *)
Theorem muxgroup_invariant ctl :
  rtc step NewCtl ctl →
  panicked ctl = false ∧
  (∀ g x, objs ctl !! g = Some x → lns x ≠ [] →
     groups ctl !! group x = Some g ∧ accepting x = true ∧
     ∃ l, realLn x = Some l ∧ (ln_id l ∉ closedListeners (muxer ctl)) ∧
       payload <$> exist (registryRouter (muxer ctl)) (ToLower (Domain (route x))) (Location (route x)) (RouteByHTTPUser (route x)) = Some l ∧
       ln_username l = Username (route x) ∧ ln_password l = Password (route x) ∧ direct ctl !! ln_id l = None) ∧
  (∀ g x l g' x' l', objs ctl !! g = Some x → objs ctl !! g' = Some x' → lns x ≠ [] → lns x' ≠ [] →
     realLn x = Some l → realLn x' = Some l' → ln_id l = ln_id l' → g = g') ∧
  ∀ h info, vhostFunc h = Some info → handle h (muxer ctl) ≠ Ignored.
Proof.
  intros Hs. pose proof (muxgroup_wf_steps _ _ muxgroup_wf_new Hs) as W. split_and!.
  - apply W.
  - intros g x Hg Hl. destruct (wf_live _ W g x Hg Hl) as (? & ? & l & Hreal & Hreg & Hd & Hroute). split_and!; try done.
    injection Hroute as E1 E2 E3 E4 E5. exists l. destruct (registered_id _ _ (wf_mux _ W) Hreg). destruct Hreg as (vr & He & Hp).
    rewrite E1, E2, E3 in He. rewrite He. simpl. by rewrite Hp.
  - apply (wf_unique _ W).
  - intros h info Hv. apply (handle_open _ _ _ (wf_mux _ W) Hv).
Qed.
End groups.

(** The two kinds of groups. *)
Definition HTTPSGroupListen := @groupListen HTTPSAgreement.
Definition HTTPConnectListen := @groupListen TCPMuxAgreement.

(** ** A concrete run *)

Definition demoRoute : RouteConfig := mkRouteConfig "a.com" "" "" "" "" "".
Definition demoOther : RouteConfig := mkRouteConfig "b.com" "" "" "" "" "".
Definition demo1 : Ctl := (HTTPSGroupListen 0 "web" "k" demoRoute (getOrCreate "web" NewCtl).2).2.
Definition demo2 : Ctl := (HTTPSGroupListen 0 "web" "k" demoRoute demo1).2.
Definition demoGroup : Group := default NewGroup (objs demo2 !! 0%nat).

Lemma mg_demo_reachable : rtc (step (H := HTTPSAgreement)) NewCtl demo2.
Proof.
  eapply rtc_l; [apply (step_get NewCtl "web")|]. eapply rtc_l; [apply (step_listen _ 0 "web" "k" demoRoute)|].
  eapply rtc_l; [apply (step_listen _ 0 "web" "k" demoRoute)|]. apply rtc_refl.
Qed.

(** A member with another route or another key is turned away. *)
Example demo_rejected :
  (HTTPSGroupListen 0 "web" "k" demoOther demo2).1 = Err ErrGroupParamsInvalid ∧
  (HTTPSGroupListen 0 "web" "x" demoRoute demo2).1 = Err ErrGroupAuthFailed.
Proof. vm_compute. split; reflexivity. Qed.

Lemma muxgroup_invariant_witness : lns demoGroup = [0; 1]%nat ∧ accepting demoGroup = true.
Proof.
  destruct (muxgroup_invariant (H := HTTPSAgreement) demo2 mg_demo_reachable) as (_ & Hl & _).
  destruct (Hl 0%nat demoGroup) as (_ & Ha & _); [vm_compute; reflexivity|vm_compute; discriminate|].
  split; [vm_compute; reflexivity|exact Ha].
Defined.
End MuxGroup.
