(* ===== verification/Control.v ===== *)
(** * Controls and the control manager: [server/control.go]

    One [Control] serves one login of a client; the manager keeps the current
    one of each run id.  Controls and entries are shared by pointer in the
    source and live in stores here.  Every operation is the body of a critical
    section; [Handoff] interleaves them.  The client registry is used through
    the interface [OnlineRegistry]. *)
From S2P Require Import Prelude Bytes Registry.

(** ** What the manager needs of the client registry *)

Class OnlineRegistry (R : Type) := {
  reg_ok : R → Prop;
  online : R → string → option Z;
  register : Z → Registry.Login → R → bool * R;
  markOffline : Z → string → Z → R → R;
  register_ok now a r : reg_ok r → reg_ok (register now a r).2;
  markOffline_ok now run id r : reg_ok r → reg_ok (markOffline now run id r);
  (** A conflict changes nothing; otherwise the run id is online under the
      control id and another run id may only go offline. *)
  register_conflict now a r : (register now a r).1 = true → (register now a r).2 = r;
  register_online now a r : reg_ok r → (register now a r).1 = false → Registry.l_runID a ≠ "" →
    online (register now a r).2 (Registry.l_runID a) = Some (Registry.l_controlID a);
  register_empty now a r : reg_ok r → Registry.l_runID a = "" →
    online (register now a r).2 (Registry.l_runID a) = None;
  register_others now a r run x : reg_ok r → run ≠ Registry.l_runID a →
    online (register now a r).2 run = Some x → online r run = Some x;
  (** A run id goes offline only for the control id it is online under. *)
  markOffline_match now run id r : reg_ok r → online r run = Some id →
    online (markOffline now run id r) run = None;
  markOffline_mismatch now run id r : reg_ok r → online r run ≠ Some id → markOffline now run id r = r;
  markOffline_others now run run' id r : reg_ok r → run ≠ run' →
    online (markOffline now run id r) run' = online r run' }.

(** The registry keeps the promise. *)
Section instance.
Import Registry.

Definition onlineRun (cr : ClientRegistry) (run : string) : option Z :=
  match runIndex cr !! run with
  | Some k => ControlID <$> clients cr !! k
  | None => None
  end.

Lemma onlineRun_Some cr run x :
  wf cr → onlineRun cr run = Some x ↔
  run ≠ "" ∧ ∃ k i, clients cr !! k = Some i ∧ RunID i = run ∧ ControlID i = x.
Proof.
  intros W. unfold onlineRun. split.
  - destruct (runIndex cr !! run) as [k|] eqn:E; [|done].
    destruct (wf_index _ W _ _ E) as (Hr & i & Hi & Hi2). rewrite Hi. intros [= <-]. by eauto 10.
  - intros (Hr & k & i & Hi & <- & <-). by rewrite (wf_indexed _ W _ _ Hi Hr), Hi.
Qed.

Lemma leavePrevious_clients now r key cr k i :
  clients (leavePrevious now r key cr) !! k = Some i → RunID i ≠ "" → clients cr !! k = Some i.
Proof.
  unfold leavePrevious. destruct (runIndex cr !! r) as [p|]; [|done]. case_decide; [done|]. simpl.
  destruct (clients cr !! p) as [j|]; [|done]. case_decide; [|done]. rewrite lookup_retire.
  repeat case_decide; try done. by intros [= <-].
Qed.

Lemma online_register_self now a cr :
  wf cr → (RegisterWithControlID now a cr).1.2 = false → l_runID a ≠ "" →
  onlineRun (RegisterWithControlID now a cr).2 (l_runID a) = Some (l_controlID a).
Proof.
  intros W. unfold RegisterWithControlID, onlineRun. case_decide; [done|].
  destruct (conflicts _ _); [done|]. simpl. intros _ _. by rewrite !lookup_insert_eq.
Qed.

Lemma online_register_other now a cr run x :
  wf cr → run ≠ l_runID a → onlineRun (RegisterWithControlID now a cr).2 run = Some x → onlineRun cr run = Some x.
Proof.
  intros W Hne. rewrite !onlineRun_Some by auto using wf_register.
  intros (Hr & k & i & Hi & Hrun & Hx). split; [done|]. exists k, i. split; [|done]. revert Hi.
  unfold RegisterWithControlID. case_decide; [done|]. destruct (conflicts _ _); [done|]. simpl.
  rewrite lookup_insert_Some. intros [[_ <-]|[_ Hi]]; [done|]. eapply leavePrevious_clients; [done|congruence].
Qed.

Lemma markOffline_id now run cid cr :
  wf cr → onlineRun cr run ≠ Some cid → markOfflineByRunID now run cid true cr = cr.
Proof.
  intros W. unfold markOfflineByRunID, onlineRun. destruct (runIndex cr !! run) as [k|] eqn:E; [|done].
  destruct (wf_index _ W _ _ E) as (? & i & Hi & Hr). rewrite Hi. intros Hne. simpl in Hne.
  rewrite (bool_decide_eq_true_2 _ Hr). destruct (ControlID i =? cid) eqn:Ec.
  - apply Z.eqb_eq in Ec. congruence.
  - simpl. rewrite Hi, decide_True by done. by destruct cr.
Qed.

Lemma markOffline_self now run cid cr :
  wf cr → onlineRun cr run = Some cid → onlineRun (markOfflineByRunID now run cid true cr) run = None.
Proof.
  intros W H. apply eq_None_not_Some. intros [x Hx]. revert H Hx.
  unfold markOfflineByRunID, onlineRun. destruct (runIndex cr !! run) as [k|] eqn:E; [|done].
  destruct (wf_index _ W _ _ E) as (Hr0 & i & Hi & Hr). rewrite Hi. intros [= <-].
  rewrite (bool_decide_eq_true_2 _ Hr), Z.eqb_refl. simpl. rewrite lookup_retire, decide_True by done.
  repeat case_decide; simplify_eq/=; by rewrite lookup_delete_eq.
Qed.

Lemma markOffline_other now run run' cid cr :
  wf cr → run ≠ run' → onlineRun (markOfflineByRunID now run cid true cr) run' = onlineRun cr run'.
Proof.
  intros W Hne. unfold markOfflineByRunID, onlineRun. destruct (runIndex cr !! run) as [k|] eqn:E; [|done].
  destruct (wf_index _ W _ _ E) as (Hr0 & i & Hi & Hr). rewrite Hi, (bool_decide_eq_true_2 _ Hr). simpl.
  destruct (ControlID i =? cid); simpl.
  - rewrite lookup_retire, decide_True by done.
    assert (Hk : ∀ k', runIndex cr !! run' = Some k' → k ≠ k').
    { intros k' E' <-. destruct (wf_index _ W _ _ E') as (_ & j & ? & ?). congruence. }
    assert (Heq : match delete run (runIndex cr) !! run' with
                  | Some k' => ControlID <$> retire now k i (clients cr) !! k' | None => None end =
                  match runIndex cr !! run' with Some k' => ControlID <$> clients cr !! k' | None => None end).
    { rewrite lookup_delete_ne by done. destruct (runIndex cr !! run') as [k'|] eqn:E'; [|done].
      rewrite lookup_retire, decide_False by by apply Hk. done. }
    repeat case_decide; simplify_eq/=; exact Heq.
  - rewrite Hi, decide_True by done. by destruct cr.
Qed.

#[global] Instance ClientRegistry_online : OnlineRegistry ClientRegistry.
Proof.
  refine {| reg_ok := wf; online := onlineRun;
            register now a r := ((RegisterWithControlID now a r).1.2, (RegisterWithControlID now a r).2);
            markOffline := MarkOfflineByRunIDAndControlID |}; cbn [fst snd].
  - auto using wf_register.
  - intros. by apply wf_markOffline.
  - intros now a r. unfold RegisterWithControlID. case_decide; [done|]. by destruct (conflicts _ _).
  - intros. by apply online_register_self.
  - intros now a r W Hr. rewrite Hr. apply eq_None_not_Some. intros [x [Hx _]%onlineRun_Some]; [done|].
    by apply wf_register.
  - intros now a r run x. by apply online_register_other.
  - intros. by apply markOffline_self.
  - intros. by apply markOffline_id.
  - intros. by apply markOffline_other.
Defined.
End instance.

Module Control.

Inductive controlState :=
| controlStateCreated | controlStatePending | controlStateRunning | controlStateClosing | controlStateClosed.
#[global] Instance controlState_eq_dec : EqDecision controlState.
Proof. solve_decision. Defined.

Inductive error :=
| ErrXTCPBinding | ErrPoolCount | ErrMaxPoolCount | ErrEffectivePoolCount | ErrEntropy
| ErrManagerClosed | ErrNotCreated | ErrClientOnline | ErrNotCurrent | ErrNotRunning | ErrPoolFull
| ErrWrite | ErrCtlClosed | ErrSend | ErrTimeout
| PanicSendOnClosed.

(** The fields of the login message and of the session that the control uses;
    [RemoteHost] is the host part of the address of the connection. *)
Record SessionContext := mkSession {
  User : string; ClientID : string; RunID : string; Hostname : string; Version : string;
  RemoteHost : string; WireProtocol : string; UDPPacketCodec : string;
  PoolCount : Z; XTCPBindingProtocol : string; xtcpEnabled : bool; MaxPoolCount : Z }.

(** A buffered channel. *)
Record chan := mkChan { buf : list nat; cap : Z; chClosed : bool }.

(** The [doneCh] of a control is named by the address of the control; it is
    closed in [finishLocked], when the state becomes [controlStateClosed]. *)
Record Control := mkControl {
  sessionCtx : SessionContext;
  workConnCh : chan;
  poolCount : Z;
  controlID : Z;
  xtcpControlID : bytes;
  state : controlState;
  activated : bool;
  handoffBarrier : option nat;
  interrupted : bool }.

Definition runID (c : Control) : string := RunID (sessionCtx c).

Definition withState (s : controlState) (c : Control) : Control :=
  mkControl (sessionCtx c) (workConnCh c) (poolCount c) (controlID c) (xtcpControlID c) s (activated c)
    (handoffBarrier c) (interrupted c).
Definition withActivated (c : Control) : Control :=
  mkControl (sessionCtx c) (workConnCh c) (poolCount c) (controlID c) (xtcpControlID c) (state c) true
    (handoffBarrier c) (interrupted c).
Definition withChan (ch : chan) (c : Control) : Control :=
  mkControl (sessionCtx c) ch (poolCount c) (controlID c) (xtcpControlID c) (state c) (activated c)
    (handoffBarrier c) (interrupted c).

Definition workConnPoolCapacityOffset : Z := 10.
Definition MaxInt : Z := 2 ^ 63 - 1.
Definition ALPN : string := "esp-frp-xtcp/1".
Definition Nonzero (b : bytes) : bool := negb (bool_decide (Forall (λ x, x = Byte.x00) b)).

(** [NewControl]; [entropy] is what [rand.Read] gives for the identity. *)
Definition NewControl (entropy : option bytes) (sc : SessionContext) : res error Control :=
  if negb (bool_decide (XTCPBindingProtocol sc = ""))
     && (negb (xtcpEnabled sc) || negb (bool_decide (XTCPBindingProtocol sc = ALPN)))
  then Err ErrXTCPBinding
  else if PoolCount sc <? 0 then Err ErrPoolCount
  else if MaxPoolCount sc <? 0 then Err ErrMaxPoolCount
  else
    let effectivePoolCount := Z.min (PoolCount sc) (MaxPoolCount sc) in
    if MaxInt - workConnPoolCapacityOffset <? effectivePoolCount then Err ErrEffectivePoolCount
    else
      let ctl ident := mkControl sc (mkChan [] (effectivePoolCount + workConnPoolCapacityOffset) false)
                         effectivePoolCount 0 ident controlStateCreated false None false in
      if xtcpEnabled sc then
        match entropy with
        | Some b => if Nonzero b then Ok (ctl b) else Err ErrEntropy
        | None => Err ErrEntropy
        end
      else Ok (ctl (replicate 32 Byte.x00)).

(** a control for a session without XTCP is created exactly when the pool
    count of the client and the limit of the server are not negative and the
    smaller one leaves room for the offset below the largest [int]; the pool
    count is then that smaller one, and the capacity of the empty pool exceeds
    it by ten without overflow. *)
Theorem NewControl_pool entropy sc :
  XTCPBindingProtocol sc = "" → xtcpEnabled sc = false →
  let n := Z.min (PoolCount sc) (MaxPoolCount sc) in
  (is_Ok (NewControl entropy sc) ↔ 0 ≤ PoolCount sc ∧ 0 ≤ MaxPoolCount sc ∧ n + 10 ≤ 2 ^ 63 - 1) ∧
  (∀ c, NewControl entropy sc = Ok c →
     poolCount c = n ∧ cap (workConnCh c) = n + 10 ∧ 10 ≤ cap (workConnCh c) ≤ MaxInt ∧
     buf (workConnCh c) = [] ∧ state c = controlStateCreated ∧ sessionCtx c = sc).
Proof.
  intros Hp Hx n. unfold NewControl. rewrite Hp, Hx. cbn [bool_decide negb andb decide decide_rel].
  rewrite bool_decide_eq_true_2 by done. cbn [negb andb]. fold n. unfold MaxInt, workConnPoolCapacityOffset.
  destruct (Z.ltb_spec (PoolCount sc) 0); [split; [split; [by intros []|lia]|done]|].
  destruct (Z.ltb_spec (MaxPoolCount sc) 0); [split; [split; [by intros []|lia]|done]|].
  destruct (Z.ltb_spec (2 ^ 63 - 1 - 10) n); [split; [split; [by intros []|lia]|done]|].
  split; [split; [lia|by eexists]|]. intros c [= <-]. simpl. split_and!; try done; unfold n; lia.
Qed.

Lemma NewControl_pool_witness :
  is_Ok (NewControl None (mkSession "u" "" "r" "h" "v" "ip" "v2" "" 100 "" false 5)).
Proof. apply (NewControl_pool None (mkSession "u" "" "r" "h" "v" "ip" "v2" "" 100 "" false 5)); [reflexivity..|]. simpl. lia. Defined.

(** ** Life cycle of one control *)

Definition admitControl (id : Z) (c : Control) : res error Control :=
  if decide (state c = controlStateCreated)
  then Ok (mkControl (sessionCtx c) (workConnCh c) (poolCount c) id (xtcpControlID c) controlStatePending
             (activated c) (handoffBarrier c) (interrupted c))
  else Err ErrNotCreated.

Definition setHandoffBarrier (barrier : option nat) (c : Control) : Control :=
  mkControl (sessionCtx c) (workConnCh c) (poolCount c) (controlID c) (xtcpControlID c) (state c)
    (activated c) barrier (interrupted c).

Definition finishLocked (c : Control) : Control :=
  if decide (state c = controlStateClosed) then c else withState controlStateClosed c.

Definition interruptReadAndClose (c : Control) : Control :=
  mkControl (sessionCtx c) (workConnCh c) (poolCount c) (controlID c) (xtcpControlID c) (state c)
    (activated c) (handoffBarrier c) true.

(** [natOk] is the answer of [NatHoleController.RegisterControl]. *)
Definition startLocked (natOk : bool) (c : Control) : bool * Control :=
  if negb (bool_decide (state c = controlStatePending)) || negb (activated c) then (false, c)
  else if xtcpEnabled (sessionCtx c) && negb natOk then (false, c)
  else (true, withState controlStateRunning c).

Definition Close (c : Control) : Control :=
  interruptReadAndClose
    match state c with
    | controlStateCreated | controlStatePending => finishLocked (withState controlStateClosing c)
    | controlStateRunning => withState controlStateClosing c
    | _ => c
    end.

(** [markReplaced] of the control at address [a]: the barrier its replacement
    waits for. *)
Definition markReplaced (a : nat) (c : Control) : option nat * Control :=
  match state c with
  | controlStateCreated => (None, finishLocked (withState controlStateClosing c))
  | controlStatePending => (handoffBarrier c, finishLocked (withState controlStateClosing c))
  | controlStateRunning => (Some a, withState controlStateClosing c)
  | _ => (Some a, c)
  end.

Definition Replaced (a : nat) (c : Control) : Control := interruptReadAndClose (markReplaced a c).2.

(** The parts of [worker] after the dispatcher is done: leave the running
    state; close the pool; finish. *)
Definition workerStop (c : Control) : Control :=
  interruptReadAndClose (if decide (state c = controlStateRunning) then withState controlStateClosing c else c).
Definition workerDrain (c : Control) : Control := withChan (mkChan [] (cap (workConnCh c)) true) c.

(** [GetWorkConn]: [sent] says whether the request for a connection can be
    sent, [later] is the connection that arrives before the timeout, if any;
    [Some None] is the channel being closed meanwhile. *)
Definition GetWorkConn (sent : bool) (later : option (option nat)) (c : Control) : res error nat * Control :=
  match buf (workConnCh c) with
  | conn :: rest => (Ok conn, withChan (mkChan rest (cap (workConnCh c)) (chClosed (workConnCh c))) c)
  | [] =>
      if chClosed (workConnCh c) then (Err ErrCtlClosed, c)
      else if negb sent then (Err ErrSend, c)
      else match later with
           | Some (Some conn) => (Ok conn, c)
           | Some None => (Err ErrCtlClosed, c)
           | None => (Err ErrTimeout, c)
           end
  end.

(** ** The control manager *)

Section manager.
Context {R : Type} `{OnlineRegistry R}.

Record controlEntry := mkEntry {
  ctl : nat; id : Z; runMu : nat; registryOnline : bool; registryControlID : Z }.

(** The manager with the stores of controls and entries.  [runMu] is named by
    the address of the first entry that has it. *)
Record World := mkWorld {
  ctlsByRunID : gmap string nat;
  entries : gmap nat controlEntry;
  registry : R;
  closed : bool;
  nextControlID : Z;
  ctls : gmap nat Control;
  nextEntry : nat }.

Definition NewControlManager (r : R) : World := mkWorld ∅ ∅ r false 0 ∅ 0.

Definition putControl (a : nat) (c : Control) (w : World) : World :=
  mkWorld (ctlsByRunID w) (entries w) (registry w) (closed w) (nextControlID w) (<[ a := c ]> (ctls w)) (nextEntry w).

(** The two reads of [lockCurrentRun]: before and after waiting for the gate. *)
Definition lookupRun (run : string) (allowClosed : bool) (w : World) : option nat :=
  if closed w && negb allowClosed then None else ctlsByRunID w !! run.

Definition revalidate (run : string) (allowClosed : bool) (gate : nat) (w : World) : option nat :=
  match lookupRun run allowClosed w with
  | Some e => match entries w !! e with
              | Some en => if decide (runMu en = gate) then Some e else None
              | None => None
              end
  | None => None
  end.

(** [lockCurrentRun] when nothing happens while it waits for the gate. *)
Definition lockCurrentRun (run : string) (allowClosed : bool) (w : World) : option nat :=
  match lookupRun run allowClosed w with
  | Some e => match entries w !! e with
              | Some en => revalidate run allowClosed (runMu en) w
              | None => None
              end
  | None => None
  end.

(** The critical section of [Add] for the control at [a], when the entry read
    before was [old]: [None] is the retry. *)
Definition addLocked (a : nat) (old : option nat) (w : World) : option (res error (option nat)) * World :=
  match ctls w !! a with
  | None => (Some (Err ErrNotCreated), w)
  | Some c =>
  if closed w then (Some (Err ErrManagerClosed), w)
  else if negb (bool_decide (ctlsByRunID w !! runID c = old)) then (None, w)
  else
    let cid := (nextControlID w + 1) mod 2 ^ 64 in
    let w := mkWorld (ctlsByRunID w) (entries w) (registry w) (closed w) cid (ctls w) (nextEntry w) in
    match admitControl cid c with
    | Err e => (Some (Err e), w)
    | Ok c =>
        let addr := nextEntry w in
        let install en cs :=
          mkWorld (<[ runID c := addr ]> (ctlsByRunID w)) (<[ addr := en ]> (entries w)) (registry w)
            (closed w) cid cs (S addr) in
        match old ≫= λ e, entries w !! e with
        | Some en =>
            match ctls w !! ctl en with
            | Some oldCtl =>
                let '(barrier, oldCtl) := markReplaced (ctl en) oldCtl in
                (Some (Ok (Some (ctl en))),
                 install (mkEntry a cid (runMu en) (registryOnline en) (registryControlID en))
                   (<[ a := setHandoffBarrier barrier c ]> (<[ ctl en := oldCtl ]> (ctls w))))
            | None => (Some (Err ErrNotCreated), w)
            end
        | None => (Some (Ok None), install (mkEntry a cid addr false 0) (<[ a := c ]> (ctls w)))
        end
    end
  end.

(** [Add] when nothing happens between its read and its critical section. *)
Definition Add (a : nat) (w : World) : res error unit * World :=
  match ctls w !! a with
  | None => (Err ErrNotCreated, w)
  | Some c =>
      match addLocked a (ctlsByRunID w !! runID c) w with
      | (Some (Ok (Some o)), w) =>
          (Ok tt, match ctls w !! o with Some oc => putControl o (Replaced o oc) w | None => w end)
      | (Some (Ok None), w) => (Ok tt, w)
      | (Some (Err e), w) => (Err e, w)
      | (None, w) => (Err ErrManagerClosed, w)
      end
  end.

Definition loginOf (c : Control) (cid : Z) : Registry.Login :=
  let sc := sessionCtx c in
  Registry.mkLogin (User sc) (ClientID sc) (RunID sc) (Hostname sc) (Version sc) (RemoteHost sc)
    (WireProtocol sc) cid.

(** [entry.ctl == ctl && entry.id == ctl.controlID] *)
Definition owns (a : nat) (c : Control) (en : controlEntry) : bool :=
  bool_decide (ctl en = a) && (id en =? controlID c).

(** The critical section of [Activate], with the entry [e] and its gate held. *)
Definition activateBody (now : Z) (a e : nat) (w : World) : (bool * res error unit) * World :=
  match ctls w !! a, entries w !! e with
  | Some c, Some en =>
      if closed w || negb (bool_decide (ctlsByRunID w !! runID c = Some e)) || negb (owns a c en)
      then ((false, Ok tt), w)
      else if negb (bool_decide (state c = controlStatePending)) then ((false, Ok tt), w)
      else if activated c then ((true, Ok tt), w)
      else
        let '(conflict, reg) := register now (loginOf c (id en)) (registry w) in
        if conflict
        then ((true, Err ErrClientOnline),
              mkWorld (ctlsByRunID w) (entries w) reg (closed w) (nextControlID w) (ctls w) (nextEntry w))
        else
          ((true, Ok tt),
           mkWorld (ctlsByRunID w) (<[ e := mkEntry (ctl en) (id en) (runMu en) true (id en) ]> (entries w))
             reg (closed w) (nextControlID w) (<[ a := withActivated c ]> (ctls w)) (nextEntry w))
  | _, _ => ((false, Ok tt), w)
  end.

(** The critical section of [completeLogin]. *)
Definition completeLoginBody (writeOk natOk : bool) (a e : nat) (w : World) : (bool * res error unit) * World :=
  match ctls w !! a, entries w !! e with
  | Some c, Some en =>
      if negb (owns a c en) then ((false, Ok tt), w)
      else if negb (bool_decide (state c = controlStatePending)) || negb (activated c) then ((false, Ok tt), w)
      else if negb writeOk then ((false, Err ErrWrite), w)
      else let '(started, c) := startLocked natOk c in
           if started then ((true, Ok tt), putControl a c w) else ((false, Ok tt), w)
  | _, _ => ((false, Ok tt), w)
  end.

(** The critical section of [Remove]. *)
Definition removeBody (now : Z) (a e : nat) (w : World) : bool * World :=
  match ctls w !! a, entries w !! e with
  | Some c, Some en =>
      if negb (bool_decide (ctlsByRunID w !! runID c = Some e)) || negb (owns a c en) then (false, w)
      else
        let reg := if registryOnline en then markOffline now (runID c) (registryControlID en) (registry w)
                   else registry w in
        (true, mkWorld (delete (runID c) (ctlsByRunID w)) (entries w) reg (closed w) (nextControlID w)
                 (ctls w) (nextEntry w))
  | _, _ => (false, w)
  end.

(** The critical section of [GetByID]. *)
Definition getBody (e : nat) (w : World) : option nat :=
  match entries w !! e with
  | Some en => match ctls w !! ctl en with
               | Some c => if decide (state c = controlStateRunning) then Some (ctl en) else None
               | None => None
               end
  | None => None
  end.

(** The critical section of [admitVisitorByRunID]; [admitControl] is the callback. *)
Definition visitorBody {A} (admitControl : string → string → string → A) (e : nat) (w : World) : option A :=
  match getBody e w with
  | Some a => match ctls w !! a with
              | Some c => Some (admitControl (User (sessionCtx c)) (WireProtocol (sessionCtx c))
                                  (UDPPacketCodec (sessionCtx c)))
              | None => None
              end
  | None => None
  end.

(** The critical section of [RegisterWorkConn]; a send on a closed channel
    panics. *)
Definition workConnBody (a conn e : nat) (w : World) : res error unit * World :=
  match ctls w !! a, entries w !! e with
  | Some c, Some en =>
      if negb (owns a c en) then (Err ErrNotCurrent, w)
      else if negb (bool_decide (state c = controlStateRunning)) then (Err ErrNotRunning, w)
      else
        let ch := workConnCh c in
        if chClosed ch then (Err PanicSendOnClosed, w)
        else if Z.of_nat (length (buf ch)) <? cap ch
        then (Ok tt, putControl a (withChan (mkChan (buf ch ++ [conn]) (cap ch) false) c) w)
        else (Err ErrPoolFull, w)
  | _, _ => (Err ErrNotCurrent, w)
  end.

(** The operations without interference. *)
Definition Activate (now : Z) (a : nat) (w : World) : (bool * res error unit) * World :=
  match ctls w !! a ≫= λ c, lockCurrentRun (runID c) false w with
  | Some e => activateBody now a e w
  | None => ((false, Ok tt), w)
  end.

Definition completeLogin (writeOk natOk : bool) (a : nat) (w : World) : (bool * res error unit) * World :=
  match ctls w !! a ≫= λ c, lockCurrentRun (runID c) false w with
  | Some e => completeLoginBody writeOk natOk a e w
  | None => ((false, Ok tt), w)
  end.

Definition Remove (now : Z) (a : nat) (w : World) : bool * World :=
  match ctls w !! a ≫= λ c, lockCurrentRun (runID c) true w with
  | Some e => removeBody now a e w
  | None => (false, w)
  end.

Definition GetByID (run : string) (w : World) : option nat :=
  match lockCurrentRun run false w with Some e => getBody e w | None => None end.

Definition admitVisitorByRunID {A} (admitControl : string → string → string → A) (run : string) (w : World) : option A :=
  match lockCurrentRun run false w with Some e => visitorBody admitControl e w | None => None end.

Definition RegisterWorkConn (a conn : nat) (w : World) : res error unit * World :=
  match ctls w !! a with
  | None => (Err ErrNotCurrent, w)
  | Some c =>
      match lockCurrentRun (runID c) false w with
      | Some e => workConnBody a conn e w
      | None => (Err (if closed w then ErrManagerClosed else ErrNotCurrent), w)
      end
  end.

(** [ControlManager.Close]: refuse new generations, then remove and close the
    current ones. *)
Definition setClosed (w : World) : World :=
  mkWorld (ctlsByRunID w) (entries w) (registry w) true (nextControlID w) (ctls w) (nextEntry w).

Definition currentControls (w : World) : list nat :=
  omap (λ e, ctl <$> entries w !! e) (map_to_list (ctlsByRunID w)).*2.

Definition closeOne (now : Z) (w : World) (a : nat) : World :=
  let w := (Remove now a w).2 in
  match ctls w !! a with Some c => putControl a (Close c) w | None => w end.

Definition CloseManager (now : Z) (w : World) : World :=
  foldl (closeOne now) (setClosed w) (currentControls w).

End manager.
Arguments World : clear implicits.
End Control.
