(* ===== verification/Handoff.v ===== *)
(** * Interleavings of the control manager: [server/control.go], [server/service.go]

    The threads are the goroutine of each login ([handleConnection] and
    [RegisterControl]), the worker of each control, the goroutine that closes
    the manager and the requests of other connections.  An operation on the
    current generation reads the entry, waits for its gate [runMu], locks it,
    reads the entry again and runs its critical section: each of these is a
    step of its own, so that everything the source allows in between can
    happen. *)
From S2P Require Import Prelude Bytes Registry Control.
Import Control.

Module Handoff.

Inductive tid := Login (a : nat) | Worker (a : nat) | Closer (a : nat) | Client (n : nat).
#[global] Instance tid_eq_dec : EqDecision tid.
Proof. solve_decision. Defined.
#[global] Instance tid_countable : Countable tid.
Proof.
  refine (inj_countable' (λ t, match t with
    | Login a => (0%nat, a) | Worker a => (1%nat, a) | Closer a => (2%nat, a) | Client n => (3%nat, n) end)
    (λ p, match p with (0%nat, a) => Login a | (1%nat, a) => Worker a | (2%nat, a) => Closer a
                     | (_, n) => Client n end) _).
  by intros [].
Defined.

(** The operations that go through [lockCurrentRun]. *)
Inductive op :=
| OActivate (now : Z) (a : nat)
| OComplete (writeOk natOk : bool) (a : nat)
| ORemove (now : Z) (a : nat)
| OGet (run : string)
| OVisitor (run : string)
| OWorkConn (a conn : nat).

(** Where a thread is.  A login starts at [PAdd]; [PWait] is [WaitForHandoff],
    [PComplete] the write of the login response, [PRemove] and [PClose] the
    calls of [Remove] and [Close] that follow a failure; a worker is at
    [WServing] until its dispatcher is done, at [WStopped] until its proxies
    and pooled connections are closed, and at [WFinish] after [Remove]. *)
Inductive pc :=
| PAdd | PWait | PComplete | PRemove | PClose
| WServing | WStopped | WFinish
| Waiting (o : op) (gate : nat) | Locked (o : op) (gate : nat) | Holding (o : op) (gate e : nat)
| AddWaiting (old : nat) | AddLocked (old : option nat) | AddReplaced (o : nat).

Section handoff.
Context {R : Type} `{OnlineRegistry R}.

Record Sys := mkSys { world : World R; held : gmap nat tid; pcs : gmap tid pc }.

Definition opRun (o : op) (w : World R) : option string :=
  match o with
  | OActivate _ a | OComplete _ _ a | ORemove _ a | OWorkConn a _ => runID <$> ctls w !! a
  | OGet run | OVisitor run => Some run
  end.

Definition allowClosed (o : op) : bool := match o with ORemove _ _ => true | _ => false end.

(** The critical section of an operation, and whether it succeeded. *)
Definition runBody (o : op) (e : nat) (w : World R) : bool * World R :=
  match o with
  | OActivate now a =>
      let '((active, err), w) := activateBody now a e w in
      (active && match err with Ok _ => true | Err _ => false end, w)
  | OComplete writeOk natOk a => let '((committed, _), w) := completeLoginBody writeOk natOk a e w in (committed, w)
  | ORemove now a => removeBody now a e w
  | OGet _ | OVisitor _ => (true, w)
  | OWorkConn a conn => (true, (workConnBody a conn e w).2)
  end.

(** The threads after [t] has finished [o]: [completeLogin] starts the worker. *)
Definition finish (t : tid) (o : op) (ok : bool) (ps : gmap tid pc) : gmap tid pc :=
  match o with
  | OActivate _ _ => <[ t := if ok then PComplete else PRemove ]> ps
  | OComplete _ _ a => if ok then <[ Worker a := WServing ]> (delete t ps) else <[ t := PRemove ]> ps
  | ORemove _ _ => <[ t := match t with Worker _ => WFinish | _ => PClose end ]> ps
  | OGet _ | OVisitor _ | OWorkConn _ _ => delete t ps
  end.

(** [WaitForHandoff] returns: there is no barrier or it is closed. *)
Definition handoffDone (c : Control) (w : World R) : Prop :=
  ∀ d, handoffBarrier c = Some d → ∃ dc, ctls w !! d = Some dc ∧ state dc = controlStateClosed.

(** The operations a thread may start where it is. *)
Definition ready (s : Sys) (t : tid) (o : op) : Prop :=
  match t, pcs s !! t, o with
  | Login a, Some PWait, OActivate _ a' =>
      a' = a ∧ ∃ c, ctls (world s) !! a = Some c ∧ handoffDone c (world s)
  | Login a, Some PComplete, OComplete _ _ a' => a' = a
  | Login a, Some PRemove, ORemove _ a' | Worker a, Some PRemove, ORemove _ a'
  | Closer a, Some PRemove, ORemove _ a' => a' = a
  | Client _, None, (OGet _ | OVisitor _ | OWorkConn _ _) => True
  | _, _, _ => False
  end.

Definition addGate (old : option nat) (w : World R) : option nat := old ≫= λ e, runMu <$> entries w !! e.
Definition releaseAdd (old : option nat) (w : World R) (h : gmap nat tid) : gmap nat tid :=
  match addGate old w with Some g => delete g h | None => h end.

Definition afterAdd (r : option (res error (option nat))) : pc :=
  match r with
  | None => PAdd
  | Some (Ok (Some o)) => AddReplaced o
  | Some (Ok None) => PWait
  | Some (Err _) => PRemove
  end.

Inductive step (s : Sys) : Sys → Prop :=
| st_new a entropy sc c : ctls (world s) !! a = None → NewControl entropy sc = Ok c →
    step s (mkSys (putControl a c (world s)) (held s) (<[ Login a := PAdd ]> (pcs s)))
(* lockCurrentRun *)
| st_begin t o run e en : ready s t o → opRun o (world s) = Some run →
    lookupRun run (allowClosed o) (world s) = Some e → entries (world s) !! e = Some en →
    step s (mkSys (world s) (held s) (<[ t := Waiting o (runMu en) ]> (pcs s)))
| st_begin_none t o run : ready s t o → opRun o (world s) = Some run →
    lookupRun run (allowClosed o) (world s) = None →
    step s (mkSys (world s) (held s) (finish t o false (pcs s)))
| st_lock t o g : pcs s !! t = Some (Waiting o g) → held s !! g = None →
    step s (mkSys (world s) (<[ g := t ]> (held s)) (<[ t := Locked o g ]> (pcs s)))
| st_validate t o g run e : pcs s !! t = Some (Locked o g) → opRun o (world s) = Some run →
    revalidate run (allowClosed o) g (world s) = Some e →
    step s (mkSys (world s) (held s) (<[ t := Holding o g e ]> (pcs s)))
| st_invalid t o g run : pcs s !! t = Some (Locked o g) → opRun o (world s) = Some run →
    revalidate run (allowClosed o) g (world s) = None →
    step s (mkSys (world s) (delete g (held s)) (finish t o false (pcs s)))
| st_body t o g e : pcs s !! t = Some (Holding o g e) →
    step s (mkSys (runBody o e (world s)).2 (delete g (held s)) (finish t o (runBody o e (world s)).1 (pcs s)))
(* Add *)
| st_add_read a c : pcs s !! Login a = Some PAdd → ctls (world s) !! a = Some c →
    step s (mkSys (world s) (held s) (<[ Login a :=
      match ctlsByRunID (world s) !! runID c with Some e => AddWaiting e | None => AddLocked None end ]> (pcs s)))
| st_add_lock a e en : pcs s !! Login a = Some (AddWaiting e) → entries (world s) !! e = Some en →
    held s !! runMu en = None →
    step s (mkSys (world s) (<[ runMu en := Login a ]> (held s)) (<[ Login a := AddLocked (Some e) ]> (pcs s)))
| st_add_body a old : pcs s !! Login a = Some (AddLocked old) →
    step s (mkSys (addLocked a old (world s)).2 (releaseAdd old (world s) (held s))
      (<[ Login a := afterAdd (addLocked a old (world s)).1 ]> (pcs s)))
| st_add_replaced a o oc : pcs s !! Login a = Some (AddReplaced o) → ctls (world s) !! o = Some oc →
    step s (mkSys (putControl o (Replaced o oc) (world s)) (held s) (<[ Login a := PWait ]> (pcs s)))
(* Close, worker, heartbeat *)
| st_close t a c : t = Login a ∨ t = Closer a → pcs s !! t = Some PClose → ctls (world s) !! a = Some c →
    step s (mkSys (putControl a (Close c) (world s)) (held s) (delete t (pcs s)))
| st_heartbeat a c p : pcs s !! Worker a = Some p → ctls (world s) !! a = Some c →
    step s (mkSys (putControl a (Close c) (world s)) (held s) (pcs s))
| st_stop a c : pcs s !! Worker a = Some WServing → ctls (world s) !! a = Some c →
    step s (mkSys (putControl a (workerStop c) (world s)) (held s) (<[ Worker a := WStopped ]> (pcs s)))
| st_drain a c : pcs s !! Worker a = Some WStopped → ctls (world s) !! a = Some c →
    step s (mkSys (putControl a (workerDrain c) (world s)) (held s) (<[ Worker a := PRemove ]> (pcs s)))
| st_finish a c : pcs s !! Worker a = Some WFinish → ctls (world s) !! a = Some c →
    step s (mkSys (putControl a (finishLocked c) (world s)) (held s) (delete (Worker a) (pcs s)))
| st_get_conn a c sent later : ctls (world s) !! a = Some c →
    step s (mkSys (putControl a (GetWorkConn sent later c).2 (world s)) (held s) (pcs s))
(* ControlManager.Close *)
| st_close_manager : step s (mkSys (setClosed (world s)) (held s) (pcs s))
| st_closer e en : closed (world s) = true → entries (world s) !! e = Some en → pcs s !! Closer (ctl en) = None →
    step s (mkSys (world s) (held s) (<[ Closer (ctl en) := PRemove ]> (pcs s))).

Definition init (r : R) : Sys := mkSys (NewControlManager r) ∅ ∅.

(** ** Vocabulary *)

Definition cur (w : World R) (run : string) (e : nat) (en : controlEntry) : Prop :=
  ctlsByRunID w !! run = Some e ∧ entries w !! e = Some en.

Definition currentAt (w : World R) (a gate : nat) : Prop :=
  ∃ c e en, ctls w !! a = Some c ∧ cur w (runID c) e en ∧ ctl en = a ∧ runMu en = gate.

Definition current (w : World R) (a : nat) : Prop := ∃ gate, currentAt w a gate.

(** A control whose worker has not yet closed its proxies and connections. *)
Definition live (s : Sys) (a : nat) : Prop :=
  pcs s !! Worker a = Some WServing ∨ pcs s !! Worker a = Some WStopped.

(** ** The world *)

Record WInv (w : World R) : Prop := {
  wi_reg : reg_ok (registry w);
  wi_entry e en : entries w !! e = Some en →
    ∃ c, ctls w !! ctl en = Some c ∧ state c ≠ controlStateCreated ∧ id en = controlID c;
  wi_cur run e : ctlsByRunID w !! run = Some e →
    ∃ en c, entries w !! e = Some en ∧ ctls w !! ctl en = Some c ∧ runID c = run;
  wi_fresh e : (nextEntry w ≤ e)%nat → entries w !! e = None;
  wi_created a c : ctls w !! a = Some c → state c = controlStateCreated →
    activated c = false ∧ handoffBarrier c = None;
  wi_chan a c : ctls w !! a = Some c →
    Z.of_nat (length (buf (workConnCh c))) ≤ cap (workConnCh c) ∧
    (chClosed (workConnCh c) = true → state c ≠ controlStateCreated ∧ state c ≠ controlStatePending
       ∧ state c ≠ controlStateRunning);
  wi_online run x : online (registry w) run = Some x →
    ∃ e en, cur w run e en ∧ registryOnline en = true ∧ registryControlID en = x }.

(** What no operation on a control changes, but the ones of the manager. *)
Definition same (c c' : Control) : Prop :=
  sessionCtx c' = sessionCtx c ∧ controlID c' = controlID c ∧ activated c' = activated c ∧
  handoffBarrier c' = handoffBarrier c.

Definition chanOk (c : Control) : Prop :=
  Z.of_nat (length (buf (workConnCh c))) ≤ cap (workConnCh c) ∧
  (chClosed (workConnCh c) = true → state c ≠ controlStateCreated ∧ state c ≠ controlStatePending
     ∧ state c ≠ controlStateRunning).

Lemma same_run c c' : same c c' → runID c' = runID c.
Proof. intros (E & _). unfold runID. by rewrite E. Qed.

Lemma WInv_update w a c c' :
  WInv w → ctls w !! a = Some c → sessionCtx c' = sessionCtx c → controlID c' = controlID c →
  (state c' = controlStateCreated → state c = controlStateCreated) →
  (state c = controlStateCreated → activated c' = activated c ∧ handoffBarrier c' = handoffBarrier c) →
  chanOk c' → WInv (putControl a c' w).
Proof.
  intros [W1 W2 W3 W4 W5 W6 W7] Ha S1 S2 Hs S3 Hch.
  split; simpl; try done.
  - intros e en He. destruct (W2 e en He) as (d & Hd & Hc & Hi). destruct (decide (a = ctl en)) as [E|E].
    + rewrite E, lookup_insert_eq. exists c'. rewrite E in Ha. simplify_eq. split_and!; [done|by auto|congruence].
    + rewrite lookup_insert_ne by done. eauto.
  - intros run e He. destruct (W3 run e He) as (en & d & Hen & Hd & Hr). exists en.
    destruct (decide (a = ctl en)) as [E|E].
    + rewrite E, lookup_insert_eq. exists c'. rewrite E in Ha. simplify_eq. unfold runID. by rewrite S1.
    + rewrite lookup_insert_ne by done. eauto.
  - intros b d. rewrite lookup_insert_Some. intros [[<- <-]|[_ Hb]]; [|eauto].
    intros E%Hs. destruct (S3 E) as [-> ->]. eauto.
  - intros b d. rewrite lookup_insert_Some. intros [[<- <-]|[_ Hb]]; [done|eauto].
Qed.

Lemma WInv_put w a c c' :
  WInv w → ctls w !! a = Some c → same c c' →
  (state c' = controlStateCreated → state c = controlStateCreated) → chanOk c' → WInv (putControl a c' w).
Proof. intros W Ha (? & ? & ? & ?) ? ?. by apply (WInv_update w a c). Qed.

(** The operations on one control. *)
Lemma ops_same c a sent later natOk :
  same c (Close c) ∧ same c (Replaced a c) ∧ same c (workerStop c) ∧ same c (workerDrain c) ∧
  same c (finishLocked c) ∧ same c (GetWorkConn sent later c).2 ∧ same c (markReplaced a c).2 ∧
  same c (startLocked natOk c).2.
Proof.
  unfold same, Close, Replaced, workerStop, workerDrain, finishLocked, GetWorkConn, markReplaced, startLocked.
  split_and!; destruct (state c); simpl; repeat (case_match || case_decide); done.
Qed.

Lemma NewControl_fresh entropy sc c :
  NewControl entropy sc = Ok c → state c = controlStateCreated ∧ activated c = false ∧ handoffBarrier c = None ∧
  chanOk c ∧ chClosed (workConnCh c) = false.
Proof.
  unfold NewControl. intros E. go_inv E; (split_and!; [done..|split; simpl; [|done]|done]);
    unfold workConnPoolCapacityOffset; bool_to_prop; lia.
Qed.

(** ** The outcomes of [addLocked] *)

Definition admitted (cid : Z) (c : Control) : Control :=
  mkControl (sessionCtx c) (workConnCh c) (poolCount c) cid (xtcpControlID c) controlStatePending
    (activated c) (handoffBarrier c) (interrupted c).

Definition install (run : string) (en : controlEntry) (cid : Z) (cs : gmap nat Control) (w : World R) : World R :=
  mkWorld (<[ run := nextEntry w ]> (ctlsByRunID w)) (<[ nextEntry w := en ]> (entries w)) (registry w)
    (closed w) cid cs (S (nextEntry w)).

Inductive add_outcome (a : nat) (old : option nat) (w : World R) : option (res error (option nat)) * World R → Prop :=
| add_refused r n : (∀ o, r ≠ Some (Ok o)) →
    add_outcome a old w (r, mkWorld (ctlsByRunID w) (entries w) (registry w) (closed w) n (ctls w) (nextEntry w))
| add_first c cid : ctls w !! a = Some c → closed w = false → state c = controlStateCreated →
    old = None → ctlsByRunID w !! runID c = None →
    add_outcome a old w (Some (Ok None),
      install (runID c) (mkEntry a cid (nextEntry w) false 0) cid (<[ a := admitted cid c ]> (ctls w)) w)
| add_replace c cid e en oc : ctls w !! a = Some c → closed w = false → state c = controlStateCreated →
    old = Some e → ctlsByRunID w !! runID c = Some e → entries w !! e = Some en → ctls w !! ctl en = Some oc →
    add_outcome a old w (Some (Ok (Some (ctl en))),
      install (runID c) (mkEntry a cid (runMu en) (registryOnline en) (registryControlID en)) cid
        (<[ a := setHandoffBarrier (markReplaced (ctl en) oc).1 (admitted cid c) ]>
           (<[ ctl en := (markReplaced (ctl en) oc).2 ]> (ctls w))) w).

Lemma addLocked_outcome a old w : WInv w → add_outcome a old w (addLocked a old w).
Proof.
  intros W. unfold addLocked.
  assert (Hsame : ∀ r, (∀ o, r ≠ Some (Ok o)) → add_outcome a old w (r, w)).
  { intros r Hr. destruct w. by apply (add_refused _ _ (mkWorld _ _ _ _ _ _ _)). }
  destruct (ctls w !! a) as [c|] eqn:Ha; [|by apply Hsame].
  destruct (closed w) eqn:Hc; [by apply Hsame|].
  case_bool_decide as Hold; [|by apply Hsame]. cbn [negb]. unfold admitControl.
  case_decide as Hs; [|rewrite <- Hc; by apply (add_refused a old w)]. cbn [ctls entries nextEntry ctlsByRunID registry closed].
  destruct old as [e|]; cbn [mbind option_bind].
  - destruct (wi_cur _ W _ _ Hold) as (en & oc & Hen & Hoc & _). rewrite Hen, Hoc.
    pose proof (add_replace a (Some e) w c ((nextControlID w + 1) mod 2 ^ 64) e en oc Ha Hc Hs eq_refl Hold Hen Hoc) as Hr.
    unfold install in Hr. rewrite Hc in Hr. destruct (markReplaced _ _). exact Hr.
  - pose proof (add_first a None w c ((nextControlID w + 1) mod 2 ^ 64) Ha Hc Hs eq_refl Hold) as Hr.
    unfold install in Hr. rewrite Hc in Hr. exact Hr.
Qed.

Lemma markReplaced_state a c :
  state (markReplaced a c).2 = controlStateClosing ∨ state (markReplaced a c).2 = controlStateClosed.
Proof. unfold markReplaced, finishLocked. destruct (state c) eqn:E; simpl; auto. Qed.

Lemma markReplaced_chan a c : workConnCh (markReplaced a c).2 = workConnCh c.
Proof. unfold markReplaced, finishLocked. by destruct (state c). Qed.

Lemma WInv_next n w :
  WInv w → WInv (mkWorld (ctlsByRunID w) (entries w) (registry w) (closed w) n (ctls w) (nextEntry w)).
Proof. intros []. by split. Qed.

(** Install an entry for a control that is no longer in the created state. *)
Lemma WInv_install w a c run old cid en :
  WInv w → ctls w !! a = Some c → state c ≠ controlStateCreated → runID c = run → controlID c = cid →
  ctl en = a → id en = cid →
  (∀ e, ctlsByRunID w !! run = Some e → ∃ oen, entries w !! e = Some oen ∧
     registryOnline en = registryOnline oen ∧ registryControlID en = registryControlID oen) →
  WInv (install run en old (ctls w) w).
Proof.
  intros [W1 W2 W3 W4 W5 W6 W7] Ha Hs Hrun Hcid Hctl Hid Hinh. split; simpl; try done.
  - intros e en'. rewrite lookup_insert_Some. intros [[<- <-]|[_ He]]; [|eauto].
    exists c. rewrite Hctl. split_and!; [done|done|congruence].
  - intros r e. rewrite lookup_insert_Some. intros [[<- <-]|[Hne He]].
    + exists en, c. by rewrite lookup_insert_eq, Hctl.
    + destruct (W3 r e He) as (en' & c' & He' & ?). exists en', c'. rewrite lookup_insert_ne; [done|].
      intros <-. by rewrite W4 in He'.
  - intros e He. rewrite lookup_insert_ne by lia. apply W4. lia.
  - intros r x (e & en' & [Hc He] & Ho & Hx)%W7. unfold cur; simpl. destruct (decide (run = r)) as [->|Hne].
    + destruct (Hinh e Hc) as (oen & ? & ? & ?). exists (nextEntry w), en. rewrite !lookup_insert_eq.
      split_and!; [done..| |]; congruence.
    + exists e, en'. rewrite lookup_insert_ne by done. rewrite lookup_insert_ne; [done|].
      intros <-. by rewrite W4 in He.
Qed.

Lemma entry_not_created w a c e en :
  WInv w → ctls w !! a = Some c → state c = controlStateCreated → entries w !! e = Some en → ctl en ≠ a.
Proof. intros W Ha Hs He <-. destruct (wi_entry _ W _ _ He) as (? & ? & ? & _). congruence. Qed.

Lemma WInv_admit w a c c' :
  WInv w → ctls w !! a = Some c → state c = controlStateCreated → state c' = controlStatePending →
  workConnCh c' = workConnCh c → WInv (putControl a c' w).
Proof.
  intros W Ha Hs Hs' Hch. pose proof (entry_not_created w a c) as Hn.
  destruct W as [W1 W2 W3 W4 W5 W6 W7] eqn:EW. split; simpl; try done.
  - intros e en He. destruct (W2 e en He) as (d & ?). exists d. rewrite lookup_insert_ne; [done|].
    by apply not_eq_sym, (Hn e en W).
  - intros run e He. destruct (W3 run e He) as (en & d & Hen & Hd & Hr). exists en, d.
    rewrite lookup_insert_ne; [done|]. by apply not_eq_sym, (Hn e en W).
  - intros b d. rewrite lookup_insert_Some. intros [[<- <-]|[_ Hb]]; [congruence|eauto].
  - intros b d. rewrite lookup_insert_Some. intros [[<- <-]|[_ Hb]]; [|eauto]. rewrite Hch.
    destruct (W6 _ _ Ha) as [? Hcl]. split; [done|]. intros E. by destruct (Hcl E).
Qed.

Lemma chanOk_of w a c : WInv w → ctls w !! a = Some c → chanOk c.
Proof. intros W Ha. by apply (wi_chan _ W a). Qed.

Lemma WInv_replaced w e en oc :
  WInv w → entries w !! e = Some en → ctls w !! ctl en = Some oc →
  WInv (putControl (ctl en) (markReplaced (ctl en) oc).2 w).
Proof.
  intros W He Hoc. pose proof (ops_same oc (ctl en) true None true) as (_ & _ & _ & _ & _ & _ & Hs & _).
  pose proof (chanOk_of _ _ _ W Hoc) as [Hb Hcl]. pose proof (markReplaced_state (ctl en) oc) as Hst.
  destruct (wi_entry _ W _ _ He) as (c' & ? & Hn & _). simplify_eq.
  apply (WInv_put w (ctl en) oc); [done..| |].
  - intros E. rewrite E in Hst. by destruct Hst.
  - unfold chanOk. rewrite markReplaced_chan. split; [done|]. destruct Hst as [-> | ->]; done.
Qed.

Lemma WInv_addLocked a old w : WInv w → WInv (addLocked a old w).2.
Proof.
  intros W. destruct (addLocked_outcome a old w W) as
    [r n Hr|c cid Ha Hc Hs -> Hold|c cid e en oc Ha Hc Hs -> Hold Hen Hoc]; cbn [snd].
  - by apply WInv_next.
  - apply (WInv_install (putControl a (admitted cid c) w) a (admitted cid c) _ _ cid); try done.
    + by eapply WInv_admit.
    + apply lookup_insert_eq.
    + intros e. simpl. congruence.
  - set (c' := setHandoffBarrier _ _). set (w1 := putControl (ctl en) (markReplaced (ctl en) oc).2 w).
    assert (Ha1 : ctls w1 !! a = Some c).
    { simpl. rewrite lookup_insert_ne; [done|]. by eapply entry_not_created. }
    apply (WInv_install (putControl a c' w1) a c' _ _ cid); try done.
    + eapply WInv_admit; try done. by apply (WInv_replaced w e).
    + apply lookup_insert_eq.
    + intros e' He'. simpl in *. simplify_eq. eauto.
Qed.

Lemma WInv_activate now a e w : WInv w → WInv (activateBody now a e w).2.
Proof.
  intros W. unfold activateBody. destruct (ctls w !! a) as [c|] eqn:Ha, (entries w !! e) as [en|] eqn:He; try done.
  destruct (_ || _) eqn:Hg; [done|]. bool_to_prop. case_bool_decide as Hs; [|done]. cbn [negb].
  destruct (activated c); [done|]. unfold owns in *. bool_to_prop.
  pose proof (register_ok now (loginOf c (id en)) (registry w) (wi_reg _ W)) as Hok.
  pose proof (register_conflict now (loginOf c (id en)) (registry w)) as Hconf.
  pose proof (register_online now (loginOf c (id en)) (registry w) (wi_reg _ W)) as Hon.
  pose proof (register_empty now (loginOf c (id en)) (registry w) (wi_reg _ W)) as Hem.
  pose proof (λ run x, register_others now (loginOf c (id en)) (registry w) run x (wi_reg _ W)) as Hot.
  destruct (register _ _ _) as [conflict reg]; cbn [fst snd] in *. destruct conflict; cbn [snd].
  - rewrite Hconf by done. by destruct w.
  - assert (Hrun : Registry.l_runID (loginOf c (id en)) = runID c) by done. rewrite Hrun in *.
    assert (W' : WInv (putControl a (withActivated c) w)).
    { apply (WInv_update w a c); try done; [congruence|exact (chanOk_of w a c W Ha)]. }
    assert (Hcur : ∀ run e', ctlsByRunID w !! run = Some e' → e = e' → run = runID c).
    { intros run e' Hr <-. destruct (wi_cur _ W run e Hr) as (en' & d & ? & ? & <-). simplify_eq. congruence. }
    destruct W' as [W1 W2 W3 W4 W5 W6 W7]. simpl in *. split; simpl; try done.
    + intros e' en'. rewrite lookup_insert_Some. intros [[<- <-]|[_ He']]; [|eauto]. by apply (W2 e en).
    + intros run e' Hr. destruct (W3 run e' Hr) as (en' & d & He' & ?). destruct (decide (e = e')) as [<-|Hne].
      * rewrite lookup_insert_eq. simplify_eq. eexists _, d. split; [done|]. done.
      * rewrite lookup_insert_ne by done. eauto.
    + intros e' He'. rewrite lookup_insert_ne; [by apply W4|]. intros <-. by rewrite W4 in He.
    + intros run x Hx. unfold cur; simpl. destruct (decide (run = runID c)) as [->|Hne].
      * exists e. rewrite lookup_insert_eq. eexists. split_and!; [done..|]. cbn.
        destruct (decide (runID c = "")) as [E|E]; [rewrite Hem in Hx by done; done|].
        rewrite Hon in Hx by done. by injection Hx.
      * destruct (W7 run x (Hot _ _ Hne Hx)) as (e' & en' & [Hc' He'] & ?). exists e', en'. unfold cur in *; simpl in *.
        rewrite lookup_insert_ne; [done|]. intros ->. by apply Hne, (Hcur run e').
Qed.

Lemma chanOk_state c s' :
  chanOk c → (chClosed (workConnCh c) = true → s' ≠ controlStateCreated ∧ s' ≠ controlStatePending
    ∧ s' ≠ controlStateRunning) → chanOk (withState s' c).
Proof. intros [? _] ?. by split. Qed.

Lemma WInv_complete writeOk natOk a e w : WInv w → WInv (completeLoginBody writeOk natOk a e w).2.
Proof.
  intros W. unfold completeLoginBody, startLocked.
  destruct (ctls w !! a) as [c|] eqn:Ha, (entries w !! e) as [en|] eqn:He; try done.
  destruct (negb (owns a c en)); [done|]. destruct (_ || _) eqn:Hg; [done|]. bool_to_prop.
  destruct (negb writeOk); [done|]. destruct (xtcpEnabled _ && _); [done|]. cbn [snd].
  apply (WInv_put w a c); try done.
  destruct (chanOk_of w a c W Ha) as [? Hcl]. split; [done|]. intros E. destruct (Hcl E) as (? & ? & ?). done.
Qed.

Lemma WInv_remove now a e w : WInv w → WInv (removeBody now a e w).2.
Proof.
  intros W. unfold removeBody.
  destruct (ctls w !! a) as [c|] eqn:Ha, (entries w !! e) as [en|] eqn:He; try done.
  destruct (_ || _) eqn:Hg; [done|]. bool_to_prop. unfold owns in *. bool_to_prop. cbn [snd].
  destruct W as [W1 W2 W3 W4 W5 W6 W7]. split; simpl; try done.
  - destruct (registryOnline en); [by apply markOffline_ok|done].
  - intros run e' [_ ?]%lookup_delete_Some. eauto.
  - intros run x Hx.
    assert (Hne : run ≠ runID c).
    { intros ->. destruct (registryOnline en) eqn:Ho.
      - destruct (decide (online (registry w) (runID c) = Some (registryControlID en))) as [E|E].
        + by rewrite markOffline_match in Hx.
        + rewrite markOffline_mismatch in Hx by done. destruct (W7 _ _ Hx) as (e' & en' & [? ?] & ? & ?).
          by simplify_eq.
      - destruct (W7 _ _ Hx) as (e' & en' & [? ?] & ? & ?). simplify_eq. congruence. }
    assert (Hx' : online (registry w) run = Some x).
    { destruct (registryOnline en); [|done]. by rewrite markOffline_others in Hx. }
    destruct (W7 _ _ Hx') as (e' & en' & [? ?] & ?). exists e', en'. unfold cur; simpl.
    by rewrite lookup_delete_ne.
Qed.

Lemma WInv_workConn a conn e w : WInv w → WInv (workConnBody a conn e w).2.
Proof.
  intros W. unfold workConnBody.
  destruct (ctls w !! a) as [c|] eqn:Ha, (entries w !! e) as [en|] eqn:He; try done.
  destruct (negb (owns a c en)); [done|]. destruct (negb _) eqn:Hs; [done|]. bool_to_prop.
  destruct (chClosed _) eqn:Hc; [done|]. destruct (_ <? _) eqn:Hl; [|done]. bool_to_prop. cbn [snd].
  apply (WInv_put w a c); try done. split; simpl; [|done]. rewrite length_app. simpl. lia.
Qed.

Lemma WInv_body o e w : WInv w → WInv (runBody o e w).2.
Proof.
  intros W. destruct o as [now a|wo no a|now a|run|run|a conn]; cbn [runBody]; try done.
  - pose proof (WInv_activate now a e w W). by destruct (activateBody _ _ _ _) as [[] ].
  - pose proof (WInv_complete wo no a e w W). by destruct (completeLoginBody _ _ _ _ _) as [[] ].
  - by apply WInv_remove.
  - by apply WInv_workConn.
Qed.

(** The operations on a single control, in the states their threads are in. *)
Lemma WInv_close w a c : WInv w → ctls w !! a = Some c → WInv (putControl a (Close c) w).
Proof.
  intros W Ha. pose proof (ops_same c a true None true) as (S & _).
  destruct (chanOk_of w a c W Ha) as [Hb Hcl].
  apply (WInv_put w a c); try done; unfold Close, interruptReadAndClose, finishLocked.
  - destruct (state c) eqn:E; simpl; repeat case_decide; simpl; congruence.
  - destruct (state c) eqn:E; (split; [simpl; repeat case_decide; done|simpl; intros Hc; destruct (Hcl Hc) as (? & ? & ?);
      repeat case_decide; simpl; split_and!; congruence]).
Qed.

Lemma WInv_closing w a c c' :
  WInv w → ctls w !! a = Some c → same c c' → (state c' = controlStateClosing ∨ state c' = controlStateClosed) →
  Z.of_nat (length (buf (workConnCh c'))) ≤ cap (workConnCh c') → WInv (putControl a c' w).
Proof.
  intros W Ha S Hs Hb. apply (WInv_put w a c); try done; [by destruct Hs as [-> | ->]|].
  split; [done|]. intros _. by destruct Hs as [-> | ->].
Qed.

Lemma WInv_getConn w a c sent later :
  WInv w → ctls w !! a = Some c → WInv (putControl a (GetWorkConn sent later c).2 w).
Proof.
  intros W Ha. pose proof (ops_same c a sent later true) as (_ & _ & _ & _ & _ & S & _).
  pose proof (chanOk_of w a c W Ha) as Hch. apply (WInv_put w a c); try done; unfold GetWorkConn.
  - destruct (buf (workConnCh c)); [repeat case_match|]; done.
  - destruct (buf (workConnCh c)) as [|x l] eqn:E; [repeat case_match; done|].
    destruct Hch as [Hb Hcl]. rewrite E in Hb. split; simpl in *; [lia|done].
Qed.

Lemma WInv_new w a c entropy sc :
  WInv w → ctls w !! a = None → NewControl entropy sc = Ok c → WInv (putControl a c w).
Proof.
  intros [W1 W2 W3 W4 W5 W6 W7] Ha Hc. apply NewControl_fresh in Hc as (? & ? & ? & ? & ?).
  split; simpl; try done.
  - intros e en (d & Hd & ?)%W2. exists d. rewrite lookup_insert_ne; [done|congruence].
  - intros r e (en & d & ? & ? & ?)%W3. exists en, d. rewrite lookup_insert_ne; [done|congruence].
  - intros b d. rewrite lookup_insert_Some. intros [[<- <-]|[_ Hb]]; [done|eauto].
  - intros b d. rewrite lookup_insert_Some. intros [[<- <-]|[_ Hb]]; [done|eauto].
Qed.

(** ** Gates

    A thread past the second read of [lockCurrentRun] holds the gate of the
    entry it found, and that entry stays the current one. *)

Definition gateOk (w : World R) (h : gmap nat tid) (t : tid) (p : pc) : Prop :=
  match p with
  | Waiting o g => is_Some (opRun o w)
  | Locked o g => is_Some (opRun o w) ∧ h !! g = Some t
  | Holding o g e => h !! g = Some t ∧ ∃ run en, opRun o w = Some run ∧ cur w run e en ∧ runMu en = g
  | AddWaiting e => is_Some (entries w !! e)
  | AddLocked (Some e) => ∃ en, entries w !! e = Some en ∧ h !! runMu en = Some t
  | _ => True
  end.

Definition GInv (s : Sys) : Prop := ∀ t p, pcs s !! t = Some p → gateOk (world s) (held s) t p.

(** What every step does to the entries and the controls. *)
Record grows (w w' : World R) : Prop := {
  gr_entry e en : entries w !! e = Some en → ∃ en', entries w' !! e = Some en' ∧ ctl en' = ctl en ∧ runMu en' = runMu en;
  gr_ctl a c : ctls w !! a = Some c → ∃ c', ctls w' !! a = Some c' ∧ sessionCtx c' = sessionCtx c }.

Lemma grows_refl w : grows w w.
Proof. split; eauto. Qed.

Lemma grows_put w a c' :
  (∀ c, ctls w !! a = Some c → sessionCtx c' = sessionCtx c) → grows w (putControl a c' w).
Proof.
  intros Hc. split; [eauto|]. intros b d Hb. simpl. destruct (decide (a = b)) as [<-|Hne].
  - rewrite lookup_insert_eq. eauto.
  - rewrite lookup_insert_ne by done. eauto.
Qed.

Lemma opRun_grows o w w' run : grows w w' → opRun o w = Some run → opRun o w' = Some run.
Proof.
  intros G. destruct o; simpl; try done; intros E;
    destruct (ctls w !! a) as [c|] eqn:Ha; simplify_eq/=; destruct (gr_ctl _ _ G _ _ Ha) as (c' & -> & Hs);
    simpl; unfold runID; by rewrite Hs.
Qed.

(** A step of [t] keeps the other threads' gates if it leaves the gates they
    hold to them and the current entry of the runs they work on in place. *)
Lemma GInv_frame s t w' h' ps' :
  GInv s → grows (world s) w' →
  (∀ t' p, t' ≠ t → ps' !! t' = Some p → pcs s !! t' = Some p ∨ p = WServing) →
  (∀ g t', t' ≠ t → held s !! g = Some t' → h' !! g = Some t') →
  (∀ t' o g e en run, t' ≠ t → pcs s !! t' = Some (Holding o g e) → held s !! runMu en = Some t' →
     cur (world s) run e en → ctlsByRunID w' !! run = Some e) →
  (∀ p, ps' !! t = Some p → gateOk w' h' t p) →
  GInv (mkSys w' h' ps').
Proof.
  intros G Gr Hps Hh Hcur Hown t' p Hp. simpl in *. destruct (decide (t' = t)) as [->|Hne]; [auto|].
  destruct (Hps _ _ Hne Hp) as [Hp' | ->]; [|done]. specialize (G _ _ Hp').
  assert (Hop : ∀ o, is_Some (opRun o (world s)) → is_Some (opRun o w')).
  { intros o [run Hr]. exists run. by eapply opRun_grows. }
  destruct p as [ | | | | | | | |o g|o g|o g e|e|[e| ]|o]; simpl in *; try done.
  - auto.
  - destruct G. auto.
  - destruct G as (Hg & run & en & Hr & Hc & <-). split; [auto|]. destruct (gr_entry _ _ Gr e en (proj2 Hc)) as (en' & He' & _ & Hmu).
    exists run, en'. split_and!; [by eapply opRun_grows| |done]. split; [by eapply Hcur|done].
  - destruct G as [en He]. destruct (gr_entry _ _ Gr e en He) as (en' & ? & _). eauto.
  - destruct G as (en & He & Hg). destruct (gr_entry _ _ Gr e en He) as (en' & He' & _ & Hmu). exists en'.
    rewrite Hmu. auto.
Qed.

(** The common case: the map of current entries and the gates of the others
    stay, and [t] is at no gate afterwards. *)
Lemma GInv_local s t w' h' ps' :
  GInv s → grows (world s) w' → ctlsByRunID w' = ctlsByRunID (world s) →
  (∀ t' p, t' ≠ t → ps' !! t' = Some p → pcs s !! t' = Some p ∨ p = WServing) →
  (∀ g t', t' ≠ t → held s !! g = Some t' → h' !! g = Some t') →
  (∀ p, ps' !! t = Some p → gateOk w' h' t p) →
  GInv (mkSys w' h' ps').
Proof.
  intros G Gr Hm Hps Hh Hown. eapply GInv_frame; eauto. intros t' o g e en run _ _ _ [Hc _]. by rewrite Hm.
Qed.

Lemma grows_body o e w : grows w (runBody o e w).2.
Proof.
  destruct o as [now a|wo no a|now a|run|run|a conn]; cbn [runBody]; try apply grows_refl.
  - unfold activateBody. destruct (ctls w !! a) as [c|] eqn:Ha, (entries w !! e) as [en|] eqn:He; try apply grows_refl.
    destruct (_ || _); [apply grows_refl|]. destruct (negb _); [apply grows_refl|].
    destruct (activated c); [apply grows_refl|]. destruct (register _ _ _) as [[] ?]; [by split; eauto|].
    split; cbn.
    + intros e' en' He'. destruct (decide (e = e')) as [<-|Hne].
      * rewrite lookup_insert_eq. simplify_eq. eauto.
      * rewrite lookup_insert_ne by done. eauto.
    + intros b d Hb. destruct (decide (a = b)) as [<-|Hne].
      * rewrite lookup_insert_eq. simplify_eq. eauto.
      * rewrite lookup_insert_ne by done. eauto.
  - unfold completeLoginBody, startLocked.
    destruct (ctls w !! a) as [c|] eqn:Ha, (entries w !! e) as [en|] eqn:He; try apply grows_refl.
    destruct (negb (owns a c en)); [apply grows_refl|]. destruct (_ || _); [apply grows_refl|].
    destruct (negb wo); [apply grows_refl|]. destruct (xtcpEnabled _ && _); [apply grows_refl|].
    cbn. apply grows_put. intros. by simplify_eq.
  - unfold removeBody. destruct (ctls w !! a) as [c|]; [|apply grows_refl].
    destruct (entries w !! e); [|apply grows_refl]. destruct (_ || _); [apply grows_refl|]. by split; eauto.
  - unfold workConnBody. destruct (ctls w !! a) as [c|] eqn:Ha, (entries w !! e) as [en|] eqn:He; try apply grows_refl.
    repeat (case_match; try apply grows_refl). simpl. apply grows_put. intros. by simplify_eq.
Qed.

Lemma grows_add a old w : WInv w → grows w (addLocked a old w).2.
Proof.
  intros W. destruct (addLocked_outcome a old w W) as
    [r n Hr|c cid Ha Hc Hs -> Hold|c cid e en oc Ha Hc Hs -> Hold Hen Hoc]; cbn [snd]; [by split; eauto|..];
    (split; cbn; [intros e' en' He'; exists en'; rewrite lookup_insert_ne; [done|]; intros <-;
                  by rewrite (wi_fresh _ W) in He'|]).
  - intros b d Hb. destruct (decide (a = b)) as [<-|Hne].
    + rewrite lookup_insert_eq. simplify_eq. eauto.
    + rewrite lookup_insert_ne by done. eauto.
  - intros b d Hb. pose proof (ops_same oc (ctl en) true None true) as (_ & _ & _ & _ & _ & _ & (Hs' & _) & _).
    destruct (decide (a = b)) as [<-|Hne].
    + rewrite lookup_insert_eq. simplify_eq. eauto.
    + rewrite lookup_insert_ne by done. destruct (decide (ctl en = b)) as [<-|Hne'].
      * rewrite lookup_insert_eq. simplify_eq. eauto.
      * rewrite lookup_insert_ne by done. eauto.
Qed.

Lemma finish_other t o ok ps t' p :
  t' ≠ t → finish t o ok ps !! t' = Some p → ps !! t' = Some p ∨ p = WServing.
Proof.
  intros Hne. unfold finish. destruct o; repeat case_match; rewrite ?lookup_insert_Some, ?lookup_delete_ne by done; naive_solver.
Qed.

Lemma finish_own t o ok ps w h p : finish t o ok ps !! t = Some p → gateOk w h t p.
Proof.
  unfold finish. destruct o; repeat case_match; rewrite ?lookup_insert_Some, ?lookup_delete_Some; naive_solver.
Qed.

Lemma revalidate_cur run ac g w e :
  revalidate run ac g w = Some e → ∃ en, cur w run e en ∧ runMu en = g.
Proof.
  unfold revalidate, lookupRun, cur. destruct (closed w && negb ac); [done|].
  destruct (ctlsByRunID w !! run) as [e'|]; [|done]. destruct (entries w !! e') as [en|] eqn:He; [|done].
  case_decide; [|done]. intros [= <-]. eauto.
Qed.

(** The map of current entries after a critical section. *)
Lemma body_map o e w :
  ctlsByRunID (runBody o e w).2 = ctlsByRunID w ∨
  ∃ run, opRun o w = Some run ∧ ctlsByRunID w !! run = Some e ∧ ctlsByRunID (runBody o e w).2 = delete run (ctlsByRunID w).
Proof.
  destruct o as [now a|wo no a|now a|run|run|a conn]; cbn [runBody opRun]; auto.
  - left. unfold activateBody. repeat case_match; simplify_eq/=; done.
  - left. unfold completeLoginBody. repeat case_match; simplify_eq/=; done.
  - unfold removeBody. destruct (ctls w !! a) as [c|]; [|by left]. destruct (entries w !! e); [|by left].
    destruct (_ || _) eqn:Hg; [by left|]. bool_to_prop. right. exists (runID c). by rewrite H0.
  - left. unfold workConnBody. repeat case_match; simplify_eq/=; done.
Qed.

Lemma delete_others (h : gmap nat tid) g g' t t' :
  h !! g = Some t → t' ≠ t → h !! g' = Some t' → delete g h !! g' = Some t'.
Proof. intros Hg Hne Hg'. rewrite lookup_delete_ne; [done|]. intros ->. congruence. Qed.

Lemma GInv_body s t o g e :
  GInv s → pcs s !! t = Some (Holding o g e) →
  GInv (mkSys (runBody o e (world s)).2 (delete g (held s)) (finish t o (runBody o e (world s)).1 (pcs s))).
Proof.
  intros G Ht. destruct (G _ _ Ht) as (Hg & run & en & Hr & [Hc He] & Hmu).
  apply (GInv_frame s t); [done|apply grows_body|..].
  - intros t' p. by apply finish_other.
  - intros g' t' Hne Hg'. by eapply delete_others.
  - intros t' o' g' e' en' run' Hne _ Hh [Hc' He'].
    destruct (body_map o e (world s)) as [-> | (run'' & Hr'' & Hcr & ->)]; [done|]. simplify_eq.
    rewrite lookup_delete_ne; [done|]. intros ->. simplify_eq.
  - intros p. apply finish_own.
Qed.

Lemma GInv_add s a old :
  WInv (world s) → GInv s → pcs s !! Login a = Some (AddLocked old) →
  GInv (mkSys (addLocked a old (world s)).2 (releaseAdd old (world s) (held s))
      (<[ Login a := afterAdd (addLocked a old (world s)).1 ]> (pcs s))).
Proof.
  intros W G Ht. pose proof (G _ _ Ht) as Hown. apply (GInv_frame s (Login a)); [done|by apply grows_add|..].
  - intros t' p Hne. rewrite lookup_insert_ne by done. auto.
  - intros g' t' Hne Hg'. unfold releaseAdd, addGate. destruct old as [e|]; [|done].
    destruct Hown as (en & He & Hh). simpl. rewrite He. simpl. by eapply delete_others.
  - intros t' o g e en run Hne _ Hh [Hc He].
    destruct (addLocked_outcome a old (world s) W) as
      [r n Hr|c cid Ha Hcl Hs -> Hold|c cid e' en' oc Ha Hcl Hs -> Hold Hen Hoc]; cbn; [done|..];
      (rewrite lookup_insert_ne; [done|]; intros E; rewrite E in Hold).
    + congruence.
    + simplify_eq. destruct Hown as (en' & ? & ?). simplify_eq.
  - intros p. rewrite lookup_insert_eq. intros [= <-]. unfold afterAdd. by repeat case_match.
Qed.

(** ** Threads *)

Definition clientOp (o : op) : Prop := match o with OGet _ | OVisitor _ | OWorkConn _ _ => True | _ => False end.

(** What a thread knows of its control where it is. *)
Definition threadOk (w : World R) (t : tid) (p : pc) : Prop :=
  match t with
  | Client _ => match p with Waiting o _ | Locked o _ | Holding o _ _ => clientOp o | _ => False end
  | Login a => ∃ c, ctls w !! a = Some c ∧ state c ≠ controlStateRunning ∧
      match p with
      | PAdd | AddWaiting _ | AddLocked _ => state c = controlStateCreated
      | AddReplaced o => state c ≠ controlStateCreated ∧
          ∃ oc, ctls w !! o = Some oc ∧ (state oc = controlStateClosing ∨ state oc = controlStateClosed)
      | PWait => state c ≠ controlStateCreated
      | PComplete => state c ≠ controlStateCreated ∧ handoffDone c w
      | PRemove => handoffDone c w
      | PClose => ¬ current w a
      | Waiting o g | Locked o g | Holding o g _ => handoffDone c w ∧
          match o with
          | OActivate _ a' | OComplete _ _ a' => a' = a ∧ state c ≠ controlStateCreated
          | ORemove _ a' => a' = a ∧ ∀ g', currentAt w a g' → g' = g
          | _ => False
          end
      | _ => False
      end
  | Worker a => ∃ c, ctls w !! a = Some c ∧
      match p with
      | WServing => state c = controlStateRunning ∨ state c = controlStateClosing
      | WStopped | PRemove => state c = controlStateClosing
      | Waiting o g | Locked o g | Holding o g _ =>
          state c = controlStateClosing ∧ (∃ now, o = ORemove now a) ∧ ∀ g', currentAt w a g' → g' = g
      | WFinish => state c = controlStateClosing ∧ ¬ current w a
      | _ => False
      end
  | Closer a => closed w = true ∧ ∃ c, ctls w !! a = Some c ∧ state c ≠ controlStateCreated ∧
      match p with
      | PRemove => True
      | Waiting o g | Locked o g | Holding o g _ =>
          (∃ now, o = ORemove now a) ∧ ∀ g', currentAt w a g' → g' = g
      | PClose => ¬ current w a
      | _ => False
      end
  end.

(** What another thread's step may do to what [t] knows. *)
Definition stateOk (t : tid) (a : nat) (x y : controlState) : Prop :=
  (x = controlStateClosed → y = controlStateClosed) ∧
  (x = controlStateClosing → y = controlStateClosing ∨ y = controlStateClosed) ∧
  (t = Login a → (y = controlStateRunning → x = controlStateRunning) ∧
                 (y = controlStateCreated ↔ x = controlStateCreated)) ∧
  (t = Worker a → (x = controlStateClosing → y = controlStateClosing) ∧
                  (x = controlStateRunning → y = controlStateRunning ∨ y = controlStateClosing)) ∧
  (t = Closer a → y = controlStateCreated → x = controlStateCreated).

Record evolves (w w' : World R) (t : tid) : Prop := {
  ev_ctl a c : ctls w !! a = Some c → ∃ c', ctls w' !! a = Some c' ∧ stateOk t a (state c) (state c') ∧
    (t = Login a → handoffBarrier c' = handoffBarrier c);
  ev_closed : closed w = true → closed w' = true;
  ev_current a g : t = Login a ∨ t = Worker a ∨ t = Closer a → currentAt w' a g →
    currentAt w a g ∨ t ≠ Login a ∧ ∃ c, ctls w !! a = Some c ∧ state c = controlStateCreated }.

Ltac state_solver :=
  unfold stateOk; simpl; split_and!; intros; repeat split; intros; simplify_eq; try done; auto; try tauto; try congruence.

Lemma stateOk_refl t a x : stateOk t a x x.
Proof. unfold stateOk. naive_solver. Qed.

Lemma evolves_refl w t : evolves w w t.
Proof. split; auto. intros a c. exists c. auto using stateOk_refl. Qed.

Lemma handoffDone_evolves w w' t c c' :
  evolves w w' t → handoffBarrier c' = handoffBarrier c → handoffDone c w → handoffDone c' w'.
Proof.
  intros E Hb Hd d Hbd. rewrite Hb in Hbd. destruct (Hd d Hbd) as (dc & Hdc & Hs).
  destruct (ev_ctl _ _ _ E _ _ Hdc) as (dc' & ? & (Hc & _) & _). eauto.
Qed.

Lemma threadOk_evolves w w' t p : evolves w w' t → threadOk w t p → threadOk w' t p.
Proof.
  intros E. destruct t as [a|a|a|n]; simpl.
  - intros (c & Ha & Hr & Hp). destruct (ev_ctl _ _ _ E a c Ha) as (c' & Ha' & (_ & _ & Hs & _) & Hb).
    destruct (Hs eq_refl) as [Hs1 Hs2]. specialize (Hb eq_refl). exists c'. split; [done|]. split; [tauto|].
    pose proof (handoffDone_evolves _ _ _ _ _ E Hb) as Hd.
    assert (Hcur : ∀ g, currentAt w' a g → currentAt w a g).
    { intros g Hg. destruct (ev_current _ _ _ E a g) as [?|[? _]]; auto; done. }
    assert (Hop : ∀ o g, handoffDone c w ∧ match o with
          | OActivate _ a' | OComplete _ _ a' => a' = a ∧ state c ≠ controlStateCreated
          | ORemove _ a' => a' = a ∧ ∀ g', currentAt w a g' → g' = g
          | _ => False
          end → handoffDone c' w' ∧ match o with
          | OActivate _ a' | OComplete _ _ a' => a' = a ∧ state c' ≠ controlStateCreated
          | ORemove _ a' => a' = a ∧ ∀ g', currentAt w' a g' → g' = g
          | _ => False
          end).
    { intros o g [Hh Ho]. split; [auto|]. destruct o; try tauto. destruct Ho as [-> Ho]. auto. }
    destruct p; try tauto; try (by apply Hop).
    + intros [g Hg]. apply Hp. exists g. auto.
    + destruct Hp as (Hn & oc & Ho & Hos). split; [tauto|].
      destruct (ev_ctl _ _ _ E _ _ Ho) as (oc' & Ho' & (Hc1 & Hc2 & _) & _). exists oc'. naive_solver.
  - intros (c & Ha & Hp). destruct (ev_ctl _ _ _ E a c Ha) as (c' & Ha' & (_ & _ & _ & Hs & _) & _).
    destruct (Hs eq_refl) as [Hs1 Hs2]. exists c'. split; [done|].
    assert (Hcur : state c = controlStateClosing → ∀ g, currentAt w' a g → currentAt w a g).
    { intros Hc g Hg. destruct (ev_current _ _ _ E a g) as [?|(_ & c'' & ? & ?)]; [tauto|done|done|congruence]. }
    destruct p; try tauto; try (destruct Hp as (Hp & Ho & Hg); by auto).
    destruct Hp as [Hp Hn]. split; [tauto|]. intros [g Hg]. apply Hn. exists g. auto.
  - intros (Hcl & c & Ha & Hs & Hp). destruct (ev_ctl _ _ _ E a c Ha) as (c' & Ha' & (_ & _ & _ & _ & Hs') & _).
    split; [by eapply ev_closed|]. exists c'. split; [done|]. split; [by intros ?%Hs'|].
    assert (Hcur : ∀ g, currentAt w' a g → currentAt w a g).
    { intros g Hg. destruct (ev_current _ _ _ E a g) as [?|(_ & c'' & ? & ?)]; [tauto|done|done|congruence]. }
    destruct p; try done; try (destruct Hp as (Ho & Hg); by auto). intros [g Hg]. apply Hp. exists g. auto.
  - done.
Qed.

(** A change of one control. *)
Lemma current_put w a c c' b g :
  ctls w !! a = Some c → runID c' = runID c → currentAt (putControl a c' w) b g ↔ currentAt w b g.
Proof.
  intros Ha Hr. unfold currentAt, cur. simpl. split.
  - intros (d & e & en & Hd & Hc & <- & ?). destruct (decide (a = ctl en)) as [->|Hne].
    + rewrite lookup_insert_eq in Hd. simplify_eq. rewrite Hr in Hc. eauto 10.
    + rewrite lookup_insert_ne in Hd by done. eauto 10.
  - intros (d & e & en & Hd & Hc & <- & ?). destruct (decide (a = ctl en)) as [->|Hne].
    + rewrite lookup_insert_eq. simplify_eq. rewrite <- Hr in Hc. eauto 10.
    + rewrite lookup_insert_ne by done. eauto 10.
Qed.

Lemma evolves_put w a c c' t :
  ctls w !! a = Some c → same c c' → stateOk t a (state c) (state c') → evolves w (putControl a c' w) t.
Proof.
  intros Ha S Hs. split; simpl; [|done|].
  - intros b d Hb. destruct (decide (a = b)) as [<-|Hne].
    + rewrite lookup_insert_eq. simplify_eq. exists c'. split_and!; try done. intros _. apply S.
    + rewrite lookup_insert_ne by done. exists d. auto using stateOk_refl.
  - intros b g _ Hc. left. by rewrite (current_put w a c c') in Hc by (done || by apply same_run).
Qed.

Lemma stateOk_replaced t a a' c :
  state c ≠ controlStateCreated → stateOk t a (state c) (state (markReplaced a' c).2).
Proof.
  intros Hc. unfold stateOk, markReplaced, finishLocked. destruct (state c) eqn:E; state_solver.
Qed.

Lemma stateOk_close t a c :
  state c ≠ controlStateCreated ∨ t ≠ Login a → stateOk t a (state c) (state (Close c)).
Proof.
  intros Hc. unfold stateOk, Close, finishLocked, interruptReadAndClose. destruct (state c) eqn:E; state_solver.
Qed.

(** Entries of [run] in the world after [install]. *)
Lemma current_install w run en n cs b c g :
  WInv w → cs !! b = Some c → currentAt (install run en n cs w) b g →
  runID c = run ∧ ctl en = b ∨ runID c ≠ run ∧ ∃ e en', cur w (runID c) e en' ∧ ctl en' = b ∧ runMu en' = g.
Proof.
  intros W Hb (c' & e & en' & Hb' & [Hc He] & Hctl & Hmu). simpl in *. assert (c' = c) as -> by congruence.
  destruct (decide (runID c = run)) as [<-|Hne].
  - rewrite lookup_insert_eq in Hc. simplify_eq. rewrite lookup_insert_eq in He. simplify_eq. auto.
  - rewrite lookup_insert_ne in Hc by done. right. split; [done|]. exists e, en'.
    rewrite lookup_insert_ne in He; [done|]. intros <-.
    destruct (wi_cur _ W _ _ Hc) as (? & ? & Hx & _). by rewrite (wi_fresh _ W) in Hx.
Qed.

Lemma evolves_add a old w t : WInv w → t ≠ Login a → evolves w (addLocked a old w).2 t.
Proof.
  intros W Ht. destruct (addLocked_outcome a old w W) as
    [r n Hr|c cid Ha Hcl Hs -> Hold|c cid e en oc Ha Hcl Hs -> Hold Hen Hoc]; cbn [snd].
  - pose proof (evolves_refl w t) as E. destruct E as [E1 E2 E3]. split; [done|done|]. intros b g Hb Hc. by apply (E3 b).
  - split; simpl; [|done|].
    + intros b d Hb. destruct (decide (a = b)) as [<-|Hne].
      * rewrite lookup_insert_eq. simplify_eq. eexists. split_and!; [done| |done].
        rewrite Hs. state_solver.
      * rewrite lookup_insert_ne by done. exists d. auto using stateOk_refl.
    + intros b g Hb Hc. destruct (decide (a = b)) as [<-|Hne]; [right; eauto|].
      pose proof Hc as (d & ? & ? & Hd & _). simpl in Hd. apply (current_install _ _ _ _ _ b d g W Hd) in Hc.
      rewrite lookup_insert_ne in Hd by done. destruct Hc as [[_ ?]|(_ & e & en & ? & ? & ?)]; [done|]. left.
      exists d, e, en. done.
  - destruct (wi_entry _ W _ _ Hen) as (oc' & Hoc2 & Hoc' & _).
    assert (oc' = oc) as -> by congruence. clear Hoc2.
    pose proof (entry_not_created w a c e en W Ha Hs Hen) as Hne0.
    pose proof (ops_same oc (ctl en) true None true) as (_ & _ & _ & _ & _ & _ & (S1 & _ & _ & S4) & _).
    split; simpl; [|done|].
    + intros b d Hb. destruct (decide (a = b)) as [<-|Hne].
      * rewrite lookup_insert_eq. simplify_eq. eexists. split_and!; [done| |done].
        rewrite Hs. state_solver.
      * rewrite lookup_insert_ne by done. destruct (decide (ctl en = b)) as [<-|Hne'].
        -- rewrite lookup_insert_eq. simplify_eq. eexists. split_and!; [done|by apply stateOk_replaced|done].
        -- rewrite lookup_insert_ne by done. exists d. auto using stateOk_refl.
    + intros b g Hb Hc. destruct (decide (a = b)) as [<-|Hne]; [right; eauto|].
      pose proof Hc as (d & ? & ? & Hd & _). simpl in Hd. apply (current_install _ _ _ _ _ b d g W Hd) in Hc.
      rewrite lookup_insert_ne in Hd by done. destruct Hc as [[_ ?]|(_ & e' & en' & ? & ? & ?)]; [done|]. left.
      destruct (decide (ctl en = b)) as [<-|Hne'].
      * rewrite lookup_insert_eq in Hd. simplify_eq. exists oc, e', en'. unfold runID in *. by rewrite S1 in *.
      * rewrite lookup_insert_ne in Hd by done. exists d, e', en'. done.
Qed.

Lemma evolves_activate now a e w t : evolves w (activateBody now a e w).2 t.
Proof.
  unfold activateBody. destruct (ctls w !! a) as [c|] eqn:Ha, (entries w !! e) as [en|] eqn:He; try apply evolves_refl.
  destruct (_ || _); [apply evolves_refl|]. destruct (negb _); [apply evolves_refl|].
  destruct (activated c); [apply evolves_refl|]. destruct (register _ _ _) as [[] reg]; cbn [snd].
  - destruct (evolves_refl w t) as [E1 E2 E3]. split; [done|done|]. intros b g Hb Hc. by apply (E3 b).
  - split; simpl; [|done|].
    + intros b d Hb. destruct (decide (a = b)) as [<-|Hne].
      * rewrite lookup_insert_eq. simplify_eq. eexists. split_and!; [done|apply stateOk_refl|done].
      * rewrite lookup_insert_ne by done. exists d. auto using stateOk_refl.
    + intros b g _ (d & e' & en' & Hd & [Hc He'] & Hb & Hmu). left. simpl in *.
      assert (∃ en0, entries w !! e' = Some en0 ∧ ctl en0 = b ∧ runMu en0 = g) as (en0 & ? & ? & ?).
      { rewrite lookup_insert_Some in He'. destruct He' as [[<- <-]|[_ ?]]; eauto. }
      rewrite lookup_insert_Some in Hd. destruct Hd as [[<- <-]|[_ Hd]]; [exists c|exists d]; exists e', en0; done.
Qed.

Lemma evolves_remove now a e w t : evolves w (removeBody now a e w).2 t.
Proof.
  unfold removeBody. destruct (ctls w !! a) as [c|] eqn:Ha, (entries w !! e) as [en|] eqn:He; try apply evolves_refl.
  destruct (_ || _); [apply evolves_refl|]. cbn [snd]. split; simpl; [|done|].
  - intros b d Hb. exists d. auto using stateOk_refl.
  - intros b g _ (d & e' & en' & Hd & [Hc He'] & Hb). left. simpl in *. apply lookup_delete_Some in Hc as [_ Hc].
    exists d, e', en'. done.
Qed.

Lemma evolves_complete writeOk natOk a e w t :
  t ≠ Login a → evolves w (completeLoginBody writeOk natOk a e w).2 t.
Proof.
  intros Ht. unfold completeLoginBody, startLocked.
  destruct (ctls w !! a) as [c|] eqn:Ha, (entries w !! e) as [en|] eqn:He; try apply evolves_refl.
  destruct (negb (owns a c en)); [apply evolves_refl|]. destruct (_ || _) eqn:Hg; [apply evolves_refl|]. bool_to_prop.
  destruct (negb writeOk); [apply evolves_refl|]. destruct (xtcpEnabled _ && _); [apply evolves_refl|]. cbn [snd].
  apply (evolves_put w a c); [done|done|]. simpl. rewrite H0. state_solver.
Qed.

Lemma evolves_workConn a conn e w t : evolves w (workConnBody a conn e w).2 t.
Proof.
  unfold workConnBody. destruct (ctls w !! a) as [c|] eqn:Ha, (entries w !! e) as [en|] eqn:He; try apply evolves_refl.
  repeat (case_match; try apply evolves_refl). apply (evolves_put w a c); [done|done|apply stateOk_refl].
Qed.

Lemma evolves_body o e w t :
  (∀ wo no a, o = OComplete wo no a → t ≠ Login a) → evolves w (runBody o e w).2 t.
Proof.
  intros Ht. destruct o as [now a|wo no a|now a|run|run|a conn]; cbn [runBody]; try apply evolves_refl.
  - pose proof (evolves_activate now a e w t). by destruct (activateBody _ _ _ _) as [[] ].
  - pose proof (evolves_complete wo no a e w t (Ht wo no a eq_refl)). by destruct (completeLoginBody _ _ _ _ _) as [[] ].
  - apply evolves_remove.
  - apply evolves_workConn.
Qed.

Definition PInv (s : Sys) : Prop := ∀ t p, pcs s !! t = Some p → threadOk (world s) t p.

Lemma PInv_frame s t w' h' ps' :
  PInv s → (∀ t', t' ≠ t → evolves (world s) w' t') →
  (∀ t' p, t' ≠ t → ps' !! t' = Some p → pcs s !! t' = Some p ∨ threadOk w' t' p) →
  (∀ p, ps' !! t = Some p → threadOk w' t p) → PInv (mkSys w' h' ps').
Proof.
  intros P E Hps Hown t' p Hp. simpl in *. destruct (decide (t' = t)) as [->|Hne]; [auto|].
  destruct (Hps t' p Hne Hp) as [Hp'|?]; [|done]. eapply threadOk_evolves; eauto.
Qed.

(** Steps that only move [t] or end it. *)
Lemma PInv_move s t w' h' p :
  PInv s → (∀ t', t' ≠ t → evolves (world s) w' t') → threadOk w' t p → PInv (mkSys w' h' (<[ t := p ]> (pcs s))).
Proof.
  intros P E Hp. apply (PInv_frame s t); [done|done|..].
  - intros t' p' Hne. rewrite lookup_insert_ne by done. auto.
  - intros p'. rewrite lookup_insert_eq. by intros [= <-].
Qed.

Lemma PInv_end s t w' h' :
  PInv s → (∀ t', t' ≠ t → evolves (world s) w' t') → PInv (mkSys w' h' (delete t (pcs s))).
Proof.
  intros P E. apply (PInv_frame s t); [done|done|..].
  - intros t' p' Hne. rewrite lookup_delete_ne by done. auto.
  - intros p'. by rewrite lookup_delete_eq.
Qed.

(** What [t] knows while it works on [o], and after [o] has ended without
    finding the entry of its control. *)
Definition removedOk (w : World R) (o : op) : Prop := match o with ORemove _ a => ¬ current w a | _ => True end.

Lemma threadOk_failed w t o g :
  threadOk w t (Waiting o g) → removedOk w o →
  match o with
  | OGet _ | OVisitor _ | OWorkConn _ _ => True
  | ORemove _ _ => threadOk w t (match t with Worker _ => WFinish | _ => PClose end)
  | _ => threadOk w t PRemove
  end.
Proof.
  destruct t as [a|a|a|n]; simpl.
  - intros (c & Ha & Hr & Hd & Ho) Hrem. destruct o; try done; eauto 10.
    destruct Ho as [-> _]. eauto.
  - intros (c & Ha & Hs & (now & ->) & _) Hrem. simpl in *. eauto 10.
  - intros (Hc & c & Ha & Hs & (now & ->) & _) Hrem. simpl in *. split; eauto 10.
  - by destruct o.
Qed.

Lemma PInv_failed s t o g h' :
  PInv s → threadOk (world s) t (Waiting o g) → removedOk (world s) o →
  PInv (mkSys (world s) h' (finish t o false (pcs s))).
Proof.
  intros P Ht Hrem. pose proof (threadOk_failed _ _ _ _ Ht Hrem) as Hf.
  destruct o; simpl; try (apply PInv_move; [done|intros; apply evolves_refl|done]);
    apply PInv_end; try done; intros; apply evolves_refl.
Qed.

(** [Locked] and [Holding] know what [Waiting] knows. *)
Lemma threadOk_locked w t o g e :
  (threadOk w t (Locked o g) ↔ threadOk w t (Waiting o g)) ∧ (threadOk w t (Holding o g e) ↔ threadOk w t (Waiting o g)).
Proof. by destruct t. Qed.

Lemma ready_waiting s t o g :
  PInv s → ready s t o → (∀ now a g', o = ORemove now a → currentAt (world s) a g' → g' = g) →
  threadOk (world s) t (Waiting o g).
Proof.
  intros P Hrd Hat. unfold ready in Hrd.
  destruct t as [a|a|a|n]; destruct (pcs s !! _) as [p|] eqn:Hp; try done; destruct o; try done;
    try (destruct p; try done); pose proof (P _ _ Hp) as Ht || idtac; simpl in *; try done.
  - destruct Ht as (c & Ha & Hrn & Hs). destruct Hrd as (-> & c' & ? & Hd). simplify_eq. eauto 10.
  - destruct Ht as (c & Ha & Hrn & Hs & Hd). subst. eauto 10.
  - destruct Ht as (c & Ha & Hrn & Hd). subst. exists c. eauto 10.
  - destruct Ht as (c & Ha & Hs). subst. exists c. eauto 10.
  - destruct Ht as (Hc & c & Ha & Hs & _). subst. split; [done|]. exists c. eauto 10.
Qed.

Lemma lookup_at w run e en now a g :
  opRun (ORemove now a) w = Some run → lookupRun run true w = Some e → entries w !! e = Some en →
  currentAt w a g → g = runMu en.
Proof.
  intros Hr Hl He (c & e' & en' & Ha & [Hc He'] & _ & <-). simpl in *. rewrite Ha in Hr. simplify_eq/=.
  unfold lookupRun in Hl. rewrite andb_false_r in Hl. congruence.
Qed.

Lemma lookup_none w run now a : opRun (ORemove now a) w = Some run → lookupRun run true w = None → ¬ current w a.
Proof.
  intros Hr Hl (g & c & e & en & Ha & [Hc He] & _). simpl in *. rewrite Ha in Hr. simplify_eq/=.
  unfold lookupRun in Hl. rewrite andb_false_r in Hl. congruence.
Qed.

Lemma revalidate_none w run now a g :
  opRun (ORemove now a) w = Some run → revalidate run true g w = None → (∀ g', currentAt w a g' → g' = g) → ¬ current w a.
Proof.
  intros Hr Hl Hg (g' & Hat). pose proof (Hg _ Hat) as ->. destruct Hat as (c & e & en & Ha & [Hc He] & _ & Hmu).
  simpl in *. rewrite Ha in Hr. simplify_eq/=. revert Hl. unfold revalidate, lookupRun. rewrite andb_false_r.
  rewrite Hc, He, decide_True by done. done.
Qed.

(** After [removeBody] with the gate held the control is not the current one. *)
Lemma removeBody_gone now a e w run en :
  WInv w → opRun (ORemove now a) w = Some run → cur w run e en → ¬ current (removeBody now a e w).2 a.
Proof.
  intros W Hr [Hc He] (g & c & e' & en' & Ha & [Hc' He'] & Hctl & _). revert Ha Hc' He'. unfold removeBody.
  simpl in Hr. destruct (ctls w !! a) as [d|] eqn:Hd; [|done]. simplify_eq/=. rewrite He, Hc.
  rewrite bool_decide_eq_true_2 by done. cbn [negb orb]. unfold owns. destruct (bool_decide _) eqn:Hb; bool_to_prop.
  - destruct (wi_entry _ W _ _ He) as (d' & Hd' & _ & Hid).
    assert (d' = d) as -> by congruence. rewrite Hid, Z.eqb_refl. cbn. intros Hd2.
    assert (c = d) as -> by congruence. by rewrite lookup_delete_eq.
  - cbn. intros ? ? ?. simplify_eq.
Qed.

Definition NLW (s : Sys) : Prop := ∀ a p, pcs s !! Login a = Some p → pcs s !! Worker a = None.

(** The controls after [completeLoginBody]. *)
Lemma complete_committed wo no a e (w : World R) :
  (completeLoginBody wo no a e w).1.1 = true →
  ∃ c en, ctls w !! a = Some c ∧ entries w !! e = Some en ∧ ctl en = a ∧ state c = controlStatePending ∧
    activated c = true ∧ (completeLoginBody wo no a e w).2 = putControl a (withState controlStateRunning c) w.
Proof.
  unfold completeLoginBody, startLocked. destruct (ctls w !! a) as [c|], (entries w !! e) as [en|]; try done.
  unfold owns. destruct (negb (_ && _)) eqn:Ho; [done|]. destruct (_ || _) eqn:Hg; [done|]. bool_to_prop.
  destruct (negb wo); [done|]. destruct (xtcpEnabled _ && _); [done|]. intros _. exists c, en. done.
Qed.

Lemma complete_refused wo no a e (w : World R) :
  (completeLoginBody wo no a e w).1.1 = false → (completeLoginBody wo no a e w).2 = w.
Proof.
  unfold completeLoginBody, startLocked. destruct (ctls w !! a) as [c|], (entries w !! e) as [en|]; try done.
  destruct (negb (owns a c en)); [done|]. destruct (_ || _); [done|].
  destruct (negb wo); [done|]. destruct (xtcpEnabled _ && _); done.
Qed.

Lemma complete_thread w t wo no a g e : threadOk w t (Holding (OComplete wo no a) g e) → t = Login a.
Proof.
  destruct t; simpl.
  - by intros (? & _ & _ & _ & -> & _).
  - by intros (? & _ & _ & (? & ?) & _).
  - by intros (_ & ? & _ & _ & (? & ?) & _).
  - done.
Qed.

Lemma PInv_body s t o g e :
  WInv (world s) → GInv s → PInv s → pcs s !! t = Some (Holding o g e) →
  PInv (mkSys (runBody o e (world s)).2 (delete g (held s)) (finish t o (runBody o e (world s)).1 (pcs s))).
Proof.
  intros W G P Ht. pose proof (P _ _ Ht) as Hok. destruct (G _ _ Ht) as (_ & run & en & Hr & Hcur & _).
  assert (Hown : ∀ wo no a, o = OComplete wo no a → t = Login a).
  { intros wo no a ->. by apply (complete_thread (world s) t wo no a g e). }
  assert (Hev : ∀ t', t' ≠ t → evolves (world s) (runBody o e (world s)).2 t').
  { intros t' Hne. apply evolves_body. intros wo no a ->. by rewrite <- (Hown wo no a). }
  destruct o as [now a|wo no a|now a|run'|run'|a conn]; try (by apply PInv_end).
  - assert (Hok' : threadOk (runBody (OActivate now a) e (world s)).2 t (Holding (OActivate now a) g e)).
    { eapply threadOk_evolves; [|done]. by apply evolves_body. }
    apply PInv_move; [done|done|]. destruct t; cbn [threadOk] in Hok';
      [|by destruct Hok' as (? & _ & _ & (? & ?) & _)|by destruct Hok' as (_ & ? & _ & _ & (? & ?) & _)|done].
    destruct Hok' as (c & ? & ? & ? & -> & ?). cbn [threadOk]. exists c. split; [done|]. split; [done|].
    by destruct (fst _).
  - specialize (Hown wo no a eq_refl) as ->. cbn [runBody finish] in *.
    pose proof (complete_committed wo no a e (world s)) as Hcom. pose proof (complete_refused wo no a e (world s)) as Href.
    destruct (completeLoginBody wo no a e (world s)) as [[committed err] w']. cbn [fst snd] in *.
    destruct committed.
    + destruct (Hcom eq_refl) as (c & en' & Ha & _ & _ & _ & _ & ->). apply (PInv_frame s (Login a)); [done|done|..].
      * intros t' p Hne. rewrite lookup_insert_Some, lookup_delete_ne by done. intros [[<- <-]|[_ ?]]; [|auto].
        right. simpl. rewrite lookup_insert_eq. simpl. eauto.
      * intros p. rewrite lookup_insert_ne, lookup_delete_eq by done. done.
    + rewrite Href in * by done. apply PInv_move; [done|done|]. simpl in *. destruct Hok as (c & ? & ? & ? & _). eauto.
  - apply PInv_move; [done|done|]. cbn [runBody] in *.
    pose proof (removeBody_gone now a e (world s) run en W Hr Hcur) as Hgone.
    assert (Hok' : threadOk (removeBody now a e (world s)).2 t (Waiting (ORemove now a) g)).
    { eapply threadOk_evolves; [apply evolves_remove|]. by apply (threadOk_locked _ _ _ _ e) in Hok. }
    by apply threadOk_failed in Hok'.
Qed.

Lemma PInv_add s a old :
  WInv (world s) → PInv s → pcs s !! Login a = Some (AddLocked old) →
  PInv (mkSys (addLocked a old (world s)).2 (releaseAdd old (world s) (held s))
      (<[ Login a := afterAdd (addLocked a old (world s)).1 ]> (pcs s))).
Proof.
  intros W P Ht. destruct (P _ _ Ht) as (c & Ha & Hr & Hs).
  apply PInv_move; [done|intros t' Hne; by apply evolves_add|].
  destruct (addLocked_outcome a old (world s) W) as
    [r n Href|c' cid Ha' Hcl Hs' -> Hold|c' cid e en oc Ha' Hcl Hs' -> Hold Hen Hoc]; cbn [fst snd].
  - destruct (wi_created _ W _ _ Ha Hs) as [_ Hb].
    assert (Hd : handoffDone c (world s)) by (intros d; by rewrite Hb).
    unfold afterAdd. destruct r as [[[o|]|err]|]; try (by destruct (Href _ eq_refl)); simpl; eauto 10.
  - simpl. rewrite lookup_insert_eq. eexists. split; [done|]. done.
  - simpl. rewrite lookup_insert_eq. eexists. split; [done|]. split; [done|]. split; [done|].
    rewrite lookup_insert_ne by by apply not_eq_sym, (entry_not_created (world s) a c e en).
    rewrite lookup_insert_eq. eexists. split; [done|]. apply markReplaced_state.
Qed.

(** ** Generations

    A control whose worker still has to close its proxies is the current one,
    or the barrier of a current one that waits for it. *)

Record LInv (s : Sys) : Prop := {
  li_running a c : ctls (world s) !! a = Some c → state c = controlStateRunning →
    pcs s !! Worker a = Some WServing;
  li_live a c : live s a → ctls (world s) !! a = Some c →
    closed (world s) = true ∧ ctlsByRunID (world s) !! runID c = None ∨
    ∃ e en, cur (world s) (runID c) e en ∧
      (ctl en = a ∨ state c ≠ controlStateRunning ∧ ∃ c', ctls (world s) !! ctl en = Some c' ∧
         state c' = controlStatePending ∧ activated c' = false ∧ handoffBarrier c' = Some a);
  li_unique a b c d : live s a → live s b → ctls (world s) !! a = Some c → ctls (world s) !! b = Some d →
    runID c = runID d → a = b }.

Definition sameLive (ps ps' : gmap tid pc) : Prop :=
  ∀ a, (ps' !! Worker a = Some WServing ↔ ps !! Worker a = Some WServing) ∧
       (ps' !! Worker a = Some WStopped ↔ ps !! Worker a = Some WStopped).

Lemma LInv_same s h' ps' : LInv s → sameLive (pcs s) ps' → LInv (mkSys (world s) h' ps').
Proof.
  intros [L1 L2 L3] Hl. unfold live in *. split; unfold live; simpl.
  - intros a c Ha Hs. apply Hl. eauto.
  - intros a c. destruct (Hl a) as [-> ->]. eauto.
  - intros a b c d. destruct (Hl a) as [-> ->]. destruct (Hl b) as [-> ->]. eauto.
Qed.

(** A change of one control that does not make it run. *)
Lemma LInv_put s a c c' h' ps' :
  WInv (world s) → LInv s → ctls (world s) !! a = Some c → same c c' →
  (∀ b, b ≠ a → ps' !! Worker b = pcs s !! Worker b) → (live (mkSys (world s) h' ps') a → live s a) →
  (state c' = controlStateRunning → state c = controlStateRunning ∧ ps' !! Worker a = Some WServing) →
  (state c = controlStatePending → state c' = controlStatePending ∨ ¬ current (world s) a) →
  LInv (mkSys (putControl a c' (world s)) h' ps').
Proof.
  intros W [L1 L2 L3] Ha S Hps Hla Hrun Hpend. pose proof (same_run _ _ S) as Hr.
  assert (Hl : ∀ b, live (mkSys (putControl a c' (world s)) h' ps') b → live s b).
  { intros b. destruct (decide (b = a)) as [->|Hne]; [done|]. unfold live; simpl. by rewrite Hps. }
  assert (Hc : ∀ b d', <[ a := c' ]> (ctls (world s)) !! b = Some d' → ∃ d, ctls (world s) !! b = Some d ∧
     runID d' = runID d ∧ (state d' = controlStateRunning → state d = controlStateRunning)).
  { intros b d'. rewrite lookup_insert_Some. intros [[<- <-]|[_ Hb]]; [|eauto]. exists c. naive_solver. }
  split; simpl.
  - intros b d'. rewrite lookup_insert_Some. intros [[<- <-]|[Hne Hb]] Hs; [by apply Hrun|].
    rewrite Hps by done. eauto.
  - intros b d' Hlb Hb. destruct (Hc b d' Hb) as (d & Hd & Hrd & Hsd). rewrite Hrd.
    destruct (L2 b d (Hl b Hlb) Hd) as [?|(e & en & Hcur & Hw)]; [by left|]. right. exists e, en. split; [done|].
    destruct Hw as [?|(Hsn & c1 & Hc1 & Hp1 & Ha1 & Hb1)]; [by left|]. right. split; [tauto|].
    destruct (decide (a = ctl en)) as [E|E].
    + exists c'. rewrite E, lookup_insert_eq. destruct S as (_ & _ & Sa & Sb). rewrite <- E in Hc1.
      assert (c1 = c) as -> by congruence. rewrite Sa, Sb. split_and!; try done.
      destruct (Hpend Hp1) as [?|Hn]; [done|]. destruct Hn. exists (runMu en). exists c, e, en. split_and!; try done.
      destruct Hcur as [Hcu Hen]. split; [|done].
      destruct (wi_cur _ W _ _ Hcu) as (en' & c2 & ? & ? & Hrc).
      assert (runID c = runID d) as -> by congruence. done.
    + exists c1. by rewrite lookup_insert_ne.
  - intros b1 b2 d1 d2 H1 H2 Hb1 Hb2 E. destruct (Hc _ _ Hb1) as (? & ? & E1 & _). destruct (Hc _ _ Hb2) as (? & ? & E2 & _).
    eapply L3; eauto. congruence.
Qed.

Lemma sameLive_refl ps : sameLive ps ps.
Proof. by intros a. Qed.

(** A thread that moves between positions that are not live. *)
Lemma sameLive_move ps t p :
  (∀ a, t = Worker a → ps !! t ≠ Some WServing ∧ ps !! t ≠ Some WStopped ∧ p ≠ WServing ∧ p ≠ WStopped) →
  sameLive ps (<[ t := p ]> ps).
Proof.
  intros Ht a. destruct (decide (t = Worker a)) as [E|E].
  - destruct (Ht a E) as (? & ? & ? & ?). subst t. rewrite lookup_insert_eq. split; split; congruence.
  - by rewrite lookup_insert_ne.
Qed.

Lemma sameLive_end ps t :
  (∀ a, t = Worker a → ps !! t ≠ Some WServing ∧ ps !! t ≠ Some WStopped) → sameLive ps (delete t ps).
Proof.
  intros Ht a. destruct (decide (t = Worker a)) as [E|E].
  - destruct (Ht a E) as (? & ?). subst t. rewrite lookup_delete_eq. split; split; congruence.
  - by rewrite lookup_delete_ne.
Qed.

Lemma sameLive_finish ps t o ok :
  (∀ wo no a, o = OComplete wo no a → ok = false) →
  (∀ a, t = Worker a → ps !! t ≠ Some WServing ∧ ps !! t ≠ Some WStopped) → sameLive ps (finish t o ok ps).
Proof.
  intros Ho Ht. destruct o; simpl; try (by apply sameLive_end).
  - apply sameLive_move. intros a' E. destruct (Ht a' E). split_and!; try done; by destruct ok.
  - rewrite (Ho _ _ _ eq_refl). apply sameLive_move. intros a' E. destruct (Ht a' E). done.
  - apply sameLive_move. intros a' E. destruct (Ht a' E). subst t. done.
Qed.

Lemma live_state s a : PInv s → live s a → ∃ c, ctls (world s) !! a = Some c ∧
  (state c = controlStateRunning ∨ state c = controlStateClosing).
Proof. intros P [Hl|Hl]; apply P in Hl as (c & ? & ?); eauto. Qed.

(** A new generation starts to run only when no older one is live. *)
Lemma LInv_complete s a c e en h' :
  WInv (world s) → PInv s → LInv s → pcs s !! Worker a = None → ctls (world s) !! a = Some c →
  cur (world s) (runID c) e en → ctl en = a → state c = controlStatePending → activated c = true →
  LInv (mkSys (putControl a (withState controlStateRunning c) (world s)) h'
    (<[ Worker a := WServing ]> (delete (Login a) (pcs s)))).
Proof.
  intros W P [L1 L2 L3] Hw Ha [Hc He] Hctl Hp Hact. set (s' := mkSys _ _ _).
  assert (Hl : ∀ b, live s' b → b = a ∨ b ≠ a ∧ live s b).
  { intros b. unfold live, s'; simpl. destruct (decide (b = a)) as [->|Hne]; [by left|]. right. split; [done|].
    revert H0. rewrite !lookup_insert_ne, !lookup_delete_ne by congruence. done. }
  assert (Hno : ∀ b d, live s b → ctls (world s) !! b = Some d → runID d ≠ runID c).
  { intros b d Hlb Hb E. destruct (live_state s b P Hlb) as (d' & Hd' & Hs).
    destruct (L2 b d Hlb Hb) as [[_ Hn]|(e' & en' & [Hc' He'] & Hor)]; rewrite E in *; [congruence|].
    simplify_eq. destruct Hor as [?|(_ & c' & ? & _ & ? & _)]; [|congruence]. simplify_eq. rewrite Hp in Hs. by destruct Hs. }
  assert (Hcs : ∀ b d', ctls (world s') !! b = Some d' → b ≠ a → ctls (world s) !! b = Some d').
  { intros b d'. unfold s'; simpl. intros Hb Hne. by rewrite lookup_insert_ne in Hb. }
  assert (Hra : ∀ d', ctls (world s') !! a = Some d' → runID d' = runID c).
  { intros d'. unfold s'; simpl. rewrite lookup_insert_eq. by intros [= <-]. }
  split.
  - intros b d'. unfold s'; simpl. rewrite lookup_insert_Some. intros [[<- <-]|[Hne Hb]] Hs.
    + by rewrite lookup_insert_eq.
    + rewrite lookup_insert_ne, lookup_delete_ne by congruence. eauto.
  - intros b d' [->|[Hne Hlb]]%Hl Hb.
    + rewrite (Hra _ Hb). right. exists e, en. split; [done|]. by left.
    + pose proof (Hcs _ _ Hb Hne) as Hb'. destruct (L2 b d' Hlb Hb') as [?|(e' & en' & Hcur & Hor)]; [by left|].
      right. exists e', en'. split; [done|]. destruct Hor as [?|(Hs & c' & Hc' & Hr)]; [by left|]. right. split; [done|].
      exists c'. unfold s'; simpl. rewrite lookup_insert_ne; [done|]. intros E. subst.
      apply (Hno _ _ Hlb Hb'). destruct (wi_cur _ W _ _ (proj1 Hcur)) as (en2 & c2 & Hen2 & Hc2 & <-).
      destruct Hcur as [_ ?]. simplify_eq. congruence.
  - intros b1 b2 d1 d2 [->|[Hn1 Hl1]]%Hl [->|[Hn2 Hl2]]%Hl H1 H2 E; try done.
    + destruct (Hno _ _ Hl2 (Hcs _ _ H2 Hn2)). by rewrite <- E, (Hra _ H1).
    + destruct (Hno _ _ Hl1 (Hcs _ _ H1 Hn1)). by rewrite E, (Hra _ H2).
    + eauto.
Qed.

Lemma LInv_activate s now a e h' ps' :
  WInv (world s) → PInv s → LInv s → sameLive (pcs s) ps' →
  (∃ c, ctls (world s) !! a = Some c ∧ handoffDone c (world s)) →
  LInv (mkSys (activateBody now a e (world s)).2 h' ps').
Proof.
  intros W P L Hl (c0 & Hc0 & Hd). unfold activateBody.
  destruct (ctls (world s) !! a) as [c|] eqn:Ha; [|done]. injection Hc0 as <-.
  destruct (entries (world s) !! e) as [en|] eqn:He; [|by apply LInv_same].
  destruct (_ || _) eqn:Hg; [by apply LInv_same|]. unfold owns in Hg. bool_to_prop.
  destruct (negb _); [by apply LInv_same|]. destruct (activated c); [by apply LInv_same|].
  pose proof (LInv_same s h' ps' L Hl) as [L1 L2 L3].
  destruct (register _ _ _) as [[] reg]; [by split|]. cbn [snd].
  assert (Hc : ∀ b d', <[ a := withActivated c ]> (ctls (world s)) !! b = Some d' →
    ∃ d, ctls (world s) !! b = Some d ∧ runID d' = runID d ∧ state d' = state d).
  { intros b d'. rewrite lookup_insert_Some. intros [[<- <-]|[_ Hb]]; eauto. }
  split; simpl in *.
  - intros b d' (d & Hd' & _ & Hs)%Hc. rewrite Hs. eauto.
  - intros b d' Hlb Hb. destruct (Hc b d' Hb) as (d & Hd' & -> & ->).
    destruct (L2 b d Hlb Hd') as [?|(e' & en' & [Hc' He'] & Hor)]; [by left|]. right.
    assert (∃ en2, cur (mkWorld (ctlsByRunID (world s)) (<[ e := mkEntry (ctl en) (id en) (runMu en) true (id en) ]>
       (entries (world s))) reg (closed (world s)) (nextControlID (world s)) (<[ a := withActivated c ]> (ctls (world s)))
       (nextEntry (world s))) (runID d) e' en2 ∧ ctl en2 = ctl en') as (en2 & Hcur2 & Hctl2).
    { unfold cur; simpl in *. destruct (decide (e = e')) as [<-|Hne].
      - rewrite lookup_insert_eq. simplify_eq. eauto.
      - rewrite lookup_insert_ne by done. eauto. }
    exists e', en2. split; [done|]. rewrite Hctl2. destruct Hor as [?|(Hs & c' & Hc2 & Hp & Hact & Hbar)]; [by left|].
    right. split; [done|]. exists c'. rewrite lookup_insert_ne; [done|]. intros E. rewrite <- E in Hc2.
    assert (c' = c) as -> by congruence. destruct (Hd b Hbar) as (dc & Hdc & Hcl).
    assert (Hlb' : live s b) by (unfold live; destruct (Hl b) as [<- <-]; done).
    destruct (live_state s b P Hlb') as (d2 & Hd2 & [?|?]); congruence.
  - intros b1 b2 d1 d2 H1' H2' (x1 & ? & E1 & _)%Hc (x2 & ? & E2 & _)%Hc E. eapply L3; eauto. congruence.
Qed.

(** [Remove] of a control that is not live, whose barrier is closed, or in a
    closed manager. *)
Lemma LInv_remove s now a e h' ps' :
  WInv (world s) → PInv s → LInv s → sameLive (pcs s) ps' →
  (closed (world s) = true ∨ ¬ live s a ∧ ∃ c, ctls (world s) !! a = Some c ∧
     (handoffDone c (world s) ∨ state c ≠ controlStatePending)) →
  LInv (mkSys (removeBody now a e (world s)).2 h' ps').
Proof.
  intros W P L Hl Hok. unfold removeBody.
  destruct (ctls (world s) !! a) as [c|] eqn:Ha; [|by apply LInv_same].
  destruct (entries (world s) !! e) as [en|] eqn:He; [|by apply LInv_same].
  destruct (_ || _) eqn:Hg; [by apply LInv_same|]. unfold owns in Hg. bool_to_prop.
  pose proof (LInv_same s h' ps' L Hl) as [L1 L2 L3]. split; simpl in *; [done| |done].
  intros b d Hlb Hb. destruct (L2 b d Hlb Hb) as [[? ?]|(e' & en' & [Hc' He'] & Hor)].
  { left. split; [done|]. rewrite lookup_delete_None. auto. }
  simpl in *. destruct (decide (runID c = runID d)) as [E|E].
  - left. rewrite lookup_delete_None. destruct Hok as [?|(Hnl & c0 & Hc0 & Hok)]; [by auto|]. exfalso.
    assert (Hlb' : live s b) by (unfold live; destruct (Hl b) as [<- <-]; done).
    assert (c0 = c) as -> by congruence. rewrite E in H0. simplify_eq.
    destruct Hor as [?|(Hs & c' & Hc2 & Hp & Hact & Hbar)]; [by simplify_eq|]. assert (c' = c) as -> by congruence.
    destruct Hok as [Hd|?]; [|done]. destruct (Hd b Hbar) as (dc & Hdc & Hcl).
    destruct (live_state s b P Hlb') as (d2 & Hd2 & [?|?]); congruence.
  - right. exists e', en'. unfold cur; simpl. rewrite lookup_delete_ne by done. done.
Qed.

Lemma LInv_add s a old h' ps' :
  WInv (world s) → PInv s → LInv s → sameLive (pcs s) ps' → pcs s !! Worker a = None →
  LInv (mkSys (addLocked a old (world s)).2 h' ps').
Proof.
  intros W P L Hl Hwa. pose proof (LInv_same s h' ps' L Hl) as [L1 L2 L3]. simpl in *.
  assert (Hna : ∀ b, live (mkSys (world s) h' ps') b → b ≠ a).
  { intros b Hlb ->. unfold live in Hlb. simpl in Hlb. destruct (Hl a) as [E1 E2]. rewrite E1, E2, Hwa in Hlb. by destruct Hlb. }
  destruct (addLocked_outcome a old (world s) W) as
    [r n Hr|c cid Ha Hcl Hs -> Hold|c cid e en oc Ha Hcl Hs -> Hold Hen Hoc]; cbn [snd].
  - by split.
  - assert (Hcs : ∀ b d', <[ a := admitted cid c ]> (ctls (world s)) !! b = Some d' →
      b = a ∧ d' = admitted cid c ∨ b ≠ a ∧ ctls (world s) !! b = Some d').
    { intros b d'. rewrite lookup_insert_Some. naive_solver. }
    split; simpl.
    + intros b d' [[-> ->]|[_ Hb]]%Hcs; [done|]. eauto.
    + intros b d' Hlb [[-> ->]|[Hne Hb]]%Hcs; [by destruct (Hna _ Hlb)|].
      destruct (L2 b d' Hlb Hb) as [[? _]|(e' & en' & [Hc' He'] & Hor)]; [congruence|]. right. exists e', en'.
      unfold cur; simpl in *. assert (runID d' ≠ runID c) by congruence. rewrite lookup_insert_ne by done.
      rewrite lookup_insert_ne by (intros <-; by rewrite (wi_fresh _ W) in He'). split; [done|].
      destruct Hor as [?|(Hsn & c' & Hc2 & Hr)]; [by left|]. right. split; [done|]. exists c'.
      rewrite lookup_insert_ne; [done|]. intros E. rewrite <- E in Hc2. simplify_eq. destruct Hr as (? & _). congruence.
    + intros b1 b2 d1 d2 H1' H2' [[-> ->]|[_ ?]]%Hcs [[-> ->]|[_ ?]]%Hcs E; eauto.
  - destruct (wi_cur _ W _ _ Hold) as (en0 & oc0 & Hen0 & Hoc0 & Hrun).
    assert (en0 = en) as -> by congruence. assert (oc0 = oc) as -> by congruence. clear Hen0 Hoc0.
    destruct (wi_created _ W _ _ Ha Hs) as [Hact _].
    pose proof (entry_not_created (world s) a c e en W Ha Hs Hen) as Hne0.
    pose proof (ops_same oc (ctl en) true None true) as (_ & _ & _ & _ & _ & _ & S & _). apply same_run in S.
    pose proof (markReplaced_state (ctl en) oc) as Hms. set (c2 := setHandoffBarrier _ _).
    assert (Hcs : ∀ b d', <[ a := c2 ]> (<[ ctl en := (markReplaced (ctl en) oc).2 ]> (ctls (world s))) !! b = Some d' →
      b = a ∧ d' = c2 ∨ b ≠ a ∧ ∃ d, ctls (world s) !! b = Some d ∧ runID d' = runID d ∧
        (state d' = controlStateRunning → state d = controlStateRunning) ∧
        (b = ctl en → state d' ≠ controlStateRunning)).
    { intros b d'. rewrite !lookup_insert_Some. intros [[<- <-]|[Hn [[<- <-]|[Hn2 Hb]]]]; [by left|right..].
      - split; [done|]. exists oc. split_and!; [done..|intros E|intros _ E]; rewrite E in Hms; by destruct Hms.
      - split; [done|]. exists d'. done. }
    split; simpl.
    + intros b d' [[-> ->]|(_ & d & Hb & _ & Hst & _)]%Hcs Hsr; [done|]. eauto.
    + intros b d' Hlb [[-> ->]|(Hne & d & Hb & Hrd & Hst & Hst2)]%Hcs; [by destruct (Hna _ Hlb)|].
      assert (Hlb' : live s b) by (unfold live in *; simpl in *; destruct (Hl b) as [<- <-]; done).
      destruct (live_state s b P Hlb') as (d0 & Hd0 & Hls). assert (d0 = d) as -> by congruence.
      destruct (L2 b d Hlb Hb) as [[? _]|(e' & en' & [Hc' He'] & Hor)]; [congruence|]. right. rewrite Hrd.
      unfold cur; simpl in *. destruct (decide (runID c = runID d)) as [E|E].
      * exists (nextEntry (world s)). rewrite E, !lookup_insert_eq. eexists. split; [done|]. right. simpl.
        rewrite <- E in Hc'. assert (e' = e) as -> by congruence. assert (en' = en) as -> by congruence.
        rewrite lookup_insert_eq. destruct Hor as [<-|(Hsn & c' & Hc3 & Hp & _ & Hbar)].
        -- split; [by apply Hst2|]. exists c2. split_and!; try done. unfold c2; simpl.
           assert (d = oc) as -> by congruence. unfold markReplaced. by destruct Hls as [-> | ->].
        -- split; [tauto|]. exists c2. split_and!; try done. unfold c2; simpl.
           assert (c' = oc) as -> by congruence. unfold markReplaced. by rewrite Hp.
      * exists e', en'. rewrite lookup_insert_ne by done.
        rewrite lookup_insert_ne by (intros <-; by rewrite (wi_fresh _ W) in He'). split; [done|].
        destruct Hor as [?|(Hsn & c' & Hc3 & Hp & Hr)]; [by left|]. right. split; [tauto|]. exists c'.
        destruct (wi_cur _ W _ _ Hc') as (en0 & c0 & ? & ? & Hrun').
        rewrite lookup_insert_ne by (intros E'; rewrite <- E' in Hc3; congruence).
        rewrite lookup_insert_ne by (intros E'; congruence). done.
    + intros b1 b2 d1 d2 H1' H2' [[-> ->]|(_ & x1 & ? & E1 & _)]%Hcs [[-> ->]|(_ & x2 & ? & E2 & _)]%Hcs E;
        [by destruct (Hna _ H1')|by destruct (Hna _ H1')|by destruct (Hna _ H2')|].
      eapply L3; eauto. congruence.
Qed.

(** ** All together *)

Record Inv (s : Sys) : Prop := {
  inv_world : WInv (world s);
  inv_gates : GInv s;
  inv_threads : PInv s;
  inv_worker : NLW s;
  inv_gens : LInv s }.

Lemma Inv_init r : reg_ok r → (∀ run, online r run = None) → Inv (init r).
Proof.
  intros Hr Hon. split; [split; simpl|..]; try done.
  - intros run x. by rewrite Hon.
Qed.

(** The threads present only shrink, but for logins and their workers. *)
Lemma NLW_shrink s w' h' ps' :
  NLW s → (∀ a, is_Some (ps' !! Login a) → is_Some (pcs s !! Login a)) →
  (∀ a, is_Some (ps' !! Worker a) → is_Some (pcs s !! Worker a)) → NLW (mkSys w' h' ps').
Proof.
  intros N Hlo Hwo a p Hp. simpl in *. destruct (Hlo a) as [p' Hp']; [by eexists|].
  apply eq_None_not_Some. intros Hw%Hwo. rewrite (N _ _ Hp') in Hw. by destruct Hw.
Qed.

Lemma is_Some_move (ps : gmap tid pc) t p t' :
  is_Some (ps !! t) ∨ t ≠ t' → is_Some (<[ t := p ]> ps !! t') → is_Some (ps !! t').
Proof. intros Ht. rewrite lookup_insert_is_Some. destruct Ht; [|naive_solver]. intros [<-|[_ ?]]; done. Qed.

Lemma is_Some_end (ps : gmap tid pc) t t' : is_Some (delete t ps !! t') → is_Some (ps !! t').
Proof. rewrite lookup_delete_is_Some. tauto. Qed.

Lemma NLW_move s w' h' t p : NLW s → is_Some (pcs s !! t) ∨ (∀ a, t ≠ Login a ∧ t ≠ Worker a) →
  NLW (mkSys w' h' (<[ t := p ]> (pcs s))).
Proof.
  intros N Ht. eapply NLW_shrink; [done|..]; intros a; apply is_Some_move; destruct Ht as [?|Ht]; auto;
    right; apply (Ht a).
Qed.

Lemma NLW_end s w' h' t : NLW s → NLW (mkSys w' h' (delete t (pcs s))).
Proof. intros N. eapply NLW_shrink; [done|..]; intros a; apply is_Some_end. Qed.

Lemma NLW_finish s w' h' t o ok : NLW s → is_Some (pcs s !! t) ∨ (∀ a, t ≠ Login a ∧ t ≠ Worker a) →
  (∀ wo no a, o = OComplete wo no a → t = Login a) → NLW (mkSys w' h' (finish t o ok (pcs s))).
Proof.
  intros N Ht Ho. destruct o; simpl; auto using NLW_move, NLW_end. destruct ok; [|by apply NLW_move].
  rewrite (Ho _ _ _ eq_refl). intros b p. simpl. rewrite lookup_insert_ne, lookup_delete_Some by done.
  intros [Hne Hb]. rewrite lookup_insert_ne, lookup_delete_ne by congruence. by apply (N b p).
Qed.

Lemma ready_pos s t o : ready s t o →
  (∀ a, t = Worker a → pcs s !! t = Some PRemove) ∧ (is_Some (pcs s !! t) ∨ ∀ a, t ≠ Login a ∧ t ≠ Worker a) ∧
  (∀ wo no a, o = OComplete wo no a → t = Login a).
Proof.
  unfold ready. destruct t as [a|a|a|n], (pcs s !! _) as [p|] eqn:Hp; try done; try (destruct p; try done);
    destruct o; try done; intros Hr; split_and!; try done; try (by left; eauto); try (by right);
    intros; by simplify_eq.
Qed.

(** A step that leaves the world and moves [t]. *)
Lemma Inv_move s t p h' :
  Inv s → (∀ t' g, t' ≠ t → held s !! g = Some t' → h' !! g = Some t') → gateOk (world s) h' t p →
  threadOk (world s) t p → (∀ a, t = Worker a → pcs s !! t ≠ Some WServing ∧ pcs s !! t ≠ Some WStopped ∧
    p ≠ WServing ∧ p ≠ WStopped) → is_Some (pcs s !! t) ∨ (∀ a, t ≠ Login a ∧ t ≠ Worker a) →
  Inv (mkSys (world s) h' (<[ t := p ]> (pcs s))).
Proof.
  intros [W G P N L] Hh Hg Ht Hw Hs. split; simpl; [done|..].
  - apply (GInv_local s t); [done|apply grows_refl|done| |eauto|].
    + intros t' p' Hne. rewrite lookup_insert_ne by done. auto.
    + intros p'. rewrite lookup_insert_eq. by intros [= <-].
  - apply PInv_move; [done|intros; apply evolves_refl|done].
  - by apply NLW_move.
  - apply LInv_same; [done|]. by apply sameLive_move.
Qed.

(** An operation that ends without its critical section. *)
Lemma Inv_failed s t o g h' :
  Inv s → (∀ t' g, t' ≠ t → held s !! g = Some t' → h' !! g = Some t') → threadOk (world s) t (Waiting o g) →
  removedOk (world s) o → (∀ a, t = Worker a → pcs s !! t ≠ Some WServing ∧ pcs s !! t ≠ Some WStopped) →
  is_Some (pcs s !! t) ∨ (∀ a, t ≠ Login a ∧ t ≠ Worker a) → (∀ wo no a, o = OComplete wo no a → t = Login a) →
  Inv (mkSys (world s) h' (finish t o false (pcs s))).
Proof.
  intros [W G P N L] Hh Ht Hrem Hw Hs Ho. split; simpl; [done|..].
  - apply (GInv_local s t); [done|apply grows_refl|done| |eauto|].
    + intros t' p' Hne. by apply finish_other.
    + intros p'. apply finish_own.
  - by eapply PInv_failed.
  - by apply NLW_finish.
  - apply LInv_same; [done|]. by apply sameLive_finish.
Qed.

Lemma Inv_begin s t o run e en :
  Inv s → ready s t o → opRun o (world s) = Some run → lookupRun run (allowClosed o) (world s) = Some e →
  entries (world s) !! e = Some en → Inv (mkSys (world s) (held s) (<[ t := Waiting o (runMu en) ]> (pcs s))).
Proof.
  intros I Hrd Hr Hl He. destruct (ready_pos s t o Hrd) as (Hw & Hs & _). apply Inv_move; simpl; eauto.
  - apply ready_waiting; [apply I|done|]. intros now a g' ->. by eapply lookup_at.
  - intros a E. rewrite (Hw a E). done.
Qed.

Lemma Inv_begin_none s t o run :
  Inv s → ready s t o → opRun o (world s) = Some run → lookupRun run (allowClosed o) (world s) = None →
  Inv (mkSys (world s) (held s) (finish t o false (pcs s))).
Proof.
  intros I Hrd Hr Hl. destruct (ready_pos s t o Hrd) as (Hw & Hs & Ho).
  assert (Hrem : removedOk (world s) o) by (destruct o; try done; by eapply lookup_none).
  apply (Inv_failed _ _ _ 0%nat); eauto.
  - apply ready_waiting; [apply I|done|]. intros now a g' -> Hc. destruct Hrem. by exists g'.
  - intros a E. rewrite (Hw a E). done.
Qed.

Lemma Inv_lock s t o g :
  Inv s → pcs s !! t = Some (Waiting o g) → held s !! g = None →
  Inv (mkSys (world s) (<[ g := t ]> (held s)) (<[ t := Locked o g ]> (pcs s))).
Proof.
  intros I Ht Hg. pose proof (inv_gates _ I _ _ Ht) as Hgt. pose proof (inv_threads _ I _ _ Ht) as Hok.
  apply Inv_move; simpl; try done; rewrite ?Ht; eauto.
  - intros t' g' Hne Hg'. rewrite lookup_insert_ne; [done|congruence].
  - by rewrite lookup_insert_eq.
Qed.

Lemma Inv_validate s t o g run e :
  Inv s → pcs s !! t = Some (Locked o g) → opRun o (world s) = Some run →
  revalidate run (allowClosed o) g (world s) = Some e →
  Inv (mkSys (world s) (held s) (<[ t := Holding o g e ]> (pcs s))).
Proof.
  intros I Ht Hr Hv. destruct (inv_gates _ I _ _ Ht) as [_ Hg]. pose proof (inv_threads _ I _ _ Ht) as Hok.
  destruct (revalidate_cur _ _ _ _ _ Hv) as (en & ? & ?).
  apply Inv_move; simpl; try done; rewrite ?Ht; eauto 10.
Qed.

Lemma Inv_invalid s t o g run :
  Inv s → pcs s !! t = Some (Locked o g) → opRun o (world s) = Some run →
  revalidate run (allowClosed o) g (world s) = None →
  Inv (mkSys (world s) (delete g (held s)) (finish t o false (pcs s))).
Proof.
  intros I Ht Hr Hv. destruct (inv_gates _ I _ _ Ht) as [_ Hg]. pose proof (inv_threads _ I _ _ Ht) as Hok.
  apply (Inv_failed _ _ _ g); try done; rewrite ?Ht; eauto.
  - intros t' g' Hne Hg'. by eapply delete_others.
  - destruct o; try done. simpl in Hv. eapply revalidate_none; [done..|].
    destruct t as [b|b|b|n]; simpl in Hok; [| | |done].
    + by destruct Hok as (c & _ & _ & _ & -> & ?).
    + by destruct Hok as (c & _ & _ & (now' & [= -> ->]) & ?).
    + by destruct Hok as (_ & c & _ & _ & (now' & [= -> ->]) & ?).
  - intros wo no a ->. eapply (complete_thread (world s) t wo no a g 0%nat). done.
Qed.

(** The generations after a critical section. *)
Lemma LInv_body s t o g e h' :
  Inv s → pcs s !! t = Some (Holding o g e) →
  LInv (mkSys (runBody o e (world s)).2 h' (finish t o (runBody o e (world s)).1 (pcs s))).
Proof.
  intros [W G P N L] Ht. destruct (G _ _ Ht) as (_ & run & en & Hr & Hcur & _). pose proof (P _ _ Ht) as Hok.
  assert (Hsl : ∀ ok, (∀ wo no a, o = OComplete wo no a → ok = false) → sameLive (pcs s) (finish t o ok (pcs s))).
  { intros ok Ho. apply sameLive_finish; [done|]. intros a ->. by rewrite Ht. }
  destruct o as [now a|wo no a|now a|run'|run'|a conn].
  - specialize (Hsl (runBody (OActivate now a) e (world s)).1). cbn [runBody] in *.
    pose proof (LInv_activate s now a e h' (finish t (OActivate now a) (let '(active, err, _) :=
      activateBody now a e (world s) in active && match err with Ok _ => true | Err _ => false end) (pcs s)) W P L) as HL.
    destruct (activateBody _ _ _ _) as [[active err] w']; cbn [fst snd] in *. apply HL; [by apply Hsl|].
    destruct t as [b|b|b|n]; simpl in Hok; [|by destruct Hok as (? & _ & _ & (? & ?) & _)
      |by destruct Hok as (_ & ? & _ & _ & (? & ?) & _)|done].
    destruct Hok as (c & ? & _ & ? & -> & _). eauto.
  - pose proof (complete_thread _ _ _ _ _ _ _ Hok) as ->. cbn [runBody] in *.
    pose proof (complete_committed wo no a e (world s)) as Hcom. pose proof (complete_refused wo no a e (world s)) as Href.
    destruct (completeLoginBody _ _ _ _ _) as [[[] err] w']; cbn [fst snd] in *.
    + destruct (Hcom eq_refl) as (c & en' & Ha & He & Hctl & Hp & Hact & ->). cbn [finish opRun] in *.
      rewrite Ha in Hr. injection Hr as <-. assert (en' = en) as -> by (destruct Hcur; congruence).
      apply (LInv_complete s a c e en); try done. by apply (N a (Holding (OComplete wo no a) g e)).
    + rewrite Href by done. apply LInv_same; [done|]. by apply Hsl.
  - apply (LInv_remove s now a e); [done..|by apply Hsl|].
    destruct t as [b|b|b|n]; simpl in Hok; [| | |done].
    + destruct Hok as (c & Ha & _ & Hd & -> & _). right. split; [|eauto]. intros [Hl|Hl]; by rewrite (N _ _ Ht) in Hl.
    + destruct Hok as (c & Ha & Hs & (now' & [= -> ->]) & _). right. split; [intros [Hl|Hl]; congruence|].
      exists c. rewrite Hs. auto.
    + left. apply Hok.
  - apply LInv_same; [done|]. by apply Hsl.
  - apply LInv_same; [done|]. by apply Hsl.
  - specialize (Hsl true). cbn [runBody fst snd] in *. unfold workConnBody.
    assert (HS : LInv (mkSys (world s) h' (finish t (OWorkConn a conn) true (pcs s)))) by (apply LInv_same; [done|by apply Hsl]).
    destruct (ctls (world s) !! a) as [c|] eqn:Ha; [|done]. destruct (entries (world s) !! e); [|done].
    destruct (negb (owns a c c0)); [done|]. destruct (negb (bool_decide _)) eqn:Hs; [done|]. bool_to_prop.
    destruct (chClosed _); [done|]. destruct (_ <? _); [|done]. cbn [snd].
    assert (Hcl : ∀ b, t ≠ Worker b).
    { intros b ->. simpl in Hok. by destruct Hok as (? & _ & _ & (? & ?) & _). }
    apply (LInv_put s a c); try done.
    + intros b _. simpl. by rewrite lookup_delete_ne.
    + unfold live; simpl. by rewrite !lookup_delete_ne.
    + intros _. split; [done|]. simpl. rewrite lookup_delete_ne by done. by eapply (li_running _ L).
    + auto.
Qed.

Lemma Inv_body s t o g e :
  Inv s → pcs s !! t = Some (Holding o g e) →
  Inv (mkSys (runBody o e (world s)).2 (delete g (held s)) (finish t o (runBody o e (world s)).1 (pcs s))).
Proof.
  intros I Ht. pose proof I as [W G P N L]. split.
  - by apply WInv_body.
  - by apply GInv_body.
  - by apply PInv_body.
  - apply NLW_finish; [done|left; by eexists|]. intros wo no a ->. by eapply complete_thread, (P _ _ Ht).
  - by eapply LInv_body.
Qed.

Lemma Inv_add s a old :
  Inv s → pcs s !! Login a = Some (AddLocked old) →
  Inv (mkSys (addLocked a old (world s)).2 (releaseAdd old (world s) (held s))
      (<[ Login a := afterAdd (addLocked a old (world s)).1 ]> (pcs s))).
Proof.
  intros [W G P N L] Ht. split.
  - by apply WInv_addLocked.
  - by apply GInv_add.
  - by apply PInv_add.
  - apply NLW_move; [done|left; by eexists].
  - apply LInv_add; try done; [by apply sameLive_move|]. by apply (N _ _ Ht).
Qed.

(** A step that changes one control; [t] is the thread it moves or ends. *)
Lemma Inv_put s t a c c' ps' :
  Inv s → ctls (world s) !! a = Some c → same c c' → WInv (putControl a c' (world s)) →
  (∀ t', t' ≠ t → is_Some (pcs s !! t') → stateOk t' a (state c) (state c')) →
  (∀ t', t' ≠ t → ps' !! t' = pcs s !! t') →
  (∀ p, ps' !! t = Some p → gateOk (putControl a c' (world s)) (held s) t p ∧ threadOk (putControl a c' (world s)) t p) →
  is_Some (pcs s !! t) ∨ ps' !! t = None →
  (∀ b, t = Worker b → b = a) → (live (mkSys (world s) (held s) ps') a → live s a) →
  (state c' = controlStateRunning → state c = controlStateRunning ∧ ps' !! Worker a = Some WServing) →
  (state c = controlStatePending → state c' = controlStatePending ∨ ¬ current (world s) a) →
  Inv (mkSys (putControl a c' (world s)) (held s) ps').
Proof.
  intros [W G P N L] Ha S W' Hst Hps Hown Hpres Htw Hla Hrun Hpend. split; [done|..].
  - apply (GInv_local s t); [done|by apply grows_put; intros; simplify_eq; apply S|done| |done|].
    + intros t' p Hne. rewrite Hps by done. auto.
    + intros p Hp. by apply Hown.
  - intros t' p Hp. simpl in *. destruct (decide (t' = t)) as [->|Hne]; [by apply Hown|]. rewrite Hps in Hp by done.
    eapply threadOk_evolves; [|by apply (P _ _ Hp)]. eapply evolves_put; eauto.
  - eapply NLW_shrink; [done|..]; intros b [p Hb]; destruct (decide (t = Login b)) as [E|E];
      destruct (decide (t = Worker b)) as [E'|E']; subst; try done; try (rewrite Hps in Hb by done; by eexists);
      destruct Hpres as [?|Hn]; try done; congruence.
  - apply (LInv_put s a c); try done. intros b Hb. apply Hps. intros <-. by destruct Hb, (Htw b).
Qed.

Lemma Inv_new s a entropy sc c :
  Inv s → ctls (world s) !! a = None → NewControl entropy sc = Ok c →
  Inv (mkSys (putControl a c (world s)) (held s) (<[ Login a := PAdd ]> (pcs s))).
Proof.
  intros [W G P N L] Ha Hc. pose proof (NewControl_fresh _ _ _ Hc) as (Hs & Hact & Hbar & _).
  assert (Hnw : pcs s !! Worker a = None).
  { destruct (pcs s !! Worker a) eqn:E; [|done]. apply P in E as (? & ? & _). congruence. }
  assert (Hcs : ∀ b d, ctls (world s) !! b = Some d → <[ a := c ]> (ctls (world s)) !! b = Some d).
  { intros b d Hb. rewrite lookup_insert_ne; [done|congruence]. }
  split; simpl.
  - by eapply WInv_new.
  - apply (GInv_local s (Login a)); [done|apply grows_put; congruence|done| |done|].
    + intros t' p Hne. rewrite lookup_insert_ne by done. auto.
    + intros p. rewrite lookup_insert_eq. by intros [= <-].
  - apply PInv_move; [done| |simpl; rewrite lookup_insert_eq; exists c; rewrite Hs; done]. intros t' Hne. split; simpl; [|done|].
    + intros b d Hb. exists d. rewrite (Hcs b d Hb). auto using stateOk_refl.
    + intros b g _ (d & e & en & Hd & [Hcu He] & Hctl & Hmu). left. simpl in *.
      destruct (wi_entry _ W _ _ He) as (d' & Hd' & _). rewrite Hctl in Hd'. pose proof (Hcs _ _ Hd').
      exists d', e, en. simplify_eq. done.
  - intros b p. simpl. rewrite lookup_insert_Some, lookup_insert_ne by done. intros [[[= <-] _]|[_ Hb]]; [done|eauto].
  - assert (Hl : ∀ b, live (mkSys (putControl a c (world s)) (held s) (<[ Login a := PAdd ]> (pcs s))) b → b ≠ a ∧ live s b).
    { intros b. unfold live; simpl. rewrite !lookup_insert_ne by done. intros Hb. split; [|done]. intros ->. rewrite Hnw in Hb. naive_solver. }
    destruct L as [L1 L2 L3]. split; simpl.
    + intros b d. rewrite lookup_insert_Some. intros [[<- <-]|[Hne Hb]]; [congruence|]. rewrite lookup_insert_ne by done. eauto.
    + intros b d [Hne Hlb]%Hl Hb. rewrite lookup_insert_ne in Hb by done.
      destruct (L2 b d Hlb Hb) as [?|(e & en & Hcu & Hor)]; [by left|]. right. exists e, en. split; [done|].
      destruct Hor as [?|(? & c' & Hc' & ?)]; [by left|right; eauto 10].
    + intros b1 b2 d1 d2 [? ?]%Hl [? ?]%Hl. rewrite !lookup_insert_ne by done. eauto.
Qed.

Lemma Inv_add_read s a c :
  Inv s → pcs s !! Login a = Some PAdd → ctls (world s) !! a = Some c →
  Inv (mkSys (world s) (held s) (<[ Login a :=
      match ctlsByRunID (world s) !! runID c with Some e => AddWaiting e | None => AddLocked None end ]> (pcs s))).
Proof.
  intros I Ht Ha. destruct (inv_threads _ I _ _ Ht) as (c' & Ha' & Hr & Hs).
  apply Inv_move; try done; rewrite ?Ht; eauto.
  - destruct (ctlsByRunID (world s) !! runID c) as [e|] eqn:He; [|done]. simpl.
    destruct (wi_cur _ (inv_world _ I) _ _ He) as (en & ? & ? & _). eauto.
  - exists c'. split; [done|]. split; [done|]. by destruct (ctlsByRunID (world s) !! runID c).
Qed.

Lemma Inv_add_lock s a e en :
  Inv s → pcs s !! Login a = Some (AddWaiting e) → entries (world s) !! e = Some en → held s !! runMu en = None →
  Inv (mkSys (world s) (<[ runMu en := Login a ]> (held s)) (<[ Login a := AddLocked (Some e) ]> (pcs s))).
Proof.
  intros I Ht He Hh. pose proof (inv_threads _ I _ _ Ht) as Hok. apply Inv_move; try done; rewrite ?Ht; eauto.
  - intros t' g' Hne Hg'. rewrite lookup_insert_ne; [done|congruence].
  - simpl. exists en. by rewrite lookup_insert_eq.
Qed.

Lemma Inv_closer s e en :
  Inv s → closed (world s) = true → entries (world s) !! e = Some en → pcs s !! Closer (ctl en) = None →
  Inv (mkSys (world s) (held s) (<[ Closer (ctl en) := PRemove ]> (pcs s))).
Proof.
  intros I Hc He Hn. destruct (wi_entry _ (inv_world _ I) _ _ He) as (c & Hctl & Hs & _).
  apply Inv_move; try done; [simpl; split; [done|]; by exists c|]. right. intros a. by split.
Qed.

Lemma Inv_close_manager s : Inv s → Inv (mkSys (setClosed (world s)) (held s) (pcs s)).
Proof.
  intros [W G P N L]. split; simpl.
  - destruct W. by split.
  - exact G.
  - intros t p Hp. eapply threadOk_evolves; [|by apply (P _ _ Hp)]. destruct (evolves_refl (world s) t) as [E1 E2 E3].
    split; [done|done|]. intros b g Hb Hc. by apply (E3 b).
  - exact N.
  - destruct L as [L1 L2 L3]. split; [done| |done]. intros a c Hl Ha. destruct (L2 a c Hl Ha) as [[? ?]|?]; [by left|by right].
Qed.

Lemma Inv_add_replaced s a o oc :
  Inv s → pcs s !! Login a = Some (AddReplaced o) → ctls (world s) !! o = Some oc →
  Inv (mkSys (putControl o (Replaced o oc) (world s)) (held s) (<[ Login a := PWait ]> (pcs s))).
Proof.
  intros I Ht Ho. pose proof (inv_threads _ I _ _ Ht) as Hok.
  destruct Hok as (c & Ha & Hr & Hs & oc' & Ho' & Hos). assert (oc' = oc) as -> by congruence.
  pose proof (ops_same oc o true None true) as (_ & S & _).
  assert (Hst : state (Replaced o oc) = state oc).
  { unfold Replaced, markReplaced. destruct Hos as [E|E]; rewrite E; simpl; by rewrite ?E. }
  apply (Inv_put s (Login a) o oc); try done.
  - eapply WInv_closing; [apply I|done|done|by rewrite Hst|].
    destruct (chanOk_of _ _ _ (inv_world _ I) Ho) as [Hb _]. unfold Replaced. simpl. by rewrite markReplaced_chan.
  - intros t' _ _. rewrite Hst. apply stateOk_refl.
  - intros t' Hne. by rewrite lookup_insert_ne.
  - intros p. rewrite lookup_insert_eq. intros [= <-]. split; [done|].
    assert (Hok : threadOk (world s) (Login a) PWait) by (exists c; done).
    eapply threadOk_evolves; [|exact Hok]. eapply evolves_put; [done|done|]. rewrite Hst. apply stateOk_refl.
  - left. by eexists.
  - unfold live; simpl. by rewrite !lookup_insert_ne.
  - rewrite Hst. intros E. rewrite E in Hos. by destruct Hos.
  - intros E. rewrite E in Hos. by destruct Hos.
Qed.

Lemma Close_state c : state (Close c) ≠ controlStateRunning ∧ state (Close c) ≠ controlStatePending.
Proof. unfold Close, finishLocked. destruct (state c) eqn:E; simpl; rewrite ?E; done. Qed.

Lemma Inv_close s t a c :
  Inv s → t = Login a ∨ t = Closer a → pcs s !! t = Some PClose → ctls (world s) !! a = Some c →
  Inv (mkSys (putControl a (Close c) (world s)) (held s) (delete t (pcs s))).
Proof.
  intros I Hta Ht Ha. pose proof (inv_threads _ I _ _ Ht) as Hok. pose proof (ops_same c a true None true) as (S & _).
  assert (Hn : ¬ current (world s) a ∧ (t = Closer a → state c ≠ controlStateCreated)).
  { destruct Hta as [-> | ->]; simpl in Hok.
    - by destruct Hok as (c' & _ & _ & ?).
    - destruct Hok as (_ & c' & ? & ? & ?). split; [done|]. intros _. congruence. }
  pose proof (Close_state c) as [Hc1 Hc2].
  apply (Inv_put s t a c); try done.
  - apply WInv_close; [apply I|done].
  - intros t' Hne _. apply stateOk_close. destruct Hta as [-> | ->]; [by right|left; by apply Hn].
  - intros t' Hne. by rewrite lookup_delete_ne.
  - intros p. by rewrite lookup_delete_eq.
  - right. apply lookup_delete_eq.
  - intros b ->. by destruct Hta.
  - unfold live; simpl. destruct Hta as [-> | ->]; by rewrite !lookup_delete_ne.
  - intros _. right. apply Hn.
Qed.

(** The steps of the worker of [a] and of its heartbeat. *)
Lemma Inv_worker s a c c' p q :
  Inv s → pcs s !! Worker a = Some p → ctls (world s) !! a = Some c → same c c' →
  WInv (putControl a c' (world s)) →
  (∀ t', t' ≠ Worker a → stateOk t' a (state c) (state c')) → state c ≠ controlStatePending →
  (∀ q', q = Some q' → gateOk (putControl a c' (world s)) (held s) (Worker a) q' ∧
     threadOk (putControl a c' (world s)) (Worker a) q') →
  (q = Some WServing ∨ q = Some WStopped → p = WServing ∨ p = WStopped) →
  (state c' = controlStateRunning → state c = controlStateRunning ∧ q = Some WServing) →
  Inv (mkSys (putControl a c' (world s)) (held s) (partial_alter (λ _, q) (Worker a) (pcs s))).
Proof.
  intros I Ht Ha S W' Hst Hp Hq Hlv Hrun. apply (Inv_put s (Worker a) a c); try done; auto.
  - intros t' Hne. by rewrite lookup_partial_alter_ne.
  - intros q'. rewrite lookup_partial_alter_eq. apply Hq.
  - by intros b [= ->].
  - unfold live; simpl. rewrite lookup_partial_alter_eq, Ht. naive_solver.
  - rewrite lookup_partial_alter_eq. done.
Qed.

Lemma worker_state s a p c :
  Inv s → pcs s !! Worker a = Some p → ctls (world s) !! a = Some c →
  state c = controlStateRunning ∧ p = WServing ∨ state c = controlStateClosing.
Proof.
  intros I Ht Ha. destruct (inv_threads _ I _ _ Ht) as (c' & Ha' & Hp). assert (c' = c) as -> by congruence.
  destruct p; try done; tauto.
Qed.

Lemma Inv_stop s a c :
  Inv s → pcs s !! Worker a = Some WServing → ctls (world s) !! a = Some c →
  Inv (mkSys (putControl a (workerStop c) (world s)) (held s) (<[ Worker a := WStopped ]> (pcs s))).
Proof.
  intros I Ht Ha. pose proof (worker_state _ _ _ _ I Ht Ha) as Hs.
  pose proof (ops_same c a true None true) as (_ & _ & S & _).
  assert (Hst : state (workerStop c) = controlStateClosing).
  { unfold workerStop. simpl. destruct Hs as [[E _]|E]; case_decide; simpl; congruence. }
  apply (Inv_worker s a c _ WServing (Some WStopped)); try done; rewrite ?Hst; auto.
  - eapply WInv_closing; [apply I|done|done|auto|]. unfold workerStop. simpl.
    destruct (chanOk_of _ _ _ (inv_world _ I) Ha) as [Hb _]. by case_decide.
  - intros t' _. destruct Hs as [[-> _] | ->]; state_solver.
  - intros E. destruct Hs as [[? _]|?]; congruence.
  - intros q' [= <-]. split; [done|]. simpl. rewrite lookup_insert_eq. eauto.
  - done.
Qed.

Lemma Inv_drain s a c :
  Inv s → pcs s !! Worker a = Some WStopped → ctls (world s) !! a = Some c →
  Inv (mkSys (putControl a (workerDrain c) (world s)) (held s) (<[ Worker a := PRemove ]> (pcs s))).
Proof.
  intros I Ht Ha. destruct (worker_state _ _ _ _ I Ht Ha) as [[_ ?]|Hs]; [done|].
  pose proof (ops_same c a true None true) as (_ & _ & _ & S & _).
  apply (Inv_worker s a c _ WStopped (Some PRemove)); try done; auto.
  - eapply WInv_closing; [apply I|done|done|auto|]. simpl.
    destruct (chanOk_of _ _ _ (inv_world _ I) Ha) as [Hb _]. lia.
  - intros t' _. apply stateOk_refl.
  - congruence.
  - intros q' [= <-]. split; [done|]. simpl. rewrite lookup_insert_eq. eauto.
  - simpl. congruence.
Qed.

Lemma Inv_finish s a c :
  Inv s → pcs s !! Worker a = Some WFinish → ctls (world s) !! a = Some c →
  Inv (mkSys (putControl a (finishLocked c) (world s)) (held s) (delete (Worker a) (pcs s))).
Proof.
  intros I Ht Ha. destruct (worker_state _ _ _ _ I Ht Ha) as [[_ ?]|Hs]; [done|].
  pose proof (ops_same c a true None true) as (_ & _ & _ & _ & S & _).
  assert (Hst : state (finishLocked c) = controlStateClosed).
  { unfold finishLocked. rewrite Hs. done. }
  apply (Inv_worker s a c _ WFinish None); try done; rewrite ?Hst; auto.
  - eapply WInv_closing; [apply I|done|done|auto|]. unfold finishLocked.
    destruct (chanOk_of _ _ _ (inv_world _ I) Ha) as [Hb _]. by case_decide.
  - intros t' Hne. rewrite Hs. state_solver.
  - congruence.
  - naive_solver.
  - done.
Qed.

Lemma partial_alter_same (ps : gmap tid pc) t p : ps !! t = Some p → partial_alter (λ _, Some p) t ps = ps.
Proof. intros Ht. rewrite <- Ht. apply partial_alter_self. Qed.

Lemma gateOk_put w a c c' h t p :
  ctls w !! a = Some c → same c c' → gateOk w h t p → gateOk (putControl a c' w) h t p.
Proof.
  intros Ha S. assert (Hop : ∀ o run, opRun o w = Some run → opRun o (putControl a c' w) = Some run).
  { intros o run. apply opRun_grows, grows_put. intros; simplify_eq. apply S. }
  destruct p as [ | | | | | | | |o g|o g|o g e|e|[e| ]|o]; simpl; try done.
  - intros [run Hr]. exists run. auto.
  - intros [[run Hr] ?]. split; [exists run; auto|done].
  - intros (? & run & en & Hr & ? & ?). split; [done|]. exists run, en. auto.
Qed.

Lemma Inv_heartbeat s a c p :
  Inv s → pcs s !! Worker a = Some p → ctls (world s) !! a = Some c →
  Inv (mkSys (putControl a (Close c) (world s)) (held s) (pcs s)).
Proof.
  intros I Ht Ha. pose proof (worker_state _ _ _ _ I Ht Ha) as Hs. pose proof (ops_same c a true None true) as (S & _).
  assert (Hn : state c ≠ controlStateCreated ∧ state c ≠ controlStatePending) by (destruct Hs as [[-> _] | ->]; done).
  destruct Hn as [Hn1 Hn2]. rewrite <- (partial_alter_same _ _ _ Ht).
  assert (E : ∀ t, evolves (world s) (putControl a (Close c) (world s)) t).
  { intros t. eapply evolves_put; [done|done|]. apply stateOk_close. by left. }
  apply (Inv_worker s a c _ p); try done.
  - apply WInv_close; [apply I|done].
  - intros t' _. apply stateOk_close. by left.
  - intros q' [= <-]. split; [|eapply threadOk_evolves; [apply E|by apply (inv_threads _ I)]].
    apply (gateOk_put _ _ c); [done|done|]. by apply (inv_gates _ I).
  - naive_solver.
  - by destruct (Close_state c).
Qed.

Lemma Inv_get_conn s a c sent later :
  Inv s → ctls (world s) !! a = Some c →
  Inv (mkSys (putControl a (GetWorkConn sent later c).2 (world s)) (held s) (pcs s)).
Proof.
  intros I Ha. pose proof (ops_same c a sent later true) as (_ & _ & _ & _ & _ & S & _).
  assert (Hst : state (GetWorkConn sent later c).2 = state c).
  { unfold GetWorkConn. destruct (buf _); [repeat case_match|]; done. }
  apply (Inv_put s (Client 0) a c); try done; rewrite ?Hst; auto.
  - apply WInv_getConn; [apply I|done].
  - intros. apply stateOk_refl.
  - intros p Hp. split; [apply (gateOk_put _ _ c); [done|done|]; by apply (inv_gates _ I)|].
    eapply threadOk_evolves; [|by apply (inv_threads _ I)]. eapply evolves_put; [done|done|]. rewrite Hst. apply stateOk_refl.
  - destruct (pcs s !! Client 0); eauto.
  - intros Hr. split; [done|]. by apply (li_running _ (inv_gens _ I) a c).
Qed.

Lemma Inv_step s s' : Inv s → step s s' → Inv s'.
Proof.
  intros I []; eauto using Inv_new, Inv_begin, Inv_begin_none, Inv_lock, Inv_validate, Inv_invalid, Inv_body,
    Inv_add_read, Inv_add_lock, Inv_add, Inv_add_replaced, Inv_close, Inv_heartbeat, Inv_stop, Inv_drain,
    Inv_finish, Inv_get_conn, Inv_close_manager, Inv_closer.
Qed.

Lemma Inv_reachable r s : reg_ok r → (∀ run, online r run = None) → rtc step (init r) s → Inv s.
Proof.
  intros Hr Hon. generalize (Inv_init r Hr Hon). generalize (init r). intros s0 I H'.
  induction H'; eauto using Inv_step.
Qed.

(** ** The life cycle only moves on *)

Definition rank (x : controlState) : nat :=
  match x with
  | controlStateCreated => 0 | controlStatePending => 1 | controlStateRunning => 2
  | controlStateClosing => 3 | controlStateClosed => 4
  end.

(** The state only advances, and the identity is fixed once assigned. *)
Definition advances (c c' : Control) : Prop :=
  (rank (state c) ≤ rank (state c'))%nat ∧ runID c' = runID c ∧
  (state c ≠ controlStateCreated → controlID c' = controlID c ∧ handoffBarrier c' = handoffBarrier c).

Definition moves (w w' : World R) : Prop :=
  ∀ a c, ctls w !! a = Some c → ∃ c', ctls w' !! a = Some c' ∧ advances c c'.

Lemma advances_refl c : advances c c.
Proof. by split_and!. Qed.

Lemma moves_refl w : moves w w.
Proof. intros a c. eauto using advances_refl. Qed.

Lemma moves_same w w' : ctls w' = ctls w → moves w w'.
Proof. intros E a c. rewrite E. eauto using advances_refl. Qed.

Lemma moves_put w a c c' : ctls w !! a = Some c → advances c c' → moves w (putControl a c' w).
Proof.
  intros Ha Hc b d Hb. simpl. destruct (decide (a = b)) as [<-|Hne].
  - rewrite lookup_insert_eq. simplify_eq. eauto.
  - rewrite lookup_insert_ne by done. eauto using advances_refl.
Qed.

Lemma advances_ops c a sent later :
  advances c (Close c) ∧ advances c (Replaced a c) ∧ advances c (workerStop c) ∧ advances c (workerDrain c) ∧
  advances c (finishLocked c) ∧ advances c (GetWorkConn sent later c).2 ∧ advances c (markReplaced a c).2.
Proof.
  unfold advances, Close, Replaced, workerStop, workerDrain, finishLocked, GetWorkConn, markReplaced, runID.
  split_and!; destruct (state c) eqn:E; simpl; repeat (case_match || case_decide); simpl; rewrite ?E; simpl; try done; lia.
Qed.

Lemma moves_body o e w : moves w (runBody o e w).2.
Proof.
  destruct o as [now a|wo no a|now a|run|run|a conn]; cbn [runBody]; try apply moves_refl.
  - unfold activateBody. destruct (ctls w !! a) as [c|] eqn:Ha, (entries w !! e) as [en|] eqn:He; try apply moves_refl.
    destruct (_ || _); [apply moves_refl|]. destruct (negb _); [apply moves_refl|].
    destruct (activated c); [apply moves_refl|]. destruct (register _ _ _) as [[] ?]; [by apply moves_same|].
    intros b d Hb. cbn. destruct (decide (a = b)) as [<-|Hne].
    + rewrite lookup_insert_eq. simplify_eq. eexists. split; [done|]. by split_and!.
    + rewrite lookup_insert_ne by done. eauto using advances_refl.
  - pose proof (complete_committed wo no a e w) as Hcom. pose proof (complete_refused wo no a e w) as Href.
    destruct (completeLoginBody _ _ _ _ _) as [[[] err] w']; cbn [fst snd] in *; [|rewrite Href by done; apply moves_refl].
    destruct (Hcom eq_refl) as (c & en & Ha & _ & _ & Hp & _ & ->). apply (moves_put w a c); [done|].
    split_and!; simpl; rewrite ?Hp; simpl; [lia|done|done].
  - unfold removeBody. destruct (ctls w !! a) as [c|]; [|apply moves_refl].
    destruct (entries w !! e); [|apply moves_refl]. destruct (_ || _); by apply moves_same.
  - unfold workConnBody. destruct (ctls w !! a) as [c|] eqn:Ha, (entries w !! e) as [en|] eqn:He; try apply moves_refl.
    repeat (case_match; try apply moves_refl). apply (moves_put w a c); [done|]. by split_and!.
Qed.

Lemma moves_add a old w : WInv w → moves w (addLocked a old w).2.
Proof.
  intros W. destruct (addLocked_outcome a old w W) as
    [r n Hr|c cid Ha Hc Hs -> Hold|c cid e en oc Ha Hc Hs -> Hold Hen Hoc]; cbn [snd].
  - by apply moves_same.
  - intros b d Hb. simpl. destruct (decide (a = b)) as [<-|Hne].
    + rewrite lookup_insert_eq. simplify_eq. eexists. split; [done|]. by split_and!; simpl; rewrite ?Hs; simpl; [lia| |].
    + rewrite lookup_insert_ne by done. eauto using advances_refl.
  - intros b d Hb. simpl. destruct (decide (a = b)) as [<-|Hne].
    + rewrite lookup_insert_eq. simplify_eq. eexists. split; [done|]. by split_and!; simpl; rewrite ?Hs; simpl; [lia| |].
    + rewrite lookup_insert_ne by done. destruct (decide (ctl en = b)) as [<-|Hne'].
      * rewrite lookup_insert_eq. simplify_eq. eexists. split; [done|]. apply (advances_ops _ _ true None).
      * rewrite lookup_insert_ne by done. eauto using advances_refl.
Qed.

Lemma moves_step s s' : WInv (world s) → step s s' → moves (world s) (world s').
Proof.
  intros W []; simpl; eauto using moves_refl, moves_body, moves_add;
    try (eapply moves_put; [done|]; apply (advances_ops _ 0%nat true None)).
  - intros b d Hb. simpl. rewrite lookup_insert_ne by congruence. eauto using advances_refl.
  - eapply moves_put; [done|]. apply (advances_ops _ _ true None).
  - eapply moves_put; [done|]. apply (advances_ops _ 0%nat). 
  - by apply moves_same.
Qed.

End handoff.
Arguments Sys : clear implicits.

(** ** Properties

    They are stated for the manager with the client registry of the server. *)

Section properties.
Implicit Types (s : Sys Registry.ClientRegistry).

Definition start : Sys Registry.ClientRegistry := init Registry.NewClientRegistry.

Lemma reachable_Inv s : rtc step start s → Inv s.
Proof. apply Inv_reachable; [apply Registry.reg_wf_new|done]. Qed.

(** C1: two generations of one client never hold proxies at the same time: of
    the controls of a run id at most one has a worker that has not yet closed
    its proxies and pooled connections, however logins, replacements,
    disconnects and the shutdown of the server interleave. *)
Theorem one_live_generation s a b c d :
  rtc step start s → live s a → live s b →
  ctls (world s) !! a = Some c → ctls (world s) !! b = Some d → runID c = runID d → a = b.
Proof. intros Hs. apply (li_unique _ (inv_gens _ (reachable_Inv s Hs))). Qed.

(** a running control is the current one of its run id until the manager
    is closed; an operation past its second read of the entry holds the gate of
    the run id, and the entry it found stays the current one until it is done. *)
Theorem running_is_current s :
  rtc step start s →
  (∀ a c, ctls (world s) !! a = Some c → state c = controlStateRunning → closed (world s) = false →
     current (world s) a) ∧
  (∀ t o g e, pcs s !! t = Some (Holding o g e) → held s !! g = Some t ∧
     ∃ run en, opRun o (world s) = Some run ∧ cur (world s) run e en ∧ runMu en = g).
Proof.
  intros Hs%reachable_Inv. split; [|intros t o g e Ht; apply (inv_gates _ Hs _ _ Ht)].
  intros a c Ha Hr Hcl. pose proof (li_running _ (inv_gens _ Hs) a c Ha Hr) as Hw.
  destruct (li_live _ (inv_gens _ Hs) a c (or_introl Hw) Ha) as [[? _]|(e & en & Hcur & [Hctl|[? _]])]; [congruence| |done].
  exists (runMu en), c, e, en. done.
Qed.

(** C10: a client is online in the registry only while a control of its run id
    is the current one, and under the control id that its entry records: a
    disconnect can neither leave a client online without a control nor, for an
    older generation, take the current one offline. *)
Theorem online_has_control s k i :
  rtc step start s → Registry.clients (registry (world s)) !! k = Some i → Registry.Online i = true →
  ∃ e en c, cur (world s) (Registry.RunID i) e en ∧ registryOnline en = true ∧
    registryControlID en = Registry.ControlID i ∧
    ctls (world s) !! ctl en = Some c ∧ runID c = Registry.RunID i.
Proof.
  intros Hs%reachable_Inv Hk Ho. pose proof (wi_reg _ (inv_world _ Hs)) as Wr.
  assert (Hon : online (registry (world s)) (Registry.RunID i) = Some (Registry.ControlID i)).
  { apply onlineRun_Some; [done|]. split; [by apply (Registry.wf_online _ Wr k i)|]. eauto. }
  destruct (wi_online _ (inv_world _ Hs) _ _ Hon) as (e & en & Hcur & Hreg & Hid).
  destruct (wi_cur _ (inv_world _ Hs) _ _ (proj1 Hcur)) as (en' & c & Hen & Hc & Hrun).
  destruct Hcur as [Hcur He]. assert (en' = en) as -> by congruence. exists e, en, c. done.
Qed.

(** C37: whatever the interleaving, a work connection is never sent to a closed
    pool (which would panic), the pool never holds more connections than its
    capacity, and a connection is pooled only for a running control. *)
Theorem work_conn_safe s a conn e :
  rtc step start s →
  let '(r, w') := workConnBody a conn e (world s) in
  r ≠ Err PanicSendOnClosed ∧
  (r = Ok tt → ∃ c, ctls (world s) !! a = Some c ∧ state c = controlStateRunning) ∧
  (∀ b c, ctls w' !! b = Some c → Z.of_nat (length (buf (workConnCh c))) ≤ cap (workConnCh c)).
Proof.
  intros Hs%reachable_Inv. pose proof (WInv_workConn a conn e _ (inv_world _ Hs)) as W'.
  pose proof (λ c, wi_chan _ (inv_world _ Hs) a c) as Hch. revert W'. unfold workConnBody.
  assert (Hb : ∀ w : World Registry.ClientRegistry, WInv w → ∀ b c, ctls w !! b = Some c →
    Z.of_nat (length (buf (workConnCh c))) ≤ cap (workConnCh c)) by (intros w W b c Hbc; apply (wi_chan _ W b c Hbc)).
  assert (Hfin : ∀ (r : res error unit) w, r ≠ Err PanicSendOnClosed →
    (r = Ok tt → ∃ c, ctls (world s) !! a = Some c ∧ state c = controlStateRunning) → WInv (r, w).2 →
    r ≠ Err PanicSendOnClosed ∧ (r = Ok tt → ∃ c, ctls (world s) !! a = Some c ∧ state c = controlStateRunning) ∧
    (∀ b c, ctls w !! b = Some c → Z.of_nat (length (buf (workConnCh c))) ≤ cap (workConnCh c))).
  { intros r w ? ? W. split_and!; [done..|]. by apply Hb. }
  destruct (ctls (world s) !! a) as [c|] eqn:Ha; [|by apply Hfin]. destruct (entries (world s) !! e) as [en|]; [|by apply Hfin].
  destruct (owns a c en); [|by apply Hfin]. cbn [negb]. case_bool_decide as Hst; [|by apply Hfin]. cbn [negb].
  destruct (chClosed (workConnCh c)) eqn:Hcl; [by destruct (Hch c eq_refl) as [_ Hx]; destruct (Hx Hcl) as (_ & _ & ?)|].
  destruct (_ <? _); apply Hfin; eauto.
Qed.

(** along every execution the state of a control only advances (created,
    pending, running, closing, closed), its run id never changes, and its
    control id and the barrier it waits for are fixed once it is admitted; so a
    barrier that is closed stays closed and a replaced control never runs
    again. *)
Theorem lifecycle_advances s s' a c :
  rtc step start s → rtc step s s' → ctls (world s) !! a = Some c →
  ∃ c', ctls (world s') !! a = Some c' ∧ (rank (state c) ≤ rank (state c'))%nat ∧ runID c' = runID c ∧
    (state c ≠ controlStateCreated → controlID c' = controlID c ∧ handoffBarrier c' = handoffBarrier c).
Proof.
  intros Hs%reachable_Inv H. revert c. induction H as [s|s1 s2 s3 H1 _ IH]; intros c Ha; [by eauto 10|].
  destruct (moves_step _ _ (inv_world _ Hs) H1 a c Ha) as (c1 & Ha1 & Hr1 & Hrun1 & Hid1).
  destruct (IH (Inv_step _ _ Hs H1) c1 Ha1) as (c2 & Ha2 & Hr2 & Hrun2 & Hid2). exists c2.
  split_and!; [done|lia|congruence|]. intros Hc. destruct (Hid1 Hc) as [E1 E2].
  destruct Hid2 as [E3 E4]; [|split; congruence]. intros E. rewrite E in Hr1. destruct (state c); simpl in *; [done|lia..].
Qed.

End properties.

(** ** A client that has logged in

    The login of control [0] step by step, to the start of its worker. *)

Definition demoSession : SessionContext := mkSession "u" "c1" "r1" "h" "v" "10.0.0.1" "v2" "" 1 "" false 5.
Definition demoControl : Control :=
  mkControl demoSession (mkChan [] 11 false) 1 0 (replicate 32 Byte.x00) controlStateCreated false None false.

Abbreviation SysR := (Sys Registry.ClientRegistry).

Definition moved (t : tid) (p : pc) (s : SysR) : SysR := mkSys (world s) (held s) (<[ t := p ]> (pcs s)).
Definition locked (t : tid) (o : op) (g : nat) (s : SysR) : SysR :=
  mkSys (world s) (<[ g := t ]> (held s)) (<[ t := Locked o g ]> (pcs s)).
Definition ran (t : tid) (o : op) (g e : nat) (s : SysR) : SysR :=
  mkSys (runBody o e (world s)).2 (delete g (held s)) (finish t o (runBody o e (world s)).1 (pcs s)).
(** An operation through the gate without interference. *)
Definition operated (t : tid) (o : op) (g e : nat) (s : SysR) : SysR :=
  ran t o g e (moved t (Holding o g e) (locked t o g (moved t (Waiting o g) s))).

Definition demo1 : SysR := mkSys (putControl 0 demoControl (world start)) (held start) (<[ Login 0 := PAdd ]> (pcs start)).
Definition demo2 : SysR := moved (Login 0) (AddLocked None) demo1.
Definition demo3 : SysR :=
  mkSys (addLocked 0 None (world demo2)).2 (releaseAdd None (world demo2) (held demo2))
    (<[ Login 0 := afterAdd (addLocked 0 None (world demo2)).1 ]> (pcs demo2)).
Definition demo4 : SysR := operated (Login 0) (OActivate 7 0) 0 0 demo3.
Definition demo5 : SysR := operated (Login 0) (OComplete true true 0) 0 0 demo4.

Lemma operated_steps t o g e en run s :
  ready s t o → opRun o (world s) = Some run → lookupRun run (allowClosed o) (world s) = Some e →
  entries (world s) !! e = Some en → runMu en = g → held s !! g = None →
  rtc step s (operated t o g e s).
Proof.
  intros Hrd Hr Hl He <- Hg.
  assert (Hv : revalidate run (allowClosed o) (runMu en) (world s) = Some e).
  { unfold revalidate. rewrite Hl, He. by rewrite decide_True. }
  eapply rtc_l; [by apply (st_begin s t o run e en)|].
  eapply rtc_l; [apply (st_lock _ t o (runMu en)); [apply lookup_insert_eq|done]|].
  eapply rtc_l; [eapply (st_validate _ t o (runMu en) run e); [apply lookup_insert_eq|done|done]|].
  eapply rtc_l; [apply (st_body _ t o (runMu en) e); apply lookup_insert_eq|]. apply rtc_refl.
Qed.

Lemma demo3_reachable : rtc step start demo3.
Proof.
  eapply rtc_l; [apply (st_new start 0 None demoSession demoControl); reflexivity|].
  eapply rtc_l; [apply (st_add_read demo1 0 demoControl); reflexivity|].
  eapply rtc_l; [apply (st_add_body demo2 0 None); reflexivity|]. apply rtc_refl.
Qed.

Lemma demo35 : rtc step demo3 demo5.
Proof.
  etrans.
  - eapply (operated_steps (Login 0) (OActivate 7 0) 0 0 _ "r1" demo3); try (vm_compute; reflexivity).
    split; [done|]. eexists. split; [vm_compute; reflexivity|]. intros d. by vm_compute.
  - eapply (operated_steps (Login 0) (OComplete true true 0) 0 0 _ "r1" demo4); vm_compute; reflexivity.
Qed.

Lemma demo5_reachable : rtc step start demo5.
Proof. etrans; [apply demo3_reachable|apply demo35]. Qed.

Definition demoRunning : Control :=
  mkControl demoSession (mkChan [] 11 false) 1 1 (replicate 32 Byte.x00) controlStateRunning true None false.

Lemma demo5_control : ctls (world demo5) !! 0%nat = Some demoRunning.
Proof. vm_compute. reflexivity. Qed.

Lemma one_live_generation_witness : live demo5 0 ∧ 0%nat = 0%nat.
Proof.
  assert (Hl : live demo5 0) by (left; vm_compute; reflexivity). split; [exact Hl|].
  apply (one_live_generation demo5 0 0 demoRunning demoRunning demo5_reachable Hl Hl demo5_control demo5_control eq_refl).
Defined.

Lemma running_is_current_witness : current (world demo5) 0.
Proof.
  destruct (running_is_current demo5 demo5_reachable) as [H _].
  apply (H 0%nat demoRunning demo5_control); vm_compute; reflexivity.
Defined.

Lemma online_has_control_witness :
  ∃ e en c, cur (world demo5) "r1" e en ∧ registryOnline en = true ∧ registryControlID en = 1 ∧
    ctls (world demo5) !! ctl en = Some c ∧ runID c = "r1".
Proof.
  apply (online_has_control demo5 "u.c1" (Registry.mkClientInfo "u.c1" "u" "c1" "r1" 1 "h" "10.0.0.1" "v" "v2" 7 7 0 true)
           demo5_reachable); vm_compute; reflexivity.
Defined.

Lemma lifecycle_advances_witness :
  ∃ c', ctls (world demo5) !! 0%nat = Some c' ∧ (rank controlStateCreated ≤ rank (state c'))%nat ∧ runID c' = "r1".
Proof.
  assert (H1 : rtc step start demo1).
  { eapply rtc_l; [apply (st_new start 0 None demoSession demoControl); reflexivity|apply rtc_refl]. }
  assert (H2 : rtc step demo1 demo5).
  { eapply rtc_l; [apply (st_add_read demo1 0 demoControl); reflexivity|].
    eapply rtc_l; [apply (st_add_body demo2 0 None); reflexivity|]. apply demo35. }
  destruct (lifecycle_advances demo1 demo5 0 demoControl H1 H2) as (c' & ? & ? & ? & _); [reflexivity|]. eauto.
Defined.

Lemma work_conn_safe_witness :
  (workConnBody 0 42 0 (world demo5)).1 = Ok tt ∧
  let '(r, w') := workConnBody 0 42 0 (world demo5) in
  r ≠ Err PanicSendOnClosed ∧
  (r = Ok tt → ∃ c, ctls (world demo5) !! 0%nat = Some c ∧ state c = controlStateRunning) ∧
  (∀ b c, ctls w' !! b = Some c → Z.of_nat (length (buf (workConnCh c))) ≤ cap (workConnCh c)).
Proof.
  split; [vm_compute; reflexivity|]. exact (work_conn_safe demo5 0 42 0 demo5_reachable).
Defined.

End Handoff.
