(* ===== verification/Chars.v ===== *)
(** * Character lists: the parts of [strings] and [strconv] that the program uses *)
From S2P Require Import Prelude.

Definition chars := list ascii.
Definition ofStr : string → chars := String.list_ascii_of_string.

Fixpoint indexOf (x : ascii) (l : chars) : option nat :=
  match l with
  | [] => None
  | y :: l => if decide (y = x) then Some 0%nat else S <$> indexOf x l
  end.

Definition lastIndexOf (x : ascii) (l : chars) : option nat :=
  match indexOf x (reverse l) with
  | Some i => Some (length l - S i)%nat
  | None => None
  end.

Definition digit (x : ascii) : option Z :=
  let n := Z.of_nat (nat_of_ascii x) in if (48 <=? n) && (n <=? 57) then Some (n - 48) else None.

Fixpoint digits (acc : Z) (l : chars) : option Z :=
  match l with
  | [] => Some acc
  | x :: l => match digit x with Some d => digits (acc * 10 + d) l | None => None end
  end.

Definition sign (l : chars) : bool * chars :=
  match l with
  | x :: l' => if decide (x = "-"%char) then (true, l') else if decide (x = "+"%char) then (false, l') else (false, l)
  | [] => (false, [])
  end.

(** [strconv.Atoi] and [strconv.ParseInt] with base 10 and 64 bits. *)
Definition Atoi (l : chars) : option Z :=
  let '(neg, l) := sign l in
  match l with
  | [] => None
  | _ =>
      match digits 0 l with
      | None => None
      | Some n =>
          let n := if (neg : bool) then - n else n in
          if (- 2 ^ 63 <=? n) && (n <? 2 ^ 63) then Some n else None
      end
  end.


(** [strconv.Itoa] *)
Definition digitChar (d : Z) : ascii := ascii_of_nat (Z.to_nat (48 + d)).

Fixpoint itoaFuel (fuel : nat) (n : Z) : chars :=
  match fuel with
  | O => []
  | S fuel => if n <? 10 then [digitChar n] else itoaFuel fuel (n / 10) ++ [digitChar (n mod 10)]
  end.

(** A number has no more decimal than binary digits. *)
Definition Itoa (n : Z) : chars :=
  if n <? 0 then "-"%char :: itoaFuel (S (Z.to_nat (Z.log2 (- n)))) (- n)
  else itoaFuel (S (Z.to_nat (Z.log2 n))) n.

(** [strings.Split] with a separator of one character, and [strings.Join]. *)
Fixpoint Split (sep : ascii) (l : chars) : list chars :=
  match l with
  | [] => [[]]
  | x :: l =>
      if decide (x = sep) then [] :: Split sep l
      else match Split sep l with f :: fs => (x :: f) :: fs | [] => [[x]] end
  end.

Fixpoint Join (sep : ascii) (fs : list chars) : chars :=
  match fs with
  | [] => []
  | [f] => f
  | f :: fs => f ++ sep :: Join sep fs
  end.

(** [strings.TrimSpace] on ASCII text. *)
Definition isSpace (x : ascii) : bool :=
  let n := nat_of_ascii x in ((9 <=? n) && (n <=? 13) || (n =? 32))%nat.

Fixpoint trimLeft (l : chars) : chars :=
  match l with x :: l' => if isSpace x then trimLeft l' else l | [] => [] end.

Definition TrimSpace (l : chars) : chars := reverse (trimLeft (reverse (trimLeft l))).

(** ** Numbers read back *)

Definition isDigit (x : ascii) : Prop := is_Some (digit x).

Lemma digit_char d : 0 ≤ d ≤ 9 → digit (digitChar d) = Some d.
Proof.
  intros Hd. assert (d = 0 ∨ d = 1 ∨ d = 2 ∨ d = 3 ∨ d = 4 ∨ d = 5 ∨ d = 6 ∨ d = 7 ∨ d = 8 ∨ d = 9) as H by lia.
  by repeat destruct H as [-> | H]; try subst d.
Qed.

Lemma digits_app acc l1 l2 : digits acc (l1 ++ l2) = match digits acc l1 with Some a => digits a l2 | None => None end.
Proof. revert acc. induction l1 as [|x l1 IH]; intros acc; simpl; [done|]. by destruct (digit x). Qed.

Lemma digits_acc l : ∀ acc, Forall isDigit l → digits acc l = (λ n, acc * 10 ^ Z.of_nat (length l) + n) <$> digits 0 l.
Proof.
  induction l as [|x l IH]; intros acc Hl; cbn [digits length]; [simpl; f_equal; lia|].
  apply Forall_cons in Hl as [[d Hd] Hl]. rewrite Hd. rewrite (IH (acc * 10 + d)), (IH (0 * 10 + d)) by done.
  destruct (digits 0 l); simpl; [|done]. f_equal. rewrite Nat2Z.inj_succ, Z.pow_succ_r by lia. lia.
Qed.

Lemma itoaFuel_spec fuel : ∀ n, 0 ≤ n < 2 ^ Z.of_nat fuel →
  digits 0 (itoaFuel fuel n) = Some n ∧ Forall isDigit (itoaFuel fuel n) ∧ (fuel ≠ 0%nat → itoaFuel fuel n ≠ []).
Proof.
  induction fuel as [|fuel IH]; intros n Hn; [simpl in *; split; [f_equal; lia|done]|].
  cbn [itoaFuel]. destruct (Z.ltb_spec n 10).
  { simpl. rewrite digit_char by lia. split_and!; [done| |done]. repeat constructor. exists n. apply digit_char. lia. }
  rewrite Nat2Z.inj_succ, Z.pow_succ_r in Hn by lia.
  destruct (IH (n / 10)) as (Hd & Hf & _); [split; [apply Z.div_pos; lia|apply Z.div_lt_upper_bound; lia]|].
  assert (Hm : 0 ≤ n mod 10 ≤ 9) by (pose proof (Z.mod_pos_bound n 10); lia).
  rewrite digits_app, Hd. simpl. rewrite digit_char by done. split_and!.
  - f_equal. pose proof (Z.div_mod n 10). lia.
  - apply Forall_app. split; [done|]. repeat constructor. exists (n mod 10). by apply digit_char.
  - intros _ E. by apply app_eq_nil in E as [_ ?].
Qed.

Lemma Itoa_digits n : 0 ≤ n → digits 0 (Itoa n) = Some n ∧ Forall isDigit (Itoa n) ∧ Itoa n ≠ [].
Proof.
  intros Hn. unfold Itoa. destruct (Z.ltb_spec n 0); [lia|].
  destruct (itoaFuel_spec (S (Z.to_nat (Z.log2 n))) n) as (? & ? & Hne); [|by auto].
  rewrite Nat2Z.inj_succ, Z2Nat.id by apply Z.log2_nonneg.
  destruct (decide (n = 0)) as [->|]; [simpl; lia|]. pose proof (Z.log2_spec n). lia.
Qed.

Lemma Atoi_Itoa n : 0 ≤ n < 2 ^ 63 → Atoi (Itoa n) = Some n.
Proof.
  intros Hn. destruct (Itoa_digits n) as (Hd & Hf & Hne); [lia|]. unfold Atoi.
  destruct (Itoa n) as [|x l] eqn:E; [done|]. apply Forall_cons in Hf as [[d Hx] _].
  assert (Hm : x ≠ "-"%char ∧ x ≠ "+"%char) by (split; intros ->; done). destruct Hm as [Hm1 Hm2].
  assert (Hsign : sign (x :: l) = (false, x :: l)) by (simpl; by rewrite !decide_False).
  rewrite Hsign, Hd. rewrite (proj2 (Z.leb_le _ _)), (proj2 (Z.ltb_lt _ _)) by lia. done.
Qed.

(** ** Fields read back *)

Lemma Split_none sep l : sep ∉ l → Split sep l = [l].
Proof.
  induction l as [|x l IH]; [done|]. rewrite not_elem_of_cons. intros [Hx Hl]. simpl.
  rewrite decide_False by done. by rewrite IH.
Qed.

Lemma Split_app sep f l : sep ∉ f → Split sep (f ++ sep :: l) = f :: Split sep l.
Proof.
  induction f as [|x f IH]; simpl; [by rewrite decide_True|]. rewrite not_elem_of_cons. intros [Hx Hl].
  rewrite decide_False by done. by rewrite IH.
Qed.

Lemma Split_Join sep fs : fs ≠ [] → Forall (λ f, sep ∉ f) fs → Split sep (Join sep fs) = fs.
Proof.
  induction fs as [|f [|g fs] IH]; [done| |]; intros _ Hf; apply Forall_cons in Hf as [Hf Hfs].
  - by apply Split_none.
  - change (Join sep (f :: g :: fs)) with (f ++ sep :: Join sep (g :: fs)). rewrite Split_app by done. by rewrite IH.
Qed.

Lemma trimLeft_id l : (∀ x, head l = Some x → isSpace x = false) → trimLeft l = l.
Proof. destruct l as [|x l]; [done|]. intros H. simpl. by rewrite H. Qed.

Lemma TrimSpace_id l : Forall (λ x, isSpace x = false) l → TrimSpace l = l.
Proof.
  intros Hl. unfold TrimSpace. rewrite (trimLeft_id l).
  - rewrite trimLeft_id; [by rewrite reverse_involutive|]. intros x Hx. apply head_Some_elem_of in Hx.
    rewrite elem_of_reverse in Hx. rewrite Forall_forall in Hl. auto.
  - intros x Hx. apply head_Some_elem_of in Hx. rewrite Forall_forall in Hl. auto.
Qed.

Lemma digit_other x : isDigit x → isSpace x = false ∧ x ≠ ","%char ∧ x ≠ "-"%char.
Proof.
  intros [d Hd]. split_and!; [|by intros ->|by intros ->].
  unfold digit in Hd. destruct (_ && _) eqn:E; [|done]. bool_to_prop. unfold isSpace.
  destruct (Nat.leb_spec 9 (nat_of_ascii x)), (Nat.leb_spec (nat_of_ascii x) 13), (Nat.eqb_spec (nat_of_ascii x) 32); simpl; lia.
Qed.

Lemma ofStr_app s1 s2 : ofStr (s1 +:+ s2) = ofStr s1 ++ ofStr s2.
Proof. unfold ofStr. induction s1 as [|x s1 IH]; [done|]. simpl. f_equal. apply IH. Qed.

Lemma ofStr_inj s1 s2 : ofStr s1 = ofStr s2 → s1 = s2.
Proof.
  intros H. rewrite <-(String.string_of_list_ascii_of_string s1), <-(String.string_of_list_ascii_of_string s2).
  unfold ofStr in H. by rewrite H.
Qed.
