(* ===== verification/Nathole.v ===== *)
(** * Hole punching advice: [pkg/nathole/classify.go], [pkg/nathole/analysis.go]

    The server classifies the NAT of each peer from the addresses it was seen
    under and recommends what each peer does in an attempt.  The records of a
    pair of peers keep a score per behaviour: a recommendation costs the
    behaviour with the best score one point, a reported success earns two. *)
From S2P Require Import Prelude Chars.

Module Nathole.

(** ** Addresses: [net.SplitHostPort] *)

Inductive error := ErrMissingPort | ErrTooManyColons | ErrBracket | ErrSyntax | ErrNotEnough.

Definition SplitHostPort (hostport : chars) : res error (chars * chars) :=
  match lastIndexOf ":" hostport with
  | None => Err ErrMissingPort
  | Some i =>
      let? (host, j, k) :=
        (match hostport with
         | "["%char :: _ =>
             match indexOf "]" hostport with
             | None => Err ErrBracket
             | Some e =>
                 if decide (S e = length hostport) then Err ErrMissingPort
                 else if decide (S e = i) then Ok (drop 1 (take e hostport), 1%nat, S e)
                 else if decide (hostport !! S e = Some ":"%char) then Err ErrTooManyColons
                 else Err ErrMissingPort
             end
         | _ =>
             let host := take i hostport in
             if decide (":"%char ∈ host) then Err ErrTooManyColons else Ok (host, 0%nat, 0%nat)
         end) in
      if decide ("["%char ∈ drop j hostport) then Err ErrBracket
      else if decide ("]"%char ∈ drop k hostport) then Err ErrBracket
      else Ok (host, drop (S i) hostport)
  end.

Definition portNumber (port : chars) : res error Z :=
  match Atoi port with Some n => Ok n | None => Err ErrSyntax end.

(** ** Classification *)

Inductive NatType := EasyNAT | HardNAT.
Inductive Behavior := BehaviorNoChange | BehaviorIPChanged | BehaviorPortChanged | BehaviorBothChanged.
#[global] Instance NatType_eq_dec : EqDecision NatType.
Proof. solve_decision. Defined.
#[global] Instance Behavior_eq_dec : EqDecision Behavior.
Proof. solve_decision. Defined.

Record NatFeature := mkFeature {
  natType : NatType; behavior : Behavior; PortsDifference : Z; RegularPortsChange : bool; PublicNetwork : bool }.

(** The variables of the loop of [ClassifyNATFeature]. *)
Record scan := mkScan {
  public : bool; baseIP : chars; basePort : chars; portMax : Z; portMin : Z; ipChanged : bool; portChanged : bool }.

Definition scanOne (localIPs : list chars) (a : scan) (addr : chars) : res error scan :=
  let? (ip, port) := SplitHostPort addr in
  let? portNum := portNumber port in
  let pub := public a || bool_decide (ip ∈ localIPs) in
  if decide (baseIP a = []) then Ok (mkScan pub ip port portNum portNum (ipChanged a) (portChanged a))
  else Ok (mkScan pub (baseIP a) (basePort a) (Z.max (portMax a) portNum) (Z.min (portMin a) portNum)
             (ipChanged a || negb (bool_decide (baseIP a = ip)))
             (portChanged a || negb (bool_decide (basePort a = port)))).

Fixpoint scanAll (localIPs : list chars) (a : scan) (addrs : list chars) : res error scan :=
  match addrs with
  | [] => Ok a
  | addr :: addrs => let? a := scanOne localIPs a addr in scanAll localIPs a addrs
  end.

Definition ClassifyNATFeature (addresses localIPs : list chars) : res error NatFeature :=
  if decide (length addresses ≤ 1)%nat then Err ErrNotEnough
  else
    let? a := scanAll localIPs (mkScan false [] [] 0 0 false false) addresses in
    let '(ty, bh) := match ipChanged a, portChanged a with
                     | true, true => (HardNAT, BehaviorBothChanged)
                     | true, false => (HardNAT, BehaviorIPChanged)
                     | false, true => (HardNAT, BehaviorPortChanged)
                     | false, false => (EasyNAT, BehaviorNoChange)
                     end in
    if decide (bh = BehaviorPortChanged) then
      let d := portMax a - portMin a in
      Ok (mkFeature ty bh d ((d <=? 5) && (1 <=? d)) (public a))
    else Ok (mkFeature ty bh 0 false (public a)).

Fixpoint ClassifyFeatureCount (features : list NatFeature) : nat * nat * nat :=
  match features with
  | [] => (0, 0, 0)%nat
  | f :: fs =>
      let '(easy, hard, regular) := ClassifyFeatureCount fs in
      if decide (natType f = EasyNAT) then (S easy, hard, regular)
      else (easy, S hard, if RegularPortsChange f then S regular else regular)
  end.

(** ** Behaviours *)

Inductive Role := DetectRoleSender | DetectRoleReceiver | NoRole.
#[global] Instance Role_eq_dec : EqDecision Role.
Proof. solve_decision. Defined.

Record RecommandBehavior := mkBehavior {
  role : Role; TTL : Z; SendDelayMs : Z; PortsRangeNumber : Z; PortsRandomNumber : Z; ListenRandomPorts : Z }.

Definition sender (delay range random : Z) : RecommandBehavior :=
  mkBehavior DetectRoleSender 0 delay range random 0.
Definition receiver (ttl range listen : Z) : RecommandBehavior :=
  mkBehavior DetectRoleReceiver ttl 0 range 0 listen.

Definition mode0Behaviors : list (RecommandBehavior * RecommandBehavior) :=
  [ (sender 0 0 0, receiver 7 0 0); (receiver 7 0 0, sender 0 0 0);
    (sender 0 0 0, receiver 4 0 0); (receiver 4 0 0, sender 0 0 0);
    (sender 0 0 0, receiver 0 0 0); (receiver 0 0 0, sender 0 0 0);
    (sender 5000 0 0, receiver 0 0 0); (sender 10000 0 0, receiver 0 0 0);
    (receiver 0 0 0, sender 5000 0 0); (receiver 0 0 0, sender 10000 0 0) ].

Definition mode1Behaviors : list (RecommandBehavior * RecommandBehavior) :=
  [ (sender 0 0 0, receiver 7 10 0); (sender 2000 0 0, receiver 7 10 0);
    (sender 0 0 0, receiver 4 10 0); (sender 2000 0 0, receiver 4 10 0);
    (sender 0 0 0, receiver 0 10 0); (sender 2000 0 0, receiver 0 10 0) ].

Definition mode2Behaviors : list (RecommandBehavior * RecommandBehavior) :=
  [ (sender 3000 0 1000, receiver 7 0 256); (sender 3000 0 1000, receiver 4 0 256);
    (sender 3000 0 1000, receiver 0 0 256) ].

Definition mode3Behaviors : list (RecommandBehavior * RecommandBehavior) :=
  [ (sender 0 10 0, receiver 7 10 0); (sender 0 10 0, receiver 4 10 0); (sender 0 10 0, receiver 0 10 0);
    (receiver 7 10 0, sender 0 10 0); (receiver 4 10 0, sender 0 10 0); (receiver 0 10 0, sender 0 10 0) ].

Definition mode4Behaviors : list (RecommandBehavior * RecommandBehavior) :=
  [ (sender 3000 0 1000, receiver 7 2 256); (sender 3000 0 1000, receiver 4 2 256);
    (sender 3000 0 1000, receiver 0 2 256) ].

Definition getBehaviorByMode (mode : Z) : list (RecommandBehavior * RecommandBehavior) :=
  match mode with
  | 1 => mode1Behaviors | 2 => mode2Behaviors | 3 => mode3Behaviors | 4 => mode4Behaviors
  | _ => mode0Behaviors
  end.

Definition getBehaviorByModeAndIndex (mode : Z) (index : nat) : RecommandBehavior * RecommandBehavior :=
  default (mkBehavior NoRole 0 0 0 0 0, mkBehavior NoRole 0 0 0 0 0) (getBehaviorByMode mode !! index).

Record behaviorScore := mkScore { Mode : Z; Index : nat; Score : Z }.

Definition getBehaviorScoresByMode2 (mode senderScore receiverScore : Z) : list behaviorScore :=
  imap (λ i b, mkScore mode i (if decide (role (fst b) = DetectRoleSender) then senderScore else receiverScore))
    (getBehaviorByMode mode).

Definition getBehaviorScoresByMode (mode defaultScore : Z) : list behaviorScore :=
  getBehaviorScoresByMode2 mode defaultScore defaultScore.

(** ** Records of a pair of peers *)

Record makeHoleRecords := mkRecords { scores : list behaviorScore; lastUpdateTime : Z }.

Definition appendMode0 (c v : NatFeature) : list behaviorScore :=
  if PublicNetwork c then getBehaviorScoresByMode2 0 0 1
  else if PublicNetwork v then getBehaviorScoresByMode2 0 1 0
  else getBehaviorScoresByMode 0 0.

Definition initialScores (c v : NatFeature) : list behaviorScore :=
  match ClassifyFeatureCount [c; v] with
  | (2%nat, _, _) => appendMode0 c v
  | (_, 1%nat, 1%nat) => getBehaviorScoresByMode 1 0 ++ getBehaviorScoresByMode 2 0 ++ appendMode0 c v
  | (_, 1%nat, 0%nat) => getBehaviorScoresByMode 2 0 ++ getBehaviorScoresByMode 1 0 ++ appendMode0 c v
  | (_, 2%nat, 2%nat) => getBehaviorScoresByMode 3 0 ++ getBehaviorScoresByMode 4 0
  | (_, 2%nat, 1%nat) => getBehaviorScoresByMode 4 0
  | _ => getBehaviorScoresByMode 0 1 ++ getBehaviorScoresByMode 1 1 ++ getBehaviorScoresByMode 3 1
  end.

Definition newMakeHoleRecords (now : Z) (c v : NatFeature) : makeHoleRecords := mkRecords (initialScores c v) now.

Fixpoint rewardFirst (mode : Z) (index : nat) (l : list behaviorScore) : list behaviorScore :=
  match l with
  | [] => []
  | s :: l => if decide (Mode s = mode ∧ Index s = index)
              then mkScore (Mode s) (Index s) (Z.min (Score s + 2) 10) :: l
              else s :: rewardFirst mode index l
  end.

Definition reportSuccess (now : Z) (mode : Z) (index : nat) (r : makeHoleRecords) : makeHoleRecords :=
  mkRecords (rewardFirst mode index (scores r)) now.

(** [slices.MaxFunc]: the position of the first of the best scores. *)
Fixpoint best (l : list behaviorScore) : option (nat * behaviorScore) :=
  match l with
  | [] => None
  | s :: l => match best l with
              | Some (i, m) => if Score s <? Score m then Some (S i, m) else Some (0%nat, s)
              | None => Some (0%nat, s)
              end
  end.

Definition recommand (now : Z) (r : makeHoleRecords) : Z * nat * makeHoleRecords :=
  match best (scores r) with
  | None => (0, 0%nat, r)
  | Some (i, m) => (Mode m, Index m, mkRecords (<[ i := mkScore (Mode m) (Index m) (Score m - 1) ]> (scores r)) now)
  end.

(** ** The analyzer *)

Record Analyzer := mkAnalyzer { records : gmap string makeHoleRecords; dataReserveDuration : Z }.

Definition NewAnalyzer (d : Z) : Analyzer := mkAnalyzer ∅ d.

(** Whether the behaviours of the table are swapped for client and visitor. *)
Definition swapped (mode : Z) (c : NatFeature) : bool :=
  match mode with
  | 1 => bool_decide (natType c = EasyNAT)
  | 2 => bool_decide (natType c = HardNAT)
  | 4 => negb (RegularPortsChange c)
  | _ => false
  end.

Definition GetRecommandBehaviors (now : Z) (key : string) (c v : NatFeature) (a : Analyzer)
    : (Z * nat * RecommandBehavior * RecommandBehavior) * Analyzer :=
  let r := default (newMakeHoleRecords now c v) (records a !! key) in
  let '(mode, index, r) := recommand now r in
  let '(cb, vb) := getBehaviorByModeAndIndex mode index in
  ((if swapped mode c then (mode, index, vb, cb) else (mode, index, cb, vb)),
   mkAnalyzer (<[ key := r ]> (records a)) (dataReserveDuration a)).

Definition ReportSuccess (now : Z) (key : string) (mode : Z) (index : nat) (a : Analyzer) : Analyzer :=
  match records a !! key with
  | None => a
  | Some r => mkAnalyzer (<[ key := reportSuccess now mode index r ]> (records a)) (dataReserveDuration a)
  end.

Definition Clean (now : Z) (a : Analyzer) : Analyzer :=
  mkAnalyzer (filter (λ kr, now - lastUpdateTime (snd kr) ≤ dataReserveDuration a) (records a))
    (dataReserveDuration a).

(** ** What the classification says of the addresses *)

(** An address with its host, port and port number. *)
Definition parsed (addr : chars) (p : chars * chars * Z) : Prop :=
  SplitHostPort addr = Ok (p.1.1, p.1.2) ∧ portNumber p.1.2 = Ok p.2 ∧ p.1.1 ≠ [].

Definition highest (n : Z) (ps : list (chars * chars * Z)) : Z := foldl (λ m p, Z.max m p.2) n ps.
Definition lowest (n : Z) (ps : list (chars * chars * Z)) : Z := foldl (λ m p, Z.min m p.2) n ps.

Lemma exists_cons {A} (P : A → Prop) x l : (∃ y, y ∈ x :: l ∧ P y) ↔ P x ∨ ∃ y, y ∈ l ∧ P y.
Proof.
  split.
  - intros (y & [->|Hy]%elem_of_cons & HP); eauto.
  - intros [?|(y & ? & ?)]; [exists x|exists y]; rewrite elem_of_cons; auto.
Qed.

Lemma scanAll_parsed local addrs ps a :
  Forall2 parsed addrs ps → baseIP a ≠ [] →
  ∃ a', scanAll local a addrs = Ok a' ∧ portMax a' = highest (portMax a) ps ∧ portMin a' = lowest (portMin a) ps ∧
    (ipChanged a' = true ↔ ipChanged a = true ∨ ∃ p, p ∈ ps ∧ p.1.1 ≠ baseIP a) ∧
    (portChanged a' = true ↔ portChanged a = true ∨ ∃ p, p ∈ ps ∧ p.1.2 ≠ basePort a) ∧
    (public a' = true ↔ public a = true ∨ ∃ p, p ∈ ps ∧ p.1.1 ∈ local).
Proof.
  intros HF. revert a. induction HF as [|addr p addrs ps (Hs & Hn & Hne) HF IH]; intros a Hb.
  { exists a. simpl. repeat split; try (by left); intros [?|(p & []%elem_of_nil & _)]; done. }
  simpl. unfold scanOne. rewrite Hs, Hn, decide_False by done. edestruct IH as (a' & Ha' & Hmx & Hmn & Hip & Hpo & Hpu);
    [|rewrite Ha'].
  { exact Hb. }
  cbn [portMax portMin ipChanged portChanged public baseIP basePort] in *. exists a'. split; [done|]. split; [exact Hmx|]. split; [exact Hmn|].
  rewrite Hip, Hpo, Hpu, !orb_true_iff, !negb_true_iff, !bool_decide_eq_false, bool_decide_eq_true.
  rewrite !exists_cons. repeat split; clear; intros; repeat match goal with H : _ ∨ _ |- _ => destruct H end; auto.
Qed.

(** the classification of at least two addresses with a host and a valid
    port: the NAT is easy exactly when all of them have the host and port of
    the first; the ports change regularly exactly when only the port differs
    and the port numbers lie within one to five of each other; the network is
    public exactly when some host is a local address. *)
Theorem classify_spec addrs local ip0 port0 n0 ps :
  Forall2 parsed addrs ((ip0, port0, n0) :: ps) → ps ≠ [] →
  ∃ f, ClassifyNATFeature addrs local = Ok f ∧
    (natType f = EasyNAT ↔ ∀ p, p ∈ ps → p.1 = (ip0, port0)) ∧
    (RegularPortsChange f = true ↔ (∀ p, p ∈ ps → p.1.1 = ip0) ∧ (∃ p, p ∈ ps ∧ p.1.2 ≠ port0) ∧
       1 ≤ highest n0 ps - lowest n0 ps ≤ 5) ∧
    (PublicNetwork f = true ↔ ip0 ∈ local ∨ ∃ p, p ∈ ps ∧ p.1.1 ∈ local).
Proof.
  intros HF Hne. inversion HF as [|addr p0 addrs' ps' (Hs & Hn & Hb) HF']; subst. unfold ClassifyNATFeature.
  rewrite decide_False by (apply Forall2_length in HF'; destruct ps; simpl in *; [done|lia]).
  cbn [scanAll]. unfold scanOne. rewrite Hs, Hn, decide_True by done.
  edestruct (scanAll_parsed local addrs' ps) as (a & -> & Hmax & Hmin & Hip & Hpo & Hpu); [done|exact Hb|].
  cbn [portMax portMin ipChanged portChanged public baseIP basePort fst snd] in *.
  assert (Hip' : ipChanged a = false ↔ ∀ p, p ∈ ps → p.1.1 = ip0).
  { rewrite <- not_true_iff_false, Hip. split.
    - intros Hx p Hp. apply dec_stable. intros Hn'. apply Hx. right. eauto.
    - intros Hx [?|(p & Hp & Hn')]; [done|]. by apply Hn', Hx. }
  assert (Hpo' : portChanged a = false ↔ ∀ p, p ∈ ps → p.1.2 = port0).
  { rewrite <- not_true_iff_false, Hpo. split.
    - intros Hx p Hp. apply dec_stable. intros Hn'. apply Hx. right. eauto.
    - intros Hx [?|(p & Hp & Hn')]; [done|]. by apply Hn', Hx. }
  assert (Heq : (∀ p, p ∈ ps → p.1 = (ip0, port0)) ↔ ipChanged a = false ∧ portChanged a = false).
  { rewrite Hip', Hpo'. split; [intros Hall; split; intros p Hp; by rewrite (Hall p Hp)|]. intros [H1 H2] [[x y] z] Hp. simpl. f_equal; [by apply (H1 _ Hp)|by apply (H2 _ Hp)]. }
  rewrite orb_false_l, bool_decide_eq_true in Hpu.
  assert (Hpo2 : portChanged a = true ↔ ∃ p, p ∈ ps ∧ p.1.2 ≠ port0)
    by (rewrite Hpo; split; [by intros [?|?]|by right]).
  assert (Hpu2 : public a = true ↔ ip0 ∈ local ∨ ∃ p, p ∈ ps ∧ p.1.1 ∈ local)
    by (rewrite Hpu; simpl; split; [intros [?|?]; auto; done|intros [?|?]; auto]).
  destruct (ipChanged a), (portChanged a); simpl; eexists; (split; [done|]); simpl;
    rewrite Heq, <- Hip', <- Hmax, <- Hmin, <- Hpo2, <- Hpu2;
    rewrite ?andb_true_iff, ?Z.leb_le; repeat split; try done; try tauto; lia.
Qed.

Lemma classify_spec_witness :
  ∃ f, ClassifyNATFeature [ofStr "1.2.3.4:100"; ofStr "1.2.3.4:102"] [ofStr "10.0.0.1"] = Ok f ∧ natType f ≠ EasyNAT.
Proof.
  destruct (classify_spec [ofStr "1.2.3.4:100"; ofStr "1.2.3.4:102"] [ofStr "10.0.0.1"] (ofStr "1.2.3.4") (ofStr "100") 100
    [(ofStr "1.2.3.4", ofStr "102", 102)]) as (f & Hf & Hn & _).
  - repeat constructor; try (vm_compute; reflexivity); vm_compute; discriminate.
  - discriminate.
  - exists f. split; [exact Hf|]. rewrite Hn. intros H.
    specialize (H (ofStr "1.2.3.4", ofStr "102", 102) ltac:(left)). vm_compute in H. discriminate.
Defined.

(** ** Recommendations lead to every behaviour *)

Lemma best_spec l i m :
  best l = Some (i, m) → l !! i = Some m ∧ ∀ s, s ∈ l → Score s ≤ Score m.
Proof.
  revert i m. induction l as [|x l IH]; [done|]. intros i m. simpl. destruct (best l) as [[k y]|] eqn:E.
  - destruct (IH k y eq_refl) as [Hk Hmax]. destruct (Z.ltb_spec (Score x) (Score y)); intros [= <- <-]; simpl.
    + split; [done|]. intros s [->|Hs]%elem_of_cons; [lia|auto].
    + split; [done|]. intros s [->|Hs]%elem_of_cons; [lia|]. specialize (Hmax s Hs). lia.
  - intros [= <- <-]. split; [done|]. destruct l as [|z l]; [set_solver|]. simpl in E.
    destruct (best l) as [[]|]; [destruct (_ <? _)|]; done.
Qed.

Lemma best_Some l : l ≠ [] → is_Some (best l).
Proof. destruct l as [|x l]; [done|]. intros _. simpl. destruct (best l) as [[]|]; [destruct (_ <? _)|]; eauto. Qed.

(** The points above [b - 1] that the scores of [l] have in all. *)
Definition excess (b : Z) (l : list behaviorScore) : Z :=
  foldr (λ s acc, Z.max 0 (Score s - b + 1) + acc) 0 l.

Lemma excess_nonneg b l : 0 ≤ excess b l.
Proof. induction l; simpl; lia. Qed.

Lemma excess_lookup b l i s : l !! i = Some s → Z.max 0 (Score s - b + 1) ≤ excess b l.
Proof.
  revert i. induction l as [|x l IH]; [done|]. intros [|i]; simpl.
  - intros [= ->]. pose proof (excess_nonneg b l). lia.
  - intros Hi. specialize (IH i Hi). lia.
Qed.

Lemma excess_dec b l i s :
  l !! i = Some s → b ≤ Score s → excess b (<[ i := mkScore (Mode s) (Index s) (Score s - 1) ]> l) = excess b l - 1.
Proof.
  revert i. induction l as [|x l IH]; [done|]. intros [|i]; simpl.
  - intros [= ->] Hb. simpl. lia.
  - intros Hi Hb. rewrite (IH i Hi Hb). lia.
Qed.

(** The behaviours of [n] recommendations in a row, at the times [now]. *)
Fixpoint recommands (n : nat) (now : nat → Z) (r : makeHoleRecords) : list (Z * nat) :=
  match n with
  | O => []
  | S n => let '(mode, index, r) := recommand (now 0%nat) r in (mode, index) :: recommands n (λ k, now (S k)) r
  end.

(** as long as no success is reported every behaviour of the records is
    tried: within as many recommendations as the scores have points above the
    score of the behaviour minus one, the behaviour is among those
    recommended. *)
Theorem recommand_explores now r j s :
  scores r !! j = Some s →
  (Mode s, Index s) ∈ recommands (Z.to_nat (excess (Score s) (scores r))) now r.
Proof.
  remember (Z.to_nat (excess (Score s) (scores r))) as n eqn:Hn. revert now r Hn.
  induction n as [|n IH]; intros now r Hn Hj; pose proof (excess_lookup (Score s) _ _ _ Hj) as Hx; [lia|].
  simpl. unfold recommand. destruct (best_Some (scores r)) as [[i m] Hbest]; [intros E; by rewrite E in Hj|].
  rewrite Hbest. destruct (best_spec _ _ _ Hbest) as [Hi Hmax]. rewrite elem_of_cons.
  destruct (decide (i = j)) as [->|Hne]; [left; by simplify_eq|]. right.
  assert (Hb : Score s ≤ Score m) by (apply Hmax; by eapply list_elem_of_lookup_2).
  apply IH; simpl; [rewrite (excess_dec _ _ _ _ Hi Hb); lia|]. by rewrite list_lookup_insert_ne.
Qed.

(** ** Roles *)

Definition scoreOk (s : behaviorScore) : Prop :=
  0 ≤ Mode s ≤ 4 ∧ (Index s < length (getBehaviorByMode (Mode s)))%nat ∧ Score s ≤ 10.

Definition recordsOk (r : makeHoleRecords) : Prop := scores r ≠ [] ∧ Forall scoreOk (scores r).

Inductive step (a : Analyzer) : Analyzer → Prop :=
| step_recommend now key c v : step a (GetRecommandBehaviors now key c v a).2
| step_success now key mode index : step a (ReportSuccess now key mode index a)
| step_clean now : step a (Clean now a).

Lemma scores_ok mode x y :
  0 ≤ mode ≤ 4 → x ≤ 10 → y ≤ 10 → Forall scoreOk (getBehaviorScoresByMode2 mode x y).
Proof.
  intros Hm Hx Hy. unfold getBehaviorScoresByMode2. apply Forall_forall. intros s (i & b & -> & Hi)%elem_of_lookup_imap.
  split; [done|]. simpl. split; [by eapply lookup_lt_Some|]. by case_decide.
Qed.

Lemma initialScores_ok c v : initialScores c v ≠ [] ∧ Forall scoreOk (initialScores c v).
Proof.
  split.
  - unfold initialScores, appendMode0. destruct (ClassifyFeatureCount [c; v]) as [[e h] p].
    repeat case_match; discriminate.
  - unfold initialScores, appendMode0, getBehaviorScoresByMode.
    repeat case_match; rewrite ?Forall_app; split_and?; apply scores_ok; lia.
Qed.

Lemma recommand_ok now r : recordsOk r → recordsOk (recommand now r).2.
Proof.
  intros [Hne Hall]. unfold recommand. destruct (best (scores r)) as [[i m]|] eqn:E; [|done]. simpl. split; simpl.
  - destruct (scores r), i; done.
  - destruct (best_spec _ _ _ E) as [Hi _]. apply Forall_insert; [done|].
    pose proof (Forall_lookup_1 _ _ _ _ Hall Hi) as (? & ? & ?). split_and!; simpl; try done; lia.
Qed.

Lemma reportSuccess_ok now mode index r : recordsOk r → recordsOk (reportSuccess now mode index r).
Proof.
  intros [Hne Hall]. unfold reportSuccess. split; simpl.
  - destruct (scores r); simpl; [done|]. by case_decide.
  - clear Hne. induction Hall as [|s l Hs Hl IH]; simpl; [constructor|]. case_decide; [|by constructor].
    constructor; [|done]. destruct Hs as (? & ? & ?). split_and!; simpl; try done; lia.
Qed.

Lemma analyzer_ok a a' : map_Forall (λ _, recordsOk) (records a) → rtc step a a' → map_Forall (λ _, recordsOk) (records a').
Proof.
  intros Ha H. induction H as [|a1 a2 a3 Hs _ IH]; [done|]. apply IH. clear IH. destruct Hs; simpl.
  - unfold GetRecommandBehaviors.
    assert (Hr : recordsOk (recommand now (default (newMakeHoleRecords now c v) (records a1 !! key))).2).
    { apply recommand_ok. destruct (records a1 !! key) as [r|] eqn:E; [by apply (Ha key)|]. apply initialScores_ok. }
    destruct (recommand _ _) as [[mode index] r]. destruct (getBehaviorByModeAndIndex _ _).
    cbn [fst snd]. destruct (swapped mode c); by apply map_Forall_insert_2.
  - unfold ReportSuccess. destruct (records a1 !! key) as [r|] eqn:E; [|done]. simpl.
    apply map_Forall_insert_2; [|done]. apply reportSuccess_ok. by apply (Ha key).
  - intros k r [Hk _]%map_lookup_filter_Some. by apply (Ha k).
Qed.

(** The tables pair a sender with a receiver, and in modes 1, 2 and 4 the
    first of the pair is the sender. *)
Definition rolesOf (mode : Z) (b : RecommandBehavior * RecommandBehavior) : Prop :=
  role (fst b) = DetectRoleSender ∧ role (snd b) = DetectRoleReceiver ∨
  role (fst b) = DetectRoleReceiver ∧ role (snd b) = DetectRoleSender ∧ mode ≠ 1 ∧ mode ≠ 2 ∧ mode ≠ 4.
#[local] Instance rolesOf_dec mode b : Decision (rolesOf mode b).
Proof. unfold rolesOf. apply _. Defined.

Lemma table_roles mode index cb vb :
  0 ≤ mode ≤ 4 → (index < length (getBehaviorByMode mode))%nat → getBehaviorByModeAndIndex mode index = (cb, vb) →
  (role cb = DetectRoleSender ∧ role vb = DetectRoleReceiver ∨
   role cb = DetectRoleReceiver ∧ role vb = DetectRoleSender ∧ mode ≠ 1 ∧ mode ≠ 2 ∧ mode ≠ 4).
Proof.
  intros Hm [b Hb]%lookup_lt_is_Some_2. unfold getBehaviorByModeAndIndex. rewrite Hb. simpl. intros ->.
  assert (mode = 0 ∨ mode = 1 ∨ mode = 2 ∨ mode = 3 ∨ mode = 4) as Hcase by lia.
  apply (Forall_lookup_1 (rolesOf mode) (getBehaviorByMode mode) index (cb, vb)); [|done].
  destruct Hcase as [->|[->|[->|[->| ->]]]]; apply (bool_decide_unpack _); vm_compute; exact I.
Qed.

(** whatever was reported before, a recommendation gives one peer the role
    of the sender and the other the role of the receiver; with one hard NAT
    the peer behind it sends in mode 1 and receives in mode 2, and in mode 4
    the peer whose ports change regularly sends. *)
Theorem recommand_roles d now key c v a mode index cb vb :
  rtc step (NewAnalyzer d) a → (GetRecommandBehaviors now key c v a).1 = (mode, index, cb, vb) →
  (role cb = DetectRoleSender ∧ role vb = DetectRoleReceiver ∨
   role cb = DetectRoleReceiver ∧ role vb = DetectRoleSender) ∧
  (mode = 1 → natType c ≠ natType v → (role cb = DetectRoleSender ↔ natType c = HardNAT)) ∧
  (mode = 2 → natType c ≠ natType v → (role cb = DetectRoleReceiver ↔ natType c = HardNAT)) ∧
  (mode = 4 → (role cb = DetectRoleSender ↔ RegularPortsChange c = true)).
Proof.
  intros Ha%analyzer_ok; [|done]. unfold GetRecommandBehaviors.
  assert (Hr : recordsOk (default (newMakeHoleRecords now c v) (records a !! key))).
  { destruct (records a !! key) as [r|] eqn:E; [by apply (Ha key)|]. apply initialScores_ok. }
  destruct Hr as [Hne Hall]. unfold recommand. destruct (best_Some _ Hne) as [[i m] Hbest]. rewrite Hbest.
  destruct (best_spec _ _ _ Hbest) as [Hi _]. pose proof (Forall_lookup_1 _ _ _ _ Hall Hi) as (Hm & Hx & _).
  destruct (getBehaviorByModeAndIndex (Mode m) (Index m)) as [b1 b2] eqn:Hb.
  pose proof (table_roles _ _ _ _ Hm Hx Hb) as Hroles. cbn [fst].
  destruct (swapped (Mode m) c) eqn:Hsw; intros [= <- <- <- <-];
    (split; [tauto|]); split_and!; intros E; try intros Hty; rewrite E in *; simpl in Hsw;
    destruct Hroles as [[E1 E2]|(_ & _ & ? & ? & ?)]; try done; rewrite ?E1, ?E2;
    (destruct (natType c), (RegularPortsChange c); done).
Qed.

(** The scores of records that no success is reported for have no lower
    bound, although they are documented to stay between -10 and 10. *)
Definition demoEasy : NatFeature := mkFeature EasyNAT BehaviorNoChange 0 false false.
Fixpoint recommandN (n : nat) (r : makeHoleRecords) : makeHoleRecords :=
  match n with O => r | S n => recommandN n (recommand 0 r).2 end.

Example scores_below_minus_ten :
  Forall (λ s, Score s < -10) (scores (recommandN 110 (newMakeHoleRecords 0 demoEasy demoEasy))).
Proof. apply (bool_decide_unpack _). vm_compute. exact I. Qed.

Lemma recommand_explores_witness :
  (0, 9%nat) ∈ recommands 10 (λ _, 0) (newMakeHoleRecords 0 demoEasy demoEasy).
Proof.
  apply (recommand_explores (λ _, 0) (newMakeHoleRecords 0 demoEasy demoEasy) 9%nat (mkScore 0 9 0)).
  vm_compute. reflexivity.
Defined.

Definition demoHard : NatFeature := mkFeature HardNAT BehaviorPortChanged 2 true false.

Lemma recommand_roles_witness :
  (GetRecommandBehaviors 0 "k" demoEasy demoHard (NewAnalyzer 5)).1 =
    (1, 0%nat, receiver 7 10 0, sender 0 0 0) ∧
  (DetectRoleReceiver = DetectRoleSender ↔ natType demoEasy = HardNAT).
Proof.
  assert (E : (GetRecommandBehaviors 0 "k" demoEasy demoHard (NewAnalyzer 5)).1 =
    (1, 0%nat, receiver 7 10 0, sender 0 0 0)) by (vm_compute; reflexivity).
  split; [exact E|].
  destruct (recommand_roles 5 0 "k" demoEasy demoHard (NewAnalyzer 5) 1 0%nat (receiver 7 10 0) (sender 0 0 0)
    (rtc_refl _ _) E) as (_ & H & _). apply H; [reflexivity|discriminate].
Defined.

End Nathole.
