(* ===== verification/DateCounter.v ===== *)
(** * Daily traffic counters: [pkg/util/metric/date_counter.go]

    A counter keeps the amounts of the last days, today first, and shifts them
    when it is used on a later day.  Times are nanoseconds; the midnight before
    a time is given by the zone of the clock. *)
From S2P Require Import Prelude.

Module DateCounter.

Definition dayNs : Z := 24 * 3600 * 1000000000.

(** Addition of [int64]. *)
Definition wrap64 (z : Z) : Z := (z + 2 ^ 63) mod 2 ^ 64 - 2 ^ 63.

Record StandardDateCounter := mkCounter { reserveDays : nat; counts : list Z; lastUpdateDate : Z }.

Section counter.
(** [startOfDay]: midnight in the location of the clock. *)
Variable startOfDay : Z → Z.

Definition newStandardDateCounter (reserve : nat) (now : Z) : StandardDateCounter :=
  mkCounter reserve (replicate reserve 0) (startOfDay now).

Definition NewDateCounter (reserve : Z) (now : Z) : StandardDateCounter :=
  newStandardDateCounter (if reserve <=? 0 then 1%nat else Z.to_nat reserve) now.

Definition rotate (now : Z) (c : StandardDateCounter) : StandardDateCounter :=
  let now := startOfDay now in
  let days := Z.quot (now - lastUpdateDate c) dayNs in
  if days <=? 0 then c
  else if Z.of_nat (reserveDays c) <=? days
  then mkCounter (reserveDays c) (replicate (reserveDays c) 0) now
  else mkCounter (reserveDays c)
         (replicate (Z.to_nat days) 0 ++ take (reserveDays c - Z.to_nat days) (counts c)) now.

Definition addToday (count : Z) (c : StandardDateCounter) : StandardDateCounter :=
  mkCounter (reserveDays c)
    (match counts c with x :: l => wrap64 (x + count) :: l | [] => [] end) (lastUpdateDate c).

Definition Inc (now count : Z) (c : StandardDateCounter) : StandardDateCounter := addToday count (rotate now c).
Definition Dec (now count : Z) (c : StandardDateCounter) : StandardDateCounter := addToday (- count) (rotate now c).

Definition TodayCount (now : Z) (c : StandardDateCounter) : option Z * StandardDateCounter :=
  let c := rotate now c in (counts c !! 0%nat, c).

Definition GetLastDaysCount (now : Z) (lastdays : nat) (c : StandardDateCounter)
    : list Z * StandardDateCounter :=
  let c := rotate now c in (take (Nat.min lastdays (reserveDays c)) (counts c), c).

Definition Snapshot (now : Z) (c : StandardDateCounter) : StandardDateCounter :=
  let tmp := newStandardDateCounter (reserveDays c) now in
  mkCounter (reserveDays tmp) (counts c) (lastUpdateDate tmp).

Definition Clear (c : StandardDateCounter) : StandardDateCounter :=
  mkCounter (reserveDays c) (replicate (length (counts c)) 0) (lastUpdateDate c).

End counter.

(** ** The counter refines a ledger of amounts per day *)

Section ledger.
(** A zone with a fixed offset to UTC. *)
Variable off : Z.

Definition dayOf (t : Z) : Z := (t + off) / dayNs.
Definition midnight (t : Z) : Z := dayOf t * dayNs - off.

Inductive op := OInc (now count : Z) | ODec (now count : Z) | ORead (now : Z).

Definition opTime (o : op) : Z := match o with OInc t _ | ODec t _ | ORead t => t end.

Definition apply (c : StandardDateCounter) (o : op) : StandardDateCounter :=
  match o with
  | OInc now n => Inc midnight now n c
  | ODec now n => Dec midnight now n c
  | ORead now => (TodayCount midnight now c).2
  end.

(** What was counted on day [d]. *)
Definition amount (d : Z) (o : op) : Z :=
  match o with
  | OInc now n => if dayOf now =? d then n else 0
  | ODec now n => if dayOf now =? d then - n else 0
  | ORead _ => 0
  end.
Definition ledger (ops : list op) (d : Z) : Z := foldl (λ acc o, acc + amount d o) 0 ops.

(** Operations at times that never go back, the first one at [t] or later. *)
Fixpoint ordered (t : Z) (ops : list op) : Prop :=
  match ops with [] => True | o :: ops => t ≤ opTime o ∧ ordered (opTime o) ops end.

Definition lastTime (t : Z) (ops : list op) : Z := foldl (λ _ o, opTime o) t ops.

(** The counter at day [L] holds the ledger of the days before. *)
Definition holds (c : StandardDateCounter) (L : Z) (led : Z → Z) : Prop :=
  lastUpdateDate c = L * dayNs - off ∧ length (counts c) = reserveDays c ∧
  (∀ i, (i < reserveDays c)%nat → counts c !! i = Some (wrap64 (led (L - Z.of_nat i)))) ∧
  (∀ d, L < d → led d = 0).

Lemma wrap64_0 : wrap64 0 = 0.
Proof. done. Qed.

Lemma wrap64_add x y : wrap64 (wrap64 x + y) = wrap64 (x + y).
Proof.
  unfold wrap64. f_equal. replace ((x + 2 ^ 63) mod 2 ^ 64 - 2 ^ 63 + y + 2 ^ 63) with ((x + 2 ^ 63) mod 2 ^ 64 + y) by lia.
  rewrite Zplus_mod_idemp_l. f_equal. lia.
Qed.

Lemma holds_rotate c L led now :
  holds c L led → L ≤ dayOf now → holds (rotate midnight now c) (dayOf now) led.
Proof.
  intros (Hl & Hlen & Hc & Hz) Hle. unfold rotate, midnight. rewrite Hl.
  replace (dayOf now * dayNs - off - (L * dayNs - off)) with ((dayOf now - L) * dayNs) by lia.
  rewrite Z.quot_mul by done. set (days := dayOf now - L).
  destruct (Z.leb_spec days 0).
  { assert (dayOf now = L) as -> by lia. done. }
  destruct (Z.leb_spec (Z.of_nat (reserveDays c)) days).
  - split_and!; simpl; [done|by rewrite length_replicate| |intros; apply Hz; lia].
    intros i Hi. rewrite lookup_replicate_2 by done. rewrite Hz by lia. done.
  - split_and!; simpl; [done| | |intros; apply Hz; lia].
    { rewrite length_app, length_replicate, length_take. lia. }
    intros i Hi. destruct (decide (i < Z.to_nat days)%nat).
    + rewrite lookup_app_l, lookup_replicate_2 by (rewrite ?length_replicate; done). rewrite Hz by lia. done.
    + rewrite lookup_app_r, length_replicate by (rewrite length_replicate; lia).
      rewrite lookup_take_lt by lia. rewrite Hc by lia. do 3 f_equal. lia.
Qed.

Lemma holds_add c L led n :
  holds c L led → holds (addToday n c) L (λ d, led d + (if L =? d then n else 0)).
Proof.
  intros (Hl & Hlen & Hc & Hz). unfold addToday. destruct (counts c) as [|x l] eqn:E.
  { split_and!; simpl; [done|by rewrite <- Hlen| |]; [intros i; simpl in *; lia|].
    intros d Hd. rewrite Hz by done. destruct (Z.eqb_spec L d); lia. }
  split_and!; simpl in *; [done|done| |].
  - intros [|i] Hi; simpl.
    + specialize (Hc 0%nat Hi). simpl in Hc. injection Hc as ->. rewrite Z.sub_0_r, Z.eqb_refl. by rewrite wrap64_add.
    + pose proof (Hc (S i) Hi) as E2. simpl in E2. rewrite E2. destruct (Z.eqb_spec L (L - Z.of_nat (S i))); [lia|]. by rewrite Z.add_0_r.
  - intros d Hd. rewrite Hz by done. destruct (Z.eqb_spec L d); lia.
Qed.

Lemma holds_ext c L led led' : (∀ d, led d = led' d) → holds c L led → holds c L led'.
Proof. intros E (? & ? & Hc & Hz). split_and!; try done; [intros; rewrite <- E; auto|intros; rewrite <- E; auto]. Qed.

Lemma dayOf_mono t t' : t ≤ t' → dayOf t ≤ dayOf t'.
Proof. intros. apply Z.div_le_mono; unfold dayNs; lia. Qed.

Lemma holds_apply c L led o :
  holds c L led → L ≤ dayOf (opTime o) → holds (apply c o) (dayOf (opTime o)) (λ d, led d + amount d o).
Proof.
  intros Hc Hle. destruct o as [now n|now n|now]; simpl in *; unfold Inc, Dec.
  - by apply holds_add, (holds_rotate c L).
  - by apply holds_add, (holds_rotate c L).
  - eapply holds_ext, (holds_rotate c L); [|done|done]. intros; lia.
Qed.

Lemma holds_new reserve now : (0 < reserve)%nat → holds (newStandardDateCounter midnight reserve now) (dayOf now) (λ _, 0).
Proof.
  intros. split_and!; simpl; [done|by rewrite length_replicate| |done]. intros i Hi. by rewrite lookup_replicate_2.
Qed.

Lemma holds_ops ops : ∀ c t led,
  holds c (dayOf t) led → ordered t ops →
  holds (foldl apply c ops) (dayOf (lastTime t ops)) (λ d, foldl (λ acc o, acc + amount d o) (led d) ops).
Proof.
  induction ops as [|o ops IH]; intros c t led Hc Ho; simpl; [done|]. destruct Ho as [Hle Ho].
  apply (IH _ (opTime o) (λ d, led d + amount d o)); [|done].
  apply (holds_apply c (dayOf t)); [done|by apply dayOf_mono].
Qed.

Lemma lastDays_ledger reserve t ops now lastdays :
  0 < reserve → ordered t ops → lastTime t ops ≤ now →
  (GetLastDaysCount midnight now lastdays (foldl apply (NewDateCounter midnight reserve t) ops)).1 =
  (λ i, wrap64 (ledger ops (dayOf now - Z.of_nat i))) <$> seq 0 (Nat.min lastdays (Z.to_nat reserve)).
Proof.
  intros Hr Ho Hn. unfold NewDateCounter. destruct (Z.leb_spec reserve 0); [lia|].
  pose proof (holds_ops ops _ t _ (holds_new (Z.to_nat reserve) t ltac:(lia)) Ho) as Hc.
  eapply (holds_rotate _ _ _ now) in Hc; [|by apply dayOf_mono].
  assert (Hres : ∀ c o, reserveDays (apply c o) = reserveDays c).
  { intros c []; simpl; unfold Inc, Dec, rotate; simpl; by repeat case_match. }
  assert (Hres' : reserveDays (rotate midnight now (foldl apply (newStandardDateCounter midnight (Z.to_nat reserve) t) ops)) = Z.to_nat reserve).
  { assert (∀ c, reserveDays (rotate midnight now c) = reserveDays c) as -> by (intros; unfold rotate; by repeat case_match).
    generalize (newStandardDateCounter midnight (Z.to_nat reserve) t) (eq_refl : reserveDays (newStandardDateCounter midnight (Z.to_nat reserve) t) = Z.to_nat reserve).
    clear -Hres. induction ops as [|o ops IH]; intros c Hc; simpl; [done|]. apply IH. by rewrite Hres. }
  unfold GetLastDaysCount. cbn [fst]. rewrite Hres'. destruct Hc as (_ & Hlen & Hcs & _). rewrite Hres' in Hlen, Hcs.
  apply list_eq. intros i. rewrite list_lookup_fmap. destruct (decide (i < lastdays `min` Z.to_nat reserve)%nat) as [Hi|Hi].
  - rewrite lookup_take_lt, lookup_seq_lt, Hcs by lia. done.
  - rewrite !lookup_ge_None_2; [done|rewrite length_seq; lia|rewrite length_take; lia].
Qed.

(** in a zone with a fixed offset, after any increments, decrements and
    reads at times that do not go back, the counts of the last days are the
    amounts counted on each of them, today first, in 64-bit arithmetic. *)
Theorem date_counter_ledger reserve t ops now lastdays :
  0 < reserve → ordered t ops → lastTime t ops ≤ now →
  (GetLastDaysCount midnight now lastdays (foldl apply (NewDateCounter midnight reserve t) ops)).1 =
  (λ i, wrap64 (ledger ops (dayOf now - Z.of_nat i))) <$> seq 0 (Nat.min lastdays (Z.to_nat reserve)).
Proof. apply lastDays_ledger. Qed.

End ledger.

(** A snapshot taken on a later day than the last use of the counter reports
    the amount of the old day as today's. *)
Example snapshot_shifts_history :
  let c := Inc (midnight 0) 0 5 (NewDateCounter (midnight 0) 7 0) in
  (TodayCount (midnight 0) dayNs c).1 = Some 0 ∧
  (TodayCount (midnight 0) dayNs (Snapshot (midnight 0) dayNs c)).1 = Some 5.
Proof. vm_compute. split; reflexivity. Qed.

(** On a day of 23 hours the counter is not shifted at midnight: what is
    counted on the next day is added to the amount of the short day. *)
Example short_day_not_shifted :
  let hour := dayNs / 24 in
  let zone t := if t <? 23 * hour then 0 else 23 * hour in
  let c := Inc zone (23 * hour) 1 (Inc zone 0 5 (NewDateCounter zone 7 0)) in
  (TodayCount zone (23 * hour) c).1 = Some 6.
Proof. vm_compute. reflexivity. Qed.

Lemma date_counter_ledger_witness :
  (GetLastDaysCount (midnight 0) dayNs 2 (foldl (apply 0) (NewDateCounter (midnight 0) 7 0)
     [OInc 0 5; OInc 1 2; OInc dayNs 3])).1 = [3; 7].
Proof.
  rewrite (date_counter_ledger 0 7 0 [OInc 0 5; OInc 1 2; OInc dayNs 3] dayNs 2); [reflexivity|lia| |].
  - vm_compute. repeat split; discriminate.
  - vm_compute. discriminate.
Defined.

End DateCounter.
