(* ===== verification/Proxies.v ===== *)
(** * The proxies of the controls: [server/control.go], [server/proxy/proxy.go]

    The server keeps all running proxies by name in one manager; each control
    keeps its own proxies and the number of ports they use.  The handlers of
    one control run one after the other; those of different controls
    interleave between the critical sections of [RegisterProxy]. *)
From S2P Require Import Prelude.

Module Proxies.

Inductive error := ErrConfig | ErrMaxPorts | ErrExists | ErrRun | ErrInUse.

(** [usedPortsNum] is [1] for tcp and udp proxies and [0] for the others. *)
Record Proxy := mkProxy { name : string; usedPortsNum : Z }.

(** Where the handler of a control is: [RegisterProxy] after the reservation
    of the ports, after the test of the name, after [Run], after
    [Manager.Add]; [CloseProxy] or the end of the worker with the proxies that
    remain to be closed. *)
Inductive phase :=
| Idle | Reserved (p : Proxy) | Checked (p : Proxy) | Started (p : Proxy) | Added (p : Proxy)
| Closing (ps : gmap string Proxy).

Record Control := mkControl {
  proxies : gmap string Proxy; portsUsedNum : Z; at_ : phase; ended : bool }.

Definition NewControl : Control := mkControl ∅ 0 Idle false.

(** [pxys] names the control of each proxy of the manager. *)
Record Server := mkServer { pxys : gmap string nat; controls : gmap nat Control }.

Section proxies.
(** [ServerCfg.MaxPortsPerClient] *)
Variable MaxPortsPerClient : Z.

(** [Manager.Exist], [Manager.Add] and [Manager.Del] *)
Definition Exist (n : string) (m : gmap string nat) : bool := bool_decide (is_Some (m !! n)).
Definition Add (n : string) (c : nat) (m : gmap string nat) : res error (gmap string nat) :=
  match m !! n with Some _ => Err ErrInUse | None => Ok (<[ n := c ]> m) end.
Definition Del (n : string) (m : gmap string nat) : gmap string nat := delete n m.

Definition setAt (p : phase) (c : Control) : Control := mkControl (proxies c) (portsUsedNum c) p (ended c).

(** The reservation at the start of [RegisterProxy] and its undoing. *)
Definition reserve (p : Proxy) (c : Control) : res error Control :=
  if 0 <? MaxPortsPerClient then
    if MaxPortsPerClient <? portsUsedNum c + usedPortsNum p then Err ErrMaxPorts
    else Ok (mkControl (proxies c) (portsUsedNum c + usedPortsNum p) (Reserved p) (ended c))
  else Ok (setAt (Reserved p) c).

Definition unreserve (p : Proxy) (c : Control) : Control :=
  mkControl (proxies c)
    (if 0 <? MaxPortsPerClient then portsUsedNum c - usedPortsNum p else portsUsedNum c) Idle (ended c).

Definition insertProxy (p : Proxy) (c : Control) : Control :=
  mkControl (<[ name p := p ]> (proxies c)) (portsUsedNum c) Idle (ended c).

(** The locked part of [CloseProxy]. *)
Definition takeProxy (n : string) (c : Control) : Control :=
  match proxies c !! n with
  | None => c
  | Some p => mkControl (delete n (proxies c))
                (if 0 <? MaxPortsPerClient then portsUsedNum c - usedPortsNum p else portsUsedNum c)
                (Closing {[ n := p ]}) (ended c)
  end.

(** The end of [worker]: all proxies are taken at once. *)
Definition takeAll (c : Control) : Control := mkControl ∅ (portsUsedNum c) (Closing (proxies c)) true.

Definition put (a : nat) (c : Control) (s : Server) : Server := mkServer (pxys s) (<[ a := c ]> (controls s)).

(** [RegisterProxy] of control [a] when no other control comes in between;
    [runOk] is the outcome of [pxy.Run]. *)
Definition RegisterProxy (runOk : bool) (a : nat) (p : Proxy) (s : Server) : res error unit * Server :=
  match controls s !! a with
  | None => (Err ErrConfig, s)
  | Some c =>
      match reserve p c with
      | Err e => (Err e, s)
      | Ok c =>
          if Exist (name p) (pxys s) then (Err ErrExists, put a (unreserve p c) s)
          else if negb runOk then (Err ErrRun, put a (unreserve p c) s)
          else match Add (name p) a (pxys s) with
               | Err e => (Err e, put a (unreserve p c) s)
               | Ok m => (Ok tt, mkServer m (<[ a := insertProxy p c ]> (controls s)))
               end
      end
  end.

(** [CloseProxy] of control [a] when no other control comes in between. *)
Definition CloseProxy (a : nat) (n : string) (s : Server) : Server :=
  match controls s !! a with
  | None => s
  | Some c => match proxies c !! n with
              | None => s
              | Some _ => mkServer (Del n (pxys s)) (<[ a := setAt Idle (takeProxy n c) ]> (controls s))
              end
  end.

Inductive step (s : Server) : Server → Prop :=
| st_control a : controls s !! a = None → step s (put a NewControl s)
| st_reserve a c p c' : controls s !! a = Some c → at_ c = Idle → ended c = false → 0 ≤ usedPortsNum p →
    reserve p c = Ok c' → step s (put a c' s)
| st_check a c p : controls s !! a = Some c → at_ c = Reserved p →
    step s (put a (if Exist (name p) (pxys s) then unreserve p c else setAt (Checked p) c) s)
| st_run a c p (runOk : bool) : controls s !! a = Some c → at_ c = Checked p →
    step s (put a (if runOk then setAt (Started p) c else unreserve p c) s)
| st_add a c p m : controls s !! a = Some c → at_ c = Started p → Add (name p) a (pxys s) = Ok m →
    step s (mkServer m (<[ a := setAt (Added p) c ]> (controls s)))
| st_add_fails a c p e : controls s !! a = Some c → at_ c = Started p → Add (name p) a (pxys s) = Err e →
    step s (put a (unreserve p c) s)
| st_insert a c p : controls s !! a = Some c → at_ c = Added p → step s (put a (insertProxy p c) s)
| st_take a c n : controls s !! a = Some c → at_ c = Idle → ended c = false → step s (put a (takeProxy n c) s)
| st_take_all a c : controls s !! a = Some c → at_ c = Idle → ended c = false → step s (put a (takeAll c) s)
| st_close a c n p ps : controls s !! a = Some c → at_ c = Closing ps → ps !! n = Some p →
    step s (mkServer (Del n (pxys s)) (<[ a := setAt (Closing (delete n ps)) c ]> (controls s)))
| st_closed a c : controls s !! a = Some c → at_ c = Closing ∅ → step s (put a (setAt Idle c) s).

Definition init : Server := mkServer ∅ ∅.

(** ** Invariant *)

(** The ports of the proxies of a control and of the one being registered. *)
Definition portsOf (m : gmap string Proxy) : Z := map_fold (λ _ p acc, usedPortsNum p + acc) 0 m.
Definition inFlight (c : Control) : Z :=
  match at_ c with Reserved p | Checked p | Started p | Added p => usedPortsNum p | _ => 0 end.

(** The names a control has in the manager. *)
Definition owned (c : Control) (n : string) : Prop :=
  is_Some (proxies c !! n) ∨
  match at_ c with Added p => name p = n | Closing ps => is_Some (ps !! n) | _ => False end.

Record controlOk (c : Control) : Prop := {
  ok_ports : 0 < MaxPortsPerClient → ended c = false → portsUsedNum c = portsOf (proxies c) + inFlight c;
  ok_limit : 0 < MaxPortsPerClient → portsUsedNum c ≤ MaxPortsPerClient;
  ok_names n p : proxies c !! n = Some p → name p = n;
  ok_nonneg n p : proxies c !! n = Some p → 0 ≤ usedPortsNum p;
  ok_flight : 0 ≤ inFlight c;
  ok_added p : at_ c = Added p → proxies c !! name p = None;
  ok_closing n p ps : at_ c = Closing ps → ps !! n = Some p → proxies c !! n = None;
  ok_ended : ended c = true → proxies c = ∅ ∧ (at_ c = Idle ∨ ∃ ps, at_ c = Closing ps) }.

Record wf (s : Server) : Prop := {
  wf_control a c : controls s !! a = Some c → controlOk c;
  wf_owner n a : pxys s !! n = Some a ↔ ∃ c, controls s !! a = Some c ∧ owned c n }.

Lemma portsOf_insert n p m : m !! n = None → portsOf (<[ n := p ]> m) = usedPortsNum p + portsOf m.
Proof. intros Hn. unfold portsOf. rewrite map_fold_insert_L; [done|intros; lia|done]. Qed.

Lemma portsOf_delete n p m : m !! n = Some p → portsOf m = usedPortsNum p + portsOf (delete n m).
Proof. intros Hn. rewrite <- (portsOf_insert n); [by rewrite insert_delete_id|apply lookup_delete_eq]. Qed.

Lemma portsOf_nonneg m : (∀ n p, m !! n = Some p → 0 ≤ usedPortsNum p) → 0 ≤ portsOf m.
Proof.
  induction m as [|n p m Hn IH] using map_ind; intros Hp; [done|]. rewrite portsOf_insert by done.
  pose proof (Hp n p (lookup_insert_eq _ _ _)). assert (0 ≤ portsOf m); [|lia].
  apply IH. intros n' p' Hn'. apply (Hp n'). rewrite lookup_insert_ne; [done|congruence].
Qed.

(** A step of control [a] that leaves the names in the manager. *)
Lemma proxies_wf_put s a c c' :
  wf s → controls s !! a = Some c → controlOk c' → (∀ n, owned c' n ↔ owned c n) → wf (put a c' s).
Proof.
  intros [W1 W2] Ha Hok Hown. split; simpl.
  - intros b d. rewrite lookup_insert_Some. intros [[<- <-]|[_ Hb]]; [done|eauto].
  - intros n b. rewrite W2. split; intros (d & Hd & Ho).
    + destruct (decide (a = b)) as [<-|Hne].
      * exists c'. rewrite lookup_insert_eq. simplify_eq. split; [done|]. by apply Hown.
      * exists d. by rewrite lookup_insert_ne.
    + destruct (decide (a = b)) as [<-|Hne].
      * rewrite lookup_insert_eq in Hd. simplify_eq. exists c. split; [done|]. by apply Hown.
      * rewrite lookup_insert_ne in Hd by done. eauto.
Qed.

(** Control [a] starts to own [n], or stops. *)
Lemma proxies_wf_own s a c c' n m :
  wf s → controls s !! a = Some c → controlOk c' →
  (∀ n', n' ≠ n → owned c' n' ↔ owned c n') →
  (owned c' n ∧ pxys s !! n = None ∧ m = <[ n := a ]> (pxys s) ∨
   ¬ owned c' n ∧ owned c n ∧ m = delete n (pxys s)) →
  wf (mkServer m (<[ a := c' ]> (controls s))).
Proof.
  intros [W1 W2] Ha Hok Hown Hm.
  assert (Hc : ∀ b d, <[ a := c' ]> (controls s) !! b = Some d ↔ b = a ∧ d = c' ∨ b ≠ a ∧ controls s !! b = Some d).
  { intros b d. rewrite lookup_insert_Some. naive_solver. }
  split; simpl.
  - intros b d [[-> ->]|[_ Hb]]%Hc; [done|eauto].
  - intros n' b. setoid_rewrite Hc. destruct (decide (n' = n)) as [->|Hne].
    + destruct Hm as [(Ho & Hn & ->)|(Ho & Ho' & ->)].
      * rewrite lookup_insert_eq. split; [intros [= <-]; eauto 10|]. intros (d & [[-> ->]|[Hb Hd]] & Hod); [done|].
        assert (pxys s !! n = Some b) by (apply W2; eauto). congruence.
      * rewrite lookup_delete_eq. split; [done|]. intros (d & [[-> ->]|[Hb Hd]] & Hod); [done|].
        assert (pxys s !! n = Some b) by (apply W2; eauto). assert (pxys s !! n = Some a) by (apply W2; eauto). congruence.
    + assert (Hm' : m !! n' = pxys s !! n').
      { destruct Hm as [(_ & _ & ->)|(_ & _ & ->)]; [by rewrite lookup_insert_ne|by rewrite lookup_delete_ne]. }
      rewrite Hm', W2. split.
      * intros (d & Hd & Ho). destruct (decide (b = a)) as [->|Hba]; [|by eauto 10].
        exists c'. split; [by left|]. simplify_eq. by apply Hown.
      * intros (d & [[-> ->]|[Hb Hd]] & Ho); [|eauto]. exists c. split; [done|]. by apply Hown.
Qed.

Lemma registering c p :
  controlOk c → at_ c = Reserved p ∨ at_ c = Checked p ∨ at_ c = Started p ∨ at_ c = Added p → ended c = false.
Proof.
  intros C Ha. destruct (ended c) eqn:E; [|done].
  destruct (ok_ended _ C E) as [_ [Hi|[ps Hi]]]; rewrite Hi in Ha; naive_solver.
Qed.

(** The moves of a registration that keep the reservation. *)
Lemma controlOk_phase c p q :
  controlOk c → at_ c = Reserved p ∧ q = Checked p ∨ at_ c = Checked p ∧ q = Started p →
  controlOk (setAt q c) ∧ ∀ n, owned (setAt q c) n ↔ owned c n.
Proof.
  intros C Hq. assert (He : ended c = false) by (apply (registering c p C); tauto).
  assert (Hf : inFlight (setAt q c) = inFlight c) by (unfold inFlight; simpl; by destruct Hq as [[-> ->]|[-> ->]]).
  split.
  - destruct C as [C1 C2 C3 C4 C5 C6 C7 C8]. split; rewrite ?Hf; simpl; try done;
      destruct Hq as [[_ ->]|[_ ->]]; intros; congruence.
  - intros n. unfold owned; simpl. by destruct Hq as [[-> ->]|[-> ->]].
Qed.

Lemma controlOk_reserve c p c' :
  controlOk c → at_ c = Idle → ended c = false → 0 ≤ usedPortsNum p → reserve p c = Ok c' →
  controlOk c' ∧ ∀ n, owned c' n ↔ owned c n.
Proof.
  intros [C1 C2 C3 C4 C5 C6 C7 C8] Hi He Hp Hr. unfold reserve in Hr.
  assert (Hf : inFlight c = 0) by (unfold inFlight; by rewrite Hi).
  destruct (Z.ltb_spec 0 MaxPortsPerClient); [destruct (Z.ltb_spec MaxPortsPerClient (portsUsedNum c + usedPortsNum p)); [done|]|];
    injection Hr as <-; (split; [split; simpl; try done; unfold inFlight; simpl; intros; try lia; try congruence|]);
    try (rewrite C1 by done; unfold inFlight; rewrite Hi; lia); eauto.
  all: intros n; unfold owned; simpl; rewrite Hi; done.
Qed.

Lemma controlOk_unreserve c p :
  controlOk c → at_ c = Reserved p ∨ at_ c = Checked p ∨ at_ c = Started p → controlOk (unreserve p c) ∧
  ∀ n, owned (unreserve p c) n ↔ owned c n.
Proof.
  intros [C1 C2 C3 C4 C5 C6 C7 C8] Ha.
  assert (Hf : inFlight c = usedPortsNum p) by (unfold inFlight; by destruct Ha as [->|[->| ->]]).
  split; [|intros n; unfold owned; simpl; by destruct Ha as [->|[->| ->]]].
  unfold unreserve. destruct (Z.ltb_spec 0 MaxPortsPerClient); split; simpl; try done; unfold inFlight; simpl; intros; try lia; eauto.
  - rewrite C1 by done. lia.
  - destruct (C8 H0). auto.
  - destruct (C8 H0). auto.
Qed.

Lemma controlOk_take n c : controlOk c → at_ c = Idle → ended c = false → controlOk (takeProxy n c) ∧
  ∀ n', owned (takeProxy n c) n' ↔ owned c n'.
Proof.
  intros C Hi He. unfold takeProxy. destruct (proxies c !! n) as [p|] eqn:Hn; [|done].
  destruct C as [C1 C2 C3 C4 C5 C6 C7 C8]. assert (Hf : inFlight c = 0) by (unfold inFlight; by rewrite Hi).
  pose proof (portsOf_delete _ _ _ Hn) as Hd. pose proof (C4 _ _ Hn) as Hp. split.
  - split; simpl; try done; unfold inFlight; simpl.
    + intros Hm _. destruct (Z.ltb_spec 0 MaxPortsPerClient); [|lia]. rewrite C1 by done. lia.
    + intros Hm. specialize (C2 Hm). destruct (Z.ltb_spec 0 MaxPortsPerClient); lia.
    + intros n' p' [_ ?]%lookup_delete_Some. eauto.
    + intros n' p' [_ ?]%lookup_delete_Some. eauto.
    + intros n' p' ps [= <-] [-> _]%lookup_singleton_Some. apply lookup_delete_eq.
    + congruence.
  - intros n'. unfold owned; simpl. rewrite Hi, lookup_delete_is_Some. destruct (decide (n = n')) as [<-|Hne].
    + rewrite lookup_singleton_eq, Hn. split; [intros _; left; eauto|]. intros _. right. eauto.
    + rewrite lookup_singleton_ne by done. split; [|intros [?|?]; [by left|done]].
      intros [[_ ?]|[? ?]]; [by left|done].
Qed.

Lemma controlOk_takeAll c : controlOk c → at_ c = Idle → controlOk (takeAll c) ∧
  ∀ n, owned (takeAll c) n ↔ owned c n.
Proof.
  intros [C1 C2 C3 C4 C5 C6 C7 C8] Hi. split; [split; simpl; try done; by eauto|].
  intros n. unfold owned; simpl. rewrite Hi, lookup_empty. split; [intros [[? ?]|?]; [done|by left]|intros [?|?]; [by right|done]].
Qed.

Lemma controlOk_insert c p : controlOk c → at_ c = Added p → controlOk (insertProxy p c) ∧
  ∀ n, owned (insertProxy p c) n ↔ owned c n.
Proof.
  intros [C1 C2 C3 C4 C5 C6 C7 C8] Ha. assert (Hf : inFlight c = usedPortsNum p) by (unfold inFlight; by rewrite Ha).
  pose proof (C6 p Ha) as Hn. split.
  - split; simpl; try done; unfold inFlight; simpl.
    + intros Hm He. rewrite C1 by done. rewrite portsOf_insert by done. lia.
    + intros n p'. rewrite lookup_insert_Some. intros [[<- <-]|[_ ?]]; eauto.
    + intros n p'. rewrite lookup_insert_Some. intros [[<- <-]|[_ ?]]; [lia|eauto].
    + intros He. destruct (C8 He) as [_ [E|[ps E]]]; congruence.
  - intros n. unfold owned; simpl. rewrite Ha, lookup_insert_is_Some. destruct (decide (name p = n)); naive_solver.
Qed.

Lemma proxies_wf_close s a c n p ps :
  wf s → controls s !! a = Some c → at_ c = Closing ps → ps !! n = Some p →
  wf (mkServer (Del n (pxys s)) (<[ a := setAt (Closing (delete n ps)) c ]> (controls s))).
Proof.
  intros W Ha Hc Hn. pose proof (wf_control _ W _ _ Ha) as C. pose proof (ok_closing _ C n p ps Hc Hn) as Hnp.
  apply (proxies_wf_own s a c _ n); [done|done| | |right].
  - destruct C as [C1 C2 C3 C4 C5 C6 C7 C8]. split; simpl; try done; unfold inFlight; simpl; try done.
    + intros. rewrite C1 by done. unfold inFlight. by rewrite Hc.
    + intros n' p' ps' [= <-] [_ ?]%lookup_delete_Some. by eapply C7.
    + intros He. destruct (C8 He). eauto.
  - intros n' Hne. unfold owned; simpl. by rewrite Hc, lookup_delete_ne.
  - unfold owned; simpl. rewrite Hc, lookup_delete_eq, Hnp. split_and!; [by intros [[]|[]]|eauto|done].
Qed.

Lemma proxies_wf_added s a c p m :
  wf s → controls s !! a = Some c → at_ c = Started p → Add (name p) a (pxys s) = Ok m →
  wf (mkServer m (<[ a := setAt (Added p) c ]> (controls s))).
Proof.
  intros W Ha Hc Hadd. pose proof (wf_control _ W _ _ Ha) as C. unfold Add in Hadd.
  destruct (pxys s !! name p) as [b|] eqn:Hn; [done|]. injection Hadd as <-.
  assert (Hnp : proxies c !! name p = None).
  { apply eq_None_not_Some. intros Hs. assert (pxys s !! name p = Some a); [|congruence].
    apply (wf_owner _ W). exists c. split; [done|]. by left. }
  assert (He : ended c = false) by (apply (registering c p C); auto).
  apply (proxies_wf_own s a c _ (name p)); [done|done| | |left].
  - destruct C as [C1 C2 C3 C4 C5 C6 C7 C8]. unfold inFlight in *. rewrite Hc in *.
    split; unfold inFlight; simpl; try done; intros; simplify_eq; done || congruence.
  - intros n' Hne. unfold owned; simpl. rewrite Hc. naive_solver.
  - unfold owned; simpl. auto.
Qed.

Lemma proxies_wf_step s s' : wf s → step s s' → wf s'.
Proof.
  intros W [a Ha|a c p c' Ha Hi He Hp Hr|a c p Ha Hc|a c p runOk Ha Hc|a c p m Ha Hc Hm|a c p e Ha Hc Hm
    |a c p Ha Hc|a c n Ha Hi He|a c Ha Hi He|a c n p ps Ha Hc Hn|a c Ha Hc];
    try pose proof (wf_control _ W _ _ Ha) as C.
  - split; simpl.
    + intros b d. rewrite lookup_insert_Some. intros [[<- <-]|[_ Hb]]; [|by apply (wf_control _ W b)].
      split; simpl; try done; lia.
    + intros n b. rewrite (wf_owner _ W). split; intros (d & Hd & Ho).
      * exists d. rewrite lookup_insert_ne; [done|congruence].
      * rewrite lookup_insert_Some in Hd. destruct Hd as [[<- <-]|[_ Hd]]; [|eauto].
        unfold owned in Ho; simpl in Ho. rewrite lookup_empty in Ho. destruct Ho as [[]|[]]; done.
  - destruct (controlOk_reserve c p c' C Hi He Hp Hr). by eapply proxies_wf_put.
  - destruct (Exist _ _).
    + edestruct (controlOk_unreserve c p C); [by left|]. by eapply proxies_wf_put.
    + edestruct (controlOk_phase c p (Checked p) C); [by left|]. by eapply proxies_wf_put.
  - destruct runOk.
    + edestruct (controlOk_phase c p (Started p) C); [by right|]. by eapply proxies_wf_put.
    + edestruct (controlOk_unreserve c p C); [by right; left|]. by eapply proxies_wf_put.
  - by eapply proxies_wf_added.
  - edestruct (controlOk_unreserve c p C); [by right; right|]. by eapply proxies_wf_put.
  - destruct (controlOk_insert c p C Hc). by eapply proxies_wf_put.
  - destruct (controlOk_take n c C Hi He). by eapply proxies_wf_put.
  - destruct (controlOk_takeAll c C Hi). by eapply proxies_wf_put.
  - by eapply proxies_wf_close.
  - eapply proxies_wf_put; [done|done| |].
    + destruct C as [C1 C2 C3 C4 C5 C6 C7 C8]. split; simpl; try done; unfold inFlight; simpl; try done.
      * intros. rewrite C1 by done. unfold inFlight. by rewrite Hc.
      * intros E. destruct (C8 E). auto.
    + intros n. unfold owned; simpl. rewrite Hc, lookup_empty. split; [by left; naive_solver|]. intros [?|[? ?]]; [by left|done].
Qed.

Lemma proxies_wf_reachable s : rtc step init s → wf s.
Proof.
  intros H. assert (W : wf init).
  { split; simpl; [done|]. intros n a. rewrite lookup_empty. split; [done|]. by intros (c & ? & _). }
  revert W. induction H; eauto using proxies_wf_step.
Qed.

(** C11: however the registrations and removals of different controls
    interleave, the ports counted for a control are those of its proxies and
    of the one it is registering, and never exceed the limit; and the manager
    holds exactly the names of the proxies the controls run, are registering
    or still have to close, each for one control. *)
Theorem proxies_invariant s :
  rtc step init s →
  (∀ a c, controls s !! a = Some c → 0 < MaxPortsPerClient →
     (ended c = false → portsUsedNum c = portsOf (proxies c) + inFlight c) ∧ portsUsedNum c ≤ MaxPortsPerClient) ∧
  (∀ n a, pxys s !! n = Some a ↔ ∃ c, controls s !! a = Some c ∧ owned c n) ∧
  (∀ n a b c d, controls s !! a = Some c → controls s !! b = Some d → owned c n → owned d n → a = b).
Proof.
  intros W%proxies_wf_reachable. split_and!.
  - intros a c Ha Hm. destruct (wf_control _ W a c Ha) as [C1 C2 _ _ _ _ _ _]. auto.
  - apply (wf_owner _ W).
  - intros n a b c d Ha Hb Hc Hd. assert (pxys s !! n = Some a) by (apply (wf_owner _ W); eauto).
    assert (pxys s !! n = Some b) by (apply (wf_owner _ W); eauto). congruence.
Qed.

(** a registration that is refused leaves the server as it was; one that
    succeeds enters the name in the manager for the control, and closing the
    proxy restores the server. *)
Theorem RegisterProxy_outcome runOk a p s c :
  controls s !! a = Some c → at_ c = Idle → proxies c !! name p = None →
  match RegisterProxy runOk a p s with
  | (Err _, s') => s' = s
  | (Ok _, s') => pxys s !! name p = None ∧ pxys s' = <[ name p := a ]> (pxys s) ∧ CloseProxy a (name p) s' = s
  end.
Proof.
  intros Ha Hi Hn. unfold RegisterProxy. rewrite Ha. destruct (reserve p c) as [c'|] eqn:Hr; [|done].
  assert (Hun : unreserve p c' = c ∧ proxies c' = proxies c ∧ ended c' = ended c ∧
    portsUsedNum c = portsUsedNum (unreserve p c')).
  { unfold reserve, setAt in Hr. unfold unreserve.
    destruct (0 <? MaxPortsPerClient); [destruct (_ <? _); [done|]|]; injection Hr as <-; simpl;
      destruct c as [px n ph e]; simpl in *; subst; rewrite ?Z.add_simpl_r; done. }
  destruct Hun as (Hun & Hpx & Hen & Hpo).
  assert (Hback : put a (unreserve p c') s = s).
  { rewrite Hun. unfold put. rewrite insert_id by done. by destruct s. }
  destruct (Exist _ _) eqn:He; [done|]. destruct runOk; [|done]. cbn [negb]. unfold Add.
  destruct (pxys s !! name p) eqn:Hp; [done|]. split; [done|]. split; [done|].
  unfold CloseProxy, takeProxy, insertProxy. simpl. rewrite lookup_insert_eq. simpl. rewrite lookup_insert_eq.
  unfold Del. rewrite delete_insert_id by done. rewrite insert_insert_eq. rewrite delete_insert_id by by rewrite Hpx.
  replace (setAt Idle _) with c. rewrite insert_id by done. by destruct s.
Qed.

End proxies.

(** ** Two controls that register the same name *)

Definition demoProxy : Proxy := mkProxy "web" 1.
Definition demoServer : Server := mkServer ∅ {[ 1%nat := NewControl ]}.

Lemma demoServer_reachable : rtc (step 2) init demoServer.
Proof. eapply rtc_l; [by apply (st_control 2 init 1%nat)|]. apply rtc_refl. Qed.

Definition demoReserved : Server := mkServer ∅ {[ 1%nat := mkControl ∅ 1 (Reserved demoProxy) false ]}.

Lemma proxies_invariant_witness :
  rtc (step 2) init demoReserved ∧ portsOf ∅ + usedPortsNum demoProxy = 1.
Proof.
  assert (Hr : rtc (step 2) init demoReserved).
  { etrans; [apply demoServer_reachable|]. eapply rtc_l; [|apply rtc_refl].
    apply (st_reserve 2 demoServer 1%nat NewControl demoProxy (mkControl ∅ 1 (Reserved demoProxy) false));
      reflexivity || (simpl; lia). }
  split; [exact Hr|]. destruct (proxies_invariant 2 demoReserved Hr) as (H & _).
  destruct (H 1%nat (mkControl ∅ 1 (Reserved demoProxy) false)) as [He _]; [reflexivity|lia|]. symmetry. apply He. reflexivity.
Defined.

Lemma RegisterProxy_outcome_witness :
  (RegisterProxy 2 true 1 demoProxy demoServer).1 = Ok tt ∧
  CloseProxy 2 1 "web" (RegisterProxy 2 true 1 demoProxy demoServer).2 = demoServer.
Proof.
  split; [reflexivity|].
  apply (RegisterProxy_outcome 2 true 1 demoProxy demoServer NewControl eq_refl eq_refl eq_refl).
Defined.

End Proxies.
