(* ===== verification/Visitor.v ===== *)
(** * Visitor connections: [server/visitor/visitor.go], [pkg/util/net/listener.go],
      [server/service.go]

    A secret proxy listens under its name with a secret key and the users it
    allows.  A visitor connection names the proxy, signs a timestamp with the
    key and, when it names a run id, acts for the user of the control that
    currently runs under it.  Listeners are shared between the manager and the
    proxies and live in a store. *)
From S2P Require Import Prelude Registry Control.
From stdpp Require Import pretty.

Module Visitor.

Inductive error :=
| ErrRepeated | ErrAuth | ErrUser | ErrEncryption | ErrListenerClosed | ErrNoListener | ErrNoControl | ErrProtocol.

(** A connection as it is handed to the listener. *)
Record Conn := mkConn {
  raw : nat; encrypted : bool; compressed : bool; wireProtocol : string; udpPacketCodec : string }.

Record InternalListener := mkListener { acceptCh : list Conn; lclosed : bool }.
Definition NewInternalListener : InternalListener := mkListener [] false.

(** A full queue drops (and closes) the connection without an error. *)
Definition PutConn (c : Conn) (l : InternalListener) : res error InternalListener :=
  if lclosed l then Err ErrListenerClosed
  else if (length (acceptCh l) <? 128)%nat then Ok (mkListener (acceptCh l ++ [c]) false)
  else Ok l.

Definition CloseInternal (l : InternalListener) : InternalListener := mkListener (acceptCh l) true.

Record listenerBundle := mkBundle { l_ : nat; sk : string; allowUsers : list string }.

Record Manager := mkManager {
  listeners : gmap string listenerBundle; store : gmap nat InternalListener; nextListener : nat }.

Definition NewManager : Manager := mkManager ∅ ∅ 0.

Definition Listen (name key : string) (users : list string) (vm : Manager) : res error nat * Manager :=
  match listeners vm !! name with
  | Some _ => (Err ErrRepeated, vm)
  | None =>
      let l := nextListener vm in
      (Ok l, mkManager (<[ name := mkBundle l key users ]> (listeners vm))
               (<[ l := NewInternalListener ]> (store vm)) (S l))
  end.

Definition CloseListener (name : string) (vm : Manager) : Manager :=
  mkManager (delete name (listeners vm)) (store vm) (nextListener vm).

Section conns.
(** The hexadecimal MD5 sum. *)
Variable md5hex : string → string.

Definition GetAuthKey (token : string) (timestamp : Z) : string := md5hex (token +:+ pretty timestamp).

(** The message [NewVisitorConn]; [encOk] is the outcome of setting up the
    encryption. *)
Record NewVisitorConn := mkVisitor {
  ProxyName : string; Timestamp : Z; SignKey : string; UseEncryption : bool; UseCompression : bool; RunID : string }.

Definition NewConn (encOk : bool) (m : NewVisitorConn) (conn : nat) (visitorUser wire codec : string) (vm : Manager)
    : res error unit * Manager :=
  match listeners vm !! ProxyName m with
  | None => (Err ErrNoListener, vm)
  | Some b =>
      if negb (bool_decide (GetAuthKey (sk b) (Timestamp m) = SignKey m)) then (Err ErrAuth, vm)
      else if negb (bool_decide (visitorUser ∈ allowUsers b)) && negb (bool_decide ("*" ∈ allowUsers b))
      then (Err ErrUser, vm)
      else if UseEncryption m && negb encOk then (Err ErrEncryption, vm)
      else match store vm !! l_ b with
           | None => (Err ErrListenerClosed, vm)
           | Some l =>
               match PutConn (mkConn conn (UseEncryption m) (UseCompression m) wire codec) l with
               | Err e => (Err e, vm)
               | Ok l => (Ok tt, mkManager (listeners vm) (<[ l_ b := l ]> (store vm)) (nextListener vm))
               end
           end
  end.

(** [Service.RegisterVisitorConn] *)
Definition RegisterVisitorConn {R : Type} (encOk : bool) (m : NewVisitorConn) (conn : nat) (wire : string)
    (w : Control.World R) (vm : Manager) : res error unit * Manager :=
  let connect user protocol codec :=
    NewConn encOk m conn user (if decide (protocol = "") then wire else protocol) codec vm in
  if decide (RunID m = "") then connect "" wire ""
  else
    match Control.admitVisitorByRunID (λ user protocol codec,
            if decide (wire = protocol) then connect user protocol codec else (Err ErrProtocol, vm)) (RunID m) w with
    | Some r => r
    | None => (Err ErrNoControl, vm)
    end.

(** The user a visitor connection acts for, and the protocol and codec of its
    session. *)
Definition actsFor {R : Type} (m : NewVisitorConn) (wire : string) (w : Control.World R)
    (user protocol codec : string) : Prop :=
  RunID m = "" ∧ user = "" ∧ protocol = wire ∧ codec = "" ∨
  RunID m ≠ "" ∧ protocol = wire ∧ ∃ e en c, Control.ctlsByRunID w !! RunID m = Some e ∧
    Control.entries w !! e = Some en ∧ Control.ctls w !! Control.ctl en = Some c ∧
    Control.state c = Control.controlStateRunning ∧ Control.closed w = false ∧
    user = Control.User (Control.sessionCtx c) ∧ wire = Control.WireProtocol (Control.sessionCtx c) ∧
    codec = Control.UDPPacketCodec (Control.sessionCtx c).

(** What [NewConn] does to the listeners. *)
Lemma NewConn_outcome encOk m conn user wire codec vm :
  match NewConn encOk m conn user wire codec vm with
  | (Err _, vm') => vm' = vm
  | (Ok _, vm') => ∃ b l, listeners vm !! ProxyName m = Some b ∧ SignKey m = GetAuthKey (sk b) (Timestamp m) ∧
      (user ∈ allowUsers b ∨ "*" ∈ allowUsers b) ∧ store vm !! l_ b = Some l ∧ lclosed l = false ∧
      vm' = mkManager (listeners vm)
        (<[ l_ b := if (length (acceptCh l) <? 128)%nat
                    then mkListener (acceptCh l ++ [mkConn conn (UseEncryption m) (UseCompression m) wire codec]) false
                    else l ]> (store vm)) (nextListener vm)
  end.
Proof.
  unfold NewConn. destruct (listeners vm !! ProxyName m) as [b|] eqn:Hb; [|done].
  case_bool_decide as Hk; [|done]. cbn [negb].
  destruct (_ && _) eqn:Hu; [done|]. destruct (UseEncryption m && _); [done|].
  destruct (store vm !! l_ b) as [l|] eqn:Hl; [|done]. unfold PutConn. destruct (lclosed l) eqn:Hcl; [done|].
  assert (Huser : user ∈ allowUsers b ∨ "*" ∈ allowUsers b).
  { apply andb_false_iff in Hu as [Hu|Hu]; apply negb_false_iff, bool_decide_eq_true in Hu; auto. }
  destruct (_ <? _)%nat eqn:Hn; exists b, l; rewrite Hn; done.
Qed.

(** The outcome of a visitor connection. *)
Lemma register_outcome {R : Type} encOk m conn wire (w : Control.World R) vm r vm' :
  RegisterVisitorConn encOk m conn wire w vm = (r, vm') →
  match r with
  | Err _ => vm' = vm
  | Ok _ => ∃ b l user protocol codec, actsFor m wire w user protocol codec ∧
      listeners vm !! ProxyName m = Some b ∧ SignKey m = GetAuthKey (sk b) (Timestamp m) ∧
      (user ∈ allowUsers b ∨ "*" ∈ allowUsers b) ∧ store vm !! l_ b = Some l ∧ lclosed l = false ∧
      store vm' !! l_ b = Some (if (length (acceptCh l) <? 128)%nat
        then mkListener (acceptCh l ++ [mkConn conn (UseEncryption m) (UseCompression m) wire codec]) false else l) ∧
      (∀ k, k ≠ l_ b → store vm' !! k = store vm !! k) ∧ listeners vm' = listeners vm
  end.
Proof.
  assert (Hgo : ∀ user protocol codec, actsFor m wire w user protocol codec → ∀ r vm',
    NewConn encOk m conn user wire codec vm = (r, vm') →
    match r with
    | Err _ => vm' = vm
    | Ok _ => ∃ b l user protocol codec, actsFor m wire w user protocol codec ∧
      listeners vm !! ProxyName m = Some b ∧ SignKey m = GetAuthKey (sk b) (Timestamp m) ∧
      (user ∈ allowUsers b ∨ "*" ∈ allowUsers b) ∧ store vm !! l_ b = Some l ∧ lclosed l = false ∧
      store vm' !! l_ b = Some (if (length (acceptCh l) <? 128)%nat
        then mkListener (acceptCh l ++ [mkConn conn (UseEncryption m) (UseCompression m) wire codec]) false else l) ∧
      (∀ k, k ≠ l_ b → store vm' !! k = store vm !! k) ∧ listeners vm' = listeners vm
    end).
  { clear r vm'. intros user protocol codec Ha r vm' E. pose proof (NewConn_outcome encOk m conn user wire codec vm) as Ho.
    rewrite E in Ho. destruct r as [[]|e]; [|done]. destruct Ho as (b & l & Hb & Hk & Hu & Hl & Hc & ->).
    exists b, l, user, protocol, codec. split_and!; try done; simpl; [apply lookup_insert_eq|].
    intros k Hne. by rewrite lookup_insert_ne. }
  unfold RegisterVisitorConn. case_decide as Hrun.
  - intros E. eapply (Hgo "" wire ""); [by left|]. rewrite <- E. by case_decide.
  - unfold Control.admitVisitorByRunID, Control.lockCurrentRun, Control.revalidate, Control.lookupRun.
    destruct (Control.closed w && negb false) eqn:Hcl; [by intros [= <- <-]|]. rewrite andb_true_r in Hcl.
    destruct (Control.ctlsByRunID w !! RunID m) as [e|] eqn:He; [|by intros [= <- <-]].
    destruct (Control.entries w !! e) as [en|] eqn:Hen; [|by intros [= <- <-]]. rewrite decide_True by done.
    unfold Control.visitorBody, Control.getBody. rewrite Hen.
    destruct (Control.ctls w !! Control.ctl en) as [c|] eqn:Hc; [|by intros [= <- <-]].
    case_decide as Hs; [|by intros [= <- <-]]. rewrite Hc. case_decide as Hw; [|by intros [= <- <-]].
    intros E. eapply (Hgo (Control.User (Control.sessionCtx c)) wire (Control.UDPPacketCodec (Control.sessionCtx c))).
    + right. split; [done|]. split; [done|]. exists e, en, c. done.
    + rewrite <- E. case_decide as Hp; [by rewrite Hw, Hp in *|by rewrite <- Hw].
Qed.

(** C18: a visitor connection that is admitted names a listening proxy, is
    signed with its secret key and acts for a user the proxy allows: the user
    of the control that currently runs under the run id it names, over the wire
    protocol of that control, or the empty user when it names none.  It is then
    at the end of the queue of that listener, unless the queue is full; a
    refused connection and the other listeners see no change. *)
Theorem visitor_admission {R : Type} encOk m conn wire (w : Control.World R) vm r vm' :
  RegisterVisitorConn encOk m conn wire w vm = (r, vm') →
  match r with
  | Err _ => vm' = vm
  | Ok _ => ∃ b l user protocol codec, actsFor m wire w user protocol codec ∧
      listeners vm !! ProxyName m = Some b ∧ SignKey m = GetAuthKey (sk b) (Timestamp m) ∧
      (user ∈ allowUsers b ∨ "*" ∈ allowUsers b) ∧ store vm !! l_ b = Some l ∧ lclosed l = false ∧
      store vm' !! l_ b = Some (if (length (acceptCh l) <? 128)%nat
        then mkListener (acceptCh l ++ [mkConn conn (UseEncryption m) (UseCompression m) wire codec]) false else l) ∧
      (∀ k, k ≠ l_ b → store vm' !! k = store vm !! k) ∧ listeners vm' = listeners vm
  end.
Proof. apply register_outcome. Qed.

End conns.

(** A proxy that allows every user, and a visitor without a run id. *)
Definition demoManager : Manager := (Listen "p" "key" ["*"] NewManager).2.
Definition demoVisitor : NewVisitorConn := mkVisitor "p" 7 "key7" false false "".
Definition demoWorld : Control.World Registry.ClientRegistry := Control.NewControlManager Registry.NewClientRegistry.

Lemma visitor_admission_witness :
  ∃ b l user protocol codec, actsFor demoVisitor "v2" demoWorld user protocol codec ∧
    listeners demoManager !! "p" = Some b ∧ store demoManager !! l_ b = Some l.
Proof.
  destruct (visitor_admission (λ s, s) true demoVisitor 5 "v2" demoWorld demoManager (Ok tt)
    (RegisterVisitorConn (λ s, s) true demoVisitor 5 "v2" demoWorld demoManager).2) as (b & l & u & p & c & H);
    [vm_compute; reflexivity|]. exists b, l, u, p, c. repeat split; apply H.
Defined.

End Visitor.
