(* ===== verification/PortsRange.v ===== *)
(** * Port ranges as text: [pkg/config/types/types.go] *)
From S2P Require Import Prelude Chars Ports.
Import Ports.

Module PortsRange.

(** [PortsRangeSlice.String] *)
Definition printRange (v : PortsRange) : chars :=
  if 0 <? Single v then Itoa (Single v) else Itoa (Start v) ++ "-"%char :: Itoa (End v).

Definition String (p : list PortsRange) : chars :=
  match p with [] => [] | _ => Join "," (printRange <$> p) end.

Inductive error := ErrNumber | ErrRange.

Definition ParseInt (l : chars) : res error Z :=
  match Atoi (TrimSpace l) with Some n => Ok n | None => Err ErrNumber end.

Definition parseRange (l : chars) : res error PortsRange :=
  match Split "-" l with
  | [x] => let? n := ParseInt x in Ok (mkPortsRange 0 0 n)
  | [x; y] =>
      let? minNum := ParseInt x in
      let? maxNum := ParseInt y in
      if maxNum <? minNum then Err ErrRange else Ok (mkPortsRange minNum maxNum 0)
  | _ => Err ErrRange
  end.

Fixpoint parseRanges (l : list chars) : res error (list PortsRange) :=
  match l with
  | [] => Ok []
  | x :: l => let? r := parseRange x in let? rs := parseRanges l in Ok (r :: rs)
  end.

Definition NewPortsRangeSliceFromString (str : chars) : res error (list PortsRange) :=
  parseRanges (Split "," (TrimSpace str)).

(** A single port, or an ordered range, within [int64]. *)
Definition rangeOk (r : PortsRange) : Prop :=
  0 < Single r < 2 ^ 63 ∧ Start r = 0 ∧ End r = 0 ∨
  Single r = 0 ∧ 0 ≤ Start r ∧ Start r ≤ End r < 2 ^ 63.

Lemma Itoa_field n : 0 ≤ n → ("-"%char ∉ Itoa n) ∧ (","%char ∉ Itoa n) ∧ Forall (λ x, isSpace x = false) (Itoa n).
Proof.
  intros Hn. destruct (Itoa_digits n Hn) as (_ & Hf & _). rewrite Forall_forall in Hf.
  assert (Hd : ∀ x, x ∈ Itoa n → isSpace x = false ∧ x ≠ ","%char ∧ x ≠ "-"%char) by (intros; apply digit_other; auto).
  split_and!; [intros Hx; by destruct (Hd _ Hx) as (_ & _ & ?)|intros Hx; by destruct (Hd _ Hx) as (_ & ? & _)|].
  rewrite Forall_forall. intros x Hx. by destruct (Hd x Hx).
Qed.

Lemma ParseInt_Itoa n : 0 ≤ n < 2 ^ 63 → ParseInt (Itoa n) = Ok n.
Proof.
  intros Hn. unfold ParseInt. rewrite TrimSpace_id by (apply Itoa_field; lia). by rewrite Atoi_Itoa.
Qed.

Lemma parse_print r : rangeOk r → parseRange (printRange r) = Ok r ∧ (","%char ∉ printRange r) ∧
  Forall (λ x, isSpace x = false) (printRange r).
Proof.
  destruct r as [st en si]. intros [(Hs & E1 & E2)|(E & Hst & Hen)]; simpl in *; subst; unfold printRange, parseRange; simpl.
  - rewrite (proj2 (Z.ltb_lt _ _)) by lia. destruct (Itoa_field si) as (Hm & Hc & Hsp); [lia|].
    rewrite Split_none by done. rewrite ParseInt_Itoa by lia. done.
  - destruct (Itoa_field st) as (Hm & Hc & Hsp); [lia|]. destruct (Itoa_field en) as (Hm' & Hc' & Hsp'); [lia|].
    rewrite Split_app, Split_none by done. rewrite !ParseInt_Itoa by lia.
    rewrite (proj2 (Z.ltb_ge _ _)) by lia. split_and!; [done| |].
    + rewrite not_elem_of_app, not_elem_of_cons. done.
    + apply Forall_app. split; [done|]. by constructor.
Qed.

Lemma Join_forall (P : ascii → Prop) sep fs : P sep → Forall (Forall P) fs → Forall P (Join sep fs).
Proof.
  intros Hs. induction 1 as [|f fs Hf Hfs IH]; [constructor|]. destruct fs as [|g fs]; [done|].
  change (Join sep (f :: g :: fs)) with (f ++ sep :: Join sep (g :: fs)). apply Forall_app. split; [done|]. by constructor.
Qed.

(** a non-empty list of single ports and ordered ranges is read back from
    its text. *)
Theorem ranges_roundtrip p :
  p ≠ [] → Forall rangeOk p → NewPortsRangeSliceFromString (String p) = Ok p.
Proof.
  intros Hne Hp. unfold NewPortsRangeSliceFromString.
  assert (Hpr : ∀ r, r ∈ p → parseRange (printRange r) = Ok r ∧ (","%char ∉ printRange r) ∧
    Forall (λ x, isSpace x = false) (printRange r)).
  { intros r Hr. apply parse_print. rewrite Forall_forall in Hp. auto. }
  replace (String p) with (Join "," (printRange <$> p)) by by destruct p. rewrite TrimSpace_id, Split_Join.
  - clear Hne Hp. induction p as [|r p IH]; [done|]. cbn. destruct (Hpr r) as [-> _]; [set_solver|].
    rewrite IH; [done|]. intros; apply Hpr; set_solver.
  - by destruct p.
  - apply Forall_fmap, Forall_forall. intros r Hr. simpl. by apply Hpr.
  - apply Join_forall; [done|]. apply Forall_fmap, Forall_forall. intros r Hr. simpl. by apply Hpr.
Qed.

(** The text of the empty list is not read back, and neither is a range with
    [Single] zero that was read from a text. *)
Example empty_not_read_back : NewPortsRangeSliceFromString (String []) = Err ErrNumber.
Proof. reflexivity. Qed.
Example zero_not_read_back :
  NewPortsRangeSliceFromString (ofStr "0") = Ok [mkPortsRange 0 0 0] ∧ String [mkPortsRange 0 0 0] = ofStr "0-0".
Proof. split; reflexivity. Qed.

Lemma ranges_roundtrip_witness :
  NewPortsRangeSliceFromString (ofStr "1000-2000,3000") = Ok [mkPortsRange 1000 2000 0; mkPortsRange 0 0 3000].
Proof.
  apply (ranges_roundtrip [mkPortsRange 1000 2000 0; mkPortsRange 0 0 3000]); [discriminate|].
  repeat constructor; unfold rangeOk; simpl; lia.
Defined.

End PortsRange.
