(* ===== verification/Binding.v ===== *)
(** * Binding of hole punching peers: [pkg/xtcpbinding]

    The server issues one manifest per rendezvous: both controls, both nonces
    and both keys under one session id.  This file models the wire format of the
    manifest, the proofs derived from it and the checks of the peer certificate
    ([binding.go], [peer.go]).  SHA-256, HMAC and the X.509 library are parameters;
    nothing is assumed of the hashes but the length of a digest, and only where it
    is used. *)
From S2P Require Import Prelude Bytes UdpBinary.

Module Binding.

Inductive error := ErrBinding | ErrParse | ErrHostname | ErrSignature | ErrChain | ErrShortRead | ErrStream.
#[global] Instance error_eq_dec : EqDecision error.
Proof. solve_decision. Defined.

Definition ALPN : string := "esp-frp-xtcp/1".
Definition Provider : byte := x01.
Definition Visitor : byte := x02.
Definition ProofBytes : nat := 69.

(** A [[32]byte] field is a list; [shaped] says its length is 32. *)
Record Manifest := mkManifest {
  ProxyName : bytes;
  SID : bytes; ProviderControl : bytes; VisitorControl : bytes;
  ProviderNonce : bytes; VisitorNonce : bytes; ProviderSPKI : bytes; VisitorSPKI : bytes;
  IssuedAt : Z; ExpiresAt : Z }.

Definition Nonzero (b : bytes) : bool := existsb (λ v, negb (Zb v =? 0)) b.

(** [copy(out[:], b)] into a zeroed [[32]byte]. *)
Definition array32 (b : bytes) : bytes := copyAt (replicate 32 x00) 0 b.

Definition ID (b : bytes) : res error bytes :=
  if negb (length b =? 32)%nat || negb (Nonzero b) then Err ErrBinding else Ok (array32 b).

Definition fields (m : Manifest) : list bytes :=
  [SID m; ProviderControl m; VisitorControl m; ProviderNonce m; VisitorNonce m; ProviderSPKI m; VisitorSPKI m].

Definition magic : bytes := ofString "EFRPXTC1".

Fixpoint appendFields (out : bytes) (fs : list bytes) : res error bytes :=
  match fs with
  | [] => Ok out
  | f :: fs' => if negb (Nonzero f) then Err ErrBinding else appendFields (out ++ f) fs'
  end.

Definition lenZ (b : bytes) : Z := Z.of_nat (length b).

Definition controlChar (v : byte) : bool := (Zb v <? 32) || (Zb v =? 127).

Definition Encode (m : Manifest) : res error bytes :=
  if (lenZ (ProxyName m) <? 1) || (128 <? lenZ (ProxyName m)) || negb (UdpBinary.utf8Valid (ProxyName m))
     || (IssuedAt m =? 0) || (ExpiresAt m <=? IssuedAt m) || (60 <? (ExpiresAt m - IssuedAt m) mod 2 ^ 64)
  then Err ErrBinding
  else if existsb controlChar (ProxyName m) then Err ErrBinding
  else
    let out := magic ++ [bZ (lenZ (ProxyName m))] in
    let out := out ++ ProxyName m in
    let? out := appendFields out (fields m) in
    let out := out ++ PutUint64 (IssuedAt m) in
    Ok (out ++ PutUint64 (ExpiresAt m)).

(** The 32-byte fields of the wire from offset [at] on. *)
Fixpoint readFields (wire : bytes) (at_ : nat) (n : nat) : list bytes * nat :=
  match n with
  | O => ([], at_)
  | S n' =>
      let f := array32 (slice wire at_ (at_ + 32)) in
      let '(fs, end_) := readFields wire (at_ + 32) n' in
      (f :: fs, end_)
  end.

(** [binary.BigEndian.Uint64(wire[at:])] *)
Definition Uint64 (b : bytes) : Z := getBE (take 8 b).

Definition Decode (wire : bytes) (now : Z) : res error Manifest :=
  if (lenZ wire <? 250) || (377 <? lenZ wire) || negb (bool_decide (slice wire 0 8 = magic)) then Err ErrBinding
  else
    let n := Zb (nth 8 wire x00) in
    if (n =? 0) || (128 <? n) || negb (lenZ wire =? 249 + n) then Err ErrBinding
    else
      let at_ := (9 + Z.to_nat n)%nat in
      let name := slice wire 9 at_ in
      match readFields wire at_ 7 with
      | ([f1; f2; f3; f4; f5; f6; f7], at_) =>
          let m := mkManifest name f1 f2 f3 f4 f5 f6 f7
                     (Uint64 (drop at_ wire)) (Uint64 (drop (at_ + 8) wire)) in
          match Encode m with
          | Err _ => Err ErrBinding
          | Ok _ => if (now <? IssuedAt m) || (ExpiresAt m <=? now) then Err ErrBinding else Ok m
          end
      | _ => Err ErrBinding
      end.

Definition DecodeMustCurrent (m : Manifest) (now : Z) : res error Manifest :=
  let? wire := Encode m in Decode wire now.

Definition CheckLocal (m : Manifest) (role : byte) (control nonce spki : bytes) : res error unit :=
  let? _ := Encode m in
  let '(ok, c, n, s) :=
    if decide (role = Visitor) then (true, VisitorControl m, VisitorNonce m, VisitorSPKI m)
    else (bool_decide (role = Provider), ProviderControl m, ProviderNonce m, ProviderSPKI m) in
  if negb ok then Err ErrBinding
  else if negb (bool_decide (control = c)) || negb (bool_decide (nonce = n)) || negb (bool_decide (spki = s))
  then Err ErrBinding
  else Ok ().

(** ** Proofs of the manifest and of the signalling messages *)
Section crypto.
Variable Sum256 : bytes → bytes.
(** [hmac.New(sha256.New, key)], written the data, summed. *)
Variable hmacSum : bytes → bytes → bytes.

Definition Hash (m : Manifest) : res error bytes := let? wire := Encode m in Ok (Sum256 wire).

Definition isRole (role : byte) : bool := bool_decide (role = Provider) || bool_decide (role = Visitor).

Definition proofInput (role : byte) (d : bytes) : bytes := ofString "esp-frp-xtcp-proof-v1" ++ [role] ++ d.

Definition Proof_ (m : Manifest) (role : byte) (exporter : bytes) : res error bytes :=
  if negb (isRole role) || negb (length exporter =? 32)%nat || negb (Nonzero exporter) then Err ErrBinding
  else
    let? d := Hash m in
    Ok ((ofString "XTP1" ++ [role]) ++ d ++ hmacSum exporter (proofInput role d)).

Definition Verify (m : Manifest) (role : byte) (exporter proof : bytes) : res error unit :=
  let? expected := Proof_ m role exporter in
  if negb (bool_decide (proof = expected)) then Err ErrBinding else Ok ().

Fixpoint checkIDs (fs : list bytes) : res error unit :=
  match fs with
  | [] => Ok ()
  | f :: fs' => let? _ := ID f in checkIDs fs'
  end.

Definition signalInput (role : byte) (proxy control nonce spki : bytes) (timestamp : Z) : bytes :=
  ofString "esp-frp-xtcp-signal-v1" ++ [role; bZ (lenZ proxy)] ++ proxy ++ control ++ nonce ++ spki
    ++ PutUint64 timestamp.

Definition SignalProof (secret : bytes) (role : byte) (proxy control nonce spki : bytes) (timestamp : Z)
  : res error bytes :=
  if (lenZ secret <? 1) || (128 <? lenZ secret) || (lenZ proxy <? 1) || (128 <? lenZ proxy)
     || negb (UdpBinary.utf8Valid proxy) || negb (isRole role) || (timestamp <=? 0)
  then Err ErrBinding
  else
    let? _ := checkIDs [control; nonce; spki] in
    Ok (hmacSum secret (signalInput role proxy control nonce spki timestamp)).

(** ** Certificates of the peers *)
Record RawValue := mkRaw { Class : Z; Tag : Z; IsCompound : bool; RawBytes : bytes }.

Inductive ExtKeyUsage := ExtKeyUsageServerAuth | ExtKeyUsageClientAuth | ExtKeyUsageOther (n : Z).
#[local] Instance usage_eq_dec : EqDecision ExtKeyUsage.
Proof. solve_decision. Defined.

(** The fields of a parsed [x509.Certificate] the checks read; [ecdsaP256] is
    the type assertion on the public key with the test of its curve. *)
Record Certificate := mkCertificate {
  ecdsaP256 : bool; RawSubjectPublicKeyInfo : bytes; DNSNames : list bytes;
  IPAddresses : nat; EmailAddresses : nat; URIs : nat; KeyUsage : Z;
  Extensions : list (list Z * bytes); ExtKeyUsages : list ExtKeyUsage; UnknownExtKeyUsage : nat }.

Variable ParseCertificate : bytes → option Certificate.
Variable UnmarshalNames : bytes → option (list RawValue * bytes).
Variable VerifyHostname : Certificate → bytes → bool.
Variable CheckSignature : Certificate → bool.
Variable VerifyChain : Certificate → ExtKeyUsage → bytes → bool.

Definition PeerName (role : byte) : bytes :=
  if decide (role = Provider) then ofString "esp-frp-xtcp-provider"
  else if decide (role = Visitor) then ofString "esp-frp-xtcp-visitor"
  else [].

Definition subjectAltName : list Z := [2; 5; 29; 17].
Definition ClassContextSpecific : Z := 2.
Definition KeyUsageDigitalSignature : Z := 1.

Definition sanOk (role : byte) (value : bytes) : bool :=
  match UnmarshalNames value with
  | Some ([n], []) =>
      (Class n =? ClassContextSpecific) && (Tag n =? 2) && negb (IsCompound n)
      && bool_decide (RawBytes n = PeerName role)
  | _ => false
  end.

Definition roleUsage (role : byte) : ExtKeyUsage :=
  if decide (role = Visitor) then ExtKeyUsageClientAuth else ExtKeyUsageServerAuth.

Definition ValidateCertificate (role : byte) (der expectedSPKI : bytes) : res error Certificate :=
  if (length der =? 0)%nat || (1024 <? lenZ der) || negb (length expectedSPKI =? 32)%nat
     || bool_decide (PeerName role = [])
  then Err ErrBinding
  else
    match ParseCertificate der with
    | None => Err ErrParse
    | Some cert =>
        if negb (ecdsaP256 cert) then Err ErrBinding
        else if negb (bool_decide (Sum256 (RawSubjectPublicKeyInfo cert) = expectedSPKI)) then Err ErrBinding
        else if negb (bool_decide (DNSNames cert = [PeerName role])) || negb (IPAddresses cert =? 0)%nat
                || negb (EmailAddresses cert =? 0)%nat || negb (URIs cert =? 0)%nat
                || (Z.land (KeyUsage cert) KeyUsageDigitalSignature =? 0)
        then Err ErrBinding
        else if negb (forallb (λ e, if decide (e.1 = subjectAltName) then sanOk role e.2 else true)
                        (Extensions cert))
        then Err ErrBinding
        else if negb (VerifyHostname cert (PeerName role)) then Err ErrHostname
        else if negb (CheckSignature cert) then Err ErrSignature
        else if negb (bool_decide (ExtKeyUsages cert = [roleUsage role])) || negb (UnknownExtKeyUsage cert =? 0)%nat
        then Err ErrBinding
        else if negb (VerifyChain cert (roleUsage role) (PeerName role)) then Err ErrChain
        else Ok cert
    end.

(** ** The TLS configuration of a peer *)

(** [tls.ConnectionState] as [VerifyConnection] reads it: the protocol, the
    version and the key of each peer certificate. *)
Record ConnectionState := mkState {
  NegotiatedProtocol : string; Version : Z; PeerKeys : list bytes }.

Record Config := mkConfig {
  RootCA : Certificate; ServerName : bytes; RequireAndVerifyClientCert : bool;
  VerifyConnection : ConnectionState → res error unit }.

Definition VersionTLS13 : Z := 772.

Definition PeerTLS (local : option bytes) (peerDER : bytes) (m : Manifest) (role : byte) : res error Config :=
  if bool_decide (local = None) || negb (isRole role) then Err ErrBinding
  else
    let '(peerRole, expected) :=
      if decide (role = Visitor) then (Provider, ProviderSPKI m) else (Visitor, VisitorSPKI m) in
    let? cert := ValidateCertificate peerRole peerDER expected in
    Ok (mkConfig cert (PeerName peerRole) (bool_decide (role = Provider)) (λ s,
      if negb (bool_decide (NegotiatedProtocol s = ALPN)) || negb (Version s =? VersionTLS13) then Err ErrBinding
      else match PeerKeys s with
           | [key] => if negb (bool_decide (Sum256 key = expected)) then Err ErrBinding else Ok ()
           | _ => Err ErrBinding
           end)).

(** ** The exchange of proofs on stream 0 *)

(** [read]: a proof, then the end of the stream; the input is what the peer
    wrote before it closed its side. *)
Definition readProof (m : Manifest) (expected : byte) (exporter input : bytes) : res error unit :=
  if (length input <? ProofBytes)%nat then Err ErrShortRead
  else
    let? _ := Verify m expected exporter (take ProofBytes input) in
    if (length input =? ProofBytes)%nat then Ok () else Err ErrBinding.

(** The exporter of a connection, by its negotiated protocol and the keying
    material of its label and context. *)
Definition Exporter (proto : string) (ExportKeyingMaterial : bytes → res error bytes) (m : Manifest)
  : res error bytes :=
  let? digest := Hash m in
  if negb (bool_decide (proto = ALPN)) then Err ErrBinding else ExportKeyingMaterial digest.

(** What one side writes to the stream and how it ends.  The exporter of the
    connection, the stream number and the bytes of the peer are arguments. *)
Definition ExchangeProof (m : Manifest) (role : byte) (exporter : res error bytes) (streamID : res error Z)
  (input : bytes) : bytes * res error unit :=
  match Encode m with
  | Err e => ([], Err e)
  | Ok _ =>
  match exporter with
  | Err e => ([], Err e)
  | Ok exporter =>
  if negb (isRole role) then ([], Err ErrBinding) else
  match streamID with
  | Err e => ([], Err e)
  | Ok id =>
  if negb (id =? 0) then ([], Err ErrBinding) else
  match Proof_ m role exporter with
  | Err e => ([], Err e)
  | Ok local =>
      if decide (role = Visitor) then (local, readProof m Provider exporter input)
      else match readProof m Visitor exporter input with
           | Ok _ => (local, Ok ())
           | Err e => ([], Err e)
           end
  end end end end.
End crypto.

(** ** The wire format of a manifest *)

Definition u64 (z : Z) : Prop := 0 ≤ z < 2 ^ 64.
Definition shaped (m : Manifest) : Prop :=
  Forall (λ f, length f = 32%nat) (fields m) ∧ u64 (IssuedAt m) ∧ u64 (ExpiresAt m).

Lemma array32_id b : length b = 32%nat → array32 b = b.
Proof.
  intros Hb. unfold array32, copyAt. rewrite length_replicate, take_0, app_nil_l, Nat.sub_0_r, Nat.add_0_l.
  rewrite take_ge by lia. rewrite drop_ge by (rewrite length_replicate; lia). apply app_nil_r.
Qed.

Lemma appendFields_spec out fs w :
  appendFields out fs = Ok w ↔ Forall (λ f, Nonzero f = true) fs ∧ w = out ++ concat fs.
Proof.
  revert out. induction fs as [|f fs IH]; intros out; simpl.
  - rewrite app_nil_r. split; [intros [= ->]; split; [constructor|done]|intros [_ ->]; done].
  - destruct (Nonzero f) eqn:Hf; simpl.
    + rewrite IH, Forall_cons, <-app_assoc. tauto.
    + split; [done|]. intros [HF _]. inversion HF; congruence.
Qed.

(** The conditions on a manifest that [Encode] checks before the fields. *)
Definition admissible (m : Manifest) : Prop :=
  1 ≤ lenZ (ProxyName m) ≤ 128 ∧ UdpBinary.utf8Valid (ProxyName m) = true ∧
  Forall (λ v, controlChar v = false) (ProxyName m) ∧
  IssuedAt m ≠ 0 ∧ IssuedAt m < ExpiresAt m ≤ IssuedAt m + 60.

Definition wireOf (m : Manifest) : bytes :=
  magic ++ [bZ (lenZ (ProxyName m))] ++ ProxyName m ++ concat (fields m) ++
  PutUint64 (IssuedAt m) ++ PutUint64 (ExpiresAt m).

Lemma existsb_false_Forall {A} (p : A → bool) l : existsb p l = false ↔ Forall (λ x, p x = false) l.
Proof.
  induction l as [|x l IH]; simpl; [split; [constructor|done]|].
  rewrite orb_false_iff, IH, Forall_cons. tauto.
Qed.

Lemma Encode_spec m w :
  u64 (IssuedAt m) → u64 (ExpiresAt m) →
  Encode m = Ok w ↔ admissible m ∧ Forall (λ f, Nonzero f = true) (fields m) ∧ w = wireOf m.
Proof.
  intros H1 H2. unfold Encode. destruct (_ || _) eqn:E.
  - split; [done|]. intros ((Hn & Hu & _ & Hi & He) & _). exfalso.
    rewrite Z.mod_small in E by (unfold u64 in *; lia).
    repeat (apply orb_prop in E as [E|E]); bool_to_prop; try lia; congruence.
  - bool_to_prop. rewrite Z.mod_small in * by (unfold u64 in *; lia).
    destruct (existsb controlChar _) eqn:Ec.
    + split; [done|]. intros ((_ & _ & Hc & _) & _). apply existsb_false_Forall in Hc. congruence.
    + apply existsb_false_Forall in Ec. split.
      * destruct (appendFields _ _) as [out|] eqn:Ef; [|done]. intros [= <-].
        apply appendFields_spec in Ef as [HF ->]. split; [unfold admissible; repeat split; auto; lia|].
        split; [done|]. unfold wireOf. by rewrite <-!app_assoc.
      * intros (_ & HF & ->). rewrite (proj2 (appendFields_spec _ _ _) (conj HF eq_refl)).
        unfold wireOf. by rewrite <-!app_assoc.
Qed.

Lemma readFields_end wire n : ∀ i, (readFields wire i n).2 = (i + 32 * n)%nat.
Proof.
  induction n as [|n IH]; intros i; simpl; [lia|].
  specialize (IH (i + 32)%nat). destruct (readFields wire (i + 32) n) as [fs e]. simpl in *. lia.
Qed.

Lemma readFields_app fs : ∀ pre rest i,
  i = length pre → Forall (λ f, length f = 32%nat) fs →
  readFields (pre ++ concat fs ++ rest) i (length fs) = (fs, i + 32 * length fs)%nat.
Proof.
  induction fs as [|f fs IH]; intros pre rest i Hi HF; simpl; [f_equal; lia|].
  inversion_clear HF as [|?? Hf HF']. rewrite <-app_assoc.
  rewrite (slice_app_at pre f) by lia. rewrite array32_id by done.
  replace (pre ++ f ++ concat fs ++ rest) with ((pre ++ f) ++ concat fs ++ rest) by by rewrite <-app_assoc.
  rewrite IH by (try done; rewrite length_app; lia). f_equal. lia.
Qed.

Lemma readFields_concat wire n : ∀ i, (i + 32 * n ≤ length wire)%nat →
  let fs := (readFields wire i n).1 in
  length fs = n ∧ Forall (λ f, length f = 32%nat) fs ∧ drop i wire = concat fs ++ drop (i + 32 * n) wire.
Proof.
  induction n as [|n IH]; intros i Hi; simpl.
  - split; [done|]. split; [constructor|]. f_equal. lia.
  - specialize (IH (i + 32)%nat ltac:(lia)). destruct (readFields wire (i + 32) n) as [fs e]. simpl in *.
    destruct IH as (Hl & HF & Hd). assert (length (slice wire i (i + 32)) = 32%nat) as Hs
      by (rewrite length_slice; lia).
    rewrite array32_id by done. split; [lia|]. split; [constructor; done|].
    rewrite (slice_split wire i (i + 32)) by lia. rewrite Hd, <-app_assoc. do 2 f_equal. f_equal. lia.
Qed.

Lemma length_concat32 fs : Forall (λ f : bytes, length f = 32%nat) fs → length (concat fs) = (32 * length fs)%nat.
Proof. induction 1 as [|f fs Hf _ IH]; simpl; [done|]. rewrite length_app, IH. lia. Qed.

Lemma length_wireOf m : shaped m → lenZ (wireOf m) = 249 + lenZ (ProxyName m).
Proof.
  intros [HF _]. unfold wireOf, lenZ. rewrite !length_app, (length_concat32 _ HF).
  unfold PutUint64. rewrite !length_putBE. simpl. lia.
Qed.

Lemma Uint64_put z rest : u64 z → Uint64 (PutUint64 z ++ rest) = z.
Proof.
  intros Hz. unfold Uint64, PutUint64. rewrite take_app_le, take_ge by (rewrite length_putBE; lia).
  apply getBE_putBE. exact Hz.
Qed.

(** What a decoded wire holds, before the window check. *)
Lemma Decode_wireOf m now :
  shaped m → 1 ≤ lenZ (ProxyName m) ≤ 128 →
  Decode (wireOf m) now =
    match Encode m with
    | Err _ => Err ErrBinding
    | Ok _ => if (now <? IssuedAt m) || (ExpiresAt m <=? now) then Err ErrBinding else Ok m
    end.
Proof.
  intros Hm Hn. pose proof (length_wireOf m Hm) as Hl. destruct Hm as (HF & Hi & He).
  unfold Decode. rewrite Hl. destruct (_ <? 250) eqn:?; [bool_to_prop; lia|].
  destruct (377 <? _) eqn:?; [bool_to_prop; lia|].
  rewrite bool_decide_eq_true_2 by reflexivity. simpl orb. cbv iota.
  assert (nth 8 (wireOf m) x00 = bZ (lenZ (ProxyName m))) as -> by reflexivity.
  rewrite Zb_bZ_small by lia. destruct (lenZ _ =? 0) eqn:?; [bool_to_prop; lia|].
  destruct (128 <? _) eqn:?; [bool_to_prop; lia|].
  rewrite Z.eqb_refl. simpl negb. simpl orb. cbv iota.
  set (hdr := magic ++ [bZ (lenZ (ProxyName m))]).
  assert (length hdr = 9%nat) as Hh by reflexivity.
  set (i := (9 + Z.to_nat (lenZ (ProxyName m)))%nat).
  assert (i = length (hdr ++ ProxyName m)) as Hil by (rewrite length_app; unfold i, lenZ; lia).
  assert (wireOf m = (hdr ++ ProxyName m) ++ concat (fields m) ++
    PutUint64 (IssuedAt m) ++ PutUint64 (ExpiresAt m)) as Hw
    by (unfold wireOf, hdr; by rewrite <-!app_assoc).
  assert (readFields (wireOf m) i 7 = (fields m, i + 32 * 7)%nat) as ->
    by (rewrite Hw; apply (readFields_app (fields m)); done).
  cbn [fields].
  replace (slice (wireOf m) 9 i) with (ProxyName m).
  2:{ rewrite Hw, <-app_assoc. symmetry. apply slice_app_at; [done|]. rewrite Hil, length_app. lia. }
  assert (drop (i + 32 * 7) (wireOf m) = PutUint64 (IssuedAt m) ++ PutUint64 (ExpiresAt m)) as Hd.
  { rewrite Hw, app_assoc. rewrite drop_app_length'; [done|]. rewrite (length_app (hdr ++ _)), <-Hil, (length_concat32 _ HF). done. }
  rewrite <-(drop_drop _ 8), Hd, Uint64_put by done.
  rewrite drop_app_length' by (unfold PutUint64; by rewrite length_putBE).
  rewrite <-(app_nil_r (PutUint64 (ExpiresAt m))), Uint64_put by done.
  by destruct m.
Qed.

(** A decoded wire is the encoding of its manifest: there is one wire per
    manifest, of 32-byte nonzero fields and within its window. *)
Lemma Decode_sound wire now m :
  Decode wire now = Ok m →
  shaped m ∧ admissible m ∧ Forall (λ f, Nonzero f = true) (fields m) ∧
  wire = wireOf m ∧ IssuedAt m ≤ now < ExpiresAt m.
Proof.
  unfold Decode. intros H. destruct (_ || _) eqn:E1 in H; [done|]. bool_to_prop.
  set (n := Zb (nth 8 wire x00)) in *. pose proof (Zb_range (nth 8 wire x00)) as Hn. fold n in Hn.
  destruct (_ || _) eqn:E2 in H; [done|]. bool_to_prop. unfold lenZ in *.
  set (i := (9 + Z.to_nat n)%nat) in *.
  destruct (readFields_concat wire 7 i) as (Hfl & HF & Hd); [lia|].
  pose proof (readFields_end wire 7 i) as Hend.
  destruct (readFields wire i 7) as [fs e]. cbn [fst snd] in *. subst e.
  do 7 (destruct fs as [|? fs]; [discriminate|]). destruct fs; [|discriminate].
  set (m0 := mkManifest _ _ _ _ _ _ _ _ _ _) in H.
  destruct (Encode m0) as [w|] eqn:Ee; [|done]. destruct (_ || _) eqn:E3 in H; [done|].
  injection H as <-. bool_to_prop.
  set (t := drop (i + 32 * 7) wire) in *.
  assert (length t = 16%nat) as Ht by (unfold t; rewrite length_drop; lia).
  assert (∀ b, length b = 8%nat → u64 (Uint64 b)) as Hu.
  { intros b Hb. unfold Uint64. rewrite take_ge by lia. pose proof (getBE_range b) as Hr. rewrite Hb in Hr. exact Hr. }
  assert (Uint64 t = Uint64 (take 8 t)) as Hut by (unfold Uint64; by rewrite take_take, Nat.min_id).
  assert (shaped m0) as Hs.
  { split; [exact HF|]. split; unfold m0; cbn [IssuedAt ExpiresAt]; [rewrite Hut; apply Hu; rewrite length_take; lia|].
    rewrite <-drop_drop. fold t. apply Hu. rewrite length_drop. lia. }
  pose proof Hs as (_ & HI & HE). apply (Encode_spec m0 w HI HE) in Ee as (Ha & Hz & _).
  do 3 (split; [done|]). split; [|done].
  assert (length (slice wire 9 i) = Z.to_nat n) as Hsl by (rewrite length_slice; lia).
  unfold wireOf. assert (lenZ (ProxyName m0) = n) as -> by (unfold lenZ; simpl; lia).
  assert (ProxyName m0 ++ concat (fields m0) ++ PutUint64 (IssuedAt m0) ++ PutUint64 (ExpiresAt m0) = drop 9 wire) as ->.
  { rewrite (slice_split wire 9 i) by lia. f_equal. rewrite Hd. f_equal. unfold m0; cbn [IssuedAt ExpiresAt].
    rewrite <-drop_drop. fold t. unfold Uint64, PutUint64. rewrite (take_ge (drop 8 t)) by (rewrite length_drop; lia).
    rewrite !putBE_getBE' by (rewrite ?length_take, ?length_drop; lia). apply take_drop. }
  rewrite <-(take_drop 8 wire) at 1. assert (take 8 wire = magic) as -> by (unfold slice in *; simpl in *; done).
  f_equal. rewrite (slice_split wire 8 9) by lia. f_equal.
  unfold slice. assert (is_Some (wire !! 8%nat)) as [b Hb] by (apply lookup_lt_is_Some; lia).
  rewrite (drop_S wire b) by done. unfold n. rewrite (nth_lookup_Some _ _ _ b) by done. by rewrite bZ_Zb.
Qed.

(** C19: A manifest and its wire determine each other. For manifests with the
    shape of the Go type and a time within the manifest's window, [Decode] of a wire
    gives a manifest exactly when [Encode] of that manifest gives the wire: what
    the server issues is what the peers read, and no second wire decodes to the
    same manifest. *)
Theorem manifest_roundtrip m w now :
  shaped m → IssuedAt m ≤ now < ExpiresAt m → Encode m = Ok w ↔ Decode w now = Ok m.
Proof.
  intros Hs Hn. pose proof Hs as (_ & HI & HE). split; intros H.
  - pose proof H as H'. apply (Encode_spec m w HI HE) in H' as (Ha & _ & ->).
    rewrite Decode_wireOf, H by (done || apply Ha).
    destruct (now <? _) eqn:?; [bool_to_prop; lia|]. by destruct (_ <=? now) eqn:?; [bool_to_prop; lia|].
  - apply Decode_sound in H as (_ & Ha & Hz & -> & _). by apply Encode_spec.
Qed.

(** Every accepted wire is between 250 and 377 bytes, is the one encoding of
    the manifest read from it, and the manifest is current, lives at most 60 seconds,
    names its proxy by 1 to 128 bytes of UTF-8 without control characters and has no
    zero identity, nonce or key. *)
Theorem Decode_accepts wire now m :
  Decode wire now = Ok m →
  250 ≤ lenZ wire ≤ 377 ∧ Encode m = Ok wire ∧ shaped m ∧ IssuedAt m ≤ now < ExpiresAt m ∧
  ExpiresAt m - IssuedAt m ≤ 60 ∧ 1 ≤ lenZ (ProxyName m) ≤ 128 ∧ UdpBinary.utf8Valid (ProxyName m) = true ∧
  Forall (λ v, controlChar v = false) (ProxyName m) ∧ Forall (λ f, Nonzero f = true) (fields m).
Proof.
  intros (Hs & Ha & Hz & -> & Hw)%Decode_sound. pose proof Ha as (Hn & Hu & Hc & _ & He).
  rewrite length_wireOf by done. split; [lia|]. split; [by apply Encode_spec; try apply Hs|].
  repeat split; try done; try lia; apply Hs.
Qed.

(** ** What the proofs bind *)

Lemma app_length_inj {A} (a b c d : list A) : length a = length c → a ++ b = c ++ d → a = c ∧ b = d.
Proof. apply app_inj_1. Qed.

Lemma ID_length b x : ID b = Ok x → length b = 32%nat ∧ Nonzero b = true ∧ x = b.
Proof.
  unfold ID. intros H. destruct (_ || _) eqn:E in H; [done|]. injection H as <-.
  apply orb_false_iff in E as [E1 E2]. apply negb_false_iff in E1, E2. apply Nat.eqb_eq in E1.
  split; [done|]. split; [done|]. by apply array32_id.
Qed.

Section claims.
Variable Sum256 : bytes → bytes.
Variable hmacSum : bytes → bytes → bytes.

Lemma SignalProof_Ok secret role proxy control nonce spki t p :
  SignalProof hmacSum secret role proxy control nonce spki t = Ok p →
  1 ≤ lenZ secret ≤ 128 ∧ 1 ≤ lenZ proxy ≤ 128 ∧ isRole role = true ∧ 0 < t ∧
  length control = 32%nat ∧ length nonce = 32%nat ∧ length spki = 32%nat ∧
  p = hmacSum secret (signalInput role proxy control nonce spki t).
Proof.
  unfold SignalProof. intros H. destruct (_ || _) eqn:E in H; [done|]. bool_to_prop. simpl in H.
  destruct (ID control) eqn:E1; [|done]. destruct (ID nonce) eqn:E2; [|done]. destruct (ID spki) eqn:E3; [|done].
  apply ID_length in E1 as (? & _ & _), E2 as (? & _ & _), E3 as (? & _ & _).
  injection H as <-. repeat split; try done; try lia. 
Qed.

Lemma signalInput_inj r r' p p' c c' n n' k k' t t' :
  0 ≤ lenZ p ≤ 128 → 0 ≤ lenZ p' ≤ 128 → u64 t → u64 t' →
  length c = 32%nat → length c' = 32%nat → length n = 32%nat → length n' = 32%nat →
  length k = 32%nat → length k' = 32%nat →
  signalInput r p c n k t = signalInput r' p' c' n' k' t' →
  (r, p, c, n, k, t) = (r', p', c', n', k', t').
Proof.
  intros Hp Hp' Ht Ht' Hc Hc' Hn Hn' Hk Hk' H. unfold signalInput in H.
  apply app_inv_head in H. injection H as <- Hlen H.
  assert (length p = length p') as Hpp.
  { apply (f_equal Zb) in Hlen. rewrite !Zb_bZ_small in Hlen by lia. unfold lenZ in *. lia. }
  apply app_length_inj in H as [<- H]; [|done]. apply app_length_inj in H as [<- H]; [|congruence].
  apply app_length_inj in H as [<- H]; [|congruence]. apply app_length_inj in H as [<- H]; [|congruence].
  apply putBE_inj in H; [by subst|exact Ht|exact Ht'].
Qed.

(** The encodings of two manifests are different and have the same digest. *)
Definition manifestsCollide (m m' : Manifest) : Prop := ∃ w w', Encode m = Ok w ∧ Encode m' = Ok w' ∧ w ≠ w' ∧ Sum256 w = Sum256 w'.

(** A signalling proof binds everything it is meant to bind. If the same
    secret yields the same proof for two messages, then role, proxy name, control,
    nonce, key and timestamp agree, or the two inputs are a collision of the HMAC
    under that secret: the concatenated transcript is unambiguous. *)
Theorem SignalProof_binds s r p c n k t r' p' c' n' k' t' x :
  t < 2 ^ 63 → t' < 2 ^ 63 →
  SignalProof hmacSum s r p c n k t = Ok x → SignalProof hmacSum s r' p' c' n' k' t' = Ok x →
  (r, p, c, n, k, t) = (r', p', c', n', k', t') ∨
  signalInput r p c n k t ≠ signalInput r' p' c' n' k' t' ∧ hmacSum s (signalInput r p c n k t) = hmacSum s (signalInput r' p' c' n' k' t').
Proof.
  intros Ht Ht' (_ & Hp & _ & ? & Hc & Hn & Hk & ->)%SignalProof_Ok (_ & Hp' & _ & ? & Hc' & Hn' & Hk' & Hx)%SignalProof_Ok.
  destruct (decide (signalInput r p c n k t = signalInput r' p' c' n' k' t')) as [He|He]; [left|right; eauto].
  apply signalInput_inj in He; try done; try lia; unfold u64; lia.
Qed.

Lemma Proof_Ok m role exporter x :
  Proof_ Sum256 hmacSum m role exporter = Ok x →
  ∃ w, Encode m = Ok w ∧ isRole role = true ∧ length exporter = 32%nat ∧ Nonzero exporter = true ∧
  x = (ofString "XTP1" ++ [role]) ++ Sum256 w ++ hmacSum exporter (proofInput role (Sum256 w)).
Proof.
  unfold Proof_, Hash. intros H. destruct (_ || _) eqn:E in H; [done|]. bool_to_prop.
  apply Nat.eqb_eq in H2. destruct (Encode m) as [w|] eqn:Ee; [|done]. injection H as <-. eauto 10.
Qed.

Lemma Verify_Ok m role exporter x :
  Verify Sum256 hmacSum m role exporter x = Ok () ↔ Proof_ Sum256 hmacSum m role exporter = Ok x.
Proof.
  unfold Verify. destruct (Proof_ _ _ _ _ _) as [y|]; [|done].
  destruct (bool_decide (x = y)) eqn:E; bool_to_prop; simpl; split; intros; simplify_eq; done.
Qed.

Lemma Encode_same m m' w : shaped m → shaped m' → Encode m = Ok w → Encode m' = Ok w → m = m'.
Proof.
  intros Hs Hs' H1 H2. pose proof Hs as (_ & HI & HE).
  pose proof H1 as ((Hn & _ & _ & _ & Hw) & _)%Encode_spec; [|done..].
  pose proof Hs' as (_ & HI' & HE'). pose proof H1 as (_ & _ & E1)%Encode_spec; [|done..].
  pose proof H2 as ((Hn' & _) & _ & E2)%Encode_spec; [|done..].
  pose proof (Decode_wireOf m (IssuedAt m) Hs Hn) as D1. pose proof (Decode_wireOf m' (IssuedAt m) Hs' Hn') as D2.
  rewrite H1 in D1. rewrite H2 in D2. rewrite <-E1 in D1. rewrite <-E2, D1 in D2.
  rewrite Z.ltb_irrefl in D2. destruct (ExpiresAt m <=? IssuedAt m) eqn:?; [bool_to_prop; lia|].
  simpl in D2. destruct (_ || _) in D2; by simplify_eq.
Qed.

(** The proof a role makes for a manifest is accepted for that role and
    manifest, never for the other role (a reflected proof is refused), and for
    another manifest only if the two manifests collide under SHA-256. *)
Theorem Proof_separates m m' role role' exporter x :
  (∀ w, length (Sum256 w) = 32%nat) → shaped m → shaped m' →
  Proof_ Sum256 hmacSum m role exporter = Ok x →
  Verify Sum256 hmacSum m role exporter x = Ok () ∧
  (Verify Sum256 hmacSum m' role' exporter x = Ok () →
   role' = role ∧ (m' = m ∨ manifestsCollide m m')).
Proof.
  intros Hlen Hs Hs' HP. split; [by apply Verify_Ok|]. intros (w' & He' & _ & _ & _ & Hx')%Verify_Ok%Proof_Ok.
  apply Proof_Ok in HP as (w & He & _ & _ & _ & ->). injection Hx' as -> Hx'. split; [done|].
  apply app_length_inj in Hx' as [Hd _]; [|by rewrite !Hlen].
  destruct (decide (w = w')) as [->|Hne]; [left|right; by exists w, w']. by eapply Encode_same.
Qed.

(** ** The exchange of two peers *)

Lemma length_Proof m role exporter x :
  (∀ w, length (Sum256 w) = 32%nat) → (∀ k w, length (hmacSum k w) = 32%nat) →
  Proof_ Sum256 hmacSum m role exporter = Ok x → length x = ProofBytes.
Proof.
  intros H1 H2 (w & _ & _ & _ & _ & ->)%Proof_Ok. rewrite !length_app, H1, H2. reflexivity.
Qed.

Lemma readProof_Ok m role exporter input :
  (∀ w, length (Sum256 w) = 32%nat) → (∀ k w, length (hmacSum k w) = 32%nat) →
  readProof Sum256 hmacSum m role exporter input = Ok () ↔ Proof_ Sum256 hmacSum m role exporter = Ok input.
Proof.
  intros H1 H2. unfold readProof. split.
  - destruct (Nat.ltb_spec (length input) ProofBytes); [done|].
    destruct (Verify _ _ _ _ _ _) as [[]|] eqn:E; [|done]. destruct (Nat.eqb_spec (length input) ProofBytes); [|done].
    intros _. apply Verify_Ok in E. by rewrite take_ge in E by lia.
  - intros H. pose proof (length_Proof _ _ _ _ H1 H2 H) as Hl. rewrite Hl, Nat.ltb_irrefl, Nat.eqb_refl.
    rewrite take_ge by lia. by rewrite (proj2 (Verify_Ok _ _ _ _) H).
Qed.

Lemma ExchangeProof_Ok m role exporter input out :
  (∀ w, length (Sum256 w) = 32%nat) → (∀ k w, length (hmacSum k w) = 32%nat) → role = Provider ∨ role = Visitor →
  ExchangeProof Sum256 hmacSum m role (Ok exporter) (Ok 0) input = (out, Ok ()) ↔
  Proof_ Sum256 hmacSum m role exporter = Ok out ∧
  Proof_ Sum256 hmacSum m (if decide (role = Visitor) then Provider else Visitor) exporter = Ok input.
Proof.
  intros H1 H2 Hr. unfold ExchangeProof. rewrite <-(readProof_Ok m _ exporter input H1 H2).
  destruct (Encode m) as [w|] eqn:Ee.
  2:{ split; [done|]. intros [(? & ? & _)%Proof_Ok _]. congruence. }
  assert (isRole role = true) as -> by (destruct Hr as [-> | ->]; reflexivity). simpl.
  destruct (Proof_ _ _ _ _ _) as [x|]; [|by split; [|intros [? _]]].
  destruct (decide (role = Visitor)).
  - split; [intros [= <- ?]; done|intros [[= <-] ?]; by f_equal].
  - destruct (readProof _ _ _ _ _ _) as [[]|]; [|by split; [|intros [_ ?]]].
    split; [intros [= <-]; done|intros [[= <-] ?]; done].
Qed.

(** The provider succeeds before the visitor does. *)
Lemma exchange_ordered mv mp ev ep outv outp rp :
  (∀ w, length (Sum256 w) = 32%nat) → (∀ k w, length (hmacSum k w) = 32%nat) →
  ExchangeProof Sum256 hmacSum mv Visitor (Ok ev) (Ok 0) outp = (outv, Ok ()) →
  ExchangeProof Sum256 hmacSum mp Provider (Ok ep) (Ok 0) outv = (outp, rp) → rp = Ok ().
Proof.
  intros H1 H2 Ev Ep. apply ExchangeProof_Ok in Ev as [_ Hin]; [|auto..]. simpl in Hin.
  pose proof (length_Proof _ _ _ _ H1 H2 Hin) as Hl. unfold ExchangeProof in Ep. go_inv Ep; try done.
Qed.

(** A provider that succeeds has the manifest of the visitor. *)
Lemma exchange_same mv mp ev ep outv outp rv :
  (∀ w, length (Sum256 w) = 32%nat) → (∀ k w, length (hmacSum k w) = 32%nat) → shaped mv → shaped mp →
  ExchangeProof Sum256 hmacSum mv Visitor (Ok ev) (Ok 0) outp = (outv, rv) →
  ExchangeProof Sum256 hmacSum mp Provider (Ok ep) (Ok 0) outv = (outp, Ok ()) →
  mv = mp ∨ manifestsCollide mv mp.
Proof.
  intros H1 H2 Hv Hp Ev Ep. apply ExchangeProof_Ok in Ep as [_ Hx]; [|auto..]. simpl in Hx.
  assert (outv = [] ∨ Proof_ Sum256 hmacSum mv Visitor ev = Ok outv) as [->|Hw] by (unfold ExchangeProof in Ev; go_inv Ev; auto).
  { pose proof (length_Proof _ _ _ _ H1 H2 Hx). done. }
  apply Proof_Ok in Hx as (w & He & _ & _ & _ & Hx), Hw as (w' & He' & _ & _ & _ & ->).
  injection Hx as Hx. apply app_length_inj in Hx as [Hd _]; [|by rewrite !H1].
  destruct (decide (w' = w)) as [->|Hne]; [left; by eapply Encode_same|right; by exists w', w].
Qed.

(** The exchange on stream 0 is mutual. A visitor and a provider connected to
    each other both succeed when they hold the same valid manifest and exporter; the
    visitor succeeds only after the provider did; and a peer that succeeds shares its
    manifest with the other unless the manifests collide under SHA-256. *)
Theorem exchange_mutual mv mp ev ep outv outp rv rp :
  (∀ w, length (Sum256 w) = 32%nat) → (∀ k w, length (hmacSum k w) = 32%nat) → shaped mv → shaped mp →
  ExchangeProof Sum256 hmacSum mv Visitor (Ok ev) (Ok 0) outp = (outv, rv) →
  ExchangeProof Sum256 hmacSum mp Provider (Ok ep) (Ok 0) outv = (outp, rp) →
  (mv = mp → ev = ep → length ev = 32%nat → Nonzero ev = true → is_Ok (Encode mv) → rv = Ok () ∧ rp = Ok ()) ∧
  (rv = Ok () → rp = Ok ()) ∧
  (rp = Ok () → mv = mp ∨ manifestsCollide mv mp).
Proof.
  intros H1 H2 Hv Hp Ev Ep.
  split; [|split].
  - intros -> -> Hl Hz (w & He).
    assert (∀ role, isRole role = true → ∃ x, Proof_ Sum256 hmacSum mp role ep = Ok x) as Hex.
    { intros role Hr. unfold Proof_, Hash. rewrite Hr, Hl, Hz, He. simpl. eauto. }
    destruct (Hex Visitor eq_refl) as [xv Hxv], (Hex Provider eq_refl) as [xp Hxp].
    assert (outv = xv) as ->.
    { unfold ExchangeProof in Ev. rewrite He in Ev. simpl in Ev. rewrite Hxv in Ev. simpl in Ev. by simplify_eq. }
    pose proof (proj2 (ExchangeProof_Ok mp Provider ep xv xp H1 H2 (or_introl eq_refl)) (conj Hxp Hxv)) as E2.
    rewrite Ep in E2. injection E2 as -> ->. split; [|done].
    pose proof (proj2 (ExchangeProof_Ok mp Visitor ep xp xv H1 H2 (or_intror eq_refl)) (conj Hxv Hxp)) as E3.
    rewrite Ev in E3. by injection E3.
  - intros ->. by eapply exchange_ordered.
  - intros ->. by eapply exchange_same.
Qed.
End claims.

(** ** Certificates *)
Section certificates.
Variable Sum256 : bytes → bytes.
Variable Parse : bytes → option Certificate.
Variable names : bytes → option (list RawValue * bytes).
Variable hostname : Certificate → bytes → bool.
Variable sig : Certificate → bool.
Variable chain : Certificate → ExtKeyUsage → bytes → bool.
Let Validate := ValidateCertificate Sum256 Parse names hostname sig chain.

(** A certificate accepted for a role is the certificate the manifest pins, by
    the digest of its key, names that role and nothing else, is signed and verified
    for the usage of the role; the same bytes are refused for the other role. *)
Theorem ValidateCertificate_role role der spki cert :
  Validate role der spki = Ok cert →
  Parse der = Some cert ∧ Sum256 (RawSubjectPublicKeyInfo cert) = spki ∧ DNSNames cert = [PeerName role] ∧
  ExtKeyUsages cert = [roleUsage role] ∧ sig cert = true ∧ chain cert (roleUsage role) (PeerName role) = true ∧
  (∀ e, e ∈ Extensions cert → e.1 = subjectAltName → sanOk names role e.2 = true) ∧
  (∀ role' spki', role' ≠ role → ∀ c, Validate role' der spki' ≠ Ok c).
Proof.
  assert (∀ r d s c, Validate r d s = Ok c →
    Parse d = Some c ∧ Sum256 (RawSubjectPublicKeyInfo c) = s ∧ DNSNames c = [PeerName r] ∧
    ExtKeyUsages c = [roleUsage r] ∧ sig c = true ∧ chain c (roleUsage r) (PeerName r) = true ∧
    (∀ e, e ∈ Extensions c → e.1 = subjectAltName → sanOk names r e.2 = true) ∧ PeerName r ≠ []) as Hspec.
  { intros r d s c H. unfold Validate, ValidateCertificate in H.
    destruct (_ || _) eqn:E1 in H; [done|]. destruct (Parse d) as [c0|]; [|done].
    repeat match type of H with context [if ?b then _ else _] => destruct b eqn:? in H; [done|] end.
    injection H as ->. bool_to_prop. do 6 (split; [done|]). split; [|done].
    intros e He Hid. match goal with H : forallb _ _ = true |- _ => rewrite forallb_forall in H;
      specialize (H e (proj1 (list_elem_of_In _ _) He)) end.
    rewrite decide_True in * by done. done. }
  intros H. pose proof (Hspec _ _ _ _ H) as (Hp & Hs & Hd & Hu & Hg & Hc & He & Hn).
  do 7 (split; [done|]). intros role' spki' Hne c H'.
  pose proof (Hspec _ _ _ _ H') as (Hp' & _ & Hd' & _ & _ & _ & _ & Hn').
  assert (c = cert) as -> by congruence. rewrite Hd in Hd'. injection Hd' as Hname.
  revert Hname Hn Hn'. unfold PeerName. repeat case_decide; intros; first [done|congruence|discriminate].
Qed.
End certificates.

(** ** Witnesses *)

Definition demoManifest : Manifest :=
  let id b := replicate 32 b in
  mkManifest (ofString "cam") (id x11) (id x12) (id x13) (id x14) (id x15) (id x16) (id x17) 1000 1060.
Definition demoWire : bytes := wireOf demoManifest.
(** Stand-ins for the hash functions: the last 32 bytes of the data, and of the
    data and the key. *)
Definition demoSum (w : bytes) : bytes := putBE 32 (getBE w).
Definition demoHmac (k w : bytes) : bytes := putBE 32 (getBE w + getBE k).
Definition demoKey : bytes := replicate 32 x01.
Definition proofOf (role : byte) : bytes :=
  match Proof_ demoSum demoHmac demoManifest role demoKey with Ok x => x | Err _ => [] end.

Lemma demo_shaped : shaped demoManifest.
Proof. split; [repeat constructor|]. unfold u64; simpl; lia. Qed.

Lemma manifest_roundtrip_witness : Decode demoWire 1010 = Ok demoManifest.
Proof.
  apply (manifest_roundtrip demoManifest demoWire 1010); [exact demo_shaped|simpl; lia|]. vm_compute. reflexivity.
Defined.

Lemma Decode_accepts_witness : Encode demoManifest = Ok demoWire ∧ ExpiresAt demoManifest - IssuedAt demoManifest ≤ 60.
Proof.
  destruct (Decode_accepts demoWire 1010 demoManifest) as (_ & H & _ & _ & H' & _); [|split; assumption].
  vm_compute. reflexivity.
Defined.

Lemma SignalProof_binds_witness :
  let id b := replicate 32 b in
  (Visitor, ofString "cam", id x01, id x02, id x03, 77) = (Visitor, ofString "cam", id x01, id x02, id x03, 77)
  ∨ let a := signalInput Visitor (ofString "cam") (id x01) (id x02) (id x03) 77 in a ≠ a ∧ demoHmac (ofString "sk") a = demoHmac (ofString "sk") a.
Proof.
  set (id b := replicate 32 b).
  apply (SignalProof_binds demoHmac (ofString "sk") Visitor (ofString "cam") (id x01) (id x02) (id x03) 77
           Visitor (ofString "cam") (id x01) (id x02) (id x03) 77
           (demoHmac (ofString "sk") (signalInput Visitor (ofString "cam") (id x01) (id x02) (id x03) 77)));
    [lia|lia|vm_compute; reflexivity|vm_compute; reflexivity].
Defined.

Lemma Proof_separates_witness :
  Verify demoSum demoHmac demoManifest Provider demoKey (proofOf Provider) = Ok () ∧
  (Verify demoSum demoHmac demoManifest Visitor demoKey (proofOf Provider) = Ok () → Visitor = Provider).
Proof.
  destruct (Proof_separates demoSum demoHmac demoManifest demoManifest Provider Visitor demoKey (proofOf Provider))
    as [H1 H2]; [intros; apply length_putBE|exact demo_shaped|exact demo_shaped|vm_compute; reflexivity|].
  split; [exact H1|]. intros H. apply H2, H.
Defined.

Lemma exchange_mutual_witness : @Ok error unit () = Ok () ∧ is_Ok (Encode demoManifest).
Proof.
  assert (is_Ok (Encode demoManifest)) as He by (exists demoWire; vm_compute; reflexivity).
  split; [|exact He].
  destruct (exchange_mutual demoSum demoHmac demoManifest demoManifest demoKey demoKey
    (proofOf Visitor) (proofOf Provider) (Ok ()) (Ok ())) as [H _];
    [intros; apply length_putBE|intros; apply length_putBE|exact demo_shaped|exact demo_shaped
    |vm_compute; reflexivity|vm_compute; reflexivity|].
  apply H; [reflexivity|reflexivity|vm_compute; reflexivity|vm_compute; reflexivity|exact He].
Defined.

Definition demoCert : Certificate :=
  mkCertificate true (ofString "key") [PeerName Provider] 0 0 0 1 [] [ExtKeyUsageServerAuth] 0.

Lemma ValidateCertificate_role_witness :
  DNSNames demoCert = [PeerName Provider] ∧
  ∀ c, ValidateCertificate demoSum (λ _, Some demoCert) (λ _, None) (λ _ _, true) (λ _, true) (λ _ _ _, true)
         Visitor [x01] (demoSum (ofString "key")) ≠ Ok c.
Proof.
  destruct (ValidateCertificate_role demoSum (λ _, Some demoCert) (λ _, None) (λ _ _, true) (λ _, true) (λ _ _ _, true)
    Provider [x01] (demoSum (ofString "key")) demoCert) as (_ & _ & H & _ & _ & _ & _ & H'); [vm_compute; reflexivity|].
  split; [exact H|]. apply H'. discriminate.
Defined.
End Binding.
