(* ===== verification/Rendezvous.v ===== *)
(** * Rendezvous of hole punching peers: [pkg/nathole/controller.go]

    The controller keeps the authenticated controls, the proxies waiting for
    visitors and the open sessions.  A visitor's handler runs as a goroutine: it
    is let in under the lock, waits for the provider, decides, answers both sides
    and removes its session under the lock.  Handlers, proxies and controls come and go
    in between; this file models the locked sections as functions, the goroutines as
    threads of a step relation, and objects shared by pointer as heaps. *)
From S2P Require Import Prelude Bytes Chars Nathole UdpBinary Binding.

Module Rendezvous.
Import Nathole.

(** The library functions the controller calls: hashes, X.509 and the texts of
    library errors. *)
Class Lib := {
  Sum256 : bytes → bytes;
  hmacSum : bytes → bytes → bytes;
  md5hex : chars → string;
  ParseCertificate : bytes → option Binding.Certificate;
  UnmarshalNames : bytes → option (list Binding.RawValue * bytes);
  VerifyHostname : Binding.Certificate → bytes → bool;
  CheckSignature : Binding.Certificate → bool;
  VerifyChain : Binding.Certificate → Binding.ExtKeyUsage → bytes → bool;
  certError : Binding.error → string;
  natError : Nathole.error → string }.

Definition ValidateCertificate `{Lib} :=
  Binding.ValidateCertificate Sum256 ParseCertificate UnmarshalNames VerifyHostname CheckSignature VerifyChain.

Definition errText `{Lib} (e : Binding.error) : string :=
  match e with Binding.ErrBinding => "XTCP candidate binding rejected" | _ => certError e end.

(** ** Messages *)
Record NatHoleVisitor := mkVisitorMsg {
  vControlID : bytes; vNonce : bytes; vSPKISHA256 : bytes; vCertificate : bytes; vSignalProof : bytes;
  vTransactionID : string; vProxyName : string; vPreCheck : bool; vProtocol : string; vTimestamp : Z;
  vMappedAddrs : list chars; vAssistedAddrs : list chars }.

Record NatHoleClient := mkClientMsg {
  cControlID : bytes; cNonce : bytes; cSPKISHA256 : bytes; cCertificate : bytes; cSignalProof : bytes;
  cTimestamp : Z; cTransactionID : string; cProxyName : string; cSid : string;
  cMappedAddrs : list chars; cAssistedAddrs : list chars }.

Record NatHoleReport := mkReport { rSid : string; rSuccess : bool }.

Record PortsRange := mkPortsRange { From : Z; To : Z }.

Record NatHoleDetectBehavior := mkDetect {
  Role : Nathole.Role; Mode : Z; TTL : Z; SendDelayMs : Z; ReadTimeoutMs : Z;
  CandidatePorts : list PortsRange; SendRandomPorts : Z; ListenRandomPorts : Z }.

Record NatHoleResp := mkResp {
  BindingManifest : bytes; PeerCertificate : bytes; TransactionID : string; Sid : string; Protocol : string;
  CandidateAddrs : list chars; AssistedAddrs : list chars; DetectBehavior : NatHoleDetectBehavior; Error : string }.

Definition noBehavior : NatHoleDetectBehavior := mkDetect NoRole 0 0 0 0 [] 0 0.

Definition GenNatHoleResponse (transactionID : string) (sid : option string) (errInfo : string) : NatHoleResp :=
  mkResp [] [] transactionID (default EmptyString sid) EmptyString [] [] noBehavior errInfo.

(** ** Decisions on a session *)

(** [slices.Compact]: the elements kept, and the array afterwards, whose tail is
    cleared. *)
Fixpoint compact (l : list chars) : list chars :=
  match l with
  | x :: (y :: _) as t => if decide (x = y) then compact t else x :: compact t
  | _ => l
  end.
Definition compacted (l : list chars) : list chars :=
  compact l ++ replicate (length l - length (compact l)) [].

Definition getRangePorts (addrs : list chars) (difference maxNumber : Z) : list PortsRange :=
  if maxNumber <=? 0 then []
  else match last addrs with
  | None => []
  | Some addr =>
      match SplitHostPort addr with
      | Err _ => []
      | Ok (_, portStr) =>
          match Atoi portStr with
          | None => []
          | Some port =>
              [mkPortsRange
                 (Z.max (Z.max (int64 (int64 (port - difference) - 5)) (int64 (port - maxNumber))) 1)
                 (Z.min (Z.min (int64 (int64 (port + difference) + 5)) (int64 (port + maxNumber))) 65535)]
          end
      end
  end.

(** The candidate addresses are compacted in place before the port range is taken
    from the last of them. *)
Definition newNatHoleResponse (transactionID sid protocol : string) (mode : Z) (candidateAddrs assistedAddrs : list chars)
  (behavior : RecommandBehavior) (readTimeoutMs portsDifference : Z) : NatHoleResp :=
  let compactCandidateAddrs := compact candidateAddrs in
  let candidateAddrs := compacted candidateAddrs in
  let compactAssistedAddrs := compact assistedAddrs in
  mkResp [] [] transactionID sid protocol compactCandidateAddrs compactAssistedAddrs
    (mkDetect (Nathole.role behavior) mode (Nathole.TTL behavior) (Nathole.SendDelayMs behavior) readTimeoutMs
       (getRangePorts candidateAddrs portsDifference (PortsRangeNumber behavior))
       (PortsRandomNumber behavior) (Nathole.ListenRandomPorts behavior))
    EmptyString.

Fixpoint parseIPs (addrs : list chars) : list chars :=
  match addrs with
  | [] => []
  | addr :: addrs' =>
      match SplitHostPort addr with
      | Ok (ip, _) => ip :: parseIPs addrs'
      | Err _ => parseIPs addrs'
      end
  end.

Definition natTypeName (t : NatType) : chars :=
  ofStr match t with EasyNAT => "EasyNAT" | HardNAT => "HardNAT" end.
Definition behaviorName (b : Behavior) : chars :=
  ofStr match b with
        | BehaviorNoChange => "BehaviorNoChange" | BehaviorIPChanged => "BehaviorIPChanged"
        | BehaviorPortChanged => "BehaviorPortChanged" | BehaviorBothChanged => "BehaviorBothChanged"
        end.
Definition FormatBool (b : bool) : chars := ofStr (if b then "true" else "false").

(** What one side contributes to the digest of the analysis key. *)
Definition keyPart (addrs : list chars) (f : NatFeature) : chars :=
  default [] (head (compact (parseIPs addrs))) ++ natTypeName (natType f) ++ behaviorName (behavior f)
    ++ FormatBool (RegularPortsChange f).

(** ** State *)

Record ClientCfg := mkClientCfg {
  name : string; sk : string; allowUsers : list string; ownerControl : bytes; closed : bool }.

Record Session := mkSession {
  sid : string; analysisKey : string; recommandMode : Z; recommandIndex : nat;
  visitorMsg : NatHoleVisitor; visitorTransporter : nat; vResp : option NatHoleResp;
  clientMsg : option NatHoleClient; clientTransporter : nat; cResp : option NatHoleResp;
  notify : bool; visitorControl : bytes; providerControl : bytes; done : bool }.

(** Configurations and sessions live in heaps; the tables hold pointers.
    [panicked] records the close of a closed channel, [sent] the responses with
    the transporter they were sent to. *)
Record Controller := mkController {
  controls : gset bytes; clientCfgs : gmap string nat; sessions : gmap string nat; analyzer : Analyzer;
  cfgHeap : list ClientCfg; sessHeap : list Session; panicked : bool; sent : list (nat * NatHoleResp) }.

Definition NewController (analysisDataReserveDuration : Z) : Controller :=
  mkController ∅ ∅ ∅ (NewAnalyzer analysisDataReserveDuration) [] [] false [].

Definition setDone (s : Session) : Session :=
  mkSession (sid s) (analysisKey s) (recommandMode s) (recommandIndex s) (visitorMsg s) (visitorTransporter s) (vResp s)
    (clientMsg s) (clientTransporter s) (cResp s) (notify s) (visitorControl s) (providerControl s) true.

Definition setClient (m : NatHoleClient) (tr : nat) (s : Session) : Session :=
  mkSession (sid s) (analysisKey s) (recommandMode s) (recommandIndex s) (visitorMsg s) (visitorTransporter s) (vResp s)
    (Some m) tr (cResp s) true (visitorControl s) (providerControl s) (done s).

Definition takeNotify (s : Session) : Session :=
  mkSession (sid s) (analysisKey s) (recommandMode s) (recommandIndex s) (visitorMsg s) (visitorTransporter s) (vResp s)
    (clientMsg s) (clientTransporter s) (cResp s) false (visitorControl s) (providerControl s) (done s).

Definition setAdvice (key : string) (mode : Z) (index : nat) (s : Session) : Session :=
  mkSession (sid s) key mode index (visitorMsg s) (visitorTransporter s) (vResp s)
    (clientMsg s) (clientTransporter s) (cResp s) (notify s) (visitorControl s) (providerControl s) (done s).

Definition setResponses (v c : NatHoleResp) (s : Session) : Session :=
  mkSession (sid s) (analysisKey s) (recommandMode s) (recommandIndex s) (visitorMsg s) (visitorTransporter s) (Some v)
    (clientMsg s) (clientTransporter s) (Some c) (notify s) (visitorControl s) (providerControl s) (done s).

Definition setClosed (c : ClientCfg) : ClientCfg :=
  mkClientCfg (name c) (sk c) (allowUsers c) (ownerControl c) true.

Definition updSession (f : Session → Session) (p : nat) (c : Controller) : Controller :=
  mkController (controls c) (clientCfgs c) (sessions c) (analyzer c) (cfgHeap c) (alter f p (sessHeap c))
    (panicked c) (sent c).

Definition setAnalyzer (a : Analyzer) (c : Controller) : Controller :=
  mkController (controls c) (clientCfgs c) (sessions c) a (cfgHeap c) (sessHeap c) (panicked c) (sent c).

Definition Send (tr : nat) (r : NatHoleResp) (c : Controller) : Controller :=
  mkController (controls c) (clientCfgs c) (sessions c) (analyzer c) (cfgHeap c) (sessHeap c)
    (panicked c) (sent c ++ [(tr, r)]).

(** [delete(c.sessions, sid); close(session.doneCh)] *)
Definition dropSession (sid : string) (p : nat) (c : Controller) : Controller :=
  match sessHeap c !! p with
  | None => c
  | Some s =>
      mkController (controls c) (clientCfgs c) (delete sid (sessions c)) (analyzer c) (cfgHeap c)
        (<[ p := setDone s ]> (sessHeap c)) (panicked c || done s) (sent c)
  end.

(** [delete(c.clientCfgs, name); close(cfg.closed)] *)
Definition dropCfg (name : string) (p : nat) (c : Controller) : Controller :=
  match cfgHeap c !! p with
  | None => c
  | Some cfg =>
      mkController (controls c) (delete name (clientCfgs c)) (sessions c) (analyzer c)
        (<[ p := setClosed cfg ]> (cfgHeap c)) (sessHeap c) (panicked c || closed cfg) (sent c)
  end.

(** A nil dereference. *)
Definition panic (c : Controller) : Controller :=
  mkController (controls c) (clientCfgs c) (sessions c) (analyzer c) (cfgHeap c) (sessHeap c) true (sent c).

(** The loops over the tables that drop the matching entries. *)
Definition sweepStep (P : Session → bool) (c : Controller) (x : string * nat) : Controller :=
  match sessHeap c !! x.2 with
  | Some s => if P s then dropSession x.1 x.2 c else c
  | None => c
  end.
Definition sweepSessions (P : Session → bool) (c : Controller) : Controller :=
  foldl (sweepStep P) c (map_to_list (sessions c)).

Definition sweepCfgStep (P : ClientCfg → bool) (c : Controller) (x : string * nat) : Controller :=
  match cfgHeap c !! x.2 with
  | Some cfg => if P cfg then dropCfg x.1 x.2 c else c
  | None => c
  end.
Definition sweepCfgs (P : ClientCfg → bool) (c : Controller) : Controller :=
  foldl (sweepCfgStep P) c (map_to_list (clientCfgs c)).

(** ** Operations under the lock *)
Section handlers.
Context `{Lib}.

Definition RegisterControl (controlID : bytes) (c : Controller) : res Binding.error Controller :=
  let? id := Binding.ID controlID in
  if decide (id ∈ controls c) then Err Binding.ErrBinding
  else Ok (mkController ({[id]} ∪ controls c) (clientCfgs c) (sessions c) (analyzer c) (cfgHeap c) (sessHeap c)
             (panicked c) (sent c)).

Definition ListenClient (name sk : string) (allowUsers : list string) (ownerControlID : bytes) (c : Controller)
  : res string (nat * Controller) :=
  match Binding.ID ownerControlID with
  | Err e => Err (errText e)
  | Ok owner =>
      let cfg := mkClientCfg name sk allowUsers owner false in
      if negb (bool_decide (owner ∈ controls c)) then Err (errText Binding.ErrBinding)
      else match clientCfgs c !! name with
      | Some _ => Err ("proxy [" +:+ name +:+ "] is repeated")
      | None =>
          let p := length (cfgHeap c) in
          Ok (p, mkController (controls c) (<[ name := p ]> (clientCfgs c)) (sessions c) (analyzer c)
                   (cfgHeap c ++ [cfg]) (sessHeap c) (panicked c) (sent c))
      end
  end.

Definition CloseClient (name : string) (ownerControlID : bytes) (c : Controller) : Controller :=
  match clientCfgs c !! name with
  | None => c
  | Some p =>
      match cfgHeap c !! p with
      | None => c
      | Some cfg =>
          if negb (bool_decide (ownerControlID = ownerControl cfg)) then c
          else sweepSessions (λ s, bool_decide (vProxyName (visitorMsg s) = name)
                                   && bool_decide (providerControl s = ownerControl cfg)) (dropCfg name p c)
      end
  end.

Definition CloseControl (controlID : bytes) (c : Controller) : Controller :=
  match Binding.ID controlID with
  | Err _ => c
  | Ok id =>
      let c := mkController (controls c ∖ {[id]}) (clientCfgs c) (sessions c) (analyzer c) (cfgHeap c) (sessHeap c)
                 (panicked c) (sent c) in
      let c := sweepCfgs (λ cfg, bool_decide (controlID = ownerControl cfg)) c in
      sweepSessions (λ s, bool_decide (controlID = providerControl s) || bool_decide (controlID = visitorControl s)) c
  end.

(** [GenSid] from the bytes of the random source; empty when it fails. *)
Definition GenSid (entropy : option bytes) : string :=
  match entropy with None => EmptyString | Some b => hexEncode b end.

Definition allowed (cfg : ClientCfg) (user : string) : bool :=
  bool_decide (user ∈ allowUsers cfg) || bool_decide ("*" ∈ allowUsers cfg).

(** Negation of [now-t > 5 || t-now > 5] on [int64]. *)
Definition freshTimestamp (now t : Z) : bool :=
  negb ((5 <? int64 (now - t)) || (5 <? int64 (t - now))).

Definition proofOk (sk : string) (role : byte) (proxy : string) (control nonce spki proof : bytes) (t : Z) : bool :=
  match Binding.SignalProof hmacSum (ofString sk) role (ofString proxy) control nonce spki t with
  | Ok expected => bool_decide (proof = expected)
  | Err _ => false
  end.

Definition preCheck (m : NatHoleVisitor) (user : string) (caller : bytes) (c : Controller) : string :=
  if negb (bool_decide (caller ∈ controls c)) then "closed control"
  else match clientCfgs c !! vProxyName m ≫= λ p, cfgHeap c !! p with
  | None => "xtcp server for [" +:+ vProxyName m +:+ "] doesn't exist"
  | Some cfg =>
      if negb (allowed cfg user)
      then "xtcp visitor user [" +:+ user +:+ "] not allowed for [" +:+ vProxyName m +:+ "]"
      else EmptyString
  end.

(** The locked function of [HandleVisitor]: the session and configuration
    pointers of an accepted visitor. *)
Definition openSession (now : Z) (sid : string) (m : NatHoleVisitor) (tr : nat) (user : string) (caller : bytes)
  (c : Controller) : res string (nat * nat * Controller) :=
  if negb (bool_decide (caller ∈ controls c)) then Err (errText Binding.ErrBinding)
  else match clientCfgs c !! vProxyName m with
  | None => Err ("xtcp server for [" +:+ vProxyName m +:+ "] doesn't exist")
  | Some pc =>
  match cfgHeap c !! pc with
  | None => Err ("xtcp server for [" +:+ vProxyName m +:+ "] doesn't exist")
  | Some cfg =>
  if negb (allowed cfg user)
  then Err ("xtcp visitor user [" +:+ user +:+ "] not allowed for [" +:+ vProxyName m +:+ "]")
  else if negb (bool_decide (vProtocol m = "quic")) || negb (freshTimestamp now (vTimestamp m))
          || negb (bool_decide (vControlID m = caller))
  then Err (errText Binding.ErrBinding)
  else if negb (proofOk (sk cfg) Binding.Visitor (vProxyName m) (vControlID m) (vNonce m) (vSPKISHA256 m)
                  (vSignalProof m) (vTimestamp m))
  then Err (errText Binding.ErrBinding)
  else match ValidateCertificate Binding.Visitor (vCertificate m) (vSPKISHA256 m) with
  | Err e => Err (errText e)
  | Ok _ =>
      let s := mkSession sid EmptyString 0 0 m tr None None 0 None false caller (ownerControl cfg) false in
      let p := length (sessHeap c) in
      Ok (p, pc, mkController (controls c) (clientCfgs c) (<[ sid := p ]> (sessions c)) (analyzer c)
                   (cfgHeap c) (sessHeap c ++ [s]) (panicked c) (sent c))
  end end end.

(** [HandleVisitor] up to the first wait: the session and the configuration of the
    goroutine that goes on, or none when it has answered. *)
Definition HandleVisitor_begin (now : Z) (entropy : option bytes) (m : NatHoleVisitor) (tr : nat) (visitorUser : string)
  (callerControlID : bytes) (c : Controller) : Controller * option (nat * nat) :=
  match Binding.ID callerControlID with
  | Err _ => (Send tr (GenNatHoleResponse (vTransactionID m) None "candidate authenticated control required") c, None)
  | Ok caller =>
      if vPreCheck m
      then (Send tr (GenNatHoleResponse (vTransactionID m) None (preCheck m visitorUser caller c)) c, None)
      else
        let sid := GenSid entropy in
        if decide (sid = EmptyString)
        then (Send tr (GenNatHoleResponse (vTransactionID m) None "SID entropy failure") c, None)
        else match openSession now sid m tr visitorUser caller c with
        | Err e => (Send tr (GenNatHoleResponse (vTransactionID m) None e) c, None)
        | Ok (p, pc, c) => (c, Some (p, pc))
        end
  end.

(** The deferred function of [HandleVisitor]. *)
Definition HandleVisitor_cleanup (p : nat) (c : Controller) : Controller :=
  match sessHeap c !! p with
  | None => c
  | Some s => if decide (sessions c !! sid s = Some p) then dropSession (sid s) p c else c
  end.

Definition HandleClient (now : Z) (m : NatHoleClient) (tr : nat) (callerControlID : bytes) (c : Controller) : Controller :=
  match Binding.ID callerControlID with
  | Err _ => c
  | Ok caller =>
  if negb (bool_decide (caller ∈ controls c)) then c
  else match sessions c !! cSid m with
  | None => c
  | Some p =>
  match sessHeap c !! p with
  | None => c
  | Some s =>
  if negb (match clientMsg s with None => true | Some _ => false end)
     || negb (bool_decide (cProxyName m = vProxyName (visitorMsg s)))
     || negb (bool_decide (callerControlID = providerControl s))
     || negb (bool_decide (cControlID m = callerControlID))
  then c
  else match clientCfgs c !! cProxyName m ≫= λ pc, cfgHeap c !! pc with
  | None => c
  | Some cfg =>
  if negb (bool_decide (ownerControl cfg = providerControl s)) || negb (freshTimestamp now (cTimestamp m)) then c
  else if negb (proofOk (sk cfg) Binding.Provider (cProxyName m) (cControlID m) (cNonce m) (cSPKISHA256 m)
                  (cSignalProof m) (cTimestamp m))
  then c
  else match ValidateCertificate Binding.Provider (cCertificate m) (cSPKISHA256 m) with
  | Err _ => c
  | Ok _ => updSession (setClient m tr) p c
  end end end end end.

Definition HandleReport (now : Z) (m : NatHoleReport) (callerControlID : bytes) (c : Controller) : Controller :=
  match sessions c !! rSid m ≫= λ p, sessHeap c !! p with
  | None => c
  | Some s =>
      match Binding.ID callerControlID with
      | Err _ => c
      | Ok caller =>
          if negb (bool_decide (caller ∈ controls c)) then c
          else if negb (bool_decide (callerControlID = providerControl s))
                  && negb (bool_decide (callerControlID = visitorControl s))
          then c
          else if rSuccess m
          then setAnalyzer (ReportSuccess now (analysisKey s) (recommandMode s) (recommandIndex s) (analyzer c)) c
          else c
      end
  end.

Definition genAnalysisKey (vm : NatHoleVisitor) (cm : NatHoleClient) (vFeature cFeature : NatFeature) : string :=
  md5hex (keyPart (vMappedAddrs vm) vFeature ++ keyPart (cMappedAddrs cm) cFeature).

(** The manifest of a session with its client message. *)
Definition manifestOf (now : Z) (sidBytes : bytes) (s : Session) (cm : NatHoleClient) : Binding.Manifest :=
  let vm := visitorMsg s in
  let issued := now mod 2 ^ 64 in
  Binding.mkManifest (ofString (vProxyName vm)) sidBytes (providerControl s) (visitorControl s)
    (Binding.array32 (cNonce cm)) (Binding.array32 (vNonce vm))
    (Binding.array32 (cSPKISHA256 cm)) (Binding.array32 (vSPKISHA256 vm)) issued ((issued + 60) mod 2 ^ 64).

Definition bound (wire cert : bytes) (r : NatHoleResp) : NatHoleResp :=
  mkResp wire cert (TransactionID r) (Sid r) (Protocol r) (CandidateAddrs r) (AssistedAddrs r) (DetectBehavior r) (Error r).

(** [analysis] of session [p]: the responses to the visitor and to the client. *)
Definition analysis (now : Z) (p : nat) (s : Session) (cm : NatHoleClient) (c : Controller)
  : Controller * res string (NatHoleResp * NatHoleResp) :=
  let vm := visitorMsg s in
  match ClassifyNATFeature (cMappedAddrs cm) (parseIPs (cAssistedAddrs cm)) with
  | Err e => (c, Err ("classify client nat feature error: " +:+ natError e))
  | Ok cNat =>
  match ClassifyNATFeature (vMappedAddrs vm) (parseIPs (vAssistedAddrs vm)) with
  | Err e => (c, Err ("classify visitor nat feature error: " +:+ natError e))
  | Ok vNat =>
      let key := genAnalysisKey vm cm vNat cNat in
      let '((mode, index, cB, vB), a) := GetRecommandBehaviors now key cNat vNat (analyzer c) in
      let c := updSession (setAdvice key mode index) p (setAnalyzer a c) in
      let timeoutMs := Z.max (Nathole.SendDelayMs cB) (Nathole.SendDelayMs vB) + 5000 in
      let timeoutMs := if (0 <? Nathole.ListenRandomPorts cB) || (0 <? Nathole.ListenRandomPorts vB)
                       then timeoutMs + 30000 else timeoutMs in
      let vResp := newNatHoleResponse (vTransactionID vm) (sid s) (vProtocol vm) mode (cMappedAddrs cm) (cAssistedAddrs cm)
                     vB (timeoutMs - Nathole.SendDelayMs vB) (PortsDifference cNat) in
      let cResp := newNatHoleResponse (cTransactionID cm) (sid s) (vProtocol vm) mode (vMappedAddrs vm) (vAssistedAddrs vm)
                     cB (timeoutMs - Nathole.SendDelayMs cB) (PortsDifference vNat) in
      match hexDecode (sid s) with
      | None => (c, Err (errText Binding.ErrBinding))
      | Some sidBytes =>
          if negb (length sidBytes =? 32)%nat then (c, Err (errText Binding.ErrBinding))
          else match Binding.Encode (manifestOf now (Binding.array32 sidBytes) s cm) with
          | Err e => (c, Err (errText e))
          | Ok wire => (c, Ok (bound wire (cCertificate cm) vResp, bound wire (vCertificate vm) cResp))
          end
      end
  end end.

(** [HandleVisitor] from the decision to the sends.  The two sends are
    concurrent; they are recorded visitor first. *)
Definition HandleVisitor_decide (now : Z) (p : nat) (s : Session) (cm : NatHoleClient) (c : Controller) : Controller :=
  let '(c, r) := analysis now p s cm c in
  let '(v, cr) := match r with
                  | Ok rs => rs
                  | Err e => (GenNatHoleResponse (vTransactionID (visitorMsg s)) None e,
                              GenNatHoleResponse (cTransactionID cm) None e)
                  end in
  let c := updSession (setResponses v cr) p c in
  Send (clientTransporter s) cr (Send (visitorTransporter s) v c).

(** ** Goroutines of the visitors *)

(** Where a visitor's goroutine stands: offering the session id to the provider,
    waiting for its message, deciding, sending both answers, waiting for the attempt
    to end, in the deferred cleanup, returned. *)
Inductive phase := POffer | PNotify | PDecide | PSend | PLinger | PCleanup | PReturned.
#[global] Instance phase_eq_dec : EqDecision phase.
Proof. solve_decision. Defined.

Record goroutine := mkGo { session : nat; config : nat; at_ : phase }.

Record World := mkWorld { ctl : Controller; visitors : list goroutine }.

Inductive event :=
| ERegisterControl (id : bytes)
| EListen (name sk : string) (users : list string) (owner : bytes)
| ECloseClient (name : string) (owner : bytes)
| ECloseControl (id : bytes)
| EVisitor (now : Z) (entropy : option bytes) (m : NatHoleVisitor) (tr : nat) (user : string) (caller : bytes)
| EClient (now : Z) (m : NatHoleClient) (tr : nat) (caller : bytes)
| EReport (now : Z) (m : NatHoleReport) (caller : bytes)
| EClean (now : Z)
| EReceiveSid (g : nat)
| EWake (g : nat)
| ENotified (g : nat)
| ETimeout (g : nat)
| EDecide (now : Z) (g : nat)
| ESent (g : nat)
| ECleanup (g : nat).

Definition moveTo (g : nat) (ph : phase) (w : World) : World :=
  mkWorld (ctl w) (alter (λ v, mkGo (session v) (config v) ph) g (visitors w)).

Definition withCtl (c : Controller) (w : World) : World := mkWorld c (visitors w).

(** The channels [session.doneCh] and [clientCfg.closed] of a goroutine. *)
Definition released (c : Controller) (v : goroutine) : bool :=
  match sessHeap c !! session v, cfgHeap c !! config v with
  | Some s, Some cfg => done s || closed cfg
  | _, _ => false
  end.

(** One event; an event whose guard does not hold leaves the world unchanged.
    [EReceiveSid] is the provider receiving the id, [EWake] a select taking one of
    the closed channels, [ETimeout] a select taking its timer, [ESent] the return of
    both [Send] calls that hand over the answers ([g.Wait]). *)
Definition exec (e : event) (w : World) : World :=
  let c := ctl w in
  match e with
  | ERegisterControl id => match RegisterControl id c with Ok c => withCtl c w | Err _ => w end
  | EListen name sk users owner =>
      match ListenClient name sk users owner c with Ok (_, c) => withCtl c w | Err _ => w end
  | ECloseClient name owner => withCtl (CloseClient name owner c) w
  | ECloseControl id => withCtl (CloseControl id c) w
  | EVisitor now entropy m tr user caller =>
      match HandleVisitor_begin now entropy m tr user caller c with
      | (c, None) => withCtl c w
      | (c, Some (p, pc)) => mkWorld c (visitors w ++ [mkGo p pc POffer])
      end
  | EClient now m tr caller => withCtl (HandleClient now m tr caller c) w
  | EReport now m caller => withCtl (HandleReport now m caller c) w
  | EClean now => withCtl (setAnalyzer (Clean now (analyzer c)) c) w
  | EReceiveSid g =>
      match visitors w !! g with
      | Some v => if decide (at_ v = POffer) then moveTo g PNotify w else w
      | None => w
      end
  | EWake g =>
      match visitors w !! g with
      | Some v => if decide (at_ v = POffer ∨ at_ v = PNotify ∨ at_ v = PLinger)
                  then if released c v then moveTo g PCleanup w else w else w
      | None => w
      end
  | ENotified g =>
      match visitors w !! g with
      | Some v =>
          match sessHeap c !! session v with
          | Some s => if decide (at_ v = PNotify ∧ notify s = true)
                      then moveTo g PDecide (withCtl (updSession takeNotify (session v) c) w) else w
          | None => w
          end
      | None => w
      end
  | ETimeout g =>
      match visitors w !! g with
      | Some v => if decide (at_ v = PNotify ∨ at_ v = PLinger) then moveTo g PCleanup w else w
      | None => w
      end
  | EDecide now g =>
      match visitors w !! g with
      | Some v =>
          if decide (at_ v = PDecide) then
            if released c v then moveTo g PCleanup w
            else match sessHeap c !! session v with
                 | Some s =>
                     match clientMsg s with
                     | Some cm => moveTo g PSend (withCtl (HandleVisitor_decide now (session v) s cm c) w)
                     | None => withCtl (panic c) w
                     end
                 | None => w
                 end
          else w
      | None => w
      end
  | ESent g =>
      match visitors w !! g with
      | Some v => if decide (at_ v = PSend) then moveTo g PLinger w else w
      | None => w
      end
  | ECleanup g =>
      match visitors w !! g with
      | Some v => if decide (at_ v = PCleanup)
                  then moveTo g PReturned (withCtl (HandleVisitor_cleanup (session v) c) w) else w
      | None => w
      end
  end.

(** Session ids are 256 random bits: executions in which an id is drawn that is
    still in the table are left out. *)
Definition possible (e : event) (w : World) : Prop :=
  match e with EVisitor _ entropy _ _ _ _ => sessions (ctl w) !! GenSid entropy = None | _ => True end.

Definition start (d : Z) : World := mkWorld (NewController d) [].

Inductive reachable (d : Z) : World → Prop :=
| reach_start : reachable d (start d)
| reach_step w e : reachable d w → possible e w → reachable d (exec e w).

(** ** Invariants *)

(** What an accepted visitor and an accepted provider have shown for the
    configuration [cfg]. *)
Definition visitorShown (cfg : ClientCfg) (s : Session) : Prop :=
  let m := visitorMsg s in
  vControlID m = visitorControl s ∧
  proofOk (sk cfg) Binding.Visitor (vProxyName m) (vControlID m) (vNonce m) (vSPKISHA256 m) (vSignalProof m) (vTimestamp m) = true ∧
  is_Ok (ValidateCertificate Binding.Visitor (vCertificate m) (vSPKISHA256 m)).

Definition providerShown (cfg : ClientCfg) (s : Session) (m : NatHoleClient) : Prop :=
  cControlID m = providerControl s ∧ cProxyName m = vProxyName (visitorMsg s) ∧
  proofOk (sk cfg) Binding.Provider (cProxyName m) (cControlID m) (cNonce m) (cSPKISHA256 m) (cSignalProof m) (cTimestamp m) = true ∧
  is_Ok (ValidateCertificate Binding.Provider (cCertificate m) (cSPKISHA256 m)).

(** Session [s] is served by the configuration at [pc]. *)
Definition served (cfgs : list ClientCfg) (pc : nat) (s : Session) : Prop :=
  ∃ cfg, cfgs !! pc = Some cfg ∧ name cfg = vProxyName (visitorMsg s) ∧ ownerControl cfg = providerControl s ∧
  visitorShown cfg s ∧ ∀ m, clientMsg s = Some m → providerShown cfg s m.

(** A response with a manifest, and the session it was made for. *)
Definition backed (ss : list Session) (x : nat * NatHoleResp) : Prop :=
  BindingManifest x.2 = [] ∨
  ∃ p s cm now sidBytes, ss !! p = Some s ∧ clientMsg s = Some cm ∧ hexDecode (sid s) = Some sidBytes ∧
    Binding.Encode (manifestOf now (Binding.array32 sidBytes) s cm) = Ok (BindingManifest x.2) ∧
    Sid x.2 = sid s ∧
    ((x.1 = visitorTransporter s ∧ PeerCertificate x.2 = cCertificate cm) ∨
     (x.1 = clientTransporter s ∧ PeerCertificate x.2 = vCertificate (visitorMsg s))).

(** How objects may change: identities are fixed, a client message is set once,
    closed channels stay closed. *)
Definition sessLe (s s' : Session) : Prop :=
  sid s' = sid s ∧ visitorMsg s' = visitorMsg s ∧ visitorTransporter s' = visitorTransporter s ∧
  visitorControl s' = visitorControl s ∧ providerControl s' = providerControl s ∧
  (∀ m, clientMsg s = Some m → clientMsg s' = Some m ∧ clientTransporter s' = clientTransporter s) ∧
  (done s = true → done s' = true).
Definition cfgLe (c c' : ClientCfg) : Prop :=
  name c' = name c ∧ sk c' = sk c ∧ allowUsers c' = allowUsers c ∧ ownerControl c' = ownerControl c ∧
  (closed c = true → closed c' = true).
Definition heapLe {A} (R : A → A → Prop) (h h' : list A) : Prop :=
  ∀ p x, h !! p = Some x → ∃ x', h' !! p = Some x' ∧ R x x'.

#[local] Instance sessLe_preorder : PreOrder sessLe.
Proof.
  split; [intros s; unfold sessLe; tauto|].
  intros a b c (?&?&?&?&?&Hm&?) (?&?&?&?&?&Hm'&?). unfold sessLe. split_and!; try congruence; [|tauto].
  intros m Hx. apply Hm in Hx as [Hx Ht]. apply Hm' in Hx as [Hx Ht']. split; [done|congruence].
Qed.
#[local] Instance cfgLe_preorder : PreOrder cfgLe.
Proof.
  split; [intros s; unfold cfgLe; tauto|]. intros a b c (?&?&?&?&?) (?&?&?&?&?). unfold cfgLe.
  repeat split; try congruence; tauto.
Qed.
#[local] Instance heapLe_preorder {A} (R : relation A) `{!PreOrder R} : PreOrder (heapLe R).
Proof.
  split; [intros h p x ?; exists x; split; [done|reflexivity]|].
  intros a b c H1 H2 p x Hx. destruct (H1 _ _ Hx) as (y & Hy & Hxy). destruct (H2 _ _ Hy) as (z & ? & Hyz).
  exists z. split; [done|]. by transitivity y.
Qed.

Lemma heapLe_insert {A} (R : relation A) `{!PreOrder R} (h : list A) p x y :
  h !! p = Some x → R x y → heapLe R h (<[ p := y ]> h).
Proof.
  intros Hx HR q z Hz. destruct (decide (p = q)) as [->|Hne].
  - exists y. rewrite list_lookup_insert_eq by (by eapply lookup_lt_Some). split; [done|congruence].
  - exists z. rewrite list_lookup_insert_ne by done. split; [done|reflexivity].
Qed.
Lemma heapLe_alter {A} (R : relation A) `{!PreOrder R} (h : list A) (f : A → A) p :
  (∀ x, h !! p = Some x → R x (f x)) → heapLe R h (alter f p h).
Proof.
  intros HR q z Hz. destruct (decide (p = q)) as [->|Hne].
  - exists (f z). rewrite list_lookup_alter_eq, Hz. split; [done|auto].
  - exists z. rewrite list_lookup_alter_ne by done. split; [done|reflexivity].
Qed.
Lemma heapLe_app {A} (R : relation A) `{!PreOrder R} (h l : list A) : heapLe R h (h ++ l).
Proof. intros p x Hx. exists x. split; [by apply lookup_app_l_Some|reflexivity]. Qed.

Lemma backed_mono ss ss' x : heapLe sessLe ss ss' → backed ss x → backed ss' x.
Proof.
  intros Hle [?|(p & s & cm & now & sb & Hs & Hc & Hx & He & Hid & Hto)]; [by left|]. right.
  destruct (Hle _ _ Hs) as (s' & Hs' & (Hsid & Hvm & Hvt & Hvc & Hpc & Hcm & _)).
  destruct (Hcm _ Hc) as [Hc' Ht']. exists p, s', cm, now, sb. rewrite Hsid, Ht', Hvt, Hvm.
  split_and!; try done. revert He. unfold manifestOf. by rewrite Hvm, Hvc, Hpc.
Qed.

Record base (c : Controller) : Prop := mkBase {
  base_panic : panicked c = false;
  base_cfgs : ∀ n p, clientCfgs c !! n = Some p → ∃ cfg, cfgHeap c !! p = Some cfg ∧ name cfg = n ∧ closed cfg = false;
  base_cfg : ∀ p cfg, cfgHeap c !! p = Some cfg → closed cfg = true ∨ clientCfgs c !! name cfg = Some p;
  base_sessions : ∀ i p, sessions c !! i = Some p → ∃ s, sessHeap c !! p = Some s ∧ sid s = i ∧ done s = false;
  base_session : ∀ p s, sessHeap c !! p = Some s → done s = true ∨ sessions c !! sid s = Some p;
  base_served : ∀ p s, sessHeap c !! p = Some s → ∃ pc, served (cfgHeap c) pc s;
  base_notify : ∀ p s, sessHeap c !! p = Some s → notify s = true → is_Some (clientMsg s);
  base_sent : ∀ x, x ∈ sent c → backed (sessHeap c) x }.

(** A session of the table is live: its controls are active and the
    configuration that serves it is the one listening. *)
Definition live (c : Controller) (s : Session) : Prop :=
  visitorControl s ∈ controls c ∧ ∃ pc, clientCfgs c !! vProxyName (visitorMsg s) = Some pc ∧ served (cfgHeap c) pc s.

Record inv (c : Controller) : Prop := mkInv {
  inv_base : base c;
  inv_owner : ∀ n p cfg, clientCfgs c !! n = Some p → cfgHeap c !! p = Some cfg → ownerControl cfg ∈ controls c;
  inv_live : ∀ i p s, sessions c !! i = Some p → sessHeap c !! p = Some s → live c s }.

Definition le (c c' : Controller) : Prop :=
  heapLe sessLe (sessHeap c) (sessHeap c') ∧ heapLe cfgLe (cfgHeap c) (cfgHeap c').

#[local] Instance le_preorder : PreOrder le.
Proof.
  split; [intros c; split; reflexivity|]. intros a b c [H1 H2] [H3 H4]. split; by etransitivity.
Qed.

Lemma served_cfgLe cfgs cfgs' pc s : heapLe cfgLe cfgs cfgs' → served cfgs pc s → served cfgs' pc s.
Proof.
  intros Hle (cfg & Hc & Hn & Ho & Hv & Hp). destruct (Hle _ _ Hc) as (cfg' & Hc' & (En & Es & _ & Eo & _)).
  exists cfg'. split; [done|]. split; [congruence|]. split; [congruence|].
  unfold visitorShown, providerShown in *. rewrite Es. done.
Qed.

(** Fields that decide how a session is served. *)
Definition sameServed (s s' : Session) : Prop :=
  visitorMsg s' = visitorMsg s ∧ clientMsg s' = clientMsg s ∧ visitorControl s' = visitorControl s ∧
  providerControl s' = providerControl s.

Lemma served_same cfgs pc s s' : sameServed s s' → served cfgs pc s → served cfgs pc s'.
Proof.
  intros (Ev & Ec & Ex & Ep) (cfg & Hc & Hn & Ho & Hv & Hp). exists cfg.
  unfold visitorShown, providerShown in *. rewrite Ev, Ec, Ex, Ep. done.
Qed.

Lemma live_same c s s' : sameServed s s' → live c s → live c s'.
Proof.
  intros Hs (Hv & pc & Hpc & Hsv). destruct (id Hs) as (Ev & _ & Ex & _). split; [congruence|].
  exists pc. rewrite Ev. split; [done|]. by eapply served_same.
Qed.

(** ** Dropping one entry *)

Lemma dropSession_base i p c :
  base c → sessions c !! i = Some p → base (dropSession i p c) ∧ le c (dropSession i p c).
Proof.
  intros [Hpn Hcs Hc Hss Hs Hsv Hn Hsent] Hi. destruct (Hss _ _ Hi) as (s & Hp & Hsid & Hd).
  unfold dropSession. rewrite Hp.
  assert (heapLe sessLe (sessHeap c) (<[ p := setDone s ]> (sessHeap c))) as Hle.
  { apply (heapLe_insert sessLe _ _ s); [done|]. unfold sessLe, setDone; simpl. tauto. }
  assert (∀ q s', <[ p := setDone s ]> (sessHeap c) !! q = Some s' →
    (q = p ∧ s' = setDone s) ∨ (q ≠ p ∧ sessHeap c !! q = Some s')) as Hlk.
  { intros q s' Hq. apply list_lookup_insert_Some in Hq as [(-> & -> & _)|[? ?]]; auto. }
  split; [|split; [done|reflexivity]]. split; simpl.
  - by rewrite Hpn, Hd.
  - done.
  - done.
  - intros j q Hj. apply lookup_delete_Some in Hj as [Hij Hj]. destruct (Hss _ _ Hj) as (s' & Hq & Hsid' & Hd').
    exists s'. split; [|done]. rewrite list_lookup_insert_ne; [done|]. intros ->. simplify_eq.
  - intros q s' [(-> & ->)|[Hne Hq]]%Hlk; [by left|]. destruct (Hs _ _ Hq) as [?|Hin]; [by left|right].
    apply lookup_delete_Some. split; [|done]. intros Heq. rewrite <-Heq, Hi in Hin. congruence.
  - intros q s' [(-> & ->)|[Hne Hq]]%Hlk; [|by eapply Hsv]. destruct (Hsv _ _ Hp) as [pc Hpc].
    exists pc. eapply served_same; [|done]. unfold sameServed; simpl; done.
  - intros q s' [(-> & ->)|[Hne Hq]]%Hlk; [|by eapply Hn]. apply (Hn _ _ Hp).
  - intros x Hx. eapply backed_mono; [done|]. auto.
Qed.

Lemma dropCfg_base n p c :
  base c → clientCfgs c !! n = Some p → base (dropCfg n p c) ∧ le c (dropCfg n p c).
Proof.
  intros [Hpn Hcs Hc Hss Hs Hsv Hn Hsent] Hi. destruct (Hcs _ _ Hi) as (cfg & Hp & Hname & Hd).
  unfold dropCfg. rewrite Hp.
  assert (heapLe cfgLe (cfgHeap c) (<[ p := setClosed cfg ]> (cfgHeap c))) as Hle.
  { apply (heapLe_insert cfgLe _ _ cfg); [done|]. unfold cfgLe, setClosed; simpl. tauto. }
  split; [|split; [reflexivity|done]]. split; simpl; try done.
  - by rewrite Hpn, Hd.
  - intros j q Hj. apply lookup_delete_Some in Hj as [Hij Hj]. destruct (Hcs _ _ Hj) as (s' & Hq & Hsid' & Hd').
    exists s'. split; [|done]. rewrite list_lookup_insert_ne; [done|]. intros ->. simplify_eq.
  - intros q s' Hq. apply list_lookup_insert_Some in Hq as [(-> & <- & _)|[Hne Hq]]; [by left|].
    destruct (Hc _ _ Hq) as [?|Hin]; [by left|right].
    apply lookup_delete_Some. split; [|done]. intros Heq. rewrite <-Heq, Hi in Hin. congruence.
  - intros q s' Hq. destruct (Hsv _ _ Hq) as [pc Hpc]. exists pc. by eapply served_cfgLe.
Qed.

(** ** The sweeps *)

(** Both sweeps drop the matching entries of a table of pointers; the argument
    is the same for both tables. *)
Section sweep.
Context {X : Type} (tab : Controller → gmap string nat) (heap : Controller → list X) (key : X → string).
Context (drop : string → nat → Controller → Controller) (P : X → bool).
Context (R : relation Controller) `{!PreOrder R}.
Hypothesis table_ok : ∀ c i p, base c → tab c !! i = Some p → ∃ x, heap c !! p = Some x ∧ key x = i.
Hypothesis drop_ok : ∀ c i p, base c → tab c !! i = Some p →
  base (drop i p c) ∧ R c (drop i p c) ∧ tab (drop i p c) = delete i (tab c) ∧
  ∀ q, q ≠ p → heap (drop i p c) !! q = heap c !! q.

Let stp (c : Controller) (x : string * nat) : Controller :=
  match heap c !! x.2 with Some o => if P o then drop x.1 x.2 c else c | None => c end.

Lemma sweep_fold l : ∀ c,
  base c → NoDup l.*1 → (∀ i p, (i, p) ∈ l → tab c !! i = Some p) →
  let c' := foldl stp c l in
  base c' ∧ R c c' ∧
  (∀ i p, tab c' !! i = Some p ↔ tab c !! i = Some p ∧ ¬ ((i, p) ∈ l ∧ ∃ s, heap c !! p = Some s ∧ P s = true)) ∧
  (∀ i p, tab c' !! i = Some p → heap c' !! p = heap c !! p).
Proof using Type*.
  induction l as [|[i p] l IH]; intros c Hb Hnd Hin; simpl.
  - split_and!; try done. intros i p. split; [intros; split; [done|]|tauto]. intros [?%not_elem_of_nil _]; done.
  - apply NoDup_cons in Hnd as [Hni Hnd].
    pose proof (Hin i p ltac:(left)) as Hi. destruct (table_ok _ _ _ Hb Hi) as (s & Hp & Hkey).
    assert (∀ j q, (j, q) ∈ l → j ≠ i) as Hji.
    { intros j q Hj ->. apply Hni. apply list_elem_of_fmap. by exists (i, q). }
    assert (stp c (i, p) = if P s then drop i p c else c) as Hst by (unfold stp; simpl; by rewrite Hp).
    rewrite Hst. destruct (P s) eqn:HP.
    + destruct (drop_ok _ _ _ Hb Hi) as (Hb1 & Hle1 & F6 & F7).
      destruct (IH (drop i p c)) as (Hb' & Hle' & E6 & E7); [done|done| |].
      { intros j q Hj. rewrite F6. rewrite lookup_delete_ne by (apply not_eq_sym; eauto). apply Hin. by right. }
      assert (∀ j q, j ≠ i → tab c !! j = Some q → q ≠ p) as Hqp.
      { intros j q Hj Hq ->. destruct (table_ok _ _ _ Hb Hq) as (s' & Hs' & Hsid'). congruence. }
      split; [done|]. split; [by etransitivity|]. split.
      * intros j q. rewrite E6, F6, lookup_delete_Some, elem_of_cons. split.
        -- intros [[Hne Hj] Hx]. split; [done|]. intros [[Heq|Hl] Hs']; [by simplify_eq|]. apply Hx. split; [done|].
           rewrite F7 by eauto. done.
        -- intros [Hj Hx]. assert (i ≠ j) as Hne.
           { intros <-. apply Hx. assert (q = p) as -> by congruence. split; [by left|eauto]. }
           split; [done|]. intros [Hl Hs']. apply Hx. split; [by right|]. rewrite F7 in Hs' by eauto. done.
      * intros j q Hj. rewrite (E7 j q Hj). apply E6 in Hj as [Hj _]. rewrite F6 in Hj.
        apply lookup_delete_Some in Hj as [? ?]. apply F7. eauto.
    + destruct (IH c) as (Hb' & Hle' & E6 & E7); [done|done|intros; apply Hin; by right|].
      do 2 (split; [done|]). split; [|done]. intros j q. rewrite E6, elem_of_cons. split; (intros [Hj Hx]; split; [done|]).
      * intros [[Heq|Hl] (s' & Hs' & HP')]; [|apply Hx; eauto]. simplify_eq. congruence.
      * intros [Hl Hs']. apply Hx. eauto.
Qed.

Lemma sweep_spec c :
  base c →
  let c' := foldl stp c (map_to_list (tab c)) in
  base c' ∧ R c c' ∧
  (∀ i p s, tab c' !! i = Some p ∧ heap c' !! p = Some s ↔ tab c !! i = Some p ∧ heap c !! p = Some s ∧ P s = false).
Proof using Type*.
  intros Hb. destruct (sweep_fold (map_to_list (tab c)) c Hb) as (H1 & H2 & H6 & H7).
  { apply NoDup_fst_map_to_list. } { intros i p ?. by apply elem_of_map_to_list. }
  split; [done|]. split; [done|]. intros i p s. rewrite H6. split.
  - intros [[Hi Hx] Hs]. rewrite (H7 i p) in Hs by (by apply H6). split; [done|]. split; [done|].
    destruct (P s) eqn:E; [|done]. exfalso. apply Hx. split; [by apply elem_of_map_to_list|eauto].
  - intros (Hi & Hs & HP). assert (tab (foldl stp c (map_to_list (tab c))) !! i = Some p) as Hi'.
    { apply H6. split; [done|]. intros (_ & s' & Hs' & HP'). congruence. }
    split; [by apply H6|]. by rewrite (H7 i p).
Qed.
End sweep.

(** What the sweeps leave alone. *)
Definition sameBut (c c' : Controller) : Prop :=
  le c c' ∧ controls c' = controls c ∧ analyzer c' = analyzer c ∧ sent c' = sent c.
Definition sessOnly (c c' : Controller) : Prop :=
  sameBut c c' ∧ clientCfgs c' = clientCfgs c ∧ cfgHeap c' = cfgHeap c.
Definition cfgOnly (c c' : Controller) : Prop :=
  sameBut c c' ∧ sessions c' = sessions c ∧ sessHeap c' = sessHeap c.

#[local] Instance sameBut_preorder : PreOrder sameBut.
Proof.
  split; [intros c; split; [reflexivity|done]|]. intros a b c (Hx&?&?&?) (Hy&?&?&?).
  split; [by etransitivity|]. split_and!; congruence.
Qed.
#[local] Instance sessOnly_preorder : PreOrder sessOnly.
Proof.
  split; [intros c; split; [reflexivity|done]|]. intros a b c (Hx&?&?) (Hy&?&?).
  split; [by etransitivity|]. split_and!; congruence.
Qed.
#[local] Instance cfgOnly_preorder : PreOrder cfgOnly.
Proof.
  split; [intros c; split; [reflexivity|done]|]. intros a b c (Hx&?&?) (Hy&?&?).
  split; [by etransitivity|]. split_and!; congruence.
Qed.

Lemma dropSession_ok c i p :
  base c → sessions c !! i = Some p →
  base (dropSession i p c) ∧ sessOnly c (dropSession i p c) ∧ sessions (dropSession i p c) = delete i (sessions c) ∧
  ∀ q, q ≠ p → sessHeap (dropSession i p c) !! q = sessHeap c !! q.
Proof.
  intros Hb Hi. destruct (dropSession_base i p c Hb Hi) as [Hb' Hle].
  destruct (base_sessions c Hb _ _ Hi) as (s & Hs & _). split; [done|].
  unfold sessOnly, sameBut. revert Hle. unfold dropSession. rewrite Hs. simpl. intros Hle. split_and!; try done.
  intros q Hq. by apply list_lookup_insert_ne.
Qed.

Lemma dropCfg_ok c i p :
  base c → clientCfgs c !! i = Some p →
  base (dropCfg i p c) ∧ cfgOnly c (dropCfg i p c) ∧ clientCfgs (dropCfg i p c) = delete i (clientCfgs c) ∧
  ∀ q, q ≠ p → cfgHeap (dropCfg i p c) !! q = cfgHeap c !! q.
Proof.
  intros Hb Hi. destruct (dropCfg_base i p c Hb Hi) as [Hb' Hle].
  destruct (base_cfgs c Hb _ _ Hi) as (s & Hs & _). split; [done|].
  unfold cfgOnly, sameBut. revert Hle. unfold dropCfg. rewrite Hs. simpl. intros Hle. split_and!; try done.
  intros q Hq. by apply list_lookup_insert_ne.
Qed.

Lemma sweepSessions_spec P c :
  base c →
  let c' := sweepSessions P c in
  base c' ∧ sessOnly c c' ∧
  (∀ i p s, sessions c' !! i = Some p ∧ sessHeap c' !! p = Some s ↔
     sessions c !! i = Some p ∧ sessHeap c !! p = Some s ∧ P s = false).
Proof.
  apply (sweep_spec sessions sessHeap sid dropSession P sessOnly); [|apply dropSession_ok].
  intros c0 i p Hb Hi. destruct (base_sessions c0 Hb _ _ Hi) as (s & ? & ? & _). eauto.
Qed.

Lemma sweepCfgs_spec P c :
  base c →
  let c' := sweepCfgs P c in
  base c' ∧ cfgOnly c c' ∧
  (∀ i p s, clientCfgs c' !! i = Some p ∧ cfgHeap c' !! p = Some s ↔
     clientCfgs c !! i = Some p ∧ cfgHeap c !! p = Some s ∧ P s = false).
Proof.
  apply (sweep_spec clientCfgs cfgHeap name dropCfg P cfgOnly); [|apply dropCfg_ok].
  intros c0 i p Hb Hi. destruct (base_cfgs c0 Hb _ _ Hi) as (s & ? & ? & _). eauto.
Qed.

(** ** Every operation keeps the invariant *)

Definition keeps (c c' : Controller) : Prop := inv c' ∧ le c c'.

Lemma keeps_refl c : inv c → keeps c c.
Proof. split; [done|reflexivity]. Qed.
Lemma keeps_trans c1 c2 c3 : keeps c1 c2 → (inv c2 → keeps c2 c3) → keeps c1 c3.
Proof. intros [Hi Hle] Hk. destruct (Hk Hi) as [? ?]. split; [done|by etransitivity]. Qed.

Lemma setAnalyzer_keeps a c : inv c → keeps c (setAnalyzer a c).
Proof. intros [[] Ho Hl]. split; [split; [by split|exact Ho|exact Hl]|split; reflexivity]. Qed.

Lemma Send_keeps tr r c : inv c → backed (sessHeap c) (tr, r) → keeps c (Send tr r c).
Proof.
  intros [[] ? ?] Hb. split; [|split; reflexivity]. split; [split|..]; simpl; try done.
  intros x [?|Hx%list_elem_of_singleton]%elem_of_app; [auto|]. by subst.
Qed.

(** An update of a session that leaves its service alone. *)
Lemma updSession_keeps f p c :
  (∀ s, sid (f s) = sid s ∧ sameServed s (f s) ∧ visitorTransporter (f s) = visitorTransporter s ∧
        clientTransporter (f s) = clientTransporter s ∧ done (f s) = done s ∧ (notify (f s) = true → notify s = true)) →
  inv c → keeps c (updSession f p c).
Proof.
  intros Hf [[Hpn Hcs Hc Hss Hs Hsv Hn Hsent] Ho Hl].
  assert (heapLe sessLe (sessHeap c) (alter f p (sessHeap c))) as Hle.
  { apply heapLe_alter; [apply _|]. intros s _. destruct (Hf s) as (? & (? & ? & ? & ?) & ? & ? & ? & _).
    unfold sessLe. split_and!; try congruence. intros m. split; congruence. }
  assert (∀ q s', alter f p (sessHeap c) !! q = Some s' →
    ∃ s, sessHeap c !! q = Some s ∧ sid s' = sid s ∧ sameServed s s' ∧ done s' = done s ∧ (notify s' = true → notify s = true)) as Hlk.
  { intros q s' Hq. destruct (decide (p = q)) as [->|Hne].
    - rewrite list_lookup_alter_eq in Hq. apply fmap_Some in Hq as (s & Hq & ->). exists s. split; [done|]. pose proof (Hf s). tauto.
    - rewrite list_lookup_alter_ne in Hq by done. exists s'. split; [done|]. unfold sameServed. tauto. }
  split; [|split; [done|reflexivity]]. split; [split|..]; simpl; try done.
  - intros i q Hi. destruct (Hss _ _ Hi) as (s & Hq & ? & ?). destruct (Hle _ _ Hq) as (s' & Hq' & _).
    destruct (Hlk _ _ Hq') as (s2 & ? & ? & _ & ? & _). exists s'. split; [done|]. simplify_eq. split; congruence.
  - intros q s' Hq. destruct (Hlk _ _ Hq) as (s2 & Hq2 & -> & _ & -> & _). by apply Hs.
  - intros q s' Hq. destruct (Hlk _ _ Hq) as (s2 & Hq2 & _ & Hsm & _). destruct (Hsv _ _ Hq2) as [pc ?].
    exists pc. by eapply served_same.
  - intros q s' Hq Hnt. destruct (Hlk _ _ Hq) as (s2 & Hq2 & _ & (_ & -> & _) & _ & Hx). eauto.
  - intros x Hx. eapply backed_mono; [done|auto].
  - intros i q s' Hi Hq. destruct (Hlk _ _ Hq) as (s2 & Hq2 & _ & Hsm & _). eapply (live_same c s2); [done|eauto].
Qed.

Lemma RegisterControl_keeps id c c' : inv c → RegisterControl id c = Ok c' → keeps c c'.
Proof.
  intros [[] Ho Hl]. unfold RegisterControl. destruct (Binding.ID id); [|done]. case_decide; [done|]. intros [= <-].
  split; [|split; reflexivity]. split; [by split|..]; simpl.
  - intros n p cfg Hn Hp. apply elem_of_union_r. eauto.
  - intros i p s Hi Hp. destruct (Hl _ _ _ Hi Hp) as [? ?]. split; [by apply elem_of_union_r|done].
Qed.

Lemma ListenClient_keeps n k us o p c c' : inv c → ListenClient n k us o c = Ok (p, c') → keeps c c'.
Proof.
  intros [[Hpn Hcs Hc Hss Hs Hsv Hn Hsent] Ho Hl]. unfold ListenClient. destruct (Binding.ID o) as [owner|]; [|done].
  destruct (bool_decide (owner ∈ controls c)) eqn:Eo; [|done]. bool_to_prop. simpl.
  destruct (clientCfgs c !! n) eqn:En; [done|]. intros [= <- <-].
  set (cfg := mkClientCfg n k us owner false).
  assert (heapLe cfgLe (cfgHeap c) (cfgHeap c ++ [cfg])) as Hle by (apply heapLe_app; apply _).
  assert ((cfgHeap c ++ [cfg]) !! length (cfgHeap c) = Some cfg) as Hnew by (by apply list_lookup_middle).
  split; [|split; [reflexivity|done]]. split; [split|..]; simpl; try done.
  - intros m q [[<- <-]|[Hne Hm]]%lookup_insert_Some; [eauto|].
    destruct (Hcs _ _ Hm) as (g & Hg & ? & ?). exists g. split; [by apply lookup_app_l_Some|done].
  - intros q g Hq. apply lookup_app_Some in Hq as [Hq|[Hge Hq]].
    + destruct (Hc _ _ Hq) as [?|Hin]; [by left|right]. rewrite lookup_insert_ne; [done|congruence].
    + right. apply list_lookup_singleton_Some in Hq as [Hq <-]. simpl.
      replace q with (length (cfgHeap c)) by lia. apply lookup_insert_eq.
  - intros q s Hq. destruct (Hsv _ _ Hq) as [pc ?]. exists pc. by eapply served_cfgLe.
  - intros m q g [[<- <-]|[Hne Hm]]%lookup_insert_Some Hg; [rewrite Hnew in Hg; by simplify_eq|].
    destruct (Hcs _ _ Hm) as (g' & Hg' & _). rewrite (lookup_app_l_Some _ _ _ _ Hg') in Hg. simplify_eq. eauto.
  - intros i q s Hi Hq. destruct (Hl _ _ _ Hi Hq) as (? & pc & Hpc & Hsd). split; [done|]. exists pc. simpl.
    split; [rewrite lookup_insert_ne; [done|congruence]|]. by eapply served_cfgLe.
Qed.

Lemma CloseClient_keeps n o c : inv c → keeps c (CloseClient n o c).
Proof.
  intros Hi. unfold CloseClient. destruct (clientCfgs c !! n) as [p|] eqn:En; [|by apply keeps_refl].
  destruct (cfgHeap c !! p) as [cfg|] eqn:Ep; [|by apply keeps_refl].
  destruct (bool_decide (o = ownerControl cfg)) eqn:Eo; [|by apply keeps_refl]. simpl.
  destruct Hi as [Hb Ho Hl]. destruct (dropCfg_ok c n p Hb En) as (Hb1 & ((Hle1 & Ec1 & _) & Es1 & Eh1) & Et1 & Eq1).
  set (P := λ s, bool_decide (vProxyName (visitorMsg s) = n) && bool_decide (providerControl s = ownerControl cfg)).
  destruct (sweepSessions_spec P (dropCfg n p c) Hb1) as (Hb2 & ((Hle2 & Ec2 & _) & Et2 & Eh2) & Hspec).
  split; [|by etransitivity]. split; [done|..].
  - intros m q g Hm Hg. rewrite Ec2, Ec1. rewrite Et2, Et1 in Hm. apply lookup_delete_Some in Hm as [Hne Hm].
    rewrite Eh2 in Hg. destruct (base_cfgs c Hb _ _ Hm) as (g' & Hg' & Hgn & _).
    assert (q ≠ p) as Hqp. { intros ->. destruct (base_cfgs c Hb _ _ En) as (g2 & ? & ? & _). congruence. }
    rewrite Eq1 in Hg by done. eauto.
  - intros i q s Hi Hq. destruct (proj1 (Hspec i q s) (conj Hi Hq)) as (Hi' & Hq' & HP).
    rewrite Es1 in Hi'. rewrite Eh1 in Hq'. destruct (Hl _ _ _ Hi' Hq') as (Hv & pc & Hpc & Hsd).
    split; [rewrite Ec2, Ec1; done|]. exists pc. rewrite Et2, Et1, Eh2.
    split; [|eapply served_cfgLe; [apply Hle1|done]]. rewrite lookup_delete_ne; [done|]. intros Heq.
    assert (pc = p) as -> by congruence. destruct Hsd as (g & Hg & _ & Hog & _). assert (g = cfg) as -> by congruence.
    revert HP. unfold P. rewrite Heq, Hog, !bool_decide_eq_true_2; done.
Qed.

Lemma CloseControl_keeps o c : inv c → keeps c (CloseControl o c).
Proof.
  intros Hi. unfold CloseControl. destruct (Binding.ID o) as [id|] eqn:Eid; [|by apply keeps_refl].
  apply Binding.ID_length in Eid as (_ & _ & ->). destruct Hi as [Hb Ho Hl].
  set (c1 := mkController _ _ _ _ _ _ _ _).
  assert (base c1) as Hb1 by (destruct Hb; by split).
  destruct (sweepCfgs_spec (λ cfg, bool_decide (o = ownerControl cfg)) c1 Hb1) as (Hb2 & ((Hle2 & Ec2 & _) & Es2 & Eh2) & Hsp2).
  set (c2 := sweepCfgs _ c1) in *.
  set (P := λ s, bool_decide (o = providerControl s) || bool_decide (o = visitorControl s)).
  destruct (sweepSessions_spec P c2 Hb2) as (Hb3 & ((Hle3 & Ec3 & _) & Et3 & Eh3) & Hsp3).
  split; [|transitivity c2; [exact Hle2|exact Hle3]]. split; [done|..].
  - intros m q g Hm Hg. rewrite Et3 in Hm. rewrite Eh3 in Hg.
    destruct (proj1 (Hsp2 m q g) (conj Hm Hg)) as (Hm1 & Hg1 & HP). bool_to_prop.
    rewrite Ec3, Ec2. apply elem_of_difference. split; [by eapply Ho|]. rewrite elem_of_singleton. congruence.
  - intros i q s Hi Hq. destruct (proj1 (Hsp3 i q s) (conj Hi Hq)) as (Hi' & Hq' & HP).
    unfold P in HP. bool_to_prop. rewrite Es2 in Hi'. rewrite Eh2 in Hq'.
    destruct (Hl _ _ _ Hi' Hq') as (Hv & pc & Hpc & Hsd). split.
    { rewrite Ec3, Ec2. apply elem_of_difference. split; [done|]. rewrite elem_of_singleton. congruence. }
    pose proof Hsd as (g & Hg & _ & Hog & _).
    destruct (proj2 (Hsp2 (vProxyName (visitorMsg s)) pc g)) as [Hpc' _].
    { split; [done|]. split; [done|]. apply bool_decide_eq_false_2. congruence. }
    exists pc. rewrite Et3, Eh3. split; [done|]. eapply served_cfgLe; [apply Hle2|]. exact Hsd.
Qed.

Lemma freshTimestamp_near now t :
  is_int64 now → 0 < t < 2 ^ 63 → 0 ≤ now → freshTimestamp now t = true → - 5 ≤ now - t ≤ 5.
Proof.
  unfold freshTimestamp. intros Hn Ht H0 H1. bool_to_prop. unfold is_int64 in *.
  rewrite !int64_id in * by (unfold is_int64; lia). lia.
Qed.

(** What an accepted visitor has passed. *)
Lemma openSession_Ok now i m tr user caller c p pc c' :
  openSession now i m tr user caller c = Ok (p, pc, c') →
  ∃ cfg, caller ∈ controls c ∧ clientCfgs c !! vProxyName m = Some pc ∧ cfgHeap c !! pc = Some cfg ∧
  allowed cfg user = true ∧ vProtocol m = "quic" ∧ freshTimestamp now (vTimestamp m) = true ∧ vControlID m = caller ∧
  proofOk (sk cfg) Binding.Visitor (vProxyName m) (vControlID m) (vNonce m) (vSPKISHA256 m) (vSignalProof m) (vTimestamp m) = true ∧
  is_Ok (ValidateCertificate Binding.Visitor (vCertificate m) (vSPKISHA256 m)) ∧ p = length (sessHeap c) ∧
  c' = mkController (controls c) (clientCfgs c) (<[ i := p ]> (sessions c)) (analyzer c) (cfgHeap c)
         (sessHeap c ++ [mkSession i EmptyString 0 0 m tr None None 0 None false caller (ownerControl cfg) false])
         (panicked c) (sent c).
Proof.
  unfold openSession. destruct (bool_decide (caller ∈ controls c)) eqn:E1; [|done]. simpl.
  destruct (clientCfgs c !! vProxyName m) as [pc'|] eqn:E2; [|done].
  destruct (cfgHeap c !! pc') as [cfg|] eqn:E3; [|done]. destruct (allowed cfg user) eqn:E4; [|done]. simpl.
  destruct (_ || _) eqn:E5; [done|]. destruct (proofOk _ _ _ _ _ _ _ _) eqn:E6; [|done]. simpl.
  destruct (ValidateCertificate _ _ _) as [cert|] eqn:E7; [|done]. intros [= <- <- <-]. bool_to_prop.
  exists cfg. split_and!; try done; try (by exists cert).
Qed.

Lemma openSession_keeps now i m tr user caller c p pc c' :
  sessions c !! i = None → inv c → openSession now i m tr user caller c = Ok (p, pc, c') → keeps c c'.
Proof.
  intros Hfr [[Hpn Hcs Hc Hss Hs Hsv Hn Hsent] Ho Hl]
    (cfg & Hcl & Hpc & Hcfg & _ & _ & _ & Hid & Hpr & Hcert & -> & ->)%openSession_Ok.
  set (s := mkSession _ _ _ _ _ _ _ _ _ _ _ _ _ _).
  assert (heapLe sessLe (sessHeap c) (sessHeap c ++ [s])) as Hle by (apply heapLe_app; apply _).
  assert ((sessHeap c ++ [s]) !! length (sessHeap c) = Some s) as Hnew by (by apply list_lookup_middle).
  assert (served (cfgHeap c) pc s) as Hsd.
  { destruct (Hcs _ _ Hpc) as (g & Hg & Hgn & _). assert (g = cfg) as -> by congruence.
    exists cfg. unfold visitorShown. simpl. split_and!; done. }
  assert (∀ q s', (sessHeap c ++ [s]) !! q = Some s' →
    sessHeap c !! q = Some s' ∨ (q = length (sessHeap c) ∧ s' = s)) as Hlk.
  { intros q s' Hq. apply lookup_app_Some in Hq as [Hq|[Hge Hq]]; [by left|right].
    apply list_lookup_singleton_Some in Hq as [? <-]. split; [lia|done]. }
  assert (∀ q s', sessHeap c !! q = Some s' → q ≠ length (sessHeap c)) as Hlt.
  { intros q s' Hq ->. apply lookup_lt_Some in Hq. lia. }
  split; [|split; [done|reflexivity]]. split; [split|..]; simpl; try done.
  - intros j q [[<- <-]|[Hne Hj]]%lookup_insert_Some; [exists s; done|].
    destruct (Hss _ _ Hj) as (s' & Hq & ? & ?). exists s'. split; [by apply lookup_app_l_Some|done].
  - intros q s' [Hq|[-> ->]]%Hlk; [|right; apply lookup_insert_eq]. destruct (Hs _ _ Hq) as [?|Hin]; [by left|right].
    rewrite lookup_insert_ne; [done|congruence].
  - intros q s' [Hq|[-> ->]]%Hlk; eauto.
  - intros q s' [Hq|[-> ->]]%Hlk; [eauto|done].
  - intros x Hx. eapply backed_mono; [done|auto].
  - intros j q s' [[<- <-]|[Hne Hj]]%lookup_insert_Some Hq.
    + rewrite Hnew in Hq. simplify_eq. split; [done|]. exists pc. done.
    + destruct (Hlk _ _ Hq) as [Hq'|[-> ->]]; [apply (Hl _ _ _ Hj Hq')|].
      destruct (Hss _ _ Hj) as (s2 & Hs2 & _). by apply Hlt in Hs2.
Qed.

Lemma HandleVisitor_begin_keeps now en m tr user caller c :
  sessions c !! GenSid en = None → inv c → keeps c (HandleVisitor_begin now en m tr user caller c).1.
Proof.
  intros Hfr Hi. unfold HandleVisitor_begin.
  destruct (Binding.ID caller) as [cl|]; [|by apply Send_keeps; [|left]].
  destruct (vPreCheck m); [by apply Send_keeps; [|left]|]. case_decide; [by apply Send_keeps; [|left]|].
  destruct (openSession _ _ _ _ _ _ _) as [[[p pc] c']|] eqn:E; [|by apply Send_keeps; [|left]].
  by eapply openSession_keeps.
Qed.

Lemma HandleClient_cases now m tr caller c :
  HandleClient now m tr caller c = c ∨
  ∃ p s pc cfg, HandleClient now m tr caller c = updSession (setClient m tr) p c ∧
    Binding.ID caller = Ok caller ∧ caller ∈ controls c ∧
    sessions c !! cSid m = Some p ∧ sessHeap c !! p = Some s ∧ clientMsg s = None ∧
    cProxyName m = vProxyName (visitorMsg s) ∧ caller = providerControl s ∧ cControlID m = caller ∧
    clientCfgs c !! cProxyName m = Some pc ∧ cfgHeap c !! pc = Some cfg ∧ ownerControl cfg = providerControl s ∧
    freshTimestamp now (cTimestamp m) = true ∧
    proofOk (sk cfg) Binding.Provider (cProxyName m) (cControlID m) (cNonce m) (cSPKISHA256 m) (cSignalProof m) (cTimestamp m) = true ∧
    is_Ok (ValidateCertificate Binding.Provider (cCertificate m) (cSPKISHA256 m)).
Proof.
  generalize (eq_refl (HandleClient now m tr caller c)). generalize (HandleClient now m tr caller c) at 2 3 4.
  intros r Hr. unfold HandleClient in Hr. destruct (Binding.ID caller) as [cl|] eqn:Eid; [|by left].
  pose proof Eid as (_ & _ & ->)%Binding.ID_length.
  destruct (bool_decide (caller ∈ controls c)) eqn:E1 in Hr; [|by left]. simpl in Hr.
  destruct (sessions c !! cSid m) as [p|] eqn:E2 in Hr; [|by left].
  destruct (sessHeap c !! p) as [s|] eqn:E3 in Hr; [|by left].
  destruct (_ || _) eqn:E4 in Hr; [by left|]. destruct (clientMsg s) eqn:E5; [done|]. simpl in E4.
  destruct (clientCfgs c !! cProxyName m) as [pc|] eqn:E6 in Hr; [|by left]. simpl in Hr.
  destruct (cfgHeap c !! pc) as [cfg|] eqn:E7 in Hr; [|by left]. destruct (_ || _) eqn:E8 in Hr; [by left|].
  destruct (proofOk _ _ _ _ _ _ _ _) eqn:E9 in Hr; [|by left]. simpl in Hr.
  destruct (ValidateCertificate _ _ _) as [cert|] eqn:E10 in Hr; [|by left]. right. bool_to_prop.
  exists p, s, pc, cfg. split_and!; try done; try (by exists cert).
Qed.

Lemma HandleClient_keeps now m tr caller c : inv c → keeps c (HandleClient now m tr caller c).
Proof.
  intros Hi. destruct (HandleClient_cases now m tr caller c) as [->|(p & s & pc & cfg & -> & _ & _ & Hid & Hp & Hnone & Hname & Hcl & Hctl & Hpc & Hcfg & Hown & _ & Hpr & Hcert)];
    [by apply keeps_refl|].
  destruct Hi as [[Hpn Hcs Hc Hss Hs Hsv Hn Hsent] Ho Hl].
  assert (heapLe sessLe (sessHeap c) (alter (setClient m tr) p (sessHeap c))) as Hle.
  { apply heapLe_alter; [apply _|]. intros s' Hs'. assert (s' = s) as -> by congruence.
    unfold sessLe, setClient; simpl. split_and!; try done. intros ? ?. congruence. }
  assert (served (cfgHeap c) pc (setClient m tr s)) as Hsd.
  { destruct (Hl _ _ _ Hid Hp) as (_ & pc' & Hpc' & (g & Hg & Hgn & Hgo & Hv & _)).
    rewrite <-Hname in Hpc'. assert (pc' = pc) as -> by congruence. assert (g = cfg) as -> by congruence.
    exists cfg. split; [done|]. split; [done|]. split; [done|]. split; [exact Hv|]. simpl. intros ? [= <-].
    unfold providerShown. simpl. split_and!; congruence || done. }
  assert (∀ q s', alter (setClient m tr) p (sessHeap c) !! q = Some s' →
    (q = p ∧ s' = setClient m tr s) ∨ (q ≠ p ∧ sessHeap c !! q = Some s')) as Hlk.
  { intros q s' Hq. destruct (decide (p = q)) as [->|Hne].
    - left. rewrite list_lookup_alter_eq, Hp in Hq. simpl in Hq. split; [done|congruence].
    - right. rewrite list_lookup_alter_ne in Hq by done. done. }
  split; [|split; [done|reflexivity]]. split; [split|..]; simpl; try done.
  - intros i q Hi. destruct (Hss _ _ Hi) as (s' & Hq & ? & ?). destruct (decide (p = q)) as [->|Hne].
    + exists (setClient m tr s'). rewrite list_lookup_alter_eq, Hq. done.
    + exists s'. rewrite list_lookup_alter_ne by done. done.
  - intros q s' [[-> ->]|[_ Hq]]%Hlk; [|auto]. apply (Hs p s Hp).
  - intros q s' [[-> ->]|[_ Hq]]%Hlk; [|eauto]. eauto.
  - intros q s' [[-> ->]|[_ Hq]]%Hlk; [|eauto]. by eexists.
  - intros x Hx. eapply backed_mono; [done|auto].
  - intros i q s' Hi [[-> ->]|[_ Hq]]%Hlk; [|by apply (Hl _ _ _ Hi Hq)].
    destruct (Hl _ _ _ Hi Hp) as [Hv _]. split; [done|]. exists pc. simpl. rewrite <-Hname. done.
Qed.

Lemma HandleReport_keeps now m caller c : inv c → keeps c (HandleReport now m caller c).
Proof.
  intros Hi. unfold HandleReport. repeat case_match; by (apply keeps_refl || apply setAnalyzer_keeps).
Qed.

Lemma HandleVisitor_cleanup_keeps p c : inv c → keeps c (HandleVisitor_cleanup p c).
Proof.
  intros Hi. unfold HandleVisitor_cleanup. destruct (sessHeap c !! p) as [s|] eqn:Ep; [|by apply keeps_refl].
  case_decide as Hd; [|by apply keeps_refl]. destruct Hi as [Hb Ho Hl].
  destruct (dropSession_ok c _ _ Hb Hd) as (Hb' & ((Hle & Ec & _) & Ecf & Ech) & Es & Eq).
  split; [|done]. split; [done|rewrite Ecf, Ech, Ec; done|]. intros i q s' Hi Hq. rewrite Es in Hi.
  apply lookup_delete_Some in Hi as [Hne Hi].
  assert (q ≠ p) as Hqp. { intros ->. destruct (base_sessions c Hb _ _ Hi) as (s2 & ? & ? & _). congruence. }
  rewrite Eq in Hq by done. destruct (Hl _ _ _ Hi Hq) as (? & pc & ? & ?). split; [congruence|].
  exists pc. rewrite Ecf, Ech. done.
Qed.

Lemma upd_plain f p c :
  (∀ s, sid (f s) = sid s ∧ sameServed s (f s) ∧ visitorTransporter (f s) = visitorTransporter s ∧
        clientTransporter (f s) = clientTransporter s ∧ done (f s) = done s ∧ notify (f s) = notify s) →
  inv c → keeps c (updSession f p c).
Proof.
  intros Hf. apply updSession_keeps. intros s. destruct (Hf s) as (? & ? & ? & ? & ? & ?).
  split_and!; try done. congruence.
Qed.

Lemma analysis_keeps now p s cm c c1 r :
  inv c → analysis now p s cm c = (c1, r) →
  keeps c c1 ∧
  ∀ v cr, r = Ok (v, cr) → ∃ sb wire, hexDecode (sid s) = Some sb ∧ length sb = 32%nat ∧
    Binding.Encode (manifestOf now (Binding.array32 sb) s cm) = Ok wire ∧
    BindingManifest v = wire ∧ BindingManifest cr = wire ∧ Sid v = sid s ∧ Sid cr = sid s ∧
    PeerCertificate v = cCertificate cm ∧ PeerCertificate cr = vCertificate (visitorMsg s).
Proof.
  intros Hi. unfold analysis. destruct (ClassifyNATFeature (cMappedAddrs cm) _) as [cNat|];
    [|intros [= <- <-]; split; [by apply keeps_refl|done]].
  destruct (ClassifyNATFeature (vMappedAddrs _) _) as [vNat|];
    [|intros [= <- <-]; split; [by apply keeps_refl|done]].
  destruct (GetRecommandBehaviors _ _ _ _ _) as [[[[mode index] cB] vB] a].
  set (c2 := updSession _ p (setAnalyzer a c)).
  assert (keeps c c2) as Hk.
  { eapply keeps_trans; [by apply setAnalyzer_keeps|]. apply upd_plain. intros s'. unfold sameServed. simpl. done. }
  destruct (hexDecode (sid s)) as [sb|]; [|intros [= <- <-]; split; [done|done]].
  destruct (Nat.eqb_spec (length sb) 32); simpl; [|intros [= <- <-]; split; [done|done]].
  destruct (Binding.Encode _) as [wire|] eqn:Ee; [|intros [= <- <-]; split; [done|done]].
  intros [= <- <-]. split; [done|]. intros v cr [= <- <-]. exists sb, wire. simpl. done.
Qed.

Lemma HandleVisitor_decide_keeps now p s cm c :
  inv c → sessHeap c !! p = Some s → clientMsg s = Some cm → keeps c (HandleVisitor_decide now p s cm c).
Proof.
  intros Hi Hp Hcm. unfold HandleVisitor_decide. destruct (analysis now p s cm c) as [c1 r] eqn:Ea.
  destruct (analysis_keeps _ _ _ _ _ _ _ Hi Ea) as [Hk1 Hr]. clear Ea.
  set (vc := match r with Ok rs => rs | Err e => _ end).
  assert (∀ x, (x = (visitorTransporter s, vc.1) ∨ x = (clientTransporter s, vc.2)) → backed (sessHeap c) x) as Hbk.
  { destruct r as [[v cr]|e]; [|intros x [-> | ->]; by left].
    destruct (Hr v cr eq_refl) as (sb & wire & Hsb & _ & He & Hv & Hc & Hsv & Hsc & Hpv & Hpc).
    intros x [-> | ->]; right; exists p, s, cm, now, sb; simpl.
    - rewrite Hv, Hsv. split_and!; try done. left. by rewrite Hpv.
    - rewrite Hc, Hsc. split_and!; try done. right. by rewrite Hpc. }
  destruct vc as [v cr]. simpl in Hbk.
  eapply keeps_trans; [exact Hk1|]. intros Hi1.
  assert (keeps c1 (updSession (setResponses v cr) p c1)) as Hk2.
  { apply upd_plain; [|done]. intros s'. unfold sameServed. simpl. done. }
  eapply keeps_trans; [exact Hk2|]. intros Hi2.
  assert (heapLe sessLe (sessHeap c) (sessHeap (updSession (setResponses v cr) p c1))) as Hle.
  { transitivity (sessHeap c1); [apply Hk1|apply Hk2]. }
  eapply keeps_trans; [apply (Send_keeps (visitorTransporter s) v); [done|eapply backed_mono; [exact Hle|auto]]|].
  intros Hi3. apply Send_keeps; [done|]. eapply backed_mono; [exact Hle|auto].
Qed.

(** ** The goroutines *)

Definition go_ok (c : Controller) (v : goroutine) : Prop :=
  ∃ s cfg, sessHeap c !! session v = Some s ∧ cfgHeap c !! config v = Some cfg ∧
  name cfg = vProxyName (visitorMsg s) ∧ ownerControl cfg = providerControl s ∧
  (at_ v = PDecide → is_Some (clientMsg s)) ∧ (at_ v = PReturned → done s = true).

(** Every session has one goroutine. *)
Definition winv (w : World) : Prop :=
  inv (ctl w) ∧ (∀ g v, visitors w !! g = Some v → go_ok (ctl w) v) ∧
  (∀ p, (p < length (sessHeap (ctl w)))%nat → ∃ g v, visitors w !! g = Some v ∧ session v = p).

Lemma go_ok_le c c' v : le c c' → go_ok c v → go_ok c' v.
Proof.
  intros [Hs Hc] (s & cfg & H1 & H2 & Hn & Ho & Hd & Hr). destruct (Hs _ _ H1) as (s' & H1' & (? & Ev & _ & _ & Ep & Hm & Hdn)).
  destruct (Hc _ _ H2) as (cfg' & H2' & (En & _ & _ & Eo & _)). exists s', cfg'.
  split_and!; try done; try congruence; [|auto]. intros Ha. destruct (Hd Ha) as [m Hx]. apply Hm in Hx as [-> _]. by eexists.
Qed.

Lemma withCtl_winv c w :
  winv w → keeps (ctl w) c → length (sessHeap c) = length (sessHeap (ctl w)) → winv (withCtl c w).
Proof.
  intros (Hi & Hg & Hall) [Hi' Hle] Hlen. split; [done|]. split; simpl.
  - intros g v Hv. by eapply go_ok_le, Hg.
  - intros p. rewrite Hlen. apply Hall.
Qed.

Lemma moveTo_winv g ph w v s :
  winv w → visitors w !! g = Some v → sessHeap (ctl w) !! session v = Some s →
  (ph = PDecide → is_Some (clientMsg s)) → (ph = PReturned → done s = true) → winv (moveTo g ph w).
Proof.
  intros (Hi & Hg & Hall) Hv Hs Hd Hr. split; [done|]. split; simpl.
  - intros g' v' Hv'. destruct (decide (g = g')) as [->|Hne].
    + rewrite list_lookup_alter_eq, Hv in Hv'. simplify_eq/=. destruct (Hg _ _ Hv) as (s0 & cfg & H1 & H2 & ? & ? & _ & _).
      exists s0, cfg. simpl. assert (s0 = s) as -> by congruence. split_and!; done.
    + rewrite list_lookup_alter_ne in Hv' by done. eauto.
  - intros p Hp. destruct (Hall p Hp) as (g' & v' & Hv' & Hsv). exists g'. destruct (decide (g = g')) as [->|Hne].
    + rewrite list_lookup_alter_eq, Hv'. simpl. eexists. split; [done|]. done.
    + rewrite list_lookup_alter_ne by done. eauto.
Qed.

Lemma length_updSession f p c : length (sessHeap (updSession f p c)) = length (sessHeap c).
Proof. apply length_alter. Qed.
Lemma length_dropSession i p c : length (sessHeap (dropSession i p c)) = length (sessHeap c).
Proof. unfold dropSession. case_match; [|done]. apply length_insert. Qed.
Lemma length_sweepSessions P c : length (sessHeap (sweepSessions P c)) = length (sessHeap c).
Proof.
  unfold sweepSessions. generalize (map_to_list (sessions c)). intros l. revert c.
  induction l as [|x l IH]; intros c; [done|]. simpl. rewrite IH. unfold sweepStep.
  repeat case_match; try done. apply length_dropSession.
Qed.
Lemma sweepCfgs_heap P c : sessHeap (sweepCfgs P c) = sessHeap c.
Proof.
  unfold sweepCfgs. generalize (map_to_list (clientCfgs c)). intros l. revert c.
  induction l as [|x l IH]; intros c; [done|]. simpl. rewrite IH. unfold sweepCfgStep, dropCfg.
  by repeat case_match.
Qed.
Lemma dropCfg_heap n p c : sessHeap (dropCfg n p c) = sessHeap c.
Proof. unfold dropCfg. by case_match. Qed.
Lemma length_decide now p s cm c : length (sessHeap (HandleVisitor_decide now p s cm c)) = length (sessHeap c).
Proof.
  unfold HandleVisitor_decide, analysis. repeat (case_match; simplify_eq/=); rewrite ?length_alter; try done.
Qed.

Lemma visitor_winv now en m tr user caller w :
  winv w → sessions (ctl w) !! GenSid en = None → winv (exec (EVisitor now en m tr user caller) w).
Proof.
  intros Hw Hfr. pose proof Hw as (Hi & Hg & Hall). simpl.
  pose proof (HandleVisitor_begin_keeps now en m tr user caller _ Hfr Hi) as Hk.
  destruct (HandleVisitor_begin _ _ _ _ _ _ _) as [c' r] eqn:E. simpl in Hk. unfold HandleVisitor_begin in E.
  destruct (Binding.ID caller) as [cl|]; [|simplify_eq; by apply withCtl_winv].
  destruct (vPreCheck m); [simplify_eq; by apply withCtl_winv|].
  destruct (decide (GenSid en = EmptyString)); [simplify_eq; by apply withCtl_winv|].
  destruct (openSession _ _ _ _ _ _ _) as [[[p pc] c2]|] eqn:Eo; [|simplify_eq; by apply withCtl_winv].
  simplify_eq. apply openSession_Ok in Eo as (cfg & _ & Hpc & Hcfg & _ & _ & _ & _ & _ & _ & -> & ->).
  destruct Hk as [Hi' Hle]. split; [done|]. split; simpl.
  - intros g v Hv. apply lookup_app_Some in Hv as [Hv|[_ Hv]]; [by eapply go_ok_le, Hg|].
    apply list_lookup_singleton_Some in Hv as [_ <-]. do 2 eexists.
    split; [simpl; by apply list_lookup_middle|]. split; [done|]. simpl. split_and!; try done.
    destruct (base_cfgs _ (inv_base _ Hi) _ _ Hpc) as (g' & ? & ? & _). congruence.
  - intros q Hq. rewrite length_app in Hq. simpl in Hq.
    destruct (decide (q = length (sessHeap (ctl w)))) as [->|Hne].
    + exists (length (visitors w)). eexists. split; [by apply list_lookup_middle|done].
    + destruct (Hall q ltac:(lia)) as (g & v & Hv & Hs). exists g, v. split; [by apply lookup_app_l_Some|done].
Qed.

Lemma cleanup_done p c s :
  inv c → sessHeap c !! p = Some s → ∃ s', sessHeap (HandleVisitor_cleanup p c) !! p = Some s' ∧ done s' = true.
Proof.
  intros Hi Hp. unfold HandleVisitor_cleanup. rewrite Hp. case_decide as Hd.
  - unfold dropSession. rewrite Hp. simpl. exists (setDone s). split; [|done].
    apply list_lookup_insert_eq. by eapply lookup_lt_Some.
  - destruct (base_session _ (inv_base _ Hi) _ _ Hp) as [?|?]; [eauto|done].
Qed.

Lemma exec_winv e w : winv w → possible e w → winv (exec e w).
Proof.
  intros Hw Hpos. destruct e; [| | | |by apply visitor_winv| | | |..]; clear Hpos; pose proof Hw as (Hi & Hg & _); simpl.
  - destruct (RegisterControl _ _) as [c'|] eqn:E; [|done]. apply withCtl_winv; [done|by eapply RegisterControl_keeps|].
    unfold RegisterControl in E. go_inv E; done.
  - destruct (ListenClient _ _ _ _ _) as [[p c']|] eqn:E; [|done]. apply withCtl_winv; [done|by eapply ListenClient_keeps|].
    unfold ListenClient in E. go_inv E; done.
  - apply withCtl_winv; [done|by apply CloseClient_keeps|]. unfold CloseClient. repeat case_match; try done.
    by rewrite length_sweepSessions, dropCfg_heap.
  - apply withCtl_winv; [done|by apply CloseControl_keeps|]. unfold CloseControl. case_match; [|done].
    by rewrite length_sweepSessions, sweepCfgs_heap.
  - apply withCtl_winv; [done|by apply HandleClient_keeps|].
    destruct (HandleClient_cases now m tr caller (ctl w)) as [->|(p & s & pc & cfg & -> & _)]; [done|apply length_updSession].
  - apply withCtl_winv; [done|by apply HandleReport_keeps|]. unfold HandleReport. by repeat case_match.
  - apply withCtl_winv; [done|by apply setAnalyzer_keeps|done].
  - destruct (visitors w !! g) as [v|] eqn:Ev; [|done]. case_decide; [|done].
    destruct (Hg _ _ Ev) as (s & cfg & Hs & _). by eapply moveTo_winv.
  - destruct (visitors w !! g) as [v|] eqn:Ev; [|done]. case_decide; [|done]. case_match; [|done].
    destruct (Hg _ _ Ev) as (s & cfg & Hs & _). by eapply moveTo_winv.
  - destruct (visitors w !! g) as [v|] eqn:Ev; [|done]. destruct (sessHeap _ !! session v) as [s|] eqn:Es; [|done].
    case_decide as Hd; [|done]. eapply (moveTo_winv _ _ _ _ (takeNotify s)); [|done| |intros _|done].
    + apply withCtl_winv; [done| |apply length_updSession]. apply updSession_keeps; [|done].
      intros s'. unfold sameServed. simpl. done.
    + simpl. by rewrite list_lookup_alter_eq, Es.
    + destruct Hd as [_ Hn]. apply (base_notify _ (inv_base _ Hi) _ _ Es Hn).
  - destruct (visitors w !! g) as [v|] eqn:Ev; [|done]. case_decide; [|done].
    destruct (Hg _ _ Ev) as (s & cfg & Hs & _). by eapply moveTo_winv.
  - destruct (visitors w !! g) as [v|] eqn:Ev; [|done]. case_decide as Ha; [|done].
    destruct (Hg _ _ Ev) as (s & cfg & Hs & _ & _ & _ & Hcm & _). case_match; [by eapply moveTo_winv|].
    rewrite Hs. destruct (Hcm Ha) as [cm Hc]. rewrite Hc.
    pose proof (HandleVisitor_decide_keeps now (session v) s cm _ Hi Hs Hc) as Hk.
    destruct (proj1 (proj2 Hk) _ _ Hs) as (s' & Hs' & _).
    eapply (moveTo_winv _ _ _ v); [|done|exact Hs'|done|done]. apply withCtl_winv; [done|done|apply length_decide].
  - destruct (visitors w !! g) as [v|] eqn:Ev; [|done]. case_decide; [|done].
    destruct (Hg _ _ Ev) as (s & cfg & Hs & _). by eapply moveTo_winv.
  - destruct (visitors w !! g) as [v|] eqn:Ev; [|done]. case_decide as Ha; [|done].
    destruct (Hg _ _ Ev) as (s & cfg & Hs & _). destruct (cleanup_done _ _ _ Hi Hs) as (s' & Hs' & Hd).
    eapply (moveTo_winv _ _ _ v); [|done|exact Hs'|done|done].
    apply withCtl_winv; [done|by apply HandleVisitor_cleanup_keeps|]. unfold HandleVisitor_cleanup.
    repeat case_match; try done. apply length_dropSession.
Qed.

Lemma reachable_winv d w : reachable d w → winv w.
Proof.
  induction 1 as [|w e _ IH Hp]; [|by apply exec_winv]. split; [|split]; simpl.
  - split; [split|..]; simpl; try done; try (intros ?? H'; by apply lookup_empty_Some in H'); try (intros ? H'; by apply elem_of_nil in H').
  - intros g v Hv. by rewrite lookup_nil in Hv.
  - intros p Hp. lia.
Qed.

(** C6: The rendezvous is safe in every order of events. In every reachable state no
    channel has been closed twice and no missing client message was read; the listening
    proxies belong to active controls; every session in the table is open, its visitor's
    control is active, and the proxy it was opened for is still listening under the same
    owner, with the proofs and certificates of the visitor (and of the provider, once it
    answered) valid for that proxy's secret. *)
Theorem rendezvous_invariant d w :
  reachable d w →
  let c := ctl w in
  panicked c = false ∧
  (∀ n p, clientCfgs c !! n = Some p → ∃ cfg, cfgHeap c !! p = Some cfg ∧ name cfg = n ∧ closed cfg = false ∧
     ownerControl cfg ∈ controls c) ∧
  (∀ i p, sessions c !! i = Some p → ∃ s pc, sessHeap c !! p = Some s ∧ sid s = i ∧ done s = false ∧
     visitorControl s ∈ controls c ∧ providerControl s ∈ controls c ∧
     clientCfgs c !! vProxyName (visitorMsg s) = Some pc ∧ served (cfgHeap c) pc s).
Proof.
  intros ([Hb Ho Hl] & _)%reachable_winv. split; [by apply base_panic|]. split.
  - intros n p Hn. destruct (base_cfgs _ Hb _ _ Hn) as (cfg & Hc & ? & ?). exists cfg. split_and!; eauto.
  - intros i p Hi. destruct (base_sessions _ Hb _ _ Hi) as (s & Hs & ? & ?).
    destruct (Hl _ _ _ Hi Hs) as (? & pc & Hpc & Hsd). exists s, pc. split_and!; try done.
    destruct (id Hsd) as (cfg & Hc & _ & <- & _). eauto.
Qed.

(** C7: A manifest is only ever sent for an authenticated pair. Whatever response
    with a manifest was sent, there is a session with the provider's message in which both
    parties showed valid proofs and certificates for one secret of one proxy, the manifest
    is the encoding of that session's identities, nonces and keys, and it went to the
    visitor with the provider's certificate or to the provider with the visitor's. *)
Theorem manifest_authenticated d w tr r :
  reachable d w → (tr, r) ∈ sent (ctl w) → BindingManifest r ≠ [] →
  ∃ p s cm cfg now sb, sessHeap (ctl w) !! p = Some s ∧ clientMsg s = Some cm ∧ cfg ∈ cfgHeap (ctl w) ∧
    name cfg = vProxyName (visitorMsg s) ∧ ownerControl cfg = providerControl s ∧
    visitorShown cfg s ∧ providerShown cfg s cm ∧ hexDecode (sid s) = Some sb ∧
    Binding.Encode (manifestOf now (Binding.array32 sb) s cm) = Ok (BindingManifest r) ∧
    ((tr = visitorTransporter s ∧ PeerCertificate r = cCertificate cm) ∨
     (tr = clientTransporter s ∧ PeerCertificate r = vCertificate (visitorMsg s))).
Proof.
  intros ([Hb _ _] & _)%reachable_winv Hin Hne.
  destruct (base_sent _ Hb _ Hin) as [?|(p & s & cm & now & sb & Hs & Hc & Hh & He & _ & Hto)]; [done|].
  destruct (base_served _ Hb _ _ Hs) as (pc & cfg & Hcfg & Hn & Ho & Hv & Hp).
  exists p, s, cm, cfg, now, sb. split_and!; try done; [by eapply list_elem_of_lookup_2|auto].
Qed.

(** Closing a control removes exactly what it took part in: afterwards it is not
    active, no proxy it owns listens and no session has it as provider or visitor, while the
    other controls, proxies and sessions are untouched; and the goroutine of every removed
    session finds a closed channel, so it stops waiting. *)
Theorem CloseControl_exact d w id :
  reachable d w → is_Ok (Binding.ID id) →
  let c := ctl w in let c' := CloseControl id c in
  controls c' = controls c ∖ {[id]} ∧
  (∀ n p cfg, clientCfgs c' !! n = Some p ∧ cfgHeap c' !! p = Some cfg ↔
     clientCfgs c !! n = Some p ∧ cfgHeap c !! p = Some cfg ∧ ownerControl cfg ≠ id) ∧
  (∀ i p s, sessions c' !! i = Some p ∧ sessHeap c' !! p = Some s ↔
     sessions c !! i = Some p ∧ sessHeap c !! p = Some s ∧ providerControl s ≠ id ∧ visitorControl s ≠ id) ∧
  (∀ g v, visitors w !! g = Some v → (∀ i, sessions c' !! i ≠ Some (session v)) → released c' v = true).
Proof.
  intros (Hi & Hg & _)%reachable_winv [k Hk]. simpl. pose proof (CloseControl_keeps id _ Hi) as [Hi' Hle'].
  assert (∀ g v, visitors w !! g = Some v → (∀ i, sessions (CloseControl id (ctl w)) !! i ≠ Some (session v)) →
    released (CloseControl id (ctl w)) v = true) as Hrel.
  { intros g v Hv Hnot. destruct (go_ok_le _ _ _ Hle' (Hg _ _ Hv)) as (s & cfg & Hs & Hc & _).
    unfold released. rewrite Hs, Hc. destruct (base_session _ (inv_base _ Hi') _ _ Hs) as [-> |Hin]; [done|].
    by apply Hnot in Hin. }
  revert Hrel. unfold CloseControl. rewrite Hk. apply Binding.ID_length in Hk as (_ & _ & ->).
  set (c1 := mkController _ _ _ _ _ _ _ _).
  assert (base c1) as Hb1 by (destruct Hi as [[] ? ?]; by split).
  destruct (sweepCfgs_spec (λ cfg, bool_decide (id = ownerControl cfg)) c1 Hb1) as (Hb2 & ((_ & Ec2 & _) & Es2 & Eh2) & Hsp2).
  set (c2 := sweepCfgs _ c1) in *.
  destruct (sweepSessions_spec (λ s, bool_decide (id = providerControl s) || bool_decide (id = visitorControl s)) c2 Hb2)
    as (Hb3 & ((_ & Ec3 & _) & Et3 & Eh3) & Hsp3).
  intros Hrel. split; [by rewrite Ec3, Ec2|]. split; [|split; [|exact Hrel]].
  - intros n p cfg. rewrite Et3, Eh3, Hsp2, bool_decide_eq_false. simpl. intuition congruence.
  - intros i p s. rewrite Hsp3, Es2, Eh2, orb_false_iff, !bool_decide_eq_false. simpl. intuition congruence.
Qed.

(** ** Return of the goroutines *)

(** The events of goroutine [g] that need no other party. *)
Definition own (g : nat) (e : event) : Prop :=
  match e with EWake h | ETimeout h | EDecide _ h | ECleanup h => h = g | _ => False end.

Lemma moveTo_at g ph w v : visitors w !! g = Some v → visitors (moveTo g ph w) !! g = Some (mkGo (session v) (config v) ph).
Proof. intros Hv. simpl. by rewrite list_lookup_alter_eq, Hv. Qed.

(** How far a goroutine still has to go. *)
Definition rank (ph : phase) : nat :=
  match ph with POffer => 6 | PNotify => 5 | PDecide => 4 | PSend => 3 | PLinger => 2 | PCleanup => 1 | PReturned => 0 end.

Definition phaseOf (g : nat) (w : World) : option phase := at_ <$> visitors w !! g.

(** Not moved, or moved on. *)
Definition onward (g : nat) (w w' : World) : Prop :=
  ∀ v, visitors w !! g = Some v → ∃ v', visitors w' !! g = Some v' ∧ (at_ v' = at_ v ∨ (rank (at_ v') < rank (at_ v))%nat).

Lemma onward_same g w c : onward g w (withCtl c w).
Proof. intros v Hv. exists v. auto. Qed.

Lemma onward_move g h w c v0 ph : visitors w !! h = Some v0 → (rank ph < rank (at_ v0))%nat → onward g w (moveTo h ph (withCtl c w)).
Proof.
  intros H0 Hr v Hv. destruct (decide (h = g)) as [->|Hne].
  - simplify_eq. eexists. split; [by apply moveTo_at|]. by right.
  - exists v. simpl. rewrite list_lookup_alter_ne by done. auto.
Qed.

(** An event leaves a goroutine where it is or moves it on. *)
Lemma exec_onward e w g : onward g w (exec e w).
Proof.
  assert (Hid : withCtl (ctl w) w = w) by by destruct w.
  assert (Hsame : onward g w w) by (rewrite <-Hid at 2; apply onward_same).
  destruct e as [| | | |now en m tr u cl| | | |h|h|h|h|now h|h|h]; simpl; try apply onward_same.
  1,2: case_match; simplify_eq; [|exact Hsame]; repeat case_match; apply onward_same.
  - destruct (HandleVisitor_begin _ _ _ _ _ _ _) as [c [[p pc]|]]; [|apply onward_same].
    intros v Hv. exists v. simpl. rewrite lookup_app_l by (by eapply lookup_lt_Some). auto.
  - destruct (visitors w !! h) as [v|] eqn:Hv; [|exact Hsame]. case_decide as Ha; [|exact Hsame].
    rewrite <-Hid at 2. eapply onward_move; [done|]. rewrite Ha. simpl. lia.
  - destruct (visitors w !! h) as [v|] eqn:Hv; [|exact Hsame]. case_decide as Ha; [|exact Hsame]. destruct (released _ _); [|exact Hsame].
    rewrite <-Hid at 2. eapply onward_move; [done|]. destruct Ha as [-> |[-> | ->]]; simpl; lia.
  - destruct (visitors w !! h) as [v|] eqn:Hv; [|exact Hsame]. destruct (sessHeap _ !! _); [|exact Hsame]. case_decide as Ha; [|exact Hsame].
    eapply onward_move; [done|]. destruct Ha as [-> _]. simpl. lia.
  - destruct (visitors w !! h) as [v|] eqn:Hv; [|exact Hsame]. case_decide as Ha; [|exact Hsame].
    rewrite <-Hid at 2. eapply onward_move; [done|]. destruct Ha as [-> | ->]; simpl; lia.
  - destruct (visitors w !! h) as [v|] eqn:Hv; [|exact Hsame]. case_decide as Ha; [|exact Hsame].
    destruct (released _ _); [rewrite <-Hid at 2; eapply onward_move; [done|]; rewrite Ha; simpl; lia|].
    destruct (sessHeap _ !! _); [|exact Hsame]. destruct (clientMsg _); [|apply onward_same].
    eapply onward_move; [done|]. rewrite Ha. simpl. lia.
  - destruct (visitors w !! h) as [v|] eqn:Hv; [|exact Hsame]. case_decide as Ha; [|exact Hsame].
    rewrite <-Hid at 2. eapply onward_move; [done|]. rewrite Ha. simpl. lia.
  - destruct (visitors w !! h) as [v|] eqn:Hv; [|exact Hsame]. case_decide as Ha; [|exact Hsame].
    eapply onward_move; [done|]. rewrite Ha. simpl. lia.
Qed.

(** Runs of all the parties, with the number of moves of the handler [g]. *)
Inductive runs (g : nat) : nat → World → World → Prop :=
| runs_refl w : runs g 0 w w
| runs_stay n w e w' : possible e w → phaseOf g (exec e w) = phaseOf g w → runs g n (exec e w) w' → runs g n w w'
| runs_move n w e w' : possible e w → phaseOf g (exec e w) ≠ phaseOf g w → runs g n (exec e w) w' → runs g (S n) w w'.

Lemma runs_rank g n w w' : runs g n w w' → ∀ v, visitors w !! g = Some v →
  ∃ v', visitors w' !! g = Some v' ∧ (n + rank (at_ v') ≤ rank (at_ v))%nat.
Proof.
  induction 1 as [w|n w e w' _ Hp _ IH|n w e w' _ Hp _ IH]; intros v Hv; [by exists v|..];
    destruct (exec_onward e w g v Hv) as (v1 & Hv1 & Hr); destruct (IH v1 Hv1) as (v' & Hv' & Hle); exists v'; (split; [done|]).
  - destruct Hr as [E|?]; [by rewrite <-E|lia].
  - destruct Hr as [E|?]; [|lia]. destruct Hp. unfold phaseOf. rewrite Hv, Hv1. simpl. by rewrite E.
Qed.

Lemma runs_reachable d g n w w' : reachable d w → runs g n w w' → reachable d w'.
Proof. intros Hr Hrun. induction Hrun; eauto using reach_step. Qed.

(** A handler that is past its offer, or released, and does not send has a move of its own. *)
Lemma own_move g w v : winv w → visitors w !! g = Some v → at_ v ≠ PReturned → at_ v ≠ PSend → at_ v ≠ POffer ∨ released (ctl w) v = true →
  ∃ e, own g e ∧ phaseOf g (exec e w) ≠ phaseOf g w.
Proof.
  intros (_ & Hg & _) Hv Hr Hsd Hcase. unfold phaseOf. rewrite Hv. simpl.
  destruct (at_ v) eqn:Ha; try done.
  - destruct Hcase as [?|Hrel]; [done|]. exists (EWake g). split; [done|]. simpl. rewrite Hv, decide_True, Hrel, (moveTo_at _ _ _ v) by auto. done.
  - exists (ETimeout g). split; [done|]. simpl. rewrite Hv, decide_True, (moveTo_at _ _ _ v) by auto. done.
  - exists (EDecide 0 g). split; [done|]. destruct (Hg _ _ Hv) as (s & cfg & Hs & _ & _ & _ & Hc & _). destruct (Hc Ha) as [cm Hcm].
    simpl. rewrite Hv, decide_True by done. destruct (released _ _); [by rewrite (moveTo_at _ _ _ v)|]. rewrite Hs, Hcm. by rewrite (moveTo_at _ _ _ v).
  - exists (ETimeout g). split; [done|]. simpl. rewrite Hv, decide_True, (moveTo_at _ _ _ v) by auto. done.
  - exists (ECleanup g). split; [done|]. simpl. rewrite Hv, decide_True, (moveTo_at _ _ _ v) by auto. done.
Qed.

(** C32: A visitor's handler returns once its offer is over and its answers are handed over.
    However visitors, providers, controls, reports, transporters and timers interleave, the
    handler moves at most six times.  Whenever it has not returned, it has a move of its own
    that needs no other party (a timer, a closed channel, its decision, its cleanup), except
    in two waits that have no timeout: while it offers its session id to a proxy and neither
    the session nor the proxy was closed, and while the [Send] calls of its two answers
    have not returned, whose return moves it on.  When it has returned, its session is not
    in the table. *)
Theorem visitor_returns d w g v n w' :
  reachable d w → visitors w !! g = Some v → runs g n w w' →
  (n ≤ 6)%nat ∧ ∃ v', visitors w' !! g = Some v' ∧
    match at_ v' with
    | PReturned => ∀ i, sessions (ctl w') !! i ≠ Some (session v')
    | POffer => n = 0%nat ∧ (released (ctl w') v' = true → ∃ e, own g e ∧ phaseOf g (exec e w') ≠ phaseOf g w')
    | PSend => (n < 6)%nat ∧ phaseOf g (exec (ESent g) w') = Some PLinger
    | _ => (n < 6)%nat ∧ ∃ e, own g e ∧ phaseOf g (exec e w') ≠ phaseOf g w'
    end.
Proof.
  intros Hr Hv Hrun. destruct (runs_rank _ _ _ _ Hrun v Hv) as (v' & Hv' & Hle).
  pose proof (reachable_winv d w' (runs_reachable _ _ _ _ _ Hr Hrun)) as Hw.
  assert (rank (at_ v) ≤ 6)%nat as H6 by (destruct (at_ v); simpl; lia). split; [lia|]. exists v'. split; [done|].
  pose proof (own_move g w' v' Hw Hv') as Hm.
  destruct (at_ v') eqn:Ha; simpl in Hle; try (split; [lia|]; auto).
  { unfold phaseOf. simpl. rewrite Hv', decide_True, (moveTo_at _ _ _ v') by done. done. }
  intros i Hi. destruct Hw as ([Hb _ _] & Hg & _). destruct (Hg _ _ Hv') as (s & cfg & Hs & _ & _ & _ & _ & Hd).
  destruct (base_sessions _ Hb _ _ Hi) as (s' & Hs' & _ & Hd'). specialize (Hd Ha). congruence.
Qed.

(** ** Replay window and reports *)

Lemma proofOk_positive k r p c n s x t : proofOk k r p c n s x t = true → 0 < t.
Proof.
  unfold proofOk. destruct (Binding.SignalProof _ _ _ _ _ _ _ _) eqn:E; [|done]. intros _.
  by apply Binding.SignalProof_Ok in E as (_ & _ & _ & ? & _).
Qed.

(** The replay window is five seconds, also at the ends of [int64]. A visitor or
    provider message that is accepted at a time carries a timestamp at most five seconds
    away, although the differences the code tests wrap around for extreme timestamps. *)
Theorem accepted_timestamps now :
  is_int64 now → 0 ≤ now →
  (∀ i m tr user caller c r, is_int64 (vTimestamp m) →
     openSession now i m tr user caller c = Ok r → - 5 ≤ now - vTimestamp m ≤ 5) ∧
  (∀ m tr caller c, is_int64 (cTimestamp m) →
     HandleClient now m tr caller c ≠ c → - 5 ≤ now - cTimestamp m ≤ 5).
Proof.
  intros Hn H0. split.
  - intros i m tr user caller c [[p pc] c'] Ht (cfg & _ & _ & _ & _ & _ & Hf & _ & Hp & _)%openSession_Ok.
    apply proofOk_positive in Hp. apply freshTimestamp_near; unfold is_int64 in *; try done; lia.
  - intros m tr caller c Ht Hne.
    destruct (HandleClient_cases now m tr caller c) as [?|(p & s & pc & cfg & _ & _ & _ & _ & _ & _ & _ & _ & _ & _ & _ & _ & Hf & Hp & _)]; [done|].
    apply proofOk_positive in Hp. apply freshTimestamp_near; unfold is_int64 in *; try done; lia.
Qed.

(** A report only counts for a participant. [HandleReport] changes nothing but
    the analyzer's record of the reported session, and nothing at all unless the session is
    in the table and the caller is its provider's or its visitor's control. *)
Theorem HandleReport_participants now m caller c :
  HandleReport now m caller c ≠ c →
  rSuccess m = true ∧ ∃ p s, sessions c !! rSid m = Some p ∧ sessHeap c !! p = Some s ∧
    (caller = providerControl s ∨ caller = visitorControl s) ∧
    HandleReport now m caller c =
      setAnalyzer (ReportSuccess now (analysisKey s) (recommandMode s) (recommandIndex s) (analyzer c)) c ∧
    ∀ k, k ≠ analysisKey s → records (analyzer (HandleReport now m caller c)) !! k = records (analyzer c) !! k.
Proof.
  generalize (eq_refl (HandleReport now m caller c)). generalize (HandleReport now m caller c) at 2 3 4 5.
  intros r Hr Hne. unfold HandleReport in Hr. destruct (sessions c !! rSid m) as [p|] eqn:E1; simpl in Hr; [|done].
  destruct (sessHeap c !! p) as [s|] eqn:E2; [|done]. destruct (Binding.ID caller) as [cl|]; [|done].
  destruct (bool_decide (cl ∈ controls c)); [|done]. simpl in Hr. destruct (_ && _) eqn:E3; [done|].
  destruct (rSuccess m); [|done]. split; [done|]. exists p, s. split; [done|]. split; [done|]. split.
  - apply andb_false_iff in E3 as [E|E]; bool_to_prop; auto.
  - split; [done|]. intros k Hk. subst r. simpl. unfold ReportSuccess. case_match; [|done]. simpl.
    by rewrite lookup_insert_ne.
Qed.
End handlers.

(** ** Guessed ports *)

(** The guessed ports are bounded. Any range given to a peer lies within
    1..65535 at both ends; for a last address with a real port, a non-negative spread
    and a positive number it contains that port and is at most twice the number wide, also
    within the spread plus five. *)
Theorem getRangePorts_bounds addrs d n r :
  r ∈ getRangePorts addrs d n →
  1 ≤ From r ∧ To r ≤ 65535 ∧
  ∀ addr host port, last addrs = Some addr → SplitHostPort addr = Ok (host, Itoa port) →
    1 ≤ port ≤ 65535 → 0 ≤ d < 2 ^ 62 → n < 2 ^ 62 →
    From r ≤ port ≤ To r ∧ To r - From r ≤ 2 * n ∧ To r - From r ≤ 2 * (d + 5).
Proof.
  unfold getRangePorts. destruct (Z.leb_spec n 0); [by intros ?%elem_of_nil|].
  destruct (last addrs) as [addr|]; [|by intros ?%elem_of_nil].
  destruct (SplitHostPort addr) as [[host ps]|] eqn:Es; [|by intros ?%elem_of_nil].
  destruct (Atoi ps) as [port|] eqn:Ea; [|by intros ?%elem_of_nil].
  intros ->%list_elem_of_singleton. cbn [From To]. split; [lia|]. split; [lia|].
  intros a h q [= <-] Hs Hq Hd Hn. rewrite Es in Hs. injection Hs as -> ->.
  rewrite Atoi_Itoa in Ea by lia. injection Ea as <-.
  rewrite (int64_id (q - d)), (int64_id (q + d)), !int64_id by (unfold is_int64; lia). lia.
Qed.

Lemma compact_cons2 x y t : compact (x :: y :: t) = if decide (x = y) then compact (y :: t) else x :: compact (y :: t).
Proof. reflexivity. Qed.

Lemma length_compact_repeat l a : (length (compact (l ++ [a; a])) < length (l ++ [a; a]))%nat.
Proof.
  assert (∀ x l, l ≠ [] → (length (compact (x :: l)) ≤ S (length (compact l)))%nat) as Hstep.
  { intros x [|y t] ?; [done|]. rewrite compact_cons2. case_decide; simpl length; lia. }
  induction l as [|x l IH]; [simpl; rewrite decide_True by done; simpl; lia|].
  cbn [app length]. assert (l ++ [a; a] ≠ []) as Hne by (by destruct l). specialize (Hstep x _ Hne). lia.
Qed.

(** A repeated last address costs the guessed ports. [slices.Compact] clears the
    tail of the array it compacts, and the range is taken from the last element of the same
    array: when the last two candidate addresses are equal, the response has no candidate
    ports at all, whatever the behaviour asks for. *)
Theorem repeated_address_loses_range tid i proto mode addrs a assisted b t d :
  CandidatePorts (DetectBehavior (newNatHoleResponse tid i proto mode (addrs ++ [a; a]) assisted b t d)) = [].
Proof.
  unfold newNatHoleResponse. cbn [DetectBehavior CandidatePorts]. unfold getRangePorts.
  destruct (_ <=? 0); [done|]. unfold compacted. pose proof (length_compact_repeat addrs a) as Hl.
  destruct (length (addrs ++ [a; a]) - length (compact (addrs ++ [a; a])))%nat as [|k] eqn:Ek; [lia|].
  rewrite replicate_S_end, app_assoc, last_snoc. done.
Qed.

(** ** A rendezvous, for the witnesses *)

#[local] Instance demoLib : Lib := {|
  Sum256 := Binding.demoSum; hmacSum := Binding.demoHmac; md5hex := λ _, "key"%string;
  ParseCertificate := λ der,
    let role := if decide (der = [x02]) then Binding.Visitor else Binding.Provider in
    Some (Binding.mkCertificate true der [Binding.PeerName role] 0 0 0 1 [] [Binding.roleUsage role] 0);
  UnmarshalNames := λ _, None; VerifyHostname := λ _ _, true; CheckSignature := λ _, true;
  VerifyChain := λ _ _ _, true; certError := λ _, EmptyString; natError := λ _, EmptyString |}.

Definition demoId (b : byte) : bytes := replicate 32 b.
Definition demoAddrs : list chars := [ofStr "1.2.3.4:5000"; ofStr "1.2.3.4:5000"].
Definition demoProof (role : byte) (ctl : bytes) : bytes :=
  match Binding.SignalProof hmacSum (ofString "sk") role (ofString "cam") ctl (demoId x05) (Binding.demoSum [role]) 1000 with
  | Ok p => p | Err _ => [] end.
Definition demoVisitor : NatHoleVisitor :=
  mkVisitorMsg (demoId x02) (demoId x05) (Binding.demoSum [x02]) [x02] (demoProof Binding.Visitor (demoId x02))
    "t1" "cam" false "quic" 1000 demoAddrs [].
Definition demoClient : NatHoleClient :=
  mkClientMsg (demoId x01) (demoId x05) (Binding.demoSum [x01]) [x01] (demoProof Binding.Provider (demoId x01))
    1000 "t2" "cam" (GenSid (Some (demoId x09))) demoAddrs [].
Definition demoEvents : list event :=
  [ERegisterControl (demoId x01); ERegisterControl (demoId x02); EListen "cam" "sk" ["*"%string] (demoId x01);
   EVisitor 1002 (Some (demoId x09)) demoVisitor 2 "bob" (demoId x02); EReceiveSid 0;
   EClient 1003 demoClient 1 (demoId x01); ENotified 0; EDecide 1004 0; ESent 0].

Definition possibleb (e : event) (w : World) : bool :=
  match e with EVisitor _ en _ _ _ _ => bool_decide (sessions (ctl w) !! GenSid en = None) | _ => true end.
Fixpoint run (es : list event) (w : World) : option World :=
  match es with
  | [] => Some w
  | e :: es' => if possibleb e w then run es' (exec e w) else None
  end.

Lemma run_reachable d es w w' : reachable d w → run es w = Some w' → reachable d w'.
Proof.
  revert w. induction es as [|e es IH]; intros w Hw; simpl; [by intros [= <-]|].
  destruct (possibleb e w) eqn:E; [|done]. apply IH. constructor; [done|]. destruct e; simpl in *; by bool_to_prop.
Qed.

Lemma some_default {A} (o : option A) d : match o with Some _ => true | None => false end = true → o = Some (default d o).
Proof. by destruct o. Qed.
Lemma ok_is {E A} (r : res E A) : match r with Ok _ => true | Err _ => false end = true → is_Ok r.
Proof. destruct r; [by eexists|done]. Qed.

Definition demoWorld : World := default (start 0) (run demoEvents (start 0)).
Lemma demoWorld_reachable : reachable 0 demoWorld.
Proof.
  apply (run_reachable 0 demoEvents (start 0)); [constructor|]. apply some_default. vm_compute. reflexivity.
Qed.

Lemma rendezvous_invariant_witness :
  panicked (ctl demoWorld) = false ∧ size (sessions (ctl demoWorld)) = 1%nat.
Proof. split; [apply (rendezvous_invariant 0 demoWorld demoWorld_reachable)|vm_compute; reflexivity]. Defined.

Definition demoResp : NatHoleResp := match sent (ctl demoWorld) with (_, r) :: _ => r | [] => GenNatHoleResponse "" None "" end.

Lemma manifest_authenticated_witness :
  BindingManifest demoResp ≠ [] ∧ ∃ s, s ∈ sessHeap (ctl demoWorld) ∧ visitorTransporter s = 2%nat.
Proof.
  assert (BindingManifest demoResp ≠ []) as Hne by (vm_compute; discriminate). split; [exact Hne|].
  destruct (manifest_authenticated 0 demoWorld 2%nat demoResp demoWorld_reachable) as (p & s & _ & _ & _ & _ & Hs & _);
    [vm_compute; left|exact Hne|].
  exists s. split; [by eapply list_elem_of_lookup_2|].
  destruct p as [|p]; [|vm_compute in Hs; discriminate]. vm_compute in Hs. injection Hs as <-. reflexivity.
Defined.

Lemma CloseControl_exact_witness :
  ¬ (demoId x01 ∈ controls (CloseControl (demoId x01) (ctl demoWorld))) ∧
  released (CloseControl (demoId x01) (ctl demoWorld)) (mkGo 0 0 PLinger) = true.
Proof.
  destruct (CloseControl_exact 0 demoWorld (demoId x01) demoWorld_reachable) as (Hc & _ & _ & Hr);
    [eexists; vm_compute; reflexivity|].
  split; [rewrite Hc; intros [_ Hn]%elem_of_difference; apply Hn; apply elem_of_singleton; reflexivity|]. apply (Hr 0%nat); [vm_compute; reflexivity|].
  intros i. assert (sessions (CloseControl (demoId x01) (ctl demoWorld)) = ∅) as -> by (vm_compute; reflexivity).
  rewrite lookup_empty. discriminate.
Defined.

Lemma visitor_returns_witness : ∃ e, own 0 e ∧ phaseOf 0 (exec e demoWorld) ≠ phaseOf 0 demoWorld.
Proof.
  destruct (visitor_returns 0 demoWorld 0 (mkGo 0 0 PLinger) 0 demoWorld demoWorld_reachable) as (_ & v' & Hv' & H);
    [vm_compute; reflexivity|constructor|].
  assert (v' = mkGo 0 0 PLinger) as -> by (vm_compute in Hv'; by injection Hv'). exact (proj2 H).
Defined.

Lemma accepted_timestamps_witness : - 5 ≤ 1002 - vTimestamp demoVisitor ≤ 5.
Proof.
  set (c := ctl (default (start 0) (run (take 3 demoEvents) (start 0)))).
  assert (is_Ok (openSession 1002 "s" demoVisitor 2 "bob" (demoId x02) c)) as [r E]
    by (apply ok_is; vm_compute; reflexivity).
  apply (proj1 (accepted_timestamps 1002 ltac:(unfold is_int64; lia) ltac:(lia)) "s"%string demoVisitor 2%nat "bob"%string (demoId x02) c r);
    [unfold is_int64; simpl; lia|exact E].
Defined.

Lemma HandleReport_participants_witness :
  let c := ctl demoWorld in
  ∃ p s, sessions c !! GenSid (Some (demoId x09)) = Some p ∧ sessHeap c !! p = Some s ∧
    (demoId x01 = providerControl s ∨ demoId x01 = visitorControl s).
Proof.
  destruct (HandleReport_participants 1005 (mkReport (GenSid (Some (demoId x09))) true) (demoId x01) (ctl demoWorld))
    as (_ & p & s & H1 & H2 & H3 & _); [|exists p, s; split; [exact H1|split; [exact H2|exact H3]]].
  intros Heq. apply (f_equal (λ c, lastUpdateTime <$> records (analyzer c) !! "key"%string)) in Heq.
  vm_compute in Heq. discriminate.
Defined.

Lemma getRangePorts_bounds_witness : 1 ≤ 4990 ∧ 5010 ≤ 65535.
Proof.
  destruct (getRangePorts_bounds [ofStr "1.2.3.4:5000"] 20 10 (mkPortsRange 4990 5010)) as (H1 & H2 & _);
    [vm_compute; left|split; [exact H1|exact H2]].
Defined.
End Rendezvous.
