(* ===== verification/ClientProxy.v ===== *)
(** * Proxies of the client: [client/proxy/proxy_wrapper.go],
    [client/proxy/proxy_manager.go], [client/health/health.go], [pkg/naming]

    A wrapper drives one proxy through its phases: it asks the server to open the
    proxy, waits for the answer, retries, and takes the proxy back when its health
    check fails or it is removed.  The manager holds the wrappers of the configured
    proxies and follows configuration reloads. *)
From S2P Require Import Prelude.

(** ** Wire names: [pkg/naming/names.go] *)
Module Naming.

Definition AddUserPrefix (user name : string) : string :=
  if decide (user = EmptyString) then name else user +:+ "." +:+ name.

(** [strings.CutPrefix] *)
Fixpoint CutPrefix (s prefix : string) : option string :=
  match prefix, s with
  | EmptyString, _ => Some s
  | String a p, String b s' => if decide (a = b) then CutPrefix s' p else None
  | String _ _, EmptyString => None
  end.

Definition StripUserPrefix (user name : string) : string :=
  if decide (user = EmptyString) then name
  else match CutPrefix name (user +:+ ".") with Some t => t | None => name end.

Definition BuildTargetServerProxyName (localUser serverUser serverName : string) : string :=
  if decide (serverUser = EmptyString) then AddUserPrefix localUser serverName
  else AddUserPrefix serverUser serverName.

Lemma CutPrefix_app p s : CutPrefix (p +:+ s) p = Some s.
Proof. induction p as [|a p IH]; simpl; [by destruct s|]. by rewrite decide_True. Qed.

Lemma app_assoc_string (a b c : string) : (a +:+ b) +:+ c = a +:+ (b +:+ c).
Proof. induction a as [|x a IH]; [done|]. change (String x ((a +:+ b) +:+ c) = String x (a +:+ (b +:+ c))). by rewrite IH. Qed.

Lemma Strip_Add user name : StripUserPrefix user (AddUserPrefix user name) = name.
Proof.
  unfold StripUserPrefix, AddUserPrefix. case_decide; [done|].
  by rewrite <-app_assoc_string, CutPrefix_app.
Qed.

#[global] Instance AddUserPrefix_inj user : Inj (=) (=) (AddUserPrefix user).
Proof. intros a b H. by rewrite <-(Strip_Add user a), H, Strip_Add. Qed.
End Naming.

(** ** Health checks: [client/health/health.go] *)
Module Health.

Record HealthCheckConfig := mkHealth {
  Type_ : string; TimeoutSeconds : Z; MaxFailed : Z; IntervalSeconds : Z; Path : string }.

Record Monitor := mkMonitor {
  checkType : string; interval : Z; timeout : Z; maxFailedTimes : Z; addr : string; url : string;
  failedTimes : Z; statusOK : bool }.

Definition NewMonitor (cfg : HealthCheckConfig) (addr : string) : Monitor :=
  let i := if IntervalSeconds cfg <=? 0 then 10 else IntervalSeconds cfg in
  let t := if TimeoutSeconds cfg <=? 0 then 3 else TimeoutSeconds cfg in
  let m := if MaxFailed cfg <=? 0 then 1 else MaxFailed cfg in
  let url := if bool_decide (Type_ cfg = "http") && negb (bool_decide (Path cfg = EmptyString))
             then let s := "http://" +:+ addr in
                  let s := match Path cfg with String "/"%char _ => s | _ => s +:+ "/" end in
                  s +:+ Path cfg
             else EmptyString in
  mkMonitor (Type_ cfg) i t m addr url 0 false.

Inductive callback := StatusNormal | StatusFailed.

(** One round of [checkWorker] with the outcome of the check: the callbacks made. *)
Definition checkRound (ok : bool) (m : Monitor) : Monitor * list callback :=
  if ok then
    if negb (statusOK m)
    then (mkMonitor (checkType m) (interval m) (timeout m) (maxFailedTimes m) (addr m) (url m) (failedTimes m) true, [StatusNormal])
    else (m, [])
  else
    let failed := (failedTimes m + 1) mod 2 ^ 64 in
    if statusOK m && (maxFailedTimes m <=? int64 failed)
    then (mkMonitor (checkType m) (interval m) (timeout m) (maxFailedTimes m) (addr m) (url m) failed false, [StatusFailed])
    else (mkMonitor (checkType m) (interval m) (timeout m) (maxFailedTimes m) (addr m) (url m) failed (statusOK m), []).

Fixpoint rounds (oks : list bool) (m : Monitor) : Monitor * list callback :=
  match oks with
  | [] => (m, [])
  | ok :: oks' => let '(m, cs) := checkRound ok m in let '(m, cs') := rounds oks' m in (m, cs ++ cs')
  end.

(** [doCheck] on the outcomes of its dial and its request. *)
Definition doCheck (m : Monitor) (dialed : bool) (statusCode : option Z) : bool :=
  if decide (checkType m = "tcp") then bool_decide (addr m = EmptyString) || dialed
  else if decide (checkType m = "http") then
    match statusCode with Some c => c ÷ 100 =? 2 | None => false end
  else false.

(** The number of failed checks, from the beginning. *)
Definition failures (oks : list bool) : Z := Z.of_nat (length (filter (λ b, b = false) oks)).

Fixpoint alternating (next : callback) (cs : list callback) : Prop :=
  match cs with
  | [] => True
  | c :: cs' => c = next ∧ alternating (match next with StatusNormal => StatusFailed | StatusFailed => StatusNormal end) cs'
  end.

Lemma failures_cons ok oks : failures (ok :: oks) = (if ok then 0 else 1) + failures oks.
Proof. unfold failures. rewrite filter_cons. destruct ok; simpl; lia. Qed.

Lemma failures_nonneg oks : 0 ≤ failures oks.
Proof. unfold failures. lia. Qed.

(** The failure counter counts from the start, and callbacks alternate. *)
Lemma rounds_spec oks : ∀ m,
  0 ≤ failedTimes m → failedTimes m + failures oks < 2 ^ 63 →
  let '(m', cs) := rounds oks m in
  failedTimes m' = failedTimes m + failures oks ∧
  alternating (if statusOK m then StatusFailed else StatusNormal) cs ∧
  maxFailedTimes m' = maxFailedTimes m.
Proof.
  induction oks as [|ok oks IH]; intros m H0 Hb; simpl.
  - unfold failures. simpl. split; [lia|done].
  - rewrite failures_cons in *. pose proof (failures_nonneg oks) as Hnn.
    destruct ok.
    + unfold checkRound. destruct (statusOK m) eqn:E; simpl.
      * specialize (IH m H0 ltac:(lia)). destruct (rounds oks m) as [m' cs]. rewrite E in IH. destruct IH as (? & ? & ?).
        split_and!; done || lia.
      * set (m1 := mkMonitor _ _ _ _ _ _ _ _). specialize (IH m1 H0 ltac:(simpl; lia)).
        destruct (rounds oks m1) as [m' cs]. destruct IH as (? & ? & ?). simpl in *. split_and!; done || lia.
    + unfold checkRound. rewrite Z.mod_small, int64_id by (unfold is_int64; lia).
      destruct (statusOK m && _) eqn:E.
      * apply andb_true_iff in E as [E _]. set (m1 := mkMonitor _ _ _ _ _ _ _ _).
        specialize (IH m1 ltac:(simpl; lia) ltac:(simpl; lia)). destruct (rounds oks m1) as [m' cs].
        destruct IH as (? & ? & ?). simpl in *. rewrite E. split_and!; done || lia.
      * set (m1 := mkMonitor _ _ _ _ _ _ _ _).
        specialize (IH m1 ltac:(simpl; lia) ltac:(simpl; lia)). destruct (rounds oks m1) as [m' cs].
        destruct IH as (? & ? & ?). simpl in *. split_and!; done || lia.
Qed.

(** A monitor counts all failures, not consecutive ones. A failed check of a
    healthy service reports it failed exactly when the failures since the start of the
    monitor, this one included, reach [MaxFailed], however many successes lie between;
    and the reports alternate, starting with success. *)
Theorem failures_accumulate cfg addr oks :
  let m := (rounds oks (NewMonitor cfg addr)).1 in
  failures oks < 2 ^ 63 - 1 → statusOK m = true →
  (checkRound false m).2 = (if maxFailedTimes (NewMonitor cfg addr) <=? failures oks + 1 then [StatusFailed] else []) ∧
  alternating StatusNormal (rounds oks (NewMonitor cfg addr)).2.
Proof.
  intros m Hb Hok. pose proof (failures_nonneg oks) as Hnn.
  pose proof (rounds_spec oks (NewMonitor cfg addr) ltac:(simpl; lia) ltac:(simpl; lia)) as Hr. unfold m in *.
  destruct (rounds oks (NewMonitor cfg addr)) as [m' cs]. cbn [fst snd] in *. destruct Hr as (Hf & Ha & Hm).
  change (failedTimes (NewMonitor cfg addr)) with 0 in Hf. rewrite Z.add_0_l in Hf.
  split; [|exact Ha]. unfold checkRound. rewrite Hf, Z.mod_small, int64_id, Hok, Hm by (unfold is_int64; lia).
  simpl andb. by destruct (_ <=? _).
Qed.

Lemma failures_accumulate_witness :
  let m := (rounds [true; false; true; false; true] (NewMonitor (mkHealth "tcp" 3 3 10 EmptyString) "127.0.0.1:22")).1 in
  (checkRound false m).2 = [StatusFailed].
Proof.
  destruct (failures_accumulate (mkHealth "tcp" 3 3 10 EmptyString) "127.0.0.1:22" [true; false; true; false; true])
    as [H _]; [vm_compute; reflexivity|vm_compute; reflexivity|].
  etransitivity; [exact H|vm_compute; reflexivity].
Defined.
End Health.

(** ** Wrappers: [client/proxy/proxy_wrapper.go] *)
Module Wrapper.

Inductive ProxyPhase :=
| ProxyPhaseNew | ProxyPhaseWaitStart | ProxyPhaseStartErr | ProxyPhaseRunning | ProxyPhaseCheckFailed | ProxyPhaseClosed.
#[global] Instance ProxyPhase_eq_dec : EqDecision ProxyPhase.
Proof. solve_decision. Defined.

Definition waitResponseTimeout : Z := 20.
Definition startErrTimeout : Z := 30.

(** Messages to the server, by wire name. *)
Inductive message := NewProxy (name : string) | CloseProxy (name : string).
#[global] Instance message_eq_dec : EqDecision message.
Proof. solve_decision. Defined.

(** The fields of the base configuration the wrapper reads. *)
Record ProxyBaseConfig := mkBaseConfig { Name : string; HealthType : string; LocalPort : Z }.

#[global] Instance ProxyBaseConfig_eq_dec : EqDecision ProxyBaseConfig.
Proof. solve_decision. Defined.

Section wrapper.
Context {Cfg : Type} `{EqDecision Cfg} (GetBaseConfig : Cfg → ProxyBaseConfig).

(** [stopped] stands for [closeCh] and [healthNotifyCh] being closed. *)
Record Wrapper := mkWrapper {
  Phase : ProxyPhase; Error : string; Cfg_ : Cfg; RemoteAddr : string; monitored : bool;
  health : Z; lastSendStartMsg : Z; lastStartErr : Z; stopped : bool; wireName : string }.

Definition NewWrapper (user : string) (cfg : Cfg) : Wrapper :=
  let b := GetBaseConfig cfg in
  let monitored := negb (bool_decide (HealthType b = EmptyString)) && (0 <? LocalPort b) in
  mkWrapper ProxyPhaseNew EmptyString cfg EmptyString monitored (if monitored then 1 else 0) 0 0 false
    (Naming.AddUserPrefix user (Name b)).

Definition setPhase (ph : ProxyPhase) (pw : Wrapper) : Wrapper :=
  mkWrapper ph (Error pw) (Cfg_ pw) (RemoteAddr pw) (monitored pw) (health pw) (lastSendStartMsg pw) (lastStartErr pw)
    (stopped pw) (wireName pw).

(** [SetRunningStatus] with the outcome of [pxy.Run]; the result is its error. *)
Definition SetRunningStatus (now : Z) (remoteAddr respErr : string) (runErr : option string) (pw : Wrapper)
  : Wrapper * list message * option string :=
  if negb (bool_decide (Phase pw = ProxyPhaseWaitStart)) then (pw, [], Some "status not wait start, ignore start message"%string)
  else if negb (bool_decide (respErr = EmptyString))
  then (mkWrapper ProxyPhaseStartErr respErr (Cfg_ pw) remoteAddr (monitored pw) (health pw) (lastSendStartMsg pw) now
          (stopped pw) (wireName pw), [], Some respErr)
  else match runErr with
  | Some e => (mkWrapper ProxyPhaseStartErr e (Cfg_ pw) remoteAddr (monitored pw) (health pw) (lastSendStartMsg pw) now
                 (stopped pw) (wireName pw), [CloseProxy (wireName pw)], Some e)
  | None => (mkWrapper ProxyPhaseRunning EmptyString (Cfg_ pw) remoteAddr (monitored pw) (health pw) (lastSendStartMsg pw)
               (lastStartErr pw) (stopped pw) (wireName pw), [], None)
  end.

(** [Stop]; [None] is the panic of closing a closed channel. *)
Definition Stop (pw : Wrapper) : option (Wrapper * list message) :=
  if stopped pw then None
  else Some (mkWrapper ProxyPhaseClosed (Error pw) (Cfg_ pw) (RemoteAddr pw) (monitored pw) (health pw) (lastSendStartMsg pw)
               (lastStartErr pw) true (wireName pw), [CloseProxy (wireName pw)]).

(** When [checkWorker] asks the server to open the proxy. *)
Definition shouldStart (now : Z) (pw : Wrapper) : bool :=
  match Phase pw with
  | ProxyPhaseNew | ProxyPhaseCheckFailed => true
  | ProxyPhaseWaitStart => lastSendStartMsg pw + waitResponseTimeout <? now
  | ProxyPhaseStartErr => lastStartErr pw + startErrTimeout <? now
  | _ => false
  end.

(** One round of [checkWorker]. *)
Definition checkRound (now : Z) (pw : Wrapper) : Wrapper * list message :=
  if health pw =? 0 then
    if shouldStart now pw
    then (mkWrapper ProxyPhaseWaitStart (Error pw) (Cfg_ pw) (RemoteAddr pw) (monitored pw) (health pw) now (lastStartErr pw)
            (stopped pw) (wireName pw), [NewProxy (wireName pw)])
    else (pw, [])
  else
    match Phase pw with
    | ProxyPhaseRunning | ProxyPhaseWaitStart => (setPhase ProxyPhaseCheckFailed pw, [CloseProxy (wireName pw)])
    | _ => (pw, [])
    end.

Definition setHealth (h : Z) (pw : Wrapper) : Wrapper :=
  mkWrapper (Phase pw) (Error pw) (Cfg_ pw) (RemoteAddr pw) (monitored pw) h (lastSendStartMsg pw) (lastStartErr pw)
    (stopped pw) (wireName pw).
Definition statusNormalCallback : Wrapper → Wrapper := setHealth 0.
Definition statusFailedCallback : Wrapper → Wrapper := setHealth 1.

(** [InWorkConn]: whether the work connection is handed to the proxy (or closed). *)
Definition InWorkConn (pw : Wrapper) : bool := bool_decide (Phase pw = ProxyPhaseRunning).

(** ** The manager: [client/proxy/proxy_manager.go] *)

(** [gone] are the wrappers that were removed, [sent] the messages to the server. *)
Record Manager := mkManager {
  proxies : gmap string Wrapper; gone : list Wrapper; sent : list message; user : string; panicked : bool }.

Definition NewManager (user : string) : Manager := mkManager ∅ [] [] user false.

Definition putProxy (name : string) (pw : Wrapper) (ms : list message) (pm : Manager) : Manager :=
  mkManager (<[ name := pw ]> (proxies pm)) (gone pm) (sent pm ++ ms) (user pm) (panicked pm).

Definition StartProxy (now : Z) (name remoteAddr respErr : string) (runErr : option string) (pm : Manager)
  : Manager * option string :=
  match proxies pm !! name with
  | None => (pm, Some ("proxy [" +:+ name +:+ "] not found"))
  | Some pw => let '(pw, ms, err) := SetRunningStatus now remoteAddr respErr runErr pw in (putProxy name pw ms pm, err)
  end.

Definition HandleWorkConn (name : string) (pm : Manager) : bool :=
  match proxies pm !! name with Some pw => InWorkConn pw | None => false end.

(** [delete(pm.proxies, name); pxy.Stop()] *)
Definition removeProxy (pm : Manager) (x : string * Wrapper) : Manager :=
  match Stop x.2 with
  | Some (pw, ms) => mkManager (delete x.1 (proxies pm)) (gone pm ++ [pw]) (sent pm ++ ms) (user pm) (panicked pm)
  | None => mkManager (delete x.1 (proxies pm)) (gone pm) (sent pm) (user pm) true
  end.

Definition Close (pm : Manager) : Manager := foldl removeProxy pm (map_to_list (proxies pm)).

(** [lo.KeyBy] by name: the last configuration of a name. *)
Definition keyByName (cfgs : list Cfg) : gmap string Cfg :=
  foldl (λ m c, <[ Name (GetBaseConfig c) := c ]> m) ∅ cfgs.

Definition outdated (cfgs : gmap string Cfg) (x : string * Wrapper) : bool :=
  match cfgs !! x.1 with Some c => negb (bool_decide (Cfg_ x.2 = c)) | None => true end.

Definition addProxy (pm : Manager) (cfg : Cfg) : Manager :=
  let name := Name (GetBaseConfig cfg) in
  match proxies pm !! name with
  | Some _ => pm
  | None => putProxy name (NewWrapper (user pm) cfg) [] pm
  end.

Definition UpdateAll (cfgs : list Cfg) (pm : Manager) : Manager :=
  let m := keyByName cfgs in
  let pm := foldl removeProxy pm (filter (λ x, outdated m x = true) (map_to_list (proxies pm))) in
  foldl addProxy pm cfgs.

(** The goroutines of the wrapper of [name]. *)
Inductive event :=
| EUpdateAll (cfgs : list Cfg) | EClose
| EStartProxy (now : Z) (name remoteAddr respErr : string) (runErr : option string)
| ECheck (now : Z) (name : string) | ENormal (name : string) | EFailed (name : string).

Definition onProxy (name : string) (f : Wrapper → Wrapper * list message) (pm : Manager) : Manager :=
  match proxies pm !! name with
  | None => pm
  | Some pw => let '(pw, ms) := f pw in putProxy name pw ms pm
  end.

Definition exec (e : event) (pm : Manager) : Manager :=
  match e with
  | EUpdateAll cfgs => UpdateAll cfgs pm
  | EClose => Close pm
  | EStartProxy now name r e err => (StartProxy now name r e err pm).1
  | ECheck now name => onProxy name (checkRound now) pm
  | ENormal name => onProxy name (λ pw, (statusNormalCallback pw, [])) pm
  | EFailed name => onProxy name (λ pw, (statusFailedCallback pw, [])) pm
  end.

Definition run (user : string) (es : list event) : Manager := foldl (λ pm e, exec e pm) (NewManager user) es.

(** ** What the server was told *)

Definition about (k : string) (m : message) : Prop :=
  match m with NewProxy n | CloseProxy n => n = k end.
#[global] Instance about_dec k m : Decision (about k m).
Proof. destruct m; simpl; apply _. Defined.

(** The last message about a wire name; a proxy is asked for when it is [NewProxy]. *)
Definition lastAbout (k : string) (ms : list message) : option message := last (filter (about k) ms).

Lemma lastAbout_snoc k ms m : lastAbout k (ms ++ [m]) = if decide (about k m) then Some m else lastAbout k ms.
Proof.
  unfold lastAbout. rewrite filter_app, filter_cons, filter_nil.
  case_decide; [by rewrite last_snoc|by rewrite app_nil_r].
Qed.

Definition agrees (ms : list message) (pw : Wrapper) : Prop :=
  let k := wireName pw in
  match Phase pw with
  | ProxyPhaseNew => lastAbout k ms ≠ Some (NewProxy k)
  | ProxyPhaseWaitStart | ProxyPhaseRunning => lastAbout k ms = Some (NewProxy k)
  | ProxyPhaseCheckFailed => lastAbout k ms = Some (CloseProxy k)
  | ProxyPhaseStartErr => is_Some (lastAbout k ms)
  | ProxyPhaseClosed => False
  end.

Record minv (pm : Manager) : Prop := mkMinv {
  m_panic : panicked pm = false;
  m_proxy : ∀ n pw, proxies pm !! n = Some pw →
    wireName pw = Naming.AddUserPrefix (user pm) n ∧ Name (GetBaseConfig (Cfg_ pw)) = n ∧ stopped pw = false ∧
    agrees (sent pm) pw;
  m_open : ∀ k, lastAbout k (sent pm) = Some (NewProxy k) → ∃ n pw, proxies pm !! n = Some pw ∧ wireName pw = k;
  m_gone : ∀ pw, pw ∈ gone pm → Phase pw = ProxyPhaseClosed ∧ stopped pw = true }.

Lemma agrees_other ms m pw : ¬ about (wireName pw) m → agrees ms pw → agrees (ms ++ [m]) pw.
Proof. intros Hn. unfold agrees. rewrite lastAbout_snoc, decide_False by done. done. Qed.

(** A step of one wrapper that sends at most one message about itself. *)
Definition quiet (pw pw' : Wrapper) (ms : list message) : Prop :=
  wireName pw' = wireName pw ∧ Cfg_ pw' = Cfg_ pw ∧ stopped pw' = stopped pw ∧
  (ms = [] ∨ ms = [NewProxy (wireName pw)] ∨ ms = [CloseProxy (wireName pw)]).

Lemma putProxy_minv n pw pw' ms pm :
  minv pm → proxies pm !! n = Some pw → quiet pw pw' ms → agrees (sent pm ++ ms) pw' → minv (putProxy n pw' ms pm).
Proof.
  intros [Hp Hpx Ho Hg] Hn (Hw & Hc & Hs & Hms) Ha. destruct (Hpx _ _ Hn) as (Hw0 & Hn0 & Hs0 & Ha0).
  split; simpl; [done| | |done].
  - intros n' q [[<- <-]|[Hne Hq]]%lookup_insert_Some; [split_and!; congruence|].
    destruct (Hpx _ _ Hq) as (Hw' & ? & ? & Ha'). split_and!; try done.
    assert (wireName q ≠ wireName pw) as Hd.
    { rewrite Hw', Hw0. intros Heq. apply (inj _) in Heq. done. }
    destruct Hms as [-> | [-> | ->]]; [by rewrite app_nil_r|by apply agrees_other; simpl; congruence..].
  - assert (∀ k, k = wireName pw' ∨ lastAbout k (sent pm ++ ms) = lastAbout k (sent pm)) as Hk.
    { intros k. destruct Hms as [-> | [-> | ->]]; [right; by rewrite app_nil_r|..];
        (destruct (decide (k = wireName pw')); [by left|right]; rewrite lastAbout_snoc, decide_False; simpl; congruence). }
    intros k Hk'. destruct (Hk k) as [->|Heq].
    + exists n, pw'. by rewrite lookup_insert_eq.
    + rewrite Heq in Hk'. destruct (Ho _ Hk') as (n' & q & Hq & <-). destruct (decide (n = n')) as [<-|Hne].
      * exists n, pw'. rewrite lookup_insert_eq. split; [done|]. congruence.
      * exists n', q. by rewrite lookup_insert_ne.
Qed.

Lemma checkRound_quiet now pw ms0 :
  agrees ms0 pw → quiet pw (checkRound now pw).1 (checkRound now pw).2 ∧ agrees (ms0 ++ (checkRound now pw).2) (checkRound now pw).1.
Proof.
  intros Ha. unfold checkRound, quiet. destruct (health pw =? 0).
  - destruct (shouldStart now pw) eqn:E; simpl; [|rewrite app_nil_r; tauto]. split; [tauto|].
    unfold agrees. simpl. by rewrite lastAbout_snoc, decide_True.
  - destruct (Phase pw) eqn:E; simpl; rewrite ?app_nil_r; split; try done; try tauto;
      unfold agrees; simpl; by rewrite lastAbout_snoc, decide_True.
Qed.

Lemma SetRunningStatus_quiet now r e err pw ms0 :
  agrees ms0 pw →
  let '(pw', ms, _) := SetRunningStatus now r e err pw in quiet pw pw' ms ∧ agrees (ms0 ++ ms) pw'.
Proof.
  intros Ha. unfold SetRunningStatus, quiet. destruct (bool_decide (Phase pw = _)) eqn:E; simpl;
    [|rewrite app_nil_r; tauto]. bool_to_prop. unfold agrees in *. rewrite E in Ha.
  destruct (bool_decide (e = EmptyString)); simpl.
  - destruct err as [e'|]; simpl; [|rewrite app_nil_r; tauto]. split; [tauto|].
    rewrite lastAbout_snoc, decide_True by done. by eexists.
  - rewrite app_nil_r. split; [tauto|]. rewrite Ha. by eexists.
Qed.

Lemma removeProxy_minv n pw pm :
  minv pm → proxies pm !! n = Some pw →
  minv (removeProxy pm (n, pw)) ∧ proxies (removeProxy pm (n, pw)) = delete n (proxies pm) ∧
  user (removeProxy pm (n, pw)) = user pm ∧ sent (removeProxy pm (n, pw)) = sent pm ++ [CloseProxy (wireName pw)].
Proof.
  intros [Hp Hpx Ho Hg] Hn. destruct (Hpx _ _ Hn) as (Hw0 & Hn0 & Hs0 & Ha0).
  unfold removeProxy, Stop. simpl. rewrite Hs0. simpl. split; [|done]. split; simpl; [done| | |].
  - intros n' q [Hne Hq]%lookup_delete_Some. destruct (Hpx _ _ Hq) as (Hw' & ? & ? & Ha'). split_and!; try done.
    apply agrees_other; [|done]. simpl. rewrite Hw', Hw0. intros Heq. apply (inj _) in Heq. done.
  - intros k. rewrite lastAbout_snoc. case_decide as Hk; [done|]. intros (n' & q & Hq & Hwk)%Ho. exists n', q.
    split; [|done]. apply lookup_delete_Some. split; [|done]. intros <-. apply Hk. simpl. congruence.
  - intros q [?|Hx%list_elem_of_singleton]%elem_of_app; [auto|by subst].
Qed.

Lemma removeProxies_minv l : ∀ pm,
  minv pm → NoDup l.*1 → (∀ n pw, (n, pw) ∈ l → proxies pm !! n = Some pw) →
  let pm' := foldl removeProxy pm l in
  minv pm' ∧ user pm' = user pm ∧ sent pm' = sent pm ++ ((λ x, CloseProxy (wireName x.2)) <$> l) ∧
  (∀ n, proxies pm' !! n = if decide (n ∈ l.*1) then None else proxies pm !! n).
Proof.
  induction l as [|[n pw] l IH]; intros pm Hm Hnd Hin; simpl.
  - rewrite app_nil_r. split_and!; try done. 
  - apply NoDup_cons in Hnd as [Hni Hnd]. destruct (removeProxy_minv n pw pm Hm (Hin _ _ ltac:(left))) as (Hm1 & Hp1 & Hu1 & Hs1).
    destruct (IH (removeProxy pm (n, pw)) Hm1 Hnd) as (Hm2 & Hu2 & Hs2 & Hp2).
    { intros n' q Hq. rewrite Hp1. apply lookup_delete_Some. split; [|apply Hin; by right]. intros <-.
      apply Hni. apply list_elem_of_fmap. by exists (n, q). }
    split; [done|]. split; [congruence|]. split; [rewrite Hs2, Hs1, <-app_assoc; done|].
    intros n'. rewrite Hp2, Hp1. simpl. destruct (decide (n' ∈ l.*1)).
    + rewrite decide_True by (by right). done.
    + destruct (decide (n = n')) as [->|Hne].
      * rewrite decide_True by left. by rewrite lookup_delete_eq.
      * rewrite decide_False by (intros [?|?]%elem_of_cons; done). by rewrite lookup_delete_ne.
Qed.

Lemma addProxy_minv c pm : minv pm → minv (addProxy pm c).
Proof.
  intros Hm. unfold addProxy. destruct (proxies pm !! _) eqn:En; [done|]. destruct Hm as [Hp Hpx Ho Hg].
  split; simpl; [done| | |done].
  - rewrite app_nil_r. intros n q [[<- <-]|[Hne Hq]]%lookup_insert_Some; [|by apply Hpx].
    simpl. split_and!; try done. unfold agrees. simpl. intros (n' & q & Hq & Hwq)%Ho.
    destruct (Hpx _ _ Hq) as (Hw' & _). rewrite Hw' in Hwq. apply (inj _) in Hwq. congruence.
  - rewrite app_nil_r. intros k (n & q & Hq & <-)%Ho. exists n, q. split; [|done].
    rewrite lookup_insert_ne; [done|congruence].
Qed.

Lemma addProxies_minv cfgs : ∀ pm, minv pm → minv (foldl addProxy pm cfgs).
Proof. induction cfgs as [|c cfgs IH]; intros pm Hm; simpl; [done|]. by apply IH, addProxy_minv. Qed.

Definition removed (cfgs : list Cfg) (pm : Manager) : list (string * Wrapper) :=
  filter (λ x, outdated (keyByName cfgs) x = true) (map_to_list (proxies pm)).

Lemma removed_ok cfgs pm :
  NoDup (removed cfgs pm).*1 ∧ (∀ n pw, (n, pw) ∈ removed cfgs pm → proxies pm !! n = Some pw).
Proof.
  split; [apply NoDup_fmap_filter, NoDup_fst_map_to_list|].
  intros n pw [_ Hx]%list_elem_of_filter. by apply elem_of_map_to_list.
Qed.

Lemma exec_minv e pm : minv pm → minv (exec e pm).
Proof.
  intros Hm. destruct e as [cfgs| |now n r er err|now n|n|n]; simpl.
  - unfold UpdateAll. apply addProxies_minv. destruct (removed_ok cfgs pm) as [H1 H2].
    apply (removeProxies_minv (removed cfgs pm) pm Hm H1 H2).
  - apply (removeProxies_minv _ pm Hm); [apply NoDup_fst_map_to_list|]. intros n pw ?. by apply elem_of_map_to_list.
  - unfold StartProxy. destruct (proxies pm !! n) as [pw|] eqn:En; [|done].
    destruct (m_proxy pm Hm _ _ En) as (_ & _ & _ & Ha). pose proof (SetRunningStatus_quiet now r er err pw _ Ha) as Hq.
    destruct (SetRunningStatus now r er err pw) as [[pw' ms] x]. simpl. by eapply putProxy_minv; try apply Hq.
  - unfold onProxy. destruct (proxies pm !! n) as [pw|] eqn:En; [|done].
    destruct (m_proxy pm Hm _ _ En) as (_ & _ & _ & Ha). pose proof (checkRound_quiet now pw _ Ha) as Hq.
    destruct (checkRound now pw) as [pw' ms]. by eapply putProxy_minv; try apply Hq.
  - unfold onProxy. destruct (proxies pm !! n) as [pw|] eqn:En; [|done].
    destruct (m_proxy pm Hm _ _ En) as (_ & _ & _ & Ha). eapply putProxy_minv; [done|done|unfold quiet; simpl; tauto|].
    by rewrite app_nil_r.
  - unfold onProxy. destruct (proxies pm !! n) as [pw|] eqn:En; [|done].
    destruct (m_proxy pm Hm _ _ En) as (_ & _ & _ & Ha). eapply putProxy_minv; [done|done|unfold quiet; simpl; tauto|].
    by rewrite app_nil_r.
Qed.

(** Only reloads and closes change which configurations are run. *)
Lemma exec_cfgs e pm n : match e with EUpdateAll _ | EClose => False | _ => True end →
  Cfg_ <$> proxies (exec e pm) !! n = Cfg_ <$> proxies pm !! n.
Proof.
  assert (Hput : ∀ k pw pw', proxies pm !! k = Some pw → Cfg_ pw' = Cfg_ pw →
    Cfg_ <$> <[ k := pw' ]> (proxies pm) !! n = Cfg_ <$> proxies pm !! n).
  { intros k pw pw' Hk Hc. destruct (decide (k = n)) as [->|Hne]; [|by rewrite lookup_insert_ne].
    rewrite lookup_insert_eq, Hk. simpl. by rewrite Hc. }
  destruct e as [| |now k r er err|now k|k|k]; [done..| | | |]; intros _; simpl; unfold StartProxy, onProxy;
    (destruct (proxies pm !! k) as [pw|] eqn:Ek; [|done]).
  - destruct (SetRunningStatus now r er err pw) as [[pw' ms] x] eqn:E. simpl. apply (Hput k pw); [done|].
    unfold SetRunningStatus in E. go_inv E; done.
  - destruct (checkRound now pw) as [pw' ms] eqn:E. apply (Hput k pw); [done|]. unfold checkRound in E. go_inv E; done.
  - by apply (Hput k pw).
  - by apply (Hput k pw).
Qed.

Lemma run_minv u es : minv (run u es).
Proof.
  unfold run. assert (minv (NewManager u)) as Hm.
  { split; simpl; try done; intros *; rewrite ?lookup_empty; try done. by intros ?%elem_of_nil. }
  revert Hm. generalize (NewManager u). induction es as [|e es IH]; intros pm Hm; simpl; [done|]. by apply IH, exec_minv.
Qed.

(** C12: Client and server agree on the proxies after any events. No wrapper is stopped
    twice; a wrapper that waits for the server or runs has last asked for its proxy, one whose
    health check failed has last taken it back; a proxy that was last asked for belongs to a
    wrapper the manager still holds, so a removed proxy is never left open; and a removed
    wrapper sends nothing more and takes no work connection, whatever its goroutines do. *)
Theorem client_messages_agree u es :
  let pm := run u es in
  panicked pm = false ∧
  (∀ n pw, proxies pm !! n = Some pw →
     wireName pw = Naming.AddUserPrefix u n ∧
     (Phase pw = ProxyPhaseWaitStart ∨ Phase pw = ProxyPhaseRunning → lastAbout (wireName pw) (sent pm) = Some (NewProxy (wireName pw))) ∧
     (Phase pw = ProxyPhaseCheckFailed → lastAbout (wireName pw) (sent pm) = Some (CloseProxy (wireName pw)))) ∧
  (∀ k, lastAbout k (sent pm) = Some (NewProxy k) → ∃ n pw, proxies pm !! n = Some pw ∧ wireName pw = k ∧
     (Phase pw = ProxyPhaseWaitStart ∨ Phase pw = ProxyPhaseRunning ∨ Phase pw = ProxyPhaseStartErr)) ∧
  (∀ pw, pw ∈ gone pm → InWorkConn pw = false ∧ (∀ now, checkRound now pw = (pw, [])) ∧
     ∀ now r e err, (SetRunningStatus now r e err pw).1 = (pw, [])).
Proof.
  assert (user (run u es) = u) as Hu.
  { unfold run. assert (∀ l pm, user (foldl removeProxy pm l) = user pm) as Hrm.
    { induction l as [|x l IH]; intros pm; simpl; [done|]. rewrite IH. unfold removeProxy. by repeat case_match. }
    assert (∀ l pm, user (foldl addProxy pm l) = user pm) as Hadd.
    { induction l as [|x l IH]; intros pm; simpl; [done|]. rewrite IH. unfold addProxy. by repeat case_match. }
    assert (∀ e pm, user (exec e pm) = user pm) as He.
    { intros e pm. destruct e; simpl; unfold UpdateAll, Close, StartProxy, onProxy; rewrite ?Hadd, ?Hrm; try done;
        repeat case_match; simplify_eq/=; done. }
    change u with (user (NewManager u)) at 2. generalize (NewManager u).
    induction es as [|e es IH]; intros pm; simpl; [done|]. by rewrite IH. }
  destruct (run_minv u es) as [Hp Hpx Ho Hg]. simpl. split; [done|]. split; [|split].
  - intros n pw Hn. destruct (Hpx _ _ Hn) as (Hw & _ & _ & Ha). rewrite Hu in Hw. split; [done|].
    unfold agrees in Ha. split; [intros [E|E]|intros E]; by rewrite E in Ha.
  - intros k Hk. destruct (Ho _ Hk) as (n & pw & Hn & <-). exists n, pw. split; [done|]. split; [done|].
    destruct (Hpx _ _ Hn) as (_ & _ & _ & Ha). unfold agrees in Ha. rewrite Hk in Ha.
    destruct (Phase pw); try done; auto.
  - intros pw Hin. destruct (Hg _ Hin) as [Hph _]. unfold InWorkConn, checkRound, shouldStart, SetRunningStatus.
    rewrite Hph. split; [done|]. split; [intros; by destruct (health pw =? 0)|done].
Qed.

Lemma addProxies_lookup cfgs : ∀ pm n,
  NoDup (Name ∘ GetBaseConfig <$> cfgs) →
  proxies (foldl addProxy pm cfgs) !! n =
    match proxies pm !! n with
    | Some pw => Some pw
    | None => NewWrapper (user pm) <$> keyByName cfgs !! n
    end.
Proof.
  induction cfgs as [|c cfgs IH] using rev_ind; intros pm n Hnd.
  - simpl. by destruct (proxies pm !! n).
  - rewrite fmap_app, NoDup_app in Hnd. destruct Hnd as (Hnd & Hdis & _).
    rewrite foldl_app. simpl. unfold keyByName. rewrite foldl_app. simpl.
    set (pm1 := foldl addProxy pm cfgs). assert (user pm1 = user pm) as Hu.
    { unfold pm1. clear. revert pm. induction cfgs as [|x l IHl]; intros pm; simpl; [done|]. rewrite IHl.
      unfold addProxy. by case_match. }
    set (k := Name (GetBaseConfig c)).
    assert (keyByName cfgs !! k = None) as Hk.
    { destruct (keyByName cfgs !! k) as [c'|] eqn:E; [|done]. exfalso.
      apply (lookup_keyed_fold (Name ∘ GetBaseConfig) cfgs k Hnd ∅) in E as [E|[Hin Hn]]; [done| |by intros; apply lookup_empty].
      apply (Hdis (Name (GetBaseConfig c'))); [by apply (list_elem_of_fmap_2 (Name ∘ GetBaseConfig))|].
      simpl in *. rewrite Hn. left. }
    unfold addProxy at 1. fold k. pose proof (IH pm k Hnd) as IHk. fold pm1 in IHk.
    destruct (decide (n = k)) as [->|Hne].
    + rewrite lookup_insert_eq. destruct (proxies pm !! k) as [pw|] eqn:Ek.
      * rewrite IHk. by rewrite IHk.
      * rewrite Hk in IHk. simpl in IHk. rewrite IHk. simpl. rewrite lookup_insert_eq, Hu. done.
    + rewrite lookup_insert_ne by done. pose proof (IH pm n Hnd) as IHn. fold pm1 in IHn.
      destruct (proxies pm1 !! k); [done|]. simpl. rewrite lookup_insert_ne by done. done.
Qed.

Lemma UpdateAll_result pm cfgs :
  minv pm → NoDup (Name ∘ GetBaseConfig <$> cfgs) → let pm' := UpdateAll cfgs pm in
  (∀ n, proxies pm' !! n =
     match keyByName cfgs !! n, proxies pm !! n with
     | Some c, Some pw => if decide (Cfg_ pw = c) then Some pw else Some (NewWrapper (user pm) c)
     | Some c, None => Some (NewWrapper (user pm) c)
     | None, _ => None
     end) ∧
  (∀ n c, keyByName cfgs !! n = Some c ↔ c ∈ cfgs ∧ Name (GetBaseConfig c) = n) ∧
  panicked pm' = false ∧
  sent pm' = sent pm ++ ((λ x, CloseProxy (wireName x.2)) <$> removed cfgs pm).
Proof.
  intros Hm Hnd pm'.
  assert (∀ n c, keyByName cfgs !! n = Some c ↔ c ∈ cfgs ∧ Name (GetBaseConfig c) = n) as Hkey.
  { intros n c. unfold keyByName. rewrite (lookup_keyed_fold (Name ∘ GetBaseConfig)) by (done || intros; apply lookup_empty). rewrite lookup_empty.
    split; [intros [?|?]; done|by right]. }
  destruct (removed_ok cfgs pm) as [H1 H2].
  destruct (removeProxies_minv (removed cfgs pm) pm Hm H1 H2) as (Hm1 & Hu1 & Hs1 & Hp1).
  split; [|split; [done|split]].
  - intros n. unfold pm', UpdateAll. rewrite addProxies_lookup by done. fold (removed cfgs pm). rewrite Hp1, Hu1.
    assert (n ∈ (removed cfgs pm).*1 ↔ ∃ pw, proxies pm !! n = Some pw ∧ outdated (keyByName cfgs) (n, pw) = true) as Hin.
    { rewrite list_elem_of_fmap. split.
      - intros ([n' pw] & -> & [Ho Hx]%list_elem_of_filter). exists pw. split; [by apply elem_of_map_to_list|done].
      - intros (pw & Hn & Ho). exists (n, pw). split; [done|]. apply list_elem_of_filter.
        split; [done|by apply elem_of_map_to_list]. }
    unfold outdated in Hin. simpl in Hin. case_decide as Hd.
    + apply Hin in Hd as (pw & Hn & Ho). rewrite Hn. destruct (keyByName cfgs !! n) as [c|]; [|done].
      bool_to_prop. by rewrite decide_False.
    + destruct (proxies pm !! n) as [pw|] eqn:En.
      * destruct (keyByName cfgs !! n) as [c|] eqn:Ec; [|exfalso; apply Hd, Hin; eauto].
        destruct (decide (Cfg_ pw = c)); [done|]. exfalso. apply Hd, Hin. exists pw. split; [done|].
        by rewrite bool_decide_eq_false_2.
      * by destruct (keyByName cfgs !! n).
  - apply m_panic. by apply (exec_minv (EUpdateAll cfgs)).
  - unfold pm', UpdateAll. fold (removed cfgs pm).
    assert (∀ l q, sent (foldl addProxy q l) = sent q) as Hadd.
    { induction l as [|x l IH]; intros q; simpl; [done|]. rewrite IH. unfold addProxy. case_match; simpl; [done|]. apply app_nil_r. }
    by rewrite Hadd, Hs1.
Qed.

(** A reload leaves exactly the configured proxies. With distinct names, after
    [UpdateAll] the manager holds one wrapper per configuration: the old one untouched if its
    configuration is unchanged, otherwise a new one; every wrapper that was dropped or replaced
    is stopped and its proxy taken back with one message, and no other message is sent. *)
Theorem UpdateAll_exact u es cfgs :
  NoDup (Name ∘ GetBaseConfig <$> cfgs) →
  let pm := run u es in let pm' := UpdateAll cfgs pm in
  (∀ n, proxies pm' !! n =
     match keyByName cfgs !! n, proxies pm !! n with
     | Some c, Some pw => if decide (Cfg_ pw = c) then Some pw else Some (NewWrapper (user pm) c)
     | Some c, None => Some (NewWrapper (user pm) c)
     | None, _ => None
     end) ∧
  (∀ n c, keyByName cfgs !! n = Some c ↔ c ∈ cfgs ∧ Name (GetBaseConfig c) = n) ∧
  panicked pm' = false ∧
  sent pm' = sent pm ++ ((λ x, CloseProxy (wireName x.2)) <$> removed cfgs pm).
Proof. intros Hnd. apply UpdateAll_result; [apply run_minv|done]. Qed.

(** A healthy proxy keeps being asked for. A wrapper that is neither running nor
    closed and whose health is good asks the server again at the first check more than 30
    seconds after its last attempt and its last error, and having asked it does not ask again
    for the next 20 seconds. *)
Theorem healthy_retries now pw :
  health pw = 0 → Phase pw ≠ ProxyPhaseRunning → Phase pw ≠ ProxyPhaseClosed →
  lastSendStartMsg pw + 30 < now → lastStartErr pw + 30 < now →
  (checkRound now pw).2 = [NewProxy (wireName pw)] ∧ Phase (checkRound now pw).1 = ProxyPhaseWaitStart ∧
  lastSendStartMsg (checkRound now pw).1 = now ∧
  ∀ soon, soon ≤ now + 20 → (checkRound soon (checkRound now pw).1).2 = [].
Proof.
  intros Hh Hr Hc Hs He.
  assert (shouldStart now pw = true) as Hst.
  { unfold shouldStart, waitResponseTimeout, startErrTimeout. destruct (Phase pw); try done; apply Z.ltb_lt; lia. }
  assert (checkRound now pw = (mkWrapper ProxyPhaseWaitStart (Error pw) (Cfg_ pw) (RemoteAddr pw) (monitored pw) (health pw) now
    (lastStartErr pw) (stopped pw) (wireName pw), [NewProxy (wireName pw)])) as ->.
  { unfold checkRound. by rewrite Hh, Hst. }
  simpl. split_and!; try done. intros soon Hso. unfold checkRound, shouldStart, waitResponseTimeout. simpl. rewrite Hh. simpl.
  destruct (Z.ltb_spec (now + 20) soon); [lia|done].
Qed.
End wrapper.

Lemma UpdateAll_exact_witness :
  let a := mkBaseConfig "a" EmptyString 80 in let b := mkBaseConfig "b" EmptyString 81 in
  panicked (UpdateAll id [b] (run id "u" [EUpdateAll [a]])) = false ∧
  sent (UpdateAll id [b] (run id "u" [EUpdateAll [a]])) = [CloseProxy "u.a"].
Proof.
  intros a b.
  destruct (UpdateAll_exact id "u" [EUpdateAll [a]] [b]) as (_ & _ & H1 & H2);
    [apply NoDup_singleton|split; [exact H1|etransitivity; [exact H2|vm_compute; reflexivity]]].
Defined.

Lemma healthy_retries_witness :
  (checkRound 100 (NewWrapper id "u" (mkBaseConfig "a" EmptyString 80))).2 = [NewProxy "u.a"].
Proof.
  apply (healthy_retries 100 (NewWrapper id "u" (mkBaseConfig "a" EmptyString 80)));
    [reflexivity|discriminate|discriminate|simpl; lia|simpl; lia].
Defined.
End Wrapper.
