(* ===== verification/Service.v ===== *)
(** * Accepting clients: [server/service.go], [pkg/auth], [pkg/plugin/server]

    A connection's first message decides what it becomes: a control session, a
    work connection of a control, or a visitor connection.  This file models the
    checks on that way: the plugin chain, token authentication, the run id, the
    negotiated protocol, and their composition with the control manager. *)
From S2P Require Import Prelude Bytes Wire UdpBinary Registry Control Visitor.
From stdpp Require Import pretty.

(** ** The plugin chain: [pkg/plugin/server/manager.go] *)
Module Plugin.

Inductive Op := OpLogin | OpNewProxy | OpCloseProxy | OpPing | OpNewWorkConn | OpNewUserConn.
#[global] Instance Op_eq_dec : EqDecision Op.
Proof. solve_decision. Defined.

Definition opName (op : Op) : string :=
  match op with
  | OpLogin => "Login" | OpNewProxy => "NewProxy" | OpCloseProxy => "CloseProxy" | OpPing => "Ping"
  | OpNewWorkConn => "NewWorkConn" | OpNewUserConn => "NewUserConn"
  end.

Record Response := mkResponse { Reject : bool; RejectReason : string; Unchange : bool }.

(** A plugin on contents of type [T]: its error, or its response with the
    content it returns. *)
Record Plugin (T : Type) := mkPlugin {
  Name : string; IsSupport : Op → bool; Handle : Op → T → res string (Response * T) }.
Arguments mkPlugin {T}. Arguments Name {T}. Arguments IsSupport {T}. Arguments Handle {T}.

(** The plugins of one operation, in order of registration. *)
Definition Register {T} (op : Op) (p : Plugin T) (plugins : list (Plugin T)) : list (Plugin T) :=
  if IsSupport p op then plugins ++ [p] else plugins.

Fixpoint handleMutableContent {T} (plugins : list (Plugin T)) (op : Op) (content : T) : res string T :=
  match plugins with
  | [] => Ok content
  | p :: plugins' =>
      match Handle p op content with
      | Err _ => Err ("send " +:+ opName op +:+ " request to plugin error")
      | Ok (r, ret) =>
          if Reject r then Err (RejectReason r)
          else handleMutableContent plugins' op (if Unchange r then content else ret)
      end
  end.

(** [Manager.CloseProxy]: every plugin is told, the errors are collected. *)
Fixpoint closeErrors {T} (plugins : list (Plugin T)) (content : T) : list string :=
  match plugins with
  | [] => []
  | p :: plugins' =>
      match Handle p OpCloseProxy content with
      | Err e => ("[" +:+ Name p +:+ "]: " +:+ e) :: closeErrors plugins' content
      | Ok _ => closeErrors plugins' content
      end
  end.

(** The content after the first plugins accepted it. *)
Fixpoint passes {T} (plugins : list (Plugin T)) (op : Op) (c c' : T) : Prop :=
  match plugins with
  | [] => c' = c
  | p :: plugins' =>
      ∃ r ret, Handle p op c = Ok (r, ret) ∧ Reject r = false ∧ passes plugins' op (if Unchange r then c else ret) c'
  end.

Lemma handle_passes {T} (plugins : list (Plugin T)) op : ∀ c c',
  handleMutableContent plugins op c = Ok c' ↔ passes plugins op c c'.
Proof.
  induction plugins as [|p ps IH]; intros c c'; simpl; [split; [by intros [= <-]|by intros ->]|].
  destruct (Handle p op c) as [[r ret]|e'] eqn:E; [|split; [done|by intros (r' & ret' & ? & _)]].
  destruct (Reject r) eqn:Er; [split; [done|intros (r' & ret' & [= <- <-] & ? & _); congruence]|].
  rewrite IH. split; [eauto|]. by intros (r' & ret' & [= <- <-] & _ & ?).
Qed.

(** The plugin chain is all or nothing and in order. The chain returns a content
    exactly when every plugin, given the content its predecessors produced, accepts it; it fails
    exactly when some plugin, after all earlier ones accepted, has an error or rejects, and a
    rejection is returned with that plugin's reason. *)
Theorem plugin_chain {T} (plugins : list (Plugin T)) op c :
  (∀ c', handleMutableContent plugins op c = Ok c' ↔ passes plugins op c c') ∧
  (∀ e, handleMutableContent plugins op c = Err e → ∃ before p after ci,
     plugins = before ++ p :: after ∧ passes before op c ci ∧
     ((∃ e', Handle p op ci = Err e') ∨ ∃ r ret, Handle p op ci = Ok (r, ret) ∧ Reject r = true ∧ e = RejectReason r)).
Proof.
  split; [apply handle_passes|]. revert c. induction plugins as [|p ps IH]; intros c e; simpl; [done|].
  destruct (Handle p op c) as [[r ret]|e'] eqn:E; [destruct (Reject r) eqn:Er|].
  - intros [= <-]. exists [], p, ps, c. rewrite E. simpl. split_and!; eauto 10.
  - intros (before & q & after & ci & -> & Hp & Hc)%IH. exists (p :: before), q, after, ci.
    simpl. split_and!; eauto.
  - intros _. exists [], p, ps, c. simpl. split_and!; eauto.
Qed.

Definition demoPlugin (name : string) (rename : string → string) (refuse : bool) : Plugin string :=
  mkPlugin name (λ _, true) (λ _ c, Ok (mkResponse refuse "no" false, rename c)).

Lemma plugin_chain_witness :
  ∃ before p after ci, [demoPlugin "a" (λ s, s +:+ "!") false; demoPlugin "b" id true] = before ++ p :: after ∧
    passes before OpLogin "x"%string ci ∧ before = [demoPlugin "a" (λ s, s +:+ "!") false].
Proof.
  destruct (proj2 (plugin_chain [demoPlugin "a" (λ s, s +:+ "!") false; demoPlugin "b" id true] OpLogin "x"%string) "no"%string)
    as (before & p & after & ci & Heq & Hp & Hc); [reflexivity|].
  exists before, p, after, ci. split; [exact Heq|]. split; [exact Hp|].
  destruct before as [|q [|q' before]]; simpl in Heq.
  - injection Heq as <- <-. destruct Hc as [[e' He]|(r & ret & Hr & Hj & _)]; [discriminate|].
    injection Hr as <- _. discriminate.
  - injection Heq as <- _ _. reflexivity.
  - apply (f_equal length) in Heq. simpl in Heq. rewrite length_app in Heq. simpl in Heq. lia.
Defined.
End Plugin.

(** ** Token authentication: [pkg/auth/token.go], [pkg/auth/pass.go] *)
Module Auth.

Inductive AuthScope := AuthScopeHeartBeats | AuthScopeNewWorkConns.
#[global] Instance AuthScope_eq_dec : EqDecision AuthScope.
Proof. solve_decision. Defined.

Record TokenAuth := mkTokenAuth { additionalAuthScopes : list AuthScope; token : string }.
Definition NewTokenAuth : list AuthScope → string → TokenAuth := mkTokenAuth.

Inductive error := ErrLogin | ErrHeartbeat | ErrNewWorkConn.

(** The fields of a message the authentication sets and checks. *)
Record signed := mkSigned { Timestamp : Z; PrivilegeKey : string }.

Section token.
Variable md5hex : string → string.
Let key (a : TokenAuth) (t : Z) : string := Visitor.GetAuthKey md5hex (token a) t.

Definition SetLogin (a : TokenAuth) (m : signed) : signed := mkSigned (Timestamp m) (key a (Timestamp m)).
Definition SetPing (now : Z) (a : TokenAuth) (m : signed) : signed :=
  if negb (bool_decide (AuthScopeHeartBeats ∈ additionalAuthScopes a)) then m else mkSigned now (key a now).
Definition SetNewWorkConn (now : Z) (a : TokenAuth) (m : signed) : signed :=
  if negb (bool_decide (AuthScopeNewWorkConns ∈ additionalAuthScopes a)) then m else mkSigned now (key a now).

Definition VerifyLogin (a : TokenAuth) (m : signed) : res error unit :=
  if negb (bool_decide (key a (Timestamp m) = PrivilegeKey m)) then Err ErrLogin else Ok ().
Definition VerifyPing (a : TokenAuth) (m : signed) : res error unit :=
  if negb (bool_decide (AuthScopeHeartBeats ∈ additionalAuthScopes a)) then Ok ()
  else if negb (bool_decide (key a (Timestamp m) = PrivilegeKey m)) then Err ErrHeartbeat else Ok ().
Definition VerifyNewWorkConn (a : TokenAuth) (m : signed) : res error unit :=
  if negb (bool_decide (AuthScopeNewWorkConns ∈ additionalAuthScopes a)) then Ok ()
  else if negb (bool_decide (key a (Timestamp m) = PrivilegeKey m)) then Err ErrNewWorkConn else Ok ().

(** A verifier: the token, or [AlwaysPassVerifier]. *)
Inductive Verifier := TokenVerifier (a : TokenAuth) | AlwaysPass.
Definition verifyLogin (v : Verifier) (m : signed) : res error unit :=
  match v with TokenVerifier a => VerifyLogin a m | AlwaysPass => Ok () end.
Definition verifyPing (v : Verifier) (m : signed) : res error unit :=
  match v with TokenVerifier a => VerifyPing a m | AlwaysPass => Ok () end.
Definition verifyNewWorkConn (v : Verifier) (m : signed) : res error unit :=
  match v with TokenVerifier a => VerifyNewWorkConn a m | AlwaysPass => Ok () end.

Lemma NewWorkConn_verified c s now m :
  token c = token s → (∀ x, x ∈ additionalAuthScopes s → x ∈ additionalAuthScopes c) →
  VerifyNewWorkConn s (SetNewWorkConn now c m) = Ok ().
Proof.
  intros Ht Hsub. unfold VerifyNewWorkConn, SetNewWorkConn, key. rewrite Ht.
  destruct (bool_decide (AuthScopeNewWorkConns ∈ additionalAuthScopes s)) eqn:E; [|done]. bool_to_prop. simpl.
  rewrite (bool_decide_eq_true_2 (AuthScopeNewWorkConns ∈ additionalAuthScopes c)) by auto. simpl.
  by rewrite bool_decide_eq_true_2.
Qed.

Lemma Ping_verified c s now m :
  token c = token s → (∀ x, x ∈ additionalAuthScopes s → x ∈ additionalAuthScopes c) → VerifyPing s (SetPing now c m) = Ok ().
Proof.
  intros Ht Hsub. unfold VerifyPing, SetPing, key. rewrite Ht.
  destruct (bool_decide (AuthScopeHeartBeats ∈ additionalAuthScopes s)) eqn:E; [|done]. bool_to_prop. simpl.
  rewrite (bool_decide_eq_true_2 (AuthScopeHeartBeats ∈ additionalAuthScopes c)) by auto. simpl.
  by rewrite bool_decide_eq_true_2.
Qed.

(** Client and server with one token understand each other. What a client signs
    with the token is accepted by a server with the same token and the scopes the client has or
    fewer, for logins, heartbeats and work connections; and a signed message is accepted
    exactly when its key is the digest of the token and its timestamp. *)
Theorem token_roundtrip c s now m :
  token c = token s →
  VerifyLogin s (SetLogin c m) = Ok () ∧
  ((∀ x, x ∈ additionalAuthScopes s → x ∈ additionalAuthScopes c) →
     VerifyPing s (SetPing now c m) = Ok () ∧ VerifyNewWorkConn s (SetNewWorkConn now c m) = Ok ()) ∧
  (VerifyLogin s m = Ok () ↔ PrivilegeKey m = Visitor.GetAuthKey md5hex (token s) (Timestamp m)).
Proof.
  intros Ht. split_and!; [|intros Hsub; split; [by apply Ping_verified|by apply NewWorkConn_verified]|];
    unfold VerifyLogin, SetLogin, key; rewrite ?Ht.
  - by rewrite bool_decide_eq_true_2.
  - destruct (bool_decide _) eqn:E; bool_to_prop; simpl; split; intros; congruence || done.
Qed.
End token.

Lemma token_roundtrip_witness :
  VerifyLogin id (mkTokenAuth [] "t") (SetLogin id (mkTokenAuth [AuthScopeHeartBeats] "t") (mkSigned 5 "")) = Ok ().
Proof.
  exact (proj1 (token_roundtrip id (mkTokenAuth [AuthScopeHeartBeats] "t") (mkTokenAuth [] "t") 9 (mkSigned 5 "") eq_refl)).
Defined.

(** Token and timestamp are not separated in the digest. *)
Example auth_key_not_separated md5hex : Visitor.GetAuthKey md5hex "t1" 23 = Visitor.GetAuthKey md5hex "t12" 3.
Proof. reflexivity. Qed.
End Auth.

(** ** The service: [server/service.go] *)
Module Service.

Inductive error :=
| ErrCodecNeedsV2 | ErrCodec | ErrWireProtocol | ErrRandom | ErrRunID | ErrAuth (e : Auth.error)
| ErrXTCP | ErrNewControl | ErrManager (e : Control.error) | ErrReplaced | ErrPlugin (e : string)
| ErrCrypto | ErrHelloOnWork | ErrNoControl | ErrProtocolMismatch.

Definition MaxRunIDLength : nat := 64.

Section service.
Context {R : Type} `{OnlineRegistry R}.
(** The library: MD5, and whether every character of a string is printable. *)
Context (md5hex : string → string) (printable : string → bool).

(** [validation.ValidateRunID] *)
Definition ValidateRunID (s : string) : bool :=
  negb (bool_decide (s = EmptyString)) && (String.length s <=? MaxRunIDLength)%nat
  && UdpBinary.utf8Valid (ofString s) && printable s.

(** [util.RandID]: sixteen hexadecimal digits of nine random bytes. *)
Definition RandID (entropy : option bytes) : option string :=
  match entropy with
  | Some b => Some (String.substring 0 16 (hexEncode (take 9 b)))
  | None => None
  end.

(** The login message. *)
Record Login := mkLogin {
  lVersion : string; lHostname : string; lUser : string; lPrivilegeKey : string; lTimestamp : Z; lRunID : string;
  lClientID : string; lPoolCount : Z; lAlwaysAuthPass : bool; lXTCPBindingProtocol : string }.

Definition setRunID (run : string) (m : Login) : Login :=
  mkLogin (lVersion m) (lHostname m) (lUser m) (lPrivilegeKey m) (lTimestamp m) run (lClientID m) (lPoolCount m)
    (lAlwaysAuthPass m) (lXTCPBindingProtocol m).

(** What the server is configured with; [natHole] says whether there is a
    hole punching controller. *)
Record Config := mkConfig {
  verifier : Auth.Verifier; methodIsToken : bool; encryptionKey : bytes; natHole : bool; maxPoolCount : Z;
  loginPlugins : list (Plugin.Plugin Login); detailedErrors : bool }.

(** The connection: whether it is internal, came over TLS, its protocol and
    codec, the host of its peer. *)
Record Peer := mkPeer {
  internal : bool; physicalTLS : bool; wireProtocol : string; udpPacketCodec : string; remoteHost : string }.

Definition checkCodec (p : Peer) : res error unit :=
  if decide (wireProtocol p = Wire.ProtocolV1)
  then if negb (bool_decide (udpPacketCodec p = EmptyString)) then Err ErrCodecNeedsV2 else Ok ()
  else if decide (wireProtocol p = Wire.ProtocolV2)
  then if negb (bool_decide (udpPacketCodec p = EmptyString)) && negb (bool_decide (udpPacketCodec p = Wire.UDPPacketCodecBinary))
       then Err ErrCodec else Ok ()
  else Err ErrWireProtocol.

Definition verifierFor (cfg : Config) (p : Peer) (m : Login) : Auth.Verifier :=
  if internal p && lAlwaysAuthPass m then Auth.AlwaysPass else verifier cfg.

(** [RegisterControl] up to [NewControl]: the login with its run id. *)
Definition checkLogin (cfg : Config) (p : Peer) (entropy : option bytes) (m : Login) : res error Login :=
  let? _ := checkCodec p in
  let? m := (if decide (lRunID m = EmptyString)
             then match RandID entropy with Some r => Ok (setRunID r m) | None => Err ErrRandom end
             else Ok m) in
  if negb (ValidateRunID (lRunID m)) then Err ErrRunID
  else match Auth.verifyLogin md5hex (verifierFor cfg p m) (Auth.mkSigned (lTimestamp m) (lPrivilegeKey m)) with
  | Err e => Err (ErrAuth e)
  | Ok _ =>
      let xtcpEnabled := negb (bool_decide (lXTCPBindingProtocol m = EmptyString)) in
      if xtcpEnabled &&
         (negb (bool_decide (lXTCPBindingProtocol m = Control.ALPN)) || internal p || negb (physicalTLS p)
          || negb (bool_decide (wireProtocol p = Wire.ProtocolV2)) || negb (methodIsToken cfg)
          || (length (encryptionKey cfg) =? 0)%nat || negb (natHole cfg))
      then Err ErrXTCP
      else Ok m
  end.

Definition sessionOf (cfg : Config) (p : Peer) (m : Login) : Control.SessionContext :=
  Control.mkSession (lUser m) (lClientID m) (lRunID m) (lHostname m) (lVersion m) (remoteHost p) (wireProtocol p)
    (udpPacketCodec p) (lPoolCount m) (lXTCPBindingProtocol m)
    (negb (bool_decide (lXTCPBindingProtocol m = EmptyString))) (maxPoolCount cfg).

(** [RegisterControl] for the control object at the fresh address [a]; the
    result carries the control when it was created. *)
Definition RegisterControl (now : Z) (cfg : Config) (p : Peer) (runEntropy idEntropy : option bytes) (m : Login) (a : nat)
  (w : Control.World R) : (bool * res error unit) * Control.World R :=
  match checkLogin cfg p runEntropy m with
  | Err e => ((false, Err e), w)
  | Ok m =>
      match Control.NewControl idEntropy (sessionOf cfg p m) with
      | Err _ => ((false, Err ErrNewControl), w)
      | Ok c =>
          let w := Control.putControl a c w in
          match Control.Add a w with
          | (Err e, w) => ((true, Err (ErrManager e)), w)
          | (Ok _, w) =>
              match Control.Activate now a w with
              | ((_, Err e), w) => ((true, Err (ErrManager e)), w)
              | ((false, Ok _), w) => ((true, Err ErrReplaced), w)
              | ((true, Ok _), w) => ((true, Ok ()), w)
              end
          end
      end
  end.

(** [newControlReadWriter]: v2 needs a negotiated cipher. *)
Definition controlCrypto (p : Peer) (cryptoContext ciphersOk : bool) : res error unit :=
  if bool_decide (wireProtocol p = Wire.ProtocolV2) && negb cryptoContext then Err ErrCrypto
  else if ciphersOk then Ok () else Err ErrCrypto.

(** The login responses: an error text, or the run id. *)
Inductive reply := LoginError (text : string) | LoginOk (run : string).

Definition errorText (cfg : Config) (e : error) (detail : error → string) (summary : string) : string :=
  if detailedErrors cfg then detail e else summary.

(** Whether [completeLogin] gets to write the success response: the control is
    current, pending and activated, and the write succeeds. *)
Definition successWritten (writeOk : bool) (a : nat) (w : Control.World R) : bool :=
  match Control.ctls w !! a with
  | None => false
  | Some c =>
      match Control.lockCurrentRun (Control.runID c) false w ≫= λ e, Control.entries w !! e with
      | None => false
      | Some en => Control.owns a c en && bool_decide (Control.state c = Control.controlStatePending)
                   && Control.activated c && writeOk
      end
  end.

(** The case [*msg.Login] of [handleConnection]; [cryptoContext] and [ciphersOk] are
    the outcome of the negotiation and of building the cipher, [writeOk] and [natOk] the
    outcomes of writing the response and of registering the control for hole punching. *)
Definition handleLogin (now : Z) (cfg : Config) (p : Peer) (cryptoContext ciphersOk writeOk natOk : bool)
  (runEntropy idEntropy : option bytes) (detail : error → string) (m : Login) (a : nat) (w : Control.World R)
  : list reply * Control.World R :=
  let fail (hasCtl : bool) (e : error) (w : Control.World R) :=
    let w := if hasCtl then (Control.Remove now a w).2 else w in
    let w := match Control.ctls w !! a with
             | Some c => if hasCtl then Control.putControl a (Control.Close c) w else w
             | None => w
             end in
    ([LoginError (errorText cfg e detail "register control error")], w) in
  match Plugin.handleMutableContent (loginPlugins cfg) Plugin.OpLogin m with
  | Err e => fail false (ErrPlugin e) w
  | Ok m =>
      match (if internal p then Ok () else controlCrypto p cryptoContext ciphersOk) with
      | Err e => fail false e w
      | Ok _ =>
          match RegisterControl now cfg p runEntropy idEntropy m a w with
          | ((hasCtl, Err e), w) => fail hasCtl e w
          | ((_, Ok _), w) =>
              let run := match Control.ctls w !! a with Some c => Control.runID c | None => EmptyString end in
              let replies := if successWritten writeOk a w then [LoginOk run] else [] in
              match Control.completeLogin writeOk natOk a w with
              | ((true, Ok _), w) => (replies, w)
              | (_, w) =>
                  let w := (Control.Remove now a w).2 in
                  (replies, match Control.ctls w !! a with
                       | Some c => Control.putControl a (Control.Close c) w | None => w end)
              end
          end
      end
  end.

(** [RegisterWorkConn]; [plugins] are the NewWorkConn plugins on the signed part of
    the message. *)
Definition RegisterWorkConn (v : Auth.Verifier) (plugins : list (Plugin.Plugin Auth.signed)) (run : string) (m : Auth.signed)
  (conn : nat) (workWireProtocol : string) (workClientHelloPresent : bool) (w : Control.World R)
  : res error unit * Control.World R :=
  if workClientHelloPresent then (Err ErrHelloOnWork, w)
  else match Control.GetByID run w with
  | None => (Err ErrNoControl, w)
  | Some a =>
  match Control.ctls w !! a with
  | None => (Err ErrNoControl, w)
  | Some c =>
  if negb (bool_decide (workWireProtocol = Control.WireProtocol (Control.sessionCtx c))) then (Err ErrProtocolMismatch, w)
  else match Plugin.handleMutableContent plugins Plugin.OpNewWorkConn m with
  | Err e => (Err (ErrPlugin e), w)
  | Ok m =>
      match Auth.verifyNewWorkConn md5hex v m with
      | Err e => (Err (ErrAuth e), w)
      | Ok _ =>
          match Control.RegisterWorkConn a conn w with
          | (Ok _, w) => (Ok (), w)
          | (Err e, w) => (Err (ErrManager e), w)
          end
      end
  end end end.

(** ** What an accepted login has passed *)

Definition authenticated (cfg : Config) (p : Peer) (m : Login) : Prop :=
  (internal p = true ∧ lAlwaysAuthPass m = true) ∨
  Auth.verifyLogin md5hex (verifier cfg) (Auth.mkSigned (lTimestamp m) (lPrivilegeKey m)) = Ok ().

Definition codecAllowed (p : Peer) : Prop :=
  (wireProtocol p = Wire.ProtocolV1 ∧ udpPacketCodec p = EmptyString) ∨
  (wireProtocol p = Wire.ProtocolV2 ∧ (udpPacketCodec p = EmptyString ∨ udpPacketCodec p = Wire.UDPPacketCodecBinary)).

Definition xtcpAllowed (cfg : Config) (p : Peer) : Prop :=
  internal p = false ∧ physicalTLS p = true ∧ wireProtocol p = Wire.ProtocolV2 ∧ methodIsToken cfg = true ∧
  encryptionKey cfg ≠ [] ∧ natHole cfg = true.

Lemma checkLogin_Ok cfg p en m m' :
  checkLogin cfg p en m = Ok m' →
  (lRunID m ≠ EmptyString ∧ m' = m ∨ lRunID m = EmptyString ∧ ∃ r, RandID en = Some r ∧ m' = setRunID r m) ∧
  ValidateRunID (lRunID m') = true ∧ authenticated cfg p m' ∧ codecAllowed p ∧
  (lXTCPBindingProtocol m' ≠ EmptyString → lXTCPBindingProtocol m' = Control.ALPN ∧ xtcpAllowed cfg p).
Proof.
  unfold checkLogin. intros Hc. destruct (checkCodec p) as [[]|] eqn:Ec; [|done].
  assert (codecAllowed p) as Hcodec.
  { clear Hc. unfold checkCodec in Ec. unfold codecAllowed.
    destruct (decide (wireProtocol p = Wire.ProtocolV1)) as [E1|E1].
    - left. destruct (bool_decide (udpPacketCodec p = _)) eqn:E; [|done]. bool_to_prop. done.
    - right. destruct (decide (wireProtocol p = Wire.ProtocolV2)) as [E2|E2]; [|done]. split; [done|].
      destruct (_ && _) eqn:E in Ec; [done|]. apply andb_false_iff in E as [E|E]; bool_to_prop; auto. }
  set (mm := if decide (lRunID m = EmptyString) then _ else _) in Hc. destruct mm as [m1|] eqn:Em; [|done]. unfold mm in Em.
  destruct (ValidateRunID (lRunID m1)) eqn:Ev; [|done]. simpl in Hc.
  destruct (Auth.verifyLogin _ _ _) as [[]|] eqn:Ea; [|done]. destruct (_ && _) eqn:Ex; [done|]. injection Hc as ->.
  split_and!; try done.
  - case_decide; [right|by left; simplify_eq]. split; [done|]. destruct (RandID en); [|done]. simplify_eq. eauto.
  - unfold authenticated, verifierFor in *. destruct (internal p && _) eqn:E; [left; by apply andb_true_iff in E|by right].
  - intros Hx. apply andb_false_iff in Ex as [Ex|Ex]; bool_to_prop; [done|]. split; [done|].
    unfold xtcpAllowed. split_and!; try done. intros Hnil. rewrite Hnil in *. done.
Qed.

(** What [Add] does for a control at a fresh address. *)
Lemma Add_fresh a c (w : Control.World R) r w1 :
  Control.ctls w !! a = Some c → (∀ e en, Control.entries w !! e = Some en → Control.ctl en ≠ a) →
  Control.Add a w = (r, w1) →
  (is_Ok r ∧ ∃ en c1, Control.ctlsByRunID w1 = <[ Control.runID c := Control.nextEntry w ]> (Control.ctlsByRunID w) ∧
     Control.entries w1 = <[ Control.nextEntry w := en ]> (Control.entries w) ∧ Control.ctl en = a ∧
     Control.ctls w1 !! a = Some c1 ∧ Control.controlID c1 = Control.id en ∧ Control.sessionCtx c1 = Control.sessionCtx c ∧
     Control.state c1 = Control.controlStatePending) ∨
  ((∃ e, r = Err e) ∧ Control.ctlsByRunID w1 = Control.ctlsByRunID w ∧ Control.entries w1 = Control.entries w).
Proof.
  intros Hc Hf. unfold Control.Add, Control.addLocked. rewrite Hc.
  destruct (Control.closed w); [intros ?; simplify_eq; right; split; [by eexists|done]|]. rewrite bool_decide_eq_true_2 by done. simpl.
  unfold Control.admitControl. destruct (decide (Control.state c = _)) as [Hst|Hst]; simpl; [|intros ?; simplify_eq; right; split; [by eexists|done]].
  set (c0 := Control.mkControl _ _ _ _ _ _ _ _ _).
  assert (Control.runID c0 = Control.runID c) as Hr by reflexivity.
  destruct (Control.ctlsByRunID w !! Control.runID c) as [e|] eqn:Ee; simpl.
  - destruct (Control.entries w !! e) as [en|] eqn:Een; simpl.
    + destruct (Control.ctls w !! Control.ctl en) as [oc|] eqn:Eo; simpl.
      * pose proof (Hf _ _ Een) as Hne. destruct (Control.markReplaced _ _) as [b oc']. simpl.
        rewrite lookup_insert_ne, lookup_insert_eq by done.
        intros [= <- <-]. left. split; [by eexists|]. do 2 eexists. do 3 (split; [reflexivity|]).
        split; [simpl; rewrite lookup_insert_ne by done; apply lookup_insert_eq|]. done.
      * intros ?; simplify_eq. right. split; [by eexists|done].
    + intros [= <- <-]. left. split; [by eexists|]. do 2 eexists. do 3 (split; [reflexivity|]).
      split; [apply lookup_insert_eq|]. done.
  - intros [= <- <-]. left. split; [by eexists|]. do 2 eexists. do 3 (split; [reflexivity|]).
      split; [apply lookup_insert_eq|]. done.
Qed.

(** The control at [a] is the current one of [run], for session [sc]. *)
Definition installed (a : nat) (sc : Control.SessionContext) (w : Control.World R) : Prop :=
  ∃ e en c, Control.ctlsByRunID w !! Control.RunID sc = Some e ∧ Control.entries w !! e = Some en ∧ Control.ctl en = a ∧
  Control.ctls w !! a = Some c ∧ Control.sessionCtx c = sc ∧ Control.controlID c = Control.id en ∧
  (∀ e' en', Control.entries w !! e' = Some en' → Control.ctl en' = a → e' = e) ∧
  (∀ r, Control.ctlsByRunID w !! r = Some e → r = Control.RunID sc).

(** No run id leads to the control at [a]. *)
Definition unowned (a : nat) (w : Control.World R) : Prop :=
  ∀ run e en, Control.ctlsByRunID w !! run = Some e → Control.entries w !! e = Some en → Control.ctl en ≠ a.

Definition fresh (a : nat) (w : Control.World R) : Prop :=
  Control.ctls w !! a = None ∧ (∀ e en, Control.entries w !! e = Some en → Control.ctl en ≠ a) ∧
  (∀ r e, Control.ctlsByRunID w !! r = Some e → e ≠ Control.nextEntry w).

Lemma lockCurrentRun_current b (w : Control.World R) run e en :
  Control.ctlsByRunID w !! run = Some e → Control.entries w !! e = Some en → Control.closed w && negb b = false →
  Control.lockCurrentRun run b w = Some e.
Proof.
  intros He Hen Hb. unfold Control.lockCurrentRun, Control.revalidate, Control.lookupRun. by rewrite Hb, He, Hen, decide_True.
Qed.

Lemma Remove_installed now a sc (w : Control.World R) : installed a sc w → unowned a (Control.Remove now a w).2.
Proof.
  intros (e & en & c & He & Hen & Hctl & Hc & Hsc & Hid & Huniq & Hinj). assert (Control.runID c = Control.RunID sc) as Hrun by (unfold Control.runID; congruence).
  unfold Control.Remove. rewrite Hc. simpl. rewrite Hrun, (lockCurrentRun_current true w _ e en He Hen) by apply andb_false_r.
  unfold Control.removeBody. rewrite Hc, Hen, Hrun, He, bool_decide_eq_true_2 by done.
  unfold Control.owns. rewrite Hctl, Hid, bool_decide_eq_true_2, Z.eqb_refl by done. simpl.
  intros r e' en' Hr Hen' Heq. simpl in *. apply lookup_delete_Some in Hr as [Hne Hr].
  pose proof (Huniq _ _ Hen' Heq) as ->. apply Hinj in Hr. congruence.
Qed.

Lemma Remove_unowned now a w : unowned a w → unowned a (Control.Remove now a w).2.
Proof.
  intros Hu. unfold Control.Remove. destruct (_ ≫= _) as [e|]; [|done]. unfold Control.removeBody.
  repeat case_match; try done; (intros r e' en' Hr; simpl in *; apply lookup_delete_Some in Hr as [_ Hr]; by apply (Hu r)).
Qed.

Lemma Add_installed a c (w : Control.World R) r w1 :
  fresh a w → Control.Add a (Control.putControl a c w) = (r, w1) →
  (is_Ok r ∧ installed a (Control.sessionCtx c) w1) ∨ ((∃ e, r = Err e) ∧ unowned a w1).
Proof.
  intros (Hn & Hf & Hnx) Hadd. apply (Add_fresh a c) in Hadd; [|simpl; apply lookup_insert_eq|exact Hf].
  destruct Hadd as [(Hok & en & c1 & Hb & Hes & Hctl & Hc1 & Hid & Hsc & _)|(He & Hb & Hes)]; [left|right]; (split; [done|]).
  - simpl in Hb, Hes. exists (Control.nextEntry w), en, c1. rewrite Hb, Hes, <-Hsc. fold (Control.runID c).
    assert (Control.runID c = Control.RunID (Control.sessionCtx c1)) as Hrun by (unfold Control.runID; congruence).
    rewrite <-Hrun. split_and!; try done; try apply lookup_insert_eq.
    + intros e' en' [[<- <-]|[_ Hx]]%lookup_insert_Some Heq; [done|]. by apply Hf in Hx.
    + intros r' [[? _]|[_ Hx]]%lookup_insert_Some; [done|]. by apply Hnx in Hx.
  - intros run e en Hr Hen. rewrite Hes in Hen. by apply (Hf e).
Qed.

Lemma Activate_installed now a sc w x w1 :
  installed a sc w → Control.Activate now a w = (x, w1) → installed a sc w1.
Proof.
  intros Hin. pose proof Hin as (e & en & c & He & Hen & Hctl & Hc & Hsc & Hid & Huniq & Hinj).
  unfold Control.Activate. rewrite Hc. simpl.
  destruct (Control.closed w) eqn:Ecl.
  { unfold Control.lockCurrentRun, Control.lookupRun. rewrite Ecl. simpl. by intros [= _ <-]. }
  assert (Control.runID c = Control.RunID sc) as Hrun by (unfold Control.runID; congruence).
  rewrite Hrun, (lockCurrentRun_current false w _ e en He Hen) by (by rewrite Ecl).
  unfold Control.activateBody. rewrite Hc, Hen. destruct (_ || _); [by intros [= _ <-]|].
  destruct (negb _); [by intros [= _ <-]|]. destruct (Control.activated c); [by intros [= _ <-]|].
  destruct (register _ _ _) as [[] reg]; intros [= _ <-].
  - exists e, en, c. done.
  - exists e. do 2 eexists. simpl. split; [done|]. split; [apply lookup_insert_eq|]. split; [done|].
    split; [apply lookup_insert_eq|]. split_and!; try done.
    intros e' en' [[<- _]|[_ Hx]]%lookup_insert_Some Heq; [done|]. by apply (Huniq _ en').
Qed.

Lemma completeLogin_installed writeOk natOk a sc w b r w1 :
  installed a sc w → Control.completeLogin writeOk natOk a w = ((b, r), w1) →
  installed a sc w1 ∧ (b = true → r = Ok () ∧ ∃ c, Control.ctls w1 !! a = Some c ∧ Control.state c = Control.controlStateRunning).
Proof.
  intros Hin. pose proof Hin as (e & en & c & He & Hen & Hctl & Hc & Hsc & Hid & Huniq & Hinj).
  unfold Control.completeLogin. rewrite Hc. simpl. destruct (Control.lockCurrentRun _ _ _) as [e0|]; [|by intros [= <- <- <-]].
  unfold Control.completeLoginBody. rewrite Hc. destruct (Control.entries w !! e0) as [en0|]; [|by intros [= <- <- <-]].
  destruct (negb _); [by intros [= <- <- <-]|]. destruct (_ || _); [by intros [= <- <- <-]|].
  destruct (negb writeOk); [by intros [= <- <- <-]|]. unfold Control.startLocked.
  destruct (_ || _); [by intros [= <- <- <-]|]. destruct (_ && _); [by intros [= <- <- <-]|]. intros [= <- <- <-].
  split; [|intros _; split; [done|]; simpl; rewrite lookup_insert_eq; by eexists].
  exists e, en. eexists. simpl. do 3 (split; [done|]). split; [apply lookup_insert_eq|]. simpl. done.
Qed.

(** The outcomes of [RegisterControl] for a fresh control. *)
Lemma RegisterControl_cases now cfg p re ie m a w hc r w1 :
  fresh a w → RegisterControl now cfg p re ie m a w = ((hc, r), w1) →
  (r = Ok () ∧ ∃ m', checkLogin cfg p re m = Ok m' ∧ installed a (sessionOf cfg p m') w1) ∨
  (∃ e, r = Err e ∧ (unowned a w1 ∧ (hc = false → Control.ctls w1 !! a = None) ∨ hc = true ∧ ∃ sc, installed a sc w1)).
Proof.
  intros Hf. unfold RegisterControl.
  assert (unowned a w ∧ (false = false → Control.ctls w !! a = None)) as Hu by (split; [intros run e en _|intros _]; apply Hf).
  destruct (checkLogin cfg p re m) as [m'|]; [|intros [= <- <- <-]; right; eauto].
  destruct (Control.NewControl ie (sessionOf cfg p m')) as [c|] eqn:Enc; [|intros [= <- <- <-]; right; eauto].
  assert (Control.sessionCtx c = sessionOf cfg p m') as Hsc.
  { unfold Control.NewControl in Enc. repeat case_match; by simplify_eq. }
  destruct (Control.Add a (Control.putControl a c w)) as [ra w2] eqn:Ea.
  destruct (Add_installed a c w ra w2 Hf Ea) as [[[x ->] Hin]|[[e ->] Hun]]; [|intros [= <- <- <-]; right; eexists; split; [done|by left]].
  rewrite Hsc in Hin. destruct (Control.Activate now a w2) as [[b rb] w3] eqn:Eact.
  pose proof (Activate_installed _ _ _ _ _ _ Hin Eact) as Hin3.
  destruct b, rb; intros [= <- <- <-]; [left; eauto|right; eauto 10..].
Qed.

(** The control at [a] runs. *)
Definition running (a : nat) (w : Control.World R) : Prop :=
  ∃ c, Control.ctls w !! a = Some c ∧ Control.state c = Control.controlStateRunning.

Lemma Close_not_running c : Control.state (Control.Close c) ≠ Control.controlStateRunning.
Proof. unfold Control.Close, Control.finishLocked. simpl. destruct (Control.state c) eqn:E; simpl; congruence || done. Qed.

(** What is left when a login fails after or before its control was created. *)
Lemma fail_gone now a (hc : bool) w :
  (unowned a w ∧ (hc = false → Control.ctls w !! a = None) ∨ hc = true ∧ ∃ sc, installed a sc w) →
  let w1 := if hc then (Control.Remove now a w).2 else w in
  let w2 := match Control.ctls w1 !! a with
            | Some c => if hc then Control.putControl a (Control.Close c) w1 else w1
            | None => w1
            end in
  unowned a w2 ∧ ~ running a w2.
Proof.
  intros Hw. simpl. destruct hc.
  - assert (Hu : unowned a (Control.Remove now a w).2).
    { destruct Hw as [[Hu _]|[_ [sc Hin]]]; [by apply Remove_unowned|by eapply Remove_installed]. }
    destruct (Control.ctls (Control.Remove now a w).2 !! a) as [c|] eqn:Hc; (split; [exact Hu|]); intros (c' & Hc' & Hs); [|congruence].
    simpl in Hc'. rewrite lookup_insert_eq in Hc'. injection Hc' as <-. by apply (Close_not_running c).
  - destruct Hw as [[Hu Hn]|[? _]]; [|done]. rewrite Hn by done. split; [done|]. intros (c & Hc & _). by rewrite Hn in Hc.
Qed.

(** C2: A login is answered with success only after every check. If the client is told
    that it is logged in under a run id, then all login plugins accepted its message (as changed by
    those before), the run id is the one it asked for or a random one, is valid, the message is
    authenticated by the server's verifier (or the connection is internal and exempt), the wire
    protocol and UDP codec fit, hole punching was asked for only over TLS with token authentication
    on wire v2, and an external v2 connection has negotiated its cipher. *)
Theorem login_checked now cfg p cr co wo no re ie detail m a w rs w' run :
  fresh a w → handleLogin now cfg p cr co wo no re ie detail m a w = (rs, w') → LoginOk run ∈ rs →
  ∃ m1 m2, Plugin.passes (loginPlugins cfg) Plugin.OpLogin m m1 ∧
    (lRunID m1 ≠ EmptyString ∧ m2 = m1 ∨ lRunID m1 = EmptyString ∧ ∃ r, RandID re = Some r ∧ m2 = setRunID r m1) ∧
    run = lRunID m2 ∧ ValidateRunID run = true ∧ authenticated cfg p m2 ∧ codecAllowed p ∧
    (lXTCPBindingProtocol m2 ≠ EmptyString → lXTCPBindingProtocol m2 = Control.ALPN ∧ xtcpAllowed cfg p) ∧
    (internal p = false → wireProtocol p = Wire.ProtocolV2 → cr = true).
Proof.
  intros Hf Hh Hin. unfold handleLogin in Hh.
  assert (∀ t, LoginOk run ∉ [LoginError t]) as Hno by (by intros t ?%list_elem_of_singleton).
  destruct (Plugin.handleMutableContent _ _ m) as [m1|] eqn:Ep; [|injection Hh as <- _; by apply Hno in Hin].
  apply Plugin.handle_passes in Ep.
  destruct (if internal p then _ else _) as [[]|] eqn:Ec; [|injection Hh as <- _; by apply Hno in Hin].
  destruct (RegisterControl _ _ _ _ _ _ _ _) as [[hc r] w1] eqn:Er.
  destruct (RegisterControl_cases _ _ _ _ _ _ _ _ _ _ _ Hf Er) as [(-> & m2 & Hck & Hins)|(e & -> & _)];
    [|injection Hh as <- _; by apply Hno in Hin].
  exists m1, m2. apply checkLogin_Ok in Hck as (Hr & Hv & Ha & Hcd & Hx). split; [done|]. split; [done|].
  assert (run = lRunID m2) as ->.
  { destruct Hins as (e & en & c & _ & _ & _ & Hc & Hsc & _). rewrite Hc in Hh.
    assert (rs = (if successWritten wo a w1 then [LoginOk (Control.runID c)] else [])) as Hrs.
    { destruct (Control.completeLogin _ _ _ _) as [[[] []] ?]; simpl in Hh; by injection Hh. }
    rewrite Hrs in Hin. destruct (successWritten wo a w1); [|by apply not_elem_of_nil in Hin].
    apply list_elem_of_singleton in Hin. injection Hin as ->. unfold Control.runID. rewrite Hsc. done. }
  do 5 (split; [done|]). intros Hi Hw. rewrite Hi in Ec. unfold controlCrypto in Ec.
  rewrite Hw, bool_decide_eq_true_2 in Ec by done. by destruct cr.
Qed.

(** After a login the control runs and is current and no error was sent, or nothing
    leads to it and it does not run. *)
Lemma handleLogin_outcome now cfg p cr co wo no re ie detail m a w :
  fresh a w →
  let '(rs, w') := handleLogin now cfg p cr co wo no re ie detail m a w in
  unowned a w' ∧ ~ running a w' ∨ (∃ sc, installed a sc w') ∧ running a w' ∧ ∀ text, LoginError text ∉ rs.
Proof.
  intros Hf. assert (unowned a w) as Hu by (intros run e en _; apply Hf). assert (Control.ctls w !! a = None) as Hn by apply Hf.
  unfold handleLogin.
  destruct (Plugin.handleMutableContent _ _ m) as [m1|]; [|left; by apply (fail_gone now a false); left].
  destruct (if internal p then _ else _) as [[]|]; [|left; by apply (fail_gone now a false); left].
  destruct (RegisterControl _ _ _ _ _ _ _ _) as [[hc r] w1] eqn:Er.
  destruct (RegisterControl_cases _ _ _ _ _ _ _ _ _ _ _ Hf Er) as [(-> & m2 & _ & Hins)|(e & -> & Hcase)];
    [|left; by apply (fail_gone now a hc)].
  destruct (Control.completeLogin wo no a w1) as [[b rb] w2] eqn:Ec.
  destruct (completeLogin_installed _ _ _ _ _ _ _ _ Hins Ec) as [Hins2 Hrun].
  destruct b.
  { destruct (Hrun eq_refl) as [-> Hr]. right. split; [by eexists|]. split; [exact Hr|]. intros text.
    destruct (successWritten wo a w1); [intros ?%list_elem_of_singleton|intros ?%elem_of_nil]; done. }
  left. by apply (fail_gone now a true); right; split; [|eexists].
Qed.

(** A login leaves no half-registered control. After the login of a fresh control
    either it runs and is the current control of its run id, or no run id leads to it, whichever
    check, write or registration failed. *)
Theorem login_all_or_nothing now cfg p cr co wo no re ie detail m a w :
  fresh a w →
  let w' := (handleLogin now cfg p cr co wo no re ie detail m a w).2 in
  unowned a w' ∨
  ∃ sc c, installed a sc w' ∧ Control.ctls w' !! a = Some c ∧ Control.state c = Control.controlStateRunning.
Proof.
  intros Hf. pose proof (handleLogin_outcome now cfg p cr co wo no re ie detail m a w Hf) as Ho.
  destruct (handleLogin _ _ _ _ _ _ _ _ _ _ _ _ _) as [rs w1]. simpl.
  destruct Ho as [[Hu _]|([sc Hin] & (c & Hc & Hs) & _)]; [by left|right; by exists sc, c].
Qed.

(** The outcome of a work connection. *)
Lemma RegisterWorkConn_outcome v plugins run m conn wp hello w r w' :
  RegisterWorkConn v plugins run m conn wp hello w = (r, w') →
  match r with
  | Err _ => ∀ a, Control.ctls w' !! a = Control.ctls w !! a
  | Ok _ => hello = false ∧ ∃ a c m', Control.GetByID run w = Some a ∧ Control.ctls w !! a = Some c ∧
      Control.state c = Control.controlStateRunning ∧ wp = Control.WireProtocol (Control.sessionCtx c) ∧
      Plugin.passes plugins Plugin.OpNewWorkConn m m' ∧ Auth.verifyNewWorkConn md5hex v m' = Ok () ∧
      ∃ c', Control.ctls w' !! a = Some c' ∧
        Control.buf (Control.workConnCh c') = Control.buf (Control.workConnCh c) ++ [conn]
  end.
Proof.
  unfold RegisterWorkConn. intros Hr. destruct hello; [injection Hr as <- <-; done|].
  destruct (Control.GetByID run w) as [a|] eqn:Eg; [|injection Hr as <- <-; done].
  destruct (Control.ctls w !! a) as [c|] eqn:Ec; [|injection Hr as <- <-; done].
  destruct (bool_decide _) eqn:Ew in Hr; [|injection Hr as <- <-; done]. bool_to_prop. simpl in Hr.
  destruct (Plugin.handleMutableContent plugins _ m) as [m'|] eqn:Ep; [|injection Hr as <- <-; done].
  destruct (Auth.verifyNewWorkConn md5hex v m') as [[]|] eqn:Ea; [|injection Hr as <- <-; done].
  apply Plugin.handle_passes in Ep.
  unfold Control.RegisterWorkConn in Hr. rewrite Ec in Hr.
  destruct (Control.lockCurrentRun _ _ w) as [e|]; [|simpl in Hr; injection Hr as <- <-; done].
  unfold Control.workConnBody in Hr. rewrite Ec in Hr.
  destruct (Control.entries w !! e) as [en|]; [|injection Hr as <- <-; done].
  destruct (negb (Control.owns a c en)); [injection Hr as <- <-; done|].
  destruct (bool_decide (Control.state c = _)) eqn:Es; [|injection Hr as <- <-; done]. bool_to_prop. simpl in Hr.
  destruct (Control.chClosed _); [injection Hr as <- <-; done|]. destruct (_ <? _)%Z eqn:Ecap; [|injection Hr as <- <-; done].
  injection Hr as <- <-. split; [done|]. exists a, c, m'. split_and!; try done. eexists. simpl.
  split; [apply lookup_insert_eq|done].
Qed.

(** A work connection joins a pool only when it may. If it is accepted, it had no
    ClientHello, the run id named a control that is running and speaks the same wire protocol, the
    plugins accepted the message and the control's verifier the plugins' version of it; otherwise
    nothing changes. *)
Theorem work_conn_checked v plugins run m conn wp hello w r w' :
  RegisterWorkConn v plugins run m conn wp hello w = (r, w') →
  match r with
  | Err _ => ∀ a, Control.ctls w' !! a = Control.ctls w !! a
  | Ok _ => hello = false ∧ ∃ a c m', Control.GetByID run w = Some a ∧ Control.ctls w !! a = Some c ∧
      Control.state c = Control.controlStateRunning ∧ wp = Control.WireProtocol (Control.sessionCtx c) ∧
      Plugin.passes plugins Plugin.OpNewWorkConn m m' ∧ Auth.verifyNewWorkConn md5hex v m' = Ok () ∧
      ∃ c', Control.ctls w' !! a = Some c' ∧
        Control.buf (Control.workConnCh c') = Control.buf (Control.workConnCh c) ++ [conn]
  end.
Proof. apply RegisterWorkConn_outcome. Qed.
End service.

(** ** Witnesses *)
Definition demoCfg : Config :=
  mkConfig (Auth.TokenVerifier (Auth.mkTokenAuth [] "t")) true (ofString "k") true 5 [] false.
Definition demoPeer : Peer := mkPeer false true "v2" "" "ip".
Definition demoLogin : Login := mkLogin "v" "h" "u" (Visitor.GetAuthKey id "t" 7) 7 "run1" "" 1 false "".
Definition demoW : Control.World Registry.ClientRegistry := Control.NewControlManager Registry.NewClientRegistry.
Definition demoHandle := handleLogin id (λ _, true) 9 demoCfg demoPeer true true true true None None (λ _, EmptyString) demoLogin 0%nat demoW.

Lemma demo_fresh : fresh 0 demoW.
Proof. split; [done|]. split; intros * Hx; vm_compute in Hx; discriminate. Qed.

Lemma login_checked_witness : ValidateRunID (λ _, true) "run1" = true.
Proof.
  destruct (login_checked id (λ _, true) 9 demoCfg demoPeer true true true true None None (λ _, EmptyString) demoLogin 0%nat demoW
    [LoginOk "run1"] demoHandle.2 "run1" demo_fresh) as (m1 & m2 & _ & _ & _ & H & _);
    [vm_compute; reflexivity|left|exact H].
Defined.

Lemma login_all_or_nothing_witness :
  unowned 0 demoHandle.2 ∨ ∃ sc c, installed 0 sc demoHandle.2 ∧ Control.ctls demoHandle.2 !! 0%nat = Some c ∧
    Control.state c = Control.controlStateRunning.
Proof.
  apply (login_all_or_nothing id (λ _, true) 9 demoCfg demoPeer true true true true None None (λ _, EmptyString) demoLogin 0%nat demoW).
  exact demo_fresh.
Defined.

Lemma work_conn_checked_witness : @Wire.ProtocolV2 = "v2" ∧ ∃ a, Control.GetByID "run1" demoHandle.2 = Some a.
Proof.
  split; [reflexivity|].
  pose proof (work_conn_checked id Auth.AlwaysPass [] "run1" (Auth.mkSigned 0 "") 3 "v2" false demoHandle.2 (Ok ())
    (RegisterWorkConn id Auth.AlwaysPass [] "run1" (Auth.mkSigned 0 "") 3 "v2" false demoHandle.2).2) as H.
  destruct H as (_ & a & c & m' & Hg & _); [vm_compute; reflexivity|]. exists a. exact Hg.
Defined.
End Service.
