(* ===== verification/Config.v ===== *)
(** * Configurations of proxies and visitors: [pkg/config/v1], [pkg/config/load.go]

    A client describes a proxy by a [ProxyConfigurer], sends it to the server as
    a [NewProxy] message and the server rebuilds a configurer from the message,
    completes and validates it.  This file models the configurers, that way from
    one side to the other, and the validation of both sides. *)
From S2P Require Import Prelude Chars Vhost.

Module Config.

(** A Go map with string keys and values; [nil] and the empty map are one value. *)
Abbreviation smap := (gmap string string).

(** ** Bandwidth quantities: [pkg/config/types/types.go] *)

Definition MB : Z := 1024 * 1024.
Definition KB : Z := 1024.
Definition BandwidthLimitModeClient : string := "client".
Definition BandwidthLimitModeServer : string := "server".

(** [text] is the field [s], [amount] the field [i]. *)
Record BandwidthQuantity := mkQuantity { text : chars; amount : Z }.
#[global] Instance BandwidthQuantity_eq_dec : EqDecision BandwidthQuantity.
Proof. solve_decision. Defined.

Definition zeroQuantity : BandwidthQuantity := mkQuantity [] 0.

Inductive quantityError := ErrUnit | ErrFloat.

(** [strings.CutSuffix] *)
Definition CutSuffix (suf l : chars) : option chars :=
  if decide (suf `suffix_of` l) then Some (take (length l - length suf) l) else None.

(** [parseQuantity f base] is [int64(v * float64(base))] for the value [v] that
    [strconv.ParseFloat] reads from [f], [None] when it fails. *)
Definition UnmarshalString (parseQuantity : chars → Z → option Z) (q : BandwidthQuantity) (s : chars)
  : res quantityError BandwidthQuantity :=
  let s := TrimSpace s in
  match s with
  | [] => Ok q
  | _ =>
      let parsed (fstr : chars) (base : Z) :=
        match parseQuantity fstr base with Some i => Ok (mkQuantity s i) | None => Err ErrFloat end in
      match CutSuffix (ofStr "MB") s with
      | Some fstr => parsed fstr MB
      | None => match CutSuffix (ofStr "KB") s with Some fstr => parsed fstr KB | None => Err ErrUnit end
      end
  end.

Definition NewBandwidthQuantity (parseQuantity : chars → Z → option Z) (s : chars) : res quantityError BandwidthQuantity :=
  UnmarshalString parseQuantity zeroQuantity s.

(** ** Configurations *)

Record ProxyTransport := mkTransport {
  UseEncryption : bool; UseCompression : bool; BandwidthLimit : BandwidthQuantity;
  BandwidthLimitMode : string; ProxyProtocolVersion : string }.

Record LoadBalancerConfig := mkLoadBalancer { Group : string; GroupKey : string }.

Record HTTPHeader := mkHeader { hName : string; hValue : string }.

Record HealthCheckConfig := mkHealthCheck {
  hcType : string; TimeoutSeconds : Z; MaxFailed : Z; IntervalSeconds : Z; hcPath : string; HTTPHeaders : list HTTPHeader }.

Record HeaderOperations := mkHeaderOperations { Set_ : smap }.
Record NatTraversalConfig := mkNatTraversal { DisableAssistedAddrs : bool }.

#[global] Instance ProxyTransport_eq_dec : EqDecision ProxyTransport. Proof. solve_decision. Defined.
#[global] Instance LoadBalancerConfig_eq_dec : EqDecision LoadBalancerConfig. Proof. solve_decision. Defined.
#[global] Instance HTTPHeader_eq_dec : EqDecision HTTPHeader. Proof. solve_decision. Defined.
#[global] Instance HealthCheckConfig_eq_dec : EqDecision HealthCheckConfig. Proof. solve_decision. Defined.
#[global] Instance HeaderOperations_eq_dec : EqDecision HeaderOperations. Proof. solve_decision. Defined.
#[global] Instance NatTraversalConfig_eq_dec : EqDecision NatTraversalConfig. Proof. solve_decision. Defined.

(** [ClientPluginOptions]; the first field of each is its [Type]. *)
Inductive ClientPluginOptions :=
| HTTP2HTTPSPluginOptions (type localAddr hostHeaderRewrite : string) (requestHeaders : HeaderOperations)
| HTTPProxyPluginOptions (type httpUser httpPassword : string)
| HTTPS2HTTPPluginOptions (type localAddr hostHeaderRewrite : string) (requestHeaders : HeaderOperations)
    (enableHTTP2 : option bool) (crtPath keyPath : string)
| HTTPS2HTTPSPluginOptions (type localAddr hostHeaderRewrite : string) (requestHeaders : HeaderOperations)
    (enableHTTP2 : option bool) (crtPath keyPath : string)
| HTTP2HTTPPluginOptions (type localAddr hostHeaderRewrite : string) (requestHeaders : HeaderOperations)
| Socks5PluginOptions (type username password : string)
| StaticFilePluginOptions (type localPath stripPrefix httpUser httpPassword : string)
| UnixDomainSocketPluginOptions (type unixPath : string)
| TLS2RawPluginOptions (type localAddr crtPath keyPath : string)
| VirtualNetPluginOptions (type : string).

Record TypedClientPluginOptions := mkPlugin { pluginType : string; pluginOptions : option ClientPluginOptions }.

#[global] Instance ClientPluginOptions_eq_dec : EqDecision ClientPluginOptions. Proof. solve_decision. Defined.
#[global] Instance TypedClientPluginOptions_eq_dec : EqDecision TypedClientPluginOptions. Proof. solve_decision. Defined.

(** [ProxyBackend] is embedded: its three fields are the last ones. *)
Record ProxyBaseConfig := mkBase {
  Name : string; Type_ : string; Enabled : option bool; Annotations : smap; Transport : ProxyTransport;
  Metadatas : smap; LoadBalancer : LoadBalancerConfig; HealthCheck : HealthCheckConfig;
  LocalIP : string; LocalPort : Z; Plugin : TypedClientPluginOptions }.

Record DomainConfig := mkDomain { CustomDomains : list string; SubDomain : string }.

Inductive ProxyConfigurer :=
| TCPProxyConfig (b : ProxyBaseConfig) (remotePort : Z)
| UDPProxyConfig (b : ProxyBaseConfig) (remotePort : Z)
| HTTPProxyConfig (b : ProxyBaseConfig) (d : DomainConfig) (locations : list string)
    (httpUser httpPassword hostHeaderRewrite : string) (requestHeaders responseHeaders : HeaderOperations)
    (routeByHTTPUser : string)
| HTTPSProxyConfig (b : ProxyBaseConfig) (d : DomainConfig)
| TCPMuxProxyConfig (b : ProxyBaseConfig) (d : DomainConfig) (httpUser httpPassword routeByHTTPUser multiplexer : string)
| STCPProxyConfig (b : ProxyBaseConfig) (secretkey : string) (allowUsers : list string)
| XTCPProxyConfig (b : ProxyBaseConfig) (secretkey : string) (allowUsers : list string)
    (natTraversal : option NatTraversalConfig)
| SUDPProxyConfig (b : ProxyBaseConfig) (secretkey : string) (allowUsers : list string).

#[global] Instance ProxyBaseConfig_eq_dec : EqDecision ProxyBaseConfig. Proof. solve_decision. Defined.
#[global] Instance DomainConfig_eq_dec : EqDecision DomainConfig. Proof. solve_decision. Defined.
#[global] Instance ProxyConfigurer_eq_dec : EqDecision ProxyConfigurer. Proof. solve_decision. Defined.

Definition GetBaseConfig (c : ProxyConfigurer) : ProxyBaseConfig :=
  match c with
  | TCPProxyConfig b _ | UDPProxyConfig b _ | HTTPProxyConfig b _ _ _ _ _ _ _ _ | HTTPSProxyConfig b _
  | TCPMuxProxyConfig b _ _ _ _ _ | STCPProxyConfig b _ _ | XTCPProxyConfig b _ _ _ | SUDPProxyConfig b _ _ => b
  end.

Definition setBase (b : ProxyBaseConfig) (c : ProxyConfigurer) : ProxyConfigurer :=
  match c with
  | TCPProxyConfig _ p => TCPProxyConfig b p
  | UDPProxyConfig _ p => UDPProxyConfig b p
  | HTTPProxyConfig _ d l u p h q r t => HTTPProxyConfig b d l u p h q r t
  | HTTPSProxyConfig _ d => HTTPSProxyConfig b d
  | TCPMuxProxyConfig _ d u p r m => TCPMuxProxyConfig b d u p r m
  | STCPProxyConfig _ s a => STCPProxyConfig b s a
  | XTCPProxyConfig _ s a n => XTCPProxyConfig b s a n
  | SUDPProxyConfig _ s a => SUDPProxyConfig b s a
  end.

Definition ProxyTypeTCP : string := "tcp".
Definition ProxyTypeUDP : string := "udp".
Definition ProxyTypeTCPMUX : string := "tcpmux".
Definition ProxyTypeHTTP : string := "http".
Definition ProxyTypeHTTPS : string := "https".
Definition ProxyTypeSTCP : string := "stcp".
Definition ProxyTypeXTCP : string := "xtcp".
Definition ProxyTypeSUDP : string := "sudp".

(** The name [proxyConfigTypeMap] has for the dynamic type of a configurer. *)
Definition typeName (c : ProxyConfigurer) : string :=
  match c with
  | TCPProxyConfig _ _ => ProxyTypeTCP
  | UDPProxyConfig _ _ => ProxyTypeUDP
  | HTTPProxyConfig _ _ _ _ _ _ _ _ _ => ProxyTypeHTTP
  | HTTPSProxyConfig _ _ => ProxyTypeHTTPS
  | TCPMuxProxyConfig _ _ _ _ _ _ => ProxyTypeTCPMUX
  | STCPProxyConfig _ _ _ => ProxyTypeSTCP
  | XTCPProxyConfig _ _ _ _ => ProxyTypeXTCP
  | SUDPProxyConfig _ _ _ => ProxyTypeSUDP
  end.

Definition zeroTransport : ProxyTransport := mkTransport false false zeroQuantity EmptyString EmptyString.
Definition zeroBase : ProxyBaseConfig :=
  mkBase EmptyString EmptyString None ∅ zeroTransport ∅ (mkLoadBalancer EmptyString EmptyString)
    (mkHealthCheck EmptyString 0 0 0 EmptyString []) EmptyString 0 (mkPlugin EmptyString None).

(** [proxyConfigTypeMap] with the zero value of each type. *)
Definition proxyConfigTypeMap : list (string * (ProxyBaseConfig → ProxyConfigurer)) :=
  let d := mkDomain [] EmptyString in let h := mkHeaderOperations ∅ in let e := EmptyString in
  [ (ProxyTypeTCP, λ b, TCPProxyConfig b 0); (ProxyTypeUDP, λ b, UDPProxyConfig b 0);
    (ProxyTypeHTTP, λ b, HTTPProxyConfig b d [] e e e h h e); (ProxyTypeHTTPS, λ b, HTTPSProxyConfig b d);
    (ProxyTypeTCPMUX, λ b, TCPMuxProxyConfig b d e e e e); (ProxyTypeSTCP, λ b, STCPProxyConfig b e []);
    (ProxyTypeXTCP, λ b, XTCPProxyConfig b e [] None); (ProxyTypeSUDP, λ b, SUDPProxyConfig b e []) ].

Fixpoint assoc {A} (k : string) (l : list (string * A)) : option A :=
  match l with [] => None | (k', a) :: l => if decide (k = k') then Some a else assoc k l end.

Definition setType (t : string) (b : ProxyBaseConfig) : ProxyBaseConfig :=
  mkBase (Name b) t (Enabled b) (Annotations b) (Transport b) (Metadatas b) (LoadBalancer b) (HealthCheck b)
    (LocalIP b) (LocalPort b) (Plugin b).

Definition NewProxyConfigurerByType (t : string) : option ProxyConfigurer :=
  (λ mk, mk (setType t zeroBase)) <$> assoc t proxyConfigTypeMap.

(** ** Defaults *)

(** [util.EmptyOr] *)
Definition EmptyOr {A} `{EqDecision A} (zero v fallback : A) : A := if decide (zero = v) then fallback else v.

Definition completePlugin (o : ClientPluginOptions) : ClientPluginOptions :=
  match o with
  | HTTPS2HTTPPluginOptions t l h r e c k => HTTPS2HTTPPluginOptions t l h r (EmptyOr None e (Some true)) c k
  | HTTPS2HTTPSPluginOptions t l h r e c k => HTTPS2HTTPSPluginOptions t l h r (EmptyOr None e (Some true)) c k
  | _ => o
  end.

Definition completeBase (b : ProxyBaseConfig) : ProxyBaseConfig :=
  let t := Transport b in
  mkBase (Name b) (Type_ b) (Enabled b) (Annotations b)
    (mkTransport (UseEncryption t) (UseCompression t) (BandwidthLimit t)
       (EmptyOr EmptyString (BandwidthLimitMode t) BandwidthLimitModeClient) (ProxyProtocolVersion t))
    (Metadatas b) (LoadBalancer b) (HealthCheck b) (EmptyOr EmptyString (LocalIP b) "127.0.0.1"%string) (LocalPort b)
    (mkPlugin (pluginType (Plugin b)) (completePlugin <$> pluginOptions (Plugin b))).

(** All types of proxies use the method of the base configuration. *)
Definition Complete (c : ProxyConfigurer) : ProxyConfigurer := setBase (completeBase (GetBaseConfig c)) c.

(** ** Visitors *)

Record VisitorTransport := mkVisitorTransport { vUseEncryption : bool; vUseCompression : bool }.

(** [VisitorPluginOptions] has one type. *)
Inductive VisitorPluginOptions := VirtualNetVisitorPluginOptions (type destinationIP : string).
Record TypedVisitorPluginOptions := mkVisitorPlugin { vPluginType : string; vPluginOptions : option VisitorPluginOptions }.

Record VisitorBaseConfig := mkVisitorBase {
  vName : string; vType : string; vEnabled : option bool; vTransport : VisitorTransport; SecretKey : string;
  ServerUser : string; ServerName : string; BindAddr : string; BindPort : Z; vPlugin : TypedVisitorPluginOptions }.

Inductive VisitorConfigurer :=
| STCPVisitorConfig (b : VisitorBaseConfig)
| SUDPVisitorConfig (b : VisitorBaseConfig)
| XTCPVisitorConfig (b : VisitorBaseConfig) (protocol : string) (keepTunnelOpen : bool)
    (maxRetriesAnHour minRetryInterval : Z) (fallbackTo : string) (fallbackTimeoutMs : Z)
    (natTraversal : option NatTraversalConfig).

#[global] Instance VisitorTransport_eq_dec : EqDecision VisitorTransport. Proof. solve_decision. Defined.
#[global] Instance VisitorPluginOptions_eq_dec : EqDecision VisitorPluginOptions. Proof. solve_decision. Defined.
#[global] Instance TypedVisitorPluginOptions_eq_dec : EqDecision TypedVisitorPluginOptions. Proof. solve_decision. Defined.
#[global] Instance VisitorBaseConfig_eq_dec : EqDecision VisitorBaseConfig. Proof. solve_decision. Defined.
#[global] Instance VisitorConfigurer_eq_dec : EqDecision VisitorConfigurer. Proof. solve_decision. Defined.

Definition vBase (c : VisitorConfigurer) : VisitorBaseConfig :=
  match c with STCPVisitorConfig b | SUDPVisitorConfig b | XTCPVisitorConfig b _ _ _ _ _ _ _ => b end.

Definition completeVisitorBase (b : VisitorBaseConfig) : VisitorBaseConfig :=
  mkVisitorBase (vName b) (vType b) (vEnabled b) (vTransport b) (SecretKey b) (ServerUser b) (ServerName b)
    (if decide (BindAddr b = EmptyString) then "127.0.0.1"%string else BindAddr b) (BindPort b) (vPlugin b).

Definition completeVisitor (c : VisitorConfigurer) : VisitorConfigurer :=
  match c with
  | STCPVisitorConfig b => STCPVisitorConfig (completeVisitorBase b)
  | SUDPVisitorConfig b => SUDPVisitorConfig (completeVisitorBase b)
  | XTCPVisitorConfig b p k r i f t n =>
      XTCPVisitorConfig (completeVisitorBase b) (EmptyOr EmptyString p "quic"%string) k (EmptyOr 0 r 8) (EmptyOr 0 i 90) f
        (EmptyOr 0 t 1000) n
  end.

(** ** The message of a proxy: [msg.NewProxy] *)

Record NewProxy := mkNewProxy {
  mProxyName : string; mProxyType : string; mUseEncryption : bool; mUseCompression : bool; mBandwidthLimit : chars;
  mBandwidthLimitMode : string; mGroup : string; mGroupKey : string; mMetas : smap; mAnnotations : smap;
  mRemotePort : Z; mCustomDomains : list string; mSubDomain : string; mLocations : list string; mHTTPUser : string;
  mHTTPPwd : string; mHostHeaderRewrite : string; mHeaders : smap; mResponseHeaders : smap; mRouteByHTTPUser : string;
  mSk : string; mAllowUsers : list string; mMultiplexer : string }.

Definition zeroMsg : NewProxy :=
  let e := EmptyString in mkNewProxy e e false false [] e e e ∅ ∅ 0 [] e [] e e e ∅ ∅ e e [] e.

Definition marshalBase (b : ProxyBaseConfig) (m : NewProxy) : NewProxy :=
  let t := Transport b in
  mkNewProxy (Name b) (Type_ b) (UseEncryption t) (UseCompression t) (text (BandwidthLimit t))
    (if decide (BandwidthLimitMode t = "client") then mBandwidthLimitMode m else BandwidthLimitMode t)
    (Group (LoadBalancer b)) (GroupKey (LoadBalancer b)) (Metadatas b) (Annotations b)
    (mRemotePort m) (mCustomDomains m) (mSubDomain m) (mLocations m) (mHTTPUser m) (mHTTPPwd m) (mHostHeaderRewrite m)
    (mHeaders m) (mResponseHeaders m) (mRouteByHTTPUser m) (mSk m) (mAllowUsers m) (mMultiplexer m).

Definition setMsgType (t : string) (m : NewProxy) : NewProxy :=
  mkNewProxy (mProxyName m) t (mUseEncryption m) (mUseCompression m) (mBandwidthLimit m)
    (mBandwidthLimitMode m) (mGroup m) (mGroupKey m) (mMetas m) (mAnnotations m)
    (mRemotePort m) (mCustomDomains m) (mSubDomain m) (mLocations m) (mHTTPUser m) (mHTTPPwd m) (mHostHeaderRewrite m)
    (mHeaders m) (mResponseHeaders m) (mRouteByHTTPUser m) (mSk m) (mAllowUsers m) (mMultiplexer m).

Definition setRemotePort (p : Z) (m : NewProxy) : NewProxy :=
  mkNewProxy (mProxyName m) (mProxyType m) (mUseEncryption m) (mUseCompression m) (mBandwidthLimit m)
    (mBandwidthLimitMode m) (mGroup m) (mGroupKey m) (mMetas m) (mAnnotations m)
    p (mCustomDomains m) (mSubDomain m) (mLocations m) (mHTTPUser m) (mHTTPPwd m) (mHostHeaderRewrite m)
    (mHeaders m) (mResponseHeaders m) (mRouteByHTTPUser m) (mSk m) (mAllowUsers m) (mMultiplexer m).

Definition setSecret (sk : string) (users : list string) (m : NewProxy) : NewProxy :=
  mkNewProxy (mProxyName m) (mProxyType m) (mUseEncryption m) (mUseCompression m) (mBandwidthLimit m)
    (mBandwidthLimitMode m) (mGroup m) (mGroupKey m) (mMetas m) (mAnnotations m)
    (mRemotePort m) (mCustomDomains m) (mSubDomain m) (mLocations m) (mHTTPUser m) (mHTTPPwd m) (mHostHeaderRewrite m)
    (mHeaders m) (mResponseHeaders m) (mRouteByHTTPUser m) sk users (mMultiplexer m).

Definition setDomains (d : DomainConfig) (m : NewProxy) : NewProxy :=
  mkNewProxy (mProxyName m) (mProxyType m) (mUseEncryption m) (mUseCompression m) (mBandwidthLimit m)
    (mBandwidthLimitMode m) (mGroup m) (mGroupKey m) (mMetas m) (mAnnotations m)
    (mRemotePort m) (CustomDomains d) (SubDomain d) (mLocations m) (mHTTPUser m) (mHTTPPwd m) (mHostHeaderRewrite m)
    (mHeaders m) (mResponseHeaders m) (mRouteByHTTPUser m) (mSk m) (mAllowUsers m) (mMultiplexer m).

Definition setHTTP (l : list string) (u p h : string) (hs rs : smap) (r : string) (m : NewProxy) : NewProxy :=
  mkNewProxy (mProxyName m) (mProxyType m) (mUseEncryption m) (mUseCompression m) (mBandwidthLimit m)
    (mBandwidthLimitMode m) (mGroup m) (mGroupKey m) (mMetas m) (mAnnotations m)
    (mRemotePort m) (mCustomDomains m) (mSubDomain m) l u p h hs rs r (mSk m) (mAllowUsers m) (mMultiplexer m).

Definition setMux (u p r mux : string) (m : NewProxy) : NewProxy :=
  mkNewProxy (mProxyName m) (mProxyType m) (mUseEncryption m) (mUseCompression m) (mBandwidthLimit m)
    (mBandwidthLimitMode m) (mGroup m) (mGroupKey m) (mMetas m) (mAnnotations m)
    (mRemotePort m) (mCustomDomains m) (mSubDomain m) (mLocations m) u p (mHostHeaderRewrite m)
    (mHeaders m) (mResponseHeaders m) r (mSk m) (mAllowUsers m) mux.

Definition MarshalToMsg (c : ProxyConfigurer) (m : NewProxy) : NewProxy :=
  let m := marshalBase (GetBaseConfig c) m in
  match c with
  | TCPProxyConfig _ p | UDPProxyConfig _ p => setRemotePort p m
  | HTTPProxyConfig _ d l u p h q r t => setHTTP l u p h (Set_ q) (Set_ r) t (setDomains d m)
  | HTTPSProxyConfig _ d => setDomains d m
  | TCPMuxProxyConfig _ d u p r mux => setMux u p r mux (setDomains d m)
  | STCPProxyConfig _ s a | XTCPProxyConfig _ s a _ | SUDPProxyConfig _ s a => setSecret s a m
  end.

Section messages.
Context (parseQuantity : chars → Z → option Z).

(** [types.NewBandwidthQuantity] returns the zero quantity with its errors. *)
Definition quantityOf (s : chars) : BandwidthQuantity :=
  match NewBandwidthQuantity parseQuantity s with Ok q => q | Err _ => zeroQuantity end.

Definition unmarshalBase (b : ProxyBaseConfig) (m : NewProxy) : ProxyBaseConfig :=
  let t := Transport b in
  mkBase (mProxyName m) (mProxyType m) (Enabled b) (mAnnotations m)
    (mkTransport (mUseEncryption m) (mUseCompression m)
       (if decide (mBandwidthLimit m = []) then BandwidthLimit t else quantityOf (mBandwidthLimit m))
       (if decide (mBandwidthLimitMode m = EmptyString) then BandwidthLimitMode t else mBandwidthLimitMode m)
       (ProxyProtocolVersion t))
    (mMetas m) (mkLoadBalancer (mGroup m) (mGroupKey m)) (HealthCheck b) (LocalIP b) (LocalPort b) (Plugin b).

Definition UnmarshalFromMsg (c : ProxyConfigurer) (m : NewProxy) : ProxyConfigurer :=
  let b := unmarshalBase (GetBaseConfig c) m in
  let d := mkDomain (mCustomDomains m) (mSubDomain m) in
  match c with
  | TCPProxyConfig _ _ => TCPProxyConfig b (mRemotePort m)
  | UDPProxyConfig _ _ => UDPProxyConfig b (mRemotePort m)
  | HTTPProxyConfig _ _ _ _ _ _ _ _ _ =>
      HTTPProxyConfig b d (mLocations m) (mHTTPUser m) (mHTTPPwd m) (mHostHeaderRewrite m)
        (mkHeaderOperations (mHeaders m)) (mkHeaderOperations (mResponseHeaders m)) (mRouteByHTTPUser m)
  | HTTPSProxyConfig _ _ => HTTPSProxyConfig b d
  | TCPMuxProxyConfig _ _ _ _ _ _ =>
      TCPMuxProxyConfig b d (mHTTPUser m) (mHTTPPwd m) (mRouteByHTTPUser m) (mMultiplexer m)
  | STCPProxyConfig _ _ _ => STCPProxyConfig b (mSk m) (mAllowUsers m)
  | XTCPProxyConfig _ _ _ n => XTCPProxyConfig b (mSk m) (mAllowUsers m) n
  | SUDPProxyConfig _ _ _ => SUDPProxyConfig b (mSk m) (mAllowUsers m)
  end.
End messages.

(** ** Validation: [pkg/config/v1/validation] *)

Inductive error :=
| ErrNameEmpty | ErrAnnotations (msgs : list string) | ErrProxyProtocol | ErrBandwidthMode | ErrPort (field : string)
| ErrHealthType | ErrHealthPath | ErrPluginField (field : string) | ErrNoDomain | ErrCustomDomain (domain : string)
| ErrSubdomainDisabled | ErrSubdomainChars | ErrMultiplexer | ErrMuxDisabled | ErrHTTPDisabled | ErrHTTPSDisabled
| ErrUnknownType (t : string) | ErrServerName | ErrBindPort | ErrFallback | ErrProtocol.

(** The fields of [v1.ServerConfig] that decide about proxies. *)
Record ServerConfig := mkServerConfig {
  SubDomainHost : string; VhostHTTPPort : Z; VhostHTTPSPort : Z; TCPMuxHTTPConnectPort : Z }.

Definition ValidatePort (port : Z) (field : string) : res error unit :=
  if (0 <=? port) && (port <=? 65535) then Ok () else Err (ErrPort field).

Definition ValidateClientPluginOptions (o : option ClientPluginOptions) : res error unit :=
  let required (v field : string) := if decide (v = EmptyString) then Err (ErrPluginField field) else Ok () in
  match o with
  | Some (HTTP2HTTPSPluginOptions _ localAddr _ _) => required localAddr "localAddr"
  | Some (HTTPS2HTTPPluginOptions _ localAddr _ _ _ _ _) => required localAddr "localAddr"
  | Some (HTTPS2HTTPSPluginOptions _ localAddr _ _ _ _ _) => required localAddr "localAddr"
  | Some (StaticFilePluginOptions _ localPath _ _ _) => required localPath "localPath"
  | Some (UnixDomainSocketPluginOptions _ unixPath) => required unixPath "unixPath"
  | Some (TLS2RawPluginOptions _ localAddr _ _) => required localAddr "localAddr"
  | _ => Ok ()
  end%string.

Definition TotalAnnotationSizeLimitB : Z := 256 * 2 ^ 10.

Definition annotationsSize (a : smap) : Z :=
  foldl (λ t kv, int64 (t + (Z.of_nat (String.length kv.1) + Z.of_nat (String.length kv.2)))) 0 (map_to_list a).

Definition ValidateAnnotationsSize (a : smap) : bool := annotationsSize a <=? TotalAnnotationSizeLimitB.

(** [strings.Contains] of one character, and [strings.HasSuffix]. *)
Definition ContainsChar (x : ascii) (s : string) : bool := bool_decide (x ∈ ofStr s).
Definition HasSuffix (s suf : string) : bool := bool_decide (ofStr suf `suffix_of` ofStr s).
Definition labels (s : string) : nat := length (Split "." (ofStr s)).

Definition customDomainOk (s : ServerConfig) (domain : string) : bool :=
  let subDomainHost := Vhost.ToLower (SubDomainHost s) in
  let canonicalDomain := Vhost.ToLower domain in
  negb (negb (bool_decide (subDomainHost = EmptyString)) && (labels subDomainHost <? labels canonicalDomain)%nat
        && HasSuffix canonicalDomain ("." +:+ subDomainHost)).

Fixpoint checkCustomDomains (s : ServerConfig) (domains : list string) : res error unit :=
  match domains with
  | [] => Ok ()
  | domain :: domains => if customDomainOk s domain then checkCustomDomains s domains else Err (ErrCustomDomain domain)
  end.

Definition validateDomainConfigForServer (c : DomainConfig) (s : ServerConfig) : res error unit :=
  let? _ := checkCustomDomains s (CustomDomains c) in
  if decide (SubDomain c = EmptyString) then Ok ()
  else if decide (SubDomainHost s = EmptyString) then Err ErrSubdomainDisabled
  else if ContainsChar "." (SubDomain c) || ContainsChar "*" (SubDomain c) then Err ErrSubdomainChars
  else Ok ().

Definition validateDomainConfigForClient (c : DomainConfig) : res error unit :=
  if decide (SubDomain c = EmptyString ∧ CustomDomains c = []) then Err ErrNoDomain else Ok ().

Definition validateVisitorBaseConfig (c : VisitorBaseConfig) : res error unit :=
  if decide (vName c = EmptyString) then Err ErrNameEmpty
  else if decide (ServerName c = EmptyString) then Err ErrServerName
  else if BindPort c =? 0 then Err ErrBindPort
  else Ok ().

Definition ValidateVisitorConfigurer (c : VisitorConfigurer) : res error unit :=
  let? _ := validateVisitorBaseConfig (vBase c) in
  match c with
  | XTCPVisitorConfig _ protocol _ _ _ fallbackTo _ _ =>
      if negb (bool_decide (fallbackTo = EmptyString)) then Err ErrFallback
      else if negb (bool_decide (protocol = "quic")) then Err ErrProtocol
      else Ok ()
  | _ => Ok ()
  end.

Section validation.
(** [validation.IsQualifiedName] of [k8s.io/apimachinery]: the messages about a key. *)
Context (isQualifiedName : string → list string).

Definition ValidateAnnotations (a : smap) : res error unit :=
  if decide (a = ∅) then Ok ()
  else
    let keys := flat_map (λ kv, isQualifiedName (Vhost.ToLower kv.1)) (map_to_list a) in
    let errs := keys ++ (if ValidateAnnotationsSize a then [] else ["annotations size is larger than limit"%string]) in
    match errs with [] => Ok () | _ => Err (ErrAnnotations errs) end.

Definition validateProxyBaseConfigForClient (c : ProxyBaseConfig) : res error unit :=
  if decide (Name c = EmptyString) then Err ErrNameEmpty
  else
    let? _ := ValidateAnnotations (Annotations c) in
    if negb (bool_decide (ProxyProtocolVersion (Transport c) ∈ [""; "v1"; "v2"]%string)) then Err ErrProxyProtocol
    else if negb (bool_decide (BandwidthLimitMode (Transport c) ∈ ["client"; "server"]%string)) then Err ErrBandwidthMode
    else
      let? _ := (if decide (pluginType (Plugin c) = EmptyString) then ValidatePort (LocalPort c) "localPort" else Ok ()) in
      if negb (bool_decide (hcType (HealthCheck c) ∈ [""; "tcp"; "http"]%string)) then Err ErrHealthType
      else if bool_decide (hcType (HealthCheck c) = "http") && bool_decide (hcPath (HealthCheck c) = EmptyString)
      then Err ErrHealthPath
      else if decide (pluginType (Plugin c) = EmptyString) then Ok ()
      else ValidateClientPluginOptions (pluginOptions (Plugin c)).

Definition TCPMultiplexerHTTPConnect : string := "httpconnect".

Definition ValidateProxyConfigurerForClient (c : ProxyConfigurer) : res error unit :=
  let? _ := validateProxyBaseConfigForClient (GetBaseConfig c) in
  match c with
  | HTTPProxyConfig _ d _ _ _ _ _ _ _ | HTTPSProxyConfig _ d => validateDomainConfigForClient d
  | TCPMuxProxyConfig _ d _ _ _ multiplexer =>
      let? _ := validateDomainConfigForClient d in
      if negb (bool_decide (multiplexer = TCPMultiplexerHTTPConnect)) then Err ErrMultiplexer else Ok ()
  | _ => Ok ()
  end.

Definition ValidateProxyConfigurerForServer (c : ProxyConfigurer) (s : ServerConfig) : res error unit :=
  let? _ := ValidateAnnotations (Annotations (GetBaseConfig c)) in
  match c with
  | TCPMuxProxyConfig _ d _ _ _ multiplexer =>
      if bool_decide (multiplexer = TCPMultiplexerHTTPConnect) && (TCPMuxHTTPConnectPort s =? 0) then Err ErrMuxDisabled
      else validateDomainConfigForServer d s
  | HTTPProxyConfig _ d _ _ _ _ _ _ _ =>
      if VhostHTTPPort s =? 0 then Err ErrHTTPDisabled else validateDomainConfigForServer d s
  | HTTPSProxyConfig _ d =>
      if VhostHTTPSPort s =? 0 then Err ErrHTTPSDisabled else validateDomainConfigForServer d s
  | _ => Ok ()
  end.

(** [NewProxyConfigurerFromMsg] *)
Definition NewProxyConfigurerFromMsg (parseQuantity : chars → Z → option Z) (m : NewProxy) (s : ServerConfig)
  : res error ProxyConfigurer :=
  let t := EmptyOr EmptyString (mProxyType m) ProxyTypeTCP in
  let m := setMsgType t m in
  match NewProxyConfigurerByType t with
  | None => Err (ErrUnknownType t)
  | Some configurer =>
      let configurer := Complete (UnmarshalFromMsg parseQuantity configurer m) in
      let? _ := ValidateProxyConfigurerForServer configurer s in
      Ok configurer
  end.

(** [BaseProxy.buildDomains] *)
Definition buildDomains (s : ServerConfig) (customDomains : list string) (subDomain : string) : list string :=
  filter (λ d, d ≠ EmptyString) customDomains
  ++ (if decide (subDomain = EmptyString) then [] else [subDomain +:+ "." +:+ SubDomainHost s]).

(** The domain part of the configurations that have one. *)
Definition domainsOf (c : ProxyConfigurer) : option DomainConfig :=
  match c with
  | HTTPProxyConfig _ d _ _ _ _ _ _ _ | HTTPSProxyConfig _ d | TCPMuxProxyConfig _ d _ _ _ _ => Some d
  | _ => None
  end.

(** What the server knows of a client's configuration. *)
Definition serverBase (b : ProxyBaseConfig) : ProxyBaseConfig :=
  let t := Transport b in
  mkBase (Name b) (Type_ b) None (Annotations b)
    (mkTransport (UseEncryption t) (UseCompression t) (BandwidthLimit t) (BandwidthLimitMode t) EmptyString)
    (Metadatas b) (LoadBalancer b) (mkHealthCheck EmptyString 0 0 0 EmptyString []) "127.0.0.1" 0 (mkPlugin EmptyString None).

Definition serverView (c : ProxyConfigurer) : ProxyConfigurer :=
  match setBase (serverBase (GetBaseConfig c)) c with
  | XTCPProxyConfig b s a _ => XTCPProxyConfig b s a None
  | c => c
  end.

End validation.

(** ** Bandwidth quantities read back *)

Lemma trimLeft_head l x : head (trimLeft l) = Some x → isSpace x = false.
Proof. induction l as [|y l IH]; simpl; [done|]. destruct (isSpace y) eqn:E; [auto|]. simpl. by intros [= ->]. Qed.

Lemma trimLeft_suffix l : trimLeft l `suffix_of` l.
Proof. induction l as [|y l IH]; simpl; [done|]. destruct (isSpace y); [by apply suffix_cons_r|done]. Qed.

Lemma TrimSpace_idemp l : TrimSpace (TrimSpace l) = TrimSpace l.
Proof.
  unfold TrimSpace at 2 3. set (m := trimLeft l). set (r := trimLeft (reverse m)).
  unfold TrimSpace. rewrite (trimLeft_id (reverse r)).
  - rewrite reverse_involutive, trimLeft_id; [done|apply trimLeft_head].
  - intros x Hx. destruct (trimLeft_suffix (reverse m)) as [k Hk]. fold r in Hk.
    apply (f_equal reverse) in Hk. rewrite reverse_involutive, reverse_app in Hk.
    destruct (reverse r) as [|y r'] eqn:Er; [done|]. injection Hx as ->.
    apply (trimLeft_head l). fold m. by rewrite Hk.
Qed.

Lemma quantity_read pq s q : NewBandwidthQuantity pq s = Ok q → quantityOf pq (text q) = q ∨ q = zeroQuantity.
Proof.
  unfold quantityOf, NewBandwidthQuantity, UnmarshalString.
  destruct (TrimSpace s) as [|x l] eqn:E; [by intros [= <-]; right|]. left. cbv zeta in *.
  assert (Htext : text q = x :: l).
  { destruct (CutSuffix _ _) as [f|]; [|destruct (CutSuffix _ _) as [f|]; [|done]];
      (destruct (pq _ _); [|done]); by simplify_eq. }
  rewrite Htext, <-E, TrimSpace_idemp, E. by destruct (CutSuffix _ _) as [f|];
    [destruct (pq _ _); simplify_eq|destruct (CutSuffix _ _) as [f|]; [destruct (pq _ _); simplify_eq|]].
Qed.

(** ** From client to server *)

Lemma NewByType_typeName c : ∃ c0, NewProxyConfigurerByType (typeName c) = Some c0 ∧
  ∀ pq m, UnmarshalFromMsg pq c0 m = UnmarshalFromMsg pq (match c with
    | XTCPProxyConfig _ s a _ => XTCPProxyConfig (setType (typeName c) zeroBase) s a None
    | c' => setBase (setType (typeName c) zeroBase) c' end) m.
Proof. destruct c; eexists; split; reflexivity. Qed.

Lemma EmptyOr_string (s d : string) : d ≠ EmptyString → EmptyOr EmptyString s d ≠ EmptyString.
Proof. unfold EmptyOr. by case_decide. Qed.

Lemma EmptyOr_set (s d : string) : s ≠ EmptyString → EmptyOr EmptyString s d = s.
Proof. unfold EmptyOr. by case_decide. Qed.

(** The base configuration that arrives. *)
Lemma base_arrives pq b c t m :
  (∃ s, NewBandwidthQuantity pq s = Ok (BandwidthLimit (Transport b))) →
  BandwidthLimitMode (Transport b) ≠ EmptyString →
  t = Type_ b →
  (mProxyName m, mProxyType m, mUseEncryption m, mUseCompression m, mBandwidthLimit m, mBandwidthLimitMode m, mGroup m,
   mGroupKey m, mMetas m, mAnnotations m) =
  (let x := marshalBase b zeroMsg in
   (mProxyName x, mProxyType x, mUseEncryption x, mUseCompression x, mBandwidthLimit x, mBandwidthLimitMode x, mGroup x,
    mGroupKey x, mMetas x, mAnnotations x)) →
  GetBaseConfig c = setType t zeroBase →
  completeBase (unmarshalBase pq (GetBaseConfig c) m) = serverBase b.
Proof.
  intros [s Hs] Hmode -> E Hc. apply quantity_read in Hs. destruct b as [n ty en an [ue uc q mode ppv] me [g gk] hc ip po pl].
  rewrite Hc. cbn in *. injection E as E1 E2 E3 E4 E5 E6 E7 E8 E9 E10. unfold completeBase, unmarshalBase, serverBase. cbn.
  rewrite E1, E2, E3, E4, E5, E6, E7, E8, E9, E10. f_equal. f_equal.
  - destruct Hs as [Hs| ->]; [|by rewrite decide_True]. destruct (decide (text q = [])) as [Ht|Ht]; [|done].
    by rewrite Ht in Hs.
  - destruct (decide (mode = "client")) as [-> |Hn]; [done|]. rewrite decide_False by done. by apply EmptyOr_set.
Qed.

Lemma typeName_not_empty c : typeName c ≠ EmptyString.
Proof. by destruct c. Qed.

(** What the server rebuilds from the message of a completed client configuration of a
    known type is that configuration without the fields that stay on the client: bandwidth
    limit and mode, domains, locations, headers, credentials, secret, users, multiplexer and
    port all arrive, for all eight types, and it is accepted exactly when the server's own
    validation accepts it. *)
Theorem newproxy_roundtrip iqn pq c s :
  Type_ (GetBaseConfig c) = typeName c →
  (∃ l, NewBandwidthQuantity pq l = Ok (BandwidthLimit (Transport (GetBaseConfig c)))) →
  NewProxyConfigurerFromMsg iqn pq (MarshalToMsg (Complete c) zeroMsg) s =
  (let? _ := ValidateProxyConfigurerForServer iqn (serverView (Complete c)) s in Ok (serverView (Complete c))).
Proof.
  intros Ht Hq. unfold NewProxyConfigurerFromMsg.
  assert (Hm : mProxyType (MarshalToMsg (Complete c) zeroMsg) = typeName c) by (rewrite <-Ht; by destruct c).
  rewrite Hm, EmptyOr_set by apply typeName_not_empty.
  destruct (NewByType_typeName c) as (c0 & -> & Hu). cbv zeta. rewrite Hu. clear Hu c0.
  set (m := setMsgType _ _).
  assert (Hb : ∀ c0, GetBaseConfig c0 = setType (typeName c) zeroBase →
    completeBase (unmarshalBase pq (GetBaseConfig c0) m) = serverBase (completeBase (GetBaseConfig c))).
  { intros c0 Hc0. eapply base_arrives; [done|by apply EmptyOr_string|done| |].
    - unfold m. rewrite <-Ht. by destruct c.
    - rewrite Hc0. by rewrite <-Ht. }
  match goal with |- context [Complete ?x] => assert (Hx : Complete x = serverView (Complete c)) end.
  { destruct c; unfold Complete, serverView; cbn [GetBaseConfig setBase UnmarshalFromMsg typeName] in *;
      match goal with |- context [unmarshalBase _ ?b _] =>
        rewrite <-(Hb (TCPProxyConfig b 0) eq_refl); cbn [GetBaseConfig] end; unfold m, setMsgType; cbn;
      repeat match goal with d : DomainConfig |- _ => destruct d | h : HeaderOperations |- _ => destruct h end; reflexivity. }
  by rewrite Hx.
Qed.

Lemma NewByType_Some t c : NewProxyConfigurerByType t = Some c → typeName c = t ∧ Type_ (GetBaseConfig c) = t.
Proof.
  unfold NewProxyConfigurerByType, proxyConfigTypeMap. simpl. intros H.
  repeat (case_decide; [simplify_eq/=; done|]). done.
Qed.

Lemma NewByType_None t : NewProxyConfigurerByType t = None → ∀ c, typeName c ≠ t.
Proof. intros H c <-. destruct (NewByType_typeName c) as (c0 & Hc & _). congruence. Qed.

Lemma typeName_Unmarshal pq c m : typeName (UnmarshalFromMsg pq c m) = typeName c.
Proof. by destruct c. Qed.

Lemma base_Unmarshal pq c m : GetBaseConfig (UnmarshalFromMsg pq c m) = unmarshalBase pq (GetBaseConfig c) m.
Proof. by destruct c. Qed.

Lemma typeName_setBase b c : typeName (setBase b c) = typeName c ∧ GetBaseConfig (setBase b c) = b.
Proof. by destruct c. Qed.

Lemma FromMsg_Ok iqn pq m s c :
  NewProxyConfigurerFromMsg iqn pq m s = Ok c →
  typeName c = EmptyOr EmptyString (mProxyType m) ProxyTypeTCP ∧ Type_ (GetBaseConfig c) = typeName c ∧
  Name (GetBaseConfig c) = mProxyName m ∧ BandwidthLimitMode (Transport (GetBaseConfig c)) ≠ EmptyString ∧
  ValidateProxyConfigurerForServer iqn c s = Ok ().
Proof.
  unfold NewProxyConfigurerFromMsg. destruct (NewProxyConfigurerByType _) as [c0|] eqn:E; [|done].
  apply NewByType_Some in E as [E1 E2]. cbv zeta.
  destruct (ValidateProxyConfigurerForServer _ _ _) as [[]|] eqn:Ev; [|done]. intros [= <-].
  unfold Complete in *. set (c1 := UnmarshalFromMsg _ _ _) in *.
  destruct (typeName_setBase (completeBase (GetBaseConfig c1)) c1) as [Hn Hg].
  set (c2 := setBase _ _) in *. split; [|split_and!; [..|done]]; rewrite ?Hn, ?Hg; unfold c1;
    rewrite ?typeName_Unmarshal, ?base_Unmarshal, ?E1; [done..|].
  by apply EmptyOr_string.
Qed.

(** A configuration the server accepts from a message has the dynamic type that the
    message names (a TCP proxy when it names none), records that type and the message's name,
    has a bandwidth mode and is valid; and a message is refused as of an unknown type
    exactly when no proxy type has its name. *)
Theorem newproxy_typed iqn pq m s :
  let t := EmptyOr EmptyString (mProxyType m) ProxyTypeTCP in
  (∀ c, NewProxyConfigurerFromMsg iqn pq m s = Ok c →
     typeName c = t ∧ Type_ (GetBaseConfig c) = t ∧ Name (GetBaseConfig c) = mProxyName m ∧
     BandwidthLimitMode (Transport (GetBaseConfig c)) ≠ EmptyString ∧
     ValidateProxyConfigurerForServer iqn c s = Ok ()) ∧
  ((∀ c, typeName c ≠ t) → NewProxyConfigurerFromMsg iqn pq m s = Err (ErrUnknownType t)) ∧
  (∀ c, typeName c = t → ∀ t', NewProxyConfigurerFromMsg iqn pq m s ≠ Err (ErrUnknownType t')).
Proof.
  intros t. split_and!.
  - intros c Hc. apply FromMsg_Ok in Hc as (H1 & H2 & H3 & H4 & H5). by rewrite H2, H1.
  - intros Hno. unfold NewProxyConfigurerFromMsg. fold t. cbv zeta.
    destruct (NewProxyConfigurerByType t) as [c|] eqn:E; [|done]. by destruct (Hno c), (NewByType_Some t c E).
  - intros c Hc t'. unfold NewProxyConfigurerFromMsg. fold t. cbv zeta.
    destruct (NewProxyConfigurerByType t) as [c0|] eqn:E; [|by destruct (NewByType_None t E c)].
    destruct (ValidateProxyConfigurerForServer _ _ _) eqn:Ev; [done|]. intros [= ->]. revert Ev. clear.
    unfold ValidateProxyConfigurerForServer, ValidateAnnotations, validateDomainConfigForServer.
    generalize (Complete (UnmarshalFromMsg pq c0 (setMsgType t m))). intros c Ev.
    assert (Hd : ∀ ds, checkCustomDomains s ds ≠ Err (ErrUnknownType t'))
      by (induction ds as [|x ds IH]; simpl; [done|]; by destruct (customDomainOk _ _)).
    go_inv Ev; try (by eapply Hd). by go_inv Heqr.
Qed.

(** ** Domains *)

Lemma length_Split sep (l : list ascii) : length (Split sep l) = S (length (filter (λ x, x = sep) l)).
Proof.
  induction l as [|x l IH]; [done|]. rewrite filter_cons. cbn [Split]. destruct (decide (x = sep)) as [-> |Hn].
  - cbn [length]. by rewrite IH.
  - destruct (Split sep l); [done|]. exact IH.
Qed.

Lemma ToLower_app s1 s2 : Vhost.ToLower (s1 +:+ s2) = Vhost.ToLower s1 +:+ Vhost.ToLower s2.
Proof.
  induction s1 as [|x s1 IH]; [done|]. change (String (Vhost.lowerAscii x) (Vhost.ToLower (s1 +:+ s2)) =
    String (Vhost.lowerAscii x) (Vhost.ToLower s1 +:+ Vhost.ToLower s2)). by rewrite IH.
Qed.

Lemma ToLower_empty s : Vhost.ToLower s = EmptyString → s = EmptyString.
Proof. by destruct s. Qed.

(** The comparison of label counts never decides: a name below the host has more labels. *)
Lemma customDomainOk_suffix s d :
  customDomainOk s d = negb (negb (bool_decide (SubDomainHost s = EmptyString))
    && HasSuffix (Vhost.ToLower d) ("." +:+ Vhost.ToLower (SubDomainHost s))).
Proof.
  unfold customDomainOk. cbv zeta. f_equal. rewrite <-andb_assoc. f_equal.
  - f_equal. apply bool_decide_ext. split; [apply ToLower_empty|by intros ->].
  - destruct (HasSuffix _ _) eqn:E; [|by rewrite andb_false_r]. rewrite andb_true_r.
    apply bool_decide_eq_true in E as [k Hk]. unfold labels. rewrite !length_Split, Hk, ofStr_app, filter_app, !length_app.
    apply Nat.ltb_lt. simpl. lia.
Qed.

Lemma checkCustomDomains_Ok s ds : checkCustomDomains s ds = Ok () → Forall (λ d, customDomainOk s d = true) ds.
Proof. induction ds as [|d ds IH]; simpl; [done|]. destruct (customDomainOk s d) eqn:E; [|done]. by constructor; auto. Qed.

Lemma domains_validated iqn c s d : domainsOf c = Some d → ValidateProxyConfigurerForServer iqn c s = Ok () →
  validateDomainConfigForServer d s = Ok ().
Proof. unfold ValidateProxyConfigurerForServer. destruct c; simpl; intros [= <-] H; by go_inv H. Qed.

(** A proxy the server has accepted registers a domain below the subdomain host only as
    its own subdomain, in whatever case it is written: the label in front of the host is the
    configured subdomain, and that has no dot and no star.  So no custom domain, wildcard or
    label of several parts takes over a name that belongs to another proxy's subdomain. *)
Theorem subdomain_isolated iqn c s d dom sub :
  domainsOf c = Some d → ValidateProxyConfigurerForServer iqn c s = Ok () → SubDomainHost s ≠ EmptyString →
  dom ∈ buildDomains s (CustomDomains d) (SubDomain d) →
  Vhost.ToLower dom = Vhost.ToLower (sub +:+ "." +:+ SubDomainHost s) →
  Vhost.ToLower sub = Vhost.ToLower (SubDomain d) ∧ SubDomain d ≠ EmptyString ∧
  ("."%char ∉ ofStr (SubDomain d)) ∧ ("*"%char ∉ ofStr (SubDomain d)).
Proof.
  intros Hd Hv Hhost Hin Heq. eapply domains_validated in Hv; [|done]. unfold validateDomainConfigForServer in Hv.
  destruct (checkCustomDomains _ _) as [[]|] eqn:Hc; [|done]. apply checkCustomDomains_Ok in Hc. rewrite Forall_forall in Hc.
  unfold buildDomains in Hin. apply elem_of_app in Hin as [[_ Hin]%list_elem_of_filter|Hin].
  { apply Hc in Hin. rewrite customDomainOk_suffix, bool_decide_false in Hin by done. simpl in Hin. exfalso.
    apply negb_true_iff, bool_decide_eq_false in Hin. apply Hin. rewrite Heq, !ToLower_app. exists (ofStr (Vhost.ToLower sub)).
    by rewrite ofStr_app. }
  destruct (decide (SubDomain d = EmptyString)) as [|Hs]; [by apply not_elem_of_nil in Hin|].
  apply list_elem_of_singleton in Hin as ->. rewrite decide_False in Hv by done.
  unfold ContainsChar in Hv. destruct (bool_decide ("."%char ∈ _)) eqn:E1; [done|].
  destruct (bool_decide ("*"%char ∈ _)) eqn:E2; [done|]. bool_to_prop. split_and!; [|done..].
  rewrite !ToLower_app in Heq. apply (f_equal ofStr) in Heq. rewrite !ofStr_app in Heq. apply app_inv_tail in Heq.
  symmetry. by apply ofStr_inj.
Qed.

(** ** Witnesses *)

Definition demoQuantity (f : chars) (base : Z) : option Z := (λ n, n * base) <$> Atoi f.
Definition demoServer : ServerConfig := mkServerConfig "frp.example.com" 80 443 0.
Definition demoBase : ProxyBaseConfig :=
  mkBase "web" "http" (Some true) {[ "team" := "core" ]}
    (mkTransport true false (mkQuantity (ofStr "2MB") 2097152) EmptyString "v2") ∅ (mkLoadBalancer "g" "k")
    (mkHealthCheck "http" 3 1 10 "/health" []) EmptyString 8080 (mkPlugin EmptyString None).
Definition demoHTTP : ProxyConfigurer :=
  HTTPProxyConfig demoBase (mkDomain ["example.com"%string] "Blog") ["/"%string] "u" "p" EmptyString
    (mkHeaderOperations {[ "x" := "y" ]}) (mkHeaderOperations ∅) EmptyString.

Lemma newproxy_roundtrip_witness :
  ∃ c, NewProxyConfigurerFromMsg (λ _, []) demoQuantity (MarshalToMsg (Complete demoHTTP) zeroMsg) demoServer = Ok c ∧
    c = serverView (Complete demoHTTP).
Proof.
  exists (serverView (Complete demoHTTP)). split; [|reflexivity].
  rewrite (newproxy_roundtrip (λ _, []) demoQuantity demoHTTP demoServer); [reflexivity|reflexivity|].
  exists (ofStr " 2MB "). reflexivity.
Defined.

Lemma newproxy_typed_witness :
  ∀ c, NewProxyConfigurerFromMsg (λ _, []) demoQuantity (MarshalToMsg (Complete demoHTTP) zeroMsg) demoServer = Ok c →
  typeName c = ProxyTypeHTTP.
Proof.
  intros c Hc.
  destruct (newproxy_typed (λ _, []) demoQuantity (MarshalToMsg (Complete demoHTTP) zeroMsg) demoServer) as [H _].
  destruct (H c Hc) as [Ht _]. exact Ht.
Defined.

Lemma subdomain_isolated_witness :
  Vhost.ToLower "BLOG" = Vhost.ToLower "Blog" ∧ "Blog"%string ≠ EmptyString.
Proof.
  destruct (subdomain_isolated (λ _, []) demoHTTP demoServer (mkDomain ["example.com"%string] "Blog")
    "Blog.frp.example.com" "BLOG") as (H1 & H2 & _); [reflexivity|reflexivity|discriminate|vm_compute|reflexivity|].
  - right. left.
  - exact (conj H1 H2).
Defined.
End Config.
