(* ===== verification/Source.v ===== *)
(** * Configuration sources of the client: [pkg/config/source], [pkg/config/v1/decode.go]

    The client's proxies and visitors come from its configuration file and from
    a store that its API changes.  The store keeps its entries in memory and in a
    JSON file: every change is written to a temporary file that is renamed over
    the old one, and undone in memory when that fails.  The aggregator merges
    both sources.

    Configurations are values here: what a source hands out is a clone.  The JSON
    codec and the file system are arguments; the order in which Go walks a map is
    an argument of each operation that walks one. *)
From S2P Require Import Prelude Bytes Config.
Import Config.

(** ** Configurers as the sources see them *)

(** The part of [v1.ProxyConfigurer] and [v1.VisitorConfigurer] the sources use. *)
Class Configurer (A : Type) := { cfgName : A → string; cfgEnabled : A → option bool }.
#[global] Instance ProxyConfigurer_configurer : Configurer ProxyConfigurer :=
  { cfgName c := Name (GetBaseConfig c); cfgEnabled c := Enabled (GetBaseConfig c) }.
#[global] Instance VisitorConfigurer_configurer : Configurer VisitorConfigurer :=
  { cfgName c := vName (vBase c); cfgEnabled c := vEnabled (vBase c) }.

#[global] Arguments cfgName {A _} _ : simpl never.
#[global] Arguments cfgEnabled {A _} _ : simpl never.

(** ** The JSON codec: [encoding/json] on the configuration structs *)

Class Json := {
  (** [jsonx.MarshalIndent] of the stored lists, [jsonx.Marshal] of one entry, and
      [json.Compact], which removes the space of the indentation. *)
  marshalStore : list ProxyConfigurer → list VisitorConfigurer → option bytes;
  marshalProxy : ProxyConfigurer → option bytes;
  marshalVisitor : VisitorConfigurer → option bytes;
  compact : bytes → bytes;
  (** [jsonx.Unmarshal] into lists of raw messages. *)
  unmarshalStore : bytes → option (list bytes * list bytes);
  (** [jsonx.Unmarshal] into [typedEnvelope]: type and raw plugin. *)
  unmarshalEnvelope : bytes → option (string * bytes);
  (** [jsonx.UnmarshalWithOptions] into a given value; the flag rejects unknown members. *)
  unmarshalProxy : bool → bytes → ProxyConfigurer → option ProxyConfigurer;
  unmarshalVisitor : bool → bytes → VisitorConfigurer → option VisitorConfigurer;
  (** ... and into the zero options of a plugin type. *)
  unmarshalClientPlugin : bool → bytes → string → option ClientPluginOptions;
  unmarshalVisitorPlugin : bool → bytes → string → option VisitorPluginOptions }.

Module Source.

(** ** Decoding: [pkg/config/v1/decode.go] *)

Inductive decodeError :=
| ErrTypeRequired | ErrJSON | ErrUnknownType (t : string) | ErrPluginTypeEmpty | ErrUnknownPlugin (t : string).

Section decode.
Context `{Json}.

Definition isJSONNull (b : bytes) : bool := bool_decide (b = []) || bool_decide (b = ofString "null").

Definition clientPluginOptionsTypes : list string :=
  ["http2https"; "http_proxy"; "https2http"; "https2https"; "http2http"; "socks5"; "static_file"; "unix_domain_socket";
   "tls2raw"; "virtual_net"]%string.
Definition visitorPluginOptionsTypes : list string := ["virtual_net"]%string.

Definition DecodeClientPluginOptionsJSON (b : bytes) (strict : bool) : res decodeError TypedClientPluginOptions :=
  if isJSONNull b then Ok (mkPlugin EmptyString None)
  else match unmarshalEnvelope b with
  | None => Err ErrJSON
  | Some (t, _) =>
      if decide (t = EmptyString) then Err ErrPluginTypeEmpty
      else if negb (bool_decide (t ∈ clientPluginOptionsTypes)) then Err (ErrUnknownPlugin t)
      else match unmarshalClientPlugin strict b t with
      | None => Err ErrJSON
      | Some o => Ok (mkPlugin t (Some o))
      end
  end.

Definition DecodeVisitorPluginOptionsJSON (b : bytes) (strict : bool) : res decodeError TypedVisitorPluginOptions :=
  if isJSONNull b then Ok (mkVisitorPlugin EmptyString None)
  else match unmarshalEnvelope b with
  | None => Err ErrJSON
  | Some (t, _) =>
      if decide (t = EmptyString) then Err ErrPluginTypeEmpty
      else if negb (bool_decide (t ∈ visitorPluginOptionsTypes)) then Err (ErrUnknownPlugin t)
      else match unmarshalVisitorPlugin strict b t with
      | None => Err ErrJSON
      | Some o => Ok (mkVisitorPlugin t (Some o))
      end
  end.

Definition setPlugin (p : TypedClientPluginOptions) (c : ProxyConfigurer) : ProxyConfigurer :=
  let b := GetBaseConfig c in
  setBase (mkBase (Name b) (Type_ b) (Enabled b) (Annotations b) (Transport b) (Metadatas b) (LoadBalancer b)
             (HealthCheck b) (LocalIP b) (LocalPort b) p) c.

Definition setVisitorBase (b : VisitorBaseConfig) (c : VisitorConfigurer) : VisitorConfigurer :=
  match c with
  | STCPVisitorConfig _ => STCPVisitorConfig b
  | SUDPVisitorConfig _ => SUDPVisitorConfig b
  | XTCPVisitorConfig _ p k r i f t n => XTCPVisitorConfig b p k r i f t n
  end.

Definition setVisitorPlugin (p : TypedVisitorPluginOptions) (c : VisitorConfigurer) : VisitorConfigurer :=
  let b := vBase c in
  setVisitorBase (mkVisitorBase (vName b) (vType b) (vEnabled b) (vTransport b) (SecretKey b) (ServerUser b) (ServerName b)
                    (BindAddr b) (BindPort b) p) c.

Definition visitorTypeName (c : VisitorConfigurer) : string :=
  match c with STCPVisitorConfig _ => "stcp" | SUDPVisitorConfig _ => "sudp" | XTCPVisitorConfig _ _ _ _ _ _ _ _ => "xtcp" end.

Definition zeroVisitorBase (t : string) : VisitorBaseConfig :=
  mkVisitorBase EmptyString t None (mkVisitorTransport false false) EmptyString EmptyString EmptyString EmptyString 0
    (mkVisitorPlugin EmptyString None).

Definition visitorConfigTypeMap : list (string * (VisitorBaseConfig → VisitorConfigurer)) :=
  [ ("stcp", STCPVisitorConfig); ("xtcp", λ b, XTCPVisitorConfig b EmptyString false 0 0 EmptyString 0 None);
    ("sudp", SUDPVisitorConfig) ]%string.

Definition NewVisitorConfigurerByType (t : string) : option VisitorConfigurer :=
  (λ mk, mk (zeroVisitorBase t)) <$> assoc t visitorConfigTypeMap.

Definition DecodeProxyConfigurerJSON (b : bytes) (strict : bool) : res decodeError ProxyConfigurer :=
  if isJSONNull b then Err ErrTypeRequired
  else match unmarshalEnvelope b with
  | None => Err ErrJSON
  | Some (t, plugin) =>
      match NewProxyConfigurerByType t with
      | None => Err (ErrUnknownType t)
      | Some configurer =>
          match unmarshalProxy strict b configurer with
          | None => Err ErrJSON
          | Some configurer =>
              if isJSONNull plugin then Ok configurer
              else let? p := DecodeClientPluginOptionsJSON plugin strict in Ok (setPlugin p configurer)
          end
      end
  end.

Definition DecodeVisitorConfigurerJSON (b : bytes) (strict : bool) : res decodeError VisitorConfigurer :=
  if isJSONNull b then Err ErrTypeRequired
  else match unmarshalEnvelope b with
  | None => Err ErrJSON
  | Some (t, plugin) =>
      match NewVisitorConfigurerByType t with
      | None => Err (ErrUnknownType t)
      | Some configurer =>
          match unmarshalVisitor strict b configurer with
          | None => Err ErrJSON
          | Some configurer =>
              if isJSONNull plugin then Ok configurer
              else let? p := DecodeVisitorPluginOptionsJSON plugin strict in Ok (setVisitorPlugin p configurer)
          end
      end
  end.

(** A raw message from which the codec reads the parts of a configuration: the type, the
    value, and the plugin, if there is one, with options of a known plugin type. *)
Definition encodesPlugin (r : bytes) (p : TypedClientPluginOptions) : Prop :=
  ∃ t x o, unmarshalEnvelope r = Some (t, x) ∧ t ∈ clientPluginOptionsTypes ∧ unmarshalClientPlugin false r t = Some o ∧
    p = mkPlugin t (Some o).
Definition encodesVisitorPlugin (r : bytes) (p : TypedVisitorPluginOptions) : Prop :=
  ∃ t x o, unmarshalEnvelope r = Some (t, x) ∧ t ∈ visitorPluginOptionsTypes ∧ unmarshalVisitorPlugin false r t = Some o ∧
    p = mkVisitorPlugin t (Some o).
Definition encodesProxy (r : bytes) (p : ProxyConfigurer) : Prop :=
  isJSONNull r = false ∧ ∃ plugin c0, unmarshalEnvelope r = Some (typeName p, plugin) ∧
    NewProxyConfigurerByType (typeName p) = Some c0 ∧ unmarshalProxy false r c0 = Some p ∧
    (isJSONNull plugin = false → encodesPlugin plugin (Plugin (GetBaseConfig p))).
Definition encodesVisitor (r : bytes) (v : VisitorConfigurer) : Prop :=
  isJSONNull r = false ∧ ∃ plugin c0, unmarshalEnvelope r = Some (visitorTypeName v, plugin) ∧
    NewVisitorConfigurerByType (visitorTypeName v) = Some c0 ∧ unmarshalVisitor false r c0 = Some v ∧
    (isJSONNull plugin = false → encodesVisitorPlugin plugin (vPlugin (vBase v))).

(** An entry that is encoded without loss: however its encoding is indented, the codec reads
    its parts back.  An entry whose [Type] is not its own, a plugin type without options and
    a text that is not UTF-8 are lost. *)
Definition storableProxy (p : ProxyConfigurer) : Prop :=
  ∀ r, marshalProxy p = Some (compact r) → encodesProxy r p.
Definition storableVisitor (v : VisitorConfigurer) : Prop :=
  ∀ r, marshalVisitor v = Some (compact r) → encodesVisitor r v.

(** A configuration whose [Type] names its dynamic type. *)
Definition typedProxy (p : ProxyConfigurer) : Prop := Type_ (GetBaseConfig p) = typeName p.
Definition typedVisitor (v : VisitorConfigurer) : Prop := vType (vBase v) = visitorTypeName v.

(** What [encoding/json] promises: the raw messages of an indented file are the encodings of
    the entries, in order, up to their indentation; and decoding into a value writes a member
    [type] that is not empty into its field [Type] and keeps its dynamic type. *)
Record JsonOk : Prop := mkJsonOk {
  json_store : ∀ ps vs data, marshalStore ps vs = Some data →
    ∃ rps rvs, unmarshalStore data = Some (rps, rvs) ∧ Forall2 (λ r p, marshalProxy p = Some (compact r)) rps ps ∧
      Forall2 (λ r v, marshalVisitor v = Some (compact r)) rvs vs;
  json_proxy : ∀ strict r t plugin c0 p, unmarshalEnvelope r = Some (t, plugin) → t ≠ EmptyString →
    unmarshalProxy strict r c0 = Some p → typeName p = typeName c0 ∧ Type_ (GetBaseConfig p) = t;
  json_visitor : ∀ strict r t plugin c0 v, unmarshalEnvelope r = Some (t, plugin) → t ≠ EmptyString →
    unmarshalVisitor strict r c0 = Some v → visitorTypeName v = visitorTypeName c0 ∧ vType (vBase v) = t }.
End decode.

(** ** Sources in memory: [base_source.go], [config_source.go], [validation.go] *)

Record baseSource := mkSource { proxies : gmap string ProxyConfigurer; visitors : gmap string VisitorConfigurer }.
Definition newBaseSource : baseSource := mkSource ∅ ∅.
#[global] Instance baseSource_eq_dec : EqDecision baseSource. Proof. solve_decision. Defined.

(** The orders in which Go walks the maps. *)
Record order := mkOrder {
  orderP : gmap string ProxyConfigurer → list ProxyConfigurer; orderV : gmap string VisitorConfigurer → list VisitorConfigurer }.
Definition values {A} (m : gmap string A) : list A := (map_to_list m).*2.
Definition orderOk (o : order) : Prop := (∀ m, orderP o m ≡ₚ values m) ∧ (∀ m, orderV o m ≡ₚ values m).

Definition enabled {A} `{Configurer A} (c : A) : Prop := cfgEnabled c ≠ Some false.
#[global] Instance enabled_dec {A} `{Configurer A} (c : A) : Decision (enabled c).
Proof. unfold enabled. apply _. Defined.

Definition Load (o : order) (s : baseSource) : list ProxyConfigurer * list VisitorConfigurer :=
  (filter enabled (orderP o (proxies s)), filter enabled (orderV o (visitors s))).

Inductive error :=
| ErrNil | ErrEmptyName | ErrAlreadyExists | ErrNotFound | ErrPersist | ErrPath | ErrRead | ErrParse
| ErrDecode (i : nat) (e : decodeError) | ErrNoSources.

(** [validateProxyName], [validateVisitorName]; [None] is a nil configurer. *)
Definition validateName {A} `{Configurer A} (c : option A) : res error string :=
  match c with
  | None => Err ErrNil
  | Some c => if decide (cfgName c = EmptyString) then Err ErrEmptyName else Ok (cfgName c)
  end.

Fixpoint replaceEntries {A} `{Configurer A} (cs : list (option A)) (next : gmap string A) : res error (gmap string A) :=
  match cs with
  | [] => Ok next
  | c :: cs =>
      let? name := validateName c in
      replaceEntries cs (match c with Some c => <[ name := c ]> next | None => next end)
  end.

Definition ReplaceAll (ps : list (option ProxyConfigurer)) (vs : list (option VisitorConfigurer)) (s : baseSource)
  : res error unit * baseSource :=
  match replaceEntries ps ∅ with
  | Err e => (Err e, s)
  | Ok nextProxies =>
      match replaceEntries vs ∅ with
      | Err e => (Err e, s)
      | Ok nextVisitors => (Ok (), mkSource nextProxies nextVisitors)
      end
  end.

(** ** The store: [store.go] *)

(** The store's file and its temporary file. *)
Record Disk := mkDisk { target : option bytes; tmp : option bytes }.

(** The outcomes of the system calls of one save; a failed write leaves [written] bytes. *)
Record IO := mkIO {
  mkdirOk : bool; openOk : bool; writeOk : bool; written : nat; syncOk : bool; closeOk : bool; renameOk : bool;
  removeOk : bool; walk : order }.

Record StoreSource := mkStore { mem : baseSource; disk : Disk }.

Section store.
Context `{Json}.

(** The result and the disk after each system call that changed it. *)
Definition saveToFileUnlocked (io : IO) (s : baseSource) (d : Disk) : res error unit * list Disk :=
  match marshalStore (orderP (walk io) (proxies s)) (orderV (walk io) (visitors s)) with
  | None => (Err ErrPersist, [])
  | Some data =>
      if negb (mkdirOk io) then (Err ErrPersist, [])
      else if negb (openOk io) then (Err ErrPersist, [])
      else
        let created := mkDisk (target d) (Some []) in
        let remove (d : Disk) := if removeOk io then mkDisk (target d) None else d in
        if negb (writeOk io) then
          let partial := mkDisk (target d) (Some (take (written io) data)) in
          (Err ErrPersist, [created; partial; remove partial])
        else
          let full := mkDisk (target d) (Some data) in
          if negb (syncOk io) then (Err ErrPersist, [created; full; remove full])
          else if negb (closeOk io) then (Err ErrPersist, [created; full; remove full])
          else if negb (renameOk io) then (Err ErrPersist, [created; full; remove full])
          else (Ok (), [created; full; mkDisk (Some data) None])
  end.

Definition persistOrRollbackUnlocked (io : IO) (rollback : baseSource → baseSource) (st : StoreSource)
  : res error unit * StoreSource * list Disk :=
  let '(r, ds) := saveToFileUnlocked io (mem st) (disk st) in
  let d := default (disk st) (last ds) in
  match r with
  | Err e => (Err ErrPersist, mkStore (rollback (mem st)) d, ds)
  | Ok _ => (Ok (), mkStore (mem st) d, ds)
  end.

(** A map selector: [proxyStoreEntries], [visitorStoreEntries]. *)
Record entriesFn (T : Type) := mkEntries {
  entries : baseSource → gmap string T; setEntries : gmap string T → baseSource → baseSource }.
Arguments entries {T} _ _.
Arguments setEntries {T} _ _ _.
Definition proxyStoreEntries : entriesFn ProxyConfigurer := mkEntries _ proxies (λ m s, mkSource m (visitors s)).
Definition visitorStoreEntries : entriesFn VisitorConfigurer := mkEntries _ visitors (λ m s, mkSource (proxies s) m).

Definition modify {T} (E : entriesFn T) (f : gmap string T → gmap string T) (s : baseSource) : baseSource :=
  setEntries E (f (entries E s)) s.

Definition addStoreEntry {T} (E : entriesFn T) (io : IO) (name : string) (value : T) (st : StoreSource)
  : res error unit * StoreSource * list Disk :=
  match entries E (mem st) !! name with
  | Some _ => (Err ErrAlreadyExists, st, [])
  | None => persistOrRollbackUnlocked io (modify E (delete name)) (mkStore (modify E (insert name value) (mem st)) (disk st))
  end.

Definition updateStoreEntry {T} (E : entriesFn T) (io : IO) (name : string) (value : T) (st : StoreSource)
  : res error unit * StoreSource * list Disk :=
  match entries E (mem st) !! name with
  | None => (Err ErrNotFound, st, [])
  | Some old =>
      persistOrRollbackUnlocked io (modify E (insert name old)) (mkStore (modify E (insert name value) (mem st)) (disk st))
  end.

Definition removeStoreEntry {T} (E : entriesFn T) (io : IO) (name : string) (st : StoreSource)
  : res error unit * StoreSource * list Disk :=
  if decide (name = EmptyString) then (Err ErrEmptyName, st, [])
  else match entries E (mem st) !! name with
  | None => (Err ErrNotFound, st, [])
  | Some old => persistOrRollbackUnlocked io (modify E (insert name old)) (mkStore (modify E (delete name) (mem st)) (disk st))
  end.

Inductive op :=
| AddProxy (p : option ProxyConfigurer) | UpdateProxy (p : option ProxyConfigurer) | RemoveProxy (name : string)
| AddVisitor (v : option VisitorConfigurer) | UpdateVisitor (v : option VisitorConfigurer) | RemoveVisitor (name : string).

Definition withName {A} `{Configurer A} (c : option A)
  (k : string → A → StoreSource → res error unit * StoreSource * list Disk) (st : StoreSource) :=
  match validateName c, c with
  | Ok name, Some c => k name c st
  | Ok _, None => (Err ErrNil, st, [])
  | Err e, _ => (Err e, st, [])
  end.

Definition exec (io : IO) (o : op) : StoreSource → res error unit * StoreSource * list Disk :=
  match o with
  | AddProxy p => withName p (addStoreEntry proxyStoreEntries io)
  | UpdateProxy p => withName p (updateStoreEntry proxyStoreEntries io)
  | RemoveProxy name => removeStoreEntry proxyStoreEntries io name
  | AddVisitor v => withName v (addStoreEntry visitorStoreEntries io)
  | UpdateVisitor v => withName v (updateStoreEntry visitorStoreEntries io)
  | RemoveVisitor name => removeStoreEntry visitorStoreEntries io name
  end.

Definition GetProxy (name : string) (st : StoreSource) : option ProxyConfigurer := proxies (mem st) !! name.
Definition GetVisitor (name : string) (st : StoreSource) : option VisitorConfigurer := visitors (mem st) !! name.

(** The loop of [loadFromFileUnlocked] over the messages of one kind. *)
Fixpoint decodeAll {A} `{Configurer A} (decode : bytes → res decodeError A) (i : nat) (rs : list bytes) (m : gmap string A)
  : res error (gmap string A) :=
  match rs with
  | [] => Ok m
  | r :: rs =>
      match decode r with
      | Err e => Err (ErrDecode i e)
      | Ok c => if decide (cfgName c = EmptyString) then Err ErrEmptyName else decodeAll decode (S i) rs (<[ cfgName c := c ]> m)
      end
  end.

Definition loadFromFileUnlocked (data : bytes) : res error baseSource :=
  match unmarshalStore data with
  | None => Err ErrParse
  | Some (rps, rvs) =>
      let? ps := decodeAll (λ r, DecodeProxyConfigurerJSON r false) 0 rps ∅ in
      let? vs := decodeAll (λ r, DecodeVisitorConfigurerJSON r false) 0 rvs ∅ in
      Ok (mkSource ps vs)
  end.

(** [readOk] is false when the file exists and cannot be read. *)
Definition NewStoreSource (path : string) (readOk : bool) (d : Disk) : res error StoreSource :=
  if decide (path = EmptyString) then Err ErrPath
  else match target d with
  | None => Ok (mkStore newBaseSource d)
  | Some data =>
      if negb readOk then Err ErrRead
      else let? s := loadFromFileUnlocked data in Ok (mkStore s d)
  end.

(** The store's promise: two maps with the operations of its interface. *)
Definition specEntry {T} (E : entriesFn T) (f : option T → res error (option T)) (name : string) (s : baseSource)
  : res error baseSource :=
  match f (entries E s !! name) with
  | Err e => Err e
  | Ok x => Ok (modify E (partial_alter (λ _, x) name) s)
  end.

Definition specNamed {A} `{Configurer A} (E : entriesFn A) (c : option A)
  (f : A → option A → res error (option A)) (s : baseSource) : res error baseSource :=
  match c with
  | None => Err ErrNil
  | Some c => if decide (cfgName c = EmptyString) then Err ErrEmptyName else specEntry E (f c) (cfgName c) s
  end.

Definition added {A} (c : A) (old : option A) : res error (option A) :=
  match old with Some _ => Err ErrAlreadyExists | None => Ok (Some c) end.
Definition updated {A} (c : A) (old : option A) : res error (option A) :=
  match old with Some _ => Ok (Some c) | None => Err ErrNotFound end.
Definition removed {A} (old : option A) : res error (option A) :=
  match old with Some _ => Ok None | None => Err ErrNotFound end.

Definition spec (o : op) (s : baseSource) : res error baseSource :=
  match o with
  | AddProxy p => specNamed proxyStoreEntries p added s
  | UpdateProxy p => specNamed proxyStoreEntries p updated s
  | RemoveProxy n => if decide (n = EmptyString) then Err ErrEmptyName else specEntry proxyStoreEntries removed n s
  | AddVisitor v => specNamed visitorStoreEntries v added s
  | UpdateVisitor v => specNamed visitorStoreEntries v updated s
  | RemoveVisitor n => if decide (n = EmptyString) then Err ErrEmptyName else specEntry visitorStoreEntries removed n s
  end.

(** What holds of the configuration an operation brings. *)
Definition opBrings (P : ProxyConfigurer → Prop) (Q : VisitorConfigurer → Prop) (o : op) : Prop :=
  match o with
  | AddProxy (Some p) | UpdateProxy (Some p) => P p
  | AddVisitor (Some v) | UpdateVisitor (Some v) => Q v
  | _ => True
  end.
Definition opTyped : op → Prop := opBrings typedProxy typedVisitor.
Definition opStorable : op → Prop := opBrings storableProxy storableVisitor.

Definition allStorable (s : baseSource) : Prop :=
  map_Forall (λ _, storableProxy) (proxies s) ∧ map_Forall (λ _, storableVisitor) (visitors s).

(** Stores that come from a disk, with entries that are encoded without loss, by operations
    that bring such entries, with any outcomes of the system calls. *)
Inductive reachable : StoreSource → Prop :=
| reach_open path d st : NewStoreSource path true d = Ok st → allStorable (mem st) → reachable st
| reach_exec io o st r st' ds : reachable st → orderOk (walk io) → opStorable o → exec io o st = (r, st', ds) → reachable st'.

End store.
Arguments entries {T} _ _.
Arguments setEntries {T} _ _ _.

(** ** The file and the memory *)

Section storeProofs.
Context `{Json} (Hjson : JsonOk).

Lemma entry_decode_encoded r p : encodesProxy r p → DecodeProxyConfigurerJSON r false = Ok p.
Proof.
  intros (Hn & plugin & c0 & He & Ht & Hu & Hp). unfold DecodeProxyConfigurerJSON. rewrite Hn, He, Ht, Hu.
  destruct (isJSONNull plugin) eqn:Hnull; [done|]. destruct (Hp eq_refl) as (t & x & o & Hpe & Hin & Hpu & Hpl).
  unfold DecodeClientPluginOptionsJSON. rewrite Hnull, Hpe, decide_False, bool_decide_eq_true_2, Hpu by (done || by intros ->; revert Hin; apply (bool_decide_eq_false_1 (_ ∈ _)); reflexivity).
  simpl. unfold setPlugin. rewrite <-Hpl. by destruct p, b.
Qed.

Lemma decode_encoded_visitor r v : encodesVisitor r v → DecodeVisitorConfigurerJSON r false = Ok v.
Proof.
  intros (Hn & plugin & c0 & He & Ht & Hu & Hp). unfold DecodeVisitorConfigurerJSON. rewrite Hn, He, Ht, Hu.
  destruct (isJSONNull plugin) eqn:Hnull; [done|]. destruct (Hp eq_refl) as (t & x & o & Hpe & Hin & Hpu & Hpl).
  unfold DecodeVisitorPluginOptionsJSON. rewrite Hnull, Hpe, decide_False, bool_decide_eq_true_2, Hpu by (done || by intros ->; revert Hin; apply (bool_decide_eq_false_1 (_ ∈ _)); reflexivity).
  simpl. unfold setVisitorPlugin. rewrite <-Hpl. by destruct v, b.
Qed.

Lemma decodeAll_fold {A} `{Configurer A} decode (rs : list bytes) (cs : list A) : ∀ i m,
  Forall2 (λ r c, decode r = Ok c) rs cs → Forall (λ c, cfgName c ≠ EmptyString) cs →
  decodeAll decode i rs m = Ok (foldl (λ m c, <[ cfgName c := c ]> m) m cs).
Proof.
  intros i m Hf. revert i m. induction Hf as [|r c rs cs Hd Hf IH]; intros i m Hn; [done|].
  apply Forall_cons in Hn as [Hc Hn]. simpl. rewrite Hd, decide_False by done. by apply IH.
Qed.

(** The entries of a source: under their own names, which are not empty, and of some kind,
    of the type they name or encoded without loss. *)
Definition wfEntries {A} `{Configurer A} (typed : A → Prop) (m : gmap string A) : Prop :=
  keyed cfgName m ∧ ∀ k c, m !! k = Some c → k ≠ EmptyString ∧ typed c.
Definition wfSourceOf (P : ProxyConfigurer → Prop) (Q : VisitorConfigurer → Prop) (s : baseSource) : Prop :=
  wfEntries P (proxies s) ∧ wfEntries Q (visitors s).
Definition wfSource : baseSource → Prop := wfSourceOf typedProxy typedVisitor.
Definition wfStorable : baseSource → Prop := wfSourceOf storableProxy storableVisitor.

Lemma wf_values {A} `{Configurer A} (typed : A → Prop) (m : gmap string A) l : wfEntries typed m → l ≡ₚ values m →
  Forall typed l ∧ Forall (λ c, cfgName c ≠ EmptyString) l.
Proof.
  intros [Hk Ht] Hl. assert (Hc : ∀ c, c ∈ l → typed c ∧ cfgName c ≠ EmptyString);
    [|split; apply Forall_forall; intros c Hin; by apply Hc].
  intros c. rewrite Hl. unfold values. rewrite (elem_of_values cfgName) by done. intros Hm. by destruct (Ht _ _ Hm).
Qed.

Lemma Forall2_decoded {A} (R R' : bytes → A → Prop) (P : A → Prop) rs cs :
  (∀ r c, R r c → P c → R' r c) → Forall2 R rs cs → Forall P cs → Forall2 R' rs cs.
Proof. intros HR Hf. induction Hf; intros HP; apply Forall_cons in HP || idtac; constructor; destruct_and?; eauto. Qed.

(** What is written is read back. *)
Lemma saved_loads o s data : wfStorable s → orderOk o →
  marshalStore (orderP o (proxies s)) (orderV o (visitors s)) = Some data → loadFromFileUnlocked data = Ok s.
Proof using Hjson.
  intros [Hp Hv] [Ho1 Ho2] Hm.
  destruct (wf_values _ _ _ Hp (Ho1 _)) as [Hp1 Hp2], (wf_values _ _ _ Hv (Ho2 _)) as [Hv1 Hv2].
  destruct (json_store Hjson _ _ _ Hm) as (rps & rvs & Hu & Hfp & Hfv).
  unfold loadFromFileUnlocked. rewrite Hu.
  rewrite (decodeAll_fold _ _ (orderP o (proxies s))); [|by eapply Forall2_decoded; [|exact Hfp|exact Hp1]; intros r p Hr Hst; apply entry_decode_encoded, Hst|done].
  rewrite (decodeAll_fold _ _ (orderV o (visitors s))); [|by eapply Forall2_decoded; [|exact Hfv|exact Hv1]; intros r v Hr Hst; apply decode_encoded_visitor, Hst|done].
  rewrite (keyed_rebuild cfgName (proxies s)), (keyed_rebuild cfgName (visitors s)) by (done || apply Hp || apply Hv).
  by destruct s.
Qed.

(** The outcomes of a save: the old file stays until the new one is complete. *)
Lemma save_cases io s d : wfStorable s → orderOk (walk io) →
  let '(r, ds) := saveToFileUnlocked io s d in
  (r = Ok () ∧ ∃ data, last ds = Some (mkDisk (Some data) None) ∧ loadFromFileUnlocked data = Ok s ∧
     ∀ d', d' ∈ ds → target d' = target d ∨ target d' = Some data) ∨
  (r = Err ErrPersist ∧ ∀ d', d' ∈ ds → target d' = target d).
Proof using Hjson.
  intros Hs Ho. unfold saveToFileUnlocked. destruct (marshalStore _ _) as [data|] eqn:Hm;
    [|right; split; [done|by intros ? ?%elem_of_nil]].
  apply saved_loads in Hm; [|done..].
  destruct (mkdirOk io), (openOk io); simpl; try (right; split; [done|by intros ? ?%elem_of_nil]).
  destruct (writeOk io), (syncOk io), (closeOk io), (renameOk io); simpl;
    try (left; split; [done|]; exists data; split_and!; [done|done|];
         intros d'; rewrite !elem_of_cons, elem_of_nil; intros [-> | [-> | [-> | []]]]; auto; fail).
  all: right; split; [done|]; intros d'; rewrite !elem_of_cons, elem_of_nil;
    intros [-> | [-> | [-> | []]]]; by destruct (removeOk io).
Qed.

(** ** The operations and their specification *)

Class Lawful {T} (E : entriesFn T) := {
  entries_set : ∀ m s, entries E (setEntries E m s) = m;
  set_set : ∀ m m' s, setEntries E m (setEntries E m' s) = setEntries E m s;
  set_entries : ∀ s, setEntries E (entries E s) s = s }.
#[local] Instance proxyEntries_lawful : Lawful proxyStoreEntries.
Proof. split; intros; by try destruct s. Qed.
#[local] Instance visitorEntries_lawful : Lawful visitorStoreEntries.
Proof. split; intros; by try destruct s. Qed.

Lemma modify_modify {T} (E : entriesFn T) `{!Lawful E} f g s : modify E f (modify E g s) = modify E (f ∘ g) s.
Proof. unfold modify. by rewrite entries_set, set_set. Qed.

Lemma modify_id {T} (E : entriesFn T) `{!Lawful E} f s : f (entries E s) = entries E s → modify E f s = s.
Proof. unfold modify. intros ->. apply set_entries. Qed.

Lemma modify_ext {T} (E : entriesFn T) f g s : f (entries E s) = g (entries E s) → modify E f s = modify E g s.
Proof. unfold modify. by intros ->. Qed.

(** A change that is written, or undone. *)
Definition settles (io : IO) (st : StoreSource) (s' : baseSource) (x : res error unit * StoreSource * list Disk) : Prop :=
  ∃ r ds, saveToFileUnlocked io s' (disk st) = (r, ds) ∧
  x = match r with
      | Ok _ => (Ok (), mkStore s' (default (disk st) (last ds)), ds)
      | Err _ => (Err ErrPersist, mkStore (mem st) (default (disk st) (last ds)), ds)
      end.

Lemma persist_settles io rollback s' st : rollback s' = mem st →
  settles io st s' (persistOrRollbackUnlocked io rollback (mkStore s' (disk st))).
Proof.
  intros Hr. unfold settles, persistOrRollbackUnlocked. simpl. destruct (saveToFileUnlocked io s' (disk st)) as [r ds].
  exists r, ds. split; [done|]. by destruct r; rewrite ?Hr.
Qed.

Definition refines (io : IO) (st : StoreSource) (sp : res error baseSource) (x : res error unit * StoreSource * list Disk) : Prop :=
  match sp with Err e => x = (Err e, st, []) | Ok s' => settles io st s' x end.

Lemma add_refines {T} (E : entriesFn T) `{!Lawful E} io name c st :
  refines io st (specEntry E (added c) name (mem st)) (addStoreEntry E io name c st).
Proof.
  unfold refines, specEntry, added, addStoreEntry. destruct (entries E (mem st) !! name) eqn:Ee; [done|].
  change (partial_alter _ name) with (insert (M:=gmap string T) name c).
  apply persist_settles. rewrite modify_modify by done. apply modify_id; [done|]. by apply delete_insert_id.
Qed.

Lemma update_refines {T} (E : entriesFn T) `{!Lawful E} io name c st :
  refines io st (specEntry E (updated c) name (mem st)) (updateStoreEntry E io name c st).
Proof.
  unfold refines, specEntry, updated, updateStoreEntry. destruct (entries E (mem st) !! name) as [old|] eqn:Ee; [|done].
  change (partial_alter _ name) with (insert (M:=gmap string T) name c).
  apply persist_settles. rewrite modify_modify by done. apply modify_id; [done|]. simpl.
  rewrite insert_insert_eq. by apply insert_id.
Qed.

Lemma remove_refines {T} (E : entriesFn T) `{!Lawful E} io name st : name ≠ EmptyString →
  refines io st (specEntry E removed name (mem st)) (removeStoreEntry E io name st).
Proof.
  intros Hn. unfold refines, specEntry, removed, removeStoreEntry. rewrite decide_False by done.
  destruct (entries E (mem st) !! name) as [old|] eqn:Ee; [|done].
  change (partial_alter _ name) with (delete (M:=gmap string T) name).
  apply persist_settles. rewrite modify_modify by done. apply modify_id; [done|]. simpl. by apply insert_delete_id.
Qed.

Lemma named_refines {A} `{Configurer A} (E : entriesFn A) io (c : option A) f k st :
  (∀ c, refines io st (specEntry E (f c) (cfgName c) (mem st)) (k (cfgName c) c st)) →
  refines io st (specNamed E c f (mem st)) (withName c k st).
Proof. intros Hk. unfold specNamed, withName, validateName. destruct c as [c|]; [|done]. case_decide; [done|]. apply Hk. Qed.

Lemma exec_refines io o st : refines io st (spec o (mem st)) (exec io o st).
Proof.
  destruct o; simpl; try (apply named_refines; intros c; apply add_refines || apply update_refines; apply _);
    (case_decide; [subst; by unfold removeStoreEntry; rewrite decide_True|by apply remove_refines; [apply _|]]).
Qed.

(** ** Well-formed entries *)

Lemma decode_typed r strict p : DecodeProxyConfigurerJSON r strict = Ok p → typedProxy p.
Proof using Hjson.
  unfold DecodeProxyConfigurerJSON. intros Hd.
  destruct (isJSONNull r); [done|]. destruct (unmarshalEnvelope r) as [[t plugin]|] eqn:He; [|done].
  destruct (NewProxyConfigurerByType t) as [c0|] eqn:Ht; [|done].
  destruct (unmarshalProxy strict r c0) as [c|] eqn:Hu; [|done].
  assert (t ≠ EmptyString) as Hte by by intros ->.
  destruct (json_proxy Hjson _ _ _ _ _ _ He Hte Hu) as [H1 H2]. apply NewByType_Some in Ht as [Ht _].
  assert (typedProxy c) as Hc by (unfold typedProxy; congruence).
  destruct (isJSONNull plugin); [by injection Hd as <-|].
  destruct (DecodeClientPluginOptionsJSON plugin strict); [|done]. injection Hd as <-. by destruct c.
Qed.

Lemma NewVisitorByType_Some t c : NewVisitorConfigurerByType t = Some c → visitorTypeName c = t.
Proof. unfold NewVisitorConfigurerByType, visitorConfigTypeMap. simpl. intros E. repeat (case_decide; [by simplify_eq/=|]). done. Qed.

Lemma decode_typed_visitor r strict v : DecodeVisitorConfigurerJSON r strict = Ok v → typedVisitor v.
Proof using Hjson.
  unfold DecodeVisitorConfigurerJSON. intros Hd.
  destruct (isJSONNull r); [done|]. destruct (unmarshalEnvelope r) as [[t plugin]|] eqn:He; [|done].
  destruct (NewVisitorConfigurerByType t) as [c0|] eqn:Ht; [|done].
  destruct (unmarshalVisitor strict r c0) as [c|] eqn:Hu; [|done].
  assert (t ≠ EmptyString) as Hte by by intros ->.
  destruct (json_visitor Hjson _ _ _ _ _ _ He Hte Hu) as [H1 H2]. apply NewVisitorByType_Some in Ht.
  assert (typedVisitor c) as Hc by (unfold typedVisitor; congruence).
  destruct (isJSONNull plugin); [by injection Hd as <-|].
  destruct (DecodeVisitorPluginOptionsJSON plugin strict); [|done]. injection Hd as <-. by destruct c.
Qed.

Lemma wf_empty {A} `{Configurer A} typed : wfEntries typed (∅ : gmap string A).
Proof. split; intros k c; by rewrite lookup_empty. Qed.

Lemma wf_alter {A} `{Configurer A} typed (m : gmap string A) k x :
  wfEntries typed m → (∀ c, x = Some c → cfgName c = k ∧ k ≠ EmptyString ∧ typed c) →
  wfEntries typed (partial_alter (λ _, x) k m).
Proof.
  intros [Hk Ht] Hx. split; intros k' c; (destruct (decide (k = k')) as [->|Hne];
    [rewrite lookup_partial_alter_eq; intros Hc; by destruct (Hx c Hc) as (? & ? & ?)
    |rewrite lookup_partial_alter_ne by done]); [apply Hk|apply Ht].
Qed.

Lemma decodeAll_wf {A} `{Configurer A} typed decode rs : (∀ r (c : A), decode r = Ok c → typed c) → ∀ i m m',
  wfEntries typed m → decodeAll decode i rs m = Ok m' → wfEntries typed m'.
Proof.
  intros Hd. induction rs as [|r rs IH]; intros i m m' Hm; simpl; [by intros [= <-]|].
  destruct (decode r) as [c|] eqn:E; [|done]. case_decide as Hn; [done|]. apply IH.
  apply (wf_alter typed m (cfgName c) (Some c) Hm). intros c' [= <-]. eauto.
Qed.

Lemma load_of P Q data s : (∀ r c, DecodeProxyConfigurerJSON r false = Ok c → P c) → (∀ r c, DecodeVisitorConfigurerJSON r false = Ok c → Q c) →
  loadFromFileUnlocked data = Ok s → wfSourceOf P Q s.
Proof.
  intros HP HQ. unfold loadFromFileUnlocked. destruct (unmarshalStore data) as [[rps rvs]|]; [|done].
  destruct (decodeAll _ 0 rps ∅) as [ps|] eqn:Ep; [|done]. destruct (decodeAll _ 0 rvs ∅) as [vs|] eqn:Ev; [|done].
  intros [= <-]. split; simpl; (eapply decodeAll_wf; [|apply wf_empty|done]; eauto).
Qed.

(** A store that opens has entries of the type they name, under their own names. *)
Lemma opened_wf path readOk d st : NewStoreSource path readOk d = Ok st → wfSource (mem st).
Proof using Hjson.
  unfold NewStoreSource. case_decide; [done|]. destruct (target d) as [data|]; [|intros [= <-]; split; apply wf_empty].
  destruct readOk; [|done]. simpl. destruct (loadFromFileUnlocked data) as [s|] eqn:El; [|done]. intros [= <-].
  eapply load_of; [..|exact El]; eauto using decode_typed, decode_typed_visitor.
Qed.

Lemma opened_keyed path readOk d st : NewStoreSource path readOk d = Ok st → wfSourceOf (λ _, True) (λ _, True) (mem st).
Proof.
  unfold NewStoreSource. case_decide; [done|]. destruct (target d) as [data|]; [|intros [= <-]; split; apply wf_empty].
  destruct readOk; [|done]. simpl. destruct (loadFromFileUnlocked data) as [s|] eqn:El; [|done]. intros [= <-]. by eapply load_of.
Qed.

Lemma wf_storable s : wfSourceOf (λ _, True) (λ _, True) s → allStorable s → wfStorable s.
Proof.
  intros [[Hp1 Hp2] [Hv1 Hv2]] [Hp Hv]. split; (split; [done|]); intros k c Hc;
    [destruct (Hp2 k c Hc)|destruct (Hv2 k c Hc)]; split; [done|by eapply Hp|done|by eapply Hv].
Qed.

Lemma specEntry_wf {A} `{Configurer A} (E : entriesFn A) `{!Lawful E} typed f name s s' :
  (∀ old x c, f old = Ok x → x = Some c → cfgName c = name ∧ name ≠ EmptyString ∧ typed c) →
  wfEntries typed (entries E s) → specEntry E f name s = Ok s' →
  wfEntries typed (entries E s') ∧ s' = setEntries E (entries E s') s.
Proof.
  intros Hf Hs. unfold specEntry. destruct (f _) as [x|] eqn:Ef; [|done]. intros [= <-].
  unfold modify. rewrite entries_set. split; [|done]. apply wf_alter; [done|]. intros c. by eapply Hf.
Qed.

Lemma spec_wf_of P Q o s s' : wfSourceOf P Q s → opBrings P Q o → spec o s = Ok s' → wfSourceOf P Q s'.
Proof.
  intros [Hp Hv] Ho Hs.
  assert (Hadd : ∀ T (c : T) old x c', (added c old = Ok x ∨ updated c old = Ok x) → x = Some c' → c' = c)
    by (intros T c [o'|] x c' [Ha|Ha] Hx; simplify_eq/=; done).
  assert (Hrem : ∀ T (old : option T) x c', removed old = Ok x → x = Some c' → False)
    by (intros T [o'|] x c' Ha Hx; simplify_eq/=).
  destruct o as [c|c|n|c|c|n]; simpl in Hs; unfold specNamed in Hs;
    try (destruct c as [c|]; [|done]); (case_decide as Hn; [done|]); simpl in Ho;
    (first [apply (specEntry_wf proxyStoreEntries P) in Hs as [Hw ->]
           |apply (specEntry_wf visitorStoreEntries Q) in Hs as [Hw ->]]);
    try done; try (by split); try apply _;
    intros old x c' Hf Hx; first [by destruct (Hrem _ _ _ _ Hf Hx)|idtac];
    (assert (c' = c) as -> by (eapply Hadd; eauto)); done.
Qed.

Lemma spec_wf o s s' : wfSource s → opTyped o → spec o s = Ok s' → wfSource s'.
Proof. apply spec_wf_of. Qed.

(** Memory and file agree. *)
Definition onDisk (t : option bytes) (s : baseSource) : Prop :=
  match t with None => s = newBaseSource | Some data => loadFromFileUnlocked data = Ok s end.
Definition synced (st : StoreSource) : Prop := wfStorable (mem st) ∧ onDisk (target (disk st)) (mem st).

Lemma open_synced path d st : NewStoreSource path true d = Ok st → allStorable (mem st) → synced st.
Proof.
  unfold NewStoreSource. case_decide; [done|]. destruct (target d) as [data|] eqn:Et; simpl.
  - destruct (loadFromFileUnlocked data) as [s|] eqn:El; [|done]. intros [= <-] Hs. split; simpl; [|by rewrite Et].
    apply wf_storable; [|done]. by eapply load_of.
  - intros [= <-] _. split; simpl; [|by rewrite Et]. split; apply wf_empty.
Qed.

Lemma synced_opens path d s junk : path ≠ EmptyString → onDisk (target d) s →
  NewStoreSource path true (mkDisk (target d) junk) = Ok (mkStore s (mkDisk (target d) junk)).
Proof.
  intros Hp Hd. unfold NewStoreSource. rewrite decide_False by done. simpl.
  destruct (target d) as [data|]; simpl in *; [by rewrite Hd|by rewrite Hd].
Qed.

Lemma exec_synced io o st : synced st → orderOk (walk io) → opStorable o →
  let '(r, st', ds) := exec io o st in
  synced st' ∧ ∀ d, d ∈ disk st :: ds → onDisk (target d) (mem st) ∨ onDisk (target d) (mem st').
Proof using Hjson.
  intros [Hw Hd] Ho Hty. pose proof (exec_refines io o st) as Hr. unfold refines in Hr.
  destruct (spec o (mem st)) as [s'|e] eqn:Es.
  2: { rewrite Hr. split; [done|]. intros d. rewrite elem_of_cons, elem_of_nil. intros [->|[]]. by left. }
  destruct Hr as (r & ds & Hs & ->). pose proof (spec_wf_of _ _ _ _ _ Hw Hty Es) as Hw'.
  pose proof (save_cases io s' (disk st) Hw' Ho) as Hc. rewrite Hs in Hc.
  destruct Hc as [(-> & data & Hl & Hload & Hds)|(-> & Hds)].
  - rewrite Hl. split; [by split|]. intros d. rewrite elem_of_cons. intros [->|Hin]; [by left|].
    destruct (Hds d Hin) as [-> | ->]; [by left|by right].
  - assert (Hall : ∀ d, d ∈ disk st :: ds → target d = target (disk st))
      by (intros d; rewrite elem_of_cons; intros [->|?]; auto).
    split; [|intros d Hin; left; by rewrite Hall]. split; [done|]. simpl.
    rewrite Hall; [done|]. destruct (last ds) as [d|] eqn:El; [|left]. right. simpl.
    apply last_Some in El as [l ->]. apply elem_of_app. right. left.
Qed.

Lemma reachable_synced st : reachable st → synced st.
Proof using Hjson.
  induction 1 as [path d st Ho Hst|io o st r st' ds Hr IH Ho Hty He]; [by eapply open_synced|].
  pose proof (exec_synced io o st IH Ho Hty) as Hs. rewrite He in Hs. apply Hs.
Qed.
End storeProofs.

(** The store as two maps whose changes can fail to be written. *)
Inductive specStep (o : op) (s : baseSource) : res error unit → baseSource → Prop :=
| spec_done s' : spec o s = Ok s' → specStep o s (Ok ()) s'
| spec_refused e : spec o s = Err e → specStep o s (Err e) s
| spec_unwritten s' : spec o s = Ok s' → specStep o s (Err ErrPersist) s.

Lemma exec_specStep `{Json} io o st r st' ds : exec io o st = (r, st', ds) → specStep o (mem st) r (mem st').
Proof.
  intros He. pose proof (exec_refines io o st) as Hr. unfold refines in Hr. rewrite He in Hr.
  destruct (spec o (mem st)) as [s'|e] eqn:Es.
  - destruct Hr as (r0 & ds0 & Hs & Hx). destruct r0; injection Hx as -> -> ->; by econstructor.
  - injection Hr as -> -> ->. by constructor.
Qed.

(** C20: The store implements its two maps and survives a crash.  From any store that was
    opened from a missing file, or from one with entries that are encoded without loss, and
    changed with any failures of the system calls, an operation that brings no other entry
    does to the maps what its specification says, or fails to be written and changes nothing;
    if the process stops after any of its system calls, reopening the file (whatever the
    temporary file holds) gives the entries before or after the operation, and after it
    returns the file holds exactly the entries in memory. *)
Theorem store_durable `{Json} st io o r st' ds :
  JsonOk → reachable st → orderOk (walk io) → opStorable o → exec io o st = (r, st', ds) →
  specStep o (mem st) r (mem st') ∧
  (∀ d path junk, d ∈ disk st :: ds → path ≠ EmptyString → ∃ s,
     NewStoreSource path true (mkDisk (target d) junk) = Ok (mkStore s (mkDisk (target d) junk)) ∧
     (s = mem st ∨ s = mem st')) ∧
  (∀ path, path ≠ EmptyString → NewStoreSource path true (disk st') = Ok st').
Proof.
  intros Hj Hr Ho Hty He. pose proof (exec_synced Hj io o st (reachable_synced Hj st Hr) Ho Hty) as Hs. rewrite He in Hs.
  destruct Hs as [[_ Hs] Hd]. split_and!.
  - by eapply exec_specStep.
  - intros d path junk Hin Hp. destruct (Hd d Hin) as [Hm|Hm]; [exists (mem st)|exists (mem st')];
      (split; [by apply synced_opens|auto]).
  - intros path Hp. pose proof (synced_opens path (disk st') (mem st') (tmp (disk st')) Hp Hs) as Hopen.
    by destruct st' as [m [t' u]].
Qed.

(** ** The aggregator: [aggregator.go] *)

(** The sources are looked up when [Load] runs; both can be missing. *)
Record Aggregator := mkAggregator { configSource : option baseSource; storeSource : option baseSource }.

Definition getSourcesLocked (a : Aggregator) : list baseSource :=
  option_list (configSource a) ++ option_list (storeSource a).

Definition collect {A} `{Configurer A} (m : gmap string A) (cs : list A) : gmap string A :=
  foldl (λ m c, <[ cfgName c := c ]> m) m cs.

(** [slices.SortedFunc] by [cmp.Compare] of the names. *)
Definition byName {A} `{Configurer A} (x y : A) : Prop := String.le (cfgName x) (cfgName y).
#[global] Instance byName_dec {A} `{Configurer A} (x y : A) : Decision (byName x y).
Proof. unfold byName. apply _. Defined.
Definition sortByName {A} `{Configurer A} (l : list A) : list A := merge_sort byName l.

Definition mapsToSortedSlices (o : order) (pm : gmap string ProxyConfigurer) (vm : gmap string VisitorConfigurer)
  : list ProxyConfigurer * list VisitorConfigurer := (sortByName (orderP o pm), sortByName (orderV o vm)).

Definition LoadAll (o : order) (a : Aggregator) : res error (list ProxyConfigurer * list VisitorConfigurer) :=
  match getSourcesLocked a with
  | [] => Err ErrNoSources
  | srcs =>
      let '(pm, vm) := foldl (λ '(pm, vm) src, let '(ps, vs) := Load o src in (collect pm ps, collect vm vs)) (∅, ∅) srcs in
      Ok (mapsToSortedSlices o pm vm)
  end.

(** The merged configuration: an enabled entry of the store, else an enabled entry of the file. *)
Definition enabledEntries {A} `{Configurer A} (m : gmap string A) : gmap string A :=
  omap (λ c, if decide (enabled c) then Some c else None) m.
Definition merged {A} `{Configurer A} (sel : baseSource → gmap string A) (a : Aggregator) : gmap string A :=
  enabledEntries (default ∅ (sel <$> storeSource a)) ∪ enabledEntries (default ∅ (sel <$> configSource a)).

Section aggregate.
Context {A : Type} `{Configurer A}.
Implicit Types (m : gmap string A).

Lemma enabledEntries_keyed m : keyed cfgName m → keyed cfgName (enabledEntries m).
Proof.
  intros Hk k c Hc. unfold enabledEntries in Hc. rewrite lookup_omap in Hc. apply bind_Some in Hc as (c' & Hm & Hc).
  case_decide; simplify_eq. by apply Hk.
Qed.

Lemma elem_of_enabledEntries m c : keyed cfgName m →
  c ∈ values (enabledEntries m) ↔ enabled c ∧ c ∈ values m.
Proof.
  intros Hk. unfold values. rewrite !(elem_of_values cfgName) by (done || by apply enabledEntries_keyed).
  unfold enabledEntries. rewrite lookup_omap. rewrite bind_Some. split.
  - intros (c' & Hm & Hc). case_decide; simplify_eq. by split.
  - intros [He Hm]. exists c. split; [done|]. by rewrite decide_True.
Qed.

(** Collecting the enabled values of a source, in any order, over what was collected. *)
Lemma collect_enabled m m0 l : keyed cfgName m → l ≡ₚ values m → collect m0 (filter enabled l) = enabledEntries m ∪ m0.
Proof.
  intros Hk Hl. assert (Hnd : NoDup (cfgName <$> filter enabled l)).
  { apply NoDup_fmap_filter. rewrite Hl. unfold values. rewrite keyed_values by done. apply NoDup_fst_map_to_list. }
  assert (Hin : ∀ c, c ∈ filter enabled l ↔ enabledEntries m !! cfgName c = Some c).
  { intros c. rewrite list_elem_of_filter, Hl, <-elem_of_enabledEntries by done.
    apply elem_of_values. by apply enabledEntries_keyed. }
  assert (Hbase : ∀ l m0, NoDup (cfgName <$> l) → ∀ k, collect m0 l !! k =
    match collect ∅ l !! k with Some c => Some c | None => m0 !! k end).
  { clear. induction l as [|c l IH]; intros m0 Hnd k; simpl; [done|]. apply NoDup_cons in Hnd as [Hc Hnd].
    unfold collect in *. rewrite (IH (<[cfgName c:=c]> m0)), (IH (<[cfgName c:=c]> ∅)) by done.
    destruct (foldl _ ∅ l !! k); [done|]. destruct (decide (cfgName c = k)) as [->|Hne];
      [by rewrite !lookup_insert_eq|by rewrite !lookup_insert_ne, lookup_empty]. }
  apply map_eq. intros k. rewrite Hbase by done. rewrite lookup_union.
  assert (Hek : collect ∅ (filter enabled l) !! k = enabledEntries m !! k).
  { apply option_eq. intros c. unfold collect. rewrite lookup_keyed_fold by (done || intros; apply lookup_empty).
    rewrite lookup_empty, Hin. split; [by intros [?|[? <-]]|]. intros Hc. right.
    by rewrite (enabledEntries_keyed m Hk _ _ Hc). }
  rewrite Hek. by destruct (enabledEntries m !! k), (m0 !! k).
Qed.

#[global] Instance byName_trans : Transitive (byName (A:=A)).
Proof. intros x y z. unfold byName. apply transitivity. Qed.
#[global] Instance byName_total : Total (byName (A:=A)).
Proof. intros x y. unfold byName. apply total. apply _. Qed.

Lemma sortByName_unique m l : keyed cfgName m → l ≡ₚ values m → sortByName l = sortByName (values m).
Proof.
  intros Hk Hl. assert (Hp : sortByName l ≡ₚ sortByName (values m)) by (unfold sortByName; by rewrite !merge_sort_Permutation).
  assert (Ha : ∀ x y, x ∈ sortByName l → y ∈ sortByName l → byName x y → byName y x → x = y).
  { intros x y. unfold sortByName. rewrite !(merge_sort_Permutation byName), Hl. unfold values.
    rewrite !(elem_of_values cfgName) by done. intros Hx Hy H1 H2. unfold byName in *.
    assert (cfgName x = cfgName y) as E by (by apply (anti_symm String.le)). congruence. }
  apply (Sorted_unique_strong byName); [|apply Sorted_merge_sort; apply _|apply Sorted_merge_sort; apply _|done].
  intros x1 x2 H1 H2. apply Ha; [done|]. by rewrite Hp.
Qed.
End aggregate.

Lemma merged_keyed {A} `{Configurer A} (sel : baseSource → gmap string A) a :
  (∀ s, s ∈ getSourcesLocked a → keyed cfgName (sel s)) → keyed cfgName (merged sel a).
Proof.
  intros Hk. unfold merged. intros k c Hc.
  assert (Hs : ∀ x, (∀ s, x = Some s → s ∈ getSourcesLocked a) → keyed cfgName (enabledEntries (default ∅ (sel <$> x)))).
  { intros [s|] Hx; apply enabledEntries_keyed; [by apply Hk, Hx|]. intros k' c' Hc'. simpl in Hc'. by rewrite lookup_empty in Hc'. }
  apply lookup_union_Some_raw in Hc as [Hc|[_ Hc]]; revert Hc; apply Hs; intros s Hx;
    unfold getSourcesLocked; rewrite Hx; set_solver.
Qed.

Lemma LoadAll_merged o a : orderOk o →
  (∀ s, s ∈ getSourcesLocked a → keyed cfgName (proxies s) ∧ keyed cfgName (visitors s)) → getSourcesLocked a ≠ [] →
  LoadAll o a = Ok (sortByName (values (merged proxies a)), sortByName (values (merged visitors a))).
Proof.
  intros [Ho1 Ho2] Hk Hne. unfold LoadAll.
  assert (Hfold : foldl (λ '(pm, vm) src, let '(ps, vs) := Load o src in (collect pm ps, collect vm vs)) (∅, ∅)
    (getSourcesLocked a) = (merged proxies a, merged visitors a)).
  { clear Hne. destruct a as [[c|] [s|]]; unfold merged, getSourcesLocked in *; cbn -[cfgName] in *;
      f_equal; repeat match goal with |- context [filter enabled (_ o ?m)] =>
        rewrite (collect_enabled m) by (apply Ho1 || apply Ho2 || (apply Hk; set_solver)) end; unfold enabledEntries;
      rewrite ?omap_empty, ?(right_id_L ∅ (∪)), ?(left_id_L ∅ (∪)); done. }
  pose proof (merged_keyed proxies a (λ s Hs, proj1 (Hk s Hs))) as Hm1.
  pose proof (merged_keyed visitors a (λ s Hs, proj2 (Hk s Hs))) as Hm2.
  destruct (getSourcesLocked a) as [|x l] eqn:E; [done|]. rewrite Hfold.
  unfold mapsToSortedSlices. by rewrite (sortByName_unique (merged proxies a)), (sortByName_unique (merged visitors a)).
Qed.

(** The entry of a source, if there is a source and it is enabled. *)
Definition enabledAt {A} `{Configurer A} (sel : baseSource → gmap string A) (x : option baseSource) (k : string) : option A :=
  match x with
  | Some s => match sel s !! k with Some c => if decide (enabled c) then Some c else None | None => None end
  | None => None
  end.

Lemma lookup_merged {A} `{Configurer A} (sel : baseSource → gmap string A) a k :
  merged sel a !! k =
  match enabledAt sel (storeSource a) k with Some c => Some c | None => enabledAt sel (configSource a) k end.
Proof.
  unfold merged, enabledEntries, enabledAt. rewrite lookup_union, !lookup_omap.
  destruct a as [[c|] [s|]]; simpl; rewrite ?lookup_empty; simpl;
    repeat (destruct (sel _ !! k); simpl); repeat case_decide; done.
Qed.

(** The configuration that is applied does not depend on the order in which Go walks its
    maps: [Load] of the aggregator returns, sorted by name, the values of the merged map, in
    which a name has the entry of the store if it is enabled, else the entry of the
    configuration file if that is enabled (a disabled entry of the store does not hide the
    file's), and nothing else. *)
Theorem aggregator_merges o a :
  orderOk o → (∀ s, s ∈ getSourcesLocked a → keyed cfgName (proxies s) ∧ keyed cfgName (visitors s)) →
  getSourcesLocked a ≠ [] →
  LoadAll o a = Ok (sortByName (values (merged proxies a)), sortByName (values (merged visitors a))) ∧
  (∀ k, merged proxies a !! k =
     match enabledAt proxies (storeSource a) k with Some c => Some c | None => enabledAt proxies (configSource a) k end).
Proof. intros Ho Hk Hne. split; [by apply LoadAll_merged|intros k; apply lookup_merged]. Qed.

Lemma replaceEntries_fold {A} `{Configurer A} (cs : list (option A)) : ∀ m r, replaceEntries cs m = Ok r →
  ∃ l, cs = Some <$> l ∧ Forall (λ c, cfgName c ≠ EmptyString) l ∧ r = collect m l.
Proof.
  induction cs as [|[c|] cs IH]; intros m r; simpl; [intros [= <-]; by exists []| |done].
  case_decide as Hn; [done|]. intros Hr. apply IH in Hr as (l & -> & Hl & ->). exists (c :: l).
  split_and!; [done|by constructor|done].
Qed.

(** Replacing the configuration is all or nothing. *)
Lemma ReplaceAll_outcome ps vs s r s' : ReplaceAll ps vs s = (r, s') →
  match r with
  | Err _ => s' = s
  | Ok _ => ∃ lp lv, ps = Some <$> lp ∧ vs = Some <$> lv ∧ s' = mkSource (collect ∅ lp) (collect ∅ lv)
  end.
Proof.
  unfold ReplaceAll. destruct (replaceEntries ps ∅) eqn:Ep; [|by intros [= <- <-]].
  destruct (replaceEntries vs ∅) eqn:Ev; [|by intros [= <- <-]]. intros [= <- <-].
  apply replaceEntries_fold in Ep as (lp & -> & _ & ->). apply replaceEntries_fold in Ev as (lv & -> & _ & ->).
  by exists lp, lv.
Qed.

(** ** Witnesses *)

Definition demoVisitor : VisitorConfigurer := STCPVisitorConfig (zeroVisitorBase "stcp").
Definition demoProxy (name : string) (on : bool) : ProxyConfigurer :=
  TCPProxyConfig (mkBase name "tcp" (if on then None else Some false) ∅ zeroTransport ∅ (mkLoadBalancer EmptyString EmptyString)
    (mkHealthCheck EmptyString 0 0 0 EmptyString []) EmptyString 0 (mkPlugin EmptyString None)) 6000.

(** A codec for two files: no entry, and the proxy [ssh]. *)
#[local] Instance demoJson : Json := {
  marshalStore ps vs :=
    match vs with
    | [] => if decide (ps = []) then Some (ofString "{}") else if decide (ps = [demoProxy "ssh" true]) then Some (ofString "s") else None
    | _ => None
    end;
  marshalProxy p := if decide (p = demoProxy "ssh" true) then Some (ofString "p") else None;
  marshalVisitor _ := None;
  compact b := b;
  unmarshalStore b :=
    if decide (b = ofString "{}") then Some ([], []) else if decide (b = ofString "s") then Some ([ofString "p"], []) else None;
  unmarshalEnvelope b := Some ("tcp"%string, []);
  unmarshalProxy _ _ c0 := match c0 with TCPProxyConfig _ _ => Some (demoProxy "ssh" true) | _ => None end;
  unmarshalVisitor _ _ _ := None;
  unmarshalClientPlugin _ _ _ := None;
  unmarshalVisitorPlugin _ _ _ := None }.

Lemma demoJson_ok : JsonOk.
Proof.
  split.
  - intros ps vs data Hm. simpl in *. destruct vs; [|done]. case_decide as Hps.
    { subst. injection Hm as <-. exists [], []. split_and!; [reflexivity|constructor|constructor]. }
    case_decide as Hps'; [|done]. subst. injection Hm as <-. exists [ofString "p"], [].
    split_and!; [reflexivity| |constructor]. constructor; [|constructor]. by rewrite decide_True.
  - intros strict r t plugin c0 p He _ Hu. simpl in *. injection He as <- <-. destruct c0; [|done..]. by injection Hu as <-.
  - intros strict r t plugin c0 v _ _ Hu. done.
Qed.

Lemma demo_storable : storableProxy (demoProxy "ssh" true).
Proof.
  intros r. simpl. rewrite decide_True by done. intros [= <-]. split; [reflexivity|].
  exists [], (TCPProxyConfig (setType "tcp" zeroBase) 0). split_and!; reflexivity || discriminate.
Qed.

Definition demoOrder : order := mkOrder values values.
Definition demoIO (rename : bool) : IO := mkIO true true true 0 true true rename true demoOrder.

Lemma demoOrder_ok : orderOk demoOrder.
Proof. by split. Qed.

Lemma store_durable_witness :
  let st := mkStore newBaseSource (mkDisk None None) in
  (exec (demoIO true) (AddProxy (Some (demoProxy "ssh" true))) st).1.1 = Ok () ∧
  NewStoreSource "store.json" true (exec (demoIO true) (AddProxy (Some (demoProxy "ssh" true))) st).1.2.(disk)
    = Ok (exec (demoIO true) (AddProxy (Some (demoProxy "ssh" true))) st).1.2.
Proof.
  intros st.
  destruct (store_durable st (demoIO true) (AddProxy (Some (demoProxy "ssh" true))) _ _ _ demoJson_ok
    (reach_open "store.json" (mkDisk None None) st eq_refl (conj (map_Forall_empty _) (map_Forall_empty _))) demoOrder_ok demo_storable (surjective_pairing _)) as (_ & _ & H).
  split; [vm_compute; reflexivity|]. apply (H "store.json"%string). discriminate.
Defined.

Definition demoAggregator : Aggregator :=
  mkAggregator (Some (mkSource {[ "ssh" := demoProxy "ssh" true; "web" := demoProxy "web" true ]} ∅))
    (Some (mkSource {[ "ssh" := demoProxy "ssh" false; "dns" := demoProxy "dns" true ]} ∅)).

Lemma aggregator_merges_witness :
  LoadAll demoOrder demoAggregator = Ok ([demoProxy "dns" true; demoProxy "ssh" true; demoProxy "web" true], []).
Proof.
  destruct (aggregator_merges demoOrder demoAggregator demoOrder_ok) as [H _].
  - intros s Hs. assert (s = mkSource {[ "ssh" := demoProxy "ssh" true; "web" := demoProxy "web" true ]} ∅ ∨
      s = mkSource {[ "ssh" := demoProxy "ssh" false; "dns" := demoProxy "dns" true ]} ∅) as [-> | ->]
      by (unfold getSourcesLocked in Hs; simpl in Hs; set_solver); split; intros k c Hc; simpl in Hc;
      rewrite ?lookup_insert_Some, ?lookup_singleton_Some, ?lookup_empty in Hc; naive_solver.
  - discriminate.
  - rewrite H. vm_compute. reflexivity.
Defined.
End Source.
