(* ===== verification/ClientService.v ===== *)
(** * The client: [client/service.go], [control.go], [control_session.go], [config_manager.go],
      [client/visitor/visitor_manager.go]

    The client keeps one control session to the server.  Its configuration comes
    from the sources, is published in the service and applied to the managers of
    proxies and visitors of the current control; a login installs a new control
    with the configuration published at that moment.  Publication and installation
    happen under the locks [cfgMu] and [ctlMu], dialling and closing outside of
    them, so these are steps of their own. *)
From S2P Require Import Prelude Bytes Config Source ClientProxy Binding.
Import Config Source.

(** ** Visitors: [client/visitor/visitor_manager.go] *)
Module VisitorManager.
Section manager.
Context {V : Type} `{EqDecision V} `{Configurer V}.

(** A visitor that was started, by the number of its start. *)
Record Visitor := mkVisitor { vid : nat; vcfg : V }.

(** [stopped] stands for [stopCh] being closed, [keeping] for [keepVisitorsRunningOnce]; [begun] and
    [closed] record the visitors that were started and the calls of [Close] on them. *)
Record Manager := mkManager {
  cfgs : gmap string V; visitors : gmap string Visitor; keeping : bool; stopped : bool; next : nat;
  begun : list Visitor; closed : list nat }.

Definition NewManager : Manager := mkManager ∅ ∅ false false 0 [] [].

(** [startVisitor]; [ok] tells whether the start with a number succeeds. *)
Definition startVisitor (ok : nat → bool) (cfg : V) (vm : Manager) : Manager :=
  let v := mkVisitor (next vm) cfg in
  if ok (next vm)
  then mkManager (cfgs vm) (<[ cfgName cfg := v ]> (visitors vm)) (keeping vm) (stopped vm) (S (next vm)) (begun vm ++ [v]) (closed vm)
  else mkManager (cfgs vm) (visitors vm) (keeping vm) (stopped vm) (S (next vm)) (begun vm) (closed vm).

Definition outdated (m : gmap string V) (x : string * V) : bool :=
  match m !! x.1 with Some c => negb (bool_decide (x.2 = c)) | None => true end.

Definition removeVisitor (vm : Manager) (x : string * V) : Manager :=
  mkManager (delete x.1 (cfgs vm)) (delete x.1 (visitors vm)) (keeping vm) (stopped vm) (next vm) (begun vm)
    (closed vm ++ match visitors vm !! x.1 with Some v => [vid v] | None => [] end).

Definition addVisitor (ok : nat → bool) (vm : Manager) (cfg : V) : Manager :=
  match cfgs vm !! cfgName cfg with
  | Some _ => vm
  | None =>
      startVisitor ok cfg (mkManager (<[ cfgName cfg := cfg ]> (cfgs vm)) (visitors vm) (keeping vm) (stopped vm) (next vm)
                             (begun vm) (closed vm))
  end.

(** [lo.KeyBy] by name: the last configuration of a name. *)
Definition keyByName (l : list V) : gmap string V := foldl (λ m c, <[ cfgName c := c ]> m) ∅ l.

Definition UpdateAll (ok : nat → bool) (l : list V) (vm : Manager) : Manager :=
  let vm := mkManager (cfgs vm) (visitors vm) (keeping vm || negb (bool_decide (l = []))) (stopped vm) (next vm) (begun vm) (closed vm) in
  let vm := foldl removeVisitor vm (filter (λ x, outdated (keyByName l) x = true) (map_to_list (cfgs vm))) in
  foldl (addVisitor ok) vm l.

(** One tick of [keepVisitorsRunning]. *)
Definition tick (ok : nat → bool) (vm : Manager) : Manager :=
  foldl (λ vm cfg, match visitors vm !! cfgName cfg with Some _ => vm | None => startVisitor ok cfg vm end)
    vm (map_to_list (cfgs vm)).*2.

Definition Close (vm : Manager) : Manager :=
  mkManager (cfgs vm) (visitors vm) (keeping vm) true (next vm) (begun vm) (closed vm ++ (vid <$> (map_to_list (visitors vm)).*2)).

(** ** Every visitor that was started is accounted for *)

Record vinv (vm : Manager) : Prop := mkVinv {
  v_keyed : keyed cfgName (cfgs vm);
  v_cur : ∀ n v, visitors vm !! n = Some v → cfgs vm !! n = Some (vcfg v) ∧ v ∈ begun vm;
  v_next : ∀ v, v ∈ begun vm → (vid v < next vm)%nat;
  v_ids : NoDup (vid <$> begun vm);
  v_closed : ∀ i, i ∈ closed vm → ∃ v, v ∈ begun vm ∧ vid v = i ∧ visitors vm !! cfgName (vcfg v) ≠ Some v;
  v_once : NoDup (closed vm);
  v_all : ∀ v, v ∈ begun vm → visitors vm !! cfgName (vcfg v) = Some v ∨ vid v ∈ closed vm }.

Lemma vinv_new : vinv NewManager.
Proof.
  split; simpl; try apply NoDup_nil_2; intros *; rewrite ?lookup_empty; try done; by intros ?%elem_of_nil.
Qed.

Lemma begun_inj vm v w : vinv vm → v ∈ begun vm → w ∈ begun vm → vid v = vid w → v = w.
Proof.
  intros Hi Hv Hw E. apply list_elem_of_lookup in Hv as [i Hv]. apply list_elem_of_lookup in Hw as [j Hw].
  assert (i = j) as ->; [|congruence]. apply (NoDup_lookup (vid <$> begun vm) i j (vid v) (v_ids vm Hi)).
  - by rewrite list_lookup_fmap, Hv.
  - rewrite list_lookup_fmap, Hw. simpl. by rewrite E.
Qed.

Lemma vinv_start ok cfg vm : vinv vm → cfgs vm !! cfgName cfg = Some cfg → visitors vm !! cfgName cfg = None →
  vinv (startVisitor ok cfg vm).
Proof.
  intros Hi Hc Hn. pose proof Hi as [Hk Hcur Hnext Hids Hcl Honce Hall]. unfold startVisitor.
  set (v := mkVisitor (next vm) cfg). assert (Hfresh : v ∉ begun vm) by (intros Hv%Hnext; simpl in Hv; lia).
  destruct (ok (next vm)); [|split; simpl; try done; intros w Hw%Hnext; lia].
  split; simpl; [done| | | | |done|].
  - intros n w. rewrite lookup_insert_Some, elem_of_app, list_elem_of_singleton. intros [[<- <-]|[Hne Hw]]; [auto|].
    destruct (Hcur n w Hw). auto.
  - intros w. rewrite elem_of_app, list_elem_of_singleton. intros [Hw%Hnext| ->]; simpl; lia.
  - rewrite fmap_app. apply NoDup_app. split_and!; [done| |apply NoDup_singleton].
    intros i (w & -> & Hw)%list_elem_of_fmap. simpl. rewrite list_elem_of_singleton. apply Hnext in Hw. lia.
  - intros i Hi'. destruct (Hcl i Hi') as (w & Hw & Hwi & Hno). exists w. split_and!; [by apply elem_of_app; left|done|].
    rewrite lookup_insert_Some. intros [[_ Heq]|[_ ?]]; [|done]. by rewrite <-Heq in Hw.
  - intros w. rewrite elem_of_app, list_elem_of_singleton. intros [Hw| ->]; [|left; apply lookup_insert_eq].
    destruct (Hall w Hw) as [Hv|?]; [|by right]. left. rewrite lookup_insert_ne; [done|]. congruence.
Qed.

Lemma vinv_remove x vm : vinv vm → vinv (removeVisitor vm x).
Proof.
  intros Hi. pose proof Hi as [Hk Hcur Hnext Hids Hcl Honce Hall]. destruct x as [n c]. unfold removeVisitor. simpl.
  assert (Hopen : ∀ v, visitors vm !! n = Some v → v ∈ begun vm ∧ cfgName (vcfg v) = n ∧ vid v ∉ closed vm).
  { intros v Hv. destruct (Hcur n v Hv) as [Hc Hb]. pose proof (Hk _ _ Hc) as Hn. split_and!; [done|done|].
    intros Hin. destruct (Hcl _ Hin) as (w & Hw & Hid & Hno). apply Hno.
    rewrite (begun_inj vm w v Hi Hw Hb Hid). by rewrite Hn. }
  split; simpl; [| |done|done| | |].
  - intros k c'. rewrite lookup_delete_Some. intros [_ ?]. by apply Hk.
  - intros k v. rewrite !lookup_delete_Some. intros [Hne Hv]. destruct (Hcur k v Hv). split; [split; [done|done]|done].
  - intros i. rewrite elem_of_app. intros [Hin|Hin].
    + destruct (Hcl i Hin) as (w & Hw & Hid & Hno). exists w. split_and!; [done|done|]. rewrite lookup_delete_Some. naive_solver.
    + destruct (visitors vm !! n) as [v|] eqn:Ev; [|by apply elem_of_nil in Hin]. apply list_elem_of_singleton in Hin as ->.
      destruct (Hopen v eq_refl) as (Hb & Hn & _). exists v. split_and!; [done|done|]. rewrite Hn. by rewrite lookup_delete_eq.
  - apply NoDup_app. split_and!; [done| |destruct (visitors vm !! n); [apply NoDup_singleton|constructor]].
    intros i Hin. destruct (visitors vm !! n) as [v|] eqn:Ev; [|apply not_elem_of_nil].
    rewrite list_elem_of_singleton. intros ->. by apply (Hopen v eq_refl).
  - intros v Hv. rewrite elem_of_app. destruct (Hall v Hv) as [Hin|?]; [|auto].
    destruct (decide (cfgName (vcfg v) = n)) as [<-|Hne]; [|left; by rewrite lookup_delete_ne].
    right. right. rewrite Hin. apply list_elem_of_singleton. done.
Qed.

Lemma vinv_removes l : ∀ vm, vinv vm → vinv (foldl removeVisitor vm l).
Proof. induction l as [|x l IH]; intros vm Hv; simpl; [done|]. by apply IH, vinv_remove. Qed.

(** Configurations of the manager after its removals. *)
Lemma removes_cfgs l : ∀ vm n, cfgs (foldl removeVisitor vm l) !! n = if decide (n ∈ l.*1) then None else cfgs vm !! n.
Proof.
  induction l as [|[k c] l IH]; intros vm n; simpl; [done|]. rewrite IH. simpl.
  destruct (decide (n ∈ l.*1)); [by rewrite decide_True by (by right)|].
  destruct (decide (n = k)) as [->|Hne]; [rewrite lookup_delete_eq, decide_True by left; done|].
  rewrite lookup_delete_ne by done. rewrite decide_False; [done|]. by rewrite elem_of_cons; intros [?|?].
Qed.

Lemma start_cfgs ok cfg vm : cfgs (startVisitor ok cfg vm) = cfgs vm.
Proof. unfold startVisitor. by destruct (ok _). Qed.

Lemma vinv_adds ok l : ∀ vm, vinv vm → vinv (foldl (addVisitor ok) vm l).
Proof.
  induction l as [|c l IH]; intros vm Hv; simpl; [done|]. apply IH. unfold addVisitor.
  destruct (cfgs vm !! cfgName c) eqn:Ec; [done|]. pose proof Hv as [Hk Hcur Hnext Hids Hcl Honce Hall].
  apply vinv_start; simpl; [|apply lookup_insert_eq|].
  - split; simpl; try done.
    + intros k c'. rewrite lookup_insert_Some. intros [[<- <-]|[_ ?]]; [done|by apply Hk].
    + intros n v Hn. destruct (Hcur n v Hn) as [? ?]. split; [|done]. rewrite lookup_insert_ne by congruence. done.
  - destruct (visitors vm !! cfgName c) as [v|] eqn:Ev; [|done]. destruct (Hcur _ _ Ev). congruence.
Qed.

Lemma adds_cfgs ok l : ∀ vm n, NoDup (cfgName <$> l) →
  cfgs (foldl (addVisitor ok) vm l) !! n = match cfgs vm !! n with Some c => Some c | None => keyByName l !! n end.
Proof.
  induction l as [|c l IH]; intros vm n Hnd; [unfold keyByName; simpl; rewrite lookup_empty; by destruct (_ !! n)|].
  pose proof Hnd as Hnd'. rewrite fmap_cons in Hnd. apply NoDup_cons in Hnd as [Hc Hnd]. cbn [foldl]. rewrite IH by done.
  assert (Hkey : keyByName (c :: l) !! n = if decide (n = cfgName c) then Some c else keyByName l !! n).
  { apply option_eq. intros x. unfold keyByName.
    rewrite lookup_keyed_fold by (done || intros; apply lookup_empty). rewrite lookup_empty, elem_of_cons.
    case_decide as Hn.
    - split; [intros [?|[[->|Hin] Hx]]; [done|done|]|intros [= <-]; auto].
      exfalso. apply Hc. apply list_elem_of_fmap. exists x. split; [congruence|done].
    - rewrite lookup_keyed_fold by (done || intros; apply lookup_empty). rewrite lookup_empty.
      split; [intros [?|[[->|Hin] Hx]]; [done|congruence|auto]|intros [?|[? ?]]; [done|auto]]. }
  rewrite Hkey. unfold addVisitor. destruct (cfgs vm !! cfgName c) as [c0|] eqn:Ec.
  - destruct (cfgs vm !! n) eqn:En; [done|]. rewrite decide_False; [done|]. congruence.
  - rewrite start_cfgs. simpl. destruct (decide (n = cfgName c)) as [->|Hne]; [by rewrite lookup_insert_eq, Ec|].
    by rewrite lookup_insert_ne.
Qed.

Lemma vinv_UpdateAll ok l vm : vinv vm → vinv (UpdateAll ok l vm).
Proof. intros Hv. unfold UpdateAll. apply vinv_adds, vinv_removes. by destruct Hv; split. Qed.

Lemma keyByName_elem l n c : NoDup (cfgName <$> l) → keyByName l !! n = Some c ↔ c ∈ l ∧ cfgName c = n.
Proof.
  intros Hnd. unfold keyByName. rewrite lookup_keyed_fold by (done || intros; apply lookup_empty).
  rewrite lookup_empty. split; [by intros [?|?]|by right].
Qed.

Lemma UpdateAll_cfgs ok l vm : NoDup (cfgName <$> l) → cfgs (UpdateAll ok l vm) = keyByName l.
Proof.
  intros Hnd. apply map_eq. intros n. unfold UpdateAll. rewrite adds_cfgs, removes_cfgs by done. simpl.
  match goal with |- context [decide (n ∈ ?L)] => assert (Hin : n ∈ L ↔ ∃ c, cfgs vm !! n = Some c ∧ outdated (keyByName l) (n, c) = true) end.
  { rewrite list_elem_of_fmap. split.
    - intros ([k c] & -> & [Ho Hx]%list_elem_of_filter). exists c. split; [by apply elem_of_map_to_list|done].
    - intros (c & Hc & Ho). exists (n, c). split; [done|]. apply list_elem_of_filter. split; [done|by apply elem_of_map_to_list]. }
  unfold outdated in Hin. simpl in Hin. case_decide as Hd; [done|]. destruct (cfgs vm !! n) as [c|] eqn:En; [|done].
  destruct (keyByName l !! n) as [c'|] eqn:Ek; [|exfalso; apply Hd, Hin; eauto].
  destruct (decide (c = c')) as [->|Hne]; [done|]. exfalso. apply Hd, Hin. exists c. split; [done|].
  by rewrite bool_decide_eq_false_2.
Qed.

Lemma vinv_tick ok vm : vinv vm → vinv (tick ok vm) ∧ cfgs (tick ok vm) = cfgs vm.
Proof.
  intros Hv. unfold tick. assert (Hin : ∀ c, c ∈ (map_to_list (cfgs vm)).*2 → cfgs vm !! cfgName c = Some c)
    by (intros c; by rewrite (elem_of_values cfgName) by apply Hv).
  revert Hv Hin. generalize ((map_to_list (cfgs vm)).*2). intros l. revert vm.
  induction l as [|c l IH]; intros vm Hv Hin; simpl; [done|]. destruct (visitors vm !! cfgName c) eqn:Ev.
  - apply IH; [done|]. intros c' Hc'. apply Hin. by right.
  - rewrite <-(start_cfgs ok c vm). apply IH; [apply vinv_start; [done|apply Hin; left|done]|].
    intros c' Hc'. rewrite start_cfgs. apply Hin. by right.
Qed.

Lemma tick_cfgs ok vm : cfgs (tick ok vm) = cfgs vm.
Proof.
  unfold tick. generalize ((map_to_list (cfgs vm)).*2). intros l. revert vm. induction l as [|c l IH]; intros vm; simpl; [done|].
  rewrite IH. destruct (visitors vm !! cfgName c); [done|apply start_cfgs].
Qed.

Inductive event := EUpdateAll (ok : nat → bool) (l : list V) | ETick (ok : nat → bool).
Definition exec (e : event) (vm : Manager) : Manager :=
  match e with EUpdateAll ok l => UpdateAll ok l vm | ETick ok => tick ok vm end.
Definition run (es : list event) : Manager := foldl (λ vm e, exec e vm) NewManager es.

Lemma run_vinv es : vinv (run es).
Proof.
  unfold run. pose proof vinv_new as Hv. revert Hv. generalize NewManager.
  induction es as [|[ok l|ok] es IH]; intros vm Hv; simpl; [done| |]; apply IH; [by apply vinv_UpdateAll|by apply vinv_tick].
Qed.

Lemma running_open vm n v : vinv vm → visitors vm !! n = Some v → vid v ∉ closed vm.
Proof.
  intros Hi Hv Hin. destruct (v_cur vm Hi n v Hv) as [Hc Hb]. destruct (v_closed vm Hi _ Hin) as (w & Hw & Hid & Hno).
  rewrite (begun_inj vm w v Hi Hw Hb Hid) in Hno. apply Hno. by rewrite (v_keyed vm Hi _ _ Hc).
Qed.

(** After any reloads and retries, whichever starts failed, each visitor that was started
    is either the one that runs under its name, with the configuration that is current and
    never closed, or it was closed exactly once and runs no more; and closing the manager
    then closes exactly the ones that run, so that none is left open. *)
Theorem visitors_accounted es :
  let vm := run es in
  (∀ n v, visitors vm !! n = Some v → cfgs vm !! n = Some (vcfg v) ∧ cfgName (vcfg v) = n) ∧
  (∀ v, v ∈ begun vm →
     (visitors vm !! cfgName (vcfg v) = Some v ∧ vid v ∉ closed vm) ∨
     (visitors vm !! cfgName (vcfg v) ≠ Some v ∧ vid v ∈ closed vm)) ∧
  NoDup (closed (Close vm)) ∧ (∀ v, v ∈ begun vm → vid v ∈ closed (Close vm)).
Proof.
  intros vm. pose proof (run_vinv es : vinv vm) as Hi.
  assert (Hmap : ∀ v, v ∈ (map_to_list (visitors vm)).*2 → ∃ n, visitors vm !! n = Some v)
    by (intros v ([n w] & -> & Hx)%list_elem_of_fmap; exists n; by apply elem_of_map_to_list).
  split_and!.
  - intros n v Hv. destruct (v_cur vm Hi n v Hv) as [Hc _]. split; [done|by apply (v_keyed vm Hi)].
  - intros v Hv. destruct (decide (vid v ∈ closed vm)) as [Hin|Hin].
    + right. split; [|done]. intros Hrun. by apply (running_open vm _ v Hi Hrun).
    + left. destruct (v_all vm Hi v Hv) as [?|?]; [by split|done].
  - simpl. apply NoDup_app. split_and!; [apply Hi| |].
    + intros i Hin (v & -> & [n Hv]%Hmap)%list_elem_of_fmap. by apply (running_open vm n v Hi Hv).
    + apply NoDup_fmap_2_strong; [|apply NoDup_fmap_2_strong; [|apply NoDup_map_to_list]].
      * intros v w [n Hv]%Hmap [k Hw]%Hmap E. apply (begun_inj vm); [done| |  |done]; by eapply v_cur.
      * intros [n v] [k w] Hv%elem_of_map_to_list Hw%elem_of_map_to_list E. simpl in E. subst w.
        destruct (v_cur vm Hi n v Hv) as [Hn _], (v_cur vm Hi k v Hw) as [Hk _].
        by rewrite <-(v_keyed vm Hi _ _ Hn), <-(v_keyed vm Hi _ _ Hk).
  - intros v Hv. simpl. apply elem_of_app. destruct (v_all vm Hi v Hv) as [Hrun|?]; [right|by left].
    apply list_elem_of_fmap. exists v. split; [done|]. apply list_elem_of_fmap. exists (cfgName (vcfg v), v).
    split; [done|by apply elem_of_map_to_list].
Qed.

End manager.

Definition demoVisitor (name : string) : VisitorConfigurer :=
  STCPVisitorConfig (mkVisitorBase name "stcp" None (mkVisitorTransport false false) "key" EmptyString "srv" EmptyString 6000
    (mkVisitorPlugin EmptyString None)).

(** A tick of [keepVisitorsRunning] that gets the lock after [Close] starts a visitor that
    nothing closes. *)
Example late_tick_leaks :
  let vm := tick (λ _, true) (Close (UpdateAll (λ _, false) [demoVisitor "v"] NewManager)) in
  stopped vm = true ∧ closed vm = [] ∧ begun vm = [mkVisitor 1 (demoVisitor "v")].
Proof. vm_compute. split_and!; reflexivity. Qed.
End VisitorManager.

(** ** The service *)
Module ClientService.

Inductive error :=
| ErrNoAggregator | ErrSource (e : Source.error) | ErrVirtualNet | ErrXTCPTransport | ErrXTCPBinding | ErrCancelled
| ErrNoConfigSource | ErrStoreDisabled | ErrApplyConfig (e : error) | ErrInvalidArgument | ErrConflict | ErrNotFound
| ErrIdentity | ErrUnexpectedIdentity.

(** The fields of [v1.ClientCommonConfig] that decide here. *)
Record Common := mkCommon {
  User : string; WireProtocol : string; AuthMethod : string; TrustedCaFile : string; TLSEnable : option bool; Protocol : string;
  Start : list string; VirtualNetAddress : string }.

(** ** Admission: [control_session.go], [validation/client.go] *)

Definition isXTCPProxy (c : ProxyConfigurer) : bool := match c with XTCPProxyConfig _ _ _ _ => true | _ => false end.
Definition isXTCPVisitor (c : VisitorConfigurer) : bool := match c with XTCPVisitorConfig _ _ _ _ _ _ _ _ => true | _ => false end.

Definition configsNeedXTCPBinding (ps : list ProxyConfigurer) (vs : list VisitorConfigurer) : bool :=
  existsb isXTCPProxy ps || existsb isXTCPVisitor vs.

(** [spec] is the type of the client specification, if there is one. *)
Definition canRequestXTCPBinding (common : Common) (encryptionKey : bytes) (spec : option string) : bool :=
  bool_decide (WireProtocol common = "v2") && bool_decide (AuthMethod common = "token")
  && negb (bool_decide (encryptionKey = [])) && negb (bool_decide (TrustedCaFile common = EmptyString))
  && (default false (TLSEnable common) || bool_decide (Protocol common = "wss"))
  && match spec with None => true | Some t => negb (bool_decide (t = "ssh-tunnel")) end.

(** [GetClientConfigRequirements] *)
Definition needsVirtualNet (common : Common) (ps : list ProxyConfigurer) (vs : list VisitorConfigurer) : bool :=
  negb (bool_decide (VirtualNetAddress common = EmptyString))
  || existsb (λ c, bool_decide (pluginType (Plugin (GetBaseConfig c)) = "virtual_net")) ps
  || existsb (λ c, bool_decide (vPluginType (vPlugin (vBase c)) = "virtual_net")) vs.

(** [FilterClientConfigurers] on one list. *)
Definition startFilter {A} `{Configurer A} (start : list string) (l : list A) : list A :=
  let l := match start with [] => l | _ => filter (λ c, cfgName c ∈ start) l end in
  filter enabled l.

(** ** Controls *)

(** [closing] is set when a close has closed the managers, [cancelled] is [ctx.Err() != nil]. *)
Record Ctl := mkCtl {
  XTCPControlID : bytes; pm : Wrapper.Manager (Cfg:=ProxyConfigurer); vm : VisitorManager.Manager (V:=VisitorConfigurer);
  closing : bool; cancelled : bool }.

Definition wrapperBase (c : ProxyConfigurer) : Wrapper.ProxyBaseConfig :=
  let b := GetBaseConfig c in Wrapper.mkBaseConfig (Name b) (hcType (HealthCheck b)) (LocalPort b).

Definition hasXTCPBinding (c : Ctl) : bool := match Binding.ID (XTCPControlID c) with Ok _ => true | Err _ => false end.

Section service.
(** The configuration and the keys the service was created with. *)
Context (common : Common) (encryptionKey : bytes) (clientSpec : option string).

(** Whether the service has a controller for virtual networks. *)
Definition vnetController : bool := negb (bool_decide (VirtualNetAddress common = EmptyString)).

Definition checkConfigAdmission (ps : list ProxyConfigurer) (vs : list VisitorConfigurer) (c : Ctl) : res error unit :=
  if cancelled c then Err ErrCancelled
  else if configsNeedXTCPBinding ps vs then
    if negb (canRequestXTCPBinding common encryptionKey None) then Err ErrXTCPTransport
    else if negb (hasXTCPBinding c) then Err ErrXTCPBinding
    else Ok ()
  else Ok ().

Definition applyConfig (ok : nat → bool) (ps : list ProxyConfigurer) (vs : list VisitorConfigurer) (c : Ctl) : Ctl :=
  mkCtl (XTCPControlID c) (Wrapper.UpdateAll wrapperBase ps (pm c)) (VisitorManager.UpdateAll ok vs (vm c)) (closing c) (cancelled c).

(** [Control.UpdateAllConfigurer], and [Control.Run] up to the start of its worker. *)
Definition updateControl (ok : nat → bool) (ps : list ProxyConfigurer) (vs : list VisitorConfigurer) (c : Ctl)
  : res error unit * Ctl :=
  match checkConfigAdmission ps vs c with
  | Err e => (Err e, c)
  | Ok _ => (Ok (), applyConfig ok ps vs c)
  end.

Definition NewControl (controlID : bytes) : Ctl :=
  mkCtl controlID (Wrapper.NewManager (User common)) VisitorManager.NewManager false false.

(** ** State of the service *)

(** [ctls] holds all controls, [ctl] is the current one; [pending] are the controls a goroutine is about to close,
    [login] is the binding requirement of a login that is dialling. *)
Record Service := mkService {
  proxyCfgs : list ProxyConfigurer; visitorCfgs : list VisitorConfigurer; ctls : gmap nat Ctl; ctl : option nat; nextCtl : nat;
  pending : list nat; login : option bool; configSource : option baseSource; storeSource : option StoreSource;
  aggregator : bool; reloadCommon : Common; ctxDone : bool }.

Definition putCtl (id : nat) (c : Ctl) (s : Service) : Service :=
  mkService (proxyCfgs s) (visitorCfgs s) (<[ id := c ]> (ctls s)) (ctl s) (nextCtl s) (pending s) (login s) (configSource s)
    (storeSource s) (aggregator s) (reloadCommon s) (ctxDone s).

Definition publish (ps : list ProxyConfigurer) (vs : list VisitorConfigurer) (s : Service) : Service :=
  mkService ps vs (ctls s) (ctl s) (nextCtl s) (pending s) (login s) (configSource s)
    (storeSource s) (aggregator s) (reloadCommon s) (ctxDone s).

Definition addPending (id : nat) (s : Service) : Service :=
  mkService (proxyCfgs s) (visitorCfgs s) (ctls s) (ctl s) (nextCtl s) (id :: pending s) (login s) (configSource s)
    (storeSource s) (aggregator s) (reloadCommon s) (ctxDone s).

Definition setLogin (l : option bool) (s : Service) : Service :=
  mkService (proxyCfgs s) (visitorCfgs s) (ctls s) (ctl s) (nextCtl s) (pending s) l (configSource s)
    (storeSource s) (aggregator s) (reloadCommon s) (ctxDone s).

Definition setSources (cs : option baseSource) (ss : option StoreSource) (rc : Common) (s : Service) : Service :=
  mkService (proxyCfgs s) (visitorCfgs s) (ctls s) (ctl s) (nextCtl s) (pending s) (login s) cs ss (aggregator s) rc (ctxDone s).

Definition current (s : Service) : option (nat * Ctl) :=
  match ctl s with Some id => (λ c, (id, c)) <$> ctls s !! id | None => None end.

(** ** Reload *)

(** [Service.UpdateAllConfigurer]: the section under the locks, and what it leaves to close. *)
Definition UpdateAllConfigurer (ok : nat → bool) (ps : list ProxyConfigurer) (vs : list VisitorConfigurer) (s : Service)
  : res error unit * Service :=
  let needBinding := configsNeedXTCPBinding ps vs in
  if needBinding && negb (canRequestXTCPBinding common encryptionKey clientSpec) then (Err ErrXTCPTransport, s)
  else
    let s := publish ps vs s in
    match current s with
    | None => (Ok (), s)
    | Some (id, c) =>
        if cancelled c then (Ok (), s)
        else if needBinding && negb (hasXTCPBinding c) then (Ok (), addPending id s)
        else let '(r, c) := updateControl ok ps vs c in (r, putCtl id c s)
    end.

Definition reloadConfigFromSourcesLocked (o : order) (ok : nat → bool) (s : Service) : res error unit * Service :=
  if negb (aggregator s) then (Err ErrNoAggregator, s)
  else match LoadAll o (mkAggregator (configSource s) (mem <$> storeSource s)) with
  | Err e => (Err (ErrSource e), s)
  | Ok (proxies, visitors) =>
      let proxies := Complete <$> startFilter (Start (reloadCommon s)) proxies in
      let visitors := completeVisitor <$> startFilter (Start (reloadCommon s)) visitors in
      if negb vnetController && needsVirtualNet (reloadCommon s) proxies visitors then (Err ErrVirtualNet, s)
      else UpdateAllConfigurer ok proxies visitors s
  end.

Definition UpdateConfigSource (o : order) (ok : nat → bool) (rc : Common) (ps : list (option ProxyConfigurer))
  (vs : list (option VisitorConfigurer)) (s : Service) : res error unit * Service :=
  match configSource s with
  | None => (Err ErrNoConfigSource, s)
  | Some cs =>
      match ReplaceAll ps vs cs with
      | (Err e, _) => (Err (ErrSource e), s)
      | (Ok _, cs) => reloadConfigFromSourcesLocked o ok (setSources (Some cs) (storeSource s) rc s)
      end
  end.

Definition NewService (o : order) (cs : option baseSource) (ss : option StoreSource) : res error Service :=
  match LoadAll o (mkAggregator cs (mem <$> ss)) with
  | Err e => Err (ErrSource e)
  | Ok (proxies, visitors) =>
      let ps := Complete <$> startFilter (Start common) proxies in
      let vs := completeVisitor <$> startFilter (Start common) visitors in
      if configsNeedXTCPBinding ps vs && negb (canRequestXTCPBinding common encryptionKey clientSpec) then Err ErrXTCPTransport
      else Ok (mkService ps vs ∅ None 0 [] None cs ss true common false)
  end.

(** ** The store API: [config_manager.go] *)

(** How an operation reports the errors of the store. *)
Definition storeError (op : Source.op) (e : Source.error) : error :=
  match op, e with
  | (AddProxy _ | AddVisitor _), Source.ErrAlreadyExists => ErrConflict
  | (UpdateProxy _ | UpdateVisitor _ | RemoveProxy _ | RemoveVisitor _), Source.ErrNotFound => ErrNotFound
  | _, e => ErrSource e
  end.

Definition withStoreMutationAndReload `{Json} (io : IO) (op : Source.op) (o : order) (ok : nat → bool) (s : Service)
  : res error unit * Service :=
  match storeSource s with
  | None => (Err ErrStoreDisabled, s)
  | Some st =>
      let '(r, st, _) := Source.exec io op st in
      let s := setSources (configSource s) (Some st) (reloadCommon s) s in
      match r with
      | Err e => (Err (storeError op e), s)
      | Ok _ =>
          match reloadConfigFromSourcesLocked o ok s with
          | (Err e, s) => (Err (ErrApplyConfig e), s)
          | (Ok _, s) => (Ok (), s)
          end
      end
  end.

(** The checks of the API before the store is touched. *)
Definition checkStoreOp (iqn : string → list string) (urlName : option string) (op : Source.op) : res error unit :=
  let named (name : string) := match urlName with
    | None => Ok ()
    | Some n => if decide (n = EmptyString) then Err ErrInvalidArgument
                else if decide (name = n) then Ok () else Err ErrInvalidArgument end in
  let valid {E} (r : res E unit) : res error unit := match r with Ok _ => Ok () | Err _ => Err ErrInvalidArgument end in
  match op with
  | AddProxy None | UpdateProxy None | AddVisitor None | UpdateVisitor None => Err ErrInvalidArgument
  | AddProxy (Some c) => valid (ValidateProxyConfigurerForClient iqn (Complete c))
  | UpdateProxy (Some c) => let? _ := named (cfgName c) in valid (ValidateProxyConfigurerForClient iqn (Complete c))
  | AddVisitor (Some c) => valid (ValidateVisitorConfigurer (completeVisitor c))
  | UpdateVisitor (Some c) => let? _ := named (cfgName c) in valid (ValidateVisitorConfigurer (completeVisitor c))
  | RemoveProxy n | RemoveVisitor n => if decide (n = EmptyString) then Err ErrInvalidArgument else Ok ()
  end.

(** Create, update and delete of proxies and visitors. *)
Definition storeAPI `{Json} (iqn : string → list string) (urlName : option string) (io : IO) (op : Source.op) (o : order)
  (ok : nat → bool) (s : Service) : res error unit * Service :=
  match checkStoreOp iqn urlName op with
  | Err e => (Err e, s)
  | Ok _ => withStoreMutationAndReload io op o ok s
  end.

(** ** Login *)

(** The identity [Dial] takes from the response; [need] is the requirement it logged in with. *)
Definition dialIdentity (need : bool) (respID : bytes) : res error bytes :=
  if need then
    if negb (canRequestXTCPBinding common encryptionKey clientSpec) then Err ErrXTCPTransport
    else match Binding.ID respID with Err _ => Err ErrIdentity | Ok _ => Ok respID end
  else if decide (respID = []) then Ok [] else Err ErrUnexpectedIdentity.

Definition loginBegin (s : Service) : Service :=
  setLogin (Some (configsNeedXTCPBinding (proxyCfgs s) (visitorCfgs s))) s.

(** A failed dial ends the service when the first login must succeed and its requirement is still the same. *)
Definition loginFailed (firstLoginExit : bool) (s : Service) : Service :=
  match login s with
  | None => s
  | Some need =>
      let changed := negb (Bool.eqb (configsNeedXTCPBinding (proxyCfgs s) (visitorCfgs s)) need) in
      mkService (proxyCfgs s) (visitorCfgs s) (ctls s) (ctl s) (nextCtl s) (pending s) None (configSource s) (storeSource s)
        (aggregator s) (reloadCommon s) (ctxDone s || (firstLoginExit && negb changed))
  end.

(** The installation of a dialled session. *)
Definition loginInstall (ok : nat → bool) (respID : bytes) (s : Service) : Service :=
  match login s with
  | None => s
  | Some need =>
      let failed := setLogin None s in
      match dialIdentity need respID with
      | Err _ => failed
      | Ok controlID =>
          if ctxDone s then failed
          else if negb (Bool.eqb (configsNeedXTCPBinding (proxyCfgs s) (visitorCfgs s)) need) then failed
          else
            let c := NewControl controlID in
            match updateControl ok (proxyCfgs s) (visitorCfgs s) c with
            | (Err _, _) => failed
            | (Ok _, c) =>
                mkService (proxyCfgs s) (visitorCfgs s) (<[ nextCtl s := c ]> (ctls s)) (Some (nextCtl s)) (S (nextCtl s))
                  (option_list (ctl s) ++ pending s) None (configSource s) (storeSource s) (aggregator s) (reloadCommon s) (ctxDone s)
            end
      end
  end.

(** ** Closing *)

Definition closeManagers (c : Ctl) : Ctl :=
  mkCtl (XTCPControlID c) (Wrapper.Close (pm c)) (VisitorManager.Close (vm c)) true (cancelled c).
Definition closeSession (c : Ctl) : Ctl := mkCtl (XTCPControlID c) (pm c) (vm c) (closing c) true.

Definition stop (s : Service) : Service :=
  mkService (proxyCfgs s) (visitorCfgs s) (ctls s) None (nextCtl s) (option_list (ctl s) ++ pending s) (login s) None None false
    (reloadCommon s) true.

Definition onCtl (id : nat) (f : Ctl → Ctl) (s : Service) : Service :=
  match ctls s !! id with Some c => putCtl id (f c) s | None => s end.

(** ** Steps *)

(** Events of the proxies of a control that are not reloads. *)
Definition proxyEvent (e : Wrapper.event (Cfg:=ProxyConfigurer)) : bool :=
  match e with Wrapper.EUpdateAll _ | Wrapper.EClose => false | _ => true end.

Inductive event :=
| ELogin | EDialFailed (firstLoginExit : bool) | EInstall (ok : nat → bool) (respID : bytes)
| EReload (o : order) (ok : nat → bool)
| EUpdateConfigSource (o : order) (ok : nat → bool) (rc : Common) (ps : list (option ProxyConfigurer)) (vs : list (option VisitorConfigurer))
| EStore (iqn : string → list string) (urlName : option string) (io : IO) (op : Source.op) (o : order) (ok : nat → bool)
| EProxy (id : nat) (e : Wrapper.event (Cfg:=ProxyConfigurer)) | ETick (id : nat) (ok : nat → bool)
| ECloseManagers (id : nat) | ECancel (id : nat) | ELost (id : nat) | EStop.

Definition exec `{Json} (e : event) (s : Service) : Service :=
  match e with
  | ELogin => loginBegin s
  | EDialFailed first => loginFailed first s
  | EInstall ok respID => loginInstall ok respID s
  | EReload o ok => (reloadConfigFromSourcesLocked o ok s).2
  | EUpdateConfigSource o ok rc ps vs => (UpdateConfigSource o ok rc ps vs s).2
  | EStore iqn urlName io op o ok => (storeAPI iqn urlName io op o ok s).2
  | EProxy id e =>
      if proxyEvent e
      then onCtl id (λ c, mkCtl (XTCPControlID c) (Wrapper.exec wrapperBase e (pm c)) (vm c) (closing c) (cancelled c)) s else s
  | ETick id ok => onCtl id (λ c, mkCtl (XTCPControlID c) (pm c) (VisitorManager.tick ok (vm c)) (closing c) (cancelled c)) s
  | ECloseManagers id => onCtl id (λ c, if bool_decide (id ∈ pending s) || cancelled c then closeManagers c else c) s
  | ECancel id => onCtl id (λ c, if closing c then closeSession c else c) s
  | ELost id => onCtl id (λ c, closeSession c) s
  | EStop => stop s
  end.

(** Maps are walked in some order of their values; configurations have the type they name. *)
Definition eventOk (e : event) : Prop :=
  match e with
  | EReload o _ | EUpdateConfigSource o _ _ _ _ => orderOk o
  | EStore _ _ io op o _ => orderOk o ∧ orderOk (walk io) ∧ opTyped op
  | _ => True
  end.
End service.

(** ** The current control runs the published configuration *)

Section proofs.
Context `{Json} (common : Common) (encryptionKey : bytes) (clientSpec : option string).

Abbreviation stepOf := (exec common encryptionKey clientSpec).

(** The managers of a control hold exactly the published configuration, and a configuration with
    hole punching runs on a control with an authenticated identity. *)
Definition runs (ps : list ProxyConfigurer) (vs : list VisitorConfigurer) (c : Ctl) : Prop :=
  (∀ n, Wrapper.Cfg_ <$> Wrapper.proxies (pm c) !! n = Wrapper.keyByName wrapperBase ps !! n) ∧
  VisitorManager.cfgs (vm c) = VisitorManager.keyByName vs ∧
  (configsNeedXTCPBinding ps vs = true → hasXTCPBinding c = true).

Definition distinct (ps : list ProxyConfigurer) (vs : list VisitorConfigurer) : Prop :=
  NoDup (cfgName <$> ps) ∧ NoDup (cfgName <$> vs).

Definition liveCtl (s : Service) (id : nat) (c : Ctl) : Prop :=
  ctl s = Some id ∧ ctls s !! id = Some c ∧ cancelled c = false ∧ closing c = false ∧ id ∉ pending s.

Record sinv (s : Service) : Prop := mkSinv {
  s_next : ∀ id, is_Some (ctls s !! id) ∨ id ∈ pending s ∨ ctl s = Some id → (id < nextCtl s)%nat;
  s_ctl : ∀ id c, ctls s !! id = Some c → Wrapper.minv wrapperBase (pm c);
  s_names : distinct (proxyCfgs s) (visitorCfgs s);
  s_config : ∀ cs, configSource s = Some cs → keyed cfgName (proxies cs) ∧ keyed cfgName (visitors cs);
  s_store : ∀ st, storeSource s = Some st → wfSource (mem st);
  s_runs : ∀ id c, liveCtl s id c → runs (proxyCfgs s) (visitorCfgs s) c }.

Lemma applyConfig_runs ok ps vs c : Wrapper.minv wrapperBase (pm c) → distinct ps vs →
  (configsNeedXTCPBinding ps vs = true → hasXTCPBinding c = true) →
  runs ps vs (applyConfig ok ps vs c) ∧ Wrapper.minv wrapperBase (pm (applyConfig ok ps vs c)).
Proof.
  intros Hm [Hp Hv] Hb. split; [|by apply (Wrapper.exec_minv wrapperBase (Wrapper.EUpdateAll ps))].
  split_and!; [|by apply VisitorManager.UpdateAll_cfgs|done]. intros n. simpl.
  destruct (Wrapper.UpdateAll_result wrapperBase (pm c) ps Hm Hp) as [Hl _]. rewrite Hl.
  destruct (Wrapper.keyByName wrapperBase ps !! n) as [x|]; [|done].
  destruct (Wrapper.proxies (pm c) !! n) as [pw|]; [|done]. case_decide as Hc; simpl; [by rewrite Hc|done].
Qed.

(** A step that keeps the published configuration and changes at most one control. *)
Lemma sinv_onCtl id f s : sinv s →
  (∀ c, Wrapper.minv wrapperBase (pm c) → Wrapper.minv wrapperBase (pm (f c))) →
  (∀ c, cancelled (f c) = false → closing (f c) = false →
     cancelled c = false ∧ closing c = false ∧ ∀ ps vs, runs ps vs c → runs ps vs (f c)) →
  sinv (onCtl id f s).
Proof.
  intros [Hn Hc Hd Hcf Hst Hr] Hm Hf. unfold onCtl. destruct (ctls s !! id) as [c|] eqn:E; [|done].
  split; simpl; try done.
  - intros i [[x Hx]|Hi]; apply Hn; [|by right]. left.
    destruct (decide (id = i)) as [->|Hne]; [by exists c|]. rewrite lookup_insert_ne in Hx by done. by exists x.
  - intros i x. rewrite lookup_insert_Some. intros [[<- <-]|[_ Hx]]; [apply Hm|]; by eapply Hc.
  - intros i x (Hcur & Hx & Hca & Hcl & Hp). simpl in *. rewrite lookup_insert_Some in Hx. destruct Hx as [[<- <-]|[Hne Hx]].
    + destruct (Hf c Hca Hcl) as (H1 & H2 & H3). apply H3. by apply (Hr id).
    + by apply (Hr i).
Qed.

Lemma publish_sinv ps vs s : sinv s → distinct ps vs → (∀ id c, liveCtl s id c → runs ps vs c) → sinv (publish ps vs s).
Proof. intros [Hn Hc Hd Hcf Hst Hr] Hd' Hr'. split; try done. Qed.

Lemma canRequest_nil : canRequestXTCPBinding common encryptionKey clientSpec = true →
  canRequestXTCPBinding common encryptionKey None = true.
Proof. unfold canRequestXTCPBinding. rewrite !andb_true_iff. tauto. Qed.

(** A control that is admitted: the check never fails after the ones before it. *)
Lemma updateControl_admitted ok ps vs c :
  (configsNeedXTCPBinding ps vs = true → canRequestXTCPBinding common encryptionKey clientSpec = true ∧ hasXTCPBinding c = true) →
  cancelled c = false → updateControl common encryptionKey ok ps vs c = (Ok (), applyConfig ok ps vs c).
Proof.
  intros Hb Hc. unfold updateControl, checkConfigAdmission. rewrite Hc.
  destruct (configsNeedXTCPBinding ps vs); [|done]. destruct (Hb eq_refl) as [H1 H2].
  by rewrite (canRequest_nil H1), H2.
Qed.

Lemma current_Some s id c : current s = Some (id, c) ↔ ctl s = Some id ∧ ctls s !! id = Some c.
Proof.
  unfold current. destruct (ctl s) as [i|]; [|naive_solver]. destruct (ctls s !! i) eqn:E; simpl; naive_solver.
Qed.

Lemma UpdateAllConfigurer_sinv ok ps vs s : sinv s → distinct ps vs →
  let '(r, s') := UpdateAllConfigurer common encryptionKey clientSpec ok ps vs s in
  sinv s' ∧ (r = Ok () → proxyCfgs s' = ps ∧ visitorCfgs s' = vs) ∧ storeSource s' = storeSource s ∧
  configSource s' = configSource s.
Proof.
  intros Hs Hd. unfold UpdateAllConfigurer. set (need := configsNeedXTCPBinding ps vs).
  destruct (need && _) eqn:Ecan; [done|].
  assert (Hcan : need = true → canRequestXTCPBinding common encryptionKey clientSpec = true)
    by (intros E; rewrite E in Ecan; by apply negb_false_iff).
  destruct (current (publish ps vs s)) as [[id c]|] eqn:Ecur.
  2: { split; [|done]. apply publish_sinv; [done|done|]. intros i x (H1 & H2 & _).
       unfold current in Ecur. simpl in Ecur. by rewrite H1, H2 in Ecur. }
  apply current_Some in Ecur as [Hi Hc]. simpl in Hi, Hc.
  assert (Hone : ∀ i x, liveCtl s i x → i = id ∧ x = c) by (intros i x (H1 & H2 & _); simplify_eq; done).
  destruct (cancelled c) eqn:Eca.
  { split; [|done]. apply publish_sinv; [done|done|]. intros i x Hx. destruct (Hone _ _ Hx) as [-> ->].
    destruct Hx as (_ & _ & ? & _). congruence. }
  destruct (need && negb (hasXTCPBinding c)) eqn:Eb.
  - split; [|done]. destruct Hs as [Hn Hct Hdn Hcf Hst Hr]. split; simpl; try done.
    + intros i Hi'. apply Hn. rewrite elem_of_cons in Hi'. naive_solver.
    + intros i x (H1 & H2 & _ & _ & Hp). simpl in *. rewrite elem_of_cons in Hp. simplify_eq. by destruct Hp; left.
  - assert (Hbind : need = true → hasXTCPBinding c = true) by (intros E; rewrite E in Eb; by apply negb_false_iff).
    rewrite updateControl_admitted; [|intros E; split; [by apply Hcan|by apply Hbind]|done].
    destruct (applyConfig_runs ok ps vs c) as [Hr Hm]; [by apply (s_ctl s Hs id)|done|done|].
    split; [|done]. destruct Hs as [Hn Hct Hdn Hcf Hst Hr0]. split; simpl; try done.
    + intros i [[x Hx]|?]; apply Hn; [|by right]. left. destruct (decide (id = i)) as [->|Hne]; [by exists c|].
      rewrite lookup_insert_ne in Hx by done. by exists x.
    + intros i x. rewrite lookup_insert_Some. intros [[<- <-]|[_ Hx]]; [done|by apply (Hct i)].
    + intros i x (H1 & H2 & _). simpl in *. simplify_eq. rewrite lookup_insert_eq in H2. by simplify_eq.
Qed.

Definition sourcesOf (s : Service) : Aggregator := mkAggregator (configSource s) (mem <$> storeSource s).

(** The configuration the sources ask for. *)
Definition wantedProxies (s : Service) : list ProxyConfigurer :=
  Complete <$> startFilter (Start (reloadCommon s)) (sortByName (values (merged proxies (sourcesOf s)))).
Definition wantedVisitors (s : Service) : list VisitorConfigurer :=
  completeVisitor <$> startFilter (Start (reloadCommon s)) (sortByName (values (merged visitors (sourcesOf s)))).

Lemma startFilter_names {A} `{Configurer A} start (l : list A) : NoDup (cfgName <$> l) → NoDup (cfgName <$> startFilter start l).
Proof. intros Hl. unfold startFilter. apply NoDup_fmap_filter. destruct start; [done|]. by apply NoDup_fmap_filter. Qed.

Lemma sorted_names {A} `{Configurer A} (m : gmap string A) : keyed cfgName m → NoDup (cfgName <$> sortByName (values m)).
Proof.
  intros Hk. unfold sortByName. rewrite (merge_sort_Permutation byName). unfold values.
  rewrite keyed_values by done. apply NoDup_fst_map_to_list.
Qed.

Lemma Complete_name c : cfgName (Complete c) = cfgName c.
Proof. by destruct c. Qed.
Lemma completeVisitor_name v : cfgName (completeVisitor v) = cfgName v.
Proof. by destruct v. Qed.

Lemma sources_keyed s src : sinv s → src ∈ getSourcesLocked (sourcesOf s) →
  keyed cfgName (proxies src) ∧ keyed cfgName (visitors src).
Proof.
  intros Hs. unfold getSourcesLocked, sourcesOf. simpl. rewrite elem_of_app. intros [Hin|Hin].
  - destruct (configSource s) as [cs|] eqn:E; simpl in Hin; [|by apply elem_of_nil in Hin].
    apply list_elem_of_singleton in Hin as ->. by apply (s_config s Hs).
  - destruct (storeSource s) as [st|] eqn:E; simpl in Hin; [|by apply elem_of_nil in Hin].
    apply list_elem_of_singleton in Hin as ->. destruct (s_store s Hs st E) as [[? _] [? _]]. done.
Qed.

Lemma wanted_distinct s : sinv s → distinct (wantedProxies s) (wantedVisitors s).
Proof.
  intros Hs. unfold distinct, wantedProxies, wantedVisitors. rewrite <-!list_fmap_compose.
  rewrite (list_fmap_ext (cfgName ∘ Complete) cfgName) by (intros; apply Complete_name).
  rewrite (list_fmap_ext (cfgName ∘ completeVisitor) cfgName) by (intros; apply completeVisitor_name).
  split; apply startFilter_names, sorted_names, merged_keyed; intros src Hin; by apply (sources_keyed s src Hs).
Qed.

Lemma reload_sinv o ok s : sinv s → orderOk o →
  let '(r, s') := reloadConfigFromSourcesLocked common encryptionKey clientSpec o ok s in
  sinv s' ∧ (r = Ok () → proxyCfgs s' = wantedProxies s ∧ visitorCfgs s' = wantedVisitors s) ∧
  storeSource s' = storeSource s ∧ configSource s' = configSource s.
Proof.
  intros Hs Ho. unfold reloadConfigFromSourcesLocked. destruct (aggregator s); [|done]. cbn [negb].
  fold (sourcesOf s). destruct (decide (getSourcesLocked (sourcesOf s) = [])) as [E|Hne].
  { unfold LoadAll. by rewrite E. }
  rewrite LoadAll_merged; [|done|intros; by eapply sources_keyed|done].
  fold (wantedProxies s) (wantedVisitors s). destruct (_ && _); [done|].
  apply UpdateAllConfigurer_sinv; [done|by apply wanted_distinct].
Qed.

Lemma setSources_sinv cs ss rc s : sinv s →
  (∀ c, cs = Some c → keyed cfgName (proxies c) ∧ keyed cfgName (visitors c)) → (∀ st, ss = Some st → wfSource (mem st)) →
  sinv (setSources cs ss rc s).
Proof. intros [Hn Hc Hd Hcf Hst Hr] H1 H2. split; try done. Qed.

Lemma collect_keyed {A} `{Configurer A} (l : list A) : ∀ m, keyed cfgName m → keyed cfgName (collect m l).
Proof.
  induction l as [|c l IH]; intros m Hm; simpl; [done|]. apply IH. intros k x.
  rewrite lookup_insert_Some. intros [[<- <-]|[_ ?]]; [done|by apply Hm].
Qed.

Lemma empty_keyed {A} `{Configurer A} : keyed cfgName (∅ : gmap string A).
Proof. intros k c. by rewrite lookup_empty. Qed.

Lemma UpdateConfigSource_sinv o ok rc ps vs s : sinv s → orderOk o →
  sinv (UpdateConfigSource common encryptionKey clientSpec o ok rc ps vs s).2.
Proof.
  intros Hs Ho. unfold UpdateConfigSource. destruct (configSource s) as [cs|]; [|done].
  destruct (ReplaceAll ps vs cs) as [r cs'] eqn:Er. pose proof (ReplaceAll_outcome _ _ _ _ _ Er) as Hout.
  destruct r as [[]|e]; [|done]. destruct Hout as (lp & lv & -> & -> & ->).
  match goal with |- sinv (reloadConfigFromSourcesLocked _ _ _ _ _ ?x).2 =>
    pose proof (reload_sinv o ok x) as Hrl; destruct (reloadConfigFromSourcesLocked _ _ _ o ok x) as [r' s'] end.
  apply Hrl; [|done]. apply setSources_sinv; [done| |apply Hs].
  intros c [= <-]. simpl. split; apply collect_keyed, empty_keyed.
Qed.

(** The store API: what an accepted change leads to. *)
Lemma storeAPI_sinv iqn urlName io op o ok s : sinv s → orderOk o → opTyped op →
  let '(r, s') := storeAPI common encryptionKey clientSpec iqn urlName io op o ok s in
  sinv s' ∧ (r = Ok () → ∃ st st' s1, storeSource s = Some st ∧ storeSource s' = Some st' ∧ spec op (mem st) = Ok (mem st') ∧
    s1 = setSources (configSource s) (Some st') (reloadCommon s) s ∧
    proxyCfgs s' = wantedProxies s1 ∧ visitorCfgs s' = wantedVisitors s1).
Proof.
  intros Hs Ho Hty. unfold storeAPI. destruct (checkStoreOp _ _ _); [|done].
  unfold withStoreMutationAndReload. destruct (storeSource s) as [st|] eqn:Est; [|done].
  destruct (Source.exec io op st) as [[r st'] ds] eqn:Ex. pose proof (exec_specStep io op st r st' ds Ex) as Hspec.
  set (s1 := setSources _ _ _ s).
  assert (Hs1 : sinv s1).
  { apply setSources_sinv; [done|apply Hs|]. intros x [= <-].
    destruct Hspec as [m Hm|e He|m Hm]; [|by apply (s_store s Hs)..]. by eapply spec_wf; [apply (s_store s Hs)| |]. }
  destruct r as [[]|e]; [|done]. pose proof (reload_sinv o ok s1 Hs1 Ho) as Hrl.
  destruct (reloadConfigFromSourcesLocked _ _ _ o ok s1) as [r s']. destruct Hrl as (Hi & Hw & Hst & Hcf).
  destruct r as [[]|e]; [|done]. split; [done|]. intros _. exists st, st', s1. inversion Hspec as [m Hm| |]; subst m.
  destruct (Hw eq_refl). split_and!; done.
Qed.

Lemma loginInstall_sinv ok respID s : sinv s → sinv (loginInstall common encryptionKey clientSpec ok respID s).
Proof.
  intros Hs. assert (Hfail : sinv (setLogin None s)) by (by destruct Hs; split).
  unfold loginInstall. destruct (login s) as [need|]; [|done].
  destruct (dialIdentity _ _ _ _ _) as [cid|]; [|done]. destruct (ctxDone s); [done|].
  destruct (negb _); [done|]. unfold updateControl.
  destruct (checkConfigAdmission _ _ _ _ _) as [[]|] eqn:Ea; [|done].
  assert (Hb : configsNeedXTCPBinding (proxyCfgs s) (visitorCfgs s) = true → hasXTCPBinding (NewControl common cid) = true).
  { intros E. unfold checkConfigAdmission in Ea. simpl in Ea. rewrite E in Ea.
    destruct (negb (canRequestXTCPBinding _ _ _)); [done|]. by destruct (hasXTCPBinding (NewControl common cid)). }
  destruct (applyConfig_runs ok (proxyCfgs s) (visitorCfgs s) (NewControl common cid)) as [Hr Hm];
    [apply (Wrapper.run_minv wrapperBase (User common) [])|apply Hs|done|].
  destruct Hs as [Hn Hct Hd Hcf Hst Hr0]. split; simpl; try done.
  - intros i [[x Hx]|[Hi|[= <-]]]; [| |lia].
    + destruct (decide (nextCtl s = i)) as [->|Hne]; [lia|]. rewrite lookup_insert_ne in Hx by done.
      assert (i < nextCtl s)%nat; [apply Hn; left; by exists x|lia].
    + apply elem_of_app in Hi as [Hi|Hi]; (assert (i < nextCtl s)%nat; [apply Hn|lia]); [|by right; left].
      destruct (ctl s); simpl in Hi; [|by apply elem_of_nil in Hi]. apply list_elem_of_singleton in Hi as ->. by right; right.
  - intros i x. rewrite lookup_insert_Some. intros [[<- <-]|[_ Hx]]; [done|by apply (Hct i)].
  - intros i x (H1 & H2 & _). simpl in *. injection H1 as <-. rewrite lookup_insert_eq in H2. by injection H2 as <-.
Qed.

Lemma exec_sinv e s : sinv s → eventOk e → sinv (stepOf e s).
Proof.
  intros Hs He. destruct e as [|first|ok id|o ok|o ok rc ps vs|iqn u io op o ok|id e|id ok|id|id|id|]; simpl in *.
  - by destruct Hs; split.
  - unfold loginFailed. destruct (login s); [|done]. by destruct Hs; split.
  - by apply loginInstall_sinv.
  - pose proof (reload_sinv o ok s Hs He) as Hr. by destruct (reloadConfigFromSourcesLocked _ _ _ _ _ _); apply Hr.
  - by apply UpdateConfigSource_sinv.
  - destruct He as (Ho & _ & Hty). pose proof (storeAPI_sinv iqn u io op o ok s Hs Ho Hty) as Hr.
    by destruct (storeAPI _ _ _ _ _ _ _ _ _ _); apply Hr.
  - destruct (proxyEvent e) eqn:Ee; [|done]. apply sinv_onCtl; [done|intros c Hc; by apply Wrapper.exec_minv|].
    intros c H1 H2. split_and!; [done|done|]. intros ps vs (Hp & Hv & Hb). split_and!; [|done|done].
    intros n. simpl. rewrite Wrapper.exec_cfgs; [done|]. by destruct e.
  - apply sinv_onCtl; [done|done|]. intros c H1 H2. split_and!; [done|done|]. intros ps vs (Hp & Hv & Hb).
    split_and!; [done| |done]. simpl. rewrite <-Hv. apply VisitorManager.tick_cfgs.
  - apply sinv_onCtl; [done| |].
    + intros c Hc. destruct (_ || _); [|done]. by apply (Wrapper.exec_minv wrapperBase Wrapper.EClose).
    + intros c. destruct (_ || _); [done|]. auto.
  - apply sinv_onCtl; [done|intros c Hc; by destruct (closing c)|]. intros c. destruct (closing c) eqn:E; [done|]. auto.
  - by apply sinv_onCtl.
  - destruct Hs as [Hn Hct Hd Hcf Hst Hr]. split; simpl; try done.
    + intros i [Hi|[Hi|?]]; [apply Hn; by left| |done]. apply elem_of_app in Hi as [Hi|Hi]; apply Hn; [|by right; left].
      destruct (ctl s); simpl in Hi; [|by apply elem_of_nil in Hi]. apply list_elem_of_singleton in Hi as ->. by right; right.
    + intros i x (H1 & _). done.
Qed.

(** Services that come from [NewService] over sources, by steps. *)
Inductive reachable : Service → Prop :=
| reach_new o cs ss s :
    orderOk o → (∀ c, cs = Some c → keyed cfgName (proxies c) ∧ keyed cfgName (visitors c)) → (∀ st, ss = Some st → wfSource (mem st)) →
    NewService common encryptionKey clientSpec o cs ss = Ok s → reachable s
| reach_step e s : reachable s → eventOk e → reachable (stepOf e s).

Lemma NewService_sinv o cs ss s :
  orderOk o → (∀ c, cs = Some c → keyed cfgName (proxies c) ∧ keyed cfgName (visitors c)) → (∀ st, ss = Some st → wfSource (mem st)) →
  NewService common encryptionKey clientSpec o cs ss = Ok s → sinv s.
Proof.
  intros Ho Hcs Hss Hn. set (s0 := mkService [] [] ∅ None 0 [] None cs ss true common false).
  assert (Hs0 : sinv s0).
  { split; simpl; [| |split; constructor|done|done|by intros id c (? & _)].
    - intros id [[x Hx]|[Hi|?]]; [by rewrite lookup_empty in Hx|by apply elem_of_nil in Hi|done].
    - intros id c Hx. by rewrite lookup_empty in Hx. }
  unfold NewService in Hn. change (mkAggregator cs (mem <$> ss)) with (sourcesOf s0) in Hn.
  destruct (decide (getSourcesLocked (sourcesOf s0) = [])) as [E|Hne]; [unfold LoadAll in Hn; by rewrite E in Hn|].
  rewrite LoadAll_merged in Hn; [|done|intros; by eapply sources_keyed|done].
  pose proof (wanted_distinct s0 Hs0) as Hd. unfold wantedProxies, wantedVisitors in Hd. simpl in Hd.
  destruct (_ && _); [done|]. injection Hn as <-. destruct Hs0. split; try done. by intros id c (? & _).
Qed.

Lemma reachable_sinv s : reachable s → sinv s.
Proof. induction 1 as [o cs ss s Ho Hc Hs Hn|e s Hr IH He]; [by eapply NewService_sinv|by apply exec_sinv]. Qed.

(** C21: Whatever reloads, store changes, logins, lost connections and failed starts come in
    whatever order, the current control, unless it is cancelled or about to be closed, runs
    exactly the configuration that is published: its proxy manager has one wrapper per
    published proxy, with that configuration, its visitor manager the published visitors,
    and if any of them punches holes the control has an authenticated identity. *)
Theorem control_runs_published s id c :
  reachable s → liveCtl s id c → runs (proxyCfgs s) (visitorCfgs s) c.
Proof. intros Hr. by apply (s_runs s (reachable_sinv s Hr)). Qed.

Definition startAllows (start : list string) (n : string) : bool :=
  match start with [] => true | _ => bool_decide (n ∈ start) end.

Lemma wanted_lookup s n : sinv s →
  Wrapper.keyByName wrapperBase (wantedProxies s) !! n =
  if startAllows (Start (reloadCommon s)) n then Complete <$> merged proxies (sourcesOf s) !! n else None.
Proof.
  intros Hs. assert (Hk : keyed cfgName (merged proxies (sourcesOf s)))
    by (apply merged_keyed; intros src Hin; by apply (sources_keyed s src Hs)).
  destruct (wanted_distinct s Hs) as [Hd _].
  apply option_eq. intros x. unfold Wrapper.keyByName.
  rewrite (lookup_keyed_fold (λ c, Wrapper.Name (wrapperBase c))) by (done || intros; apply lookup_empty).
  rewrite lookup_empty. change (Wrapper.Name (wrapperBase x)) with (cfgName x). unfold wantedProxies at 1.
  rewrite list_elem_of_fmap.
  assert (Hin : ∀ c, c ∈ startFilter (Start (reloadCommon s)) (sortByName (values (merged proxies (sourcesOf s)))) ↔
    startAllows (Start (reloadCommon s)) (cfgName c) = true ∧ merged proxies (sourcesOf s) !! cfgName c = Some c).
  { intros c. assert (Hsort : c ∈ sortByName (values (merged proxies (sourcesOf s))) ↔ merged proxies (sourcesOf s) !! cfgName c = Some c)
      by (unfold sortByName; rewrite (merge_sort_Permutation byName); by apply elem_of_values).
    assert (Hen : merged proxies (sourcesOf s) !! cfgName c = Some c → enabled c).
    { rewrite lookup_merged. unfold enabledAt. intros Hm. repeat (case_match || case_decide); simplify_eq; done. }
    unfold startFilter, startAllows. rewrite list_elem_of_filter. destruct (Start (reloadCommon s)); [|rewrite list_elem_of_filter];
      rewrite Hsort, ?bool_decide_eq_true; naive_solver. }
  split.
  - intros [?|((c & -> & [Ha Hm]%Hin) & <-)]; [done|]. rewrite Complete_name. by rewrite Ha, Hm.
  - intros Hx. right. destruct (startAllows _ n) eqn:Ea; [|done]. apply fmap_Some in Hx as (c & Hm & ->).
    pose proof (Hk _ _ Hm) as Hn. split; [|by rewrite Complete_name]. exists c. split; [done|]. apply Hin. by rewrite Hn.
Qed.

(** A change of the store that the API accepts takes effect everywhere.  The store's maps
    change as the operation says, the configuration merged from file and store is what is
    published, and the current control runs, under every name that [start] allows, the
    completed configuration that this merge has there, and nothing under any other name. *)
Theorem store_change_applied s iqn urlName io op o ok s' :
  reachable s → orderOk o → orderOk (walk io) → opTyped op →
  storeAPI common encryptionKey clientSpec iqn urlName io op o ok s = (Ok (), s') →
  ∃ st st', storeSource s = Some st ∧ storeSource s' = Some st' ∧ spec op (mem st) = Ok (mem st') ∧
    ∀ id c n, liveCtl s' id c →
      Wrapper.Cfg_ <$> Wrapper.proxies (pm c) !! n =
      if startAllows (Start (reloadCommon s)) n
      then Complete <$> merged proxies (mkAggregator (configSource s) (Some (mem st'))) !! n else None.
Proof.
  intros Hr Ho Hw Hty Ha. pose proof (reachable_sinv s Hr) as Hs.
  pose proof (storeAPI_sinv iqn urlName io op o ok s Hs Ho Hty) as Hst. rewrite Ha in Hst.
  destruct Hst as [Hs' Hok]. destruct (Hok eq_refl) as (st & st' & s1 & H1 & H2 & H3 & -> & Hp & _).
  exists st, st'. split_and!; [done|done|done|]. intros id c n Hl.
  destruct (s_runs s' Hs' id c Hl) as [Hrun _]. rewrite Hrun, Hp, wanted_lookup; [done|].
  apply setSources_sinv; [done|apply Hs|]. intros x [= <-]. apply (s_store s' Hs' st' H2).
Qed.
End proofs.

(** ** Witnesses *)

Definition demoCommon : Common := mkCommon "u" "v1" "token" EmptyString None "tcp" [] EmptyString.
Definition demoNew : Service :=
  mkService [] [] ∅ None 0 [] None (Some newBaseSource) (Some (mkStore newBaseSource (mkDisk None None))) true demoCommon false.
Definition demoStep : event → Service → Service := exec (H:=demoJson) demoCommon [] None.
Definition demoAdd : event :=
  EStore (λ _, []) None (demoIO true) (AddProxy (Some (demoProxy "ssh" true))) demoOrder (λ _, true).
Definition demoOpen : Service := demoStep (EInstall (λ _, true) []) (demoStep ELogin demoNew).
Definition demoAdded : Service := demoStep demoAdd demoOpen.

Lemma demoOpen_reachable : reachable (H:=demoJson) demoCommon [] None demoOpen.
Proof.
  do 2 (apply (reach_step (H:=demoJson)); [|done]).
  apply (reach_new (H:=demoJson) _ _ _ demoOrder (Some newBaseSource) (Some (mkStore newBaseSource (mkDisk None None))));
    [apply demoOrder_ok| | |vm_compute; reflexivity].
  - intros c [= <-]. split; apply empty_keyed.
  - intros st [= <-]. split; apply wf_empty.
Qed.

Lemma demoAdded_reachable : reachable (H:=demoJson) demoCommon [] None demoAdded.
Proof. apply (reach_step (H:=demoJson)); [apply demoOpen_reachable|]. split_and!; [apply demoOrder_ok|apply demoOrder_ok|done]. Qed.

Definition demoCtl : Ctl := default (NewControl demoCommon []) (ctls demoAdded !! 0%nat).

Lemma demo_live : liveCtl demoAdded 0 demoCtl.
Proof. split_and!; try (vm_compute; reflexivity). apply not_elem_of_nil. Qed.

Lemma control_runs_published_witness :
  Wrapper.Cfg_ <$> Wrapper.proxies (pm demoCtl) !! "ssh"%string = Some (Complete (demoProxy "ssh" true)).
Proof.
  destruct (control_runs_published (H:=demoJson) demoCommon [] None demoAdded 0 demoCtl demoAdded_reachable demo_live) as [H _].
  etransitivity; [exact (H "ssh"%string)|vm_compute; reflexivity].
Defined.

Lemma store_change_applied_witness :
  Wrapper.Cfg_ <$> Wrapper.proxies (pm demoCtl) !! "ssh"%string = Some (Complete (demoProxy "ssh" true)).
Proof.
  destruct (store_change_applied (H:=demoJson) demoCommon [] None demoOpen (λ _, []) None (demoIO true)
    (AddProxy (Some (demoProxy "ssh" true))) demoOrder (λ _, true) demoAdded demoOpen_reachable demoOrder_ok demoOrder_ok
    eq_refl) as (st & st' & H1 & H2 & H3 & H4); [vm_compute; reflexivity|].
  etransitivity; [exact (H4 0%nat demoCtl "ssh"%string demo_live)|].
  vm_compute in H2. injection H2 as <-. vm_compute. reflexivity.
Defined.
End ClientService.
