(* ===== verification/Metrics.v ===== *)
(** * Statistics of the server: [pkg/metrics/mem/server.go], [pkg/util/metric/counter.go]

    The server counts its clients, connections, proxies per type and traffic, and
    keeps statistics per proxy name that outlive the proxy: a cleaner drops those
    of proxies that have been closed for a week, and an API call those of all
    closed proxies.  Times are nanoseconds; [None] is the zero time. *)
From S2P Require Import Prelude DateCounter.
Import DateCounter.

Module Metrics.

(** [atomic.AddInt32]: 32-bit arithmetic wraps around. *)
Definition wrap32 (z : Z) : Z := (z + 2 ^ 31) mod 2 ^ 32 - 2 ^ 31.
Definition IncCounter (n : Z) (c : Z) : Z := wrap32 (c + n).
Definition DecCounter (n : Z) (c : Z) : Z := wrap32 (c - n).

Definition ReserveDays : Z := 7.
Definition week : Z := 7 * dayNs.

Record ProxyStatistics := mkStats {
  Name : string; ProxyType : string; User : string; ClientID : string;
  TrafficIn : StandardDateCounter; TrafficOut : StandardDateCounter; CurConns : Z;
  LastStartTime : option Z; LastCloseTime : option Z }.

Record ServerStatistics := mkServerStats {
  TotalTrafficIn : StandardDateCounter; TotalTrafficOut : StandardDateCounter; TotalConns : Z; ClientCounts : Z;
  ProxyTypeCounts : gmap string Z; proxyStats : gmap string ProxyStatistics }.

(** [time.Time.Before]; the zero time is before every other. *)
Definition before (a b : option Z) : bool :=
  match a, b with
  | Some a, Some b => a <? b
  | None, Some _ => true
  | _, None => false
  end.

Section metrics.
(** [startOfDay]: midnight in the location of the clock. *)
Variable startOfDay : Z → Z.

Definition newServerMetrics (now : Z) : ServerStatistics :=
  mkServerStats (NewDateCounter startOfDay ReserveDays now) (NewDateCounter startOfDay ReserveDays now) 0 0 ∅ ∅.

Definition NewClient (s : ServerStatistics) : ServerStatistics :=
  mkServerStats (TotalTrafficIn s) (TotalTrafficOut s) (TotalConns s) (IncCounter 1 (ClientCounts s)) (ProxyTypeCounts s) (proxyStats s).
Definition CloseClient (s : ServerStatistics) : ServerStatistics :=
  mkServerStats (TotalTrafficIn s) (TotalTrafficOut s) (TotalConns s) (DecCounter 1 (ClientCounts s)) (ProxyTypeCounts s) (proxyStats s).

Definition NewProxy (now : Z) (name proxyType user clientID : string) (s : ServerStatistics) : ServerStatistics :=
  let counter := default 0 (ProxyTypeCounts s !! proxyType) in
  let fresh := mkStats name proxyType EmptyString EmptyString (NewDateCounter startOfDay ReserveDays now)
                 (NewDateCounter startOfDay ReserveDays now) 0 None None in
  let st := match proxyStats s !! name with
            | Some st => if decide (ProxyType st = proxyType) then st else fresh
            | None => fresh
            end in
  let st := mkStats (Name st) (ProxyType st) user clientID (TrafficIn st) (TrafficOut st) (CurConns st) (Some now) (LastCloseTime st) in
  mkServerStats (TotalTrafficIn s) (TotalTrafficOut s) (TotalConns s) (ClientCounts s)
    (<[ proxyType := IncCounter 1 counter ]> (ProxyTypeCounts s)) (<[ name := st ]> (proxyStats s)).

Definition onStats (name : string) (f : ProxyStatistics → ProxyStatistics) (s : ServerStatistics) : ServerStatistics :=
  mkServerStats (TotalTrafficIn s) (TotalTrafficOut s) (TotalConns s) (ClientCounts s) (ProxyTypeCounts s) (alter f name (proxyStats s)).

Definition CloseProxy (now : Z) (name proxyType : string) (s : ServerStatistics) : ServerStatistics :=
  let s := mkServerStats (TotalTrafficIn s) (TotalTrafficOut s) (TotalConns s) (ClientCounts s)
             (alter (DecCounter 1) proxyType (ProxyTypeCounts s)) (proxyStats s) in
  onStats name (λ st, mkStats (Name st) (ProxyType st) (User st) (ClientID st) (TrafficIn st) (TrafficOut st) (CurConns st)
                        (LastStartTime st) (Some now)) s.

Definition setConns (f : Z → Z) (st : ProxyStatistics) : ProxyStatistics :=
  mkStats (Name st) (ProxyType st) (User st) (ClientID st) (TrafficIn st) (TrafficOut st) (f (CurConns st)) (LastStartTime st) (LastCloseTime st).

Definition OpenConnection (name : string) (s : ServerStatistics) : ServerStatistics :=
  onStats name (setConns (IncCounter 1))
    (mkServerStats (TotalTrafficIn s) (TotalTrafficOut s) (IncCounter 1 (TotalConns s)) (ClientCounts s) (ProxyTypeCounts s) (proxyStats s)).
Definition CloseConnection (name : string) (s : ServerStatistics) : ServerStatistics :=
  onStats name (setConns (DecCounter 1))
    (mkServerStats (TotalTrafficIn s) (TotalTrafficOut s) (DecCounter 1 (TotalConns s)) (ClientCounts s) (ProxyTypeCounts s) (proxyStats s)).

Definition AddTrafficIn (now : Z) (name : string) (n : Z) (s : ServerStatistics) : ServerStatistics :=
  onStats name (λ st, mkStats (Name st) (ProxyType st) (User st) (ClientID st) (Inc startOfDay now n (TrafficIn st)) (TrafficOut st)
                        (CurConns st) (LastStartTime st) (LastCloseTime st))
    (mkServerStats (Inc startOfDay now n (TotalTrafficIn s)) (TotalTrafficOut s) (TotalConns s) (ClientCounts s) (ProxyTypeCounts s) (proxyStats s)).
Definition AddTrafficOut (now : Z) (name : string) (n : Z) (s : ServerStatistics) : ServerStatistics :=
  onStats name (λ st, mkStats (Name st) (ProxyType st) (User st) (ClientID st) (TrafficIn st) (Inc startOfDay now n (TrafficOut st))
                        (CurConns st) (LastStartTime st) (LastCloseTime st))
    (mkServerStats (TotalTrafficIn s) (Inc startOfDay now n (TotalTrafficOut s)) (TotalConns s) (ClientCounts s) (ProxyTypeCounts s) (proxyStats s)).

Definition shouldClearProxyStats (now : Z) (data : ProxyStatistics) (offline : Z) : bool :=
  match LastCloseTime data with
  | None => false
  | Some t => before (LastStartTime data) (Some t) && (offline <? now - t)
  end.

(** The number of statistics dropped and of all. *)
Definition clearUselessInfo (now offline : Z) (s : ServerStatistics) : (nat * nat) * ServerStatistics :=
  let kept := filter (λ x, shouldClearProxyStats now x.2 offline = false) (proxyStats s) in
  ((size (proxyStats s) - size kept, size (proxyStats s))%nat,
   mkServerStats (TotalTrafficIn s) (TotalTrafficOut s) (TotalConns s) (ClientCounts s) (ProxyTypeCounts s) kept).

Definition PruneOfflineProxies (now : Z) : ServerStatistics → (nat * nat) * ServerStatistics := clearUselessInfo now 0.
Definition clearTick (now : Z) : ServerStatistics → (nat * nat) * ServerStatistics := clearUselessInfo now week.

(** ** Reading *)

Record ServerStats := mkServerView { vIn : option Z; vOut : option Z; vConns : Z; vClients : Z; vTypes : gmap string Z }.

Definition GetServer (now : Z) (s : ServerStatistics) : ServerStats * ServerStatistics :=
  let '(i, ci) := TodayCount startOfDay now (TotalTrafficIn s) in
  let '(o, co) := TodayCount startOfDay now (TotalTrafficOut s) in
  (mkServerView i o (TotalConns s) (ClientCounts s) (ProxyTypeCounts s),
   mkServerStats ci co (TotalConns s) (ClientCounts s) (ProxyTypeCounts s) (proxyStats s)).

(** The times are nanoseconds here; the source also has them as text and seconds. *)
Record ProxyStats := mkView {
  psName : string; psType : string; psUser : string; psClientID : string; psIn : option Z; psOut : option Z; psConns : Z;
  psLastStart : option Z; psLastClose : option Z }.

Definition readStats (now : Z) (st : ProxyStatistics) : ProxyStatistics :=
  mkStats (Name st) (ProxyType st) (User st) (ClientID st) (rotate startOfDay now (TrafficIn st)) (rotate startOfDay now (TrafficOut st))
    (CurConns st) (LastStartTime st) (LastCloseTime st).

Definition toProxyStats (now : Z) (name : string) (st : ProxyStatistics) : ProxyStats :=
  mkView name (ProxyType st) (User st) (ClientID st) (TodayCount startOfDay now (TrafficIn st)).1
    (TodayCount startOfDay now (TrafficOut st)).1 (CurConns st) (LastStartTime st) (LastCloseTime st).

Definition GetProxiesByType (now : Z) (proxyType : string) (s : ServerStatistics) : list ProxyStats * ServerStatistics :=
  (omap (λ x, if decide (ProxyType x.2 = proxyType) then Some (toProxyStats now x.1 x.2) else None) (map_to_list (proxyStats s)),
   mkServerStats (TotalTrafficIn s) (TotalTrafficOut s) (TotalConns s) (ClientCounts s) (ProxyTypeCounts s)
     ((λ st, if decide (ProxyType st = proxyType) then readStats now st else st) <$> proxyStats s)).

Definition GetProxyByName (now : Z) (name : string) (s : ServerStatistics) : option ProxyStats * ServerStatistics :=
  (toProxyStats now name <$> proxyStats s !! name, onStats name (readStats now) s).

Definition GetProxiesByTypeAndName (now : Z) (proxyType name : string) (s : ServerStatistics) : option ProxyStats * ServerStatistics :=
  (match proxyStats s !! name with
   | Some st => if decide (ProxyType st = proxyType) then Some (toProxyStats now name st) else None
   | None => None
   end,
   onStats name (λ st, if decide (ProxyType st = proxyType) then readStats now st else st) s).

Definition GetProxyTraffic (now : Z) (name : string) (s : ServerStatistics) : option (list Z * list Z) * ServerStatistics :=
  ((λ st, ((GetLastDaysCount startOfDay now (Z.to_nat ReserveDays) (TrafficIn st)).1,
           (GetLastDaysCount startOfDay now (Z.to_nat ReserveDays) (TrafficOut st)).1)) <$> proxyStats s !! name,
   onStats name (readStats now) s).

(** ** Events *)

Inductive event :=
| ENewClient | ECloseClient
| ENewProxy (now : Z) (name proxyType user clientID : string) | ECloseProxy (now : Z) (name proxyType : string)
| EOpen (name : string) | EClose (name : string) | EIn (now : Z) (name : string) (n : Z) | EOut (now : Z) (name : string) (n : Z)
| EClear (now offline : Z) | EGetServer (now : Z) | EGetByType (now : Z) (proxyType : string) | EGetByName (now : Z) (name : string)
| EGetTypeName (now : Z) (proxyType name : string) | EGetTraffic (now : Z) (name : string).

Definition exec (s : ServerStatistics) (e : event) : ServerStatistics :=
  match e with
  | ENewClient => NewClient s
  | ECloseClient => CloseClient s
  | ENewProxy now name t u c => NewProxy now name t u c s
  | ECloseProxy now name t => CloseProxy now name t s
  | EOpen name => OpenConnection name s
  | EClose name => CloseConnection name s
  | EIn now name n => AddTrafficIn now name n s
  | EOut now name n => AddTrafficOut now name n s
  | EClear now d => (clearUselessInfo now d s).2
  | EGetServer now => (GetServer now s).2
  | EGetByType now t => (GetProxiesByType now t s).2
  | EGetByName now name => (GetProxyByName now name s).2
  | EGetTypeName now t name => (GetProxiesByTypeAndName now t name s).2
  | EGetTraffic now name => (GetProxyTraffic now name s).2
  end.
End metrics.

(** ** The totals are ledgers *)

Section totals.
(** A zone with a fixed offset to UTC. *)
Variable off : Z.
Abbreviation stepM := (exec (midnight off)).
Abbreviation runM t es := (foldl stepM (newServerMetrics (midnight off) t) es).

(** What the events say about one counter. *)
Definition inOp (e : event) : option op := match e with EIn now _ n => Some (OInc now n) | EGetServer now => Some (ORead now) | _ => None end.
Definition outOp (e : event) : option op := match e with EOut now _ n => Some (OInc now n) | EGetServer now => Some (ORead now) | _ => None end.
Definition count (f : event → Z) (es : list event) : Z := foldr (λ e n, f e + n) 0 es.
Definition connDelta (e : event) : Z := match e with EOpen _ => 1 | EClose _ => -1 | _ => 0 end.
Definition clientDelta (e : event) : Z := match e with ENewClient => 1 | ECloseClient => -1 | _ => 0 end.

Lemma wrap32_add x y : wrap32 (wrap32 x + y) = wrap32 (x + y).
Proof.
  unfold wrap32. f_equal. replace ((x + 2 ^ 31) mod 2 ^ 32 - 2 ^ 31 + y + 2 ^ 31) with ((x + 2 ^ 31) mod 2 ^ 32 + y) by lia.
  rewrite Zplus_mod_idemp_l. f_equal. lia.
Qed.

Lemma totals_fold es : ∀ s,
  TotalTrafficIn (foldl stepM s es) = foldl (apply off) (TotalTrafficIn s) (omap inOp es) ∧
  TotalTrafficOut (foldl stepM s es) = foldl (apply off) (TotalTrafficOut s) (omap outOp es) ∧
  wrap32 (TotalConns (foldl stepM s es)) = wrap32 (TotalConns s + count connDelta es) ∧
  wrap32 (ClientCounts (foldl stepM s es)) = wrap32 (ClientCounts s + count clientDelta es).
Proof.
  induction es as [|e es IH]; intros s; simpl; [by rewrite !Z.add_0_r|].
  destruct (IH (stepM s e)) as (H1 & H2 & H3 & H4). rewrite H1, H2, H3, H4.
  assert (Hd : wrap32 (TotalConns (stepM s e) + count connDelta es) = wrap32 (TotalConns s + (connDelta e + count connDelta es)) ∧
    wrap32 (ClientCounts (stepM s e) + count clientDelta es) = wrap32 (ClientCounts s + (clientDelta e + count clientDelta es))).
  { destruct e; simpl; unfold IncCounter, DecCounter; rewrite ?wrap32_add; split; f_equal; lia. }
  split_and!; [| |apply Hd..]; by destruct e.
Qed.

Lemma counters_32 es : ∀ s, wrap32 (TotalConns s) = TotalConns s → wrap32 (ClientCounts s) = ClientCounts s →
  wrap32 (TotalConns (foldl stepM s es)) = TotalConns (foldl stepM s es) ∧
  wrap32 (ClientCounts (foldl stepM s es)) = ClientCounts (foldl stepM s es).
Proof.
  assert (Hw : ∀ x, wrap32 (wrap32 x) = wrap32 x) by (intros x; pose proof (wrap32_add x 0) as E; by rewrite !Z.add_0_r in E).
  induction es as [|e es IH]; intros s H1 H2; simpl; [done|].
  apply IH; destruct e; simpl; unfold IncCounter, DecCounter; rewrite ?Hw; done.
Qed.

(** What the server reports is what happened.  In a zone with a fixed offset, after any
    events whose traffic comes at times that do not go back, today's traffic is the sum of
    the bytes added today in each direction in 64-bit arithmetic, and the numbers of
    connections and clients are the opened minus the closed ones in 32-bit arithmetic,
    whatever happened to the statistics of single proxies in between. *)
Theorem metrics_totals t es now :
  ordered t (omap inOp es) → ordered t (omap outOp es) →
  lastTime t (omap inOp es) ≤ now → lastTime t (omap outOp es) ≤ now →
  let v := (GetServer (midnight off) now (runM t es)).1 in
  vIn v = Some (wrap64 (ledger off (omap inOp es) (dayOf off now))) ∧
  vOut v = Some (wrap64 (ledger off (omap outOp es) (dayOf off now))) ∧
  vConns v = wrap32 (count connDelta es) ∧ vClients v = wrap32 (count clientDelta es).
Proof.
  intros Ho1 Ho2 Hn1 Hn2. destruct (totals_fold es (newServerMetrics (midnight off) t)) as (H1 & H2 & H3 & H4).
  destruct (counters_32 es (newServerMetrics (midnight off) t) eq_refl eq_refl) as [Hc1 Hc2].
  assert (Htoday : ∀ ops, ordered t ops → lastTime t ops ≤ now →
    counts (rotate (midnight off) now (foldl (apply off) (NewDateCounter (midnight off) ReserveDays t) ops)) !! 0%nat =
    Some (wrap64 (ledger off ops (dayOf off now)))).
  { intros ops Ho Hn. pose proof (holds_ops off ops _ t _ (holds_new off 7 t ltac:(lia)) Ho) as Hh.
    eapply (holds_rotate off _ _ _ now) in Hh; [|by apply dayOf_mono]. destruct Hh as (_ & Hlen & Hc & _).
    pose proof (Hc 0%nat) as E. rewrite Z.sub_0_r in E. apply E.
    assert (∀ ops c, reserveDays (foldl (apply off) c ops) = reserveDays c) as Hres.
    { clear. induction ops as [|o ops IH]; intros c; simpl; [done|]. rewrite IH.
      destruct o; simpl; unfold Inc, Dec, rotate; simpl; by repeat case_match. }
    assert (∀ c, reserveDays (rotate (midnight off) now c) = reserveDays c) as Hrot by (intros; unfold rotate; by repeat case_match).
    rewrite Hrot, Hres. simpl. lia. }
  unfold GetServer, TodayCount. cbn [fst vIn vOut vConns vClients]. rewrite H1, H2, <-Hc1, <-Hc2, H3, H4.
  cbn [newServerMetrics TotalTrafficIn TotalTrafficOut TotalConns ClientCounts]. rewrite !Z.add_0_l. split_and!; [by apply Htoday|by apply Htoday|done|done].
Qed.
End totals.

(** ** Running proxies keep their statistics *)

Section kept.
Variable startOfDay : Z → Z.
Abbreviation stepM := (exec startOfDay).

Definition eventTime (e : event) : option Z :=
  match e with
  | ENewProxy now _ _ _ _ | ECloseProxy now _ _ => Some now
  | _ => None
  end.
(** Starts and closes come at times that do not go back. *)
Fixpoint timed (t : Z) (es : list event) : Prop :=
  match es with
  | [] => True
  | e :: es => match eventTime e with Some now => t ≤ now ∧ timed now es | None => timed t es end
  end.

(** The proxy that runs under a name, by its last start that no close followed. *)
Definition runningNow (name : string) (r : option (string * string * string * Z)) (e : event) : option (string * string * string * Z) :=
  match e with
  | ENewProxy now n t u c => if decide (n = name) then Some (t, u, c, now) else r
  | ECloseProxy _ n _ => if decide (n = name) then None else r
  | _ => r
  end.
Definition running (name : string) (es : list event) : option (string * string * string * Z) := foldl (runningNow name) None es.

Definition keptOk (name : string) (t : Z) (r : option (string * string * string * Z)) (s : ServerStatistics) : Prop :=
  (∀ st c, proxyStats s !! name = Some st → LastCloseTime st = Some c → c ≤ t) ∧
  match r with
  | None => True
  | Some (ty, u, cl, start) => ∃ st, proxyStats s !! name = Some st ∧ ProxyType st = ty ∧ User st = u ∧ ClientID st = cl ∧
      LastStartTime st = Some start ∧ start ≤ t ∧ ∀ c, LastCloseTime st = Some c → c ≤ start
  end.

Lemma not_cleared now st d start : LastStartTime st = Some start → (∀ c, LastCloseTime st = Some c → c ≤ start) →
  shouldClearProxyStats now st d = false.
Proof.
  intros Hs Hc. unfold shouldClearProxyStats, before. rewrite Hs. destruct (LastCloseTime st) as [c|]; [|done].
  specialize (Hc c eq_refl). destruct (Z.ltb_spec start c); [lia|done].
Qed.

(** A change of the statistics that keeps who runs and when it started and closed. *)
Lemma keptOk_same name t r s s' :
  (∀ n, (λ st, (ProxyType st, User st, ClientID st, LastStartTime st, LastCloseTime st)) <$> proxyStats s' !! n =
        (λ st, (ProxyType st, User st, ClientID st, LastStartTime st, LastCloseTime st)) <$> proxyStats s !! n) →
  keptOk name t r s → keptOk name t r s'.
Proof.
  intros Hsame [Hc Hr]. specialize (Hsame name). split.
  - intros st c Hst Hcl. rewrite Hst in Hsame. destruct (proxyStats s !! name) as [st0|]; [|done]. simpl in Hsame.
    injection Hsame as _ _ _ _ E. apply (Hc st0); [done|]. congruence.
  - destruct r as [[[[ty u] cl] start]|]; [|done]. destruct Hr as (st & Hst & <- & <- & <- & Hs & Hle & Hcs).
    rewrite Hst in Hsame. destruct (proxyStats s' !! name) as [st'|]; [|done]. simpl in Hsame.
    injection Hsame as E1 E2 E3 E4 E5. exists st'. split_and!; try congruence. intros c. rewrite E5. apply Hcs.
Qed.

Lemma keptOk_alter name t r s n f : (∀ st, (ProxyType (f st), User (f st), ClientID (f st), LastStartTime (f st), LastCloseTime (f st)) =
    (ProxyType st, User st, ClientID st, LastStartTime st, LastCloseTime st)) →
  keptOk name t r s → ∀ s', proxyStats s' = alter f n (proxyStats s) → keptOk name t r s'.
Proof.
  intros Hf Hk s' Hs'. eapply keptOk_same; [|done]. intros k. rewrite Hs'.
  destruct (decide (n = k)) as [->|Hne]; [rewrite lookup_alter_eq|by rewrite lookup_alter_ne].
  destruct (proxyStats s !! k); simpl; [by rewrite Hf|done].
Qed.

Lemma keptOk_step name t r s e :
  keptOk name t r s → match eventTime e with Some now => t ≤ now | None => True end →
  keptOk name (default t (eventTime e)) (runningNow name r e) (stepM s e).
Proof.
  intros Hk Ht. destruct e as [| |now n ty u cl|now n ty|n|n|now n k|now n k|now d|now|now ty|now n|now ty n|now n]; simpl in *;
    try done; try (eapply keptOk_alter; [|exact Hk|reflexivity]; intros st; cbv beta; try case_decide; done).
  - destruct Hk as [Hc Hr]. unfold NewProxy. split; simpl.
    + intros st c. destruct (decide (n = name)) as [->|Hne].
      * rewrite lookup_insert_eq. intros [= <-]. simpl. destruct (proxyStats s !! name) as [st0|] eqn:E0; [|done].
        case_decide; [|done]. intros Hcl. specialize (Hc _ _ eq_refl Hcl). lia.
      * rewrite lookup_insert_ne by done. intros H1 H2. specialize (Hc _ _ H1 H2). lia.
    + case_decide as Hn.
      * subst n. rewrite lookup_insert_eq. eexists. split; [reflexivity|]. simpl.
        destruct (proxyStats s !! name) as [st0|] eqn:E0; [case_decide|]; split_and!; try done; try lia.
        intros c Hcl. specialize (Hc _ _ eq_refl Hcl). lia.
      * rewrite lookup_insert_ne by done. destruct r as [[[[ty' u'] cl'] start]|]; [|done].
        destruct Hr as (st & H1 & H2 & H3 & H4 & H5 & H6 & H7). exists st. split_and!; try done. lia.
  - destruct Hk as [Hc Hr]. unfold CloseProxy, onStats. split; simpl.
    + intros st c. destruct (decide (n = name)) as [->|Hne].
      * rewrite lookup_alter_eq. destruct (proxyStats s !! name); [|done]. simpl. intros [= <-] [= <-]. done.
      * rewrite lookup_alter_ne by done. intros H1 H2. specialize (Hc _ _ H1 H2). lia.
    + case_decide as Hn; [done|]. rewrite lookup_alter_ne by done. destruct r as [[[[ty' u'] cl'] start]|]; [|done].
      destruct Hr as (st & H1 & H2 & H3 & H4 & H5 & H6 & H7). exists st. split_and!; try done. lia.
  - destruct Hk as [Hc Hr]. split.
    + intros st c. simpl. rewrite map_lookup_filter_Some. intros [H1 _]. by apply Hc.
    + destruct r as [[[[ty' u'] cl'] start]|]; [|done]. destruct Hr as (st & H1 & H2 & H3 & H4 & H5 & H6 & H7).
      exists st. split_and!; try done. simpl. rewrite map_lookup_filter_Some. split; [done|]. simpl. by eapply not_cleared.
  - eapply keptOk_same; [|exact Hk]. intros k. simpl. rewrite lookup_fmap. destruct (proxyStats s !! k); simpl; [|done].
    by case_decide.
Qed.

Lemma keptOk_run name es : ∀ t r s, keptOk name t r s → timed t es → ∃ t', keptOk name t' (foldl (runningNow name) r es) (foldl stepM s es).
Proof.
  induction es as [|e es IH]; intros t r s Hk Ht; simpl; [by exists t|]. simpl in Ht.
  apply (IH (default t (eventTime e))); [apply keptOk_step; [done|]|]; destruct (eventTime e); simpl; tauto.
Qed.

(** The statistics of a proxy that runs are never dropped.  If starts and closes come at
    times that do not go back, a name whose last start no close has followed has statistics
    with the type, user, client and time of that start, and no cleaning, at whatever time and
    for whatever duration, removes them. *)
Theorem running_stats_kept t es name ty user client start :
  timed t es → running name es = Some (ty, user, client, start) →
  ∃ st, proxyStats (foldl stepM (newServerMetrics startOfDay t) es) !! name = Some st ∧
    (ProxyType st, User st, ClientID st, LastStartTime st) = (ty, user, client, Some start) ∧
    ∀ now offline, proxyStats (clearUselessInfo now offline (foldl stepM (newServerMetrics startOfDay t) es)).2 !! name = Some st.
Proof.
  intros Ht Hr. destruct (keptOk_run name es t None (newServerMetrics startOfDay t)) as [t' [_ Hk]]; [|done|].
  { split; [|done]. intros st c. simpl. by rewrite lookup_empty. }
  unfold running in Hr. rewrite Hr in Hk. destruct Hk as (st & H1 & <- & <- & <- & H5 & _ & H7). exists st.
  split_and!; [done|by rewrite H5|]. intros now d. simpl. rewrite map_lookup_filter_Some. split; [done|]. simpl. by eapply not_cleared.
Qed.
End kept.

(** [Control.closeProxy] frees the name before it reports the close: when another control
    takes the name in between, its start is reported first, and the late close makes the
    running proxy look closed. *)
Example late_close_drops_running :
  let es := [ENewProxy 10 "web" "http" "a" "c1"; ENewProxy 20 "web" "http" "b" "c2"; ECloseProxy 30 "web" "http"; EClear 40 0] in
  proxyStats (foldl (exec (midnight 0)) (newServerMetrics (midnight 0) 0) es) !! "web"%string = None.
Proof. vm_compute. reflexivity. Qed.

Definition demoEvents : list event :=
  [ENewClient; ENewProxy 10 "web" "http" "u" "c"; EOpen "web"; EIn 20 "web" 100; EOut 20 "web" 7; EClear 30 0; EClose "web"; EOpen "web"].

Lemma metrics_totals_witness :
  vIn (GetServer (midnight 0) 50 (foldl (exec (midnight 0)) (newServerMetrics (midnight 0) 0) demoEvents)).1 = Some 100.
Proof.
  destruct (metrics_totals 0 0 demoEvents 50) as (H & _); [vm_compute; repeat split; discriminate..|].
  etransitivity; [exact H|vm_compute; reflexivity].
Defined.

Lemma running_stats_kept_witness :
  ∃ st, proxyStats (PruneOfflineProxies 100 (foldl (exec (midnight 0)) (newServerMetrics (midnight 0) 0) demoEvents)).2 !! "web"%string = Some st.
Proof.
  destruct (running_stats_kept (midnight 0) 0 demoEvents "web" "http" "u" "c" 10) as (st & _ & _ & H);
    [vm_compute; repeat split; discriminate|vm_compute; reflexivity|].
  exists st. apply (H 100 0).
Defined.
End Metrics.
