(* ===== verification/Dashboard.v ===== *)
(** * The dashboard API of the server: [server/http], [pkg/util/http]

    The handlers behind [/api] and [/api/v2]: they read the statistics, the
    registry of clients and the configurations of the running proxies.  A request
    is its path parameters and query; a handler returns a response or an error
    together with the statistics, which reading brings up to the current day.
    The clock is read once per request. *)
From S2P Require Import Prelude Ports Chars PortsRange Vhost Registry DateCounter Metrics Config.

Import Ports Config.

Module Dashboard.

(** ** Requests and errors: [pkg/util/http] *)

(** [Query] holds the decoded parameters in their order. *)
Record Context_ := mkContext { vars : gmap string string; query : list (string * string) }.

Inductive error :=
| HTTPError (code : Z) (msg : string)
| PlainError (msg : string)
| Panic.

Definition Param (key : string) (ctx : Context_) : string := default EmptyString (vars ctx !! key).

(** [URL.Query()[key]] *)
Definition queryValues (key : string) (ctx : Context_) : list string := (filter (λ kv, kv.1 = key) (query ctx)).*2.
Definition Query (key : string) (ctx : Context_) : string := default EmptyString (head (queryValues key ctx)).
Definition queryValue (key : string) (ctx : Context_) : option string := head (queryValues key ctx).

(** The envelope of version 2: code, message and data. *)
Definition MakeHTTPHandlerFuncV2 {A} (r : res error A) : Z * string * option A :=
  match r with
  | Ok a => (200, "success"%string, Some a)
  | Err (HTTPError code msg) => (code, msg, None)
  | Err (PlainError msg) => (500, msg, None)
  | Err Panic => (500, EmptyString, None)
  end.

Definition hexValue (x : ascii) : option Z :=
  let n := Z.of_nat (nat_of_ascii x) in
  if (48 <=? n) && (n <=? 57) then Some (n - 48)
  else if (97 <=? n) && (n <=? 102) then Some (n - 87)
  else if (65 <=? n) && (n <=? 70) then Some (n - 55)
  else None.

(** [url.PathUnescape] *)
Fixpoint PathUnescape (l : chars) : option chars :=
  match l with
  | [] => Some []
  | x :: l' =>
      if decide (x = "%"%char) then
        match l' with
        | a :: b :: rest =>
            match hexValue a, hexValue b with
            | Some h, Some k => cons (ascii_of_nat (Z.to_nat (16 * h + k))) <$> PathUnescape rest
            | _, _ => None
            end
        | _ => None
        end
      else cons x <$> PathUnescape l'
  end.

Definition decodeV2PathParam (key label : string) (ctx : Context_) : res error string :=
  let raw := Param key ctx in
  if decide (raw = EmptyString) then Err (PlainError ("missing " +:+ label))
  else match PathUnescape (ofStr raw) with
       | Some decoded => Ok (String.string_of_list_ascii decoded)
       | None => Err (HTTPError 400 ("invalid " +:+ label))
       end.

(** ** Parameters *)

Definition defaultV2Page : Z := 1.
Definition defaultV2PageSize : Z := 50.
Definition maxV2PageSize : Z := 200.
Definition MaxInt : Z := 2 ^ 63 - 1.
Definition apiV2ProxyTypes : list string :=
  [ProxyTypeTCP; ProxyTypeUDP; ProxyTypeHTTP; ProxyTypeHTTPS; ProxyTypeTCPMUX; ProxyTypeSTCP; ProxyTypeXTCP; ProxyTypeSUDP].

Definition parseV2PositiveInt (raw : string) (defaultValue : Z) (name : string) : res error Z :=
  if decide (raw = EmptyString) then Ok defaultValue
  else match Atoi (ofStr raw) with
       | Some value => if value <? 1 then Err (HTTPError 400 (name +:+ " must be a positive integer")) else Ok value
       | None => Err (HTTPError 400 (name +:+ " must be a positive integer"))
       end.

Definition parseV2PageParams (ctx : Context_) : res error (Z * Z) :=
  let? page := parseV2PositiveInt (Query "page" ctx) defaultV2Page "page" in
  let? pageSize := parseV2PositiveInt (Query "pageSize" ctx) defaultV2PageSize "pageSize" in
  if maxV2PageSize <? pageSize then Err (HTTPError 400 "pageSize must be between 1 and 200")
  else if MaxInt / pageSize <? page then Err (HTTPError 400 "page is too large")
  else Ok (page, pageSize).

Definition parseV2StatusFilter (raw : string) : res error string :=
  let status := Vhost.ToLower raw in
  if decide (status ∈ [EmptyString; "all"; "online"; "offline"]%string) then Ok status
  else Err (HTTPError 400 "status must be one of all, online, offline").

Definition parseV2ProxyTypeFilter (raw : string) : res error string :=
  let proxyType := Vhost.ToLower raw in
  if decide (proxyType = EmptyString) then Ok EmptyString
  else if decide (proxyType ∈ apiV2ProxyTypes) then Ok proxyType
  else Err (HTTPError 400 "type must be one of tcp, udp, http, https, tcpmux, stcp, xtcp, sudp").

Definition parseV2SystemPruneType (raw : string) : res error string :=
  let pruneType := Vhost.ToLower raw in
  if decide (pruneType = EmptyString) then Err (HTTPError 400 "type is required")
  else if decide (pruneType = "offline_proxies"%string) then Ok pruneType
  else Err (HTTPError 400 "type must be one of offline_proxies").

Definition matchV2StatusFilter (online : bool) (filter : string) : bool :=
  if decide (filter = "online"%string) then online
  else if decide (filter = "offline"%string) then negb online
  else true.

(** [strings.Contains] *)
Fixpoint Contains (s sub : chars) : bool :=
  bool_decide (sub `prefix_of` s) || match s with [] => false | _ :: s' => Contains s' sub end.
Definition containsV2Query (q : string) (values : list string) : bool :=
  existsb (λ v, Contains (ofStr (Vhost.ToLower v)) (ofStr q)) values.

(** ** Pages *)

Record V2PageResp (T : Type) := mkPage { Total : nat; Page : Z; PageSize : Z; Items : list T }.
Arguments mkPage {T}. Arguments Total {T}. Arguments Page {T}. Arguments PageSize {T}. Arguments Items {T}.

(** The index expressions are [int] arithmetic, and [items[start:end]] panics on a
    negative or reversed range. *)
Definition paginateV2Items {T} (items : list T) (page pageSize : Z) : res error (list T) :=
  let start := int64 (int64 (page - 1) * pageSize) in
  if Z.of_nat (length items) <=? start then Ok []
  else
    let end_ := Z.min (int64 (start + pageSize)) (Z.of_nat (length items)) in
    if (start <? 0) || (end_ <? start) then Err Panic
    else Ok (take (Z.to_nat (end_ - start)) (drop (Z.to_nat start) items)).

Definition buildV2PageResp {T} (items : list T) (page pageSize : Z) : res error (V2PageResp T) :=
  let? shown := paginateV2Items items page pageSize in Ok (mkPage (length items) page pageSize shown).

(** [slices.SortFunc] with a comparison of keys, most significant first. *)
Fixpoint keysLe (a b : list string) : bool :=
  match a, b with
  | [], _ => true
  | _, [] => false
  | x :: a, y :: b => if decide (x = y) then keysLe a b else bool_decide (String.le x y)
  end.
Definition byKeys {T} (key : T → list string) (a b : T) : Prop := keysLe (key a) (key b).
#[global] Instance byKeys_dec {T} (key : T → list string) a b : Decision (byKeys key a b).
Proof. unfold byKeys. apply _. Defined.
Definition sortByKeys {T} (key : T → list string) (l : list T) : list T := merge_sort (byKeys key) l.

(** ** Responses *)

(** Seconds of a time in nanoseconds; [0] stands for the zero time. *)
Definition unix (t : Z) : Z := t / 1000000000.
Definition toUnix (t : Z) : Z := if t =? 0 then 0 else unix t.
Definition optUnix (t : option Z) : Z := match t with Some t => unix t | None => 0 end.

Record ClientInfoResp := mkClientResp {
  cKey : string; cUser : string; cClientID : string; cRunID : string; cVersion : string; cWireProtocol : string; cHostname : string;
  cClientIP : string; cFirstConnectedAt : Z; cLastConnectedAt : Z; cDisconnectedAt : Z; cOnline : bool }.

Definition buildClientInfoResp (info : Registry.ClientInfo) : ClientInfoResp :=
  mkClientResp (Registry.Key info) (Registry.User info) (Registry.ClientID info) (Registry.RunID info) (Registry.Version info)
    (Registry.WireProtocol info) (Registry.Hostname info) (Registry.IP info) (toUnix (Registry.FirstConnectedAt info))
    (toUnix (Registry.LastConnectedAt info)) (toUnix (Registry.DisconnectedAt info)) (Registry.Online info).

(** [V2ProxyBaseSpec] is nil-able through its pointers: an offline proxy has the zero one. *)
Record V2ProxyTransportSpec := mkTransportSpec {
  tUseEncryption : bool; tUseCompression : bool; tBandwidthLimit : chars; tBandwidthLimitMode : string }.
Record V2ProxyBaseSpec := mkBaseSpec {
  bAnnotations : gmap string string; bMetadatas : gmap string string; bTransport : option V2ProxyTransportSpec;
  bGroup : option string }.
Definition zeroBaseSpec : V2ProxyBaseSpec := mkBaseSpec ∅ ∅ None None.

(** The one block that is set, by the type of the proxy. *)
Inductive V2ProxySpec :=
| SpecTCP (b : V2ProxyBaseSpec) (remotePort : option Z)
| SpecUDP (b : V2ProxyBaseSpec) (remotePort : option Z)
| SpecHTTP (b : V2ProxyBaseSpec) (customDomains : list string) (subdomain : string) (locations : list string) (hostHeaderRewrite : string)
| SpecHTTPS (b : V2ProxyBaseSpec) (customDomains : list string) (subdomain : string)
| SpecTCPMux (b : V2ProxyBaseSpec) (customDomains : list string) (subdomain multiplexer routeByHTTPUser : string)
| SpecSTCP (b : V2ProxyBaseSpec)
| SpecSUDP (b : V2ProxyBaseSpec)
| SpecXTCP (b : V2ProxyBaseSpec)
| SpecNone.

Definition buildV2ProxyBaseSpec (base : ProxyBaseConfig) : V2ProxyBaseSpec :=
  mkBaseSpec (Annotations base) (Metadatas base)
    (Some (mkTransportSpec (UseEncryption (Transport base)) (UseCompression (Transport base))
       (text (BandwidthLimit (Transport base))) (BandwidthLimitMode (Transport base))))
    (Some (Group (LoadBalancer base))).

Definition buildV2ProxySpec (proxyType : string) (cfg : option ProxyConfigurer) : V2ProxySpec :=
  if decide (proxyType = ProxyTypeTCP) then
    match cfg with
    | Some (TCPProxyConfig b p) => SpecTCP (buildV2ProxyBaseSpec b) (Some p)
    | _ => SpecTCP zeroBaseSpec None
    end
  else if decide (proxyType = ProxyTypeUDP) then
    match cfg with
    | Some (UDPProxyConfig b p) => SpecUDP (buildV2ProxyBaseSpec b) (Some p)
    | _ => SpecUDP zeroBaseSpec None
    end
  else if decide (proxyType = ProxyTypeHTTP) then
    match cfg with
    | Some (HTTPProxyConfig b d locs _ _ rewrite_ _ _ _) =>
        SpecHTTP (buildV2ProxyBaseSpec b) (CustomDomains d) (SubDomain d) locs rewrite_
    | _ => SpecHTTP zeroBaseSpec [] EmptyString [] EmptyString
    end
  else if decide (proxyType = ProxyTypeHTTPS) then
    match cfg with
    | Some (HTTPSProxyConfig b d) => SpecHTTPS (buildV2ProxyBaseSpec b) (CustomDomains d) (SubDomain d)
    | _ => SpecHTTPS zeroBaseSpec [] EmptyString
    end
  else if decide (proxyType = ProxyTypeTCPMUX) then
    match cfg with
    | Some (TCPMuxProxyConfig b d _ _ route mux) =>
        SpecTCPMux (buildV2ProxyBaseSpec b) (CustomDomains d) (SubDomain d) mux route
    | _ => SpecTCPMux zeroBaseSpec [] EmptyString EmptyString EmptyString
    end
  else if decide (proxyType = ProxyTypeSTCP) then
    SpecSTCP (match cfg with Some (STCPProxyConfig b _ _) => buildV2ProxyBaseSpec b | _ => zeroBaseSpec end)
  else if decide (proxyType = ProxyTypeSUDP) then
    SpecSUDP (match cfg with Some (SUDPProxyConfig b _ _) => buildV2ProxyBaseSpec b | _ => zeroBaseSpec end)
  else if decide (proxyType = ProxyTypeXTCP) then
    SpecXTCP (match cfg with Some (XTCPProxyConfig b _ _ _) => buildV2ProxyBaseSpec b | _ => zeroBaseSpec end)
  else SpecNone.

Record V2ProxyResp := mkProxyResp {
  rName : string; rUser : string; rClientID : string; rType : string; rSpec : V2ProxySpec; rState : string;
  rTodayIn : option Z; rTodayOut : option Z; rCurConns : Z; rLastStartAt : Z; rLastCloseAt : Z }.
Record V2UserResp := mkUserResp { uUser : string; uClientCount : Z; uProxyCount : Z }.
Record V2ClientStatusResp := mkClientStatus { sState : string; sCurConns : Z; sProxyCount : Z }.
Record V2ProxyTrafficPointResp := mkPoint { pDate : Z; pIn : Z; pOut : Z }.
Record V2SystemPruneResp := mkPrune { prType : string; prCleared : nat; prTotal : nat }.

Definition matchV2ClientQuery (item : ClientInfoResp) (q : string) : bool :=
  containsV2Query q [cKey item; cUser item; cClientID item; cRunID item; cVersion item; cWireProtocol item; cHostname item; cClientIP item].

Definition itoaStr (n : Z) : string := String.string_of_list_ascii (Itoa n).
Definition specValues (s : V2ProxySpec) : list string :=
  match s with
  | SpecTCP _ (Some p) | SpecUDP _ (Some p) => [itoaStr p]
  | SpecHTTP _ ds sub _ _ | SpecHTTPS _ ds sub | SpecTCPMux _ ds sub _ _ => ds ++ [sub]
  | _ => []
  end.
Definition matchV2ProxyQuery (item : V2ProxyResp) (q : string) : bool :=
  containsV2Query q ([rName item; rType item; rUser item; rClientID item; rState item] ++ specValues (rSpec item)).

Definition v2ProxyTrafficDefaultDays : nat := 7.
Definition v2TrafficValueAt (values : list Z) (todayFirstIndex : nat) : Z := default 0 (values !! todayFirstIndex).

(** [today] is the number of the day of the clock in its zone: [AddDate(0, 0, -age)]
    goes back [age] days. *)
Definition buildV2ProxyTrafficResp (today : Z) (trafficIn trafficOut : list Z) : list V2ProxyTrafficPointResp :=
  (λ age, mkPoint (today - Z.of_nat age) (v2TrafficValueAt trafficIn age) (v2TrafficValueAt trafficOut age))
    <$> reverse (seq 0 v2ProxyTrafficDefaultDays).

(** ** The controller *)

Record ServerConf := mkServerConf {
  BindPort : Z; VhostHTTPPort_ : Z; VhostHTTPSPort_ : Z; TCPMuxPort : Z; KCPBindPort : Z; QUICBindPort : Z; SubHost : string;
  MaxPoolCount : Z; MaxPortsPerClient : Z; HeartbeatTimeout : Z; AllowPorts : list PortsRange; TLSForce : bool }.

(** [pxyManager] gives the configuration of each running proxy. *)
Record Controller := mkController {
  serverCfg : ServerConf; clientRegistry : option Registry.ClientRegistry; pxyManager : option (gmap string ProxyConfigurer) }.

Abbreviation handler A := (Metrics.ServerStatistics → res error A * Metrics.ServerStatistics).

Section handlers.
Variable startOfDay : Z → Z.
Variable c : Controller.
Variable now : Z.

Definition getByName (name : string) : option ProxyConfigurer := pxyManager c ≫= λ m, m !! name.

Definition buildV2ProxyResp (ps : Metrics.ProxyStats) : V2ProxyResp :=
  let cfg := getByName (Metrics.psName ps) in
  mkProxyResp (Metrics.psName ps) (Metrics.psUser ps) (Metrics.psClientID ps) (Metrics.psType ps)
    (buildV2ProxySpec (Metrics.psType ps) cfg) (match cfg with Some _ => "online" | None => "offline" end)%string
    (Metrics.psIn ps) (Metrics.psOut ps) (Metrics.psConns ps) (optUnix (Metrics.psLastStart ps)) (optUnix (Metrics.psLastClose ps)).

Fixpoint listTypes (ts : list string) (s : Metrics.ServerStatistics) : list Metrics.ProxyStats * Metrics.ServerStatistics :=
  match ts with
  | [] => ([], s)
  | t :: ts =>
      let '(l, s) := Metrics.GetProxiesByType startOfDay now t s in
      let '(ls, s) := listTypes ts s in (l ++ ls, s)
  end.
Definition listV2ProxyStats (proxyType : string) (s : Metrics.ServerStatistics) : list Metrics.ProxyStats * Metrics.ServerStatistics :=
  if decide (proxyType ≠ EmptyString) then Metrics.GetProxiesByType startOfDay now proxyType s else listTypes apiV2ProxyTypes s.

Definition buildV2ClientStatus (info : Registry.ClientInfo) (s : Metrics.ServerStatistics) : V2ClientStatusResp * Metrics.ServerStatistics :=
  let '(stats, s) := listV2ProxyStats EmptyString s in
  let mine := filter (λ ps, Metrics.psUser ps = Registry.User info ∧ Metrics.psClientID ps = Registry.ClientID info) stats in
  (mkClientStatus (if Registry.Online info then "online" else "offline")%string
     (foldl (λ n ps, int64 (n + Metrics.psConns ps)) 0 mine) (Z.of_nat (length mine)), s).

(** [getOrCreateV2User] and the increments of the two loops. *)
Definition getOrCreateV2User (user : string) (items : gmap string V2UserResp) : V2UserResp :=
  default (mkUserResp user 0 0) (items !! user).
Definition countClient (items : gmap string V2UserResp) (info : Registry.ClientInfo) : gmap string V2UserResp :=
  let item := getOrCreateV2User (Registry.User info) items in
  <[ Registry.User info := mkUserResp (uUser item) (uClientCount item + 1) (uProxyCount item) ]> items.
Definition countProxy (items : gmap string V2UserResp) (ps : Metrics.ProxyStats) : gmap string V2UserResp :=
  let item := getOrCreateV2User (Metrics.psUser ps) items in
  <[ Metrics.psUser ps := mkUserResp (uUser item) (uClientCount item) (uProxyCount item + 1) ]> items.

Definition APIV2UserList (ctx : Context_) : handler (V2PageResp V2UserResp) := λ s,
  match parseV2PageParams ctx with
  | Err e => (Err e, s)
  | Ok (page, pageSize) =>
      match clientRegistry c with
      | None => (Err (PlainError "client registry unavailable"), s)
      | Some reg =>
          let '(stats, s) := listV2ProxyStats EmptyString s in
          let users := foldl countProxy (foldl countClient ∅ (Registry.List reg)) stats in
          let q := Vhost.ToLower (Query "q" ctx) in
          let items := filter (λ u, q = EmptyString ∨ containsV2Query q [uUser u]) (map_to_list users).*2 in
          (buildV2PageResp (sortByKeys (λ u, [uUser u]) items) page pageSize, s)
      end
  end.

Definition clientMatches (ctx : Context_) (status : string) (info : Registry.ClientInfo) : bool :=
  match queryValue "user" ctx with Some u => bool_decide (Registry.User info = u) | None => true end
  && (bool_decide (Query "clientID" ctx = EmptyString) || bool_decide (Registry.ClientID info = Query "clientID" ctx))
  && (bool_decide (Query "runID" ctx = EmptyString) || bool_decide (Registry.RunID info = Query "runID" ctx))
  && matchV2StatusFilter (Registry.Online info) status
  && (let q := Vhost.ToLower (Query "q" ctx) in
      bool_decide (q = EmptyString) || matchV2ClientQuery (buildClientInfoResp info) q).

Definition clientKeys (r : ClientInfoResp) : list string := [cUser r; cClientID r; cKey r].

Definition APIV2ClientList (ctx : Context_) : res error (V2PageResp ClientInfoResp) :=
  let? (page, pageSize) := parseV2PageParams ctx in
  match clientRegistry c with
  | None => Err (PlainError "client registry unavailable")
  | Some reg =>
      let? status := parseV2StatusFilter (Query "status" ctx) in
      let items := buildClientInfoResp <$> filter (λ info, clientMatches ctx status info) (Registry.List reg) in
      buildV2PageResp (sortByKeys clientKeys items) page pageSize
  end.

Definition APIV2ClientDetail (ctx : Context_) : handler (ClientInfoResp * V2ClientStatusResp) := λ s,
  match decodeV2PathParam "key" "client key" ctx with
  | Err e => (Err e, s)
  | Ok key =>
      match clientRegistry c with
      | None => (Err (PlainError "client registry unavailable"), s)
      | Some reg =>
          match Registry.GetByKey key reg with
          | None => (Err (HTTPError 404 ("client " +:+ key +:+ " not found")), s)
          | Some info => let '(status, s) := buildV2ClientStatus info s in (Ok (buildClientInfoResp info, status), s)
          end
      end
  end.

Definition proxyMatches (ctx : Context_) (status : string) (resp : V2ProxyResp) : bool :=
  match queryValue "user" ctx with Some u => bool_decide (rUser resp = u) | None => true end
  && (bool_decide (Query "clientID" ctx = EmptyString) || bool_decide (rClientID resp = Query "clientID" ctx))
  && matchV2StatusFilter (bool_decide (rState resp = "online"%string)) status
  && (let q := Vhost.ToLower (Query "q" ctx) in bool_decide (q = EmptyString) || matchV2ProxyQuery resp q).

Definition proxyKeys (r : V2ProxyResp) : list string := [rType r; rName r].

Definition APIV2ProxyList (ctx : Context_) : handler (V2PageResp V2ProxyResp) := λ s,
  match (let? params := parseV2PageParams ctx in
         let? status := parseV2StatusFilter (Query "status" ctx) in
         let? proxyType := parseV2ProxyTypeFilter (Query "type" ctx) in Ok (params, status, proxyType)) with
  | Err e => (Err e, s)
  | Ok (page, pageSize, status, proxyType) =>
      let '(stats, s) := listV2ProxyStats proxyType s in
      let items := filter (λ resp, proxyMatches ctx status resp) (buildV2ProxyResp <$> stats) in
      (buildV2PageResp (sortByKeys proxyKeys items) page pageSize, s)
  end.

Definition APIV2ProxyDetail (ctx : Context_) : handler V2ProxyResp := λ s,
  match decodeV2PathParam "name" "proxy name" ctx with
  | Err e => (Err e, s)
  | Ok name =>
      match Metrics.GetProxyByName startOfDay now name s with
      | (None, s) => (Err (HTTPError 404 "no proxy info found"), s)
      | (Some ps, s) => (Ok (buildV2ProxyResp ps), s)
      end
  end.

(** The day is read after the traffic. *)
Definition APIV2ProxyTraffic (today : Z) (ctx : Context_) : handler (string * list V2ProxyTrafficPointResp) := λ s,
  match decodeV2PathParam "name" "proxy name" ctx with
  | Err e => (Err e, s)
  | Ok name =>
      match Metrics.GetProxyTraffic startOfDay now name s with
      | (None, s) => (Err (HTTPError 404 "no proxy info found"), s)
      | (Some (i, o), s) => (Ok (name, buildV2ProxyTrafficResp today i o), s)
      end
  end.

Definition APIV2SystemPrune (ctx : Context_) : handler V2SystemPruneResp := λ s,
  match parseV2SystemPruneType (Query "type" ctx) with
  | Err e => (Err e, s)
  | Ok t => let '((cleared, total), s) := Metrics.PruneOfflineProxies now s in (Ok (mkPrune t cleared total), s)
  end.

Record V2SystemInfoResp := mkInfo { iVersion : string; iConfig : ServerConf; iAllowPortsStr : chars; iStatus : Metrics.ServerStats }.
(** [version] is [version.Full()]; the fields of the configuration are copied. *)
Definition APIV2SystemInfo (version : string) : handler V2SystemInfoResp := λ s,
  let '(st, s) := Metrics.GetServer startOfDay now s in
  (Ok (mkInfo version (serverCfg c) (PortsRange.String (AllowPorts (serverCfg c))) st), s).

(** ** Version 1: [controller.go] *)

Inductive OutConf :=
| TCPOutConf (b : ProxyBaseConfig) (remotePort : Z)
| UDPOutConf (b : ProxyBaseConfig) (remotePort : Z)
| HTTPOutConf (b : ProxyBaseConfig) (d : DomainConfig) (locations : list string) (hostHeaderRewrite : string)
| HTTPSOutConf (b : ProxyBaseConfig) (d : DomainConfig)
| TCPMuxOutConf (b : ProxyBaseConfig) (d : DomainConfig) (multiplexer routeByHTTPUser : string)
| STCPOutConf (b : ProxyBaseConfig)
| XTCPOutConf (b : ProxyBaseConfig)
| BaseOutConf (b : ProxyBaseConfig).

Definition getConfFromConfigurer (cfg : ProxyConfigurer) : OutConf :=
  match cfg with
  | TCPProxyConfig b p => TCPOutConf b p
  | UDPProxyConfig b p => UDPOutConf b p
  | HTTPProxyConfig b d l _ _ h _ _ _ => HTTPOutConf b d l h
  | HTTPSProxyConfig b d => HTTPSOutConf b d
  | TCPMuxProxyConfig b d _ _ r m => TCPMuxOutConf b d m r
  | STCPProxyConfig b _ _ => STCPOutConf b
  | XTCPProxyConfig b _ _ _ => XTCPOutConf b
  | SUDPProxyConfig b _ _ => BaseOutConf b
  end.

Record ProxyStatsInfo := mkProxyInfo { oName : string; oConf : option OutConf; oStats : Metrics.ProxyStats; oStatus : string }.

Definition matchStatusFilter (online : bool) (filter : string) : bool := matchV2StatusFilter online (Vhost.ToLower filter).

Definition APIClientList (ctx : Context_) : res error (list ClientInfoResp) :=
  match clientRegistry c with
  | None => Err (PlainError "client registry unavailable")
  | Some reg =>
      let keep (info : Registry.ClientInfo) :=
        (bool_decide (Query "user" ctx = EmptyString) || bool_decide (Registry.User info = Query "user" ctx))
        && (bool_decide (Query "clientId" ctx = EmptyString) || bool_decide (Registry.ClientID info = Query "clientId" ctx))
        && (bool_decide (Query "runId" ctx = EmptyString) || bool_decide (Registry.RunID info = Query "runId" ctx))
        && matchStatusFilter (Registry.Online info) (Vhost.ToLower (Query "status" ctx)) in
      Ok (sortByKeys clientKeys (buildClientInfoResp <$> filter keep (Registry.List reg)))
  end.

Definition APIClientDetail (ctx : Context_) : res error ClientInfoResp :=
  let key := Param "key" ctx in
  if decide (key = EmptyString) then Err (PlainError "missing client key")
  else match clientRegistry c with
       | None => Err (PlainError "client registry unavailable")
       | Some reg =>
           match Registry.GetByKey key reg with
           | None => Err (HTTPError 404 ("client " +:+ key +:+ " not found"))
           | Some info => Ok (buildClientInfoResp info)
           end
       end.

(** A nil manager is dereferenced. *)
Definition proxyInfoOf (name : string) (ps : Metrics.ProxyStats) : res error ProxyStatsInfo :=
  match pxyManager c with
  | None => Err Panic
  | Some m => Ok (match m !! name with
                  | Some cfg => mkProxyInfo name (Some (getConfFromConfigurer cfg)) ps "online"
                  | None => mkProxyInfo name None ps "offline"
                  end)
  end.

Fixpoint proxyInfos (l : list Metrics.ProxyStats) : res error (list ProxyStatsInfo) :=
  match l with
  | [] => Ok []
  | ps :: l => let? i := proxyInfoOf (Metrics.psName ps) ps in let? is_ := proxyInfos l in Ok (i :: is_)
  end.
Definition getProxyStatsByType (proxyType : string) : handler (list ProxyStatsInfo) := λ s,
  let '(l, s) := Metrics.GetProxiesByType startOfDay now proxyType s in (proxyInfos l, s).

Definition APIProxyByType (ctx : Context_) : handler (list ProxyStatsInfo) := λ s,
  let '(r, s) := getProxyStatsByType (Param "type" ctx) s in
  (let? l := r in Ok (sortByKeys (λ i, [oName i]) l), s).

Definition getProxyStatsByTypeAndName (proxyType proxyName : string) : handler ProxyStatsInfo := λ s,
  match Metrics.GetProxiesByTypeAndName startOfDay now proxyType proxyName s with
  | (None, s) => (Err (HTTPError 404 "no proxy info found"), s)
  | (Some ps, s) => (proxyInfoOf proxyName ps, s)
  end.
Definition APIProxyByTypeAndName (ctx : Context_) : handler ProxyStatsInfo :=
  getProxyStatsByTypeAndName (Param "type" ctx) (Param "name" ctx).

Definition APIProxyByName (ctx : Context_) : handler ProxyStatsInfo := λ s,
  match Metrics.GetProxyByName startOfDay now (Param "name" ctx) s with
  | (None, s) => (Err (HTTPError 404 "no proxy info found"), s)
  | (Some ps, s) => (proxyInfoOf (Param "name" ctx) ps, s)
  end.

Definition APIProxyTraffic (ctx : Context_) : handler (string * list Z * list Z) := λ s,
  match Metrics.GetProxyTraffic startOfDay now (Param "name" ctx) s with
  | (None, s) => (Err (HTTPError 404 "no proxy info found"), s)
  | (Some (i, o), s) => (Ok (Param "name" ctx, i, o), s)
  end.

Definition DeleteProxies (ctx : Context_) : handler unit := λ s,
  if decide (Query "status" ctx = "offline"%string) then (Ok tt, (Metrics.clearUselessInfo now 0 s).2)
  else (Err (HTTPError 400 "status only support offline"), s).
End handlers.

(** ** Sorting by keys *)

Lemma keysLe_trans a : ∀ b d, keysLe a b → keysLe b d → keysLe a d.
Proof.
  induction a as [|x a IH]; intros [|y b] [|z d]; simpl; try done.
  repeat case_decide; subst; try done; rewrite ?bool_decide_spec; try (intros; simplify_eq; done).
  - apply IH.
  - intros H1 H2. contradict H. by apply (anti_symm String.le).
  - intros H2 H3. by transitivity y.
Qed.
Lemma keysLe_total a : ∀ b, keysLe a b ∨ keysLe b a.
Proof.
  induction a as [|x a IH]; intros [|y b]; simpl; [by left..|by right|].
  repeat case_decide; subst; try done. rewrite !bool_decide_spec. apply total. apply _.
Qed.
Lemma keysLe_antisym a : ∀ b, keysLe a b → keysLe b a → a = b.
Proof.
  induction a as [|x a IH]; intros [|y b]; simpl; try done.
  repeat case_decide; subst; try done; rewrite ?bool_decide_spec; [intros; f_equal; by apply IH|].
  intros H1 H2. contradict H. by apply (anti_symm String.le).
Qed.
#[global] Instance byKeys_trans {T} (key : T → list string) : Transitive (byKeys key).
Proof. intros x y z. apply keysLe_trans. Qed.
#[global] Instance byKeys_total {T} (key : T → list string) : base.Total (byKeys key).
Proof. intros x y. apply keysLe_total. Qed.

(** A listing: sorted by its keys, and no two entries have the same ones. *)
Definition listing {T} (key : T → list string) (l : list T) : Prop := StronglySorted (byKeys key) l ∧ NoDup (key <$> l).

Lemma sortByKeys_listing {T} (key : T → list string) l : NoDup (key <$> l) → listing key (sortByKeys key l).
Proof.
  intros Hnd. split; [apply Sorted_StronglySorted; [apply _|apply Sorted_merge_sort; apply _]|].
  unfold sortByKeys. by rewrite (merge_sort_Permutation (byKeys key) l).
Qed.

Lemma elem_of_sortByKeys {T} (key : T → list string) l x : x ∈ sortByKeys key l ↔ x ∈ l.
Proof. unfold sortByKeys. by rewrite (merge_sort_Permutation (byKeys key) l). Qed.

Lemma length_sortByKeys {T} (key : T → list string) l : length (sortByKeys key l) = length l.
Proof. unfold sortByKeys. by rewrite (merge_sort_Permutation (byKeys key) l). Qed.

(** ** Pages *)

Definition pageOk (page pageSize : Z) : Prop := 1 ≤ page ∧ 1 ≤ pageSize ≤ maxV2PageSize ∧ page ≤ MaxInt / pageSize.

Lemma parse_pageOk ctx page pageSize : parseV2PageParams ctx = Ok (page, pageSize) → pageOk page pageSize.
Proof.
  assert (Hpos : ∀ raw d name v, 1 ≤ d → parseV2PositiveInt raw d name = Ok v → 1 ≤ v).
  { intros raw d name v Hd. unfold parseV2PositiveInt. case_decide; [by intros [= <-]|]. destruct (Atoi _) as [n|]; [|done].
    destruct (Z.ltb_spec n 1); [done|]. by intros [= <-]. }
  unfold parseV2PageParams. destruct (parseV2PositiveInt (Query "page" ctx) _ _) as [p|] eqn:E1; [|done].
  destruct (parseV2PositiveInt (Query "pageSize" ctx) _ _) as [z|] eqn:E2; [|done].
  apply Hpos in E1; [|done]. apply Hpos in E2; [|done].
  destruct (Z.ltb_spec maxV2PageSize z); [done|]. destruct (Z.ltb_spec (MaxInt / z) p); [done|]. intros [= <- <-]. done.
Qed.

Lemma paginate_exact {T} (l : list T) page pageSize : pageOk page pageSize →
  paginateV2Items l page pageSize = Ok (take (Z.to_nat pageSize) (drop (Z.to_nat ((page - 1) * pageSize)) l)).
Proof.
  intros (Hp & [Hz Hmax] & Hle). unfold paginateV2Items.
  assert (Hb : page * pageSize ≤ MaxInt).
  { etransitivity; [apply Z.mul_le_mono_nonneg_r; [lia|exact Hle]|]. rewrite Z.mul_comm. apply Z.mul_div_le. lia. }
  assert (Hpm : page ≤ MaxInt) by nia. unfold MaxInt in *.
  rewrite (int64_id (page - 1)) by (unfold is_int64; lia). rewrite (int64_id (_ * _)) by (unfold is_int64; nia).
  rewrite (int64_id (_ + _)) by (unfold is_int64; nia).
  destruct (Z.leb_spec (Z.of_nat (length l)) ((page - 1) * pageSize)).
  { rewrite drop_ge by lia. by rewrite take_nil. }
  destruct (Z.ltb_spec ((page - 1) * pageSize) 0); [nia|]. simpl.
  destruct (Z.ltb_spec (Z.min ((page - 1) * pageSize + pageSize) (Z.of_nat (length l))) ((page - 1) * pageSize)); [lia|].
  f_equal. destruct (Z.le_gt_cases ((page - 1) * pageSize + pageSize) (Z.of_nat (length l))).
  - rewrite Z.min_l by lia. f_equal. lia.
  - rewrite Z.min_r by lia. rewrite !take_ge; rewrite ?length_drop; [done|lia|lia].
Qed.

Lemma concat_pages {T} k n : ∀ l : list T, concat ((λ i, take k (drop (i * k) l)) <$> seq 0 n) = take (n * k) l.
Proof.
  induction n as [|n IH]; intros l; [done|]. rewrite <-cons_seq, fmap_cons, <-fmap_S_seq, <-list_fmap_compose. simpl. rewrite drop_0.
  rewrite <-(take_take_drop l k (n * k)), <-IH. do 2 f_equal. apply list_fmap_ext. intros _ i _. simpl.
  by rewrite drop_drop.
Qed.

Lemma pages_exact {T} (l : list T) pageSize n : 1 ≤ pageSize ≤ maxV2PageSize → Z.of_nat n ≤ MaxInt / pageSize →
  (length l ≤ n * Z.to_nat pageSize)%nat →
  ∃ pages : nat → list T, (∀ i, (i < n)%nat →
      buildV2PageResp l (Z.of_nat i + 1) pageSize = Ok (mkPage (length l) (Z.of_nat i + 1) pageSize (pages i))) ∧
    concat (pages <$> seq 0 n) = l.
Proof.
  intros Hz Hn Hl. exists (λ i, take (Z.to_nat pageSize) (drop (i * Z.to_nat pageSize) l)). split.
  - intros i Hi. unfold buildV2PageResp. rewrite paginate_exact by (repeat split; lia). do 4 f_equal. nia.
  - rewrite concat_pages. by apply take_ge.
Qed.

(** The request for another page. *)
Definition withPage (page : Z) (ctx : Context_) : Context_ :=
  mkContext (vars ctx) (("page"%string, itoaStr page) :: filter (λ kv, kv.1 ≠ "page"%string) (query ctx)).

Lemma queryValues_withPage page ctx key : key ≠ "page"%string → queryValues key (withPage page ctx) = queryValues key ctx.
Proof.
  intros Hk. unfold queryValues, withPage. cbn [query]. rewrite filter_cons_False by (simpl; congruence). f_equal.
  induction (query ctx) as [|kv l IH]; [done|]. rewrite !filter_cons. repeat case_decide; simpl in *; try congruence;
    rewrite ?filter_cons; repeat case_decide; simpl in *; congruence.
Qed.
Lemma Query_withPage page ctx key : key ≠ "page"%string → Query key (withPage page ctx) = Query key ctx.
Proof. intros. unfold Query. by rewrite queryValues_withPage. Qed.

Lemma parse_withPage page pageSize p ctx : parseV2PageParams ctx = Ok (p, pageSize) → 1 ≤ page → page ≤ MaxInt / pageSize →
  parseV2PageParams (withPage page ctx) = Ok (page, pageSize).
Proof.
  intros Hp Hpos Hle. pose proof (parse_pageOk _ _ _ Hp) as (_ & Hz & _). unfold parseV2PageParams in *.
  rewrite (Query_withPage page ctx "pageSize") by done.
  assert (Hr : parseV2PositiveInt (Query "page" (withPage page ctx)) defaultV2Page "page" = Ok page).
  { unfold Query, queryValues, withPage. cbn [query]. rewrite filter_cons_True by done. simpl. unfold parseV2PositiveInt, itoaStr.
    assert (page ≤ MaxInt). { etransitivity; [exact Hle|]. apply Z.div_le_upper_bound; unfold MaxInt; lia. }
    unfold MaxInt in *. unfold ofStr. rewrite String.list_ascii_of_string_of_list_ascii, Atoi_Itoa by lia.
    case_decide as E.
    { exfalso. apply (f_equal String.list_ascii_of_string) in E. rewrite String.list_ascii_of_string_of_list_ascii in E. simpl in E.
      pose proof (Atoi_Itoa page ltac:(lia)) as E'. by rewrite E in E'. }
    destruct (Z.ltb_spec page 1); [lia|done]. }
  rewrite Hr. destruct (parseV2PositiveInt (Query "page" ctx) _ _) as [p'|]; [|done].
  destruct (parseV2PositiveInt (Query "pageSize" ctx) _ _) as [z|]; [|done].
  destruct (Z.ltb_spec maxV2PageSize z); [done|]. destruct (MaxInt / z <? p'); [done|]. injection Hp as -> ->.
  destruct (Z.ltb_spec (MaxInt / pageSize) page); [lia|done].
Qed.

(** ** The statistics that a listing reads *)

Section listings.
Variable startOfDay : Z → Z.
Variable now : Z.
Implicit Types s : Metrics.ServerStatistics.

Abbreviation byType t s := ((Metrics.GetProxiesByType startOfDay now t s).1).

Lemma elem_of_byType t s ps : ps ∈ byType t s ↔
  ∃ name st, Metrics.proxyStats s !! name = Some st ∧ Metrics.ProxyType st = t ∧ ps = Metrics.toProxyStats startOfDay now name st.
Proof.
  simpl. rewrite list_elem_of_omap. split.
  - intros ([name st] & Hin & Hps). simpl in Hps. case_decide; [|done]. injection Hps as <-.
    exists name, st. by rewrite <-elem_of_map_to_list.
  - intros (name & st & Hst & Ht & ->). exists (name, st). rewrite elem_of_map_to_list. split; [done|]. simpl. by rewrite decide_True.
Qed.

Lemma byType_names t s : NoDup (Metrics.psName <$> byType t s).
Proof.
  simpl. pose proof (NoDup_fst_map_to_list (Metrics.proxyStats s)) as Hnd.
  induction (map_to_list (Metrics.proxyStats s)) as [|[n st] l IH]; simpl; [constructor|].
  simpl in Hnd. apply NoDup_cons in Hnd as [Hn Hnd]. case_decide; [|by apply IH]. simpl. constructor; [|by apply IH].
  intros (ps & E & Hin)%list_elem_of_fmap. apply Hn. apply list_elem_of_omap in Hin as ([n' st'] & Hin & Hps). simpl in Hps.
  case_decide; [|done]. injection Hps as <-. simpl in E. subst n'. apply list_elem_of_fmap. by exists (n, st').
Qed.

Lemma byType_other t t' s : t ≠ t' → byType t' (Metrics.GetProxiesByType startOfDay now t s).2 = byType t' s.
Proof.
  intros Hne. simpl. rewrite map_to_list_fmap. induction (map_to_list (Metrics.proxyStats s)) as [|[n st] l IH]; simpl; [done|].
  destruct (decide (Metrics.ProxyType st = t)) as [E|E]; simpl.
  - rewrite E. rewrite !decide_False by done. apply IH.
  - case_decide; [by f_equal|apply IH].
Qed.

Lemma listTypes_concat ts : ∀ s, NoDup ts → (listTypes startOfDay now ts s).1 = concat ((λ t, byType t s) <$> ts).
Proof.
  induction ts as [|t ts IH]; intros s Hnd; [done|]. apply NoDup_cons in Hnd as [Ht Hnd].
  cbn [listTypes]. destruct (Metrics.GetProxiesByType startOfDay now t s) as [l s'] eqn:E.
  specialize (IH s' Hnd). destruct (listTypes startOfDay now ts s') as [ls s'']. simpl in *. rewrite IH.
  assert (l = byType t s) as -> by (by rewrite E). f_equal. f_equal. apply list_fmap_ext. intros i t' Ht'.
  assert (s' = (Metrics.GetProxiesByType startOfDay now t s).2) as -> by (by rewrite E). apply byType_other.
  intros ->. apply Ht. by eapply list_elem_of_lookup_2.
Qed.

Lemma apiTypes_nodup : NoDup apiV2ProxyTypes.
Proof. by apply (bool_decide_unpack _). Qed.

(** The types that a filter selects. *)
Definition selects (proxyType t : string) : Prop := if decide (proxyType = EmptyString) then t ∈ apiV2ProxyTypes else t = proxyType.

Lemma listV2_spec proxyType s :
  NoDup (Metrics.psName <$> (listV2ProxyStats startOfDay now proxyType s).1) ∧
  ∀ ps, ps ∈ (listV2ProxyStats startOfDay now proxyType s).1 ↔
    ∃ name st, Metrics.proxyStats s !! name = Some st ∧ selects proxyType (Metrics.ProxyType st) ∧
      ps = Metrics.toProxyStats startOfDay now name st.
Proof.
  unfold listV2ProxyStats, selects. destruct (decide (proxyType = EmptyString)) as [->|Hne].
  2:{ rewrite decide_True by done. split; [apply byType_names|]. intros ps. rewrite elem_of_byType. done. }
  rewrite decide_False by (intros H; by apply H). rewrite listTypes_concat by apply apiTypes_nodup.
  assert (Hin : ∀ ts ps, ps ∈ concat ((λ t, byType t s) <$> ts) ↔ ∃ name st, Metrics.proxyStats s !! name = Some st ∧
    Metrics.ProxyType st ∈ ts ∧ ps = Metrics.toProxyStats startOfDay now name st).
  { intros ts ps. rewrite list_elem_of_In, in_concat. setoid_rewrite <-list_elem_of_In. split.
    - intros (l & Hl & Hps). apply list_elem_of_fmap in Hl as (t & -> & Ht). apply elem_of_byType in Hps as (n & st & H1 & <- & H3). eauto.
    - intros (n & st & H1 & H2 & H3). exists (byType (Metrics.ProxyType st) s). rewrite elem_of_byType. split; [|by eauto].
      by apply (list_elem_of_fmap_2 (λ t, byType t s)). }
  split; [|done]. pose proof apiTypes_nodup as Hnd. revert Hin. induction Hnd as [|t ts Ht Hnd IH]; intros Hin; [constructor|].
  rewrite fmap_cons. cbn [concat]. rewrite fmap_app. apply NoDup_app. split_and!; [apply byType_names| |by apply IH].
  intros n (ps & -> & Hps)%list_elem_of_fmap (ps' & E & Hps')%list_elem_of_fmap.
  apply elem_of_byType in Hps as (n & st & H1 & <- & ->). apply Hin in Hps' as (n' & st' & H1' & H2' & ->). simpl in E. subst n'.
  apply Ht. congruence.
Qed.

Lemma list_fmap_filter_keys {T U K} (g : T → U) (key : U → K) (key' : T → K) (P : U → bool) (l : list T) :
  (∀ x, key (g x) = key' x) → NoDup (key' <$> l) → NoDup (key <$> filter (λ r, P r) (g <$> l)).
Proof.
  intros E Hnd. eapply sublist_NoDup; [|apply fmap_sublist, sublist_filter]. rewrite <-list_fmap_compose.
  by rewrite (list_fmap_ext _ key' l) by (intros; apply E).
Qed.

(** ** The list of proxies *)

Variable c : Controller.
Abbreviation shown name st := (buildV2ProxyResp c (Metrics.toProxyStats startOfDay now name st)).

(** Paging through the proxies shows each one exactly once.  If a request for a page of
    proxies is answered, then the same request for each of the first [n] pages is answered
    with that page, no index overflows or is out of range, and if the pages together have
    room for the total, they hold, one after the other, a list sorted by type and name
    without duplicates, whose entries are exactly the statistics of the requested type that
    match the filters of the request, whatever the order in which the maps are read. *)
Theorem proxy_pages_exact s ctx p n :
  (APIV2ProxyList startOfDay c now ctx s).1 = Ok p → Z.of_nat n ≤ MaxInt / PageSize p → (Total p ≤ n * Z.to_nat (PageSize p))%nat →
  ∃ pages status proxyType,
    (∀ i, (i < n)%nat → (APIV2ProxyList startOfDay c now (withPage (Z.of_nat i + 1) ctx) s).1 =
       Ok (mkPage (Total p) (Z.of_nat i + 1) (PageSize p) (pages i))) ∧
    parseV2StatusFilter (Query "status" ctx) = Ok status ∧ parseV2ProxyTypeFilter (Query "type" ctx) = Ok proxyType ∧
    let all := concat (pages <$> seq 0 n) in
    listing proxyKeys all ∧ length all = Total p ∧
    ∀ r, r ∈ all ↔ ∃ name st, Metrics.proxyStats s !! name = Some st ∧ selects proxyType (Metrics.ProxyType st) ∧
      r = shown name st ∧ proxyMatches ctx status r = true.
Proof.
  unfold APIV2ProxyList. intros Hp Hn Htot.
  destruct (parseV2PageParams ctx) as [[page pageSize]|] eqn:Ep; [|done].
  destruct (parseV2StatusFilter (Query "status" ctx)) as [status|] eqn:Es; [|done].
  destruct (parseV2ProxyTypeFilter (Query "type" ctx)) as [t|] eqn:Et; [|done].
  destruct (listV2_spec t s) as [Hnd Hin]. destruct (listV2ProxyStats startOfDay now t s) as [stats s'] eqn:El. simpl in Hp, Hnd, Hin.
  pose proof (parse_pageOk _ _ _ Ep) as Hok.
  set (items := sortByKeys proxyKeys (filter (λ resp, proxyMatches ctx status resp) (buildV2ProxyResp c <$> stats))) in *.
  assert (PageSize p = pageSize ∧ Total p = length items) as [Hsz Hlen].
  { unfold buildV2PageResp in Hp. rewrite paginate_exact in Hp by done. by injection Hp as <-. }
  rewrite Hsz, Hlen in *. destruct (pages_exact items pageSize n) as (pages & Hpages & Hcat); [apply Hok|done|done|].
  exists pages, status, t. cbv zeta. rewrite Hcat. split_and!; [|done|done| |done|].
  - intros i Hi. rewrite (parse_withPage _ pageSize page) by (done || lia). rewrite !Query_withPage by done. rewrite Es, Et, El. simpl.
    rewrite <-Hpages by done. f_equal. unfold items. f_equal. apply list_filter_iff. intros r. unfold proxyMatches, queryValue.
    by rewrite !Query_withPage, queryValues_withPage.
  - apply sortByKeys_listing. assert (Hi : Inj (=) (=) (λ n : string, n)) by (by intros ???).
    apply (NoDup_fmap_1 (λ k : list string, default EmptyString (last k))). rewrite <-list_fmap_compose.
    apply (list_fmap_filter_keys _ _ Metrics.psName); done.
  - intros r. unfold items. rewrite elem_of_sortByKeys, list_elem_of_filter, list_elem_of_fmap. split.
    + intros (Hm & ps & -> & Hps). apply Hin in Hps as (name & st & H1 & H2 & ->). exists name, st. split_and!; try done. by apply Is_true_eq_true.
    + intros (name & st & H1 & H2 & -> & Hm). split; [by apply Is_true_eq_left|]. eexists. split; [reflexivity|]. apply Hin. eauto.
Qed.
End listings.

(** ** Secrets *)

(** What the API of version 2 may depend on: the credentials, secret and group keys, users,
    header operations, health checks and the backend of a proxy are erased. *)
Definition publicBase (b : ProxyBaseConfig) : ProxyBaseConfig :=
  mkBase (Name b) (Type_ b) None (Annotations b)
    (mkTransport (UseEncryption (Transport b)) (UseCompression (Transport b)) (mkQuantity (text (BandwidthLimit (Transport b))) 0)
       (BandwidthLimitMode (Transport b)) EmptyString)
    (Metadatas b) (mkLoadBalancer (Group (LoadBalancer b)) EmptyString) (HealthCheck zeroBase) EmptyString 0 (Plugin zeroBase).
Definition publicPart (c : ProxyConfigurer) : ProxyConfigurer :=
  match c with
  | TCPProxyConfig b p => TCPProxyConfig (publicBase b) p
  | UDPProxyConfig b p => UDPProxyConfig (publicBase b) p
  | HTTPProxyConfig b d l _ _ h _ _ _ =>
      HTTPProxyConfig (publicBase b) d l EmptyString EmptyString h (mkHeaderOperations ∅) (mkHeaderOperations ∅) EmptyString
  | HTTPSProxyConfig b d => HTTPSProxyConfig (publicBase b) d
  | TCPMuxProxyConfig b d _ _ r m => TCPMuxProxyConfig (publicBase b) d EmptyString EmptyString r m
  | STCPProxyConfig b _ _ => STCPProxyConfig (publicBase b) EmptyString []
  | XTCPProxyConfig b _ _ _ => XTCPProxyConfig (publicBase b) EmptyString [] None
  | SUDPProxyConfig b _ _ => SUDPProxyConfig (publicBase b) EmptyString []
  end.
Definition publicController (c : Controller) : Controller :=
  mkController (serverCfg c) (clientRegistry c) ((λ m : gmap string ProxyConfigurer, publicPart <$> m) <$> pxyManager c).

Lemma spec_public t cfg : buildV2ProxySpec t (publicPart <$> cfg) = buildV2ProxySpec t cfg.
Proof. unfold buildV2ProxySpec. destruct cfg as [[]|]; done. Qed.

Lemma resp_public c ps : buildV2ProxyResp (publicController c) ps = buildV2ProxyResp c ps.
Proof.
  unfold buildV2ProxyResp. assert (E : ∀ n, getByName (publicController c) n = publicPart <$> getByName c n).
  { intros n. unfold getByName. simpl. destruct (pxyManager c); simpl; [|done]. by rewrite lookup_fmap. }
  rewrite E, spec_public. by destruct (getByName c (Metrics.psName ps)).
Qed.

(** The second version of the API never depends on a secret.  Erasing passwords, secret
    keys, group keys, allowed users, header operations and backends from the configurations
    of all running proxies changes no answer of the handlers that read them, for any
    request: neither the fields of an answer nor the search, the filters, the order or the
    totals reveal anything about them. *)
Theorem v2_hides_secrets startOfDay c now ctx s :
  APIV2ProxyList startOfDay (publicController c) now ctx s = APIV2ProxyList startOfDay c now ctx s ∧
  APIV2ProxyDetail startOfDay (publicController c) now ctx s = APIV2ProxyDetail startOfDay c now ctx s.
Proof.
  unfold APIV2ProxyList, APIV2ProxyDetail. split.
  - destruct (let? params := parseV2PageParams ctx in _) as [[[[page pageSize] status] t]|]; [|done].
    destruct (listV2ProxyStats startOfDay now t s) as [stats s']. do 4 f_equal. apply list_fmap_ext. intros. apply resp_public.
  - case_match; [|done]. case_match. case_match; [|done]. by rewrite resp_public.
Qed.

(** The first version shows the base configuration as it is, with the group key. *)
Example v1_shows_group_key :
  let base := mkBase "p" "tcp" None ∅ zeroTransport ∅ (mkLoadBalancer "g" "secret") (HealthCheck zeroBase) EmptyString 0 (Plugin zeroBase) in
  getConfFromConfigurer (TCPProxyConfig base 80) ≠ getConfFromConfigurer (publicPart (TCPProxyConfig base 80)).
Proof. discriminate. Qed.

(** ** Traffic by day *)

(** The traffic history names the right days.  If the counters of a proxy have recorded
    additions in the order of time and the day is read on the day of the counters, the
    answer lists the last seven days, oldest first, each with the bytes that were added on
    that day in each direction, in 64-bit arithmetic. *)
Theorem traffic_history off ctx s name st t opsIn opsOut now :
  decodeV2PathParam "name" "proxy name" ctx = Ok name → Metrics.proxyStats s !! name = Some st →
  Metrics.TrafficIn st = foldl (DateCounter.apply off) (DateCounter.NewDateCounter (DateCounter.midnight off) Metrics.ReserveDays t) opsIn →
  Metrics.TrafficOut st = foldl (DateCounter.apply off) (DateCounter.NewDateCounter (DateCounter.midnight off) Metrics.ReserveDays t) opsOut →
  DateCounter.ordered t opsIn → DateCounter.ordered t opsOut →
  DateCounter.lastTime t opsIn ≤ now → DateCounter.lastTime t opsOut ≤ now →
  (APIV2ProxyTraffic (DateCounter.midnight off) now (DateCounter.dayOf off now) ctx s).1 =
    Ok (name, (λ age, let day := DateCounter.dayOf off now - Z.of_nat age in
                 mkPoint day (DateCounter.wrap64 (DateCounter.ledger off opsIn day)) (DateCounter.wrap64 (DateCounter.ledger off opsOut day)))
              <$> [6; 5; 4; 3; 2; 1; 0]%nat).
Proof.
  intros Hd Hst Hi Ho Hoi Hoo Hli Hlo. unfold APIV2ProxyTraffic. rewrite Hd. unfold Metrics.GetProxyTraffic. rewrite Hst. cbn [fmap option_fmap option_map fst].
  rewrite Hi, Ho. rewrite !DateCounter.lastDays_ledger by done. done.
Qed.

(** The day is read after the counters: around midnight the amounts are shown one day late. *)
Example midnight_shifts_history :
  let s := foldl (Metrics.exec (DateCounter.midnight 0)) (Metrics.newServerMetrics (DateCounter.midnight 0) 0)
             [Metrics.ENewProxy 0 "p" "tcp" "u" "c"; Metrics.EIn 1 "p" 100] in
  let ctx := mkContext {[ "name"%string := "p"%string ]} [] in
  (λ r : res error (string * list V2ProxyTrafficPointResp), match r with Ok (_, l) => last l | Err _ => None end)
    (APIV2ProxyTraffic (DateCounter.midnight 0) (DateCounter.dayNs - 1) 1 ctx s).1 = Some (mkPoint 1 100 0).
Proof. vm_compute. reflexivity. Qed.

(** ** Concrete runs *)

Definition demoStats : Metrics.ServerStatistics :=
  foldl (Metrics.exec (DateCounter.midnight 0)) (Metrics.newServerMetrics (DateCounter.midnight 0) 0)
    [Metrics.ENewProxy 0 "b" "tcp" "u" "c"; Metrics.ENewProxy 0 "a" "http" "u" "c"; Metrics.ENewProxy 0 "c" "tcp" "v" "d";
     Metrics.EIn 1 "b" 100].
Definition demoController : Controller :=
  mkController (mkServerConf 7000 80 443 0 0 0 EmptyString 5 0 90 [] false) (Some Registry.NewClientRegistry)
    (Some {[ "b"%string := TCPProxyConfig zeroBase 6000 ]}).
Definition demoContext : Context_ := mkContext {[ "name"%string := "b"%string ]} [("pageSize", "2"); ("user", "u")]%string.

Example demo_first_page :
  (λ p, rName <$> Items p) <$> (match (APIV2ProxyList (DateCounter.midnight 0) demoController 5 demoContext demoStats).1 with
                                 | Ok p => Some p | Err _ => None end) = Some ["a"; "b"]%string.
Proof. vm_compute. reflexivity. Qed.

Lemma proxy_pages_exact_witness :
  ∃ pages : nat → list V2ProxyResp, length (concat (pages <$> seq 0 1)) = 2%nat.
Proof.
  destruct (proxy_pages_exact (DateCounter.midnight 0) 5 demoController demoStats demoContext
    (match (APIV2ProxyList (DateCounter.midnight 0) demoController 5 demoContext demoStats).1 with
     | Ok p => p | Err _ => mkPage 0 0 0 [] end) 1) as (pages & _ & _ & _ & _ & _ & _ & H & _);
    [vm_compute; reflexivity|vm_compute; discriminate|vm_compute; lia|].
  exists pages. etransitivity; [exact H|vm_compute; reflexivity].
Defined.

Lemma traffic_history_witness :
  (λ r : res error (string * list V2ProxyTrafficPointResp), match r with Ok (_, l) => last l | Err _ => None end)
    (APIV2ProxyTraffic (DateCounter.midnight 0) 5 (DateCounter.dayOf 0 5) demoContext demoStats).1 = Some (mkPoint 0 100 0).
Proof.
  destruct (Metrics.proxyStats demoStats !! "b"%string) as [st|] eqn:E; [|exfalso; revert E; vm_compute; discriminate].
  rewrite (traffic_history 0 demoContext demoStats "b" st 0 [DateCounter.OInc 1 100] [] 5);
    [vm_compute; reflexivity|vm_compute; reflexivity|exact E| | |vm_compute; repeat split; discriminate..];
    revert E; vm_compute; intros [= <-]; reflexivity.
Defined.
End Dashboard.
