(* ===== verification/ReverseProxy.v ===== *)
(** * The HTTP reverse proxy: [pkg/util/vhost/http.go], [pkg/util/http/http.go], [server/proxy/http.go]

    A user request is matched to a route by its host, path and user, its credentials are
    compared with those of the route, and it is sent over a connection to the proxy of the
    route or to a member of its group.  The second part is the proxy that registers the
    routes.  Connections are named by the proxy that serves them. *)
From S2P Require Import Prelude Chars Vhost HTTPGroup Nathole Config.

Module ReverseProxy.

(** ** Base64 and basic authentication *)

Definition byteOf (x : ascii) : Z := Z.of_nat (nat_of_ascii x).
Definition ofByte (z : Z) : ascii := ascii_of_nat (Z.to_nat z).

(** The standard alphabet. *)
Definition b64char (v : Z) : ascii :=
  ofByte (if v <? 26 then 65 + v else if v <? 52 then 71 + v else if v <? 62 then v - 4 else if v =? 62 then 43 else 47).
Definition b64val (x : ascii) : option Z :=
  let n := byteOf x in
  if (65 <=? n) && (n <=? 90) then Some (n - 65)
  else if (97 <=? n) && (n <=? 122) then Some (n - 71)
  else if (48 <=? n) && (n <=? 57) then Some (n + 4)
  else if n =? 43 then Some 62
  else if n =? 47 then Some 63
  else None.

(** [base64.StdEncoding.EncodeToString] *)
Fixpoint EncodeToString (l : chars) : chars :=
  match l with
  | [] => []
  | [a] => let n := byteOf a in [b64char (n / 4); b64char (n mod 4 * 16); "="%char; "="%char]
  | [a; b] =>
      let n := byteOf a * 256 + byteOf b in
      [b64char (n / 1024); b64char (n / 16 mod 64); b64char (n mod 16 * 4); "="%char]
  | a :: b :: c :: r =>
      let n := byteOf a * 65536 + byteOf b * 256 + byteOf c in
      b64char (n / 262144) :: b64char (n / 4096 mod 64) :: b64char (n / 64 mod 64) :: b64char (n mod 64) :: EncodeToString r
  end.

(** [base64.StdEncoding.DecodeString]: line breaks are skipped, padding ends the text. *)
Fixpoint decodeQuads (l : chars) : option chars :=
  match l with
  | [] => Some []
  | a :: b :: c :: d :: r =>
      match b64val a, b64val b with
      | Some x, Some y =>
          if decide (c = "="%char) then
            if decide (d = "="%char ∧ r = []) then Some [ofByte (x * 4 + y / 16)] else None
          else
            match b64val c with
            | None => None
            | Some z =>
                if decide (d = "="%char) then
                  if decide (r = []) then Some [ofByte (x * 4 + y / 16); ofByte (y mod 16 * 16 + z / 4)] else None
                else
                  match b64val d with
                  | None => None
                  | Some w =>
                      (λ rest, ofByte (x * 4 + y / 16) :: ofByte (y mod 16 * 16 + z / 4) :: ofByte (z mod 4 * 64 + w) :: rest)
                        <$> decodeQuads r
                  end
            end
      | _, _ => None
      end
  | _ => None
  end.
Definition isBreak (x : ascii) : bool := bool_decide (byteOf x = 10) || bool_decide (byteOf x = 13).
Definition DecodeString (l : list ascii) : option chars := decodeQuads (filter (λ x, isBreak x = false) l).

Definition lowerChars (l : chars) : chars := Vhost.lowerAscii <$> l.

(** [strings.Cut] *)
Definition Cut (sep : ascii) (l : chars) : option (chars * chars) :=
  match indexOf sep l with Some i => Some (take i l, drop (S i) l) | None => None end.

Definition basicPrefix : chars := ofStr "Basic ".
(** The user and the password; [None] when the header is no basic authentication. *)
Definition ParseBasicAuth (auth : chars) : option (chars * chars) :=
  if decide (length auth < length basicPrefix)%nat then None
  else if decide (lowerChars (take (length basicPrefix) auth) = lowerChars basicPrefix) then
    DecodeString (drop (length basicPrefix) auth) ≫= Cut ":"
  else None.
Definition BasicAuth (username passwd : chars) : chars := basicPrefix ++ EncodeToString (username ++ ":"%char :: passwd).

(** ** Host names *)

Definition countChar (x : ascii) (l : list ascii) : nat := length (filter (λ y, y = x) l).
Fixpoint hasSub (sub l : chars) : bool :=
  bool_decide (sub `prefix_of` l) || match l with [] => false | _ :: l' => hasSub sub l' end.
Definition hasPort (host : chars) : bool :=
  match countChar ":" host with
  | O => false
  | S O => true
  | _ => bool_decide (head host = Some "["%char) && hasSub (ofStr "]:") host
  end.
Definition trimDot (l : chars) : chars := default l (Config.CutSuffix ["."%char] l).
(** The callers ignore the error and use the empty host then. *)
Definition CanonicalHost (host : chars) : chars :=
  let host := lowerChars host in
  if hasPort host then match Nathole.SplitHostPort host with Ok (h, _) => trimDot h | Err _ => [] end
  else trimDot host.

(** ** Requests *)

(** [uHost] is [req.URL.Host]; it is not empty for requests in proxy form. *)
Record Request := mkRequest {
  Method : string; uHost : string; path : string; host : string; Authorization : option string; ProxyAuthorization : string }.

Definition authOf (h : option string) : option (chars * chars) := h ≫= λ a, ParseBasicAuth (ofStr a).

Definition getRequestRouteUser (req : Request) : chars :=
  default [] (fst <$>
    (if decide (uHost req ≠ EmptyString) then
       if decide (ProxyAuthorization req = EmptyString) then authOf (Authorization req) else authOf (Some (ProxyAuthorization req))
     else authOf (Authorization req))).

Definition credentialsOk (rc : Vhost.RouteConfig) (given : option (chars * chars)) : bool :=
  match given with
  | Some (user, passwd) => bool_decide (user = ofStr (Vhost.Username rc)) && bool_decide (passwd = ofStr (Vhost.Password rc))
  | None => false
  end.

Definition checkRouteAuthByRequest (req : Request) (rc : option Vhost.RouteConfig) : bool :=
  match rc with
  | None => true
  | Some rc =>
      if decide (Vhost.Username rc = EmptyString ∧ Vhost.Password rc = EmptyString) then true
      else if decide (uHost req ≠ EmptyString) then
        if decide (ProxyAuthorization req = EmptyString) then false else credentialsOk rc (authOf (Some (ProxyAuthorization req)))
      else credentialsOk rc (authOf (Authorization req))
  end.

Record RequestRouteInfo := mkRouteInfo { iURL : string; iHost : string; iUser : string; iURLHost : string; Endpoint : string }.

Abbreviation Ctl := (HTTPGroup.HTTPGroupController string).
Definition toStr (l : chars) : string := String.string_of_list_ascii l.
Definition canonical (h : string) : string := toStr (CanonicalHost (ofStr h)).

Definition GetRouteConfig (domain location user : string) (ctl : Ctl) : option HTTPGroup.target :=
  Vhost.payload <$> Vhost.getByRoute (HTTPGroup.vhostRouter ctl) domain location user.

Definition injectRequestInfoToCtx (req : Request) (ctl : Ctl) : RequestRouteInfo * option HTTPGroup.target :=
  let info := mkRouteInfo (path req) (host req) (toStr (getRequestRouteUser req)) (uHost req) EmptyString in
  (info, GetRouteConfig (canonical (iHost info)) (iURL info) (iUser info) ctl).

Inductive error := ErrNoRouteFound | ErrGroup (e : HTTPGroup.error).

Definition putGroup (g : nat) (hg : HTTPGroup.HTTPGroup string) (ctl : Ctl) : Ctl :=
  HTTPGroup.mkCtl (HTTPGroup.groups ctl) (<[ g := hg ]> (HTTPGroup.objs ctl)) (HTTPGroup.vhostRouter ctl) (HTTPGroup.nextObj ctl).

(** The connection functions of a route: a single proxy has no choice of endpoints. *)
Definition CreateConnection (info : RequestRouteInfo) (byEndpoint : bool) (ctl : Ctl) : res error string * Ctl :=
  match GetRouteConfig (canonical (iHost info)) (iURL info) (iUser info) ctl with
  | None => (Err ErrNoRouteFound, ctl)
  | Some t =>
      match HTTPGroup.own t with
      | HTTPGroup.OwnProxy name => (Ok name, ctl)
      | HTTPGroup.OwnGroup g =>
          match HTTPGroup.objs ctl !! g with
          | None => (Err (ErrGroup HTTPGroup.ErrNoCreateConnFunc), ctl)
          | Some hg =>
              if byEndpoint then
                (match HTTPGroup.createConnByEndpoint (Endpoint info) hg with Ok f => Ok f | Err e => Err (ErrGroup e) end, ctl)
              else
                let '(r, hg') := HTTPGroup.createConn hg in
                (match r with Ok f => Ok f | Err e => Err (ErrGroup e) end, putGroup g hg' ctl)
          end
      end
  end.

(** [rc.ChooseEndpointFn], whose error is ignored. *)
Definition chooseEndpoint (t : HTTPGroup.target) (ctl : Ctl) : string * Ctl :=
  match HTTPGroup.own t with
  | HTTPGroup.OwnProxy _ => (EmptyString, ctl)
  | HTTPGroup.OwnGroup g =>
      match HTTPGroup.objs ctl !! g with
      | None => (EmptyString, ctl)
      | Some hg =>
          let '(r, hg') := HTTPGroup.chooseEndpoint hg in
          (match r with Ok name => name | Err _ => EmptyString end, putGroup g hg' ctl)
      end
  end.

(** [req.URL.Host] of the request that is sent: the key of the pool of idle connections. *)
Definition urlHost (rc : Vhost.RouteConfig) (endpoint : string) : chars :=
  ofStr (Vhost.Domain rc) ++ "."%char :: EncodeToString (ofStr (Vhost.Location rc)) ++ "."%char ::
    EncodeToString (ofStr (Vhost.RouteByHTTPUser rc)) ++ "."%char :: EncodeToString (ofStr endpoint).

(** The host header that the proxy gets. *)
Definition rewriteHost (rc : option Vhost.RouteConfig) (req : Request) : string :=
  match rc with
  | Some rc => if decide (Vhost.RewriteHost rc = EmptyString) then host req else Vhost.RewriteHost rc
  | None => host req
  end.

Inductive outcome :=
| ProxyAuthRequired | Unauthorized | NotFound
| Joined (conn : string)                    (** CONNECT: the two connections are joined *)
| Forwarded (conn hostHeader : string).

(** The first part of [ServeHTTP]: the route and the authentication. *)
Definition admitted (req : Request) (ctl : Ctl) : outcome + RequestRouteInfo * option HTTPGroup.target :=
  let '(info, rc) := injectRequestInfoToCtx req ctl in
  if checkRouteAuthByRequest req (HTTPGroup.cfg <$> rc) then inr (info, rc)
  else inl (if decide (uHost req ≠ EmptyString) then ProxyAuthRequired else Unauthorized).

(** The second part; [idle] is an idle connection of the transport for the key, if it has one. *)
Definition forward (req : Request) (info : RequestRouteInfo) (rc : option HTTPGroup.target) (idle : chars → option string)
    (ctl : Ctl) : outcome * Ctl :=
  if decide (Method req = "CONNECT"%string) then
    let '(r, ctl) := CreateConnection info false ctl in (match r with Ok c => Joined c | Err _ => NotFound end, ctl)
  else
    let '(endpoint, ctl) := match rc with Some t => chooseEndpoint t ctl | None => (EmptyString, ctl) end in
    let key := match rc with Some t => urlHost (HTTPGroup.cfg t) endpoint | None => ofStr (host req) end in
    let hostHeader := rewriteHost (HTTPGroup.cfg <$> rc) req in
    match idle key with
    | Some c => (Forwarded c hostHeader, ctl)
    | None =>
        let '(r, ctl) := CreateConnection (mkRouteInfo (iURL info) (iHost info) (iUser info) (iURLHost info) endpoint) true ctl in
        (match r with Ok c => Forwarded c hostHeader | Err _ => NotFound end, ctl)
    end.

(** [ServeHTTP] when the routes do not change meanwhile. *)
Definition ServeHTTP (req : Request) (idle : chars → option string) (ctl : Ctl) : outcome * Ctl :=
  match admitted req ctl with
  | inl o => (o, ctl)
  | inr (info, rc) => forward req info rc idle ctl
  end.

(** ** The proxy of type http: [server/proxy/http.go] *)

(** What [Close] undoes. *)
Inductive closeFunc := UnRegisterRoute (rc : Vhost.RouteConfig) | UnRegisterMember (group : string).

Record HTTPProxy := mkHTTPProxy {
  name : string; domains : list string; locations : list string; rewrite_ : string; httpUser : string; httpPassword : string;
  routeUser : string; lbGroup : string; lbKey : string }.

(** [BaseProxy.buildDomains] is [Config.buildDomains]. *)
Definition NewHTTPProxy (s : Config.ServerConfig) (c : Config.ProxyConfigurer) : option HTTPProxy :=
  match c with
  | Config.HTTPProxyConfig b d locs u p h _ _ r =>
      Some (mkHTTPProxy (Config.Name b) (Config.buildDomains s (Config.CustomDomains d) (Config.SubDomain d))
              (match locs with [] => [EmptyString] | _ => locs end) h u p r
              (Config.Group (Config.LoadBalancer b)) (Config.GroupKey (Config.LoadBalancer b)))
  | _ => None
  end.

Definition routeConfig (p : HTTPProxy) (domain location : string) : Vhost.RouteConfig :=
  Vhost.mkRouteConfig domain location (rewrite_ p) (httpUser p) (httpPassword p) (routeUser p).

Definition setRouter (r : Vhost.Routers HTTPGroup.target) (ctl : Ctl) : Ctl :=
  HTTPGroup.mkCtl (HTTPGroup.groups ctl) (HTTPGroup.objs ctl) r (HTTPGroup.nextObj ctl).

(** [HTTPReverseProxy.Register] and [UnRegister] *)
Definition Register (p : HTTPProxy) (rc : Vhost.RouteConfig) (ctl : Ctl) : res error unit * Ctl :=
  match Vhost.Add (Vhost.Domain rc) (Vhost.Location rc) (Vhost.RouteByHTTPUser rc)
          (HTTPGroup.mkTarget rc (HTTPGroup.OwnProxy (name p))) (HTTPGroup.vhostRouter ctl) with
  | (Ok _, r) => (Ok tt, setRouter r ctl)
  | (Err e, r) => (Err (ErrGroup (HTTPGroup.ErrRouter e)), setRouter r ctl)
  end.
Definition UnRegister (rc : Vhost.RouteConfig) (ctl : Ctl) : Ctl :=
  setRouter (Vhost.Del (Vhost.Domain rc) (Vhost.Location rc) (Vhost.RouteByHTTPUser rc) (HTTPGroup.vhostRouter ctl)) ctl.

Definition runCloseFunc (p : HTTPProxy) (ctl : Ctl) (f : closeFunc) : Ctl :=
  match f with
  | UnRegisterRoute rc => UnRegister rc ctl
  | UnRegisterMember g => HTTPGroup.UnRegister (name p) g ctl
  end.
Definition Close (p : HTTPProxy) (fs : list closeFunc) (ctl : Ctl) : Ctl := foldl (runCloseFunc p) ctl fs.

(** One turn of the loops of [Run]. *)
Definition registerOne (p : HTTPProxy) (rc : Vhost.RouteConfig) (ctl : Ctl) : res error closeFunc * Ctl :=
  if decide (lbGroup p ≠ EmptyString) then
    match HTTPGroup.Register (name p) (lbGroup p) (lbKey p) rc (name p) ctl with
    | (Ok _, ctl) => (Ok (UnRegisterMember (lbGroup p)), ctl)
    | (Err e, ctl) => (Err (ErrGroup e), ctl)
    end
  else
    match Register p rc ctl with
    | (Ok _, ctl) => (Ok (UnRegisterRoute rc), ctl)
    | (Err e, ctl) => (Err e, ctl)
    end.

Fixpoint registerAll (p : HTTPProxy) (rcs : list Vhost.RouteConfig) (fs : list closeFunc) (ctl : Ctl)
    : res error unit * list closeFunc * Ctl :=
  match rcs with
  | [] => (Ok tt, fs, ctl)
  | rc :: rcs =>
      match registerOne p rc ctl with
      | (Ok f, ctl) => registerAll p rcs (fs ++ [f]) ctl
      | (Err e, ctl) => (Err e, fs, ctl)
      end
  end.

Definition allRoutes (p : HTTPProxy) : list Vhost.RouteConfig :=
  domains p ≫= λ d, (λ l, routeConfig p d l) <$> locations p.

(** [Run]: the functions for [Close], and the state after the deferred [Close] of a failure. *)
Definition Run (p : HTTPProxy) (ctl : Ctl) : res error (list closeFunc) * Ctl :=
  match registerAll p (allRoutes p) [] ctl with
  | (Ok _, fs, ctl) => (Ok fs, ctl)
  | (Err e, fs, ctl) => (Err e, Close p fs ctl)
  end.

(** ** Base64 is read back *)

Lemma b64_all : Forall (λ v, b64val (b64char v) = Some v ∧ b64char v ≠ "."%char ∧ b64char v ≠ "="%char ∧ isBreak (b64char v) = false) (seqZ 0 64).
Proof. apply (bool_decide_unpack _). by vm_compute. Qed.

Lemma b64_char v : 0 ≤ v < 64 →
  b64val (b64char v) = Some v ∧ b64char v ≠ "."%char ∧ b64char v ≠ "="%char ∧ isBreak (b64char v) = false.
Proof. intros Hv. pose proof b64_all as H. rewrite Forall_forall in H. apply H, elem_of_seqZ. lia. Qed.

Lemma byteOf_bound x : 0 ≤ byteOf x < 256.
Proof. unfold byteOf. pose proof (nat_ascii_bounded x). lia. Qed.
Lemma ofByte_byteOf x : ofByte (byteOf x) = x.
Proof. unfold ofByte, byteOf. rewrite Nat2Z.id. apply ascii_nat_embedding. Qed.

(** The characters of a quantum, from the bytes. *)
Ltac b64 v := let H := fresh in
  assert (H : 0 ≤ v < 64) by (Z.to_euclidean_division_equations; lia);
  let E := fresh "E" in destruct (b64_char v H) as (E & ? & ? & ?); clear H.

Lemma encode_plain : ∀ l, Forall (λ x, x ≠ "."%char ∧ isBreak x = false) (EncodeToString l).
Proof.
  fix IH 1. intros [|a [|b [|c r]]]; cbn [EncodeToString].
  - constructor.
  - pose proof (byteOf_bound a). b64 (byteOf a / 4). b64 (byteOf a mod 4 * 16). by repeat constructor.
  - pose proof (byteOf_bound a). pose proof (byteOf_bound b). cbv zeta. set (n := byteOf a * 256 + byteOf b).
    assert (0 ≤ n < 65536) by lia. b64 (n / 1024). b64 (n / 16 mod 64). b64 (n mod 16 * 4). by repeat constructor.
  - pose proof (byteOf_bound a). pose proof (byteOf_bound b). pose proof (byteOf_bound c). cbv zeta.
    set (n := byteOf a * 65536 + byteOf b * 256 + byteOf c). assert (0 ≤ n < 16777216) by lia.
    b64 (n / 262144). b64 (n / 4096 mod 64). b64 (n / 64 mod 64). b64 (n mod 64).
    do 4 (constructor; [done|]). apply IH.
Qed.

Lemma decodeQuads_encode : ∀ l, decodeQuads (EncodeToString l) = Some l.
Proof.
  fix IH 1. intros [|a [|b [|c r]]]; cbn [EncodeToString].
  - done.
  - pose proof (byteOf_bound a). b64 (byteOf a / 4). b64 (byteOf a mod 4 * 16). cbn [decodeQuads]. rewrite E, E0. simpl.
    rewrite <-(ofByte_byteOf a) at 3. do 3 f_equal. Z.to_euclidean_division_equations; lia.
  - pose proof (byteOf_bound a). pose proof (byteOf_bound b). cbv zeta. set (n := byteOf a * 256 + byteOf b).
    assert (0 ≤ n < 65536) by lia. b64 (n / 1024). b64 (n / 16 mod 64). b64 (n mod 16 * 4).
    cbn [decodeQuads]. rewrite E, E0. rewrite decide_False by done. rewrite E1. simpl.
    replace (n / 1024 * 4 + n / 16 mod 64 / 16) with (byteOf a) by (unfold n in *; Z.to_euclidean_division_equations; lia).
    replace (n / 16 mod 64 mod 16 * 16 + n mod 16 * 4 / 4) with (byteOf b) by (unfold n in *; Z.to_euclidean_division_equations; lia).
    by rewrite !ofByte_byteOf.
  - pose proof (byteOf_bound a). pose proof (byteOf_bound b). pose proof (byteOf_bound c). cbv zeta.
    set (n := byteOf a * 65536 + byteOf b * 256 + byteOf c). assert (0 ≤ n < 16777216) by lia.
    b64 (n / 262144). b64 (n / 4096 mod 64). b64 (n / 64 mod 64). b64 (n mod 64).
    cbn [decodeQuads]. rewrite E, E0. rewrite decide_False by done. rewrite E1, decide_False by done. rewrite E2, IH. simpl.
    replace (n / 262144 * 4 + n / 4096 mod 64 / 16) with (byteOf a) by (unfold n in *; Z.to_euclidean_division_equations; lia).
    replace (n / 4096 mod 64 mod 16 * 16 + n / 64 mod 64 / 4) with (byteOf b) by (unfold n in *; Z.to_euclidean_division_equations; lia).
    replace (n / 64 mod 64 mod 4 * 64 + n mod 64) with (byteOf c) by (unfold n in *; Z.to_euclidean_division_equations; lia).
    by rewrite !ofByte_byteOf.
Qed.

Lemma Decode_Encode l : DecodeString (EncodeToString l) = Some l.
Proof.
  unfold DecodeString. rewrite <-(decodeQuads_encode l). f_equal.
  pose proof (encode_plain l) as Hp. revert Hp. generalize (EncodeToString l). intros m Hp. unfold chars in m. induction Hp as [|x r [_ Hx] _ IH]; [done|]. by rewrite filter_cons_True, IH.
Qed.

Lemma Cut_app sep u p : sep ∉ u → Cut sep (u ++ sep :: p) = Some (u, p).
Proof.
  intros Hu. unfold Cut. assert (indexOf sep (u ++ sep :: p) = Some (length u)) as ->.
  { induction u as [|x u IH]; simpl; [by rewrite decide_True|]. apply not_elem_of_cons in Hu as [Hx Hu].
    rewrite decide_False by done. by rewrite IH. }
  rewrite take_app_length, (cons_middle sep u p), app_assoc, drop_app_length'; [done|]. rewrite length_app. simpl. lia.
Qed.

(** Basic authentication is read back: whatever the password, and for every user without a
    colon, the header that [BasicAuth] writes is parsed to the same user and password. *)
Theorem basic_auth_roundtrip username passwd :
  ":"%char ∉ username → ParseBasicAuth (BasicAuth username passwd) = Some (username, passwd).
Proof.
  intros Hu. unfold ParseBasicAuth, BasicAuth. rewrite decide_False by (rewrite length_app; lia).
  rewrite take_app_length, drop_app_length, decide_True, Decode_Encode by done. simpl. by apply Cut_app.
Qed.

Lemma basic_auth_roundtrip_witness : ParseBasicAuth (ofStr "Basic YWRtaW46cDp3") = Some (ofStr "admin", ofStr "p:w").
Proof. rewrite <-(basic_auth_roundtrip (ofStr "admin") (ofStr "p:w")); [vm_compute; reflexivity|]. by apply (bool_decide_unpack _). Defined.

(** ** The key of idle connections *)

Lemma last_field {A} (sep : A) a b a' b' : sep ∉ b → sep ∉ b' → a ++ sep :: b = a' ++ sep :: b' → a = a' ∧ b = b'.
Proof.
  revert a'. induction a as [|x a IH]; intros [|y a'] Hb Hb' E; simpl in *; simplify_eq.
  - done.
  - destruct Hb. set_solver.
  - destruct Hb'. set_solver.
  - destruct (IH a') as [-> ->]; done.
Qed.

Lemma encode_nodot l : "."%char ∉ EncodeToString l.
Proof. intros Hin. pose proof (encode_plain l) as H. rewrite Forall_forall in H. by destruct (H _ Hin). Qed.

Lemma encode_inj l l' : EncodeToString l = EncodeToString l' → l = l'.
Proof. intros E. apply (f_equal decodeQuads) in E. rewrite !decodeQuads_encode in E. congruence. Qed.


(** The transport never mixes routes.  Two requests use the same key for idle connections
    only if their routes have the same domain, location and user and they go to the same
    endpoint, although the parts are joined by dots and a domain contains dots. *)
Theorem transport_key_inj rc endpoint rc' endpoint' :
  urlHost rc endpoint = urlHost rc' endpoint' →
  (Vhost.Domain rc, Vhost.Location rc, Vhost.RouteByHTTPUser rc, endpoint) =
  (Vhost.Domain rc', Vhost.Location rc', Vhost.RouteByHTTPUser rc', endpoint').
Proof.
  unfold urlHost. intros E. pose proof encode_nodot as Hd.
  assert (Happ : ∀ (a b c d : chars), a ++ "."%char :: b ++ "."%char :: c ++ "."%char :: d =
    ((a ++ "."%char :: b) ++ "."%char :: c) ++ "."%char :: d) by (intros; by repeat (rewrite <-app_assoc; simpl)).
  rewrite !Happ in E. apply last_field in E as [E E4]; [|done..]. apply last_field in E as [E E3]; [|done..].
  apply last_field in E as [E E2]; [|done..].
  apply ofStr_inj in E. apply encode_inj, ofStr_inj in E2, E3, E4. congruence.
Qed.

Lemma transport_key_inj_witness :
  let r1 := Vhost.mkRouteConfig "a.com" "/" "" "admin" "x" "u" in
  let r2 := Vhost.mkRouteConfig "a.com" "/" "b" "" "" "u" in
  (Vhost.Domain r1, Vhost.Location r1, Vhost.RouteByHTTPUser r1, "e"%string) =
  (Vhost.Domain r2, Vhost.Location r2, Vhost.RouteByHTTPUser r2, "e"%string).
Proof. apply transport_key_inj. vm_compute. reflexivity. Defined.

(** ** Requests reach the right proxy *)













(** ** The routes of a proxy without a group *)

Abbreviation routes := (gmap Vhost.key HTTPGroup.target).
Definition keyOf (rc : Vhost.RouteConfig) : Vhost.key := (Vhost.ToLower (Vhost.Domain rc), Vhost.Location rc, Vhost.RouteByHTTPUser rc).
Definition targetOf (p : HTTPProxy) (rc : Vhost.RouteConfig) : HTTPGroup.target := HTTPGroup.mkTarget rc (HTTPGroup.OwnProxy (name p)).
(** The router holds exactly the routes of a map. *)
Definition holds (ctl : Ctl) (m : routes) : Prop := Vhost.refines (HTTPGroup.vhostRouter ctl) m.
Definition addRoutes (p : HTTPProxy) (rcs : list Vhost.RouteConfig) (m : routes) : routes :=
  foldl (λ m rc, <[ keyOf rc := targetOf p rc ]> m) m rcs.

Lemma holds_register p rc ctl m : holds ctl m →
  match Register p rc ctl with
  | (Ok _, ctl') => m !! keyOf rc = None ∧ holds ctl' (<[ keyOf rc := targetOf p rc ]> m)
  | (Err _, ctl') => is_Some (m !! keyOf rc) ∧ holds ctl' m
  end.
Proof.
  intros [W Hm]. unfold Register.
  assert (HA := λ h l u, Vhost.exist_Add (Vhost.Domain rc) (Vhost.Location rc) (Vhost.RouteByHTTPUser rc) (targetOf p rc) _ h l u W).
  pose proof (Vhost.wf_Add (Vhost.Domain rc) (Vhost.Location rc) (Vhost.RouteByHTTPUser rc) (targetOf p rc) _ W) as W'.
  unfold targetOf in *. destruct (Vhost.Add _ _ _ _ _) as [[[]|e] r]; simpl in *.
  - split.
    + unfold keyOf. rewrite Hm. destruct (HA ""%string ""%string ""%string) as [-> _]. done.
    + split; [done|]. intros h l u. simpl. destruct (HA h l u) as [_ ->]. unfold keyOf. case_decide as E.
      * rewrite <-E, lookup_insert_eq. done.
      * by rewrite lookup_insert_ne, Hm.
  - destruct (HA ""%string ""%string ""%string) as [-> [vr Hvr]]. split; [|done]. unfold keyOf. rewrite Hm, Hvr. by eexists.
Qed.

Lemma holds_unregister rc ctl m : holds ctl m → holds (UnRegister rc ctl) (delete (keyOf rc) m).
Proof.
  intros [W Hm]. split; [by apply Vhost.wf_Del|]. intros h l u. simpl. rewrite Vhost.exist_Del. unfold keyOf. case_decide as E.
  - by rewrite <-E, lookup_delete_eq.
  - by rewrite lookup_delete_ne, Hm.
Qed.

Lemma holds_close p rcs : ∀ ctl m, holds ctl m → holds (Close p (UnRegisterRoute <$> rcs) ctl) (foldl (λ m rc, delete (keyOf rc) m) m rcs).
Proof. induction rcs as [|rc rcs IH]; intros ctl m Hh; [done|]. simpl. by apply IH, holds_unregister. Qed.

Lemma addRoutes_lookup p rcs k : ∀ m, k ∉ keyOf <$> rcs → addRoutes p rcs m !! k = m !! k.
Proof.
  unfold addRoutes. induction rcs as [|rc rcs IH]; intros m Hk; simpl; [done|]. simpl in Hk. apply not_elem_of_cons in Hk as [Hne Hk].
  rewrite IH by done. by rewrite lookup_insert_ne.
Qed.

(** Routes that were free are gone again, in whatever order they are removed. *)
Lemma remove_added p rcs : ∀ m, (∀ rc, rc ∈ rcs → m !! keyOf rc = None) →
  foldl (λ m rc, delete (keyOf rc) m) (addRoutes p rcs m) rcs = m.
Proof.
  intros m Hfree. apply map_eq. intros k.
  assert (Hdel : ∀ l (m0 : routes), foldl (λ m rc, delete (keyOf rc) m) m0 l !! k = if decide (k ∈ keyOf <$> l) then None else m0 !! k).
  { clear. induction l as [|rc l IH]; intros m0; simpl; [done|]. rewrite IH. destruct (decide (keyOf rc = k)) as [<-|Hne].
    - rewrite lookup_delete_eq. repeat case_decide; set_solver.
    - rewrite lookup_delete_ne by done. repeat case_decide; set_solver. }
  rewrite Hdel. case_decide as Hk; [|by apply addRoutes_lookup].
  apply list_elem_of_fmap in Hk as (rc & -> & Hin). symmetry. by apply Hfree.
Qed.

Lemma registerAll_spec p rcs : lbGroup p = EmptyString → ∀ done_ ctl m, holds ctl (addRoutes p done_ m) →
  (∀ rc, rc ∈ done_ → m !! keyOf rc = None) → NoDup (keyOf <$> done_) →
  match registerAll p rcs (UnRegisterRoute <$> done_) ctl with
  | (Ok _, fs, ctl') => fs = UnRegisterRoute <$> (done_ ++ rcs) ∧ holds ctl' (addRoutes p (done_ ++ rcs) m) ∧
      (∀ rc, rc ∈ done_ ++ rcs → m !! keyOf rc = None) ∧ NoDup (keyOf <$> (done_ ++ rcs))
  | (Err _, fs, ctl') => ∃ k, k `prefix_of` rcs ∧ fs = UnRegisterRoute <$> (done_ ++ k) ∧ holds ctl' (addRoutes p (done_ ++ k) m) ∧
      (∀ rc, rc ∈ done_ ++ k → m !! keyOf rc = None) ∧
      ¬ ((∀ rc, rc ∈ done_ ++ rcs → m !! keyOf rc = None) ∧ NoDup (keyOf <$> (done_ ++ rcs)))
  end.
Proof.
  intros Hg. induction rcs as [|rc rcs IH]; intros dn ctl m Hh Hfree Hnd; simpl; [by rewrite app_nil_r|].
  unfold registerOne. rewrite decide_False by (intros Hx; by apply Hx).
  pose proof (holds_register p rc ctl _ Hh) as HR. destruct (Register p rc ctl) as [[[]|e] ctl1].
  - destruct HR as [Hn Hh1]. assert (Hnew : keyOf rc ∉ keyOf <$> dn ∧ m !! keyOf rc = None).
    { assert (Hk : keyOf rc ∉ keyOf <$> dn); [|by rewrite addRoutes_lookup in Hn]. intros Hk.
      clear -Hn Hk. unfold addRoutes in Hn. induction dn as [|x dn IH] using rev_ind; [by apply elem_of_nil in Hk|].
      rewrite foldl_app in Hn. simpl in Hn. rewrite fmap_app in Hk. apply elem_of_app in Hk as [Hk|Hk].
      - apply IH; [|done]. destruct (decide (keyOf x = keyOf rc)) as [E|E]; [rewrite E, lookup_insert_eq in Hn; done|].
        by rewrite lookup_insert_ne in Hn.
      - simpl in Hk. apply list_elem_of_singleton in Hk. rewrite Hk, lookup_insert_eq in Hn. done. }
    destruct Hnew as [Hk Hm]. change [UnRegisterRoute rc] with (UnRegisterRoute <$> [rc]). rewrite <-fmap_app.
    specialize (IH (dn ++ [rc]) ctl1 m). rewrite <-!app_assoc in IH. simpl in IH.
    destruct (registerAll _ _ _ _) as [[[[]|e'] fs'] ctl2]; (edestruct IH as (k & IH'); [unfold addRoutes; by rewrite foldl_app|
      intros x [Hx| ->%list_elem_of_singleton]%elem_of_app; by auto|
      rewrite fmap_app; apply NoDup_app; split_and!; [done| |apply NoDup_singleton]; by intros y Hy ->%list_elem_of_singleton|]).
    + done.
    + rewrite <-!app_assoc in IH'. simpl in IH'. destruct IH' as ([r ->] & H1 & H2 & H3 & H4). exists (rc :: k).
      split_and!; try done. by exists r.
  - destruct HR as [Hs Hh1]. exists []. rewrite app_nil_r. split_and!; try done; [apply prefix_nil|].
    intros [Hall Hnd']. rewrite addRoutes_lookup in Hs.
    + rewrite Hall in Hs; [by destruct Hs|]. apply elem_of_app. right. left.
    + rewrite fmap_app in Hnd'. apply NoDup_app in Hnd' as (_ & Hd & _). intros Hin. apply (Hd _ Hin). left.
Qed.

(** Starting an HTTP proxy is all or nothing.  For a proxy without a group, if its routes
    are free and pairwise different up to the case of the domain, [Run] succeeds and the
    router holds exactly the old routes and its own, with its credentials; otherwise [Run]
    fails and the router holds exactly the old routes.  After a successful [Run], closing the
    proxy restores exactly the old routes, in whatever order they were added, and never
    touches a route of another proxy. *)
Theorem http_proxy_run p ctl m : lbGroup p = EmptyString → holds ctl m →
  let free := (∀ rc, rc ∈ allRoutes p → m !! keyOf rc = None) ∧ NoDup (keyOf <$> allRoutes p) in
  match Run p ctl with
  | (Ok fs, ctl') => free ∧ holds ctl' (addRoutes p (allRoutes p) m) ∧ holds (Close p fs ctl') m
  | (Err _, ctl') => ¬ free ∧ holds ctl' m
  end.
Proof.
  intros Hg Hh. unfold Run. pose proof (registerAll_spec p (allRoutes p) Hg [] ctl m Hh) as HS. simpl in HS.
  specialize (HS ltac:(set_solver) ltac:(constructor)). destruct (registerAll _ _ _ _) as [[[[]|e] fs] ctl'].
  - destruct HS as (-> & Hh' & Hfree & Hnd). split_and!; try done. rewrite <-(remove_added p (allRoutes p) m Hfree) at 1.
    by apply holds_close.
  - destruct HS as (k & _ & -> & Hh' & Hfree & Hno). split; [done|]. rewrite <-(remove_added p k m Hfree) at 1. by apply holds_close.
Qed.

(** ** Concrete runs *)

Definition demoProxy (n password : string) (g : string) : HTTPProxy :=
  mkHTTPProxy n ["A.com"] ["/"; "/api"] EmptyString (if decide (password = EmptyString) then EmptyString else "admin"%string) password EmptyString g "k".
Definition emptyCtl : Ctl := HTTPGroup.NewHTTPGroupController.
Definition demoCtl : Ctl := (Run (demoProxy "web" "pw" "") emptyCtl).2.
Definition getReq (auth : option string) : Request := mkRequest "GET" "" "/api/x" "a.com:8080" auth "".
Definition anonymous : Request := getReq None.
Definition signed : Request := getReq (Some (toStr (BasicAuth (ofStr "admin") (ofStr "pw")))).

Example demo_served :
  (ServeHTTP signed (λ _, None) demoCtl).1 = Forwarded "web" "a.com:8080" ∧ (ServeHTTP anonymous (λ _, None) demoCtl).1 = Unauthorized.
Proof. vm_compute. split; reflexivity. Qed.

(** The group takes the credentials of its first member: the password of a later member is
    not asked for, although requests are sent to it. *)
Example group_member_password_ignored :
  let p1 := mkHTTPProxy "open" ["a.com"] ["/"] "" "" "" "" "g" "k" in
  let p2 := mkHTTPProxy "closed" ["a.com"] ["/"] "" "admin" "pw" "" "g" "k" in
  let ctl := (Run p2 (Run p1 emptyCtl).2).2 in
  (ServeHTTP anonymous (λ _, None) ctl).1 = Forwarded "closed" "a.com:8080".
Proof. vm_compute. reflexivity. Qed.

(** The route is looked up again when the connection is opened: a route that replaced the
    checked one in the meantime gets the request without its credentials. *)
Example route_changes_after_check :
  let open_ := mkHTTPProxy "open" ["a.com"] ["/"] "" "" "" "" "" "" in
  let ctl := (Run open_ emptyCtl).2 in
  match admitted anonymous ctl, Run open_ emptyCtl with
  | inr (info, rc), (Ok fs, _) =>
      let ctl' := (Run (demoProxy "closed" "pw" "") (Close open_ fs ctl)).2 in
      (forward anonymous info rc (λ _, None) ctl').1 = Forwarded "closed" "a.com:8080"
  | _, _ => False
  end.
Proof. vm_compute. reflexivity. Qed.


Lemma demo_holds : holds emptyCtl ∅.
Proof. split; [apply Vhost.routers_wf_new|]. intros h l u. rewrite lookup_empty. by vm_compute. Qed.

Lemma http_proxy_run_witness : holds demoCtl (addRoutes (demoProxy "web" "pw" "") (allRoutes (demoProxy "web" "pw" "")) ∅).
Proof.
  pose proof (http_proxy_run (demoProxy "web" "pw" "") emptyCtl ∅ eq_refl demo_holds) as H. cbv zeta in H.
  destruct (Run (demoProxy "web" "pw" "") emptyCtl) as [[fs|e] ctl'] eqn:E.
  - destruct H as (_ & H & _). unfold demoCtl. rewrite E. exact H.
  - exfalso. revert E. vm_compute. discriminate.
Defined.
End ReverseProxy.
