(* ===== verification/ServerProxy.v ===== *)
(** * Proxies of the server: [server/proxy/proxy.go], [tcp.go], [udp.go], [stcp.go], [sudp.go], [xtcp.go]

    A running proxy accepts the connections of users.  Each is offered to the
    server plugins, gets a work connection from the pool of the control and is
    joined with it; packets of secret UDP proxies whose two sides frame them
    differently are translated.  [UserConn] follows one such connection,
    [Listeners] the ports and names a proxy holds while it runs. *)
From S2P Require Import Prelude Bytes Chars Ports Wire UdpBinary Messages TCPGroup Control Nathole Visitor Service Config Metrics Binding Rendezvous.

Module UserConn.

(** ** Work connections *)

Record StartWorkConn := mkStart {
  ProxyName : string; SrcAddr : chars; SrcPort : Z; DstAddr : chars; DstPort : Z; Error : string }.

(** What happens to the connections, in order. *)
Inductive event := EStart (conn : nat) (m : StartWorkConn) (ok : bool) | ECloseWork (conn : nat) | ECloseUser.

Inductive error := ErrGet (e : Control.error) | ErrStart | ErrLeft (e : Messages.error) | ErrRight (e : Messages.error).

(** [strconv.ParseUint(s, 10, 16)] with its error ignored: 0 when [s] is not a
    number, the largest value when it is too large. *)
Definition ParseUint16 (s : chars) : Z :=
  match s with
  | [] => 0
  | _ => match digits 0 s with Some n => Z.min n 65535 | None => 0 end
  end.

(** Host and port of an address, both zero when there is none or it has no port. *)
Definition splitAddr (a : option chars) : chars * Z :=
  match a with
  | None => ([], 0)
  | Some s => match Nathole.SplitHostPort s with Ok (h, p) => (h, ParseUint16 p) | Err _ => ([], 0) end
  end.

Definition startMsg (name : string) (src dst : option chars) : StartWorkConn :=
  mkStart name (splitAddr src).1 (splitAddr src).2 (splitAddr dst).1 (splitAddr dst).2 "".

(** The answers of one turn: those of [Control.GetWorkConn], and whether the
    message can be written. *)
Record answer := mkAnswer { sent : bool; later : option (option nat); written : bool }.

(** The loop of [GetWorkConnFromPool] with [n] turns left; [err] is the error of
    the last turn.  Without an error and a connection both results are nil. *)
Fixpoint tryAll (m : StartWorkConn) (env : nat → answer) (i n : nat) (err : option error) (c : Control.Control)
    : res error (option nat) * Control.Control * list event :=
  match n with
  | 0%nat => (match err with Some e => Err e | None => Ok None end, c, [])
  | S n =>
      match Control.GetWorkConn (sent (env i)) (later (env i)) c with
      | (Err e, c) => (Err (ErrGet e), c, [])
      | (Ok conn, c) =>
          if written (env i) then (Ok (Some conn), c, [EStart conn m true])
          else let '(r, c, es) := tryAll m env (S i) n (Some ErrStart) c in
               (r, c, EStart conn m false :: ECloseWork conn :: es)
      end
  end.

Definition GetWorkConnFromPool (name : string) (src dst : option chars) (env : nat → answer) (c : Control.Control)
    : res error (option nat) * Control.Control * list event :=
  tryAll (startMsg name src dst) env 0 (Z.to_nat (Control.poolCount c + 1)) None c.

(** ** Packet encodings of secret UDP proxies *)

Definition normalizeWireProtocol (wireProtocol : string) : string :=
  if decide (wireProtocol = Wire.ProtocolV2) then Wire.ProtocolV2 else Wire.ProtocolV1.

Definition normalizeUDPPacketCodec (wireProtocol codec : string) : res Messages.error string :=
  if decide (wireProtocol = "" ∨ wireProtocol = Wire.ProtocolV1) then
    if decide (codec ≠ "") then Err Messages.ErrCodecNeedsV2 else Ok ""
  else if decide (wireProtocol = Wire.ProtocolV2) then
    if decide (codec = "" ∨ codec = Wire.UDPPacketCodecBinary) then Ok codec else Err Messages.ErrUnsupportedCodec
  else Err Messages.ErrUnsupportedProtocol.

Definition isMixedSUDPPacketEncoding (leftWire leftCodec rightWire rightCodec : string) : res error bool :=
  match normalizeUDPPacketCodec leftWire leftCodec with
  | Err e => Err (ErrLeft e)
  | Ok leftCodec =>
      match normalizeUDPPacketCodec rightWire rightCodec with
      | Err e => Err (ErrRight e)
      | Ok rightCodec =>
          Ok (negb (bool_decide (normalizeWireProtocol leftWire = normalizeWireProtocol rightWire))
              || negb (bool_decide (leftCodec = rightCodec)))
      end
  end.

(** ** The bridge between the two sides *)

(** What a reader of messages gives: the messages, then an error. *)
Inductive message := MUDPPacket (p : UdpBinary.UDPPacket) | MPing | MUnexpected.
Inductive ioError := EOF | Closed | IOErr (e : string) | Unexpected.
#[global] Instance ioError_eq_dec : EqDecision ioError.
Proof. solve_decision. Defined.

Definition normalizeSUDPBridgeError (e : ioError) : option ioError :=
  match e with EOF | Closed => None | e => Some e end.

(** What a direction has written, the bytes it has counted and its result. *)
Record bridged := mkBridged { out : list message; count : Z; result : option ioError }.

Definition contentLength (p : UdpBinary.UDPPacket) : Z := Z.of_nat (length (UdpBinary.Content p)).

(** [wr i] is the outcome of the [i]-th write. *)
Fixpoint bridgeSUDPProxyToVisitor (wr : nat → option ioError) (i : nat) (ms : list message) (last : ioError) (n : Z) : bridged :=
  match ms with
  | [] => mkBridged [] n (normalizeSUDPBridgeError last)
  | MUDPPacket p :: ms =>
      match wr i with
      | Some e => mkBridged [] n (normalizeSUDPBridgeError e)
      | None => let b := bridgeSUDPProxyToVisitor wr (S i) ms last (int64 (n + contentLength p)) in
                mkBridged (MUDPPacket p :: out b) (count b) (result b)
      end
  | MPing :: ms =>
      match wr i with
      | Some e => mkBridged [] n (normalizeSUDPBridgeError e)
      | None => let b := bridgeSUDPProxyToVisitor wr (S i) ms last n in mkBridged (MPing :: out b) (count b) (result b)
      end
  | MUnexpected :: _ => mkBridged [] n (Some Unexpected)
  end.

Fixpoint bridgeSUDPVisitorToProxy (wr : nat → option ioError) (i : nat) (ms : list message) (last : ioError) (n : Z) : bridged :=
  match ms with
  | [] => mkBridged [] n (normalizeSUDPBridgeError last)
  | MUDPPacket p :: ms =>
      match wr i with
      | Some e => mkBridged [] n (normalizeSUDPBridgeError e)
      | None => let b := bridgeSUDPVisitorToProxy wr (S i) ms last (int64 (n + contentLength p)) in
                mkBridged (MUDPPacket p :: out b) (count b) (result b)
      end
  | MPing :: ms => bridgeSUDPVisitorToProxy wr i ms last n
  | MUnexpected :: _ => mkBridged [] n (Some Unexpected)
  end.

(** One direction of a bridge as the connections behave: what can be read, the
    error that ends it, the outcomes of the writes to the other side. *)
Record direction := mkDirection { reads : list message; last : ioError; wr : nat → option ioError }.

(** What the two peers do: the byte counts of [libio.Join] when the streams are
    joined, the directions when packets are translated. *)
Record peers := mkPeers { joined : Z * Z; fromProxy : direction; fromVisitor : direction }.

(** The counts, what was delivered to either side, and the errors.  Both
    connections are closed when the first direction ends. *)
Record joinResult := mkJoin { inCount : Z; outCount : Z; toProxy : list message; toVisitor : list message; errs : list ioError }.

Definition joinSUDPMessageBridge (proxyWire proxyCodec visitorWire visitorCodec : string) (p : peers)
    : res Messages.error joinResult :=
  let? _ := Messages.NewUDPPacketReadWriter proxyWire proxyCodec in
  let? _ := Messages.NewUDPPacketReadWriter visitorWire visitorCodec in
  let a := bridgeSUDPProxyToVisitor (wr (fromProxy p)) 0 (reads (fromProxy p)) (last (fromProxy p)) 0 in
  let b := bridgeSUDPVisitorToProxy (wr (fromVisitor p)) 0 (reads (fromVisitor p)) (last (fromVisitor p)) 0 in
  Ok (mkJoin (count b) (count a) (out b) (out a) (omap id [result a; result b])).

(** How the two connections were joined. *)
Inductive join := JoinRaw (n : Z * Z) | JoinBridge (r : res Messages.error joinResult) | JoinRefused (e : error).

Definition joinCounts (j : join) : Z * Z :=
  match j with
  | JoinRaw n => n
  | JoinBridge (Ok r) => (inCount r, outCount r)
  | JoinBridge (Err _) | JoinRefused _ => (0, 0)
  end.

Definition joinUserConnection (wireProtocol udpPacketCodec visitorWire visitorCodec proxyType : string) (p : peers) : join :=
  if decide (proxyType = Config.ProxyTypeSUDP) then
    match isMixedSUDPPacketEncoding wireProtocol udpPacketCodec visitorWire visitorCodec with
    | Err e => JoinRefused e
    | Ok true => JoinBridge (joinSUDPMessageBridge wireProtocol udpPacketCodec visitorWire visitorCodec p)
    | Ok false => JoinRaw (joined p)
    end
  else JoinRaw (joined p).

(** ** Connections of users *)

Record BaseProxy := mkBaseProxy {
  name : string; user : string; configurer : Config.ProxyConfigurer; wireProtocol : string; udpPacketCodec : string }.

Record NewUserConnContent := mkContent { cUser : string; cProxyName : string; cProxyType : string; cRemoteAddr : chars }.

(** A connection of a user: its addresses and, when it comes from a visitor,
    protocol and codec of the visitor (both empty otherwise). *)
Record UserConn := mkUserConn { remoteAddr : chars; localAddr : chars; ucWire : string; ucCodec : string }.

Inductive outcome := Rejected (reason : string) | NoWorkConn (e : error) | NilWorkConn | NoEncryption | Joined (conn : nat) (j : join).

(** Whether a translated connection closes both sides itself. *)
Definition closesBoth (j : join) : bool := match j with JoinBridge (Ok _) => true | _ => false end.

(** [handleUserTCPConnection] at time [now]: the outcome, the control, what
    happens to the connections, and the events of the statistics.  Without a
    connection and an error the code would fail on the nil interface. *)
Definition handleUserTCPConnection (plugins : list (Plugin.Plugin NewUserConnContent)) (env : nat → answer) (encOk : bool)
    (p : peers) (now : Z) (pxy : BaseProxy) (userConn : UserConn) (c : Control.Control)
    : outcome * Control.Control * list event * list Metrics.event :=
  let cfg := Config.GetBaseConfig (configurer pxy) in
  let content := mkContent (user pxy) (name pxy) (Config.Type_ cfg) (remoteAddr userConn) in
  match Plugin.handleMutableContent plugins Plugin.OpNewUserConn content with
  | Err reason => (Rejected reason, c, [ECloseUser], [])
  | Ok _ =>
      match GetWorkConnFromPool (name pxy) (Some (remoteAddr userConn)) (Some (localAddr userConn)) env c with
      | (Err e, c, es) => (NoWorkConn e, c, es ++ [ECloseUser], [])
      | (Ok None, c, es) => (NilWorkConn, c, es ++ [ECloseUser], [])
      | (Ok (Some conn), c, es) =>
          if Config.UseEncryption (Config.Transport cfg) && negb encOk then
            (NoEncryption, c, es ++ [ECloseWork conn; ECloseUser], [])
          else
            let j := joinUserConnection (wireProtocol pxy) (udpPacketCodec pxy) (ucWire userConn) (ucCodec userConn) (Config.Type_ cfg) p in
            (Joined conn j, c,
             es ++ (if closesBoth j then [ECloseWork conn; ECloseUser] else []) ++ [ECloseWork conn; ECloseUser],
             [Metrics.EOpen (name pxy); Metrics.EClose (name pxy);
              Metrics.EIn now (name pxy) (joinCounts j).1; Metrics.EOut now (name pxy) (joinCounts j).2])
      end
  end.

(** ** Accepting: one listener of [startCommonTCPListenersHandler] *)

Definition Millisecond : Z := 10 ^ 6.
Definition Second : Z := 10 ^ 9.

Inductive accepted := AConn (c : nat) | ATemporary | AClosed.
Inductive acceptEvent := Handle (c : nat) | Sleep (d : Z).

Definition nextDelay (tempDelay : Z) : Z :=
  Z.min Second (if decide (tempDelay = 0) then 5 * Millisecond else 2 * tempDelay).

(** The delay is not reset by a connection. *)
Fixpoint acceptLoop (tempDelay : Z) (answers : list accepted) : list acceptEvent :=
  match answers with
  | [] | AClosed :: _ => []
  | ATemporary :: answers => Sleep (nextDelay tempDelay) :: acceptLoop (nextDelay tempDelay) answers
  | AConn c :: answers => Handle c :: acceptLoop tempDelay answers
  end.

(** ** Packet encodings *)

#[global] Instance codec_eq_dec : EqDecision Messages.codec.
Proof. solve_decision. Defined.

Lemma mixed_codecs lw lc rw rc :
  isMixedSUDPPacketEncoding lw lc rw rc =
    match Messages.NewUDPPacketReadWriter lw lc, Messages.NewUDPPacketReadWriter rw rc with
    | Err e, _ => Err (ErrLeft e)
    | Ok _, Err e => Err (ErrRight e)
    | Ok a, Ok b => Ok (negb (bool_decide (a = b)))
    end.
Proof.
  unfold isMixedSUDPPacketEncoding, normalizeUDPPacketCodec, Messages.NewUDPPacketReadWriter, normalizeWireProtocol.
  repeat match goal with
  | |- context [decide ?P] => destruct (decide P); try tauto; try done; destruct_or?; subst; try done
  end.
Qed.

(** the two sides of a secret UDP proxy are joined byte by byte exactly when
    the packet readers and writers chosen for them are the same, translated
    exactly when both exist and differ (so the bridge never lacks one), and
    refused otherwise with the error of the first side that has none. *)
Theorem mixed_encoding_exact lw lc rw rc p :
  joinUserConnection lw lc rw rc Config.ProxyTypeSUDP p =
    match Messages.NewUDPPacketReadWriter lw lc, Messages.NewUDPPacketReadWriter rw rc with
    | Err e, _ => JoinRefused (ErrLeft e)
    | Ok _, Err e => JoinRefused (ErrRight e)
    | Ok a, Ok b =>
        if decide (a = b) then JoinRaw (joined p)
        else let down := bridgeSUDPProxyToVisitor (wr (fromProxy p)) 0 (reads (fromProxy p)) (last (fromProxy p)) 0 in
             let up := bridgeSUDPVisitorToProxy (wr (fromVisitor p)) 0 (reads (fromVisitor p)) (last (fromVisitor p)) 0 in
             JoinBridge (Ok (mkJoin (count up) (count down) (out up) (out down) (omap id [result down; result up])))
    end.
Proof.
  unfold joinUserConnection, joinSUDPMessageBridge. rewrite decide_True, mixed_codecs by done.
  destruct (Messages.NewUDPPacketReadWriter lw lc) as [a|]; [|done].
  destruct (Messages.NewUDPPacketReadWriter rw rc) as [b|]; [|done].
  destruct (decide (a = b)); [by rewrite bool_decide_eq_true_2|by rewrite bool_decide_eq_false_2].
Qed.

(** ** The bridge *)

(** The messages before the first unexpected one. *)
Fixpoint expected (ms : list message) : list message :=
  match ms with
  | [] | MUnexpected :: _ => []
  | m :: ms => m :: expected ms
  end.
Definition isPacket (m : message) : bool := match m with MUDPPacket _ => true | _ => false end.
Definition payload (ms : list message) : Z :=
  foldr (λ m n, (match m with MUDPPacket p => contentLength p | _ => 0 end) + n) 0 ms.
Definition isUnexpected (m : message) : bool := match m with MUnexpected => true | _ => false end.
Definition ending (ms : list message) (last : ioError) : option ioError :=
  if existsb isUnexpected ms then Some Unexpected else normalizeSUDPBridgeError last.

Lemma int64_int64_add a b : int64 (int64 a + b) = int64 (a + b).
Proof.
  unfold int64. f_equal. replace ((a + 2 ^ 63) mod 2 ^ 64 - 2 ^ 63 + b + 2 ^ 63) with ((a + 2 ^ 63) mod 2 ^ 64 + b) by lia.
  rewrite Z.add_mod_idemp_l by lia. f_equal. lia.
Qed.

Lemma payload_cons_packet p ms n : int64 (int64 (n + contentLength p) + payload ms) = int64 (n + payload (MUDPPacket p :: ms)).
Proof. rewrite int64_int64_add. f_equal. simpl. lia. Qed.

(** Whatever the writes do, what was delivered is an initial part of what is
    meant for the other side, and its payload is what was counted. *)
Lemma down_prefix wr ms last : ∀ i n,
  let b := bridgeSUDPProxyToVisitor wr i ms last (int64 n) in
  out b `prefix_of` expected ms ∧ count b = int64 (n + payload (out b)).
Proof.
  induction ms as [|[p| |] ms IH]; intros i n; simpl; [|destruct (wr i); simpl..|].
  1,2,4,6: rewrite Z.add_0_r; split; [apply prefix_nil|done].
  - rewrite int64_int64_add. destruct (IH (S i) (n + contentLength p)) as [Hp Hc]. split; [by apply prefix_cons|].
    rewrite Hc. f_equal. lia.
  - destruct (IH (S i) n) as [Hp Hc]. split; [by apply prefix_cons|]. by rewrite Hc.
Qed.

Lemma up_prefix wr ms last : ∀ i n,
  let b := bridgeSUDPVisitorToProxy wr i ms last (int64 n) in
  out b `prefix_of` filter isPacket (expected ms) ∧ count b = int64 (n + payload (out b)).
Proof.
  induction ms as [|[p| |] ms IH]; intros i n; simpl; [|destruct (wr i); simpl| |].
  1,2,5: rewrite Z.add_0_r; split; [apply prefix_nil|done].
  - rewrite filter_cons_True by done. rewrite int64_int64_add.
    destruct (IH (S i) (n + contentLength p)) as [Hp Hc]. split; [by apply prefix_cons|]. rewrite Hc. f_equal. lia.
  - rewrite filter_cons_False by auto. apply IH.
Qed.

(** While the writes succeed everything is delivered. *)
Lemma down_all wr ms last : ∀ i n, (∀ j, wr j = None) →
  out (bridgeSUDPProxyToVisitor wr i ms last n) = expected ms ∧
  result (bridgeSUDPProxyToVisitor wr i ms last n) = ending ms last.
Proof.
  induction ms as [|m ms IH]; intros i n Hw; [by unfold ending|].
  destruct m; simpl; [rewrite Hw; simpl..|by unfold ending].
  all: edestruct IH as [-> ->]; done.
Qed.

Lemma up_all wr ms last : ∀ i n, (∀ j, wr j = None) →
  out (bridgeSUDPVisitorToProxy wr i ms last n) = filter isPacket (expected ms) ∧
  result (bridgeSUDPVisitorToProxy wr i ms last n) = ending ms last.
Proof.
  induction ms as [|m ms IH]; intros i n Hw; [by unfold ending|].
  destruct m; simpl; [rewrite Hw; simpl| |by unfold ending].
  - rewrite filter_cons_True by done. edestruct IH as [-> ->]; done.
  - rewrite filter_cons_False by auto. by apply IH.
Qed.

(** a translated secret UDP connection delivers, in order and without gaps,
    the packets and pings of the proxy to the visitor and the packets of the
    visitor to the proxy, up to the first unexpected message or failed write,
    and counts exactly the payload it delivered.  When no write fails it
    delivers all of them, and it ends without an error exactly when every
    message was expected and either side ended regularly. *)
Theorem bridge_delivers lw lc rw rc p r :
  joinSUDPMessageBridge lw lc rw rc p = Ok r →
  toVisitor r `prefix_of` expected (reads (fromProxy p)) ∧
  toProxy r `prefix_of` filter isPacket (expected (reads (fromVisitor p))) ∧
  outCount r = int64 (payload (toVisitor r)) ∧ inCount r = int64 (payload (toProxy r)) ∧
  ((∀ j, wr (fromProxy p) j = None) → (∀ j, wr (fromVisitor p) j = None) →
   toVisitor r = expected (reads (fromProxy p)) ∧ toProxy r = filter isPacket (expected (reads (fromVisitor p))) ∧
   errs r = omap id [ending (reads (fromProxy p)) (last (fromProxy p)); ending (reads (fromVisitor p)) (last (fromVisitor p))]).
Proof.
  unfold joinSUDPMessageBridge. destruct (Messages.NewUDPPacketReadWriter lw lc); [|done].
  destruct (Messages.NewUDPPacketReadWriter rw rc); [|done]. intros [= <-]; cbn [toVisitor toProxy outCount inCount errs].
  edestruct (down_prefix (wr (fromProxy p)) (reads (fromProxy p)) (last (fromProxy p)) 0 0) as [H1 H2].
  edestruct (up_prefix (wr (fromVisitor p)) (reads (fromVisitor p)) (last (fromVisitor p)) 0 0) as [H3 H4].
  split_and!; try done. intros Hd Hu.
  edestruct (down_all (wr (fromProxy p))) as [-> ->]; [done|]. by edestruct (up_all (wr (fromVisitor p))) as [-> ->].
Qed.

(** ** Connections of users *)

(** Work connections that could not be started. *)
Definition tries (m : StartWorkConn) (failed : list nat) : list event := failed ≫= λ conn, [EStart conn m false; ECloseWork conn].

Lemma tryAll_events m env n : ∀ i err c,
  let '(r, c', es) := tryAll m env i n err c in
  Control.poolCount c' = Control.poolCount c ∧
  (r = Ok None → err = None ∧ n = 0%nat) ∧
  ∃ failed, match r with
    | Ok (Some conn) => es = tries m failed ++ [EStart conn m true] ∧ (length failed < n)%nat
    | _ => es = tries m failed ∧ (length failed ≤ n)%nat
    end.
Proof.
  induction n as [|n IH]; intros i err c; simpl.
  { destruct err; split_and!; try done; exists []; simpl; done. }
  destruct (Control.GetWorkConn _ _ c) as [[conn|e] c1] eqn:HG.
  - assert (Control.poolCount c1 = Control.poolCount c) as Hpc.
    { unfold Control.GetWorkConn in HG. repeat case_match; by simplify_eq/=. }
    destruct (written (env i)); [split_and!; try done; exists []; simpl; split; [done|lia]|].
    specialize (IH (S i) (Some ErrStart) c1). destruct (tryAll m env (S i) n (Some ErrStart) c1) as [[r c'] es].
    destruct IH as (Hp & Hn & failed & Hf). split_and!; [congruence|by intros [? _]%Hn|].
    exists (conn :: failed). destruct r as [[x|]|e]; destruct Hf as [-> Hl]; simpl; split; (done || lia).
  - assert (Control.poolCount c1 = Control.poolCount c) as Hpc.
    { unfold Control.GetWorkConn in HG. repeat case_match; by simplify_eq/=. }
    split_and!; try done. exists []. simpl. split; [done|lia].
Qed.

Lemma in_tries m failed conn m' ok : EStart conn m' ok ∈ tries m failed → m' = m ∧ ECloseWork conn ∈ tries m failed.
Proof.
  unfold tries. rewrite !list_elem_of_bind. intros (y & Hy & Hin).
  apply elem_of_cons in Hy as [[= -> -> ->]|Hy]; [|by apply list_elem_of_singleton in Hy].
  split; [done|]. exists y. split; [|done]. by right; left.
Qed.

Definition isStart (e : event) : bool := match e with EStart _ _ _ => true | _ => false end.

Lemma count_tries m failed es : length (filter isStart (tries m failed ++ es)) = (length failed + length (filter isStart es))%nat.
Proof.
  induction failed as [|x f IH]; [done|]. change (tries m (x :: f)) with ([EStart x m false; ECloseWork x] ++ tries m f).
  rewrite <-app_assoc. cbn [app]. rewrite filter_cons_True by done. rewrite filter_cons_False by auto. cbn [length]. rewrite IH. done.
Qed.

(** The connection is counted while it is joined, and no longer. *)
Lemma open_close_conns startOfDay s n t i o :
  - 2 ^ 31 ≤ Metrics.TotalConns s < 2 ^ 31 →
  Metrics.TotalConns (foldl (Metrics.exec startOfDay) s [Metrics.EOpen n; Metrics.EClose n; Metrics.EIn t n i; Metrics.EOut t n o])
    = Metrics.TotalConns s.
Proof.
  intros H. simpl. unfold Metrics.DecCounter, Metrics.IncCounter, Metrics.wrap32.
  replace ((Metrics.TotalConns s + 1 + 2 ^ 31) mod 2 ^ 32 - 2 ^ 31 - 1 + 2 ^ 31)
    with ((Metrics.TotalConns s + 1 + 2 ^ 31) mod 2 ^ 32 - 1) by lia.
  rewrite Zminus_mod_idemp_l. rewrite Z.mod_small; lia.
Qed.

(** C26: a connection of a user is handled completely on every path.  It is
    closed at the end; every work connection taken for it gets the start message
    of this proxy and this user and is closed too; at most one more than the
    pool size are tried; the missing connection without an error that would
    crash the handler does not occur.  A connection refused by a plugin takes no
    work connection.  Only a joined connection is counted, its traffic with what
    the join moved, and the number of open connections is as before. *)
Theorem user_conn_handled plugins env encOk p now pxy uc c o c' es ms :
  0 ≤ Control.poolCount c →
  handleUserTCPConnection plugins env encOk p now pxy uc c = (o, c', es, ms) →
  list.last es = Some ECloseUser ∧ o ≠ NilWorkConn ∧
  (∀ conn m ok, EStart conn m ok ∈ es →
     m = startMsg (name pxy) (Some (remoteAddr uc)) (Some (localAddr uc)) ∧ ECloseWork conn ∈ es) ∧
  Z.of_nat (length (filter isStart es)) ≤ Control.poolCount c + 1 ∧
  (∀ reason, o = Rejected reason → c' = c ∧ es = [ECloseUser]) ∧
  (∀ conn j, o = Joined conn j →
     EStart conn (startMsg (name pxy) (Some (remoteAddr uc)) (Some (localAddr uc))) true ∈ es ∧
     ms = [Metrics.EOpen (name pxy); Metrics.EClose (name pxy);
           Metrics.EIn now (name pxy) (joinCounts j).1; Metrics.EOut now (name pxy) (joinCounts j).2]) ∧
  ((∀ conn j, o ≠ Joined conn j) → ms = []) ∧
  (∀ startOfDay s, - 2 ^ 31 ≤ Metrics.TotalConns s < 2 ^ 31 →
     Metrics.TotalConns (foldl (Metrics.exec startOfDay) s ms) = Metrics.TotalConns s).
Proof.
  intros Hpool. unfold handleUserTCPConnection. destruct (Plugin.handleMutableContent _ _ _) as [content|reason].
  2:{ intros [= <- <- <- <-]. split_and!; try done; [|simpl; lia].
      intros conn m ok ?%list_elem_of_singleton; done. }
  unfold GetWorkConnFromPool. set (m := startMsg _ _ _).
  pose proof (tryAll_events m env (Z.to_nat (Control.poolCount c + 1)) 0 None c) as Ht.
  destruct (tryAll _ _ _ _ _ _) as [[r c1] es1]. destruct Ht as (_ & Hnil & failed & Hf).
  destruct r as [[conn|]|e].
  - destruct Hf as [-> Hl]. destruct (_ && _).
    + intros [= <- <- <- <-]. rewrite last_app, <-!app_assoc, count_tries. split_and!; try done; [|simpl; lia].
      intros k m' ok. rewrite !elem_of_app. intros [[-> ?]%in_tries|Hin]; [split; [done|by left]|set_solver].
    + cbv zeta. destruct (joinUserConnection _ _ _ _ _ _) as [n|[r|e]|e] eqn:Hj; cbn [closesBoth];
        intros [= <- <- <- <-]; rewrite <-!app_assoc, count_tries; cbn [app];
        (split_and!; [rewrite last_app; done|done| |simpl; lia|done| |intros H; by destruct (H _ _ eq_refl)|intros; by apply open_close_conns]).
      all: try (intros k j [= <- <-]; split; [set_solver|done]).
      all: intros k m' ok; rewrite !elem_of_app; intros [[-> ?]%in_tries|Hin]; [split; [done|by left]|set_solver].
  - exfalso. destruct (Hnil eq_refl) as [_ E]. lia.
  - destruct Hf as [-> Hl]. intros [= <- <- <- <-]. rewrite last_app, count_tries. split_and!; try done; [|simpl; lia].
    intros k m' ok. rewrite !elem_of_app. intros [[-> ?]%in_tries|?%list_elem_of_singleton]; [split; [done|by left]|done].
Qed.

(** ** Accepting *)

Fixpoint acceptedBefore (answers : list accepted) : list nat :=
  match answers with
  | [] | AClosed :: _ => []
  | ATemporary :: answers => acceptedBefore answers
  | AConn c :: answers => c :: acceptedBefore answers
  end.

(** A listener hands over every connection it accepts before it is
    closed, in order, and pauses after a temporary error for at least 5
    milliseconds and at most a second. *)
Lemma accept_all answers : ∀ d, d = 0 ∨ 5 * Millisecond ≤ d ≤ Second →
  omap (λ e, match e with Handle c => Some c | _ => None end) (acceptLoop d answers) = acceptedBefore answers ∧
  ∀ t, Sleep t ∈ acceptLoop d answers → 5 * Millisecond ≤ t ≤ Second.
Proof.
  induction answers as [|[c| |] answers IH]; intros d Hd; simpl; [split; [done|set_solver]| | |split; [done|set_solver]].
  - destruct (IH d Hd) as [<- Hs]. split; [done|]. intros t [?|?]%elem_of_cons; [done|auto].
  - assert (Hn : 5 * Millisecond ≤ nextDelay d ≤ Second) by (unfold nextDelay, Millisecond, Second in *; case_decide; lia).
    destruct (IH (nextDelay d) (or_intror Hn)) as [<- Hs]. split; [done|]. intros t [[= ->]|?]%elem_of_cons; auto.
Qed.

(** ** Concrete runs *)

Definition demoConfig : Config.ProxyConfigurer := Config.SUDPProxyConfig
  (Config.mkBase "dns" Config.ProxyTypeSUDP None ∅ (Config.mkTransport false false Config.zeroQuantity "" "") ∅
     (Config.mkLoadBalancer "" "") (Config.mkHealthCheck "" 0 0 0 "" []) "" 53 (Config.mkPlugin "" None)) "key" [].
Definition demoPxy : BaseProxy := mkBaseProxy "dns" "alice" demoConfig Wire.ProtocolV2 Wire.UDPPacketCodecBinary.
Definition demoUser : UserConn := mkUserConn (ofStr "1.2.3.4:5000") (ofStr "[::1]:80") Wire.ProtocolV1 "".
Definition demoUDP : UdpBinary.UDPPacket := UdpBinary.demoPacket.
Definition demoPeers : peers :=
  mkPeers (7, 8) (mkDirection [MPing; MUDPPacket demoUDP] EOF (λ _, None)) (mkDirection [MPing; MUDPPacket demoUDP; MPing] Closed (λ _, None)).
Definition demoCtl : Control.Control :=
  Control.mkControl (Control.mkSession "alice" "" "r" "h" "v" "ip" Wire.ProtocolV2 "" 1 "" false 5)
    (Control.mkChan [10; 11]%nat 11 false) 1 0 [] Control.controlStateRunning true None false.
(** The first work connection cannot be started, the second can. *)
Definition demoAnswers (i : nat) : answer := mkAnswer true None (bool_decide (i = 1%nat)).

Definition demoStart : StartWorkConn := mkStart "dns" (ofStr "1.2.3.4") 5000 (ofStr "::1") 80 "".

Definition demoJoin : joinResult :=
  mkJoin (contentLength demoUDP) (contentLength demoUDP) [MUDPPacket demoUDP] [MPing; MUDPPacket demoUDP] [].

Lemma bridge_delivers_witness :
  toVisitor demoJoin = expected (reads (fromProxy demoPeers)) ∧
  toProxy demoJoin = filter isPacket (expected (reads (fromVisitor demoPeers))) ∧
  errs demoJoin = omap id [ending (reads (fromProxy demoPeers)) EOF; ending (reads (fromVisitor demoPeers)) Closed].
Proof.
  apply (bridge_delivers Wire.ProtocolV2 Wire.UDPPacketCodecBinary Wire.ProtocolV1 "" demoPeers demoJoin); reflexivity.
Defined.

Lemma user_conn_handled_witness :
  list.last [EStart 10 demoStart false; ECloseWork 10; EStart 11 demoStart true; ECloseWork 11; ECloseUser; ECloseWork 11; ECloseUser] =
    Some ECloseUser ∧ Joined 11 (JoinBridge (Ok demoJoin)) ≠ NilWorkConn.
Proof.
  destruct (user_conn_handled [] demoAnswers true demoPeers 5 demoPxy demoUser demoCtl
    (Joined 11 (JoinBridge (Ok demoJoin)))
    (Control.withChan (Control.mkChan [] 11 false) demoCtl)
    [EStart 10 demoStart false; ECloseWork 10; EStart 11 demoStart true; ECloseWork 11; ECloseUser; ECloseWork 11; ECloseUser]
    [Metrics.EOpen "dns"; Metrics.EClose "dns"; Metrics.EIn 5 "dns" (contentLength demoUDP); Metrics.EOut 5 "dns" (contentLength demoUDP)])
    as (H1 & H2 & _).
  - simpl. lia.
  - vm_compute. reflexivity.
  - exact (conj H1 H2).
Defined.

End UserConn.

Module Listeners.
Import TCPGroup.

(** ** TCP proxies *)

(** A listener of a group (the group, its number) or a socket of its own. *)
Inductive listener := LGroup (g ln : nat) | LNet (port : Z).

Record TCPProxy := mkTCPProxy {
  name : string; Group : string; GroupKey : string; RemotePort : Z; realBindPort : Z; listeners : list listener }.

Definition withPorts (pm : Ports.Manager) (ctl : TCPGroupCtl) : TCPGroupCtl :=
  mkCtl (groups ctl) (objs ctl) pm (nextObj ctl) (nextLn ctl).

(** [fmt.Sprintf(":%d", port)] *)
Definition addrOf (port : Z) : chars := ":"%char :: Itoa port.

(** What [Run] does after it has listened. *)
Definition ran (port : Z) (l : listener) (pxy : TCPProxy) : TCPProxy :=
  mkTCPProxy (name pxy) (Group pxy) (GroupKey pxy) port port (Listeners.listeners pxy ++ [l]).

(** [TCPProxy.Run] with the group found at [g]; [e] has the outcomes of the
    probes and of [net.Listen]. *)
Definition runOn (e : Env) (bindAddr : string) (g : nat) (pxy : TCPProxy) (ctl : TCPGroupCtl)
    : res error chars * TCPProxy * TCPGroupCtl :=
  if decide (Group pxy ≠ "") then
    match groupListen e g (name pxy) (Group pxy) (GroupKey pxy) bindAddr (RemotePort pxy) ctl with
    | (Err er, ctl) => (Err er, pxy, ctl)
    | (Ok (ln, realBindPort), ctl) => (Ok (addrOf realBindPort), ran realBindPort (LGroup g ln) pxy, ctl)
    end
  else
    match Ports.Acquire (avail e) (order e) (now e) (name pxy) (RemotePort pxy) (portManager ctl) with
    | (Err er, pm) => (Err (ErrPorts er), pxy, withPorts pm ctl)
    | (Ok p, pm) =>
        if listenOk e then (Ok (addrOf p), ran p (LNet p) pxy, withPorts pm ctl)
        else (Err ErrListen, pxy, withPorts (Ports.Release (now e) p pm) ctl)
    end.

Definition Run (e : Env) (bindAddr : string) (pxy : TCPProxy) (ctl : TCPGroupCtl)
    : res error chars * TCPProxy * TCPGroupCtl :=
  if decide (Group pxy ≠ "") then let '(g, ctl) := getOrCreate (Group pxy) ctl in runOn e bindAddr g pxy ctl
  else runOn e bindAddr 0 pxy ctl.

(** [BaseProxy.Close] on these listeners; the socket of [net.Listen] is not
    part of the state. *)
Definition closeListeners (t : Z) (ls : list listener) (ctl : TCPGroupCtl) : TCPGroupCtl :=
  foldl (λ ctl l, match l with LGroup g ln => closeListener t g ln ctl | LNet _ => ctl end) ctl ls.

Definition Close (t : Z) (pxy : TCPProxy) (ctl : TCPGroupCtl) : TCPGroupCtl :=
  let ctl := closeListeners t (listeners pxy) ctl in
  if decide (Group pxy = "") then withPorts (Ports.Release t (realBindPort pxy) (portManager ctl)) ctl else ctl.

(** ** Steps

    The running TCP proxies of all controls.  A proxy runs once and is closed
    once.  Probes of ports in use fail, the ports are tried in some order; the
    lookup of a group may be any number of steps before the call on it. *)
Record World := mkWorld { ctl : TCPGroupCtl; running : gmap nat TCPProxy }.

Inductive step (w : World) : World → Prop :=
| step_get key : step w (mkWorld (getOrCreate key (ctl w)).2 (running w))
| step_run e bindAddr g id pxy r pxy' c' :
    (∀ i q, avail e i q = true → Ports.usedPorts (portManager (ctl w)) !! q = None) →
    order e ≡ₚ elements (Ports.freePorts (portManager (ctl w))) →
    running w !! id = None → listeners pxy = [] →
    runOn e bindAddr g pxy (ctl w) = (r, pxy', c') →
    step w (mkWorld c' (match r with Ok _ => <[ id := pxy' ]> (running w) | Err _ => running w end))
| step_close t id pxy :
    running w !! id = Some pxy → step w (mkWorld (Close t pxy (ctl w)) (delete id (running w)))
| step_clean t : step w (mkWorld (withPorts (Ports.cleanReservedPortsOnce t (portManager (ctl w))) (ctl w)) (running w)).

Definition init (allowPorts : list Ports.PortsRange) : World := mkWorld (NewTCPGroupCtl (Ports.NewManager allowPorts)) ∅.

(** ** Ports held by a name *)

Definition holds (pm : Ports.Manager) (p : Z) (n : string) : Prop :=
  ∃ l ctx, Ports.usedPorts pm !! p = Some l ∧ Ports.store pm !! l = Some ctx ∧ Ports.ProxyName ctx = n ∧ Ports.Closed ctx = false.

Section invariant.
Context (allowed : gset Z).

Lemma holds_mark pm q m t p n :
  Ports.wf allowed pm → p ≠ q → holds pm p n → holds (Ports.markPortAcquiredLocked m q t pm) p n.
Proof.
  intros W Hne (l & ctx & Hu & Hs & Hn & Hc). pose proof (Ports.wf_lt _ _ _ _ W Hs).
  exists l, ctx. simpl. rewrite lookup_insert_ne by done. rewrite lookup_insert_ne by lia. done.
Qed.

Lemma holds_marked pm p n t : holds (Ports.markPortAcquiredLocked n p t pm) p n.
Proof. eexists _, _. simpl. rewrite !lookup_insert_eq. done. Qed.

Lemma holds_release pm q t p n : Ports.wf allowed pm → p ≠ q → holds pm p n → holds (Ports.Release t q pm) p n.
Proof.
  intros W Hne (l & ctx & Hu & Hs & Hn & Hc). unfold Ports.Release.
  destruct (Ports.usedPorts pm !! q) as [l'|] eqn:Hq; [|by exists l, ctx].
  destruct (Ports.wf_used _ _ W _ _ Hq) as (ctx' & Hs' & Hp' & _).
  destruct (Ports.wf_used _ _ W _ _ Hu) as (ctx2 & Hs2 & Hp2 & _).
  exists l, ctx. simpl. rewrite lookup_delete_ne by done. rewrite lookup_alter_ne; [done|]. intros ->. congruence.
Qed.

Lemma holds_used pm p n : holds pm p n → is_Some (Ports.usedPorts pm !! p).
Proof. intros (l & ctx & H & _). eauto. Qed.

(** An acquisition, also one that is given back, leaves the ports of others. *)
Lemma acquire_holds e m po pm r pm' :
  Ports.wf allowed pm → order e ≡ₚ elements (Ports.freePorts pm) →
  (∀ i q, avail e i q = true → Ports.usedPorts pm !! q = None) →
  Ports.Acquire (avail e) (order e) (now e) m po pm = (r, pm') →
  (∀ p n, holds pm p n → holds pm' p n) ∧
  (∀ q, r = Ok q → holds pm' q m ∧ Ports.usedPorts pm !! q = None ∧
     ∀ p n, holds pm p n → holds (Ports.Release (now e) q pm') p n).
Proof.
  intros W Ho Hav HA. pose proof (Ports.Acquire_cases allowed (avail e) (order e) (now e) m po pm W Ho) as H.
  pose proof (Ports.wf_acquire allowed (avail e) (order e) (now e) m po pm W Ho) as W'.
  rewrite HA in H, W'. destruct H as [(q & i & Hp & Ha & -> & _ & _ & Hr)|(er & -> & ->)]; [|done].
  specialize (Hav _ _ Ha). assert (Hne : ∀ p n, holds pm p n → p ≠ q).
  { intros p n Hh ->. apply holds_used in Hh as [? ?]. congruence. }
  split; [intros p n Hh; eapply holds_mark; eauto|].
  intros q' ->. destruct Hr as [[= <-]|[_ ?]]; [|done]. split_and!; [apply holds_marked|done|].
  intros p n Hh. eapply holds_release, holds_mark; eauto.
Qed.

(** Another manager state in which the live groups still hold their ports. *)
Lemma wf_withPorts ctl pm' :
  wf allowed ctl → Ports.wf allowed pm' →
  (∀ g tg, objs ctl !! g = Some tg → lns tg ≠ [] → is_Some (Ports.usedPorts pm' !! realPort tg)) →
  wf allowed (withPorts pm' ctl).
Proof.
  intros [W1 W2 W3 W4 W5 W6 W7 W8 W9 W10] Wp Hk. split; simpl; eauto.
  intros h th Hh Hn. destruct (W5 h th Hh Hn) as (? & ? & ?). eauto.
Qed.

(** ** What a change of the groups keeps *)

Definition liveFrom (ctl ctl' : TCPGroupCtl) : Prop :=
  ∀ h th, objs ctl' !! h = Some th → lns th ≠ [] →
    (∃ th0, objs ctl !! h = Some th0 ∧ lns th0 ≠ [] ∧ realPort th0 = realPort th) ∨
    Ports.usedPorts (portManager ctl) !! realPort th = None.

Definition member (ctl : TCPGroupCtl) (g ln : nat) (grp : string) (p : Z) : Prop :=
  ∃ tg, objs ctl !! g = Some tg ∧ ln ∈ lns tg ∧ group tg = grp ∧ realPort tg = p.

Lemma member_put ctl g tg tg' pm n h ln grp p :
  objs ctl !! g = Some tg → (∀ x, x ∈ lns tg → x ∈ lns tg') →
  (lns tg ≠ [] → group tg' = group tg ∧ realPort tg' = realPort tg) →
  member ctl h ln grp p → member (putObj g tg' pm n ctl) h ln grp p.
Proof.
  intros Hg Hsub Hsame (th & Hh & Hl & Hgr & Hp). destruct (decide (g = h)) as [<-|].
  - simplify_eq. destruct Hsame as [E1 E2]; [intros E; rewrite E in Hl; set_solver|].
    exists tg'. simpl. rewrite lookup_insert_eq. eauto.
  - exists th. simpl. rewrite lookup_insert_ne by done. done.
Qed.

Lemma liveFrom_put ctl g tg tg' pm n :
  objs ctl !! g = Some tg →
  (lns tg' ≠ [] → lns tg ≠ [] ∧ realPort tg' = realPort tg ∨ Ports.usedPorts (portManager ctl) !! realPort tg' = None) →
  liveFrom ctl (putObj g tg' pm n ctl).
Proof.
  intros Hg Hl h th. simpl. rewrite lookup_insert_Some. intros [[<- <-]|[Hne Hh]] Hn; [|left; eauto].
  destruct (Hl Hn) as [[? ?]|?]; [left; eauto|by right].
Qed.

Lemma groupListen_evolves e g m grp key ad po ctl :
  wf allowed ctl → (∀ i q, avail e i q = true → Ports.usedPorts (portManager ctl) !! q = None) →
  order e ≡ₚ elements (Ports.freePorts (portManager ctl)) →
  let '(r, ctl') := groupListen e g m grp key ad po ctl in
  (∀ p n, holds (portManager ctl) p n → holds (portManager ctl') p n) ∧ liveFrom ctl ctl' ∧
  (∀ h ln k p, member ctl h ln k p → member ctl' h ln k p) ∧
  (∀ ln rp, r = Ok (ln, rp) → member ctl' g ln grp rp ∧ ln = nextLn ctl).
Proof.
  intros W Hav Ho. unfold groupListen.
  assert (Hid : liveFrom ctl ctl) by (intros h th ? ?; left; eauto).
  destruct (objs ctl !! g) as [tg|] eqn:Hg; [|done].
  destruct (isCurrent grp g ctl) eqn:Hcur; [|done]. apply bool_decide_eq_true in Hcur. cbn [negb].
  destruct (lns tg) as [|l0 ls] eqn:Hl.
  - destruct (Ports.Acquire _ _ _ _ _ _) as [r pm'] eqn:HA.
    destruct (acquire_holds e m po _ r pm' (wf_ports _ _ W) Ho Hav HA) as (Hk & Hr).
    destruct r as [rp|er]; [destruct (listenOk e)|]; try destruct (Hr rp eq_refl) as (Hm & Hfree & Hk').
    1: split_and!; [done|apply (liveFrom_put ctl g tg); [done|]; auto|intros *; apply (member_put ctl g tg); [done|rewrite Hl; set_solver|by rewrite Hl]|].
    { intros ln q [= <- <-]. split; [|done]. eexists. simpl. rewrite lookup_insert_eq. split_and!; [done|set_solver|done..]. }
    all: split_and!; [done|apply (liveFrom_put ctl g tg); [done|]; by rewrite Hl|intros *; by apply (member_put ctl g tg)|done].
  - repeat case_decide; try (split_and!; done). split_and!; [done|..].
    + apply (liveFrom_put ctl g tg); [done|]; auto. left. by rewrite Hl.
    + intros *. apply (member_put ctl g tg); [done|simpl; rewrite Hl; set_solver|done].
    + intros ln rp [= <- <-]. split; [|done]. eexists. simpl. rewrite lookup_insert_eq. split_and!; [done|set_solver|..|done].
      assert (Hn : lns tg ≠ []) by by rewrite Hl. destruct (wf_live _ _ W g tg Hg Hn) as (Hr & _). by eapply (wf_inj _ _ W).
Qed.

Lemma closeListener_evolves t g ln tg ctl :
  wf allowed ctl → objs ctl !! g = Some tg → ln ∈ lns tg →
  let ctl' := closeListener t g ln ctl in
  (∀ p n, p ≠ realPort tg → holds (portManager ctl) p n → holds (portManager ctl') p n) ∧ liveFrom ctl ctl' ∧
  (∀ h x k p, (h, x) ≠ (g, ln) → member ctl h x k p → member ctl' h x k p).
Proof.
  intros W Hg Hin. unfold closeListener. rewrite Hg.
  assert (Hrest : ∀ x, x ∈ lns tg → x ≠ ln → x ∈ removeFirst ln (lns tg)).
  { intros x Hx Hne. apply elem_of_removeFirst; [|done]. by eapply wf_nodup. }
  destruct (removeFirst ln (lns tg)) as [|l0 ls] eqn:E.
  - split_and!.
    + intros p n Hne Hh. eapply holds_release; eauto using wf_ports.
    + intros h th. simpl. rewrite lookup_insert_Some. intros [[<- <-]|[Hne Hh]] Hn; [done|left; eauto].
    + intros h x k p Hne (th & Hh & Hx & ? & ?). destruct (decide (g = h)) as [<-|].
      * simplify_eq. assert (x ≠ ln) by congruence. specialize (Hrest x Hx H). set_solver.
      * exists th. simpl. rewrite lookup_insert_ne by done. done.
  - split_and!; [done| |].
    + apply (liveFrom_put ctl g tg); [done|]. left. split; [|done]. intros E'. rewrite E' in Hin. set_solver.
    + intros h x k p Hne (th & Hh & Hx & Hk & Hp). destruct (decide (g = h)) as [<-|].
      * simplify_eq. eexists. simpl. rewrite lookup_insert_eq. split_and!; [done| |done..]. simpl. apply Hrest; congruence.
      * exists th. simpl. rewrite lookup_insert_ne by done. done.
Qed.

Lemma getOrCreate_evolves key ctl :
  wf allowed ctl → portManager (getOrCreate key ctl).2 = portManager ctl ∧ liveFrom ctl (getOrCreate key ctl).2 ∧
  (∀ h x k p, member ctl h x k p → member (getOrCreate key ctl).2 h x k p).
Proof.
  intros W. unfold getOrCreate. destruct (groups ctl !! key); [split_and!; try done; intros h th ? ?; left; eauto|].
  split_and!; [done|..].
  - intros h th. simpl. rewrite lookup_insert_Some. intros [[<- <-]|[Hne Hh]] Hn; [done|left; eauto].
  - intros h x k p (th & Hh & ?). exists th. simpl. rewrite lookup_insert_ne; [done|].
    intros <-. by rewrite (wf_objs _ _ W) in Hh.
Qed.

(** ** The invariant *)

Record inv (w : World) : Prop := mkInv {
  inv_wf : wf allowed (ctl w);
  inv_direct id pxy : running w !! id = Some pxy → Group pxy = "" →
    RemotePort pxy = realBindPort pxy ∧ listeners pxy = [LNet (realBindPort pxy)] ∧
    holds (portManager (ctl w)) (realBindPort pxy) (name pxy);
  inv_distinct id pxy id' pxy' : running w !! id = Some pxy → running w !! id' = Some pxy' → Group pxy = "" → Group pxy' = "" →
    realBindPort pxy = realBindPort pxy' → id = id';
  inv_apart id pxy g tg : running w !! id = Some pxy → Group pxy = "" → objs (ctl w) !! g = Some tg → lns tg ≠ [] →
    realBindPort pxy ≠ realPort tg;
  inv_group id pxy : running w !! id = Some pxy → Group pxy ≠ "" →
    RemotePort pxy = realBindPort pxy ∧
    ∃ g ln, listeners pxy = [LGroup g ln] ∧ member (ctl w) g ln (Group pxy) (realBindPort pxy);
  inv_owner id pxy id' pxy' : running w !! id = Some pxy → running w !! id' = Some pxy' → Group pxy ≠ "" → Group pxy' ≠ "" →
    listeners pxy = listeners pxy' → id = id' }.

(** The groups change; the proxies that stay keep what they have. *)
Lemma inv_evolve w ctl' run' :
  inv w → wf allowed ctl' → run' ⊆ running w → liveFrom (ctl w) ctl' →
  (∀ id pxy, run' !! id = Some pxy → Group pxy = "" → holds (portManager ctl') (realBindPort pxy) (name pxy)) →
  (∀ id pxy g ln p, run' !! id = Some pxy → listeners pxy = [LGroup g ln] →
     member (ctl w) g ln (Group pxy) p → member ctl' g ln (Group pxy) p) →
  inv (mkWorld ctl' run').
Proof.
  intros [I1 I2 I3 I4 I5 I6] W' Hsub Hlive Hholds Hmem. rewrite map_subseteq_spec in Hsub. split; simpl; [done|..].
  - intros id pxy Hr Hg. destruct (I2 id pxy (Hsub _ _ Hr) Hg) as (? & ? & ?). eauto.
  - intros id pxy id' pxy' H1 H2. eapply I3; eauto.
  - intros id pxy g tg Hr Hg Ho Hn. destruct (Hlive g tg Ho Hn) as [(th & Hth & Hl & <-)|Hfree]; [eauto|].
    destruct (I2 id pxy (Hsub _ _ Hr) Hg) as (_ & _ & [? Hu]%holds_used). congruence.
  - intros id pxy Hr Hg. destruct (I5 id pxy (Hsub _ _ Hr) Hg) as (? & g & ln & Hl & ?). split; [done|]. exists g, ln. eauto.
  - intros id pxy id' pxy' H1 H2. eapply I6; eauto.
Qed.

Lemma live_used w g tg : inv w → objs (ctl w) !! g = Some tg → lns tg ≠ [] → is_Some (Ports.usedPorts (portManager (ctl w)) !! realPort tg).
Proof. intros I Hg Hn. by destruct (wf_live _ _ (inv_wf _ I) g tg Hg Hn) as (_ & _ & ?). Qed.

(** A new proxy runs on a port, or as a member of a group, that no other has. *)
Lemma inv_add ctl run id pxy :
  inv (mkWorld ctl run) → run !! id = None → RemotePort pxy = realBindPort pxy →
  (Group pxy = "" ∧ listeners pxy = [LNet (realBindPort pxy)] ∧ holds (portManager ctl) (realBindPort pxy) (name pxy) ∧
     (∀ id' q, run !! id' = Some q → Group q = "" → realBindPort q ≠ realBindPort pxy) ∧
     (∀ g tg, objs ctl !! g = Some tg → lns tg ≠ [] → realPort tg ≠ realBindPort pxy)) ∨
  (Group pxy ≠ "" ∧ ∃ g ln, listeners pxy = [LGroup g ln] ∧ member ctl g ln (Group pxy) (realBindPort pxy) ∧
     (∀ id' q, run !! id' = Some q → Group q ≠ "" → listeners q ≠ [LGroup g ln])) →
  inv (mkWorld ctl (<[ id := pxy ]> run)).
Proof.
  intros [I1 I2 I3 I4 I5 I6] Hnew Hport Hcase; simpl in *.
  split; simpl; [done|..].
  - intros i q. rewrite lookup_insert_Some. intros [[<- <-]|[_ ?]] Hg; [|eauto].
    destruct Hcase as [(_ & ? & ? & _)|[? _]]; done.
  - intros i q i' q'. rewrite !lookup_insert_Some. intros [[<- <-]|[_ H1]] [[<- <-]|[_ H2]] Hg Hg' E; [done|..|eauto];
      (destruct Hcase as [(_ & _ & _ & Hne & _)|[? _]]; [|done]).
    + by destruct (Hne _ _ H2 Hg').
    + by destruct (Hne _ _ H1 Hg).
  - intros i q g tg. rewrite lookup_insert_Some. intros [[<- <-]|[_ ?]] Hg Ho Hn; [|eauto].
    destruct Hcase as [(_ & _ & _ & _ & Hne)|[? _]]; [|done]. by apply not_eq_sym, (Hne g).
  - intros i q. rewrite lookup_insert_Some. intros [[<- <-]|[_ ?]] Hg; [|eauto].
    destruct Hcase as [[? _]|(_ & g & ln & ? & ? & _)]; [done|eauto].
  - intros i q i' q'. rewrite !lookup_insert_Some. intros [[<- <-]|[_ H1]] [[<- <-]|[_ H2]] Hg Hg' E; [done|..|eauto];
      (destruct Hcase as [[? _]|(_ & g & ln & El & _ & Hne)]; [done|]).
    + by destruct (Hne _ _ H2 Hg'); rewrite <-E.
    + by destruct (Hne _ _ H1 Hg); rewrite E.
Qed.

(** The numbers of the listeners in use are below the next one. *)
Lemma listener_old w id q g ln :
  inv w → running w !! id = Some q → Group q ≠ "" → listeners q = [LGroup g ln] → (ln < nextLn (ctl w))%nat.
Proof.
  intros I Hr Hg Hl. destruct (inv_group _ I id q Hr Hg) as (_ & g' & ln' & E & (tg & Ho & Hin & _)).
  rewrite E in Hl. injection Hl as -> ->. eapply wf_fresh; eauto using inv_wf.
Qed.

Lemma inv_runGroup w e ad g id pxy r pxy' c' :
  inv w → (∀ i q, avail e i q = true → Ports.usedPorts (portManager (ctl w)) !! q = None) →
  order e ≡ₚ elements (Ports.freePorts (portManager (ctl w))) →
  running w !! id = None → listeners pxy = [] → Group pxy ≠ "" →
  runOn e ad g pxy (ctl w) = (r, pxy', c') →
  inv (mkWorld c' (match r with Ok _ => <[ id := pxy' ]> (running w) | Err _ => running w end)).
Proof.
  intros I Hav Ho Hid Hln Hg. unfold runOn. rewrite decide_True by done.
  pose proof (wf_groupListen allowed e g (name pxy) (Group pxy) (GroupKey pxy) ad (RemotePort pxy) (ctl w) (inv_wf _ I) Hav Ho) as W'.
  pose proof (groupListen_evolves e g (name pxy) (Group pxy) (GroupKey pxy) ad (RemotePort pxy) (ctl w) (inv_wf _ I) Hav Ho) as Hev.
  destruct (groupListen _ _ _ _ _ _ _ _) as [r1 c1]. destruct Hev as (Hh & Hl & Hm & Hok).
  assert (I' : inv (mkWorld c1 (running w))).
  { apply (inv_evolve w); eauto. intros i q Hr Hd. apply Hh. by apply (inv_direct _ I i q). }
  destruct r1 as [[ln rp]|er]; intros [= <- <- <-]; [|done].
  destruct (Hok ln rp eq_refl) as [Hmem ->]. apply inv_add; [done..|]. right. split; [done|].
  exists g, (nextLn (ctl w)). simpl. rewrite Hln. split_and!; [done..|].
  intros i q Hr Hq E. pose proof (listener_old w i q _ _ I Hr Hq E). lia.
Qed.

Lemma inv_runDirect w e ad g id pxy r pxy' c' :
  inv w → (∀ i q, avail e i q = true → Ports.usedPorts (portManager (ctl w)) !! q = None) →
  order e ≡ₚ elements (Ports.freePorts (portManager (ctl w))) →
  running w !! id = None → listeners pxy = [] → Group pxy = "" →
  runOn e ad g pxy (ctl w) = (r, pxy', c') →
  inv (mkWorld c' (match r with Ok _ => <[ id := pxy' ]> (running w) | Err _ => running w end)).
Proof.
  intros I Hav Ho Hid Hln Hg. unfold runOn. rewrite decide_False by tauto.
  destruct (Ports.Acquire _ _ _ _ _ _) as [r1 pm'] eqn:HA. pose proof (inv_wf _ I) as W.
  destruct (acquire_ports allowed e _ _ _ _ _ (wf_ports _ _ W) Ho Hav HA) as (Wp & Hk & Hr).
  destruct (acquire_holds e _ _ _ _ _ (wf_ports _ _ W) Ho Hav HA) as (Hh & Hr').
  assert (Hsame : ∀ pm2, Ports.wf allowed pm2 → keeps (portManager (ctl w)) pm2 →
    (∀ p n, holds (portManager (ctl w)) p n → holds pm2 p n) → inv (mkWorld (withPorts pm2 (ctl w)) (running w))).
  { intros pm2 Wp2 Hk2 Hh2. apply (inv_evolve w); try done.
    - apply wf_withPorts; eauto using live_used.
    - intros h th ? ?. left. eauto.
    - intros i q Hi Hd. apply Hh2. by apply (inv_direct _ I i q). }
  destruct r1 as [p|er]; [|intros [= <- <- <-]; auto].
  destruct (Hr p eq_refl) as (Hfree & Hused & Wp' & Hk'). destruct (Hr' p eq_refl) as (Hmine & _ & Hh').
  destruct (listenOk e); intros [= <- <- <-]; [|auto]. apply inv_add; [auto|done|done|]. left; simpl. rewrite Hln.
  split_and!; [done..| |].
  - intros i q Hi Hd E. destruct (inv_direct _ I i q Hi Hd) as (_ & _ & [? Hu]%holds_used). congruence.
  - intros h th Ho' Hn E. destruct (live_used w h th I Ho' Hn). congruence.
Qed.

Lemma inv_close w t id pxy : inv w → running w !! id = Some pxy → inv (mkWorld (Close t pxy (ctl w)) (delete id (running w))).
Proof.
  intros I Hr. pose proof (inv_wf _ I) as W. unfold Close. destruct (decide (Group pxy = "")) as [Hg|Hg].
  - destruct (inv_direct _ I id pxy Hr Hg) as (_ & -> & Hh). simpl.
    apply (inv_evolve w); try done; [|by apply delete_subseteq|intros h th ? ?; left; eauto|].
    + apply wf_withPorts; [done|by apply Ports.wf_release, wf_ports|]. intros g tg Ho Hn.
      pose proof (inv_apart _ I id pxy g tg Hr Hg Ho Hn). destruct (live_used w g tg I Ho Hn) as [l Hl].
      unfold Ports.Release. destruct (Ports.usedPorts _ !! realBindPort pxy); [|eauto]. simpl. rewrite lookup_delete_ne by done. eauto.
    + intros i q [Hne Hi]%lookup_delete_Some Hd. simpl. eapply holds_release; eauto using wf_ports.
      * intros E. apply Hne. symmetry. by eapply (inv_distinct _ I i q id pxy).
      * by apply (inv_direct _ I i q).
  - destruct (inv_group _ I id pxy Hr Hg) as (_ & g & ln & Hl & (tg & Ho & Hin & Hgr & Hp)). rewrite Hl. simpl.
    destruct (closeListener_evolves t g ln tg (ctl w) W Ho Hin) as (Hh & Hlive & Hm).
    apply (inv_evolve w); try done; [by eapply wf_closeListener|by apply delete_subseteq|..].
    + intros i q [Hne Hi]%lookup_delete_Some Hd. apply Hh; [|by apply (inv_direct _ I i q)].
      eapply (inv_apart _ I i q g tg); eauto. intros E. rewrite E in Hin. set_solver.
    + intros i q g' ln' p [Hne Hi]%lookup_delete_Some Hq. apply Hm. intros [= -> ->]. apply Hne.
      eapply (inv_owner _ I id pxy i q); eauto; [|congruence]. intros E.
      destruct (inv_direct _ I i q Hi E) as (_ & E' & _). congruence.
Qed.

Lemma inv_step w w' : inv w → step w w' → inv w'.
Proof.
  intros I [key|e ad g id pxy r pxy' c' Hav Ho Hid Hln Hrun|t id pxy Hr|t].
  - destruct (getOrCreate_evolves key (ctl w) (inv_wf _ I)) as (Hpm & Hl & Hm).
    apply (inv_evolve w); eauto using wf_getOrCreate, inv_wf. intros i q Hi Hd. rewrite Hpm. by apply (inv_direct _ I i q).
  - destruct (decide (Group pxy = "")); [by eapply inv_runDirect|by eapply inv_runGroup].
  - by apply inv_close.
  - apply (inv_evolve w); try done; [|intros h th ? ?; left; eauto|intros i q Hi Hd; apply (inv_direct _ I i q Hi Hd)].
    apply wf_withPorts; [apply (inv_wf _ I)|apply Ports.wf_clean, wf_ports, inv_wf, I|]. simpl. eauto using live_used.
Qed.

End invariant.

Lemma inv_init allowPorts : inv (Ports.allowedPorts allowPorts) (init allowPorts).
Proof. split; simpl; try (intros *; by rewrite lookup_empty). apply tcpgroup_wf_new, Ports.ports_wf_new. Qed.

Lemma inv_steps allowed w w' : inv allowed w → rtc step w w' → inv allowed w'.
Proof. intros I H. induction H; eauto using inv_step. Qed.

(** while a TCP proxy without a group runs, the port manager records its
    port as in use under its name, no other such proxy and no group has that
    port, and the port is the one shown in its configuration; a proxy in a group
    is a member of the group and shows its port, and members are distinct.  This
    holds through all runs (failed ones too), closes, lookups and cleanups: no
    proxy loses its port to a release by another. *)
Theorem tcp_ports_held allowPorts w :
  rtc step (init allowPorts) w →
  (∀ id pxy, running w !! id = Some pxy → RemotePort pxy = realBindPort pxy ∧
     is_Some (Ports.usedPorts (portManager (ctl w)) !! realBindPort pxy) ∧
     (Group pxy = "" → holds (portManager (ctl w)) (realBindPort pxy) (name pxy)) ∧
     (Group pxy ≠ "" → ∃ g ln, listeners pxy = [LGroup g ln] ∧ member (ctl w) g ln (Group pxy) (realBindPort pxy))) ∧
  (∀ id pxy id' pxy', running w !! id = Some pxy → running w !! id' = Some pxy' →
     realBindPort pxy = realBindPort pxy' → id = id' ∨ Group pxy = Group pxy' ∧ Group pxy ≠ "").
Proof.
  intros H. pose proof (inv_steps _ _ _ (inv_init allowPorts) H) as I. pose proof (inv_wf _ _ I) as W. split.
  - intros id pxy Hr. destruct (decide (Group pxy = "")) as [Hg|Hg].
    + destruct (inv_direct _ _ I id pxy Hr Hg) as (? & _ & Hh). split_and!; eauto using holds_used. done.
    + destruct (inv_group _ _ I id pxy Hr Hg) as (? & g & ln & Hl & Hm). split_and!; eauto; [|done].
      destruct Hm as (tg & Ho & Hin & _ & <-). eapply live_used; eauto. intros E. rewrite E in Hin. set_solver.
  - intros id pxy id' pxy' H1 H2 E. destruct (decide (Group pxy = "")) as [Hg|Hg], (decide (Group pxy' = "")) as [Hg'|Hg'].
    + left. by eapply (inv_distinct _ _ I).
    + destruct (inv_group _ _ I id' pxy' H2 Hg') as (_ & g & ln & _ & (tg & Ho & Hin & _ & Hp)).
      destruct (inv_apart _ _ I id pxy g tg H1 Hg Ho); [intros E'; rewrite E' in Hin; set_solver|congruence].
    + destruct (inv_group _ _ I id pxy H1 Hg) as (_ & g & ln & _ & (tg & Ho & Hin & _ & Hp)).
      destruct (inv_apart _ _ I id' pxy' g tg H2 Hg' Ho); [intros E'; rewrite E' in Hin; set_solver|congruence].
    + right. split; [|done]. destruct (inv_group _ _ I id pxy H1 Hg) as (_ & g & ln & _ & (tg & Ho & Hin & <- & Hp)).
      destruct (inv_group _ _ I id' pxy' H2 Hg') as (_ & g' & ln' & _ & (tg' & Ho' & Hin' & <- & Hp')).
      assert (g = g') as <-; [|congruence]. eapply (wf_unique _ _ W g tg g' tg'); eauto; [..|congruence];
        intros E'; rewrite E' in *; set_solver.
Qed.

(** Two proxies on ports of their own and one in a group. *)
Definition demoEnv (p : Z) : Env := mkEnv (λ _ q, bool_decide (q = p)) [] 5 true.
Definition demoProxy (n grp : string) (p : Z) : TCPProxy := mkTCPProxy n grp "k" p 0 [].
Definition demoRun (n grp : string) (p : Z) (c : TCPGroupCtl) : TCPProxy * TCPGroupCtl :=
  let e := mkEnv (λ _ q, bool_decide (q = p)) (elements (Ports.freePorts (portManager c))) 5 true in
  let '(_, pxy, c) := runOn e "0.0.0.0" 0 (demoProxy n grp p) c in (pxy, c).
Definition demoWorld1 : World :=
  let '(pxy, c) := demoRun "a" "" 6000 (ctl (init Ports.demoRange)) in mkWorld c {[ 1%nat := pxy ]}.
Definition demoWorld2 : World := mkWorld (getOrCreate "g" (ctl demoWorld1)).2 (running demoWorld1).
Definition demoWorld3 : World :=
  let '(pxy, c) := demoRun "b" "g" 6001 (ctl demoWorld2) in mkWorld c (<[ 2%nat := pxy ]> (running demoWorld2)).

Lemma demo_world_steps : rtc step (init Ports.demoRange) demoWorld3.
Proof.
  eapply rtc_l; [|eapply rtc_l; [apply (step_get demoWorld1 "g")|apply rtc_once]].
  - refine (step_run (init Ports.demoRange) (mkEnv (λ _ q, bool_decide (q = 6000)) (elements (Ports.freePorts (portManager (ctl (init Ports.demoRange))))) 5 true)
      "0.0.0.0" 0 1 (demoProxy "a" "" 6000) _ _ _ _ _ _ _ eq_refl); [|done..].
    intros i q ->%bool_decide_eq_true. reflexivity.
  - refine (step_run demoWorld2 (mkEnv (λ _ q, bool_decide (q = 6001)) (elements (Ports.freePorts (portManager (ctl demoWorld2)))) 5 true)
      "0.0.0.0" 0 2 (demoProxy "b" "g" 6001) _ _ _ _ _ _ _ eq_refl); [|done..].
    intros i q ->%bool_decide_eq_true. reflexivity.
Qed.

Lemma tcp_ports_held_witness :
  size (running demoWorld3) = 2%nat ∧
  (∀ id pxy id' pxy', running demoWorld3 !! id = Some pxy → running demoWorld3 !! id' = Some pxy' →
     realBindPort pxy = realBindPort pxy' → id = id' ∨ Group pxy = Group pxy' ∧ Group pxy ≠ "").
Proof. split; [vm_compute; reflexivity|]. exact (proj2 (tcp_ports_held Ports.demoRange demoWorld3 demo_world_steps)). Defined.

(** ** UDP proxies: the ports of [udp.go] *)

Record UDPProxy := mkUDPProxy { uName : string; uRemotePort : Z; uRealBindPort : Z; isClosed : bool; channelCloses : nat }.

(** [listenOk e]: the address resolves and the socket opens. *)
Definition udpRun (e : Env) (pxy : UDPProxy) (pm : Ports.Manager) : res error chars * UDPProxy * Ports.Manager :=
  match Ports.Acquire (avail e) (order e) (now e) (uName pxy) (uRemotePort pxy) pm with
  | (Err er, pm) => (Err (ErrPorts er), mkUDPProxy (uName pxy) (uRemotePort pxy) 0 (isClosed pxy) (channelCloses pxy), pm)
  | (Ok p, pm) =>
      let pxy := mkUDPProxy (uName pxy) p p (isClosed pxy) (channelCloses pxy) in
      if listenOk e then (Ok (addrOf p), pxy, pm) else (Err ErrListen, pxy, Ports.Release (now e) p pm)
  end.

(** The port is released by every call. *)
Definition udpClose (t : Z) (pxy : UDPProxy) (pm : Ports.Manager) : UDPProxy * Ports.Manager :=
  (if isClosed pxy then pxy else mkUDPProxy (uName pxy) (uRemotePort pxy) (uRealBindPort pxy) true (S (channelCloses pxy)),
   Ports.Release t (uRealBindPort pxy) pm).

(** However often a proxy is closed, its channels are closed once. *)
Lemma udp_channels_closed_once ts pxy pm :
  isClosed pxy = false → channelCloses pxy = 0%nat →
  channelCloses (foldl (λ x t, udpClose t x.1 x.2) (pxy, pm) ts).1 = (if decide (ts = []) then 0%nat else 1%nat).
Proof.
  intros Ho Hc. destruct ts as [|t ts]; [done|]. simpl. unfold udpClose at 2. rewrite Ho, Hc.
  generalize (Ports.Release t (uRealBindPort pxy) pm). clear. induction ts as [|t ts IH]; intros pm; simpl; [done|]. apply IH.
Qed.

(** The goroutine that forwards packets closes the proxy once more when its
    socket is gone: when another proxy runs on the port by then, its port is
    given back under it. *)
Example late_udp_close_frees_other :
  let e := mkEnv (λ _ q, bool_decide (q = 6000)) [6000; 6001; 6002; 7000] 5 true in
  let '(_, a, pm) := udpRun e (mkUDPProxy "a" 6000 0 false 0) (Ports.NewManager Ports.demoRange) in
  let '(a, pm) := udpClose 6 a pm in
  let '(_, b, pm) := udpRun e (mkUDPProxy "b" 6000 0 false 0) pm in
  let before := Ports.usedPorts pm !! uRealBindPort b in
  let '(a, pm) := udpClose 7 a pm in
  is_Some before ∧ isClosed b = false ∧ Ports.usedPorts pm !! uRealBindPort b = None ∧ bool_decide (6000 ∈ Ports.freePorts pm) = true.
Proof. vm_compute. split_and!; try reflexivity. by eexists. Qed.

(** ** Secret proxies: [stcp.go], [sudp.go] *)

Record SecretProxy := mkSecret { sName : string; sUser : string; Secretkey : string; AllowUsers : list string; sListeners : list nat }.

(** The users of a proxy that allows none explicitly: those of its own user. *)
Definition effectiveUsers (user : string) (allowUsers : list string) : list string :=
  match allowUsers with [] => [user] | _ => allowUsers end.

Definition startVisitorListener (pxy : SecretProxy) (vm : Visitor.Manager) : res Visitor.error unit * SecretProxy * Visitor.Manager :=
  match Visitor.Listen (sName pxy) (Secretkey pxy) (effectiveUsers (sUser pxy) (AllowUsers pxy)) vm with
  | (Err e, vm) => (Err e, pxy, vm)
  | (Ok l, vm) => (Ok tt, mkSecret (sName pxy) (sUser pxy) (Secretkey pxy) (AllowUsers pxy) (sListeners pxy ++ [l]), vm)
  end.

Definition secretRun := startVisitorListener.

Definition closeInternals (ls : list nat) (vm : Visitor.Manager) : Visitor.Manager :=
  Visitor.mkManager (Visitor.listeners vm) (foldr (alter Visitor.CloseInternal) (Visitor.store vm) ls) (Visitor.nextListener vm).

Definition secretClose (pxy : SecretProxy) (vm : Visitor.Manager) : Visitor.Manager :=
  Visitor.CloseListener (sName pxy) (closeInternals (sListeners pxy) vm).

(** a secret proxy that runs is reached only by visitors that sign with its
    key and act for a user it allows, which without a list of users is the user
    of the proxy itself; when it is closed its name admits nobody and its
    listener is closed, while the other names are as before. *)
Theorem secret_proxy_private md5hex {R : Type} pxy vm pxy' vm1 encOk m conn wire (w : Control.World R) vm2 :
  (∀ l, (Visitor.nextListener vm ≤ l)%nat → Visitor.store vm !! l = None) → sListeners pxy = [] →
  secretRun pxy vm = (Ok tt, pxy', vm1) →
  (Visitor.ProxyName m = sName pxy → Visitor.RegisterVisitorConn md5hex encOk m conn wire w vm1 = (Ok tt, vm2) →
   ∃ user protocol codec, Visitor.actsFor m wire w user protocol codec ∧
     Visitor.SignKey m = Visitor.GetAuthKey md5hex (Secretkey pxy) (Visitor.Timestamp m) ∧
     (AllowUsers pxy = [] → user = sUser pxy ∨ sUser pxy = "*") ∧
     (AllowUsers pxy ≠ [] → user ∈ AllowUsers pxy ∨ "*" ∈ AllowUsers pxy)) ∧
  (Visitor.ProxyName m = sName pxy →
   ∃ e, Visitor.RegisterVisitorConn md5hex encOk m conn wire w (secretClose pxy' vm1) = (Err e, secretClose pxy' vm1)) ∧
  (∀ l, l ∈ sListeners pxy' → Visitor.lclosed <$> (Visitor.store (secretClose pxy' vm1) !! l) = Some true) ∧
  (∀ n, n ≠ sName pxy → Visitor.listeners (secretClose pxy' vm1) !! n = Visitor.listeners vm !! n).
Proof.
  intros Hfresh Hl0 Hrun. unfold secretRun, startVisitorListener, Visitor.Listen in Hrun.
  destruct (Visitor.listeners vm !! sName pxy) as [b|] eqn:Hb; [done|]. injection Hrun as <- <-. split_and!.
  - intros Hn Hreg. apply Visitor.register_outcome in Hreg as (b & l & user & pr & co & Ha & Hlk & Hk & Hu & _).
    cbn [Visitor.listeners] in Hlk. rewrite Hn, lookup_insert_eq in Hlk. injection Hlk as <-. simpl in Hk, Hu.
    exists user, pr, co. split_and!; [done|done|..].
    + intros E. rewrite E in Hu. simpl in Hu. rewrite !list_elem_of_singleton in Hu. destruct Hu; auto.
    + intros E. unfold effectiveUsers in Hu. by destruct (AllowUsers pxy).
  - intros Hn. destruct (Visitor.RegisterVisitorConn _ _ _ _ _ _ _) as [[[]|e] v] eqn:Hreg;
      apply Visitor.register_outcome in Hreg; [|subst v; eauto].
    destruct Hreg as (b & l & user & pr & co & _ & Hlk & _). simpl in Hlk. by rewrite Hn, lookup_delete_eq in Hlk.
  - simpl. rewrite Hl0. intros l ->%list_elem_of_singleton. simpl. by rewrite lookup_alter_eq, lookup_insert_eq.
  - intros n Hn. simpl. by rewrite lookup_delete_ne, lookup_insert_ne.
Qed.

Definition demoSecret : Visitor.Manager := (Visitor.Listen "p" "key" [EmptyString] Visitor.NewManager).2.
Definition demoVisit : Visitor.NewVisitorConn := Visitor.mkVisitor "p" 7 "key7" false false EmptyString.

Lemma secret_proxy_private_witness :
  ∃ user protocol codec, Visitor.actsFor demoVisit "v2" Visitor.demoWorld user protocol codec ∧
    (user = EmptyString ∨ EmptyString = "*"%string).
Proof.
  destruct (secret_proxy_private id (mkSecret "p" EmptyString "key" [] []) Visitor.NewManager (mkSecret "p" EmptyString "key" [] [0%nat])
    demoSecret true demoVisit 3 "v2" Visitor.demoWorld (Visitor.RegisterVisitorConn id true demoVisit 3 "v2" Visitor.demoWorld demoSecret).2)
    as [Hr _].
  - intros l _. apply lookup_empty.
  - reflexivity.
  - reflexivity.
  - destruct (Hr eq_refl) as (u & pr & co & Ha & _ & Hu & _); [vm_compute; reflexivity|].
    exists u, pr, co. split; [exact Ha|exact (Hu eq_refl)].
Defined.

(** ** XTCP proxies: [xtcp.go] *)

Section xtcp.
Context `{Rendezvous.Lib}.

Inductive xtcpError := ErrWireV2 | ErrOwnerControl | ErrUnsupported | ErrListenClient (e : string).

Record XTCPProxy := mkXTCP {
  xName : string; xUser : string; xSecretkey : string; xAllowUsers : list string; xWireProtocol : string;
  xtcpControlID : bytes; closeOnce : bool }.

(** [nc] is [None] when the server has no hole punching controller. *)
Definition xtcpRun (pxy : XTCPProxy) (nc : option Rendezvous.Controller) : res xtcpError (option Rendezvous.Controller) :=
  if negb (bool_decide (xWireProtocol pxy = Wire.ProtocolV2)) then Err ErrWireV2
  else match Binding.ID (xtcpControlID pxy) with
  | Err _ => Err ErrOwnerControl
  | Ok _ =>
      match nc with
      | None => Err ErrUnsupported
      | Some nc =>
          match Rendezvous.ListenClient (xName pxy) (xSecretkey pxy) (effectiveUsers (xUser pxy) (xAllowUsers pxy)) (xtcpControlID pxy) nc with
          | Err e => Err (ErrListenClient e)
          | Ok (_, nc) => Ok (Some nc)
          end
      end
  end.

Definition xtcpClose (pxy : XTCPProxy) (nc : Rendezvous.Controller) : XTCPProxy * Rendezvous.Controller :=
  if closeOnce pxy then (pxy, nc)
  else (mkXTCP (xName pxy) (xUser pxy) (xSecretkey pxy) (xAllowUsers pxy) (xWireProtocol pxy) (xtcpControlID pxy) true,
        Rendezvous.CloseClient (xName pxy) (xtcpControlID pxy) nc).

(** One session id: a work connection is taken, told the id and closed; [EStart]
    is followed by the id when the connection could be started. *)
Inductive sidEvent := SConn (e : UserConn.event) | SSid (conn : nat) (sid : string).

Definition serveSid (pxy : XTCPProxy) (env : nat → UserConn.answer) (sid : string) (c : Control.Control) : Control.Control * list sidEvent :=
  match UserConn.GetWorkConnFromPool (xName pxy) None None env c with
  | (Ok (Some conn), c, es) => (c, (SConn <$> es) ++ [SSid conn sid; SConn (UserConn.ECloseWork conn)])
  | (_, c, es) => (c, SConn <$> es)
  end.

(** A running XTCP proxy is known to the controller with its own control as owner,
    its key and the users it allows. *)
Lemma xtcp_run_listens pxy nc nc' :
  xtcpRun pxy (Some nc) = Ok (Some nc') →
  ∃ owner p, Binding.ID (xtcpControlID pxy) = Ok owner ∧ owner ∈ Rendezvous.controls nc ∧
    Rendezvous.clientCfgs nc !! xName pxy = None ∧ Rendezvous.clientCfgs nc' !! xName pxy = Some p ∧
    Rendezvous.cfgHeap nc' !! p =
      Some (Rendezvous.mkClientCfg (xName pxy) (xSecretkey pxy) (effectiveUsers (xUser pxy) (xAllowUsers pxy)) owner false).
Proof.
  unfold xtcpRun. destruct (negb _); [done|]. destruct (Binding.ID (xtcpControlID pxy)) as [owner|] eqn:Hid; [|done].
  unfold Rendezvous.ListenClient. rewrite Hid. case_bool_decide as Hc; [|done].
  destruct (Rendezvous.clientCfgs nc !! xName pxy) eqn:Hn; [done|]. intros [= <-].
  eexists owner, _. split_and!; [done|done|done|simpl; by rewrite lookup_insert_eq|]. simpl. by rewrite list_lookup_middle.
Qed.

(** Each work connection that was started for a session id is closed. *)
Lemma sid_conns_closed pxy env sid c conn m ok :
  SConn (UserConn.EStart conn m ok) ∈ (serveSid pxy env sid c).2 →
  SConn (UserConn.ECloseWork conn) ∈ (serveSid pxy env sid c).2 ∧ UserConn.ProxyName m = xName pxy.
Proof.
  unfold serveSid, UserConn.GetWorkConnFromPool.
  pose proof (UserConn.tryAll_events (UserConn.startMsg (xName pxy) None None) env (Z.to_nat (Control.poolCount c + 1)) 0 None c) as Ht.
  destruct (UserConn.tryAll _ _ _ _ _ _) as [[r c1] es]. destruct Ht as (_ & _ & failed & Hf).
  assert (Htry : SConn (UserConn.EStart conn m ok) ∈ SConn <$> UserConn.tries (UserConn.startMsg (xName pxy) None None) failed →
    SConn (UserConn.ECloseWork conn) ∈ SConn <$> UserConn.tries (UserConn.startMsg (xName pxy) None None) failed ∧ UserConn.ProxyName m = xName pxy).
  { rewrite !list_elem_of_fmap. intros (y & [= <-] & [-> ?]%UserConn.in_tries). eauto. }
  destruct r as [[k|]|e]; destruct Hf as [-> _]; simpl; [|done..].
  rewrite fmap_app, !elem_of_app. simpl. intros [[Hin|[= -> -> ->]%list_elem_of_singleton]|Hin].
  - apply Htry in Hin as [? ?]. auto.
  - split; [right; set_solver|done].
  - set_solver.
Qed.

End xtcp.

End Listeners.
