(* ===== verification/Transport.v ===== *)
(** * Messages of a control connection: [pkg/msg/handler.go], [pkg/transport/message.go]

    A dispatcher writes the messages given to it in the background and hands the
    messages it reads to the handler of their type.  Over it a transporter pairs
    a request with its response: a call registers a channel under a message type
    and a lane key, sends its request and waits; the handler of the response
    looks the channel up and puts the response there.  Both run in several
    goroutines, so they are step relations. *)
From S2P Require Import Prelude.

Module Dispatcher.
Section dispatcher.
(** Messages and their types. *)
Context {M T : Type} `{EqDecision T} (typeOf : M → T).

Definition sendChCap : nat := 100.

(** [handlers] are the registered types; [written] and [handled] record what the
    loops have done, [accepted] the calls of [Send] that returned nil, [read]
    what was read. *)
Record Dispatcher := mkDispatcher {
  sendCh : list M; doneCh : bool; msgHandlers : list T;
  accepted : list M; written : list M; read : list M; handled : list M }.

Definition NewDispatcher : Dispatcher := mkDispatcher [] false [] [] [] [] [].

Definition RegisterHandler (t : T) (d : Dispatcher) : Dispatcher :=
  mkDispatcher (sendCh d) (doneCh d) (t :: msgHandlers d) (accepted d) (written d) (read d) (handled d).

(** The two cases of the [select] in [Send]: with a closed [doneCh] and room in
    the channel either may be taken; with neither the call blocks. *)
Inductive Send (m : M) (d : Dispatcher) : option unit → Dispatcher → Prop :=
| Send_done : doneCh d = true → Send m d None d
| Send_queue : (length (sendCh d) < sendChCap)%nat →
    Send m d (Some tt) (mkDispatcher (sendCh d ++ [m]) (doneCh d) (msgHandlers d) (accepted d ++ [m]) (written d) (read d) (handled d)).

(** One turn of [sendLoop] and of [readLoop]; a failed read ends the latter. *)
Definition sendTurn (m : M) (rest : list M) (d : Dispatcher) : Dispatcher :=
  mkDispatcher rest (doneCh d) (msgHandlers d) (accepted d) (written d ++ [m]) (read d) (handled d).
Definition readTurn (m : M) (d : Dispatcher) : Dispatcher :=
  mkDispatcher (sendCh d) (doneCh d) (msgHandlers d) (accepted d) (written d) (read d ++ [m])
    (if decide (typeOf m ∈ msgHandlers d) then handled d ++ [m] else handled d).
Definition readEnd (d : Dispatcher) : Dispatcher :=
  mkDispatcher (sendCh d) true (msgHandlers d) (accepted d) (written d) (read d) (handled d).

(** Handlers are registered before the loops run. *)
Inductive step (d : Dispatcher) : Dispatcher → Prop :=
| step_send m r d' : Send m d r d' → step d d'
| step_sendTurn m rest : sendCh d = m :: rest → step d (sendTurn m rest d)
| step_readTurn m : doneCh d = false → step d (readTurn m d)
| step_readEnd : doneCh d = false → step d (readEnd d).

(** a dispatcher keeps order and loses nothing while it runs: what was
    written followed by what is queued is what [Send] accepted, in order; the
    handled messages are those read whose type has a handler, in order; the
    queue stays within its capacity; and when the queue has room, [Send] does
    not block. *)
Theorem dispatcher_fifo ts d :
  rtc step (foldr RegisterHandler NewDispatcher ts) d →
  accepted d = written d ++ sendCh d ∧ handled d = filter (λ m, typeOf m ∈ ts) (read d) ∧
  (length (sendCh d) ≤ sendChCap)%nat ∧
  (∀ m, (length (sendCh d) < sendChCap)%nat ∨ doneCh d = true → ∃ r d', Send m d r d').
Proof.
  intros H.
  assert (msgHandlers d = ts ∧ accepted d = written d ++ sendCh d ∧ handled d = filter (λ m, typeOf m ∈ ts) (read d) ∧
    (length (sendCh d) ≤ sendChCap)%nat) as (_ & ? & ? & ?).
  { revert d H. apply (rtc_ind_r (λ d, msgHandlers d = ts ∧ accepted d = written d ++ sendCh d ∧
      handled d = filter (λ m, typeOf m ∈ ts) (read d) ∧ (length (sendCh d) ≤ sendChCap)%nat)).
    - induction ts as [|t ts IH]; simpl in *; [unfold sendChCap; split_and!; try done; simpl; lia|].
      destruct IH as (-> & ? & IH & ?). split_and!; try done.
      assert (E : ∀ l, read (foldr RegisterHandler NewDispatcher l) = []) by (by induction l).
      rewrite E in *. done.
    - intros d1 d2 _ Hs (Hh & Ha & Hf & Hl). destruct Hs as [m r d' Hs|m rest Hq|m Hd|Hd]; simpl.
      + destruct Hs; simpl; [done|]. rewrite Ha, app_assoc, length_app. simpl. split_and!; try done. lia.
      + rewrite Hq in *. simpl in *. rewrite <-app_assoc. split_and!; try done. lia.
      + rewrite Hh, filter_app, Hf. split_and!; try done.
        rewrite filter_cons, filter_nil. case_decide; [done|by rewrite app_nil_r].
      + done. }
  split_and!; try done. intros m [?|?]; eexists _, _; [by apply Send_queue|by apply Send_done].
Qed.
End dispatcher.

Arguments mkDispatcher {M T}. Arguments sendCh {M T}. Arguments doneCh {M T}.

(** One handled type: the message 7 is handled, 8 is not, and 5 waits. *)
Lemma dispatcher_fifo_witness :
  let d := mkDispatcher [5] false [true] [4; 5] [4] [7; 8] [7] in
  handled d = filter (λ m, Z.odd m ∈ [true]) [7; 8] ∧ (∃ r d', Send 6 d r d').
Proof.
  destruct (dispatcher_fifo Z.odd [true] (mkDispatcher [5] false [true] [4; 5] [4] [7; 8] [7])) as (_ & H & _ & Hs).
  - eapply rtc_l; [apply step_send with (m := 4) (r := Some tt), Send_queue; simpl; unfold sendChCap; lia|].
    eapply rtc_l; [apply step_sendTurn; reflexivity|].
    eapply rtc_l; [apply step_send with (m := 5) (r := Some tt), Send_queue; simpl; unfold sendChCap; lia|].
    eapply rtc_l; [apply (step_readTurn Z.odd _ 7); reflexivity|].
    eapply rtc_l; [apply (step_readTurn Z.odd _ 8); reflexivity|]. vm_compute. apply rtc_refl.
  - split; [exact H|]. apply Hs. left. simpl. unfold sendChCap. lia.
Defined.
End Dispatcher.

Module Lanes.
Section lanes.
Context {M : Type}.

(** Message type and lane key. *)
Abbreviation key := (string * string)%type.

Inductive result := Received (m : M) | SendFailed | Cancelled.

(** A call of [Do] by the number of its channel, in the order of its code: its
    channel is registered and [Send] runs; the request is sent and the call waits; the call
    has a result and will unregister, then close the channel.  [ctxDone] says that the
    context of the caller is done. *)
Inductive phase := Registered | Waiting | Leaving (r : result) | Unregistered (r : result) | Returned (r : result).
Record call := mkCall { lane : key; at_ : phase; buffer : option M; ctxDone : bool }.

(** A dispatch that has looked its channel up and is about to send. *)
Record dispatch := mkDispatch { target : nat; dkey : key; dmsg : M }.

(** [log] has the messages given to [DispatchWithType], with their key. *)
Record transporterImpl := mkTransporter {
  registry : gmap key nat; calls : gmap nat call; pending : gmap nat dispatch; log : list (key * M) }.

Definition NewMessageTransporter : transporterImpl := mkTransporter ∅ ∅ ∅ [].

Definition chClosed (c : call) : bool := match at_ c with Returned _ => true | _ => false end.

Definition setCall (id : nat) (c : call) (s : transporterImpl) : transporterImpl :=
  mkTransporter (registry s) (<[ id := c ]> (calls s)) (pending s) (log s).

Definition registerMsgChan (id : nat) (k : key) (s : transporterImpl) : transporterImpl :=
  mkTransporter (<[ k := id ]> (registry s)) (<[ id := mkCall k Registered None false ]> (calls s)) (pending s) (log s).

(** The function that [registerMsgChan] returns deletes by key. *)
Definition unregister (k : key) (s : transporterImpl) : transporterImpl :=
  mkTransporter (delete k (registry s)) (calls s) (pending s) (log s).

(** What the environment of a call does: [Send], which waits for the sender, returns, and
    the context ends. *)
Inductive envStep (id : nat) (c : call) (s : transporterImpl) : transporterImpl → Prop :=
| env_sendFail : at_ c = Registered → envStep id c s (setCall id (mkCall (lane c) (Leaving SendFailed) (buffer c) (ctxDone c)) s)
| env_sendOk : at_ c = Registered → envStep id c s (setCall id (mkCall (lane c) Waiting (buffer c) (ctxDone c)) s)
| env_ctxDone : envStep id c s (setCall id (mkCall (lane c) (at_ c) (buffer c) true) s).

(** [Do] after [Send], one step at a time. *)
Inductive doStep (id : nat) (c : call) (s : transporterImpl) : transporterImpl → Prop :=
| do_recv m : at_ c = Waiting → buffer c = Some m → doStep id c s (setCall id (mkCall (lane c) (Leaving (Received m)) None (ctxDone c)) s)
| do_cancel : at_ c = Waiting → ctxDone c = true → doStep id c s (setCall id (mkCall (lane c) (Leaving Cancelled) (buffer c) (ctxDone c)) s)
| do_unregister r : at_ c = Leaving r → doStep id c s (setCall id (mkCall (lane c) (Unregistered r) (buffer c) (ctxDone c)) (unregister (lane c) s))
| do_close r : at_ c = Unregistered r → doStep id c s (setCall id (mkCall (lane c) (Returned r) (buffer c) (ctxDone c)) s).

(** [DispatchWithType]: the lookup; the send, which blocks on a full channel and
    fails on a closed one. *)
Definition dispatchLookup (d : nat) (k : key) (m : M) (s : transporterImpl) : transporterImpl :=
  match registry s !! k with
  | Some ch => mkTransporter (registry s) (calls s) (<[ d := mkDispatch ch k m ]> (pending s)) (log s ++ [(k, m)])
  | None => mkTransporter (registry s) (calls s) (pending s) (log s ++ [(k, m)])
  end.

Definition dispatchSend (d : nat) (x : dispatch) (c : call) (s : transporterImpl) : option (bool * transporterImpl) :=
  if chClosed c then Some (false, mkTransporter (registry s) (calls s) (delete d (pending s)) (log s))
  else match buffer c with
       | Some _ => None
       | None => Some (true, mkTransporter (registry s) (<[ target x := mkCall (lane c) (at_ c) (Some (dmsg x)) (ctxDone c) ]> (calls s))
                              (delete d (pending s)) (log s))
       end.

Inductive step (s : transporterImpl) : transporterImpl → Prop :=
| step_register id k : calls s !! id = None → step s (registerMsgChan id k s)
| step_env id c s' : calls s !! id = Some c → envStep id c s s' → step s s'
| step_do id c s' : calls s !! id = Some c → doStep id c s s' → step s s'
| step_lookup d k m : pending s !! d = None → step s (dispatchLookup d k m s)
| step_dispatch d x c r s' : pending s !! d = Some x → calls s !! target x = Some c → dispatchSend d x c s = Some (r, s') → step s s'.

(** ** Invariant *)

Record inv (s : transporterImpl) : Prop := mkInv {
  inv_registry k id : registry s !! k = Some id → ∃ c, calls s !! id = Some c ∧ lane c = k;
  inv_pending d x : pending s !! d = Some x → (dkey x, dmsg x) ∈ log s ∧ ∃ c, calls s !! target x = Some c ∧ lane c = dkey x;
  inv_buffer id c m : calls s !! id = Some c → buffer c = Some m → (lane c, m) ∈ log s;
  inv_result id c m : calls s !! id = Some c →
    at_ c = Leaving (Received m) ∨ at_ c = Unregistered (Received m) ∨ at_ c = Returned (Received m) → (lane c, m) ∈ log s }.

(** A step of a call keeps its lane; every message it then has was its before. *)
Lemma inv_setCall id c c' s reg :
  inv s → calls s !! id = Some c → lane c' = lane c → reg ⊆ registry s →
  (∀ m, buffer c' = Some m → (lane c, m) ∈ log s) →
  (∀ m, at_ c' = Leaving (Received m) ∨ at_ c' = Unregistered (Received m) ∨ at_ c' = Returned (Received m) → (lane c, m) ∈ log s) →
  inv (mkTransporter reg (<[ id := c' ]> (calls s)) (pending s) (log s)).
Proof.
  intros [I1 I2 I3 I4] Hc Hl Hreg Hb Hr. rewrite map_subseteq_spec in Hreg.
  assert (Hk : ∀ i ci, calls s !! i = Some ci → ∃ cj, <[ id := c' ]> (calls s) !! i = Some cj ∧ lane cj = lane ci).
  { intros i ci Hi. destruct (decide (id = i)) as [<-|]; [rewrite lookup_insert_eq|rewrite lookup_insert_ne by done; eauto].
    simplify_eq. eauto. }
  split; simpl.
  - intros k i Hi. destruct (I1 k i (Hreg _ _ Hi)) as (ci & Hci & <-). by apply Hk.
  - intros d x Hd. destruct (I2 d x Hd) as (? & ci & Hci & E). split; [done|]. rewrite <-E. by apply Hk.
  - intros i ci m. rewrite lookup_insert_Some. intros [[<- <-]|[_ Hi]] Hm; [rewrite Hl; auto|eauto].
  - intros i ci m. rewrite lookup_insert_Some. intros [[<- <-]|[_ Hi]] Hm; [rewrite Hl; auto|eauto].
Qed.

Lemma inv_env id c s s' : inv s → calls s !! id = Some c → envStep id c s s' → inv s'.
Proof.
  intros I Hc Hs. pose proof (λ m, inv_buffer _ I id c m Hc) as Hb. pose proof (λ m, inv_result _ I id c m Hc) as Hr.
  destruct Hs; unfold setCall; (eapply inv_setCall; eauto; cbn [at_ buffer lane]; naive_solver).
Qed.

Lemma inv_do id c s s' : inv s → calls s !! id = Some c → doStep id c s s' → inv s'.
Proof.
  intros I Hc Hs. pose proof (λ m, inv_buffer _ I id c m Hc) as Hb. pose proof (λ m, inv_result _ I id c m Hc) as Hr.
  destruct Hs as [m Ha Hm|Ha Hx|r Ha|r Ha]; unfold setCall, unregister; cbn [registry calls pending log];
    eapply inv_setCall; eauto using delete_subseteq; cbn [at_ buffer lane]; try done; rewrite ?Ha in Hr;
    try (intros m' Hm'; destruct_or? Hm'; simplify_eq; auto; fail).
  apply delete_subseteq.
Qed.

Lemma inv_register id k s : inv s → calls s !! id = None → inv (registerMsgChan id k s).
Proof.
  intros [I1 I2 I3 I4] Hid. assert (Hne : ∀ i c, calls s !! i = Some c → id ≠ i) by (intros ? ? ? ->; congruence).
  split; simpl.
  - intros k' i. rewrite lookup_insert_Some. intros [[<- <-]|[_ Hi]]; [rewrite lookup_insert_eq; eauto|].
    destruct (I1 k' i Hi) as (c & Hc & ?). rewrite lookup_insert_ne by eauto. eauto.
  - intros d x Hd. destruct (I2 d x Hd) as (? & c & Hc & ?). rewrite lookup_insert_ne by eauto. eauto.
  - intros i c m. rewrite lookup_insert_Some. intros [[<- <-]|[_ Hi]]; [done|eauto].
  - intros i c m. rewrite lookup_insert_Some. intros [[<- <-]|[_ Hi]]; [naive_solver|eauto].
Qed.

Lemma inv_lookup d k m s : inv s → inv (dispatchLookup d k m s).
Proof.
  intros [I1 I2 I3 I4]. unfold dispatchLookup. destruct (registry s !! k) as [ch|] eqn:Hk; split; simpl; eauto.
  - intros d' x. rewrite lookup_insert_Some. intros [[<- <-]|[_ Hd]]; simpl; [split; [set_solver|eauto]|].
    destruct (I2 d' x Hd). split; [set_solver|done].
  - intros i c m' Hc Hb. apply elem_of_app. eauto.
  - intros i c m' Hc Hb. apply elem_of_app. eauto.
  - intros d' x Hd. destruct (I2 d' x Hd). split; [set_solver|done].
  - intros i c m' Hc Hb. apply elem_of_app. eauto.
  - intros i c m' Hc Hb. apply elem_of_app. eauto.
Qed.

Lemma inv_dispatch d x c r s s' :
  inv s → pending s !! d = Some x → calls s !! target x = Some c → dispatchSend d x c s = Some (r, s') → inv s'.
Proof.
  intros I Hd Hc. pose proof (inv_pending _ I d x Hd) as (Hlog & c' & Hc' & Hl). rewrite Hc in Hc'. injection Hc' as <-.
  assert (Hdrop : ∀ s1, inv s1 → inv (mkTransporter (registry s1) (calls s1) (delete d (pending s1)) (log s1))).
  { intros s1 [I1 I2 I3 I4]. split; simpl; eauto. intros d' x' [_ ?]%lookup_delete_Some. eauto. }
  unfold dispatchSend. destruct (chClosed c); [intros [= <- <-]; by apply Hdrop|]. destruct (buffer c) eqn:Hb; [done|].
  intros [= <- <-].
  assert (I1 : inv (mkTransporter (registry s) (<[ target x := mkCall (lane c) (at_ c) (Some (dmsg x)) (ctxDone c) ]> (calls s)) (pending s) (log s))).
  { eapply inv_setCall; eauto; cbn [at_ buffer lane]; [|intros m; by apply (inv_result _ I _ c m Hc)]. intros m [= <-]. by rewrite Hl. }
  apply Hdrop in I1. exact I1.
Qed.

Lemma inv_reachable s : rtc step NewMessageTransporter s → inv s.
Proof.
  revert s. apply (rtc_ind_r inv).
  - split; simpl; intros *; by rewrite lookup_empty.
  - intros s s' _ [] I; eauto using inv_register, inv_env, inv_do, inv_lookup, inv_dispatch.
Qed.

(** ** Registration and progress *)

Definition active (c : call) : bool := match at_ c with Registered | Waiting | Leaving _ => true | _ => false end.

(** Every call uses a lane no other call that is still active uses, as the
    transaction ids of the callers are. *)
Inductive freshStep (s : transporterImpl) : transporterImpl → Prop :=
| fresh_register id k : calls s !! id = None → (∀ i c, calls s !! i = Some c → active c → lane c ≠ k) → freshStep s (registerMsgChan id k s)
| fresh_other s' : step s s' → (∀ id c, calls s !! id = None → calls s' !! id = Some c → False) → freshStep s s'.

Record reg (s : transporterImpl) : Prop := mkReg {
  reg_inv : inv s;
  reg_active id c : calls s !! id = Some c → active c → registry s !! lane c = Some id;
  reg_only k id : registry s !! k = Some id → ∃ c, calls s !! id = Some c ∧ active c }.

Lemma reg_unique s id c id' c' :
  reg s → calls s !! id = Some c → calls s !! id' = Some c' → active c → active c' → lane c = lane c' → id = id'.
Proof.
  intros R Hc Hc' Ha Ha' E. pose proof (reg_active _ R id c Hc Ha) as H1. pose proof (reg_active _ R id' c' Hc' Ha') as H2.
  rewrite E in H1. congruence.
Qed.

Lemma reg_register id k s :
  reg s → calls s !! id = None → (∀ i c, calls s !! i = Some c → active c → lane c ≠ k) → reg (registerMsgChan id k s).
Proof.
  intros [I R1 R2] Hid Hk. assert (Hne : ∀ i c, calls s !! i = Some c → id ≠ i) by (intros ? ? ? ->; congruence).
  split; simpl; [by apply inv_register|..].
  - intros i c. rewrite lookup_insert_Some. intros [[<- <-]|[_ Hi]] Ha; simpl; [by rewrite lookup_insert_eq|].
    rewrite lookup_insert_ne; [eauto|]. by apply not_eq_sym, (Hk i).
  - intros k' i. rewrite lookup_insert_Some. intros [[<- <-]|[_ Hi]]; [rewrite lookup_insert_eq; eauto|].
    destruct (R2 k' i Hi) as (c & Hc & ?). rewrite lookup_insert_ne by eauto. eauto.
Qed.

(** A call changes and keeps whether it is active, in the same registry. *)
Lemma reg_setCall id c c' s s' :
  reg s → inv s' → calls s !! id = Some c → lane c' = lane c → active c' = active c →
  calls s' = <[ id := c' ]> (calls s) → registry s' = registry s → reg s'.
Proof.
  intros [I R1 R2] I' Hc Hl Ha Hcs Hrs. split; [done|..]; rewrite Hcs, ?Hrs.
  - intros i ci. rewrite lookup_insert_Some. intros [[<- <-]|[_ Hi]] Hi'; [|eauto]. rewrite Hl. rewrite Ha in Hi'. eauto.
  - intros k i Hk. destruct (R2 k i Hk) as (ci & Hci & Hact). destruct (decide (id = i)) as [<-|].
    + simplify_eq. rewrite lookup_insert_eq. exists c'. by rewrite Ha.
    + rewrite lookup_insert_ne by done. eauto.
Qed.

Lemma reg_do id c s s' : reg s → calls s !! id = Some c → doStep id c s s' → reg s'.
Proof.
  intros R Hc Hs. pose proof (inv_do id c s s' (reg_inv _ R) Hc Hs) as I'.
  destruct Hs as [m Ha Hm|Ha Hx|r Ha|r Ha];
    try (refine (reg_setCall id c _ s _ R I' Hc _ _ eq_refl eq_refl); [done|unfold active; cbn [at_]; by rewrite Ha]).
  assert (Hact : active c) by (unfold active; by rewrite Ha).
  pose proof (reg_active _ R id c Hc Hact) as Hme. split; [done|..]; simpl.
  - intros i ci. rewrite lookup_insert_Some. intros [[<- <-]|[Hne Hi]] Hi'; [done|].
    rewrite lookup_delete_ne; [by apply (reg_active _ R)|]. intros E. apply Hne. by eapply reg_unique.
  - intros k i [Hk Hi]%lookup_delete_Some. destruct (reg_only _ R k i Hi) as (ci & Hci & ?).
    rewrite lookup_insert_ne; [eauto|]. intros <-. apply Hk.
    destruct (inv_registry _ (reg_inv _ R) k id Hi) as (c2 & ? & <-). congruence.
Qed.

Lemma reg_env id c s s' : reg s → calls s !! id = Some c → envStep id c s s' → reg s'.
Proof.
  intros R Hc Hs. pose proof (inv_env id c s s' (reg_inv _ R) Hc Hs) as I'.
  destruct Hs as [Ha|Ha|]; (refine (reg_setCall id c _ s _ R I' Hc _ _ eq_refl eq_refl); [done|unfold active; cbn [at_]; by rewrite ?Ha]).
Qed.

Lemma reg_step s s' : reg s → freshStep s s' → reg s'.
Proof.
  intros R Hf. destruct Hf as [id k Hid Hk|s1 Hs Hold]; [by apply reg_register|]. destruct Hs as [id k Hid|id c s2 Hc Hs|id c s2 Hc Hs|d k m Hd|d x c r s2 Hd Hc Hs].
  - destruct (Hold id (mkCall k Registered None false)); [done|]. simpl. by rewrite lookup_insert_eq.
  - by eapply reg_env.
  - by eapply reg_do.
  - pose proof (inv_lookup d k m s (reg_inv _ R)) as I'. destruct R as [I R1 R2].
    unfold dispatchLookup in *. destruct (registry s !! k); by split.
  - pose proof (inv_dispatch d x c r s s2 (reg_inv _ R) Hd Hc Hs) as I'. unfold dispatchSend in Hs.
    destruct (chClosed c); [injection Hs as <- <-; destruct R as [I R1 R2]; by split|].
    destruct (buffer c); [done|]. injection Hs as <- <-.
    refine (reg_setCall (target x) c _ s _ R I' Hc _ _ eq_refl eq_refl); done.
Qed.

Lemma reg_reachable s : rtc freshStep NewMessageTransporter s → reg s.
Proof.
  revert s. apply (rtc_ind_r reg); [|intros; by eapply reg_step].
  split; simpl; [split; simpl; intros *; by rewrite lookup_empty|intros *; by rewrite lookup_empty..].
Qed.

(** C29: a call of [Do] only ever gets a message that was dispatched under its own message
    type and lane key, under every interleaving of calls and dispatches, also when calls
    share a key.  In the runs in which no call registers a key that an active call uses,
    moreover, the channel of every call that sends or waits is found by a dispatch under its
    key, and a dispatch never finds a channel that is closed; the code does not check that
    keys differ, and with a shared key this fails ([shared_lane_unregisters_other]). *)
Theorem lane_isolation s :
  (rtc step NewMessageTransporter s →
   ∀ id c m, calls s !! id = Some c → at_ c = Returned (Received m) → (lane c, m) ∈ log s) ∧
  (rtc freshStep NewMessageTransporter s →
   (∀ id c, calls s !! id = Some c → at_ c = Registered ∨ at_ c = Waiting → registry s !! lane c = Some id) ∧
   (∀ k id, registry s !! k = Some id → ∃ c, calls s !! id = Some c ∧ lane c = k ∧ chClosed c = false)).
Proof.
  split; [intros H id c m Hc Ha; eapply (inv_result _ (inv_reachable s H)); eauto|].
  intros H. pose proof (reg_reachable s H) as R. split.
  - intros id c Hc Ha. apply (reg_active _ R); [done|]. unfold active. by destruct Ha as [-> | ->].
  - intros k id Hk. destruct (reg_only _ R k id Hk) as (c & Hc & Ha).
    destruct (inv_registry _ (reg_inv _ R) k id Hk) as (c' & Hc' & Hl). simplify_eq. exists c. split_and!; [done|done|].
    unfold active, chClosed in *. by destruct (at_ c).
Qed.

(** One step of the call that owns a channel. *)
Definition ownStep (id : nat) (s s' : transporterImpl) : Prop := ∃ c, calls s !! id = Some c ∧ doStep id c s s'.

(** Runs of everything in which the call [id] takes [n] steps of its own. *)
Inductive runs (id : nat) : nat → transporterImpl → transporterImpl → Prop :=
| runs_refl s : runs id 0 s s
| runs_own n s s1 s2 : ownStep id s s1 → runs id n s1 s2 → runs id (S n) s s2
| runs_other n s s1 s2 : step s s1 → ~ ownStep id s s1 → runs id n s1 s2 → runs id n s s2.

(** The steps still ahead of a call that has sent its request. *)
Definition ahead (c : call) : nat :=
  match at_ c with Registered => 4 | Waiting => 3 | Leaving _ => 2 | Unregistered _ => 1 | Returned _ => 0 end.

Lemma own_ahead id c s s' : calls s !! id = Some c → ownStep id s s' →
  ∃ c', calls s' !! id = Some c' ∧ ahead c = S (ahead c').
Proof.
  intros Hc (c0 & Hc0 & Hs). simplify_eq. unfold ahead.
  destruct Hs as [m Ha Hm|Ha Hx|r Ha|r Ha]; rewrite Ha; (eexists; split; [apply lookup_insert_eq|done]).
Qed.

Lemma other_ahead id c s s' : calls s !! id = Some c → (ahead c ≤ 3)%nat → step s s' → ~ ownStep id s s' →
  ∃ c', calls s' !! id = Some c' ∧ ahead c' = ahead c.
Proof.
  intros Hc Hle Hs Hown. destruct Hs as [i k Hi|i ci s1 Hci Hs|i ci s1 Hci Hs|d k m Hd|d x ci r s1 Hd Hci Hs].
  - exists c. simpl. split; [|done]. rewrite lookup_insert_ne; [done|]. intros ->. congruence.
  - destruct (decide (i = id)) as [->|Hne].
    + simplify_eq. destruct Hs as [Ha|Ha|]; [unfold ahead in Hle; rewrite Ha in Hle; lia..|]. eexists. split; [apply lookup_insert_eq|done].
    + exists c. destruct Hs; simpl; (split; [by rewrite lookup_insert_ne|done]).
  - destruct (decide (i = id)) as [->|Hne]; [by destruct Hown; exists ci|].
    exists c. destruct Hs; simpl; (split; [by rewrite lookup_insert_ne|done]).
  - exists c. unfold dispatchLookup. by destruct (registry s !! k).
  - unfold dispatchSend in Hs. destruct (chClosed ci); [injection Hs as <- <-; by exists c|].
    destruct (buffer ci); [done|]. injection Hs as <- <-. simpl. destruct (decide (target x = id)) as [E|Hne].
    + rewrite E in *. simplify_eq. rewrite lookup_insert_eq. by eexists.
    + exists c. by rewrite lookup_insert_ne.
Qed.

Lemma runs_ahead id n s s' : runs id n s s' → ∀ c, calls s !! id = Some c → (ahead c ≤ 3)%nat →
  ∃ c', calls s' !! id = Some c' ∧ (n + ahead c' = ahead c)%nat.
Proof.
  induction 1 as [s|n s s1 s2 Hs _ IH|n s s1 s2 Hs Ho _ IH]; intros c Hc Hle; [by exists c| |].
  - destruct (own_ahead id c s s1 Hc Hs) as (c1 & Hc1 & E). destruct (IH c1 Hc1) as (c' & Hc' & ?); [lia|]. exists c'. split; [done|lia].
  - destruct (other_ahead id c s s1 Hc Hle Hs Ho) as (c1 & Hc1 & E). destruct (IH c1 Hc1) as (c' & Hc' & ?); [lia|]. exists c'. split; [done|lia].
Qed.

(** A dispatch that cannot send waits for a call that has a step to take, unless it sends. *)
Lemma blocked_owner d x c s : calls s !! target x = Some c → (ahead c ≤ 3)%nat → dispatchSend d x c s = None →
  (0 < ahead c)%nat ∧ ∃ s', ownStep (target x) s s'.
Proof.
  intros Hc Hle Hs. unfold dispatchSend, chClosed, ahead in *. unfold ownStep.
  destruct (at_ c) as [| |r|r|r] eqn:Ha; [lia|..|done]; (split; [lia|]).
  - destruct (buffer c) as [m|] eqn:Hb; [|done]. eexists _, c. split; [done|by eapply do_recv].
  - eexists _, c. split; [done|by eapply do_unregister].
  - eexists _, c. split; [done|by eapply do_close].
Qed.

(** C30: a dispatch waits for at most three steps of one call.  Once the call that owns the
    channel of a dispatch has sent its request, then whatever else runs, other calls and
    dispatches, the sender and the context of the caller, the call takes at most three more
    steps of its own; at any time the dispatch can complete at once, or one of those steps
    is possible without waiting for anybody.  So it completes if the call goes on.  (While
    [Send] of the call has not returned, both wait for the sender.) *)
Theorem dispatch_completes s d x :
  rtc step NewMessageTransporter s → pending s !! d = Some x →
  ∃ c, calls s !! target x = Some c ∧
    (at_ c ≠ Registered → ∀ n s', runs (target x) n s s' → pending s' !! d = Some x →
     (n ≤ 3)%nat ∧ ∃ c', calls s' !! target x = Some c' ∧
       match dispatchSend d x c' s' with
       | Some (_, s'') => pending s'' !! d = None
       | None => (n < 3)%nat ∧ ∃ s'', ownStep (target x) s' s''
       end).
Proof.
  intros H Hd. destruct (inv_pending _ (inv_reachable s H) d x Hd) as (_ & c & Hc & _). exists c. split; [done|].
  intros Ha n s' Hr _. assert (ahead c ≤ 3)%nat as Hle by (unfold ahead; destruct (at_ c); done || lia).
  destruct (runs_ahead _ _ _ _ Hr c Hc Hle) as (c' & Hc' & Hn). split; [lia|]. exists c'. split; [done|].
  destruct (dispatchSend d x c' s') as [[r s'']|] eqn:Hs.
  - unfold dispatchSend in Hs. destruct (chClosed c'); [|destruct (buffer c'); [done|]]; injection Hs as <- <-; simpl; apply lookup_delete_eq.
  - destruct (blocked_owner d x c' s' Hc') as [? ?]; [lia|done|]. split; [lia|done].
Qed.

End lanes.

Arguments transporterImpl : clear implicits.

(** One call whose response arrives. *)
Definition demoKey : string * string := ("NatHoleResp", "t1")%string.
Definition demoDone : transporterImpl Z :=
  mkTransporter ∅ {[ 0%nat := mkCall demoKey (Returned (Received 7)) None false ]} ∅ [(demoKey, 7)].

Lemma demo_lane_steps : rtc freshStep (@NewMessageTransporter Z) demoDone.
Proof.
  assert (Hold : ∀ (s s' : transporterImpl Z), dom (calls s') ⊆ dom (calls s) → ∀ id c, calls s !! id = None → calls s' !! id = Some c → False).
  { intros s s' Hsub id c Hn Hs. apply (elem_of_dom_2 (D := gset nat)) in Hs. apply Hsub in Hs. by apply not_elem_of_dom in Hn. }
  eapply rtc_l. { apply (fresh_register _ 0%nat demoKey); [reflexivity|]. intros i c. simpl. by rewrite lookup_empty. }
  eapply rtc_l. { eapply fresh_other; [eapply (step_env _ 0%nat); [reflexivity|apply env_sendOk; reflexivity]|apply Hold; set_solver]. }
  eapply rtc_l. { eapply fresh_other; [apply (step_lookup _ 9%nat demoKey 7); reflexivity|apply Hold; vm_compute; set_solver]. }
  eapply rtc_l. { eapply fresh_other; [eapply (step_dispatch _ 9%nat); reflexivity|apply Hold; vm_compute; set_solver]. }
  eapply rtc_l. { eapply fresh_other; [eapply (step_do _ 0%nat); [reflexivity|eapply do_recv; reflexivity]|apply Hold; vm_compute; set_solver]. }
  eapply rtc_l. { eapply fresh_other; [eapply (step_do _ 0%nat); [reflexivity|eapply do_unregister; reflexivity]|apply Hold; vm_compute; set_solver]. }
  eapply rtc_l. { eapply fresh_other; [eapply (step_do _ 0%nat); [reflexivity|eapply do_close; reflexivity]|apply Hold; vm_compute; set_solver]. }
  vm_compute. apply rtc_refl.
Qed.

Lemma freshStep_step (s s' : transporterImpl Z) : freshStep s s' → step s s'.
Proof. intros [id k Hid _|s1 Hs _]; [by apply step_register|done]. Qed.

Lemma lane_isolation_witness : (demoKey, 7) ∈ log demoDone ∧ registry demoDone !! demoKey = None.
Proof.
  split.
  - apply (proj1 (lane_isolation demoDone) (rtc_subrel _ _ _ _ freshStep_step demo_lane_steps) 0%nat (mkCall demoKey (Returned (Received 7)) None false) 7); reflexivity.
  - destruct (registry demoDone !! demoKey) as [i|] eqn:E; [|done].
    destruct (proj2 (proj2 (lane_isolation demoDone) demo_lane_steps) demoKey i E) as (c & Hc & _ & Hx). simpl in Hc. vm_compute in E. discriminate E.
Defined.

(** A dispatch that finds the channel full, of a call that waits. *)
Definition demoFull (p : phase) : transporterImpl Z :=
  mkTransporter {[ demoKey := 0%nat ]} {[ 0%nat := mkCall demoKey p (Some 7) false ]} {[ 8%nat := mkDispatch 0 demoKey 5 ]}
    [(demoKey, 7); (demoKey, 5)].

Lemma demo_full_steps : rtc step NewMessageTransporter (demoFull Registered).
Proof.
  eapply rtc_l; [apply (step_register _ 0%nat demoKey); reflexivity|].
  eapply rtc_l; [apply (step_lookup _ 9%nat demoKey 7); reflexivity|].
  eapply rtc_l; [eapply (step_dispatch _ 9%nat); reflexivity|].
  eapply rtc_l; [apply (step_lookup _ 8%nat demoKey 5); reflexivity|].
  vm_compute. apply rtc_refl.
Qed.

Lemma dispatch_completes_witness :
  dispatchSend 8 (mkDispatch 0 demoKey 5) (mkCall demoKey Waiting (Some 7) false) (demoFull Waiting) = None ∧
  ∃ s', ownStep 0 (demoFull Waiting) s'.
Proof.
  split; [reflexivity|]. destruct (dispatch_completes (demoFull Waiting) 8 (mkDispatch 0 demoKey 5)) as (c & Hc & Hrun).
  - eapply rtc_r; [apply demo_full_steps|]. exact (step_env (demoFull Registered) 0%nat _ _ eq_refl (env_sendOk 0%nat (mkCall demoKey Registered (Some 7) false) _ eq_refl)).
  - reflexivity.
  - simpl in Hc. injection Hc as <-.
    destruct (Hrun ltac:(discriminate) 0%nat (demoFull Waiting) (runs_refl 0 (demoFull Waiting)) eq_refl) as (_ & c' & Hc' & H).
    simpl in Hc'. injection Hc' as <-. exact (proj2 H).
Defined.

(** While [Send] of the call has not returned, the dispatch and the call wait for the
    sender. *)
Example send_blocks_dispatch :
  dispatchSend 8 (mkDispatch 0 demoKey 5) (mkCall demoKey Registered (Some 7) false) (demoFull Registered) = None ∧
  ∀ s', ownStep 0 (demoFull Registered) s' → False.
Proof. split; [reflexivity|]. intros s' (c & Hc & Hs). simpl in Hc. injection Hc as <-. destruct Hs; discriminate. Qed.

(** The function that unregisters deletes by key: a call that shares the key of an
    earlier one that ends is no longer found. *)
Example shared_lane_unregisters_other :
  let s := registerMsgChan 1 demoKey (registerMsgChan 0 demoKey (@NewMessageTransporter Z)) in
  registry s !! demoKey = Some 1%nat ∧ registry (unregister demoKey s) !! demoKey = None.
Proof. split; reflexivity. Qed.

End Lanes.
