(* ===== verification/Backoff.v ===== *)
(** * Retries: [pkg/util/wait/backoff.go]

    The client retries its login and its health checks with a backoff manager: a
    few fast retries per time window, then delays that grow up to a maximum.
    Durations and times are nanoseconds.  The floating-point products (the factor
    and the random jitter) are arguments.  The counters stay far below the range
    of [int] and are not wrapped. *)
From S2P Require Import Prelude.

Module Backoff.

(** [Factor d] is [time.Duration(float64(d) * Factor)], [None] for the factor 0;
    [Jitter n d] is the [n]-th draw of [Jitter(d, Jitter)], [None] when it is not
    positive; [FastJitter] likewise for the fast retries. *)
Record FastBackoffOptions := mkOptions {
  Duration : Z; Factor : option (Z → Z); Jitter : option (nat → Z → Z); MaxDuration : Z; InitDurationIfFail : Z;
  FastRetryCount : Z; FastRetryDelay : Z; FastJitter : nat → Z → Z; FastRetryWindow : Z }.

(** [None] is the zero time. *)
Record fastBackoffImpl := mkBackoff {
  lastCalledTime : option Z; consecutiveErrCount : Z; fastRetryCutoffTime : option Z; countsInFastRetryWindow : Z }.

Definition newFastBackoffManager : fastBackoffImpl := mkBackoff None 0 None 1.

Definition Second : Z := 10 ^ 9.
Definition EmptyOr (v fallback : Z) : Z := if decide (v = 0) then fallback else v.
Definition After (now : Z) (t : option Z) : bool := match t with Some t => t <? now | None => true end.

Section backoff.
Variable o : FastBackoffOptions.

(** Delay of a failed attempt that is not retried fast. *)
Definition slowDelay (n : nat) (errs previousDuration : Z) : Z :=
  let duration := if decide (errs = 1) then EmptyOr (InitDurationIfFail o) previousDuration else previousDuration in
  let duration := EmptyOr duration Second in
  let duration := match Factor o with Some f => f duration | None => duration end in
  let duration := match Jitter o with Some j => j n duration | None => duration end in
  if (0 <? MaxDuration o) && (MaxDuration o <? duration) then MaxDuration o else duration.

(** The [n]-th call, at time [now]; the flag of the result tells a fast retry. *)
Definition Backoff (n : nat) (now previousDuration : Z) (previousConditionError : bool) (f : fastBackoffImpl) : bool * Z * fastBackoffImpl :=
  match lastCalledTime f with
  | None => (false, Duration o, mkBackoff (Some now) (consecutiveErrCount f) (fastRetryCutoffTime f) (countsInFastRetryWindow f))
  | Some _ =>
      let errs := if previousConditionError then consecutiveErrCount f + 1 else 0 in
      let counts := countsInFastRetryWindow f + 1 in
      if (0 <? FastRetryCount o) && previousConditionError then
        if counts <=? FastRetryCount o then
          (true, FastJitter o n (FastRetryDelay o), mkBackoff (Some now) errs (fastRetryCutoffTime f) counts)
        else if After now (fastRetryCutoffTime f) then
          (false, slowDelay n errs previousDuration, mkBackoff (Some now) errs (Some (now + FastRetryWindow o)) 0)
        else (false, slowDelay n errs previousDuration, mkBackoff (Some now) errs (fastRetryCutoffTime f) counts)
      else (false, if previousConditionError then slowDelay n errs previousDuration else Duration o,
            mkBackoff (Some now) errs (fastRetryCutoffTime f) (countsInFastRetryWindow f))
  end.

(** ** The retry loop *)

(** What one attempt gives: done, an error, or neither; the stop channel is
    looked at before an attempt and while waiting. *)
Inductive attempt := Done | Failed | Again.
Record turn := mkTurn { stopBefore : bool; result : attempt; at_ : Z; stopAfter : bool }.
Inductive event := Call | Wait (d : Z).

(** [BackoffUntil] after the first call of [Backoff], with [sliding] given. *)
Fixpoint loop (sliding : bool) (n : nat) (delay : Z) (previousError : bool) (f : fastBackoffImpl) (ts : list turn) : list event :=
  match ts with
  | [] => []
  | t :: ts =>
      if stopBefore t then []
      else
        let '(delay, f) := if sliding then (delay, f) else let '(_, d, f) := Backoff n (at_ t) delay previousError f in (d, f) in
        match result t with
        | Done => [Call]
        | r =>
            let previousError := match r with Failed => true | _ => false end in
            let '(delay, f) := if sliding then let '(_, d, f) := Backoff n (at_ t) delay previousError f in (d, f) else (delay, f) in
            Call :: Wait delay :: (if stopAfter t then [] else loop sliding (S n) delay previousError f ts)
        end
  end.

Definition BackoffUntil (sliding : bool) (start : Z) (ts : list turn) : list event :=
  loop sliding 1 0 false (Backoff 0 start 0 false newFastBackoffManager).2 ts.

(** ** Properties *)

(** A sequence of calls: the times and error flags, with the previous delays. *)
Record bcall := mkBcall { when : Z; prev : Z; failed : bool }.

Fixpoint run (n : nat) (f : fastBackoffImpl) (cs : list bcall) : list bool * fastBackoffImpl :=
  match cs with
  | [] => ([], f)
  | c :: cs => let '(b, _, f) := Backoff n (when c) (prev c) (failed c) f in
               let '(bs, f) := run (S n) f cs in (b :: bs, f)
  end.

Definition fastCalls (bs : list bool) : Z := Z.of_nat (length (filter (λ b, b = true) bs)).

Lemma fastCalls_cons b bs : fastCalls (b :: bs) = (if b then 1 else 0) + fastCalls bs.
Proof. unfold fastCalls. rewrite filter_cons. destruct b; simpl; lia. Qed.

Lemma fast_run_cons n f c cs :
  fastCalls (run n f (c :: cs)).1 =
    (if (Backoff n (when c) (prev c) (failed c) f).1.1 then 1 else 0) + fastCalls (run (S n) (Backoff n (when c) (prev c) (failed c) f).2 cs).1.
Proof.
  simpl. destruct (Backoff n (when c) (prev c) (failed c) f) as [[b d] f']. cbn [fst snd]. destruct (run (S n) f' cs) as [bs f2]. cbn [fst].
  apply fastCalls_cons.
Qed.

(** What a call does to the counter: a fast retry counts, a slow one may start a
    new window, and everything else leaves counter and cutoff or only counts. *)
Lemma Backoff_counts n now d e f :
  let '(b, _, f') := Backoff n now d e f in
  (b = true ∧ countsInFastRetryWindow f + 1 ≤ FastRetryCount o ∧
     countsInFastRetryWindow f' = countsInFastRetryWindow f + 1 ∧ fastRetryCutoffTime f' = fastRetryCutoffTime f) ∨
  (b = false ∧ After now (fastRetryCutoffTime f) = true ∧
     countsInFastRetryWindow f' = 0 ∧ fastRetryCutoffTime f' = Some (now + FastRetryWindow o)) ∨
  (b = false ∧ countsInFastRetryWindow f ≤ countsInFastRetryWindow f' ∧ fastRetryCutoffTime f' = fastRetryCutoffTime f).
Proof.
  unfold Backoff. destruct (lastCalledTime f); [|right; right; simpl; split_and!; (done || lia)].
  destruct (_ && e); [|right; right; simpl; split_and!; (done || lia)].
  destruct (Z.leb_spec (countsInFastRetryWindow f + 1) (FastRetryCount o)); [left; done|].
  destruct (After now (fastRetryCutoffTime f)) eqn:E; [right; left; done|right; right; simpl; split_and!; (done || lia)].
Qed.

(** Before the cutoff nothing is reset. *)
Lemma fast_before_cutoff cs : ∀ n f t, fastRetryCutoffTime f = Some t → Forall (λ c, when c ≤ t) cs →
  fastCalls (run n f cs).1 ≤ Z.max 0 (FastRetryCount o - countsInFastRetryWindow f).
Proof.
  induction cs as [|c cs IH]; intros n f t Ht Hall; [unfold fastCalls; simpl; lia|]. inversion_clear Hall as [|? ? Hc Hcs].
  rewrite fast_run_cons. pose proof (Backoff_counts n (when c) (prev c) (failed c) f) as Hb.
  destruct (Backoff _ _ _ _ _) as [[b d] f']. cbn [fst snd]. rewrite Ht in Hb.
  destruct Hb as [(-> & ? & ? & ?)|[(-> & Ha & _)|(-> & ? & ?)]].
  - specialize (IH (S n) f' t ltac:(done) Hcs). lia.
  - simpl in Ha. apply Z.ltb_lt in Ha. lia.
  - specialize (IH (S n) f' t ltac:(done) Hcs). lia.
Qed.

Lemma fast_in_window cs a : ∀ n f, 0 ≤ FastRetryCount o →
  Forall (λ c, a ≤ when c ≤ a + FastRetryWindow o) cs → 0 ≤ countsInFastRetryWindow f →
  fastCalls (run n f cs).1 ≤ Z.max 0 (FastRetryCount o - countsInFastRetryWindow f) + FastRetryCount o.
Proof.
  induction cs as [|c cs IH]; intros n f Hfr Hall Hf; [unfold fastCalls; simpl; lia|]. inversion_clear Hall as [|? ? Hc Hcs].
  rewrite fast_run_cons. pose proof (Backoff_counts n (when c) (prev c) (failed c) f) as Hb.
  destruct (Backoff _ _ _ _ _) as [[b d] f']. cbn [fst snd].
  destruct Hb as [(-> & ? & ? & ?)|[(-> & _ & Hz & Ht)|(-> & ? & ?)]].
  - specialize (IH (S n) f' Hfr Hcs ltac:(lia)). lia.
  - pose proof (fast_before_cutoff cs (S n) f' _ Ht) as H. rewrite Hz in H.
    assert (Forall (λ c0, when c0 ≤ when c + FastRetryWindow o) cs) as Hcs'; [|specialize (H Hcs'); lia].
    eapply Forall_impl; [exact Hcs|]. simpl. lia.
  - specialize (IH (S n) f' Hfr Hcs ltac:(lia)). lia.
Qed.

Lemma run_counts cs : ∀ n f, 0 ≤ countsInFastRetryWindow f → 0 ≤ countsInFastRetryWindow (run n f cs).2.
Proof.
  induction cs as [|c cs IH]; intros n f Hf; simpl; [done|].
  pose proof (Backoff_counts n (when c) (prev c) (failed c) f) as Hb. destruct (Backoff _ _ _ _ _) as [[b d] f'].
  specialize (IH (S n) f'). destruct (run (S n) f' cs). apply IH. naive_solver lia.
Qed.

(** C39: within any span of the length of the window at most twice the configured
    number of retries are fast, whatever was called before: a client that cannot
    reach its server does not flood it. *)
Theorem fast_retries_bounded before cs a n :
  0 ≤ FastRetryCount o → Forall (λ c, a ≤ when c ≤ a + FastRetryWindow o) cs →
  fastCalls (run n (run 0 newFastBackoffManager before).2 cs).1 ≤ 2 * FastRetryCount o.
Proof.
  intros Hfr Hall. assert (H0 := run_counts before 0 newFastBackoffManager ltac:(simpl; lia)).
  pose proof (fast_in_window cs a n _ Hfr Hall H0). lia.
Qed.

(** after the first call, which returns the plain duration, a delay without an
    error is the plain duration; after an error it is the jittered fast delay or,
    when a maximum is set, at most the maximum. *)
Theorem backoff_delay n now d e f b delay f' :
  Backoff n now d e f = (b, delay, f') →
  (lastCalledTime f = None ∨ e = false → delay = Duration o ∧ b = false) ∧
  (b = true → delay = FastJitter o n (FastRetryDelay o) ∧ e = true) ∧
  (b = false → e = true → lastCalledTime f ≠ None → 0 < MaxDuration o → delay ≤ MaxDuration o) ∧
  is_Some (lastCalledTime f').
Proof.
  assert (Hslow : ∀ errs, 0 < MaxDuration o → slowDelay n errs d ≤ MaxDuration o).
  { intros errs Hm. unfold slowDelay. destruct (Z.ltb_spec 0 (MaxDuration o)); [|lia]. cbn [andb].
    destruct (Z.ltb_spec (MaxDuration o)
      (match Jitter o with Some j => j n (match Factor o with Some f => f (EmptyOr (if decide (errs = 1) then EmptyOr (InitDurationIfFail o) d else d) Second)
        | None => EmptyOr (if decide (errs = 1) then EmptyOr (InitDurationIfFail o) d else d) Second end)
       | None => match Factor o with Some f => f (EmptyOr (if decide (errs = 1) then EmptyOr (InitDurationIfFail o) d else d) Second)
        | None => EmptyOr (if decide (errs = 1) then EmptyOr (InitDurationIfFail o) d else d) Second end end)); lia. }
  unfold Backoff. destruct (lastCalledTime f) eqn:Hl; [|intros [= <- <- <-]; naive_solver].
  destruct (0 <? FastRetryCount o), e; cbn [andb]; [destruct (_ <=? _); [|destruct (After _ _)]|..]; intros [= <- <- <-]; naive_solver.
Qed.

(** The loop: attempts alternate with waits, and a finished attempt or a stop is
    the end. *)
Fixpoint attempts (ts : list turn) : nat :=
  match ts with
  | [] => 0
  | t :: ts => if stopBefore t then 0 else match result t with Done => 1 | _ => if stopAfter t then 1 else S (attempts ts) end
  end.

Fixpoint callsIn (es : list event) : nat := match es with [] => 0 | Call :: es => S (callsIn es) | Wait _ :: es => callsIn es end.

Lemma loop_attempts sliding ts : ∀ n delay e f, callsIn (loop sliding n delay e f ts) = attempts ts.
Proof.
  induction ts as [|t ts IH]; intros n delay e f; simpl; [done|]. destruct (stopBefore t); [done|].
  destruct sliding, (result t); simpl; try destruct (Backoff n (at_ t) delay _ f) as [[? ?] ?]; simpl; try done;
    destruct (stopAfter t); simpl; rewrite ?IH; done.
Qed.
End backoff.

(** ** Concrete runs *)

(** Three fast retries per minute; the jitter and the factor are left out. *)
Definition demoOptions : FastBackoffOptions := mkOptions (10 * Second) None None (20 * Second) 0 3 (200 * 10 ^ 6) (λ _ d, d) (60 * Second).
Definition demoCalls (k : nat) : list bcall := (λ i, mkBcall (Z.of_nat i * Second) Second true) <$> seq 0 k.

(** The counter starts at one and the first window at once: in the first seconds
    five retries are fast, not three. *)
Example first_window_twice :
  (run demoOptions 0 newFastBackoffManager (demoCalls 10)).1 =
    [false; true; true; false; true; true; true; false; false; false].
Proof. reflexivity. Qed.

Lemma fast_retries_bounded_witness : fastCalls (run demoOptions 0 newFastBackoffManager (demoCalls 10)).1 ≤ 2 * 3.
Proof.
  apply (fast_retries_bounded demoOptions [] (demoCalls 10) 0 0); [simpl; lia|].
  apply Forall_forall. intros c (i & -> & Hi%elem_of_seq)%list_elem_of_fmap. simpl. unfold Second. lia.
Defined.

Definition demoLate : fastBackoffImpl := mkBackoff (Some 0) 1 (Some (60 * Second)) 5.

Lemma backoff_delay_witness : (Backoff demoOptions 8 (8 * Second) (50 * Second) true demoLate).1.2 ≤ MaxDuration demoOptions.
Proof.
  destruct (backoff_delay demoOptions 8 (8 * Second) (50 * Second) true demoLate false (20 * Second)
    (mkBackoff (Some (8 * Second)) 2 (Some (60 * Second)) 6)) as (_ & _ & H & _); [reflexivity|].
  apply H; [reflexivity..|discriminate|reflexivity].
Defined.

End Backoff.
