(* ===== verification/FeatureGate.v ===== *)
(** * Feature gates: [pkg/policy/featuregate/feature_gate.go]

    The gate knows features with a default; settings from the configuration
    override the default unless the feature is locked.  A Go map is read in an
    unspecified order, so the settings are a list: some order of the map. *)
From S2P Require Import Prelude.

Module FeatureGate.

Inductive FeatureStage := Alpha | Beta | GA.
Record FeatureSpec := mkSpec { Default : bool; LockToDefault : bool; Stage : FeatureStage }.
#[global] Instance FeatureStage_eq_dec : EqDecision FeatureStage. Proof. solve_decision. Defined.
#[global] Instance FeatureSpec_eq_dec : EqDecision FeatureSpec. Proof. solve_decision. Defined.

Inductive error := ErrUnrecognized (k : string) | ErrLocked (k : string) | ErrClosed | ErrDifferentSpec (k : string).

Record featureGate := mkGate { known : gmap string FeatureSpec; enabled : gmap string bool; closed : bool }.

Definition defaultFeatures : gmap string FeatureSpec := {[ "VirtualNet" := mkSpec false false Alpha ]}.
Definition NewFeatureGate : featureGate := mkGate defaultFeatures ∅ false.

(** The loops work on copies; an error returns before the copies are stored. *)
Fixpoint applySettings (known : gmap string FeatureSpec) (enabled : gmap string bool) (m : list (string * bool)) : res error (gmap string bool) :=
  match m with
  | [] => Ok enabled
  | (k, v) :: m =>
      match known !! k with
      | None => Err (ErrUnrecognized k)
      | Some spec =>
          if LockToDefault spec && negb (bool_decide (Default spec = v)) then Err (ErrLocked k)
          else applySettings known (<[ k := v ]> enabled) m
      end
  end.

Definition SetFromMap (m : list (string * bool)) (f : featureGate) : res error unit * featureGate :=
  match applySettings (known f) (enabled f) m with
  | Ok e => (Ok tt, mkGate (known f) e (closed f))
  | Err e => (Err e, f)
  end.

Fixpoint addFeatures (known : gmap string FeatureSpec) (features : list (string * FeatureSpec)) : res error (gmap string FeatureSpec) :=
  match features with
  | [] => Ok known
  | (name, spec) :: features =>
      match known !! name with
      | Some existing => if decide (existing = spec) then addFeatures known features else Err (ErrDifferentSpec name)
      | None => addFeatures (<[ name := spec ]> known) features
      end
  end.

Definition Add (features : list (string * FeatureSpec)) (f : featureGate) : res error unit * featureGate :=
  if closed f then (Err ErrClosed, f)
  else match addFeatures (known f) features with
       | Ok k => (Ok tt, mkGate k (enabled f) (closed f))
       | Err e => (Err e, f)
       end.

Definition Enabled (key : string) (f : featureGate) : bool :=
  match enabled f !! key with
  | Some v => v
  | None => match known f !! key with Some spec => Default spec | None => false end
  end.

(** ** Properties *)

Inductive op := OSet (m : list (string * bool)) | OAdd (features : list (string * FeatureSpec)).
Definition exec (f : featureGate) (o : op) : featureGate := match o with OSet m => (SetFromMap m f).2 | OAdd fs => (Add fs f).2 end.

Lemma applySettings_ok known m : ∀ e e',
  NoDup m.*1 → applySettings known e m = Ok e' ↔
  e' = list_to_map m ∪ e ∧ ∀ k v, (k, v) ∈ m → ∃ spec, known !! k = Some spec ∧ (LockToDefault spec = true → Default spec = v).
Proof.
  induction m as [|[k v] m IH]; intros e e' Hnd; simpl.
  - split; [intros [= ->]; split; [by rewrite (left_id_L ∅ (∪))|set_solver]|intros [-> _]; by rewrite (left_id_L ∅ (∪))].
  - apply NoDup_cons in Hnd as [Hk Hnd]. destruct (known !! k) as [spec|] eqn:Hs.
    2:{ split; [done|]. intros [_ H]. destruct (H k v) as (? & ? & _); [by left|congruence]. }
    destruct (LockToDefault spec && _) eqn:Hl.
    + split; [done|]. intros [_ H]. destruct (H k v) as (sp & Hsp & Hd); [by left|]. simplify_eq.
      apply andb_true_iff in Hl as [Hl Hn]. apply negb_true_iff, bool_decide_eq_false in Hn. by destruct Hn; apply Hd.
    + rewrite IH by done. assert (Hn : list_to_map m !! k = @None bool) by by apply not_elem_of_list_to_map_1.
      assert (E : list_to_map m ∪ <[ k := v ]> e = <[ k := v ]> (list_to_map m) ∪ e).
      { rewrite <-insert_union_l, insert_union_r by done. done. }
      rewrite E. split; intros [-> H]; (split; [done|]); [|intros; apply H; by right].
      intros k' v' [[= -> ->]|?]%elem_of_cons; [|eauto]. exists spec. split; [done|]. intros Hlk. rewrite Hlk in Hl.
      simpl in Hl. by apply negb_false_iff, bool_decide_eq_true in Hl.
Qed.

Lemma addFeatures_grows fs : ∀ k k', addFeatures k fs = Ok k' → k ⊆ k'.
Proof.
  induction fs as [|[n spec] fs IH]; intros k k'; simpl; [by intros [= ->]|].
  destruct (k !! n) eqn:Hn; [case_decide; [apply IH|done]|]. intros H%IH. etrans; [|exact H]. by apply insert_subseteq.
Qed.

(** settings are applied all or not at all, and exactly when each names a known
    feature and gives a locked one its default; then the new settings win, and
    the rest is as before, whatever the order the map is read in. *)
Theorem settings_all_or_nothing m f :
  NoDup m.*1 →
  let '(r, f') := SetFromMap m f in
  (r = Ok tt ↔ ∀ k v, (k, v) ∈ m → ∃ spec, known f !! k = Some spec ∧ (LockToDefault spec = true → Default spec = v)) ∧
  match r with
  | Ok _ => known f' = known f ∧ ∀ k, Enabled k f' = default (Enabled k f) ((list_to_map m : gmap string bool) !! k)
  | Err _ => f' = f
  end.
Proof.
  intros Hnd. unfold SetFromMap. pose proof (applySettings_ok (known f) m (enabled f)) as H.
  destruct (applySettings _ _ _) as [e|er].
  - destruct (proj1 (H e Hnd) eq_refl) as [-> Hall]. split; [done|]. split; [done|]. intros k. unfold Enabled; simpl.
    destruct ((list_to_map m : gmap string bool) !! k) as [v|] eqn:Hk; simpl.
    + by rewrite (lookup_union_Some_l _ _ _ _ Hk).
    + by rewrite lookup_union_r.
  - split; [|done]. split; [done|]. intros Hall. pose proof (proj2 (H _ Hnd) (conj eq_refl Hall)) as E. discriminate E.
Qed.

(** Locked features have their default. *)
Definition lockedOk (f : featureGate) : Prop :=
  ∀ k v, enabled f !! k = Some v → ∃ spec, known f !! k = Some spec ∧ (LockToDefault spec = true → Default spec = v).

Lemma applySettings_keeps kn m : ∀ e e', applySettings kn e m = Ok e' →
  (∀ k v, e !! k = Some v → ∃ spec, kn !! k = Some spec ∧ (LockToDefault spec = true → Default spec = v)) →
  ∀ k v, e' !! k = Some v → ∃ spec, kn !! k = Some spec ∧ (LockToDefault spec = true → Default spec = v).
Proof.
  induction m as [|[k0 v0] m IH]; intros e e'; simpl; [by intros [= ->]|].
  destruct (kn !! k0) as [spec|] eqn:Hs; [|done]. destruct (LockToDefault spec && _) eqn:Hl; [done|].
  intros H Hold. eapply IH; [exact H|]. intros k v. rewrite lookup_insert_Some. intros [[<- <-]|[_ ?]]; [|eauto].
  exists spec. split; [done|]. intros Hlk. rewrite Hlk in Hl. simpl in Hl. by apply negb_false_iff, bool_decide_eq_true in Hl.
Qed.

(** a locked feature keeps its default for ever, and a known feature keeps its
    specification, through all settings and additions. *)
Theorem locked_features_fixed ops k spec :
  let f := foldl exec NewFeatureGate ops in
  known f !! k = Some spec → LockToDefault spec = true →
  ∀ more, known (foldl exec f more) !! k = Some spec ∧ Enabled k (foldl exec f more) = Default spec.
Proof.
  cbn zeta. intros Hk Hl more.
  assert (Hstep : ∀ f o, lockedOk f → lockedOk (exec f o) ∧ known f ⊆ known (exec f o)).
  { intros f [m|fs] Hok; simpl; unfold SetFromMap, Add.
    - destruct (applySettings _ _ _) eqn:E; [|done]. split; [|done]. intros k' v'. by eapply applySettings_keeps.
    - destruct (closed f); [done|]. destruct (addFeatures _ _) eqn:E; [|done]. apply addFeatures_grows in E. split; [|done].
      intros k' v' (sp & Hsp & ?)%Hok. exists sp. split; [|done]. simpl. by eapply lookup_weaken. }
  assert (Hrun : ∀ os f, lockedOk f → lockedOk (foldl exec f os) ∧ known f ⊆ known (foldl exec f os)).
  { induction os as [|o os IH]; intros f Hok; simpl; [done|]. destruct (Hstep f o Hok) as [Hok' Hsub].
    destruct (IH _ Hok'). split; [done|by etrans]. }
  destruct (Hrun ops NewFeatureGate) as [Hok _]; [intros ? ?; simpl; by rewrite lookup_empty|].
  destruct (Hrun more _ Hok) as [Hok' Hsub]. assert (Hk' := lookup_weaken _ _ _ _ Hk Hsub). split; [done|].
  unfold Enabled. destruct (enabled _ !! k) as [v|] eqn:Hv; [|by rewrite Hk'].
  destruct (Hok' k v Hv) as (sp & Hsp & Hd). simplify_eq. symmetry. auto.
Qed.

(** ** Concrete runs *)

Definition demoLocked : list op := [OAdd [("Stable", mkSpec true true GA)]].

Lemma settings_all_or_nothing_witness :
  Enabled "VirtualNet" (SetFromMap [("VirtualNet", true)] NewFeatureGate).2 =
    default (Enabled "VirtualNet" NewFeatureGate) ((list_to_map [("VirtualNet", true)] : gmap string bool) !! "VirtualNet").
Proof.
  destruct (settings_all_or_nothing [("VirtualNet", true)] NewFeatureGate) as [_ [_ H]]; [apply NoDup_singleton|]. apply H.
Defined.

Lemma locked_features_fixed_witness :
  Enabled "Stable" (foldl exec (foldl exec NewFeatureGate demoLocked) [OSet [("Stable", false)]]) = true.
Proof. apply (locked_features_fixed demoLocked "Stable" (mkSpec true true GA)); reflexivity. Defined.

End FeatureGate.
