(* ===== verification/AdminAPI.v ===== *)
(** * The store API of the client: [client/http/controller.go], [client/http/model], [client/config_manager.go]

    The web server of a client reads and changes the store.  A request body is a
    definition: name, type and one block per type; the handlers check it, turn it
    into a configurer, let the configuration manager change the store and reload,
    and answer with a definition or an HTTP status.  Proxies and visitors have
    the same handlers, so both are instances of one class. *)
From S2P Require Import Prelude Bytes Chars Config Source ClientService.
Import Config Source ClientService.

Module AdminAPI.

(** What the handlers use of a kind of configurer. *)
Class Definable (A : Type) `{Configurer A} := {
  (** The types of the kind, in the order of the fields of a definition. *)
  types : list string;
  (** The type of the struct, and the name and type in its base. *)
  kind : A → string;
  baseType : A → string;
  rename : string → string → A → A;
  (** The operations of the store on the kind. *)
  addOp : A → Source.op; updateOp : A → Source.op; removeOp : string → Source.op;
  stored : baseSource → gmap string A;
  (** The store with other entries of the kind and the same entries of the other kind. *)
  setStored : gmap string A → baseSource → baseSource;
  walkAll : order → gmap string A → list A }.
Arguments types A {_ _}.

#[export] Instance proxy_definable : Definable ProxyConfigurer := {|
  types := ["tcp"; "udp"; "http"; "https"; "tcpmux"; "stcp"; "sudp"; "xtcp"]%string;
  kind := typeName;
  baseType c := Type_ (GetBaseConfig c);
  rename n t c := let b := GetBaseConfig c in
    setBase (mkBase n t (Enabled b) (Annotations b) (Transport b) (Metadatas b) (LoadBalancer b) (HealthCheck b) (LocalIP b) (LocalPort b) (Plugin b)) c;
  addOp c := AddProxy (Some c); updateOp c := UpdateProxy (Some c); removeOp := RemoveProxy;
  stored := proxies; setStored m s := mkSource m (Source.visitors s); walkAll := orderP |}.

#[export] Instance visitor_definable : Definable VisitorConfigurer := {|
  types := ["stcp"; "sudp"; "xtcp"]%string;
  kind := visitorTypeName;
  baseType c := vType (vBase c);
  rename n t c := let b := vBase c in
    setVisitorBase (mkVisitorBase n t (vEnabled b) (vTransport b) (SecretKey b) (ServerUser b) (ServerName b) (BindAddr b) (BindPort b) (vPlugin b)) c;
  addOp c := AddVisitor (Some c); updateOp c := UpdateVisitor (Some c); removeOp := RemoveVisitor;
  stored := visitors; setStored m s := mkSource (Source.proxies s) m; walkAll := orderV |}.

(** What the theorems need of a kind. *)
Class DefinableOk (A : Type) `{Definable A} := {
  types_nodup : NoDup (types A);
  kind_types (c : A) : kind c ∈ types A;
  kind_rename n t (c : A) : kind (rename n t c) = kind c;
  name_rename n t (c : A) : cfgName (rename n t c) = n;
  type_rename n t (c : A) : baseType (rename n t c) = t;
  rename_same (c : A) : rename (cfgName c) (baseType c) c = c;
  rename_rename n t n' t' (c : A) : rename n t (rename n' t' c) = rename n t c;
  addOp_typed (c : A) : opTyped (addOp c) ↔ baseType c = kind c;
  updateOp_typed (c : A) : opTyped (updateOp c) ↔ baseType c = kind c;
  removeOp_typed n : opTyped (removeOp n);
  addOp_spec (c : A) s s' : spec (addOp c) s = Ok s' → stored s !! cfgName c = None ∧ s' = setStored (<[ cfgName c := c ]> (stored s)) s;
  addOp_exists (c : A) s : spec (addOp c) s = Err Source.ErrAlreadyExists → is_Some (stored s !! cfgName c);
  updateOp_spec (c : A) s s' : spec (updateOp c) s = Ok s' → is_Some (stored s !! cfgName c) ∧ s' = setStored (<[ cfgName c := c ]> (stored s)) s;
  updateOp_missing (c : A) s : spec (updateOp c) s = Err Source.ErrNotFound → stored s !! cfgName c = None;
  removeOp_spec n s s' : spec (removeOp n) s = Ok s' → is_Some (stored s !! n) ∧ s' = setStored (delete n (stored s)) s;
  stored_set m s : stored (setStored m s) = m;
  removeOp_missing n s : spec (removeOp n) s = Err Source.ErrNotFound → stored s !! n = None;
  addOp_conflict (c : A) e : storeError (addOp c) e = ErrConflict → e = Source.ErrAlreadyExists;
  addOp_noNotFound (c : A) e : storeError (addOp c) e ≠ ErrNotFound;
  updateOp_noConflict (c : A) e : storeError (updateOp c) e ≠ ErrConflict;
  updateOp_notFound (c : A) e : storeError (updateOp c) e = ErrNotFound → e = Source.ErrNotFound;
  removeOp_notFound n e : storeError (removeOp n) e = ErrNotFound → e = Source.ErrNotFound;
  storeError_plain (op : Source.op) e : match storeError op e with ErrApplyConfig _ | ErrStoreDisabled | ErrInvalidArgument => False | _ => True end }.

(** The cases of the specification of an operation. *)
Ltac op_cases := intros *; unfold specEntry, added, updated, removed; simpl; repeat case_match; intros; simplify_eq/=; eauto.

#[export] Instance proxy_definable_ok : DefinableOk ProxyConfigurer.
Proof.
  split; simpl; try (by intros ? ? []); try (by intros [[]|[]|[]|[]|[]|[]|[]|[]]); try (by intros ? ? ? ? []); try (by op_cases).
  all: first [by apply (bool_decide_unpack _)|intros []; simpl; set_solver|by intros ? []|by intros [] []].
Qed.

#[export] Instance visitor_definable_ok : DefinableOk VisitorConfigurer.
Proof.
  split; simpl; try (by intros ? ? []); try (by intros [[]|[]|[]]); try (by intros ? ? ? ? []); try (by op_cases).
  all: first [by apply (bool_decide_unpack _)|intros []; simpl; set_solver|by intros ? []|by intros [] []].
Qed.

(** ** Definitions *)

(** A block is absent when its field is nil. *)
Record Definition_ (A : Type) := mkDef { dName : string; dType : string; blocks : gmap string A }.
Arguments mkDef {A}. Arguments dName {A}. Arguments dType {A}. Arguments blocks {A}.

Inductive defError := ErrName | ErrType | ErrURLName | ErrBlockCount | ErrBlockType.

Section api.
Context {A : Type} `{Definable A}.

(** The last block, its type, and how many there are. *)
Definition activeBlock (d : Definition_ A) : option A * string * nat :=
  foldl (λ x t, match blocks d !! t with Some c => (Some c, t, S x.2) | None => x end) (None, EmptyString, 0%nat) (types A).

Definition IsType (t : string) : bool := bool_decide (t ∈ types A).

Definition Validate (pathName : string) (isUpdate : bool) (d : Definition_ A) : res defError unit :=
  if decide (TrimSpace (ofStr (dName d)) = []) then Err ErrName
  else if negb (IsType (dType d)) then Err ErrType
  else if isUpdate && negb (bool_decide (pathName = EmptyString)) && negb (bool_decide (pathName = dName d)) then Err ErrURLName
  else
    let '(_, blockType, blockCount) := activeBlock d in
    if negb (blockCount =? 1)%nat then Err ErrBlockCount
    else if negb (bool_decide (blockType = dType d)) then Err ErrBlockType
    else Ok ().

Definition ToConfigurer (d : Definition_ A) : res defError A :=
  match activeBlock d with
  | (Some c, _, _) => Ok (rename (dName d) (dType d) c)
  | (None, _, _) => Err ErrBlockCount
  end.

Definition FromConfigurer (c : A) : Definition_ A := mkDef (cfgName c) (baseType c) {[ kind c := c ]}.

(** The fields of the structs hold configurations of their type. *)
Definition blocksTyped (d : Definition_ A) : Prop := ∀ t c, blocks d !! t = Some c → kind c = t.

(** ** The configuration manager *)

Definition inStore (s : Service) (name : string) : option A := storeSource s ≫= λ st, stored (mem st) !! name.

Definition storeGet (name : string) (s : Service) : res error A :=
  if decide (name = EmptyString) then Err ErrInvalidArgument
  else match storeSource s with
       | None => Err ErrStoreDisabled
       | Some st => match stored (mem st) !! name with None => Err ErrNotFound | Some c => Ok c end
       end.

Definition storeList (o : order) (s : Service) : res error (list A) :=
  match storeSource s with None => Err ErrStoreDisabled | Some st => Ok (walkAll o (stored (mem st))) end.

(** The client's settings, the probes and outcomes a change meets. *)
Record Env := mkEnv {
  common : Common; encryptionKey : bytes; clientSpec : option string; iqn : string → list string; io : IO; walked : order; started : nat → bool }.

(** [withStoreProxyMutationAndReload]: the change, then the stored entry. *)
Definition storePut `{Json} (e : Env) (urlName : option string) (name : string) (op : Source.op) (s : Service) : res error A * Service :=
  match storeAPI (common e) (encryptionKey e) (clientSpec e) (iqn e) urlName (io e) op (walked e) (started e) s with
  | (Err er, s) => (Err er, s)
  | (Ok _, s) => (match inStore s name with Some c => Ok c | None => Err (ErrApplyConfig ErrNotFound) end, s)
  end.

(** ** Handlers *)

Definition toHTTPError (e : error) : Z :=
  match e with
  | ErrInvalidArgument => 400
  | ErrNotFound | ErrStoreDisabled => 404
  | ErrConflict => 409
  | _ => 500
  end.

(** [body] is the decoded body, [None] when it cannot be read or is no JSON. *)
Definition CreateStore `{Json} (e : Env) (body : option (Definition_ A)) (s : Service) : res Z (Definition_ A) * Service :=
  match body with
  | None => (Err 400, s)
  | Some d =>
      match Validate EmptyString false d, ToConfigurer d with
      | Ok _, Ok cfg =>
          match storePut e None (cfgName cfg) (addOp cfg) s with
          | (Err er, s) => (Err (toHTTPError er), s)
          | (Ok created, s) => (Ok (FromConfigurer created), s)
          end
      | _, _ => (Err 400, s)
      end
  end.

Definition UpdateStore `{Json} (e : Env) (name : string) (body : option (Definition_ A)) (s : Service) : res Z (Definition_ A) * Service :=
  if decide (name = EmptyString) then (Err 400, s)
  else match body with
  | None => (Err 400, s)
  | Some d =>
      match Validate name true d, ToConfigurer d with
      | Ok _, Ok cfg =>
          match storePut e (Some name) name (updateOp cfg) s with
          | (Err er, s) => (Err (toHTTPError er), s)
          | (Ok updated, s) => (Ok (FromConfigurer updated), s)
          end
      | _, _ => (Err 400, s)
      end
  end.

Definition DeleteStore `{Json} (e : Env) (name : string) (s : Service) : res Z unit * Service :=
  if decide (name = EmptyString) then (Err 400, s)
  else match storeAPI (common e) (encryptionKey e) (clientSpec e) (iqn e) None (io e) (removeOp name) (walked e) (started e) s with
  | (Err er, s) => (Err (toHTTPError er), s)
  | (Ok _, s) => (Ok (), s)
  end.

Definition GetStore (name : string) (s : Service) : res Z (Definition_ A) :=
  if decide (name = EmptyString) then Err 400
  else match storeGet name s with Err er => Err (toHTTPError er) | Ok c => Ok (FromConfigurer c) end.

Definition ListStore (o : order) (s : Service) : res Z (list (Definition_ A)) :=
  match storeList o s with
  | Err er => Err (toHTTPError er)
  | Ok cs => Ok (merge_sort (λ x y, String.le (dName x) (dName y)) (FromConfigurer <$> cs))
  end.

(** ** Definitions and configurers *)

Context {ok : DefinableOk A}.
#[local] Set Default Proof Using "Type*".

Abbreviation pick d := (λ (x : option A * string * nat) (t : string), match blocks d !! t with Some c => (Some c, t, S x.2) | None => x end).

Lemma pick_none d l x : (∀ t, t ∈ l → blocks d !! t = None) → foldl (pick d) x l = x.
Proof. revert x. induction l as [|t l IH]; intros x Hn; simpl; [done|]. rewrite (Hn t) by by left. apply IH. intros; apply Hn; by right. Qed.

Lemma pick_cases d l : ∀ x,
  (foldl (pick d) x l = x ∧ ∀ t, t ∈ l → blocks d !! t = None) ∨
  (∃ c t n, foldl (pick d) x l = (Some c, t, n) ∧ t ∈ l ∧ blocks d !! t = Some c ∧ (x.2 < n)%nat).
Proof.
  induction l as [|t l IH]; intros x; simpl; [left; split; [done|set_solver]|].
  destruct (blocks d !! t) as [c|] eqn:Ht.
  - right. destruct (IH (Some c, t, S x.2)) as [[-> _]|(c' & t' & n & -> & Hin & ? & Hn)].
    + eexists _, _, _. split_and!; [done|by left|done|simpl; lia].
    + eexists _, _, _. split_and!; [done|by right|done|simpl in Hn; simpl; lia].
  - destruct (IH x) as [[-> Hn]|(c' & t' & n & -> & Hin & ? & Hn)].
    + left. split; [done|]. intros t' [->|?]%elem_of_cons; auto.
    + right. eexists _, _, _. split_and!; [done|by right|done|done].
Qed.

Lemma activeBlock_from c : activeBlock (FromConfigurer c) = (Some c, kind c, 1%nat).
Proof.
  unfold activeBlock. destruct (list_elem_of_split _ _ (kind_types c)) as (l1 & l2 & E). pose proof types_nodup as Hnd. rewrite E in *.
  apply NoDup_app in Hnd as (_ & Hd & Hnd). apply NoDup_cons in Hnd as [Hk _].
  rewrite foldl_app. rewrite (pick_none _ l1) by (intros t Ht; simpl; apply lookup_singleton_ne; intros <-; apply (Hd _ Ht); by left).
  simpl. rewrite lookup_singleton_eq. apply (pick_none (FromConfigurer c)). intros t Ht. simpl. apply lookup_singleton_ne. by intros <-.
Qed.

Lemma Validate_ok p u d : Validate p u d = Ok () →
  TrimSpace (ofStr (dName d)) ≠ [] ∧ (u = true → p ≠ EmptyString → p = dName d) ∧
  ∃ c, activeBlock d = (Some c, dType d, 1%nat) ∧ blocks d !! dType d = Some c.
Proof.
  unfold Validate. case_decide as Hn; [done|]. destruct (negb (IsType _)); [done|].
  destruct (u && _ && _) eqn:Hu; [done|]. unfold activeBlock.
  destruct (pick_cases d (types A) (None, EmptyString, 0%nat)) as [[-> _]|(c & t & n & -> & _ & Hc & _)]; [discriminate|].
  destruct (n =? 1)%nat eqn:En; [|discriminate]. apply Nat.eqb_eq in En as ->. cbn [negb].
  destruct (bool_decide (t = dType d)) eqn:Ht; [|discriminate]. apply bool_decide_eq_true in Ht as ->. intros _. split_and!; [done|..|eauto].
  intros -> Hp. rewrite bool_decide_eq_false_2 in Hu by done. simpl in Hu. by apply negb_false_iff, bool_decide_eq_true in Hu.
Qed.

(** C34: definitions and configurers of the store API correspond: the definition of
    a typed configurer with a name is valid, for creation and for update under
    that name, and gives the configurer back; a valid definition gives a
    configurer with its name and type whose struct is of that type, so that
    everything the API stores is well typed. *)
Theorem definition_roundtrip :
  (∀ c : A, baseType c = kind c → TrimSpace (ofStr (cfgName c)) ≠ [] →
     Validate EmptyString false (FromConfigurer c) = Ok () ∧ Validate (cfgName c) true (FromConfigurer c) = Ok () ∧
     ToConfigurer (FromConfigurer c) = Ok c) ∧
  (∀ p u (d : Definition_ A), Validate p u d = Ok () → blocksTyped d →
     ∃ c, ToConfigurer d = Ok c ∧ cfgName c = dName d ∧ baseType c = dType d ∧ kind c = dType d ∧
       FromConfigurer c = mkDef (dName d) (dType d) {[ dType d := c ]}).
Proof.
  split.
  - intros c Ht Hn. unfold Validate, ToConfigurer, IsType. rewrite activeBlock_from. simpl. rewrite decide_False by done.
    rewrite Ht. rewrite (bool_decide_eq_true_2 (kind c ∈ types A)) by apply kind_types.
    rewrite !(bool_decide_eq_true_2 (_ = _)) by done. cbn [negb andb]. split_and!; [done| |].
    + rewrite decide_False, (bool_decide_eq_true_2 (cfgName c = cfgName c)), andb_false_r by done. done.
    + by rewrite <- Ht, rename_same.
  - intros p u d Hv Hty. destruct (Validate_ok p u d Hv) as (_ & _ & c & Ha & Hc). unfold ToConfigurer. rewrite Ha.
    exists (rename (dName d) (dType d) c). unfold FromConfigurer. rewrite name_rename, type_rename, kind_rename, (Hty _ _ Hc). done.
Qed.

(** ** Changes through the API *)

Context `{Json} (e : Env).
Abbreviation apiOf urlName op := (storeAPI (common e) (encryptionKey e) (clientSpec e) (iqn e) urlName (io e) op (walked e) (started e)).
Abbreviation reach := (reachable (common e) (encryptionKey e) (clientSpec e)).

(** The entries of the store, of both kinds. *)
Definition entriesOf (s : Service) : option baseSource := mem <$> storeSource s.

Lemma reload_keeps o k s : storeSource (reloadConfigFromSourcesLocked (common e) (encryptionKey e) (clientSpec e) o k s).2 = storeSource s.
Proof.
  unfold reloadConfigFromSourcesLocked, UpdateAllConfigurer. repeat (case_match; simplify_eq/=; try done).
Qed.

(** What a refused change says of the store, which is as before unless the
    change was made and could not be applied. *)
Lemma storeAPI_refused urlName op s er s' :
  apiOf urlName op s = (Err er, s') →
  (entriesOf s' = entriesOf s ∧
   (toHTTPError er = 500 ∨ er = ErrInvalidArgument ∨ er = ErrStoreDisabled ∧ storeSource s = None ∨
    ∃ st x, storeSource s = Some st ∧ er = storeError op x ∧ spec op (mem st) = Err x)) ∨
  toHTTPError er = 500 ∧ ∃ m m', entriesOf s = Some m ∧ entriesOf s' = Some m' ∧ spec op m = Ok m'.
Proof.
  unfold storeAPI. destruct (checkStoreOp _ _ _) as [[]|x] eqn:Ec.
  2:{ intros [= <- <-]. left. split; [done|]. right. left. unfold checkStoreOp in Ec. repeat (case_match || case_decide); by simplify_eq. }
  unfold withStoreMutationAndReload, entriesOf. destruct (storeSource s) as [st|] eqn:Est; [|intros [= <- <-]; left; rewrite Est; split; [done|]; right; right; by left].
  destruct (Source.exec (io e) op st) as [[r st'] ds] eqn:Ex. apply exec_specStep in Ex.
  destruct r as [[]|x].
  - match goal with |- context [reloadConfigFromSourcesLocked _ _ _ ?o ?k ?s1] => pose proof (reload_keeps o k s1) as Hk end.
    destruct (reloadConfigFromSourcesLocked _ _ _ _ _ _) as [[[]|y] s2]; intros [= <- <-]. right. split; [done|].
    simpl in Hk. rewrite Hk. inversion Ex; subst. eauto.
  - intros [= <- <-]. left. simpl. inversion Ex as [|y Hy|m Hm]; subst; (split; [congruence|]).
    + do 3 right. eexists _, _. eauto.
    + left. by destruct op.
Qed.

Lemma storeAPI_accepted urlName op s s' :
  reach s → orderOk (walked e) → opTyped op → apiOf urlName op s = (Ok (), s') →
  ∃ st st', storeSource s = Some st ∧ storeSource s' = Some st' ∧ spec op (mem st) = Ok (mem st').
Proof.
  intros Hr Ho Hty Ha. pose proof (storeAPI_sinv (common e) (encryptionKey e) (clientSpec e) (iqn e) urlName (io e) op (walked e)
    (started e) s (reachable_sinv _ _ _ s Hr) Ho Hty) as Hs. rewrite Ha in Hs.
  destruct Hs as [_ Hs]. destruct (Hs eq_refl) as (st & st' & _ & ? & ? & ? & _). eauto.
Qed.

Lemma put_lookup (m : baseSource) s' name c : entriesOf s' = Some (setStored (A:=A) (<[ name := c ]> (stored m)) m) → inStore s' name = Some c.
Proof.
  unfold entriesOf, inStore. destruct (storeSource s') as [st|]; [|done]. simpl. intros [= ->]. by rewrite stored_set, lookup_insert_eq.
Qed.

(** The change that puts the configurer of the body into the store, whose entry must be
    [absent] before, or present; all other entries, of both kinds, stay. *)
Definition putMade (absent : bool) (body : option (Definition_ A)) (d : Definition_ A) (c : A) (s s' : Service) : Prop :=
  body = Some d ∧ ToConfigurer d = Ok c ∧ ∃ m, entriesOf s = Some m ∧
  (if absent then stored (A:=A) m !! dName d = None else is_Some (stored (A:=A) m !! dName d)) ∧
  entriesOf s' = Some (setStored (<[ dName d := c ]> (stored m)) m).

(** The outcome of a handler that puts the configurer of the body into the store. *)
Definition putOutcome (absent : bool) (body : option (Definition_ A)) (s : Service) (r : res Z (Definition_ A)) (s' : Service) : Prop :=
  match r with
  | Ok d' => ∃ d c, putMade absent body d c s s' ∧ d' = FromConfigurer c ∧ GetStore (dName d) s' = Ok d'
  | Err code => code ∈ [400; 404; 409; 500] ∧
      (entriesOf s' = entriesOf s ∨ code = 500 ∧ ∃ d c, putMade absent body d c s s') ∧
      (code = 409 → absent = true ∧ ∃ d, body = Some d ∧ is_Some (inStore s (dName d))) ∧
      (code = 404 → storeSource s = None ∨ absent = false ∧ ∃ d, body = Some d ∧ inStore s (dName d) = None)
  end.

Lemma put_bad absent body s : putOutcome absent body s (Err 400) s.
Proof. split_and!; try done; [set_solver|by left]. Qed.

(** A change whose specification puts [c] under its name. *)
Lemma put_settles (absent : bool) body urlName (d : Definition_ A) c op s :
  reach s → orderOk (walked e) → opTyped op → body = Some d → ToConfigurer d = Ok c → cfgName c = dName d → dName d ≠ EmptyString →
  (∀ m m' : baseSource, spec op m = Ok m' → (if absent then stored (A:=A) m !! dName d = None else is_Some (stored (A:=A) m !! dName d)) ∧
     m' = setStored (<[ dName d := c ]> (stored m)) m) →
  (∀ (m : baseSource) (x : Source.error), spec op m = Err x → storeError op x = ErrConflict → absent = true ∧ is_Some (stored (A:=A) m !! dName d)) →
  (∀ (m : baseSource) (x : Source.error), spec op m = Err x → storeError op x = ErrNotFound → absent = false ∧ stored (A:=A) m !! dName d = None) →
  let '(r, s') := match storePut e urlName (dName d) op s with
    | (Err er, s) => (Err (toHTTPError er), s) | (Ok x, s) => (Ok (FromConfigurer x), s) end in
  putOutcome absent body s r s'.
Proof.
  intros Hr Ho Hty Hb Hc Hn Hne Hok Hcf Hnf. unfold storePut.
  assert (Hmade : ∀ m m' s', entriesOf s = Some m → entriesOf s' = Some m' → spec op m = Ok m' → putMade absent body d c s s').
  { intros m m' s' Hm1 Hm2 [Hpre ->]%Hok. split_and!; [done..|]. by exists m. }
  destruct (apiOf urlName op s) as [[[]|er] s'] eqn:Ha.
  - destruct (storeAPI_accepted urlName op s s' Hr Ho Hty Ha) as (st & st' & Hs1 & Hs2 & Hs3).
    assert (putMade absent body d c s s') as Hm by (apply (Hmade (mem st) (mem st')); unfold entriesOf; rewrite ?Hs1, ?Hs2; done).
    destruct Hm as (_ & _ & m & Hm1 & Hm2 & Hm3). pose proof (put_lookup _ _ _ _ Hm3) as Hl. rewrite Hl.
    exists d, c. split; [by split_and!; [..|exists m]|]. split; [done|].
    unfold GetStore, storeGet. rewrite !decide_False by done. unfold inStore in Hl. rewrite Hs2 in *. simpl in Hl. by rewrite Hl.
  - apply storeAPI_refused in Ha as [[Hm Hcase]|(H5 & m & m' & Hm1 & Hm2 & Hm3)].
    2:{ rewrite H5. split_and!; [set_solver|right; split; [done|]; exists d, c; by eapply Hmade|done|done]. }
    unfold putOutcome. split_and!.
    + destruct er; simpl; set_solver.
    + by left.
    + intros H4. destruct Hcase as [H5|[-> |[[-> _]|(st & x & Hs & -> & Hx)]]]; [lia|done..|].
      destruct (Hcf _ _ Hx) as [-> ?]; [by destruct (storeError op x)|]. split; [done|]. exists d. split; [done|]. unfold inStore. by rewrite Hs.
    + intros H4. destruct Hcase as [H5|[-> |[[-> ?]|(st & x & Hs & -> & Hx)]]]; [lia|done|by left|].
      destruct (Hnf _ _ Hx) as [-> ?].
      { pose proof (storeError_plain op x). by destruct (storeError op x). }
      right. split; [done|]. exists d. split; [done|]. unfold inStore. by rewrite Hs.
Qed.

(** A validated body gives a typed configurer of its name. *)
Lemma body_configurer p u (d : Definition_ A) : blocksTyped d → Validate p u d = Ok () →
  ∃ c, ToConfigurer d = Ok c ∧ cfgName c = dName d ∧ baseType c = kind c ∧ dName d ≠ EmptyString ∧ (u = true → p ≠ EmptyString → p = dName d).
Proof.
  intros Hty Hv. destruct (Validate_ok p u d Hv) as (Hn & Hp & c & Ha & Hc). unfold ToConfigurer. rewrite Ha.
  exists (rename (dName d) (dType d) c). rewrite name_rename, type_rename, kind_rename, (Hty _ _ Hc). split_and!; try done.
  intros E. by rewrite E in Hn.
Qed.

Lemma create_outcome body s :
  reach s → orderOk (walked e) → (∀ d, body = Some d → blocksTyped d) →
  let '(r, s') := CreateStore e body s in putOutcome true body s r s'.
Proof.
  intros Hr Ho Hty. unfold CreateStore. destruct body as [d|]; [|apply put_bad].
  destruct (Validate EmptyString false d) as [[]|] eqn:Hv; [|destruct (ToConfigurer d); apply put_bad].
  destruct (body_configurer _ _ d (Hty d eq_refl) Hv) as (c & Hc & Hn & Hk & Hne & _). rewrite Hc, Hn.
  apply (put_settles true (Some d) None d c); try done; [by apply addOp_typed|..].
  - intros m m' Hs. rewrite <- Hn. by apply addOp_spec.
  - intros m x Hs Hx. apply addOp_conflict in Hx as ->. rewrite <- Hn. split; [done|]. by apply addOp_exists.
  - intros m x Hs Hx. by apply addOp_noNotFound in Hx.
Qed.

Lemma update_outcome name body s :
  reach s → orderOk (walked e) → (∀ d, body = Some d → blocksTyped d) →
  let '(r, s') := UpdateStore e name body s in
  putOutcome false body s r s' ∧ (is_Ok r → ∀ d, body = Some d → dName d = name).
Proof.
  intros Hr Ho Hty. unfold UpdateStore. case_decide as He; [split; [apply put_bad|by intros []]|].
  destruct body as [d|]; [|split; [apply put_bad|by intros []]].
  destruct (Validate name true d) as [[]|] eqn:Hv; [|destruct (ToConfigurer d); (split; [apply put_bad|by intros []])].
  destruct (body_configurer _ _ d (Hty d eq_refl) Hv) as (c & Hc & Hn & Hk & Hne & Hname). rewrite Hc.
  specialize (Hname eq_refl He) as ->.
  pose proof (put_settles false (Some d) (Some (dName d)) d c (updateOp c) s Hr Ho (proj2 (updateOp_typed c) Hk) eq_refl Hc Hn Hne) as Hp.
  destruct (storePut _ _ _ _ _) as [[x|er] s']; (split; [apply Hp|by intros _ ? [= <-]]).
  1,4: intros m m' Hs; rewrite <- Hn; by apply updateOp_spec.
  1,3: intros m x' Hs Hx; by apply updateOp_noConflict in Hx.
  all: intros m x' Hs Hx; apply updateOp_notFound in Hx as ->; rewrite <- Hn; split; [done|]; by apply updateOp_missing.
Qed.

(** The entry [name] is removed, all other entries, of both kinds, stay. *)
Definition removeMade (name : string) (s s' : Service) : Prop :=
  ∃ m, entriesOf s = Some m ∧ is_Some (stored (A:=A) m !! name) ∧ entriesOf s' = Some (setStored (A:=A) (delete name (stored m)) m).

Definition removeOutcome (name : string) (s : Service) (r : res Z unit) (s' : Service) : Prop :=
  match r with
  | Ok _ => removeMade name s s' ∧ GetStore name s' = Err 404
  | Err code => code ∈ [400; 404; 409; 500] ∧ (entriesOf s' = entriesOf s ∨ code = 500 ∧ removeMade name s s') ∧
      (code = 404 → inStore s name = None)
  end.

Lemma delete_outcome name s :
  reach s → orderOk (walked e) → let '(r, s') := DeleteStore e name s in removeOutcome name s r s'.
Proof.
  intros Hr Ho. unfold DeleteStore, removeOutcome. case_decide as He; [split_and!; try done; [set_solver|by left]|].
  assert (Hmade : ∀ m m' s', entriesOf s = Some m → entriesOf s' = Some m' → spec (removeOp name) m = Ok m' → removeMade name s s').
  { intros m m' s' Hm1 Hm2 Hm3. destruct (removeOp_spec _ _ _ Hm3) as [Hpre ->]. by exists m. }
  destruct (apiOf None (removeOp name) s) as [[[]|er] s'] eqn:Ha.
  - destruct (storeAPI_accepted None (removeOp name) s s' Hr Ho (removeOp_typed name) Ha) as (st & st' & Hs1 & Hs2 & Hs3).
    split; [apply (Hmade (mem st) (mem st')); unfold entriesOf; rewrite ?Hs1, ?Hs2; done|].
    destruct (removeOp_spec _ _ _ Hs3) as [_ Hpost]. unfold GetStore, storeGet. rewrite Hs2, Hpost, stored_set.
    by rewrite !decide_False, lookup_delete_eq by done.
  - apply storeAPI_refused in Ha as [[Hm Hcase]|(H5 & m & m' & Hm1 & Hm2 & Hm3)].
    2:{ rewrite H5. split_and!; [set_solver|right; split; [done|]; by eapply Hmade|done]. }
    split_and!.
    + destruct er; simpl; set_solver.
    + by left.
    + intros H4. destruct Hcase as [H5|[-> |[[-> Hs]|(st & x & Hs & -> & Hx)]]]; [lia|done|unfold inStore; by rewrite Hs|].
      assert (x = Source.ErrNotFound) as ->.
      { apply (removeOp_notFound (A := A) name). pose proof (storeError_plain (A := A) (removeOp name) x). by destruct (storeError _ x). }
      unfold inStore. rewrite Hs. simpl. by apply removeOp_missing.
Qed.

(** C28: the store API answers truthfully.  A creation succeeds only for a new name
    and an update only for an existing one, under that name; then the store has
    the configurer of the request there and every other entry, of proxies and of
    visitors, as before, and the answer is what a following read returns.  A
    deletion succeeds only for an existing name, removes that entry and no other,
    and then a read is not found.  With the statuses 400, 404 and 409 the store is
    unchanged; 409 means that the name exists, 404 that the entry or the store does
    not.  With 500 the store is unchanged or has exactly the requested change,
    which was made and could not be applied. *)
Theorem store_api_truthful name body s :
  reach s → orderOk (walked e) → (∀ d, body = Some d → blocksTyped d) →
  (let '(r, s') := CreateStore e body s in putOutcome true body s r s') ∧
  (let '(r, s') := UpdateStore e name body s in
   putOutcome false body s r s' ∧ (is_Ok r → ∀ d, body = Some d → dName d = name)) ∧
  (let '(r, s') := DeleteStore e name s in removeOutcome name s r s').
Proof. intros Hr Ho Hty. split_and!; [by apply create_outcome|by apply update_outcome|by apply delete_outcome]. Qed.
End api.

(** The handlers of proxies and of visitors. *)
Definition ProxyDefinition : Type := Definition_ ProxyConfigurer.
Definition VisitorDefinition : Type := Definition_ VisitorConfigurer.
Definition CreateStoreProxy `{Json} : Env → option ProxyDefinition → Service → _ := CreateStore.
Definition CreateStoreVisitor `{Json} : Env → option VisitorDefinition → Service → _ := CreateStore.
Definition UpdateStoreProxy `{Json} : Env → string → option ProxyDefinition → Service → _ := UpdateStore.
Definition UpdateStoreVisitor `{Json} : Env → string → option VisitorDefinition → Service → _ := UpdateStore.
Definition DeleteStoreProxy `{Json} : Env → string → Service → _ := DeleteStore (A := ProxyConfigurer).
Definition DeleteStoreVisitor `{Json} : Env → string → Service → _ := DeleteStore (A := VisitorConfigurer).
Definition GetStoreProxy : string → Service → res Z ProxyDefinition := GetStore.
Definition GetStoreVisitor : string → Service → res Z VisitorDefinition := GetStore.
Definition ListStoreProxies : order → Service → res Z (list ProxyDefinition) := ListStore.
Definition ListStoreVisitors : order → Service → res Z (list VisitorDefinition) := ListStore.
Definition ValidateVisitor : string → bool → VisitorDefinition → res defError unit := Validate.
Definition ToVisitorConfigurer : VisitorDefinition → res defError VisitorConfigurer := ToConfigurer.
Definition VisitorDefinitionFromConfigurer : VisitorConfigurer → VisitorDefinition := FromConfigurer.
Definition activeVisitorBlock : VisitorDefinition → option VisitorConfigurer * string * nat := activeBlock.
Definition storePutVisitor `{Json} : Env → option string → string → Source.op → Service → res error VisitorConfigurer * Service := storePut.
Definition storeGetVisitor : string → Service → res error VisitorConfigurer := storeGet.

Lemma definition_roundtrip_witness :
  Validate "ssh" true (FromConfigurer (demoProxy "ssh" true)) = Ok () ∧ ToConfigurer (FromConfigurer (demoProxy "ssh" true)) = Ok (demoProxy "ssh" true).
Proof. destruct (proj1 (definition_roundtrip (A := ProxyConfigurer)) (demoProxy "ssh" true)) as (_ & H1 & H2); [reflexivity|discriminate|]. exact (conj H1 H2). Defined.

(** A proxy is created through the API of a client that is logged in. *)
Definition demoEnv : Env := mkEnv demoCommon [] None (λ _, []) (demoIO true) demoOrder (λ _, true).
Definition demoBody : Definition_ ProxyConfigurer := FromConfigurer (demoProxy "ssh" true).

Lemma store_api_truthful_witness :
  let '(r, s') := CreateStore (H1 := demoJson) demoEnv (Some demoBody) demoOpen in
  r = Ok demoBody ∧ putOutcome true (Some demoBody) demoOpen r s'.
Proof.
  destruct (CreateStore (H1 := demoJson) demoEnv (Some demoBody) demoOpen) as [r s'] eqn:E. split.
  - change r with (r, s').1. rewrite <- E. vm_compute. reflexivity.
  - pose proof (store_api_truthful (H1 := demoJson) demoEnv "ssh" (Some demoBody) demoOpen demoOpen_reachable demoOrder_ok) as H.
    rewrite E in H. apply H. intros d [= <-] t c. unfold demoBody. simpl. intros [<- <-]%lookup_singleton_Some. reflexivity.
Defined.

End AdminAPI.
