(* ===== verification/Bootstrap.v ===== *)
(** * The start of a connection: [server/service.go], [client/control_session.go]

    A client opens its control connection with the magic of wire protocol v2, a
    hello frame and the login message; the server answers with its own hello
    and, once the login is handled, with the response.  The hellos select cipher
    and packet codec, and their transcript is bound into the cipher.  A
    connection is the list of bytes still to be read, together with the bytes
    written to it; deadlines are left out.  JSON of the hellos, the v1 codec and
    SHA-256 are arguments. *)
From S2P Require Import Prelude Bytes Wire Messages.

Module Bootstrap.
Import Wire.

(** ** Crypto contexts: [pkg/proto/wire/crypto.go] *)

Record CryptoContext := mkCrypto { cAlgorithm : string; TranscriptHash : bytes }.

(** [encoding/json] on the hellos. *)
Class HelloJson := {
  marshalClientHello : ClientHello → option bytes;
  unmarshalClientHello : bytes → option ClientHello;
  marshalServerHello : ServerHello → option bytes;
  unmarshalServerHello : bytes → option ServerHello }.

(** Decoding gives back what was encoded. *)
Class HelloJsonOk `{HelloJson} := {
  client_json h b : marshalClientHello h = Some b → unmarshalClientHello b = Some h;
  server_json h b : marshalServerHello h = Some b → unmarshalServerHello b = Some h }.

Inductive error :=
| EWire (e : Wire.error) | EMsg (e : Messages.error) | EHello (e : hello_error)
| EDecodeHello | EEncodeHello | EFrameType (t : Z) | EServer (text : string) | EV1.

Section bootstrap.
Context `{HelloJson}.
Variable sha256 : bytes → bytes.
(** Messages with their v2 encoding, and the v1 codec on a stream. *)
Context {M : Type} (typeOf : M → option Messages.MsgType).
Context (marshal : M → option bytes) (unmarshal : Messages.MsgType → bytes → option M).
Context (writeV1 : M → option bytes) (readV1 : bytes → option (M * bytes)).

Definition NewCryptoContext (algorithm : string) (clientHelloPayload serverHelloPayload : bytes) : CryptoContext :=
  mkCrypto algorithm (HashCryptoTranscript sha256 clientHelloPayload serverHelloPayload).

Definition NewClientCryptoContext (clientHelloPayload serverHelloPayload : bytes) : res error CryptoContext :=
  match unmarshalClientHello clientHelloPayload with
  | None => Err EDecodeHello
  | Some clientHello =>
      match unmarshalServerHello serverHelloPayload with
      | None => Err EDecodeHello
      | Some serverHello =>
          match ValidateServerHelloForClient clientHello serverHello with
          | Err e => Err (EHello e)
          | Ok _ => Ok (NewCryptoContext (Algorithm (SelCrypto serverHello)) clientHelloPayload serverHelloPayload)
          end
      end
  end.

Definition DefaultServerHello (e : string) : ServerHello := mkServerHello (mkMsgSel MessageCodecJSON "") (mkCryptoSel "" []) e.

Definition liftW {A} (r : res Wire.error A) : res error A := match r with Ok a => Ok a | Err e => Err (EWire e) end.
Definition liftM {A} (r : res Messages.error A) : res error A := match r with Ok a => Ok a | Err e => Err (EMsg e) end.

(** ** The server: [acceptConnection] *)

Record acceptedConnection := mkAccepted {
  acWireProtocol : string; clientHelloPresent : bool; acUDPPacketCodec : string; cryptoContext : option CryptoContext;
  firstMsg : M; unread : bytes }.

(** [handleClientHello]: the negotiated context and codec, and what was written;
    [errorText] is the text of an error, writes to the connection succeed. *)
Definition handleClientHello (random : option bytes) (errorText : hello_error → string) (frame : Frame)
    : res error (CryptoContext * string) * bytes :=
  match unmarshalClientHello (Payload frame) with
  | None => (Err EDecodeHello, [])
  | Some hello =>
      match NewServerHello random hello with
      | Err e =>
          match marshalServerHello (DefaultServerHello (errorText e)) with
          | None => (Err (EHello e), [])
          | Some p => (Err (EHello e), match WriteFrame (NewConn []) (mkFrame FrameTypeServerHello 0 p) with Ok b => b | Err _ => [] end)
          end
      | Ok serverHello =>
          match marshalServerHello serverHello with
          | None => (Err EEncodeHello, [])
          | Some p =>
              match WriteFrame (NewConn []) (mkFrame FrameTypeServerHello 0 p) with
              | Err e => (Err (EWire e), [])
              | Ok b => (Ok (NewCryptoContext (Algorithm (SelCrypto serverHello)) (Payload frame) p,
                             UDPPacketCodec (SelMessage serverHello)), b)
              end
          end
      end
  end.

Definition readFirstV2Msg (random : option bytes) (errorText : hello_error → string) (conn : bytes)
    : res error acceptedConnection * bytes :=
  match ReadFrame (NewConn conn) with
  | Err e => (Err (EWire e), [])
  | Ok (frame, c) =>
      if decide (Type_ frame = FrameTypeClientHello) then
        match handleClientHello random errorText frame with
        | (Err e, out) => (Err e, out)
        | (Ok (crypto, codec), out) =>
            match ReadFrame c with
            | Err e => (Err (EWire e), out)
            | Ok (frame, c) =>
                (let? m := liftM (Messages.DecodeV2MessageFrame unmarshal frame) in
                 Ok (mkAccepted ProtocolV2 true codec (Some crypto) m (input c)), out)
            end
        end
      else (let? m := liftM (Messages.DecodeV2MessageFrame unmarshal frame) in
            Ok (mkAccepted ProtocolV2 false "" None m (input c)), [])
  end.

Definition acceptConnection (random : option bytes) (errorText : hello_error → string) (conn : bytes)
    : res error acceptedConnection * bytes :=
  match CheckMagic conn with
  | Err e => (Err (EWire e), [])
  | Ok (conn, true) => readFirstV2Msg random errorText conn
  | Ok (conn, false) =>
      match readV1 conn with
      | None => (Err EV1, [])
      | Some (m, rest) => (Ok (mkAccepted ProtocolV1 false "" None m rest), [])
      end
  end.

(** ** The client: [exchangeLogin] *)

(** What is written before the client reads, and the payload of its hello. *)
Definition exchangeWrite (wireProtocol : string) (fast : bool) (random : option bytes) (bootstrap : BootstrapInfo) (loginMsg : M)
    : res error (bytes * option bytes) :=
  if decide (wireProtocol = ProtocolV2) then
    match NewClientHello fast random bootstrap with
    | Err e => Err (EHello e)
    | Ok hello =>
        match marshalClientHello hello with
        | None => Err EEncodeHello
        | Some payload =>
            let? f := liftW (WriteFrame (NewConn []) (mkFrame FrameTypeClientHello 0 payload)) in
            let? l := liftM (Messages.V2WriteMsg typeOf marshal (NewConn []) (Some loginMsg)) in
            Ok (MagicV2 ++ f ++ l, Some payload)
        end
    end
  else match writeV1 loginMsg with None => Err EV1 | Some b => Ok (b, None) end.

Record loginExchangeResult := mkExchange { resp : M; crypto : option CryptoContext; udpPacketCodec : string }.

(** What is read afterwards: the hello of the server and the login response. *)
Definition exchangeRead (clientHelloPayload : option bytes) (conn : bytes) : res error (loginExchangeResult * bytes) :=
  match clientHelloPayload with
  | None => match readV1 conn with None => Err EV1 | Some (m, rest) => Ok (mkExchange m None "", rest) end
  | Some payload =>
      let? (frame, c) := liftW (ReadFrame (NewConn conn)) in
      if decide (Type_ frame ≠ FrameTypeServerHello) then Err (EFrameType (Type_ frame))
      else match unmarshalServerHello (Payload frame) with
      | None => Err EDecodeHello
      | Some serverHello =>
          if decide (Error serverHello ≠ EmptyString) then Err (EServer (Error serverHello))
          else
            let? cc := NewClientCryptoContext payload (Payload frame) in
            let? (f, c) := liftW (ReadFrame c) in
            let? m := liftM (Messages.DecodeV2MessageFrameInto unmarshal f (Messages.PointerTo (Some Messages.LoginResp))) in
            Ok (mkExchange m (Some cc) (UDPPacketCodec (SelMessage serverHello)), input c)
      end
  end.
End bootstrap.

(** ** Lemmas *)

Lemma CheckMagic_magic conn : CheckMagic (MagicV2 ++ conn) = Ok (conn, true).
Proof. unfold CheckMagic. rewrite ReadFull_app. by rewrite decide_True. Qed.

Lemma CheckMagic_other b conn :
  (length MagicV2 ≤ length b)%nat → take (length MagicV2) b ≠ MagicV2 → CheckMagic (b ++ conn) = Ok (b ++ conn, false).
Proof.
  intros Hl Hm. unfold CheckMagic, ReadFull. rewrite decide_True by (rewrite length_app; lia).
  rewrite take_app_le by done. by rewrite decide_False.
Qed.

Lemma frame_read f b conn :
  0 ≤ Type_ f < 2 ^ 16 → WriteFrame (NewConn []) f = Ok b → ReadFrame (NewConn (b ++ conn)) = Ok (f, NewConn conn).
Proof.
  intros Ht Hw. assert (Hok : frame_ok (NewConn []) f).
  { unfold WriteFrame in Hw. repeat case_decide; try done. split_and!; try done; lia. }
  destruct (frame_written (NewConn []) f conn Hok) as (b' & Hw' & Hr); [done|]. rewrite Hw in Hw'. by injection Hw' as <-.
Qed.

Lemma frame_writable t p : 0 ≤ t < 2 ^ 16 → Z.of_nat (length p) ≤ DefaultMaxFramePayloadSize →
  ∃ b, WriteFrame (NewConn []) (mkFrame t 0 p) = Ok b.
Proof. intros Ht Hp. destruct (frame_written (NewConn []) (mkFrame t 0 p) []) as (b & Hb & _); [done|done|]. eauto. Qed.

Section proofs.
Context {M : Type} (typeOf : M → option Messages.MsgType).
Context (marshal : M → option bytes) (unmarshal : Messages.MsgType → bytes → option M).

(** A message that JSON gives back. *)
Definition msgOk (t : Messages.MsgType) (m : M) : Prop :=
  typeOf m = Some t ∧ ∃ content, marshal m = Some content ∧ unmarshal t content = Some m.

Lemma message_read t m b conn :
  msgOk t m → Messages.V2WriteMsg typeOf marshal (NewConn []) (Some m) = Ok b →
  ∃ f, ReadFrame (NewConn (b ++ conn)) = Ok (f, NewConn conn) ∧ Type_ f = FrameTypeMessage ∧
    Messages.DecodeV2MessageFrame unmarshal f = Ok m ∧ Messages.DecodeV2MessageFrameInto unmarshal f (Messages.PointerTo (Some t)) = Ok m.
Proof.
  intros (Ht & content & Hm & Hu). unfold Messages.V2WriteMsg, Messages.EncodeV2MessageFrame. rewrite Ht, Hm; simpl.
  destruct (Messages.typeID_known t) as [id Hid]. rewrite Hid. pose proof (Messages.typeID_range _ _ Hid) as Hr. simpl.
  destruct (WriteFrame _ _) as [b'|] eqn:Hw; [|done]. simpl. intros [= ->].
  exists (mkFrame FrameTypeMessage 0 (PutUint16 id ++ content)). split_and!; [by apply frame_read|done|..].
  - unfold Messages.DecodeV2MessageFrame; cbn [Type_ Payload].
    rewrite Messages.typeIDOf_put, Messages.drop_put, Messages.length_put by done.
    rewrite (decide_False (P := _ ≠ _)) by tauto. rewrite decide_False by lia. by rewrite (Messages.typeID_inverse t), Hu.
  - unfold Messages.DecodeV2MessageFrameInto; cbn [Type_ Payload].
    rewrite Messages.typeIDOf_put, Messages.drop_put, Messages.length_put, Hid by done.
    rewrite (decide_False (P := _ ≠ _)) by tauto. rewrite decide_False by lia. rewrite (decide_False (P := _ ≠ _)) by tauto. by rewrite Hu.
Qed.

(** What the server answers to the hello of this client. *)
Definition serverAnswer (fast : bool) (random : bytes) : ServerHello :=
  mkServerHello (mkMsgSel MessageCodecJSON UDPPacketCodecBinary)
    (mkCryptoSel (if fast then AEADAlgorithmAES256GCM else AEADAlgorithmXChaCha20Poly1305) random) "".

Lemma answer fast bi cr sr : length cr = CryptoRandomSize →
  NewServerHello (Some sr) (clientHelloWithCryptoRandom fast bi cr) = Ok (serverAnswer fast sr).
Proof.
  intros Hl. unfold NewServerHello, ValidateClientHello, ValidateCryptoCapabilities; simpl. rewrite decide_False by auto. by destruct fast.
Qed.

(** ** Properties *)

Context {hj : HelloJson} {hjo : HelloJsonOk} (sha256 : bytes → bytes) (writeV1 : M → option bytes) (readV1 : bytes → option (M * bytes)).

(** C13: the bootstrap of a v2 connection is correct from end to end.  From the
    bytes the client sends the server gets the login message and nothing more,
    and the bytes it answers with give the client the login response; both sides
    end with the same cipher, transcript hash and packet codec, the cipher the
    client prefers. *)
Theorem login_bootstrap fast cr sr bi login sent payload more errorText p response rb rest :
  length cr = CryptoRandomSize → length sr = CryptoRandomSize →
  msgOk Messages.Login login → msgOk Messages.LoginResp response →
  exchangeWrite typeOf marshal writeV1 ProtocolV2 fast (Some cr) bi login = Ok (sent, payload) →
  marshalServerHello (serverAnswer fast sr) = Some p → Z.of_nat (length p) ≤ DefaultMaxFramePayloadSize →
  Messages.V2WriteMsg typeOf marshal (NewConn []) (Some response) = Ok rb →
  ∃ cc out,
    acceptConnection sha256 unmarshal readV1 (Some sr) errorText (sent ++ more) =
      (Ok (mkAccepted ProtocolV2 true UDPPacketCodecBinary (Some cc) login more), out) ∧
    exchangeRead sha256 unmarshal readV1 payload (out ++ rb ++ rest) = Ok (mkExchange response (Some cc) UDPPacketCodecBinary, rest) ∧
    head (PreferredAEADAlgorithms fast) = Some (cAlgorithm cc).
Proof using hjo.
  intros Hcr Hsr Hlogin Hresp Hw Hp Hsize Hrb. unfold exchangeWrite in Hw. rewrite decide_True in Hw by done. cbn [NewClientHello] in Hw.
  set (ch := clientHelloWithCryptoRandom fast bi cr) in *. destruct (marshalClientHello ch) as [pay|] eqn:Hpay; [|done].
  destruct (WriteFrame (NewConn []) (mkFrame FrameTypeClientHello 0 pay)) as [hb|] eqn:Hhb; [|done]. cbn [liftW] in Hw.
  destruct (Messages.V2WriteMsg typeOf marshal (NewConn []) (Some login)) as [lb|] eqn:Hlb; [|done]. cbn [liftM] in Hw.
  assert (sent = MagicV2 ++ hb ++ lb ∧ payload = Some pay) as [-> ->] by (split; congruence). clear Hw.
  destruct (frame_writable FrameTypeServerHello p) as [ob Hob]; [done|done|].
  destruct (message_read _ _ _ more Hlogin Hlb) as (lf & Hlf & _ & Hld & _).
  destruct (message_read _ _ _ rest Hresp Hrb) as (rf & Hrf & _ & _ & Hrd).
  exists (NewCryptoContext sha256 (if fast then AEADAlgorithmAES256GCM else AEADAlgorithmXChaCha20Poly1305) pay p), ob. split_and!.
  - unfold acceptConnection. rewrite <-!app_assoc, CheckMagic_magic. unfold readFirstV2Msg.
    rewrite (frame_read (mkFrame FrameTypeClientHello 0 pay) hb) by done. cbn [Type_]. rewrite decide_True by done. unfold handleClientHello. cbn [Payload].
    rewrite (client_json _ _ Hpay). unfold ch. rewrite answer by done. rewrite Hp, Hob. cbn [SelCrypto SelMessage Algorithm UDPPacketCodec serverAnswer].
    rewrite Hlf. cbn [input NewConn]. by rewrite Hld.
  - unfold exchangeRead. rewrite (frame_read (mkFrame FrameTypeServerHello 0 p) ob) by done. cbn [liftW Type_ Payload]. rewrite decide_False by auto.
    rewrite (server_json _ _ Hp). cbn [Error serverAnswer]. rewrite decide_False by auto.
    unfold NewClientCryptoContext. rewrite (client_json _ _ Hpay), (server_json _ _ Hp).
    destruct (server_hello_accepted sr ch (serverAnswer fast sr)) as [-> _]; [by apply answer|done|]. cbn [liftW].
    rewrite Hrf. cbn [liftW]. by rewrite Hrd.
  - by destruct fast.
Qed.

(** a hello the server cannot accept is refused before any message is read,
    and the client that sent it gets the server's reason. *)
Theorem refused_hello_reported sr hello e pay hb p errorText more rest :
  ValidateClientHello hello = Err e → errorText e ≠ EmptyString →
  marshalClientHello hello = Some pay → WriteFrame (NewConn []) (mkFrame FrameTypeClientHello 0 pay) = Ok hb →
  marshalServerHello (DefaultServerHello (errorText e)) = Some p → Z.of_nat (length p) ≤ DefaultMaxFramePayloadSize →
  ∃ out, acceptConnection sha256 unmarshal readV1 sr errorText (MagicV2 ++ hb ++ more) = (Err (EHello e), out) ∧
    exchangeRead sha256 unmarshal readV1 (Some pay) (out ++ rest) = Err (EServer (errorText e)).
Proof using hjo.
  intros He Ht Hpay Hhb Hp Hsize. destruct (frame_writable FrameTypeServerHello p) as [ob Hob]; [done|done|]. exists ob. split.
  - unfold acceptConnection. rewrite CheckMagic_magic. unfold readFirstV2Msg. rewrite (frame_read (mkFrame FrameTypeClientHello 0 pay) hb) by done. cbn [Type_].
    rewrite decide_True by done. unfold handleClientHello. cbn [Payload]. rewrite (client_json _ _ Hpay).
    unfold NewServerHello. rewrite He. by rewrite Hp, Hob.
  - unfold exchangeRead. rewrite (frame_read (mkFrame FrameTypeServerHello 0 p) ob) by done. cbn [liftW Type_ Payload]. rewrite decide_False by auto.
    rewrite (server_json _ _ Hp). cbn [Error DefaultServerHello]. by rewrite decide_True.
Qed.

(** A v1 connection is recognised and keeps every byte. *)
Lemma v1_accepted b m more sr errorText :
  (length MagicV2 ≤ length b)%nat → take (length MagicV2) b ≠ MagicV2 → readV1 (b ++ more) = Some (m, more) →
  acceptConnection sha256 unmarshal readV1 sr errorText (b ++ more) = (Ok (mkAccepted ProtocolV1 false "" None m more), []).
Proof. intros Hl Hm Hr. unfold acceptConnection. by rewrite CheckMagic_other, Hr. Qed.
End proofs.

(** ** Concrete runs *)

#[local] Instance BootstrapInfo_eq_dec : EqDecision BootstrapInfo. Proof. solve_decision. Defined.
#[local] Instance MessageCapabilities_eq_dec : EqDecision MessageCapabilities. Proof. solve_decision. Defined.
#[local] Instance CryptoCapabilities_eq_dec : EqDecision CryptoCapabilities. Proof. solve_decision. Defined.
#[local] Instance ClientHello_eq_dec : EqDecision ClientHello. Proof. solve_decision. Defined.
#[local] Instance MessageSelection_eq_dec : EqDecision MessageSelection. Proof. solve_decision. Defined.
#[local] Instance CryptoSelection_eq_dec : EqDecision CryptoSelection. Proof. solve_decision. Defined.
#[local] Instance ServerHello_eq_dec : EqDecision ServerHello. Proof. solve_decision. Defined.

(** A codec for two client hellos, one of them without ciphers, and the answers. *)
Definition demoBad : ClientHello := mkClientHello (mkBootstrap "tcp" true true) (mkMsgCaps [MessageCodecJSON] []) (mkCryptoCaps [] (replicate 32 x07)).
Definition demoAnswer : ServerHello := serverAnswer false (replicate 32 x09).
Definition demoRefusal : ServerHello := DefaultServerHello "no cipher".

Definition demoHellos : HelloJson := {|
  marshalClientHello h := if decide (h = demoHello) then Some [x01] else if decide (h = demoBad) then Some [x02] else None;
  unmarshalClientHello b := if decide (b = [x01]) then Some demoHello else if decide (b = [x02]) then Some demoBad else None;
  marshalServerHello h := if decide (h = demoAnswer) then Some [x03] else if decide (h = demoRefusal) then Some [x04] else None;
  unmarshalServerHello b := if decide (b = [x03]) then Some demoAnswer else if decide (b = [x04]) then Some demoRefusal else None |}.

Lemma demoHellos_ok : @HelloJsonOk demoHellos.
Proof.
  split; simpl; intros h b.
  - destruct (decide (h = demoHello)) as [->|]; [intros [= <-]; by rewrite decide_True|].
    destruct (decide (h = demoBad)) as [->|]; [|done]. intros [= <-]. by rewrite decide_False, decide_True.
  - destruct (decide (h = demoAnswer)) as [->|]; [intros [= <-]; by rewrite decide_True|].
    destruct (decide (h = demoRefusal)) as [->|]; [|done]. intros [= <-]. by rewrite decide_False, decide_True.
Qed.

(** Two messages, [true] the login and [false] its response, without a body. *)
Definition demoTypes (b : bool) : option Messages.MsgType := Some (if b then Messages.Login else Messages.LoginResp).
Definition demoUnmarshal (t : Messages.MsgType) (_ : bytes) : option bool := Some (match t with Messages.Login => true | _ => false end).
Definition demoWrite (b : bool) : bytes := [x00; x10; x00; x00; x00; x00; x00; x02; x00; if b then x01 else x02].

Lemma login_bootstrap_witness :
  ∃ cc out,
    @acceptConnection demoHellos id bool demoUnmarshal (λ _, None) (Some (replicate 32 x09)) (λ _, EmptyString)
      ((MagicV2 ++ [x00; x01; x00; x00; x00; x00; x00; x01; x01] ++ demoWrite true) ++ [xff]) =
      (Ok (mkAccepted ProtocolV2 true UDPPacketCodecBinary (Some cc) true [xff]), out) ∧
    @exchangeRead demoHellos id bool demoUnmarshal (λ _, None) (Some [x01]) (out ++ demoWrite false ++ [xee]) =
      Ok (mkExchange false (Some cc) UDPPacketCodecBinary, [xee]) ∧
    head (PreferredAEADAlgorithms false) = Some (cAlgorithm cc).
Proof.
  apply (@login_bootstrap bool demoTypes (λ _, Some []) demoUnmarshal demoHellos demoHellos_ok id (λ _, None) (λ _, None) false
    (replicate 32 x07) (replicate 32 x09) (mkBootstrap "tcp" true true) true
    (MagicV2 ++ [x00; x01; x00; x00; x00; x00; x00; x01; x01] ++ demoWrite true) (Some [x01]) [xff] (λ _, EmptyString) [x03]
    false (demoWrite false) [xee]).
  - reflexivity.
  - reflexivity.
  - split; [reflexivity|]. exists []. split; reflexivity.
  - split; [reflexivity|]. exists []. split; reflexivity.
  - vm_compute. reflexivity.
  - vm_compute. reflexivity.
  - vm_compute. discriminate.
  - vm_compute. reflexivity.
Defined.

Lemma refused_hello_reported_witness :
  ∃ out, @acceptConnection demoHellos id bool demoUnmarshal (λ _, None) None (λ _, "no cipher"%string)
      (MagicV2 ++ [x00; x01; x00; x00; x00; x00; x00; x01; x02] ++ [xff]) = (Err (EHello ErrNoAlgorithm), out) ∧
    @exchangeRead demoHellos id bool demoUnmarshal (λ _, None) (Some [x02]) (out ++ []) = Err (EServer "no cipher").
Proof.
  apply (@refused_hello_reported bool demoUnmarshal demoHellos demoHellos_ok id (λ _, None) None demoBad ErrNoAlgorithm [x02]
    [x00; x01; x00; x00; x00; x00; x00; x01; x02] [x04] (λ _, "no cipher"%string) [xff] []);
    try (vm_compute; reflexivity); vm_compute; discriminate.
Defined.

End Bootstrap.
