(* ===== verification/UdpForward.v ===== *)
(** * UDP proxies: [pkg/proto/udp/udp.go], [server/proxy/udp.go], [client/proxy/udp.go]

    The server reads the datagrams of all users from one socket and sends them,
    with the address of the user, through one work connection; the client opens
    a socket to the local service for every user, and whatever the service
    answers there goes back to the server with the address of the user, who gets
    it from the first socket.  Everything runs in goroutines joined by channels:
    the components are states with functions for the turns of the goroutines, and
    a step relation interleaves them.  The codec of the work connection is in
    [UdpBinary] and [Messages]; here it carries packets. *)
From S2P Require Import Prelude Bytes UdpBinary.

(** ** [Forwarder]: sessions of the users at the client *)

Module Forwarder.
Import UdpBinary.

Section forwarder.
(** [String] of an address that may be nil, [BuildProxyProtocolHeader] for the
    service of the proxy, and the configured version of the proxy protocol. *)
Context (addrString : option UDPAddr → string).
Context (header : option UDPAddr → option bytes) (proxyProtocolVersion : string).

Definition NewUDPPacket (buf : bytes) (laddr raddr : option UDPAddr) : UDPPacket := mkUDPPacket buf laddr raddr.

(** Where [writerFn] of a socket is: not started yet, reading, and in its
    deferred function before the entry is deleted and before the socket is closed. *)
Inductive phase := Starting | Reading | Removing | Closing | Gone.
#[global] Instance phase_eq_dec : EqDecision phase. Proof. solve_decision. Defined.

(** A socket to the service, with the user it is for.  [inputs] are the packets
    whose datagrams [written] were written there, [received] what was read. *)
Record socket := mkSocket {
  raddr : option UDPAddr; opened : bool; at_ : phase;
  inputs : list UDPPacket; written : list bytes; received : list bytes }.

(** [pending] is the packet the reading goroutine has looked up and not written
    yet, with the socket and whether it was found. *)
Record forwarder := mkForwarder {
  udpConnMap : gmap string nat; sockets : list socket; pending : option (UDPPacket * nat * bool) }.

Definition newForwarder : forwarder := mkForwarder ∅ [] None.

Definition key (m : UDPPacket) : string := addrString (RemoteAddr m).
Definition user (s : socket) : string := addrString (raddr s).

Definition setSocket (i : nat) (s : socket) (f : forwarder) : forwarder :=
  mkForwarder (udpConnMap f) (<[ i := s ]> (sockets f)) (pending f).
Definition setPhase (p : phase) (s : socket) : socket :=
  mkSocket (raddr s) (opened s) p (inputs s) (written s) (received s).

(** The locked part of a turn of the goroutine that reads [readCh]: find or dial. *)
Definition lookupConn (dialed : bool) (m : UDPPacket) (f : forwarder) : option forwarder :=
  match pending f with
  | Some _ => None
  | None =>
      Some match udpConnMap f !! key m with
      | Some s => mkForwarder (udpConnMap f) (sockets f) (Some (m, s, true))
      | None =>
          if dialed then
            mkForwarder (<[ key m := length (sockets f) ]> (udpConnMap f))
              (sockets f ++ [mkSocket (RemoteAddr m) true Starting [] [] []]) (Some (m, length (sockets f), false))
          else f
      end
  end.

(** The datagram of a packet: the first of a new socket gets the header. *)
Definition datagram (ok : bool) (m : UDPPacket) : bytes :=
  if negb ok && negb (bool_decide (proxyProtocolVersion = EmptyString)) && bool_decide (is_Some (RemoteAddr m))
  then match header (RemoteAddr m) with Some pp => pp ++ Content m | None => Content m end
  else Content m.

(** The rest of the turn: write, close the socket when that fails, and start
    [writerFn] of a new socket. *)
Definition writeConn (success : bool) (f : forwarder) : option forwarder :=
  match pending f with
  | None => None
  | Some (m, i, ok) =>
      match sockets f !! i with
      | None => None
      | Some s =>
          let s := if success && opened s
                   then mkSocket (raddr s) (opened s) (at_ s) (inputs s ++ [m]) (written s ++ [datagram ok m]) (received s)
                   else mkSocket (raddr s) false (at_ s) (inputs s) (written s) (received s) in
          let s := if ok then s else setPhase Reading s in
          Some (mkForwarder (udpConnMap f) (<[ i := s ]> (sockets f)) None)
      end
  end.

(** Turns of [writerFn]: a datagram is read, and the packet to send; a failed
    read or a closed channel ends the loop; then the deferred function. *)
Definition readReply (bufSize : nat) (i : nat) (data : bytes) (f : forwarder) : option (forwarder * UDPPacket) :=
  match sockets f !! i with
  | Some s =>
      if bool_decide (at_ s = Reading) && opened s then
        let n := take bufSize data in
        Some (setSocket i (mkSocket (raddr s) (opened s) (at_ s) (inputs s) (written s) (received s ++ [n])) f,
              NewUDPPacket n None (raddr s))
      else None
  | None => None
  end.

Definition advance (p q : phase) (i : nat) (f : forwarder) : option forwarder :=
  match sockets f !! i with
  | Some s => if decide (at_ s = p) then Some (setSocket i (setPhase q s) f) else None
  | None => None
  end.

Definition endWriter : nat → forwarder → option forwarder := advance Reading Removing.

Definition removeEntry (i : nat) (f : forwarder) : option forwarder :=
  match sockets f !! i with
  | Some s =>
      if decide (at_ s = Removing)
      then Some (mkForwarder (delete (user s) (udpConnMap f)) (<[ i := setPhase Closing s ]> (sockets f)) (pending f))
      else None
  | None => None
  end.

Definition closeConn (i : nat) (f : forwarder) : option forwarder :=
  match sockets f !! i with
  | Some s =>
      if decide (at_ s = Closing)
      then Some (setSocket i (mkSocket (raddr s) false Gone (inputs s) (written s) (received s)) f)
      else None
  | None => None
  end.

(** All turns, with the packet they send. *)
Inductive fstep (bufSize : nat) (f : forwarder) : forwarder → Prop :=
| f_lookup dialed m f' : lookupConn dialed m f = Some f' → fstep bufSize f f'
| f_write success f' : writeConn success f = Some f' → fstep bufSize f f'
| f_reply i data f' m : readReply bufSize i data f = Some (f', m) → fstep bufSize f f'
| f_end i f' : endWriter i f = Some f' → fstep bufSize f f'
| f_remove i f' : removeEntry i f = Some f' → fstep bufSize f f'
| f_close i f' : closeConn i f = Some f' → fstep bufSize f f'.

(** *** The sessions *)

Definition inTable (p : phase) : Prop := p = Starting ∨ p = Reading ∨ p = Removing.
#[global] Instance inTable_dec p : Decision (inTable p). Proof. unfold inTable. apply _. Defined.

(** What a socket has got: packets of its user only, the first with the header. *)
Definition socket_ok (s : socket) : Prop :=
  Forall (λ m, key m = user s) (inputs s) ∧
  written s = match inputs s with [] => [] | m :: ms => datagram false m :: (Content <$> ms) end ∧
  (at_ s = Starting → inputs s = [] ∧ opened s = true) ∧ (at_ s = Gone → opened s = false) ∧
  (opened s = true → at_ s ≠ Starting → inputs s ≠ []).

Record sessions (f : forwarder) : Prop := {
  table_owned k i : udpConnMap f !! k = Some i ↔ ∃ s, sockets f !! i = Some s ∧ user s = k ∧ inTable (at_ s);
  sockets_fine : Forall socket_ok (sockets f);
  pending_owned m i ok : pending f = Some (m, i, ok) → ∃ s, sockets f !! i = Some s ∧ key m = user s ∧ (ok = false ↔ at_ s = Starting);
  starting_pending i s : sockets f !! i = Some s → at_ s = Starting → ∃ m, pending f = Some (m, i, false) }.

Lemma sessions_new : sessions newForwarder.
Proof. split; simpl; [|constructor|done|]; intros; [|by rewrite lookup_nil in *]. rewrite lookup_empty. split; [done|]. by intros (s & Hs & _). Qed.

(** A socket changes and keeps its user and its place in the table. *)
Lemma sessions_update f i s s' : sessions f → sockets f !! i = Some s →
  raddr s' = raddr s → (inTable (at_ s') ↔ inTable (at_ s)) → (at_ s' = Starting ↔ at_ s = Starting) → socket_ok s' →
  sessions (setSocket i s' f).
Proof.
  intros [Ht Hf Hp Hs] Hi Hr Hin Hst Hok. assert (Hu : user s' = user s) by (unfold user; by rewrite Hr).
  assert (Hlen : (i < length (sockets f))%nat) by (by eapply lookup_lt_Some).
  assert (Hlk : ∀ j t', (<[ i := s' ]> (sockets f)) !! j = Some t' →
    ∃ t, sockets f !! j = Some t ∧ user t' = user t ∧ (inTable (at_ t') ↔ inTable (at_ t)) ∧ (at_ t' = Starting ↔ at_ t = Starting)).
  { intros j t' [(<- & <- & _)|[Hj Ht']]%list_lookup_insert_Some; [exists s; auto|exists t'; tauto]. }
  assert (Hback : ∀ j t, sockets f !! j = Some t → ∃ t', (<[ i := s' ]> (sockets f)) !! j = Some t' ∧
    user t' = user t ∧ (inTable (at_ t') ↔ inTable (at_ t)) ∧ (at_ t' = Starting ↔ at_ t = Starting)).
  { intros j t Hj. destruct (decide (j = i)) as [->|Hne].
    - exists s'. rewrite list_lookup_insert_eq by done. simplify_eq. auto.
    - exists t. rewrite list_lookup_insert_ne by done. tauto. }
  split; simpl.
  - intros k j. rewrite Ht. split.
    + intros (t & Hj & <- & Hpt). destruct (Hback _ _ Hj) as (t' & ? & ? & [_ ?] & _). eauto 6.
    + intros (t' & Hj & <- & Hpt). destruct (Hlk _ _ Hj) as (t & ? & ? & [? _] & _). eauto 6.
  - by apply Forall_insert.
  - intros m j ok Hpe. destruct (Hp _ _ _ Hpe) as (t & Hj & Hk & Hok'). destruct (Hback _ _ Hj) as (t' & ? & Hut & _ & Hst').
    exists t'. rewrite Hut, Hst'. done.
  - intros j t' Hj Hat. destruct (Hlk _ _ Hj) as (t & Htj & _ & _ & Hst'). apply (Hs _ _ Htj). by apply Hst'.
Qed.

Lemma sessions_pending f : sessions f → (∀ i s, sockets f !! i = Some s → at_ s ≠ Starting) →
  sessions (mkForwarder (udpConnMap f) (sockets f) None).
Proof. intros [Ht Hf Hp Hs] Hno. split; simpl; try done. intros i s Hi Hat. by destruct (Hno _ _ Hi). Qed.

Lemma socket_ok_at f i s : sessions f → sockets f !! i = Some s → socket_ok s.
Proof. intros Hf Hi. by apply (Forall_lookup_1 _ _ _ _ (sockets_fine f Hf) Hi). Qed.

Lemma socket_ok_phase s p : socket_ok s → p ≠ Starting → p ≠ Gone → at_ s ≠ Starting → socket_ok (setPhase p s).
Proof. intros (H1 & H2 & H3 & H4 & H5) Hp Hg Hs. split_and!; simpl; try done. intros; auto. Qed.

Lemma sessions_lookup d m f f' : sessions f → lookupConn d m f = Some f' → sessions f'.
Proof.
  intros Hf. pose proof Hf as [Ht Hok Hp Hs]. unfold lookupConn. destruct (pending f) eqn:Hpe; [done|]. intros [= <-].
  assert (Hno : ∀ i s, sockets f !! i = Some s → at_ s ≠ Starting) by (intros i s Hi Hat; by destruct (Hs _ _ Hi Hat)).
  destruct (udpConnMap f !! key m) as [i|] eqn:Hk.
  - pose proof Hk as (s & Hi & Hu & Hin)%Ht. split; simpl; try done.
    + intros m' i' ok [= <- <- <-]. exists s. split_and!; [done|done|]. split; [done|]. by intros ?%(Hno _ _ Hi).
    + intros j t Hj Hat. by destruct (Hno _ _ Hj).
  - destruct d; [|done]. set (n := length (sockets f)). set (s0 := mkSocket _ _ _ _ _ _).
    assert (Hn : (sockets f ++ [s0]) !! n = Some s0) by (unfold n; by rewrite lookup_app_r, Nat.sub_diag).
    assert (Hold : ∀ j t, sockets f !! j = Some t → (sockets f ++ [s0]) !! j = Some t) by (intros; by apply lookup_app_l_Some).
    assert (Hsplit : ∀ j t, (sockets f ++ [s0]) !! j = Some t → sockets f !! j = Some t ∨ j = n ∧ t = s0).
    { intros j t [Hj|[Hj Ht']]%lookup_app_Some; [by left|]. right. apply list_lookup_singleton_Some in Ht' as [? <-]. split; [unfold n; lia|done]. }
    split; simpl.
    + intros k i. rewrite lookup_insert_Some, Ht. split.
      * intros [[<- <-]|[Hne (t & Hi & Hu & Hin)]]; [exists s0; split_and!; [done|done|by left]|]. exists t. eauto.
      * intros (t & [Hi|[-> ->]]%Hsplit & Hu & Hin); [|left; split; [exact Hu|done]]. right. split; [|by exists t].
        intros Hkm. assert (udpConnMap f !! user t = Some i) by (apply Ht; by exists t). congruence.
    + apply Forall_app. split; [done|]. constructor; [|done]. by split_and!.
    + intros m' i ok [= <- <- <-]. exists s0. split_and!; done.
    + intros j t [Hj|[-> ->]]%Hsplit Hat; [by destruct (Hno _ _ Hj)|by exists m].
Qed.

Lemma sessions_write ok f f' : sessions f → writeConn ok f = Some f' → sessions f'.
Proof.
  intros Hf. unfold writeConn. destruct (pending f) as [[[m i] found]|] eqn:Hpe; [|done].
  destruct (pending_owned f Hf _ _ _ Hpe) as (s & Hi & Hk & Hst). rewrite Hi.
  pose proof (socket_ok_at _ _ _ Hf Hi) as (H1 & H2 & H3 & H4 & H5).
  set (s1 := if ok && opened s then _ else _). assert (Hs1 : raddr s1 = raddr s ∧ at_ s1 = at_ s) by (unfold s1; by destruct (ok && opened s)).
  assert (Hok1 : Forall (λ m, key m = user s) (inputs s1) ∧
    written s1 = match inputs s1 with [] => [] | m :: ms => datagram false m :: (Content <$> ms) end ∧
    (at_ s = Gone → opened s1 = false) ∧ (opened s1 = true → inputs s1 ≠ [])).
  { unfold s1. destruct ok; simpl; [|done]. destruct (opened s) eqn:Hop; simpl; [|done]. split_and!.
    - apply Forall_app; auto.
    - rewrite H2. destruct (inputs s) as [|m0 ms] eqn:Hin; simpl.
      + destruct found; [|done]. destruct (decide (at_ s = Starting)) as [Hs|Hs]; [by apply Hst in Hs|by destruct (H5 eq_refl Hs)].
      + rewrite fmap_app; simpl. destruct found; [done|]. by destruct (H3 (proj1 Hst eq_refl)) as [[=] _].
    - intros Hg. by apply H4 in Hg.
    - by destruct (inputs s). }
  destruct Hs1 as [Hr Hat]. destruct Hok1 as (K1 & K2 & K3 & K4). intros [= <-].
  set (s2 := if found then s1 else setPhase Reading s1).
  change (sessions (mkForwarder (udpConnMap (setSocket i s2 f)) (sockets (setSocket i s2 f)) None)).
  assert (Hne : at_ s2 ≠ Starting) by (unfold s2; destruct found; [rewrite Hat; by intros ?%Hst|done]).
  assert (Hu2 : user s2 = user s) by (unfold s2, user; by destruct found; simpl; rewrite Hr).
  destruct Hf as [Ht Hfine Hp Hs].
  assert (Hlk : ∀ j t, <[ i := s2 ]> (sockets f) !! j = Some t → j = i ∧ t = s2 ∨ j ≠ i ∧ sockets f !! j = Some t)
    by (intros j t [(<- & <- & _)|[? ?]]%list_lookup_insert_Some; auto).
  assert (Hlen : (i < length (sockets f))%nat) by (by eapply lookup_lt_Some).
  assert (Hin2 : inTable (at_ s2) ↔ inTable (at_ s)).
  { unfold s2. destruct found; [by rewrite Hat|]. rewrite (proj1 Hst eq_refl). unfold inTable; simpl. tauto. }
  split; simpl.
  - intros k j. rewrite Ht. split.
    + intros (t & Hj & Hu & Hin). destruct (decide (j = i)) as [->|Hji].
      * exists s2. rewrite list_lookup_insert_eq by done. simplify_eq. split_and!; [done|done|by apply Hin2].
      * exists t. by rewrite list_lookup_insert_ne.
    + intros (t & [[-> ->]|[Hji Hj]]%Hlk & Hu & Hin); [|by exists t]. exists s. split_and!; [done|congruence|by apply Hin2].
  - apply Forall_insert; [done|]. unfold s2. destruct found.
    + split_and!; [unfold user; by rewrite Hr|done|rewrite Hat; by intros ?%Hst|by rewrite Hat|auto].
    + split_and!; [unfold user; simpl; by rewrite Hr|done|done|done|simpl; auto].
  - done.
  - intros j t [[-> ->]|[Hji Hj]]%Hlk Hat'; [done|]. destruct (Hs _ _ Hj Hat'). congruence.
Qed.

Lemma sessions_reply n i d f f' m : sessions f → readReply n i d f = Some (f', m) → sessions f'.
Proof.
  intros Hf. unfold readReply. destruct (sockets f !! i) as [s|] eqn:Hi; [|done]. destruct (_ && _); [|done]. intros [= <- <-].
  eapply sessions_update; [done|done|done|done|done|]. by destruct (socket_ok_at _ _ _ Hf Hi).
Qed.

Lemma sessions_end i f f' : sessions f → endWriter i f = Some f' → sessions f'.
Proof.
  intros Hf. unfold endWriter, advance. destruct (sockets f !! i) as [s|] eqn:Hi; [|done]. case_decide as Hat; [|done]. intros [= <-].
  eapply sessions_update; [done|done|done|..]; simpl; rewrite ?Hat; [unfold inTable; tauto|split; discriminate|].
  apply socket_ok_phase; [by eapply socket_ok_at|done|done|by rewrite Hat].
Qed.

Lemma sessions_close i f f' : sessions f → closeConn i f = Some f' → sessions f'.
Proof.
  intros Hf. unfold closeConn. destruct (sockets f !! i) as [s|] eqn:Hi; [|done]. case_decide as Hat; [|done]. intros [= <-].
  eapply sessions_update; [done|done|done|..]; simpl; rewrite ?Hat.
  - unfold inTable. naive_solver.
  - split; discriminate.
  - by destruct (socket_ok_at _ _ _ Hf Hi) as (H1 & H2 & H3 & H4 & H5).
Qed.

(** The deferred function deletes the entry of its own socket. *)
Lemma sessions_remove i f f' : sessions f → removeEntry i f = Some f' → sessions f'.
Proof.
  intros Hf. pose proof Hf as [Ht Hok Hp Hs]. unfold removeEntry. destruct (sockets f !! i) as [s|] eqn:Hi; [|done]. case_decide as Hat; [|done]. intros [= <-].
  assert (Hlen : (i < length (sockets f))%nat) by (by eapply lookup_lt_Some).
  assert (Hown : udpConnMap f !! user s = Some i) by (apply Ht; exists s; rewrite Hat; unfold inTable; auto).
  split; simpl.
  - intros k j. rewrite lookup_delete_Some, Ht. split.
    + intros [Hne (t & Hj & <- & Hin)]. destruct (decide (j = i)) as [->|Hji]; [by simplify_eq|]. exists t. by rewrite list_lookup_insert_ne.
    + intros (t & [(<- & <- & _)|[Hji Hj]]%list_lookup_insert_Some & <- & Hin); [exfalso; unfold inTable in Hin; naive_solver|].
      split; [|by exists t]. intros Heq. apply Hji. assert (udpConnMap f !! user t = Some j) by (apply Ht; by exists t). congruence.
  - apply Forall_insert; [done|]. apply socket_ok_phase; [by eapply socket_ok_at|done|done|by rewrite Hat].
  - intros m j ok Hpe. destruct (Hp _ _ _ Hpe) as (t & Hj & Hk & Hst). destruct (decide (j = i)) as [->|Hji].
    + simplify_eq. exists (setPhase Closing s). rewrite list_lookup_insert_eq by done. split_and!; [done|done|]. rewrite Hst, Hat. split; discriminate.
    + exists t. by rewrite list_lookup_insert_ne.
  - intros j t [(<- & <- & _)|[Hji Hj]]%list_lookup_insert_Some Hst; [done|]. by apply (Hs _ _ Hj).
Qed.

Lemma sessions_step n f f' : sessions f → fstep n f f' → sessions f'.
Proof.
  intros Hf [d m f1 H|ok f1 H|i d f1 m H|i f1 H|i f1 H|i f1 H];
    eauto using sessions_lookup, sessions_write, sessions_reply, sessions_end, sessions_remove, sessions_close.
Qed.

Lemma sessions_reached n f : rtc (fstep n) newForwarder f → sessions f.
Proof.
  intros H. assert (Hn := sessions_new). revert Hn. induction H; [done|]. intros Hf. apply IHrtc. by eapply sessions_step.
Qed.

(** C22: the sessions of the UDP users, under every interleaving of the packets
    with the ends of the sessions.  Every entry of the table is the socket of its
    user, with a goroutine that reads it, and every such socket is in the table,
    so a user has one session at a time and a goroutine that ends removes only
    its own entry; a socket gets the packets of its user only, in order, the
    first with the proxy protocol header; and when no goroutine is left, the
    table is empty and every socket closed. *)
Theorem forwarder_sessions n f : rtc (fstep n) newForwarder f →
  (∀ k i, udpConnMap f !! k = Some i ↔ ∃ s, sockets f !! i = Some s ∧ user s = k ∧ inTable (at_ s)) ∧
  (∀ s, s ∈ sockets f → Forall (λ m, key m = user s) (inputs s) ∧
    written s = match inputs s with [] => [] | m :: ms => datagram false m :: (Content <$> ms) end) ∧
  (Forall (λ s, at_ s = Gone) (sockets f) → udpConnMap f = ∅ ∧ Forall (λ s, opened s = false) (sockets f)).
Proof.
  intros Hf%sessions_reached. pose proof (sockets_fine f Hf) as Hok. split_and!; [apply Hf|..].
  - intros s Hs. rewrite Forall_forall in Hok. by destruct (Hok s Hs) as (? & ? & _).
  - intros Hg. split.
    + apply map_eq. intros k. rewrite lookup_empty. apply eq_None_not_Some. intros [i (s & Hi & _ & Hin)%(table_owned f Hf)].
      rewrite (Forall_lookup_1 _ _ _ _ Hg Hi) in Hin. unfold inTable in Hin. naive_solver.
    + eapply Forall_impl; [exact (proj2 (Forall_and _ _) (conj Hok Hg))|]. intros s [(_ & _ & _ & Hc & _) Hs]. auto.
Qed.
End forwarder.

(** ** A concrete run *)

Definition demoAddr (n : Z) : UDPAddr := mkUDPAddr [x0a; x00; x00; x01] n [].
Definition demoString (a : option UDPAddr) : string :=
  match a with None => "<nil>" | Some a => if Port a =? 1 then "10.0.0.1:1" else "10.0.0.1:2" end.

(** A session that has ended. *)
Definition demoFwRun : option forwarder :=
  f ← lookupConn demoString true (mkUDPPacket [x68] None (Some (demoAddr 1))) newForwarder;
  f ← writeConn (λ _, None) "" true f; f ← endWriter 0 f; f ← removeEntry demoString 0 f; closeConn 0 f.
Definition demoFw : forwarder := Eval vm_compute in default newForwarder demoFwRun.

Lemma demoFw_reached : rtc (fstep demoString (λ _, None) "" 1500) newForwarder demoFw.
Proof.
  assert (H : demoFwRun = Some demoFw) by reflexivity. unfold demoFwRun in H. revert H.
  intros (f1 & H1 & (f2 & H2 & (f3 & H3 & (f4 & H4 & H5)%bind_Some)%bind_Some)%bind_Some)%bind_Some.
  eapply rtc_l; [by eapply f_lookup|]. eapply rtc_l; [by eapply f_write|]. eapply rtc_l; [by eapply f_end|].
  eapply rtc_l; [by eapply f_remove|]. eapply rtc_l; [by eapply f_close|]. apply rtc_refl.
Qed.

Lemma forwarder_sessions_witness : udpConnMap demoFw = ∅ ∧ Forall (λ s, opened s = false) (sockets demoFw).
Proof. apply (forwarder_sessions demoString (λ _, None) "" 1500 demoFw demoFw_reached). by repeat constructor. Defined.
End Forwarder.

(** ** The path of the datagrams *)

Module UdpPath.
Import UdpBinary Forwarder.

Inductive message := MPacket (m : UDPPacket) | MPing.

(** The goroutine that reads a work connection at the server: reading, telling
    the proxy that the connection is lost, ended. *)
Inductive readerPhase := RReading | RNotifying | REnded.
#[global] Instance readerPhase_eq_dec : EqDecision readerPhase. Proof. solve_decision. Defined.

Section path.
Context (addrString : option UDPAddr → string).
Context (header : option UDPAddr → option bytes) (proxyProtocolVersion : string).
(** [UDPPacketSize] of the two sides. *)
Context (serverSize clientSize : nat).

Definition chanCap : nat := 1024.

(** A work connection with the goroutines of both sides and the [Forwarder] the
    client starts for it.  [accepted] logs what the server wrote, [taken] what
    [Forwarder] took from [readCh], [returned] what the server took from the
    connection. *)
Record worker := mkWorker {
  started : bool; accepted : list UDPPacket; toClient : list UDPPacket; readCh : list UDPPacket; taken : list UDPPacket;
  fw : forwarder; sendCh : list message; toServer : list message; returned : list UDPPacket;
  chClosed : bool; sending : bool; reader : readerPhase }.

Definition newWorker : worker := mkWorker false [] [] [] [] newForwarder [] [] [] false true RReading.

(** *** [InWorkConn] at the client: the goroutines of one work connection *)

(** Data of a connection is lost when the connection is. *)
Definition connLost (w : worker) : worker :=
  mkWorker (started w) (accepted w) [] (readCh w) (taken w) (fw w) (sendCh w) [] (returned w) (chClosed w) (sending w) (reader w).

(** [workConnReaderFn]; sending to the closed channel ends it. *)
Definition clientRead (w : worker) : option worker :=
  match toClient w with
  | m :: rest =>
      if negb (started w) then None
      else if chClosed w then Some (mkWorker true (accepted w) rest (readCh w) (taken w) (fw w) (sendCh w) (toServer w) (returned w) true (sending w) (reader w))
      else if decide (length (readCh w) < chanCap)%nat
      then Some (mkWorker true (accepted w) rest (readCh w ++ [m]) (taken w) (fw w) (sendCh w) (toServer w) (returned w) false (sending w) (reader w))
      else None
  | [] => None
  end.

Definition withForwarder (f : forwarder) (w : worker) : worker :=
  mkWorker (started w) (accepted w) (toClient w) (readCh w) (taken w) f (sendCh w) (toServer w) (returned w) (chClosed w) (sending w) (reader w).

(** The goroutine of [Forwarder] takes the next packet. *)
Definition forwardTake (dialed : bool) (w : worker) : option worker :=
  match readCh w with
  | m :: rest =>
      match lookupConn addrString dialed m (fw w) with
      | Some f => Some (mkWorker (started w) (accepted w) (toClient w) rest (taken w ++ [m]) f (sendCh w) (toServer w) (returned w) (chClosed w) (sending w) (reader w))
      | None => None
      end
  | [] => None
  end.

(** A reply of the service: dropped when the channel is full, the end of the
    session when it is closed. *)
Definition forwardReply (i : nat) (data : bytes) (w : worker) : option worker :=
  match readReply clientSize i data (fw w) with
  | None => None
  | Some (f, m) =>
      if chClosed w then match endWriter i f with Some f => Some (withForwarder f w) | None => None end
      else Some (mkWorker (started w) (accepted w) (toClient w) (readCh w) (taken w) f
             (if decide (length (sendCh w) < chanCap)%nat then sendCh w ++ [MPacket m] else sendCh w)
             (toServer w) (returned w) (chClosed w) (sending w) (reader w))
  end.

(** [heartbeatFn] and [workConnSenderFn]; once a write has failed the connection
    is lost, and what is taken after that goes nowhere. *)
Definition withSend (c : list message) (out : list message) (w : worker) : worker :=
  mkWorker (started w) (accepted w) (toClient w) (readCh w) (taken w) (fw w) c out (returned w) (chClosed w) (sending w) (reader w).
Definition heartbeat (w : worker) : option worker :=
  if negb (chClosed w) && bool_decide (length (sendCh w) < chanCap)%nat then Some (withSend (sendCh w ++ [MPing]) (toServer w) w) else None.
Definition clientSend (success : bool) (w : worker) : option worker :=
  match sendCh w with
  | m :: rest => Some (withSend rest (if success then toServer w ++ [m] else toServer w) w)
  | [] => None
  end.

(** [Close] of the client's proxy closes the channels. *)
Definition closeChannels (w : worker) : worker :=
  mkWorker (started w) (accepted w) (toClient w) (readCh w) (taken w) (fw w) (sendCh w) (toServer w) (returned w) true (sending w) (reader w).
Definition startClient (w : worker) : worker :=
  mkWorker true (accepted w) (toClient w) (readCh w) (taken w) (fw w) (sendCh w) (toServer w) (returned w) (chClosed w) (sending w) (reader w).

(** Server: the sender ends when its context does or a write fails, the reader
    when a read fails. *)
Definition senderStop (w : worker) : worker :=
  mkWorker (started w) (accepted w) (toClient w) (readCh w) (taken w) (fw w) (sendCh w) (toServer w) (returned w) (chClosed w) false (reader w).
Definition setReader (r : readerPhase) (w : worker) : worker :=
  mkWorker (started w) (accepted w) (toClient w) (readCh w) (taken w) (fw w) (sendCh w) (toServer w) (returned w) (chClosed w) (sending w) r.

Inductive wstep (w : worker) : worker → Prop :=
| w_lost : wstep w (connLost w)
| w_read w' : clientRead w = Some w' → wstep w w'
| w_take dialed w' : forwardTake dialed w = Some w' → wstep w w'
| w_write success f : writeConn header proxyProtocolVersion success (fw w) = Some f → wstep w (withForwarder f w)
| w_reply i data w' : forwardReply i data w = Some w' → wstep w w'
| w_end i f : endWriter i (fw w) = Some f → wstep w (withForwarder f w)
| w_remove i f : removeEntry addrString i (fw w) = Some f → wstep w (withForwarder f w)
| w_close i f : closeConn i (fw w) = Some f → wstep w (withForwarder f w)
| w_heartbeat w' : heartbeat w = Some w' → wstep w w'
| w_send success w' : clientSend success w = Some w' → wstep w w'
| w_senderStop : wstep w (senderStop w).

(** *** The server: [UDPProxy.Run], and the client's proxy *)

(** [waiting]: the loop that starts work connections waits for the end of one.
    [current] is the work connection whose channels the client's proxy holds.
    [arrived] logs the datagrams of the users, [delivered] what was written to
    them, [trafficIn] and [trafficOut] the calls of the metrics. *)
Record path := mkPath {
  arrived : list UDPPacket; srvSend : list UDPPacket; srvRead : list UDPPacket; delivered : list UDPPacket;
  srvClosed : bool; waiting : bool; workers : list worker; current : option nat;
  trafficIn : list Z; trafficOut : list Z }.

Definition newPath : path := mkPath [] [] [] [] false false [] None [] [].

Definition setWorker (i : nat) (w : worker) (p : path) : path :=
  mkPath (arrived p) (srvSend p) (srvRead p) (delivered p) (srvClosed p) (waiting p) (<[ i := w ]> (workers p)) (current p) (trafficIn p) (trafficOut p).

Definition contentLen (m : UDPPacket) : Z := Z.of_nat (length (Content m)).

(** [ForwardUserConn]: a datagram of a user, dropped when the channel is full;
    and the goroutine that writes to the users. *)
Definition userDatagram (a : UDPAddr) (buf : bytes) (p : path) : option path :=
  if srvClosed p then None else
  let m := NewUDPPacket (take serverSize buf) None (Some a) in
  Some (mkPath (arrived p ++ [m]) (if decide (length (srvSend p) < chanCap)%nat then srvSend p ++ [m] else srvSend p) (srvRead p) (delivered p)
    (srvClosed p) (waiting p) (workers p) (current p) (trafficIn p) (trafficOut p)).

Definition writeUser (p : path) : option path :=
  match srvRead p with
  | m :: rest => Some (mkPath (arrived p) (srvSend p) rest (delivered p ++ [m]) (srvClosed p) (waiting p) (workers p) (current p) (trafficIn p) (trafficOut p))
  | [] => None
  end.

(** The loop gets a work connection and starts its goroutines; an attempt that
    fails leaves the state as it is.  The old connection is closed: its data may
    be lost, which a step of its own says. *)
Definition startWork (p : path) : option path :=
  if waiting p || srvClosed p then None
  else Some (mkPath (arrived p) (srvSend p) (srvRead p) (delivered p) (srvClosed p) true (workers p ++ [newWorker]) (current p) (trafficIn p) (trafficOut p)).

(** [workConnSenderFn] *)
Definition senderTurn (i : nat) (success : bool) (p : path) : option path :=
  match workers p !! i, srvSend p with
  | Some w, m :: rest =>
      if negb (sending w) then None
      else if success then
        Some (mkPath (arrived p) rest (srvRead p) (delivered p) (srvClosed p) (waiting p)
          (<[ i := mkWorker (started w) (accepted w ++ [m]) (toClient w ++ [m]) (readCh w) (taken w) (fw w) (sendCh w) (toServer w) (returned w) (chClosed w) true (reader w) ]> (workers p))
          (current p) (trafficIn p ++ [contentLen m]) (trafficOut p))
      else Some (mkPath (arrived p) rest (srvRead p) (delivered p) (srvClosed p) (waiting p) (<[ i := senderStop w ]> (workers p)) (current p) (trafficIn p) (trafficOut p))
  | _, _ => None
  end.

(** [workConnReaderFn] *)
Definition serverRead (i : nat) (p : path) : option path :=
  match workers p !! i with
  | Some w =>
      if decide (reader w ≠ RReading) then None else
      match toServer w with
      | [] => None
      | MPing :: rest => Some (setWorker i (withSend (sendCh w) rest w) p)
      | MPacket m :: rest =>
          if srvClosed p then Some (setWorker i (setReader REnded (withSend (sendCh w) rest w)) p)
          else if decide (length (srvRead p) < chanCap)%nat then
            Some (mkPath (arrived p) (srvSend p) (srvRead p ++ [m]) (delivered p) (srvClosed p) (waiting p)
              (<[ i := mkWorker (started w) (accepted w) (toClient w) (readCh w) (taken w) (fw w) (sendCh w) rest (returned w ++ [m]) (chClosed w) (sending w) (reader w) ]> (workers p))
              (current p) (trafficIn p) (trafficOut p ++ [contentLen m]))
          else None
      end
  | None => None
  end.

Definition readerFails (i : nat) (p : path) : option path :=
  match workers p !! i with
  | Some w => if decide (reader w = RReading) then Some (setWorker i (setReader RNotifying w) p) else None
  | None => None
  end.

(** The reader tells the loop through [checkCloseCh], which is closed with the proxy. *)
Definition notify (i : nat) (p : path) : option path :=
  match workers p !! i with
  | Some w =>
      if decide (reader w ≠ RNotifying) then None
      else if srvClosed p then Some (setWorker i (setReader REnded w) p)
      else if waiting p then
        Some (mkPath (arrived p) (srvSend p) (srvRead p) (delivered p) (srvClosed p) false (<[ i := setReader REnded w ]> (workers p)) (current p) (trafficIn p) (trafficOut p))
      else None
  | None => None
  end.

Definition closeServer (p : path) : path :=
  mkPath (arrived p) (srvSend p) (srvRead p) (delivered p) true (waiting p) (workers p) (current p) (trafficIn p) (trafficOut p).

(** The client's proxy: [Close], and [InWorkConn], which closes what belongs to
    the old connection first. *)
Definition closeClient (p : path) : path :=
  match current p with
  | Some i => match workers p !! i with Some w => setWorker i (closeChannels w) p | None => p end
  | None => p
  end.
Definition inWorkConn (i : nat) (p : path) : option path :=
  match workers p !! i with
  | Some w =>
      if started w then None else
      let p := closeClient p in
      match workers p !! i with
      | Some w => Some (mkPath (arrived p) (srvSend p) (srvRead p) (delivered p) (srvClosed p) (waiting p) (<[ i := startClient w ]> (workers p)) (Some i) (trafficIn p) (trafficOut p))
      | None => None
      end
  | None => None
  end.

Inductive pstep (p : path) : path → Prop :=
| p_user a buf p' : userDatagram a buf p = Some p' → pstep p p'
| p_writeUser p' : writeUser p = Some p' → pstep p p'
| p_start p' : startWork p = Some p' → pstep p p'
| p_sender i success p' : senderTurn i success p = Some p' → pstep p p'
| p_worker i w w' : workers p !! i = Some w → wstep w w' → pstep p (setWorker i w' p)
| p_read i p' : serverRead i p = Some p' → pstep p p'
| p_fails i p' : readerFails i p = Some p' → pstep p p'
| p_notify i p' : notify i p = Some p' → pstep p p'
| p_close : pstep p (closeServer p)
| p_closeClient : pstep p (closeClient p)
| p_in i p' : inWorkConn i p = Some p' → pstep p p'.

(** *** What holds of a work connection *)

Definition packets (l : list message) : list UDPPacket := omap (λ x, match x with MPacket m => Some m | MPing => None end) l.

(** A packet that [Forwarder] made of what it read for the user it names. *)
Definition replyOf (f : forwarder) (m : UDPPacket) : Prop :=
  ∃ s, s ∈ sockets f ∧ raddr s = RemoteAddr m ∧ Content m ∈ received s.

Definition pendingFor (i : nat) (f : forwarder) : list UDPPacket :=
  match pending f with Some (m, j, _) => if decide (j = i) then [m] else [] | None => [] end.

(** Every socket was given some of the packets [l], in their order. *)
Definition fed (l : list UDPPacket) (f : forwarder) : Prop :=
  ∀ i s, sockets f !! i = Some s → inputs s ++ pendingFor i f `sublist_of` l.

Record worker_ok (w : worker) : Prop := {
  wo_sessions : sessions addrString header proxyProtocolVersion (fw w);
  wo_taken : taken w ++ readCh w ++ toClient w `sublist_of` accepted w;
  wo_fed : fed (taken w) (fw w);
  wo_reply : Forall (replyOf (fw w)) (returned w ++ packets (toServer w) ++ packets (sendCh w)) }.

(** Sockets keep their user and what they have received. *)
Definition grows (f f' : forwarder) : Prop :=
  ∀ i s, sockets f !! i = Some s → ∃ s', sockets f' !! i = Some s' ∧ raddr s' = raddr s ∧ ∀ d, d ∈ received s → d ∈ received s'.

Lemma replyOf_grows f f' m : grows f f' → replyOf f m → replyOf f' m.
Proof.
  intros Hg (s & [i Hi]%list_elem_of_lookup & Hr & Hm). destruct (Hg _ _ Hi) as (s' & Hi' & Hr' & Hin).
  exists s'. split_and!; [by eapply list_elem_of_lookup_2|congruence|auto].
Qed.

Lemma grows_insert f i s s' m t : sockets f !! i = Some s → raddr s' = raddr s → (∀ d, d ∈ received s → d ∈ received s') →
  grows f (mkForwarder m (<[ i := s' ]> (sockets f)) t).
Proof.
  intros Hi Hr Hd j u Hj. simpl. destruct (decide (j = i)) as [->|Hne].
  - exists s'. rewrite list_lookup_insert_eq by (by eapply lookup_lt_Some). simplify_eq. auto.
  - exists u. rewrite list_lookup_insert_ne by done. auto.
Qed.

Lemma fed_insert l f i s s' m : fed l f → sockets f !! i = Some s → inputs s' = inputs s →
  fed l (mkForwarder m (<[ i := s' ]> (sockets f)) (pending f)).
Proof.
  intros Hf Hi Hin j u. simpl. intros [(<- & <- & _)|[Hji Hj]]%list_lookup_insert_Some; [|by apply Hf].
  rewrite Hin. by apply (Hf i s Hi).
Qed.

Lemma lookupConn_grows d m f f' : lookupConn addrString d m f = Some f' → grows f f'.
Proof.
  unfold lookupConn. destruct (pending f); [done|]. intros [= <-]. intros i s Hi. exists s.
  destruct (udpConnMap f !! _); [done|]. destruct d; simpl; [|done]. split_and!; [by apply lookup_app_l_Some|done|done].
Qed.

Lemma lookupConn_fed l d m f f' : fed l f → lookupConn addrString d m f = Some f' → fed (l ++ [m]) f'.
Proof.
  intros Hf. unfold lookupConn. destruct (pending f) eqn:Hp; [done|]. intros [= <-].
  assert (Hin : ∀ i s, sockets f !! i = Some s → inputs s `sublist_of` l).
  { intros i s Hi. specialize (Hf i s Hi). unfold pendingFor in Hf. by rewrite Hp, app_nil_r in Hf. }
  assert (Hno : fed (l ++ [m]) f).
  { intros i s Hi. unfold pendingFor. rewrite Hp. apply sublist_app; [by eapply Hin|apply sublist_nil_l]. }
  destruct (udpConnMap f !! _) as [k|]; [|destruct d; [|done]]; intros i s Hi; simpl in *; unfold pendingFor; simpl.
  - apply sublist_app; [by eapply Hin|]. destruct (decide _); [done|apply sublist_nil_l].
  - apply sublist_app; [|destruct (decide _); [done|apply sublist_nil_l]].
    apply lookup_app_Some in Hi as [Hi|[_ Hi]]; [by eapply Hin|]. apply list_lookup_singleton_Some in Hi as [_ <-]. apply sublist_nil_l.
Qed.

Lemma writeConn_grows ok f f' : writeConn header proxyProtocolVersion ok f = Some f' → grows f f'.
Proof.
  unfold writeConn. destruct (pending f) as [[[m i] found]|]; [|done]. destruct (sockets f !! i) as [s|] eqn:Hi; [|done]. intros [= <-].
  eapply grows_insert; [done|..]; destruct found, (ok && opened s); done.
Qed.

Lemma writeConn_fed l ok f f' : fed l f → writeConn header proxyProtocolVersion ok f = Some f' → fed l f'.
Proof.
  intros Hf. unfold writeConn. destruct (pending f) as [[[m i] found]|] eqn:Hp; [|done].
  destruct (sockets f !! i) as [s|] eqn:Hi; [|done]. intros [= <-] j t. simpl. unfold pendingFor; simpl. rewrite app_nil_r.
  intros [(<- & <- & _)|[Hne Hj]]%list_lookup_insert_Some.
  - specialize (Hf _ _ Hi). unfold pendingFor in Hf. rewrite Hp, decide_True in Hf by done.
    destruct found, (ok && opened s); simpl; try done; (etrans; [|exact Hf]; by apply sublist_inserts_r).
  - specialize (Hf _ _ Hj). etrans; [|exact Hf]. by apply sublist_inserts_r.
Qed.

Lemma readReply_effect l i d f f' m : readReply clientSize i d f = Some (f', m) →
  grows f f' ∧ (fed l f → fed l f') ∧ replyOf f' m.
Proof.
  unfold readReply. destruct (sockets f !! i) as [s|] eqn:Hi; [|done]. destruct (_ && _); [|done]. intros [= <- <-]. split_and!.
  - eapply grows_insert; [done|done|]. simpl. intros x Hx. apply elem_of_app. by left.
  - intros Hf. by eapply fed_insert.
  - eexists. simpl. split_and!; [eapply list_elem_of_lookup_2, list_lookup_insert_eq; by eapply lookup_lt_Some|done|].
    simpl. apply elem_of_app. right. by left.
Qed.

(** Turns of [writerFn] that send nothing. *)
Inductive quiet (f : forwarder) : forwarder → Prop :=
| q_end i f' : endWriter i f = Some f' → quiet f f'
| q_remove i f' : removeEntry addrString i f = Some f' → quiet f f'
| q_close i f' : closeConn i f = Some f' → quiet f f'.

Lemma quiet_effect l f f' : quiet f f' → grows f f' ∧ (fed l f → fed l f').
Proof.
  intros [i f1 H|i f1 H|i f1 H]; revert H; unfold endWriter, advance, removeEntry, closeConn, setSocket;
    (destruct (sockets f !! i) as [s|] eqn:Hi; [|done]; case_decide; [|done]; intros [= <-];
     split; [by eapply grows_insert|intros Hf; by eapply fed_insert]).
Qed.

Lemma quiet_sessions f f' : sessions addrString header proxyProtocolVersion f → quiet f f' → sessions addrString header proxyProtocolVersion f'.
Proof. intros Hf [i f1 H|i f1 H|i f1 H]; eauto using sessions_end, sessions_remove, sessions_close. Qed.

Lemma packets_app a b : packets (a ++ b) = packets a ++ packets b.
Proof. apply omap_app. Qed.

Lemma worker_ok_new : worker_ok newWorker.
Proof. split; simpl; [apply sessions_new|done| |constructor]. by intros i s. Qed.

(** The forwarder of a worker changes. *)
Lemma worker_ok_forward w f : worker_ok w → sessions addrString header proxyProtocolVersion f → fed (taken w) f → grows (fw w) f →
  worker_ok (withForwarder f w).
Proof. intros [Hs Ht Hf Hr] Hs' Hf' Hg. split; simpl; try done. eapply Forall_impl; [exact Hr|]. intros m. by apply replyOf_grows. Qed.

Lemma worker_ok_quiet w f : worker_ok w → quiet (fw w) f → worker_ok (withForwarder f w).
Proof.
  intros Hw Hq. destruct (quiet_effect (taken w) _ _ Hq) as [Hg Hfd].
  apply worker_ok_forward; [done|by eapply quiet_sessions, Hq; apply Hw|apply Hfd, Hw|done].
Qed.

Lemma worker_ok_reply i d w w' : worker_ok w → forwardReply i d w = Some w' → worker_ok w'.
Proof.
  intros Hw. unfold forwardReply. destruct (readReply _ _ _ _) as [[f m]|] eqn:Hr; [|done].
  destruct (readReply_effect (taken w) _ _ _ _ _ Hr) as (Hg & Hfd & Hm).
  pose proof (sessions_reply _ _ _ _ _ _ _ _ _ (wo_sessions w Hw) Hr) as Hse. pose proof Hw as [Hs Ht Hf Hre].
  destruct (chClosed w).
  - destruct (endWriter i f) as [f'|] eqn:He; [|done]. intros [= <-].
    destruct (quiet_effect (taken w) f f') as [Hg' Hfd']; [by eapply q_end|].
    apply worker_ok_forward; [done|exact (sessions_end _ _ _ _ _ _ Hse He)|auto|].
    intros j s Hj. destruct (Hg _ _ Hj) as (s1 & H1 & Hr1 & Hd1). destruct (Hg' _ _ H1) as (s2 & H2 & Hr2 & Hd2). exists s2. split_and!; [done|congruence|auto].
  - intros [= <-]. assert (Hall : Forall (replyOf f) (returned w ++ packets (toServer w) ++ packets (sendCh w)))
      by (eapply Forall_impl; [exact Hre|]; intros x; by apply replyOf_grows).
    split; simpl; auto. destruct (decide _); [|done]. rewrite packets_app, !app_assoc. apply Forall_app. split; [by rewrite <-app_assoc|by repeat constructor].
Qed.

Lemma worker_ok_step w w' : worker_ok w → wstep w w' → worker_ok w'.
Proof.
  intros Hw. pose proof Hw as [Hs Ht Hf Hr]. pose proof Hr as [Hr1 [Hr2 Hr3]%Forall_app]%Forall_app.
  intros [|w1 H|d w1 H|ok f H|i d w1 H|i f H|i f H|i f H|w1 H|ok w1 H|].
  - split; simpl; try done.
    + rewrite app_nil_r. etrans; [|exact Ht]. rewrite (app_assoc (taken w)). by apply sublist_inserts_r.
    + by apply Forall_app.
  - revert H. unfold clientRead. destruct (toClient w) as [|m rest] eqn:Hc; [done|]. destruct (negb _); [done|].
    destruct (chClosed w); [|destruct (decide _); [|done]]; intros [= <-]; split; simpl; try done.
    + etrans; [|exact Ht]. apply sublist_app; [done|]. apply sublist_app; [done|]. by apply sublist_cons.
    + by rewrite <-app_assoc.
  - revert H. unfold forwardTake. destruct (readCh w) as [|m rest] eqn:Hc; [done|]. destruct (lookupConn _ _ _ _) as [f|] eqn:Hl; [|done]. intros [= <-].
    split; simpl; [by eapply sessions_lookup|by rewrite <-app_assoc|by eapply lookupConn_fed|].
    eapply Forall_impl; [exact Hr|]. intros x. apply replyOf_grows. by eapply lookupConn_grows.
  - apply worker_ok_forward; [done|by eapply sessions_write|by eapply writeConn_fed|by eapply writeConn_grows].
  - by eapply worker_ok_reply.
  - apply worker_ok_quiet; [done|by eapply q_end].
  - apply worker_ok_quiet; [done|by eapply q_remove].
  - apply worker_ok_quiet; [done|by eapply q_close].
  - revert H. unfold heartbeat. destruct (_ && _); [|done]. intros [= <-]. split; simpl; try done. rewrite packets_app; simpl. by rewrite app_nil_r.
  - revert H. unfold clientSend. destruct (sendCh w) as [|m rest] eqn:Hc; [done|]. intros [= <-]. split; simpl; try done.
    apply Forall_app; split; [done|]. destruct m; simpl in Hr3; [apply Forall_cons in Hr3 as [Hm Hr3]|]; apply Forall_app;
      (split; [destruct ok; rewrite ?packets_app, ?Forall_app; try split; try done; by repeat constructor|done]).
  - by split.
Qed.

(** *** What holds of the path *)

Record path_ok (p : path) : Prop := {
  po_workers : Forall worker_ok (workers p);
  po_send : srvSend p `sublist_of` arrived p;
  po_accepted w : w ∈ workers p → accepted w ++ srvSend p `sublist_of` arrived p;
  po_once : concat (accepted <$> workers p) ++ srvSend p ⊆+ arrived p;
  po_returned : delivered p ++ srvRead p ≡ₚ concat (returned <$> workers p);
  po_in : trafficIn p ≡ₚ contentLen <$> concat (accepted <$> workers p);
  po_out : trafficOut p ≡ₚ contentLen <$> concat (returned <$> workers p);
  po_reader i w : workers p !! i = Some w → reader w ≠ REnded → waiting p = true ∧ S i = length (workers p) }.

(** A worker changes and its logs do not. *)
Lemma concat_insert_same {A} (g : worker → list A) l i w w' : l !! i = Some w → g w' = g w → concat (g <$> <[ i := w' ]> l) = concat (g <$> l).
Proof. intros Hi Hg. rewrite list_fmap_insert, Hg, list_insert_id; [done|]. by rewrite list_lookup_fmap, Hi. Qed.

Lemma concat_insert_app {A} (g : worker → list A) l i w w' x : l !! i = Some w → g w' = g w ++ [x] → concat (g <$> <[ i := w' ]> l) ≡ₚ x :: concat (g <$> l).
Proof.
  intros Hi Hg. pose proof (lookup_lt_Some _ _ _ Hi). rewrite insert_take_drop by done. rewrite <-(take_drop_middle l i w Hi) at 3.
  rewrite !fmap_app, !fmap_cons, !concat_app; simpl. rewrite Hg. solve_Permutation.
Qed.

Lemma path_ok_worker p i w w' : path_ok p → workers p !! i = Some w → worker_ok w' → accepted w' = accepted w → returned w' = returned w →
  (reader w' ≠ REnded → reader w ≠ REnded) → path_ok (setWorker i w' p).
Proof.
  intros [H1 H0 H2 H3 H4 H5 H6 H7] Hi Hok Ha Hr Hre. split; simpl.
  - by apply Forall_insert.
  - done.
  - intros u [j Hj]%list_elem_of_lookup. apply list_lookup_insert_Some in Hj as [(<- & <- & _)|[_ Hj]]; [rewrite Ha|]; apply H2; by eapply list_elem_of_lookup_2.
  - by rewrite (concat_insert_same accepted _ _ w).
  - by rewrite (concat_insert_same returned _ _ w).
  - by rewrite (concat_insert_same accepted _ _ w).
  - by rewrite (concat_insert_same returned _ _ w).
  - intros j u. rewrite length_insert. intros [(<- & <- & _)|[_ Hj]]%list_lookup_insert_Some; eauto.
Qed.

Lemma wstep_logs w w' : wstep w w' → accepted w' = accepted w ∧ returned w' = returned w ∧ reader w' = reader w.
Proof.
  intros [|w1 H|d w1 H|ok f H|i d w1 H|i f H|i f H|i f H|w1 H|ok w1 H|]; try done; revert H;
    unfold clientRead, forwardTake, forwardReply, heartbeat, clientSend; repeat (case_match; try done); intros; by simplify_eq/=.
Qed.

Lemma elem_of_insert_worker (l : list worker) i w' u : u ∈ <[ i := w' ]> l → u = w' ∨ u ∈ l.
Proof. intros [j [(_ & <- & _)|[_ Hj]]%list_lookup_insert_Some]%list_elem_of_lookup; [by left|right; by eapply list_elem_of_lookup_2]. Qed.

Lemma path_ok_sender i ok p p' : path_ok p → senderTurn i ok p = Some p' → path_ok p'.
Proof.
  intros Hp. pose proof Hp as [H1 H0 H2 H3 H4 H5 H6 H7]. unfold senderTurn. destruct (workers p !! i) as [w|] eqn:Hi; [|done].
  destruct (srvSend p) as [|m rest] eqn:Hs; [done|]. pose proof (Forall_lookup_1 _ _ _ _ H1 Hi) as [W1 W2 W3 W4].
  destruct (negb _); [done|]. destruct ok; intros [= <-].
  - set (w' := mkWorker _ _ _ _ _ _ _ _ _ _ _ _). split; simpl.
    + apply Forall_insert; [done|]. split; simpl; try done. rewrite !app_assoc, <-(app_assoc (taken w)). by apply sublist_app.
    + etrans; [|exact H0]. by apply sublist_cons.
    + assert (Hskip : ∀ u, u ∈ workers p → accepted u ++ rest `sublist_of` arrived p).
      { intros u Hu. etrans; [|by apply H2]. apply sublist_app; [done|]. by apply sublist_cons. }
      intros u [->|Hu]%elem_of_insert_worker; [|by apply Hskip]. simpl. rewrite <-app_assoc. apply H2. by eapply list_elem_of_lookup_2.
    + rewrite (concat_insert_app accepted _ _ w w' m) by done. simpl. by rewrite Permutation_middle.
    + by rewrite (concat_insert_same returned _ _ w).
    + rewrite (concat_insert_app accepted _ _ w w' m), fmap_cons, <-H5 by done. solve_Permutation.
    + by rewrite (concat_insert_same returned _ _ w).
    + intros j u. rewrite length_insert. intros [(<- & <- & _)|[_ Hj]]%list_lookup_insert_Some; [by apply (H7 i w)|by apply H7].
  - assert (Hq : path_ok (mkPath (arrived p) rest (srvRead p) (delivered p) (srvClosed p) (waiting p) (workers p) (current p) (trafficIn p) (trafficOut p))).
    { split; simpl; try done.
      - etrans; [|exact H0]. by apply sublist_cons.
      - intros u Hu. etrans; [|by apply H2]. apply sublist_app; [done|]. by apply sublist_cons.
      - etrans; [|exact H3]. apply submseteq_app; [done|]. by apply submseteq_cons. }
    by apply (path_ok_worker _ i w (senderStop w) Hq).
Qed.

Lemma path_ok_read i p p' : path_ok p → serverRead i p = Some p' → path_ok p'.
Proof.
  intros Hp. pose proof Hp as [H1 H0 H2 H3 H4 H5 H6 H7]. unfold serverRead. destruct (workers p !! i) as [w|] eqn:Hi; [|done].
  destruct (decide _) as [|Hrd]; [done|]. pose proof (Forall_lookup_1 _ _ _ _ H1 Hi) as [W1 W2 W3 W4].
  destruct (toServer w) as [|[m|] rest] eqn:Ht; [done|..].
  - pose proof W4 as [K1 [K2 K3]%Forall_app]%Forall_app. simpl in K2. apply Forall_cons in K2 as [K2 K4].
    destruct (srvClosed p).
    { intros [= <-]. apply (path_ok_worker _ i w); try done. split; simpl; try done. apply Forall_app. split; [done|]. by apply Forall_app. }
    destruct (decide _); [|done]. intros [= <-]. set (w' := mkWorker _ _ _ _ _ _ _ _ _ _ _ _). split; simpl.
    + apply Forall_insert; [done|]. split; simpl; try done. rewrite <-app_assoc. apply Forall_app. split; [done|]. constructor; [done|]. by apply Forall_app.
    + done.
    + intros u [->|Hu]%elem_of_insert_worker; [|by apply H2]. apply (H2 w). by eapply list_elem_of_lookup_2.
    + by rewrite (concat_insert_same accepted _ _ w).
    + rewrite (concat_insert_app returned _ _ w w' m), <-H4 by done. solve_Permutation.
    + by rewrite (concat_insert_same accepted _ _ w).
    + rewrite (concat_insert_app returned _ _ w w' m), fmap_cons, <-H6 by done. solve_Permutation.
    + intros j u. rewrite length_insert. intros [(<- & <- & _)|[_ Hj]]%list_lookup_insert_Some; [by apply (H7 i w)|by apply H7].
  - intros [= <-]. apply (path_ok_worker _ i w); done.
Qed.

Lemma path_ok_closeClient p : path_ok p → path_ok (closeClient p).
Proof.
  intros Hp. unfold closeClient. destruct (current p) as [i|]; [|done]. destruct (workers p !! i) as [w|] eqn:Hi; [|done].
  apply (path_ok_worker _ i w); try done. by destruct (Forall_lookup_1 _ _ _ _ (po_workers p Hp) Hi).
Qed.

Lemma path_ok_step p p' : path_ok p → pstep p p' → path_ok p'.
Proof.
  intros Hp. pose proof Hp as [H1 H0 H2 H3 H4 H5 H6 H7]. intros [a b p1 H|p1 H|p1 H|i ok p1 H|i w w' Hi H|i p1 H|i p1 H|i p1 H| | |i p1 H].
  - revert H. unfold userDatagram. destruct (srvClosed p); [done|]. intros [= <-]. set (m := NewUDPPacket _ _ _).
    split; simpl; try done.
    + destruct (decide _); [by apply sublist_app|by apply sublist_inserts_r].
    + intros w Hw. destruct (decide _); [rewrite app_assoc; apply sublist_app; [by apply H2|done]|by apply sublist_inserts_r, H2].
    + destruct (decide _); [rewrite app_assoc; by apply submseteq_app|by apply submseteq_inserts_r].
  - revert H. unfold writeUser. destruct (srvRead p) as [|m rest] eqn:Hr; [done|]. intros [= <-]. split; simpl; try done. by rewrite <-app_assoc.
  - revert H. unfold startWork. destruct (waiting p) eqn:Hw; [done|]. destruct (srvClosed p); [done|]. intros [= <-].
    split; simpl; rewrite ?fmap_app, ?concat_app; simpl; rewrite ?app_nil_r; try done.
    + apply Forall_app. split; [done|]. constructor; [apply worker_ok_new|done].
    + intros w [Hin|Hin%list_elem_of_singleton]%elem_of_app; [by apply H2|by subst w].
    + intros i w [Hi|[Hl Hi]]%lookup_app_Some Hre; [by destruct (H7 _ _ Hi Hre)|]. apply list_lookup_singleton_Some in Hi as [Hi _].
      split; [done|]. rewrite length_app; simpl. lia.
  - by eapply path_ok_sender.
  - destruct (wstep_logs _ _ H) as (Ha & Hr & Hre). apply (path_ok_worker _ i w); try done; [|by rewrite Hre].
    eapply worker_ok_step; [|done]. by eapply Forall_lookup_1.
  - by eapply path_ok_read.
  - revert H. unfold readerFails. destruct (workers p !! i) as [w|] eqn:Hi; [|done]. destruct (decide _) as [Hre|]; [|done]. intros [= <-].
    apply (path_ok_worker _ i w); try done; [by destruct (Forall_lookup_1 _ _ _ _ H1 Hi)|by rewrite Hre].
  - revert H. unfold notify. destruct (workers p !! i) as [w|] eqn:Hi; [|done]. destruct (decide _) as [|Hre]; [done|].
    assert (Hn : path_ok (setWorker i (setReader REnded w) p)) by (apply (path_ok_worker _ i w); try done; by destruct (Forall_lookup_1 _ _ _ _ H1 Hi)).
    destruct (srvClosed p); [by intros [= <-]|]. destruct (waiting p) eqn:Hw; [|done]. intros [= <-].
    destruct Hn as [N1 N0 N2 N3 N4 N5 N6 N7]. split; try done. simpl in *.
    intros j u Hj Hu. destruct (N7 _ _ Hj Hu) as [_ Hlast]. rewrite length_insert in Hlast.
    destruct (H7 i w Hi) as [_ Hlast']; [intros Hx; apply Hre; by rewrite Hx|]. assert (j = i) as -> by lia.
    rewrite list_lookup_insert_eq in Hj by (by eapply lookup_lt_Some). by simplify_eq/=.
  - by split.
  - by apply path_ok_closeClient.
  - revert H. unfold inWorkConn. destruct (workers p !! i) as [w0|]; [|done]. destruct (started w0); [done|].
    pose proof (path_ok_closeClient p Hp) as Hc. destruct (workers (closeClient p) !! i) as [w|] eqn:Hi; [|done]. intros [= <-].
    assert (Hn : path_ok (setWorker i (startClient w) (closeClient p))).
    { apply (path_ok_worker _ i w); try done. by destruct (Forall_lookup_1 _ _ _ _ (po_workers _ Hc) Hi). }
    by destruct Hn.
Qed.

Lemma path_ok_reached p : rtc pstep newPath p → path_ok p.
Proof.
  intros H. assert (Hn : path_ok newPath) by (split; simpl; try done; by intros w ?%elem_of_nil).
  revert Hn. induction H; [done|]. intros Hx. apply IHrtc. by eapply path_ok_step.
Qed.

(** C4: the users of a UDP proxy are kept apart from end to end, whatever the
    goroutines of both sides do, connections are lost or replaced and packets
    dropped.  A datagram written to a user was read by the client from a socket
    opened for that user, and all that was ever written to that socket are
    datagrams that arrived from the same user, in their order, the first one
    behind the proxy protocol header. *)
Theorem udp_users_isolated p m : rtc pstep newPath p → m ∈ delivered p →
  ∃ w s, w ∈ workers p ∧ s ∈ sockets (fw w) ∧ raddr s = RemoteAddr m ∧ Content m ∈ received s ∧
    Forall (λ x, addrString (RemoteAddr x) = addrString (RemoteAddr m)) (inputs s) ∧ inputs s `sublist_of` arrived p ∧
    written s = match inputs s with [] => [] | x :: xs => datagram header proxyProtocolVersion false x :: (Content <$> xs) end.
Proof.
  intros Hp%path_ok_reached Hm. assert (Hr : m ∈ concat (returned <$> workers p)) by (rewrite <-(po_returned p Hp); apply elem_of_app; by left).
  apply list_elem_of_In, in_concat in Hr as (l & Hl & Hml). apply list_elem_of_In, list_elem_of_fmap in Hl as (w & -> & Hw). apply list_elem_of_In in Hml.
  pose proof (proj1 (Forall_forall _ _) (po_workers p Hp) w Hw) as [Ws Wt Wf Wr].
  apply Forall_app in Wr as [Wr _]. rewrite Forall_forall in Wr. destruct (Wr m Hml) as (s & Hs & Hrs & Hc).
  pose proof (proj1 (Forall_forall _ _) (sockets_fine _ _ _ _ Ws) s Hs) as (S1 & S2 & _).
  exists w, s. split_and!; try done.
  - eapply Forall_impl; [exact S1|]. intros x Hx. rewrite <-Hrs. exact Hx.
  - apply list_elem_of_lookup in Hs as [i Hi]. specialize (Wf i s Hi). trans (taken w); [etrans; [|exact Wf]; by apply sublist_inserts_r|].
    trans (accepted w); [etrans; [|exact Wt]; by apply sublist_inserts_r|]. etrans; [|by apply (po_accepted p Hp w)]. by apply sublist_inserts_r.
Qed.

(** datagrams are accounted for.  None is sent to the client twice, what the
    users get is what the work connections returned, each once; the metrics
    count exactly the bytes written to the client and those taken for the users;
    and one work connection is read at a time, the last one started. *)
Theorem udp_accounted p : rtc pstep newPath p →
  concat (accepted <$> workers p) ++ srvSend p ⊆+ arrived p ∧
  delivered p ++ srvRead p ≡ₚ concat (returned <$> workers p) ∧
  trafficIn p ≡ₚ contentLen <$> concat (accepted <$> workers p) ∧
  trafficOut p ≡ₚ contentLen <$> (delivered p ++ srvRead p) ∧
  (∀ i w, workers p !! i = Some w → reader w ≠ REnded → waiting p = true ∧ S i = length (workers p)).
Proof.
  intros Hp%path_ok_reached. destruct Hp as [H1 H0 H2 H3 H4 H5 H6 H7]. split_and!; try done. by rewrite H4.
Qed.
End path.

(** ** A concrete run: two users, an answer for the second *)

Abbreviation demoStep := (pstep demoString (λ _, None) "" 1500 1500).
(** A turn of a goroutine of the first work connection. *)
Definition onWorker (g : worker → option worker) (p : path) : option path :=
  w ← workers p !! 0%nat; w' ← g w; Some (setWorker 0 w' p).

Lemma onWorker_step g p p' : (∀ w w', g w = Some w' → wstep demoString (λ _, None) "" 1500 w w') → onWorker g p = Some p' → demoStep p p'.
Proof. intros Hg (w & Hw & (w' & Hg' & [= <-])%bind_Some)%bind_Some. eapply p_worker; eauto. Qed.

(** The second user's datagram travels to the service and its answer back. *)
Definition demoRun : option path :=
  p ← userDatagram 1500 (demoAddr 2) [x68; x69] newPath; p ← startWork p; p ← senderTurn 0 true p; p ← inWorkConn 0 p;
  p ← onWorker clientRead p; p ← onWorker (forwardTake demoString true) p;
  p ← onWorker (λ w, f ← writeConn (λ _, None) "" true (fw w); Some (withForwarder f w)) p;
  p ← onWorker (forwardReply 1500 0 [x79; x6f]) p; p ← onWorker (clientSend true) p; p ← serverRead 0 p; writeUser p.

Lemma demoRun_steps p : demoRun = Some p → rtc demoStep newPath p.
Proof.
  unfold demoRun. intros (p1 & H1 & (p2 & H2 & (p3 & H3 & (p4 & H4 & (p5 & H5 & (p6 & H6 & (p7 & H7 & (p8 & H8 & (p9 & H9 & (p10 & H10 & H11)
    %bind_Some)%bind_Some)%bind_Some)%bind_Some)%bind_Some)%bind_Some)%bind_Some)%bind_Some)%bind_Some)%bind_Some.
  eapply rtc_l; [by eapply p_user|]. eapply rtc_l; [by eapply p_start|]. eapply rtc_l; [by eapply p_sender|]. eapply rtc_l; [by eapply p_in|].
  eapply rtc_l; [eapply onWorker_step, H5; by econstructor|]. eapply rtc_l; [eapply onWorker_step, H6; intros; by eapply w_take|].
  eapply rtc_l; [eapply onWorker_step, H7; intros w w' (f & Hf & [= <-])%bind_Some; by eapply w_write|].
  eapply rtc_l; [eapply onWorker_step, H8; intros; by eapply w_reply|]. eapply rtc_l; [eapply onWorker_step, H9; intros; by eapply w_send|].
  eapply rtc_l; [by eapply p_read|]. eapply rtc_l; [by eapply p_writeUser|]. apply rtc_refl.
Qed.

Definition demoEnd : path := Eval vm_compute in default newPath demoRun.

Lemma demo_reached : rtc demoStep newPath demoEnd.
Proof. apply demoRun_steps. by vm_compute. Qed.

Lemma udp_users_isolated_witness :
  ∃ w s, w ∈ workers demoEnd ∧ s ∈ sockets (fw w) ∧ raddr s = Some (demoAddr 2) ∧ [x79; x6f] ∈ received s ∧
    Forall (λ x, demoString (RemoteAddr x) = "10.0.0.1:2") (inputs s) ∧ inputs s `sublist_of` arrived demoEnd ∧
    written s = match inputs s with [] => [] | x :: xs => datagram (λ _, None) "" false x :: (Content <$> xs) end.
Proof. apply (udp_users_isolated demoString (λ _, None) "" 1500 1500 demoEnd (mkUDPPacket [x79; x6f] None (Some (demoAddr 2))) demo_reached). by left. Defined.

Lemma udp_accounted_witness :
  trafficIn demoEnd = [2] ∧ trafficOut demoEnd = [2] ∧ (delivered demoEnd ++ srvRead demoEnd ≡ₚ concat (returned <$> workers demoEnd)).
Proof. split_and!; [done|done|apply (udp_accounted demoString (λ _, None) "" 1500 1500 demoEnd demo_reached)]. Defined.
End UdpPath.
