(* ===== verification/HolePunch.v ===== *)
(** * Hole punching at the clients: [pkg/nathole/nathole.go], [utils.go], [discovery.go]

    Both peers of a rendezvous send authenticated datagrams with the session id
    to the candidate addresses of the other side, and the first that gets an
    answer (or, at the receiver, a question) has the hole.  This file has the
    datagrams, the waiting loop, the addresses that are tried, and what happens
    to the sockets.  JSON and HMAC are arguments, as are the outcomes of the
    network; the datagrams a socket reads are a list that ends when reading fails. *)
From S2P Require Import Prelude Bytes Chars Vhost Nathole UdpBinary Binding Rendezvous.

Module HolePunch.
Import Nathole.

(** ** Datagrams: [EncodeMessage] and [DecodeMessageInto] *)

Record NatHoleSid := mkSid { sTransactionID : string; sSid : string; sResponse : bool; sNonce : string }.
#[global] Instance NatHoleSid_eq_dec : EqDecision NatHoleSid. Proof. solve_decision. Defined.

Fixpoint noControl (s : string) : bool :=
  match s with
  | EmptyString => true
  | String c s => negb ((Z.of_nat (nat_of_ascii c) <? 32) || (Z.of_nat (nat_of_ascii c) =? 127)) && noControl s
  end.

Definition hex32 (s : string) : bool := match hexDecode s with Some b => (length b =? 32)%nat | None => false end.

(** The characters that [ContainsAny] looks for are control characters. *)
Definition validSIDMessage (m : NatHoleSid) : bool :=
  if negb (String.length (sSid m) =? 64)%nat || (String.length (sTransactionID m) <? 1)%nat || (64 <? String.length (sTransactionID m))%nat
     || negb (String.length (sNonce m) =? 64)%nat then false
  else noControl (sTransactionID m) && hex32 (sSid m) && hex32 (sNonce m)
    && bool_decide (sSid m = Vhost.ToLower (sSid m)) && bool_decide (sNonce m = Vhost.ToLower (sNonce m))
    && UdpBinary.utf8Valid (ofString (sTransactionID m)).

(** [encoding/json]: the encoding of a message; the names of the fields of an
    object, in order, when the input is one; and the strict decoder, with
    whether the input ends after the value. *)
Class SidJson := {
  marshalSid : NatHoleSid → option bytes;
  fieldNames : bytes → option (list string);
  decodeStrict : bytes → option (NatHoleSid * bool) }.

(** What [encoding/json] does with a message of valid strings. *)
Class SidJsonOk `{SidJson} := {
  sid_json m b : validSIDMessage m = true → marshalSid m = Some b →
    b ≠ [] ∧ UdpBinary.utf8Valid b = true ∧ decodeStrict b = Some (m, true) ∧ ∃ names, fieldNames b = Some names ∧ NoDup names }.

Definition sidMagic : bytes := ofString "XHD1".

Section codec.
Context `{SidJson} (hmacSum : bytes → bytes → bytes).

Definition keyOk (key : bytes) : bool := negb ((length key <? 1)%nat || (128 <? length key)%nat).

Definition EncodeMessage (m : NatHoleSid) (key : bytes) : res Binding.error bytes :=
  if negb (validSIDMessage m) || negb (keyOk key) then Err Binding.ErrBinding
  else match marshalSid m with
  | None => Err Binding.ErrBinding
  | Some body =>
      if (512 <? length body)%nat then Err Binding.ErrBinding
      else let out := sidMagic ++ PutUint16 (Z.of_nat (length body)) ++ body in Ok (out ++ hmacSum key out)
  end.

Definition DecodeMessageInto (data key : bytes) : res Binding.error NatHoleSid :=
  if negb (keyOk key) || (length data <? 39)%nat || (550 <? length data)%nat || negb (bool_decide (take 4 data = sidMagic)) then Err Binding.ErrBinding
  else
    let size := Z.to_nat (getBE (slice data 4 6)) in
    if (size <? 1)%nat || (512 <? size)%nat || negb (length data =? 6 + size + 32)%nat then Err Binding.ErrBinding
    else if negb (bool_decide (hmacSum key (take (6 + size) data) = drop (6 + size) data)) then Err Binding.ErrBinding
    else
      let body := slice data 6 (6 + size) in
      if negb (UdpBinary.utf8Valid body) then Err Binding.ErrBinding
      else match fieldNames body with
      | None => Err Binding.ErrBinding
      | Some names =>
          if negb (bool_decide (NoDup names)) then Err Binding.ErrBinding
          else match decodeStrict body with
          | Some (parsed, true) => if validSIDMessage parsed then Ok parsed else Err Binding.ErrBinding
          | _ => Err Binding.ErrBinding
          end
      end.

Lemma length_magic : length sidMagic = 4%nat. Proof. reflexivity. Qed.

Lemma EncodeMessage_Ok m key d : EncodeMessage m key = Ok d →
  validSIDMessage m = true ∧ keyOk key = true ∧ ∃ body, marshalSid m = Some body ∧ (length body ≤ 512)%nat ∧
  let out := sidMagic ++ PutUint16 (Z.of_nat (length body)) ++ body in d = out ++ hmacSum key out.
Proof.
  unfold EncodeMessage. destruct (validSIDMessage m), (keyOk key); simpl; try done. destruct (marshalSid m) as [body|]; [|done].
  destruct (Nat.ltb_spec 512 (length body)); [done|]. intros [= <-]. eauto 7.
Qed.

Context (hmac_length : ∀ k d, length (hmacSum k d) = 32%nat).

(** The decoder takes apart what was put together. *)
Lemma decode_parts key body : (1 ≤ length body ≤ 512)%nat → let out := sidMagic ++ PutUint16 (Z.of_nat (length body)) ++ body in
  let d := out ++ hmacSum key out in
  take 4 d = sidMagic ∧ length d = (6 + length body + 32)%nat ∧ Z.to_nat (getBE (slice d 4 6)) = length body ∧
  take (6 + length body) d = out ∧ drop (6 + length body) d = hmacSum key out ∧ slice d 6 (6 + length body) = body.
Proof using hmac_length.
  intros Hl out d. assert (Ho : length out = (6 + length body)%nat) by (unfold out, PutUint16; rewrite !length_app, length_putBE, length_magic; lia).
  split_and!.
  - unfold d, out. rewrite <-!app_assoc. by rewrite take_app_length'.
  - unfold d. rewrite length_app, hmac_length. lia.
  - unfold d, out. rewrite <-!app_assoc. rewrite slice_app_at by (rewrite ?length_magic; done). unfold PutUint16. rewrite getBE_putBE; lia.
  - unfold d. by rewrite take_app_length'.
  - unfold d. by rewrite drop_app_length'.
  - unfold d, out. rewrite app_assoc, <-app_assoc. apply slice_app_at; [by unfold PutUint16; rewrite length_app, length_putBE|].
    unfold PutUint16. rewrite length_app, length_putBE, length_magic. lia.
Qed.

Lemma decode_encoded_sid `{!SidJsonOk} m key d : EncodeMessage m key = Ok d → DecodeMessageInto d key = Ok m.
Proof using hmac_length.
  intros (Hv & Hk & body & Hm & Hl & ->)%EncodeMessage_Ok. destruct (sid_json _ _ Hv Hm) as (Hne & Hu & Hd & names & Hn & Hnd).
  assert (Hb : (1 ≤ length body ≤ 512)%nat) by (destruct body; [done|simpl in *; lia]).
  destruct (decode_parts key body Hb) as (P1 & P2 & P3 & P4 & P5 & P6). unfold DecodeMessageInto.
  rewrite P1, P3, P4, P5, P6, P2, Hk, Hu, Hn, Hd, Hv, !bool_decide_eq_true_2 by done. simpl negb.
  destruct (Nat.ltb_spec (6 + length body + 32) 39); [lia|]. destruct (Nat.ltb_spec 550 (6 + length body + 32)); [lia|].
  destruct (Nat.ltb_spec (length body) 1); [lia|]. destruct (Nat.ltb_spec 512 (length body)); [lia|]. by rewrite Nat.eqb_refl.
Qed.

(** datagrams of hole punching are authenticated.  What [EncodeMessage]
    makes is decoded to the same message by the holder of the key and fits a
    datagram of 550 bytes; and whatever [DecodeMessageInto] accepts is a valid
    message in a frame that ends with the HMAC of everything before it under the
    key, so that without a pair of inputs that collide under the HMAC only the
    frames the holders of the key have made are accepted. *)
Theorem sid_authenticated `{!SidJsonOk} :
  (∀ m key d, EncodeMessage m key = Ok d → DecodeMessageInto d key = Ok m ∧ (39 ≤ length d ≤ 550)%nat) ∧
  (∀ d key m, DecodeMessageInto d key = Ok m → validSIDMessage m = true ∧ keyOk key = true ∧
     ∃ body, decodeStrict body = Some (m, true) ∧
       let out := sidMagic ++ PutUint16 (Z.of_nat (length body)) ++ body in d = out ++ hmacSum key out).
Proof using hmac_length.
  split.
  - intros m key d He. split; [by apply decode_encoded_sid|]. apply EncodeMessage_Ok in He as (Hv & Hk & body & Hm & Hl & ->).
    destruct (sid_json _ _ Hv Hm) as (Hne & _). assert (Hb : (1 ≤ length body ≤ 512)%nat) by (destruct body; [done|simpl in *; lia]).
    destruct (decode_parts key body Hb) as (_ & -> & _). lia.
  - intros d key m. unfold DecodeMessageInto. destruct (keyOk key); cbn [negb orb]; [|done].
    destruct (Nat.ltb_spec (length d) 39); [done|]. destruct (Nat.ltb_spec 550 (length d)); [done|]. case_bool_decide as Hmagic; cbn [negb orb]; [|done].
    set (size := Z.to_nat _). destruct (Nat.ltb_spec size 1); [done|]. destruct (Nat.ltb_spec 512 size); [done|].
    destruct (Nat.eqb_spec (length d) (6 + size + 32)) as [Hlen|]; [|done]. cbn [negb orb]. case_bool_decide as Hmac; cbn [negb orb]; [|done].
    destruct (UdpBinary.utf8Valid _); [|done]. destruct (fieldNames _); [|done]. case_bool_decide; [|done]. cbn [negb orb].
    set (body := slice d 6 (6 + size)). destruct (decodeStrict body) as [[parsed []]|] eqn:Hd; [|done|done].
    destruct (validSIDMessage parsed) eqn:Hv; [|done]. intros [= <-]. split_and!; [done|done|]. exists body. split; [done|].
    assert (Hbl : length body = size) by (unfold body; rewrite length_slice; lia).
    assert (Hsz : PutUint16 (Z.of_nat (length body)) = slice d 4 6).
    { rewrite Hbl. unfold size. pose proof (getBE_range (slice d 4 6)). rewrite Z2Nat.id by lia. apply putBE_getBE'. rewrite length_slice; lia. }
    assert (Hout : take (6 + size) d = sidMagic ++ PutUint16 (Z.of_nat (length body)) ++ body).
    { rewrite Hsz, <-Hmagic. unfold body, slice. replace (6 + size - 6)%nat with size by lia.
      rewrite <-(take_drop 4 (take (6 + size) d)) at 1. rewrite take_take. replace (4 `min` (6 + size))%nat with 4%nat by lia. f_equal.
      rewrite <-(take_drop 2 (drop 4 (take (6 + size) d))). rewrite drop_drop, <-!take_drop_commute. f_equal.
      change (6 - 4)%nat with 2%nat. rewrite !take_drop_commute, take_take. do 2 f_equal. }
    rewrite <-Hout, Hmac. by rewrite take_drop.
Qed.

(** ** [waitDetectMessage] *)

Section wait.
Context {Addr : Type}.

Definition withResponse (m : NatHoleSid) : NatHoleSid := mkSid (sTransactionID m) (sSid m) true (sNonce m).

(** The remote address, and the datagrams written. *)
Fixpoint waitDetectMessage (sid transactionID nonce : string) (key : bytes) (role : Role) (reads : list (bytes * Addr))
    : option Addr * list (bytes * Addr) :=
  match reads with
  | [] => (None, [])
  | (data, raddr) :: rest =>
      match DecodeMessageInto (take 1024 data) key with
      | Err _ => waitDetectMessage sid transactionID nonce key role rest
      | Ok m =>
          if decide (sSid m ≠ sid) then waitDetectMessage sid transactionID nonce key role rest
          else if sResponse m && (negb (bool_decide (sTransactionID m = transactionID)) || negb (bool_decide (sNonce m = nonce)))
          then waitDetectMessage sid transactionID nonce key role rest
          else if negb (sResponse m) then
            if decide (role = DetectRoleSender) then waitDetectMessage sid transactionID nonce key role rest
            else match EncodeMessage (withResponse m) key with
                 | Err _ => waitDetectMessage sid transactionID nonce key role rest
                 | Ok buf2 => (Some raddr, [(buf2, raddr)])
                 end
          else (Some raddr, [])
      end
  end.

(** [sendSidMessage]: the datagram. *)
Definition sidDatagram (sid transactionID nonce : string) (key : bytes) : res Binding.error bytes :=
  EncodeMessage (mkSid transactionID sid false nonce) key.

(** What the loop may end with. *)
Inductive detected (sid transactionID nonce : string) (key : bytes) (role : Role) (data : bytes) (a : Addr) : list (bytes * Addr) → Prop :=
| d_answer m : DecodeMessageInto (take 1024 data) key = Ok m → sSid m = sid → sResponse m = true →
    sTransactionID m = transactionID → sNonce m = nonce → detected sid transactionID nonce key role data a []
| d_question m b : DecodeMessageInto (take 1024 data) key = Ok m → sSid m = sid → sResponse m = false → role ≠ DetectRoleSender →
    EncodeMessage (withResponse m) key = Ok b → detected sid transactionID nonce key role data a [(b, a)].

Definition ignored (sid transactionID nonce : string) (key : bytes) (role : Role) (x : bytes * Addr) : Prop :=
  ∀ out, ¬ detected sid transactionID nonce key role x.1 x.2 out.

Lemma wait_ignored sid tid nonce key role pre rest : Forall (ignored sid tid nonce key role) pre →
  waitDetectMessage sid tid nonce key role (pre ++ rest) = waitDetectMessage sid tid nonce key role rest.
Proof.
  induction 1 as [|[data a] pre Hi _ IH]; [done|]. simpl. destruct (DecodeMessageInto _ _) as [m|] eqn:Hd; [|done].
  case_decide as Hs; [done|]. destruct (sResponse m) eqn:Hr; simpl.
  - do 2 case_bool_decide; simpl; try done. destruct (Hi []). by eapply d_answer.
  - case_decide; [done|]. destruct (EncodeMessage _ _) as [b|] eqn:He; [|done]. destruct (Hi [(b, a)]). by eapply d_question.
Qed.

Lemma wait_detected sid tid nonce key role data a out rest : detected sid tid nonce key role data a out →
  waitDetectMessage sid tid nonce key role ((data, a) :: rest) = (Some a, out).
Proof.
  intros [m Hd Hs Hr Ht Hn|m b Hd Hs Hr Hro He]; simpl; rewrite Hd, (decide_False (P := sSid m ≠ sid)) by tauto; rewrite Hr; simpl.
  - by rewrite Ht, Hn, !bool_decide_eq_true_2.
  - by rewrite decide_False, He.
Qed.

Lemma wait_cases sid tid nonce key role reads :
  (waitDetectMessage sid tid nonce key role reads = (None, []) ∧ Forall (ignored sid tid nonce key role) reads) ∨
  ∃ pre data a out rest, reads = pre ++ (data, a) :: rest ∧ Forall (ignored sid tid nonce key role) pre ∧
    detected sid tid nonce key role data a out ∧ waitDetectMessage sid tid nonce key role reads = (Some a, out).
Proof.
  induction reads as [|[data a] reads IH]; [left; by split; [|constructor]|].
  assert (Hcase : ignored sid tid nonce key role (data, a) ∨ ∃ out, detected sid tid nonce key role data a out).
  { destruct (DecodeMessageInto (take 1024 data) key) as [m|] eqn:Hd;
      [|left; intros out [m Hd'|m b Hd']; simpl in *; congruence].
    destruct (decide (sSid m = sid)) as [Hs|Hs]; [|left; intros out [m' Hd' ?|m' b Hd' ?]; simpl in *; congruence].
    destruct (sResponse m) eqn:Hr.
    - destruct (decide (sTransactionID m = tid ∧ sNonce m = nonce)) as [[? ?]|Hn]; [right; exists []; by eapply d_answer|].
      left. intros out [m' Hd' _ _ ? ?|m' b Hd' _ Hr' _ _]; simpl in *; rewrite Hd in Hd'; injection Hd' as <-; [by apply Hn|congruence].
    - destruct (decide (role = DetectRoleSender)); [left; intros out [m' Hd' _ Hr' _ _|m' b Hd' _ _ Hro _]; simpl in *; rewrite Hd in Hd'; injection Hd' as <-; congruence|].
      destruct (EncodeMessage (withResponse m) key) as [b|] eqn:He; [right; exists [(b, a)]; by eapply d_question|].
      left. intros out [m' Hd' _ Hr' _ _|m' b Hd' _ _ _ He']; simpl in *; rewrite Hd in Hd'; injection Hd' as <-; congruence. }
  destruct Hcase as [Hi|[out Hdet]].
  - rewrite (wait_ignored _ _ _ _ _ [(data, a)] reads) by (by constructor).
    destruct IH as [[-> Hall]|(pre & d & b & out & rest & -> & Hp & Hdet & ->)]; [left; by split; [|constructor]|].
    right. exists ((data, a) :: pre), d, b, out, rest. split_and!; [done|by constructor|done|done].
  - right. exists [], data, a, out, reads. split_and!; [done|constructor|done|by apply wait_detected].
Qed.

(** hole punching succeeds only between holders of the key in the same
    session.  The loop returns the address of the first datagram that is
    authenticated, names the session and is either an answer to exactly this
    attempt or, at the receiver, a question, which alone is answered; everything
    before it is ignored in silence, and without such a datagram the loop fails. *)
Theorem detection_sound sid tid nonce key role reads :
  match waitDetectMessage sid tid nonce key role reads with
  | (Some a, out) => ∃ pre data rest, reads = pre ++ (data, a) :: rest ∧ Forall (ignored sid tid nonce key role) pre ∧ detected sid tid nonce key role data a out
  | (None, out) => out = [] ∧ Forall (ignored sid tid nonce key role) reads
  end.
Proof.
  destruct (wait_cases sid tid nonce key role reads) as [[-> Hall]|(pre & data & a & out & rest & Hr & Hp & Hd & ->)]; [done|]. eauto 7.
Qed.

(** the two sides of a hole find each other.  When the first relevant
    datagram the receiver reads is the sender's, it returns the sender's address
    and answers once, and with that answer as the first relevant datagram the
    sender returns the receiver's address. *)
Theorem hole_handshake `{!SidJsonOk} sid tid nonce tid' nonce' key d pre rest pre' rest' sender receiver reads :
  sidDatagram sid tid nonce key = Ok d → reads = pre ++ (d, sender) :: rest →
  Forall (ignored sid tid' nonce' key DetectRoleReceiver) pre → Forall (ignored sid tid nonce key DetectRoleSender) pre' →
  is_Ok (EncodeMessage (mkSid tid sid true nonce) key) →
  ∃ answer, waitDetectMessage sid tid' nonce' key DetectRoleReceiver reads = (Some sender, [(answer, sender)]) ∧
    waitDetectMessage sid tid nonce key DetectRoleSender (pre' ++ (answer, receiver) :: rest') = (Some receiver, []).
Proof using hmac_length.
  intros Hd -> Hp Hp' [b Hb]. exists b. unfold sidDatagram in Hd.
  assert (Hshort : ∀ m x, EncodeMessage m key = Ok x → DecodeMessageInto (take 1024 x) key = Ok m).
  { intros m x Hx. rewrite take_ge; [by apply decode_encoded_sid|]. apply EncodeMessage_Ok in Hx as (_ & _ & body & _ & Hl & ->).
    rewrite length_app, hmac_length. unfold PutUint16. rewrite !length_app, length_putBE, length_magic. lia. }
  rewrite !wait_ignored by done. split; apply wait_detected; [eapply d_question|eapply d_answer]; try (by apply Hshort); done.
Qed.
End wait.
End codec.

(** ** The addresses that are tried *)

(** [net.JoinHostPort] *)
Definition JoinHostPort (host port : chars) : chars :=
  match indexOf ":"%char host with
  | Some _ => ["["%char] ++ host ++ ["]"%char; ":"%char] ++ port
  | None => host ++ [":"%char] ++ port
  end.

(** [sendSidMessageToRangePorts], for ranges below the largest int. *)
Definition rangeAddrs (addrs : list chars) (ports : list Rendezvous.PortsRange) : list chars :=
  ip ← Rendezvous.compact (Rendezvous.parseIPs addrs); r ← ports;
  i ← seqZ (Rendezvous.From r) (Rendezvous.To r - Rendezvous.From r + 1); [JoinHostPort ip (Itoa i)].

Section random.
(** The [k]th number that [rand.IntN(65535-1024)] gives. *)
Context (IntN : nat → Z).

(** [getUnusedPort] with [n] tries left: the port, 0 without one. *)
Fixpoint getUnusedPort (n : nat) (used : gset Z) (k : nat) : Z * gset Z * nat :=
  match n with
  | O => (0, used, k)
  | S n =>
      let port := IntN k + 1024 in
      if decide (port ∈ used) then getUnusedPort n used (S k) else (port, {[port]} ∪ used, S k)
  end.

(** The ports of [sendSidMessageToRandomPorts], when nothing cancels it. *)
Fixpoint randomPorts (count : nat) (used : gset Z) (k : nat) : list Z :=
  match count with
  | O => []
  | S count =>
      let '(port, used, k) := getUnusedPort 10 used k in
      (if decide (port = 0) then [] else [port]) ++ randomPorts count used k
  end.

Definition randomAddrs (addrs : list chars) (count : Z) : list chars :=
  port ← randomPorts (Z.to_nat count) ∅ 0; ip ← Rendezvous.compact (Rendezvous.parseIPs addrs); [JoinHostPort ip (Itoa port)].

Context (IntN_range : ∀ k, 0 ≤ IntN k < 65535 - 1024).

Lemma getUnusedPort_spec n used k p used' k' : getUnusedPort n used k = (p, used', k') →
  (p = 0 ∧ used' = used) ∨ (1024 ≤ p < 65535 ∧ (p ∉ used) ∧ used' = ({[p]} ∪ used)).
Proof using IntN_range.
  revert k. induction n as [|n IH]; intros k; simpl; [intros [= <- <- <-]; auto|].
  case_decide; [apply IH|]. intros [= <- <- <-]. right. pose proof (IntN_range k). split_and!; [lia|lia|done|done].
Qed.

(** the random ports of hole punching are at most as many as asked for, all
    different, and never a well known one. *)
Theorem random_ports_distinct count used k :
  (length (randomPorts count used k) ≤ count)%nat ∧ NoDup (randomPorts count used k) ∧
  Forall (λ p, 1024 ≤ p < 65535 ∧ p ∉ used) (randomPorts count used k).
Proof using IntN_range.
  revert used k. induction count as [|count IH]; intros used k; cbn [randomPorts]; [repeat constructor|].
  destruct (getUnusedPort 10 used k) as [[p used'] k'] eqn:Hg. destruct (IH used' k') as (Hl & Hnd & Hf).
  apply getUnusedPort_spec in Hg as [[-> ->]|(Hp & Hnew & ->)]; [rewrite decide_True by done; simpl; split_and!; [lia|done|done]|].
  rewrite decide_False by lia. simpl. split_and!; [lia|..].
  - constructor; [|done]. intros Hin. rewrite Forall_forall in Hf. destruct (Hf _ Hin). set_solver.
  - constructor; [by split; [lia|]|]. eapply Forall_impl; [exact Hf|]. intros x [? ?]. split; [lia|set_solver].
Qed.
End random.

(** ** [MakeHole] *)

(** What the network and the clock do to a call. *)
Record holeEnv (Addr : Type) := mkHoleEnv {
  nonceRead : bool; cancelledInDelay : bool; listens : list bool; winner : option (nat * Addr) }.
Arguments mkHoleEnv {Addr}. Arguments nonceRead {Addr}. Arguments cancelledInDelay {Addr}. Arguments listens {Addr}. Arguments winner {Addr}.

Section hole.
Context {Addr : Type}.

(** Sockets are numbers.  [sends] are the datagrams sent before the waiting, with
    the socket and the address. *)
Record hole := mkHole { holeResult : option (nat * Addr); openedConns : list nat; closedConns : list nat; sends : list (nat * chars) }.

(** [net.ListenUDP] in a loop: the new sockets, and whether all could be opened. *)
Fixpoint listenRandom (n : nat) (results : list bool) (next : nat) : list nat * bool :=
  match n with
  | O => ([], true)
  | S n =>
      match results with
      | true :: results => let '(l, ok) := listenRandom n results (S next) in (next :: l, ok)
      | _ => ([], false)
      end
  end.

(** [winner] is the socket (by its index) that detects the peer first and the
    address it finds. *)
Definition MakeHole (e : holeEnv Addr) (listenConn next : nat) (m : Rendezvous.NatHoleResp) : hole :=
  let b := Rendezvous.DetectBehavior m in
  if negb (nonceRead e) then mkHole None [] [] []
  else if decide (Rendezvous.Role b = DetectRoleSender) then
    if (0 <? Rendezvous.SendDelayMs b) && cancelledInDelay e then mkHole None [] [] []
    else
      let detectAddrs := Rendezvous.compact (Rendezvous.AssistedAddrs m ++ Rendezvous.CandidateAddrs m) in
      mkHole (match winner e with Some (O, a) => Some (listenConn, a) | _ => None end) [] []
        (((λ a, (listenConn, a)) <$> detectAddrs) ++
         ((λ a, (listenConn, a)) <$> (if decide (Rendezvous.CandidatePorts b = []) then [] else rangeAddrs (Rendezvous.CandidateAddrs m) (Rendezvous.CandidatePorts b))))
  else
    let detectAddrs := if decide (Rendezvous.CandidatePorts b = []) then Rendezvous.compact (Rendezvous.CandidateAddrs m) else [] in
    let '(tmp, ok) := listenRandom (Z.to_nat (Rendezvous.ListenRandomPorts b)) (listens e) next in
    if negb ok then mkHole None tmp tmp []
    else
      let listenConns := listenConn :: tmp in
      let out := (a ← detectAddrs; (λ c, (c, a)) <$> listenConns) ++
                 (if decide (Rendezvous.CandidatePorts b = []) then []
                  else c ← listenConns; (λ a, (c, a)) <$> rangeAddrs (Rendezvous.CandidateAddrs m) (Rendezvous.CandidatePorts b)) in
      if decide (tmp = []) then
        mkHole (match winner e with Some (O, a) => Some (listenConn, a) | _ => None end) [] [] out
      else
        match winner e with
        | Some (i, a) =>
            match listenConns !! i with
            | Some c => mkHole (Some (c, a)) tmp (filter (λ x, x ≠ c) listenConns) out
            | None => mkHole None tmp listenConns out
            end
        | None => mkHole None tmp listenConns out
        end.

Lemma listenRandom_spec n results next l ok : listenRandom n results next = (l, ok) →
  l = seq next (length l) ∧ (length l ≤ n)%nat ∧ (ok = true → length l = n).
Proof.
  revert results next l. induction n as [|n IH]; intros results next l; simpl; [by intros [= <- <-]|].
  destruct results as [|[] results]; try (intros [= <- <-]; split_and!; [done|simpl; lia|done]).
  destruct (listenRandom n results (S next)) as [l' ok'] eqn:Hl. intros [= <- <-]. destruct (IH _ _ _ Hl) as (H1 & H2 & H3).
  simpl. split_and!; [by rewrite <-H1|lia|intros; by rewrite H3].
Qed.

Lemma elem_of_compact x l : x ∈ Rendezvous.compact l → x ∈ l.
Proof.
  induction l as [|y l IH]; [done|]. cbn [Rendezvous.compact]. destruct l as [|z l]; [done|].
  case_decide; [intros ?%IH; by right|]. intros [->|?%IH]%elem_of_cons; [left|by right].
Qed.

Lemma filter_ext_in {A} (P Q : A → Prop) `{!∀ x, Decision (P x), !∀ x, Decision (Q x)} (l : list A) :
  (∀ x, x ∈ l → P x ↔ Q x) → filter P l = filter Q l.
Proof.
  induction l as [|x l IH]; intros Heq; [done|]. rewrite !filter_cons, IH by (intros; apply Heq; by right).
  destruct (decide (P x)), (decide (Q x)); try done; exfalso; pose proof (Heq x ltac:(by left)); tauto.
Qed.

(** The sockets after a successful detection. *)
Lemma one_left (l : list nat) c : NoDup l → c ∈ l → filter (λ x, x ∉ filter (λ y, y ≠ c) l) l = [c].
Proof.
  intros Hnd Hc. assert (Hf : filter (λ x, x ∉ filter (λ y, y ≠ c) l) l = filter (λ x, x = c) l).
  { apply filter_ext_in. intros x Hx. rewrite list_elem_of_filter. destruct (decide (x = c)); naive_solver. }
  rewrite Hf. clear Hf. induction Hnd as [|x l Hx Hnd IH]; [set_solver|]. rewrite filter_cons. apply elem_of_cons in Hc as [->|Hc].
  - rewrite decide_True by done. f_equal. apply elem_of_nil_inv. intros y [-> Hy]%list_elem_of_filter. done.
  - rewrite decide_False by (intros ->; done). auto.
Qed.

Lemma none_left (l : list nat) : filter (λ x, x ∉ l) l = [].
Proof. apply elem_of_nil_inv. intros y [Hn Hy]%list_elem_of_filter. done. Qed.

Lemma MakeHole_accounts (e : holeEnv Addr) listenConn next m :
  (listenConn < next)%nat →
  let h := MakeHole e listenConn next m in
  let left := filter (λ c, c ∉ closedConns h) (listenConn :: openedConns h) in
  NoDup (listenConn :: openedConns h) ∧
  match holeResult h with
  | Some (c, _) => left = [c]
  | None => left = [listenConn] ∨ left = []
  end ∧
  Forall (λ x, x.1 ∈ listenConn :: openedConns h ∧
    (x.2 ∈ Rendezvous.CandidateAddrs m ∨ x.2 ∈ Rendezvous.AssistedAddrs m ∨
     x.2 ∈ rangeAddrs (Rendezvous.CandidateAddrs m) (Rendezvous.CandidatePorts (Rendezvous.DetectBehavior m)))) (sends h).
Proof.
  intros Hn h left.
  assert (Hone : filter (λ c, c ∉ ([] : list nat)) [listenConn] = [listenConn]) by (rewrite filter_cons_True; [done|by intros ?%elem_of_nil]).
  assert (Hsng : NoDup [listenConn]) by apply NoDup_singleton.
  unfold left, h, MakeHole. destruct (nonceRead e); cbn [negb]; [|split_and!; simpl; auto]. case_decide as Hrole.
  - destruct (_ && _); [split_and!; simpl; auto|]. simpl. split_and!; [done|destruct (winner e) as [[[] ?]|]; auto|].
    apply Forall_app. split; apply Forall_fmap, Forall_forall; intros a Ha; (split; [by left|]).
    + apply elem_of_compact, elem_of_app in Ha. tauto.
    + case_decide; [by apply elem_of_nil in Ha|auto].
  - destruct (listenRandom _ _ _) as [tmp ok] eqn:Hl. apply listenRandom_spec in Hl as (Hseq & _ & _).
    assert (Hnd : NoDup (listenConn :: tmp)).
    { constructor; [|rewrite Hseq; apply NoDup_seq]. rewrite Hseq, elem_of_seq. lia. }
    destruct ok; cbn [negb].
    2:{ split_and!; [done| |constructor]. left. simpl. rewrite filter_cons_True by (by apply NoDup_cons in Hnd as [? _]). by rewrite none_left. }
    set (out := _ ++ _). assert (Hout : Forall (λ x, x.1 ∈ listenConn :: tmp ∧
      (x.2 ∈ Rendezvous.CandidateAddrs m ∨ x.2 ∈ Rendezvous.AssistedAddrs m ∨
       x.2 ∈ rangeAddrs (Rendezvous.CandidateAddrs m) (Rendezvous.CandidatePorts (Rendezvous.DetectBehavior m)))) out).
    { apply Forall_app. split; apply Forall_forall; intros x.
      - intros (a & Hx & Ha)%list_elem_of_bind. apply list_elem_of_fmap in Hx as (c & -> & Hc). case_decide; [|by apply elem_of_nil in Ha].
        simpl. apply elem_of_compact in Ha. auto.
      - case_decide; [by intros ?%elem_of_nil|]. intros (c & Hx & Hc)%list_elem_of_bind. apply list_elem_of_fmap in Hx as (a & -> & Ha). auto. }
    case_decide as Ht; [subst tmp; simpl; split_and!; [done|destruct (winner e) as [[[] ?]|]; auto|done]|].
    destruct (winner e) as [[i a]|]; [destruct ((listenConn :: tmp) !! i) as [c|] eqn:Hc|]; cbn [openedConns closedConns holeResult sends];
      split_and!; try done; try (right; apply none_left).
    apply one_left; [done|by eapply list_elem_of_lookup_2].
Qed.

(** [MakeHole] keeps account of its sockets on every path.  With a result,
    exactly the socket it returns is left open, the given one or one of its own;
    without, everything it opened is closed, and the given socket is closed or
    left to the caller.  It sends only from its sockets to the addresses of the
    response. *)
Theorem makehole_sockets (e : holeEnv Addr) listenConn next m :
  (listenConn < next)%nat →
  let h := MakeHole e listenConn next m in
  let left := filter (λ c, c ∉ closedConns h) (listenConn :: openedConns h) in
  NoDup (listenConn :: openedConns h) ∧
  match holeResult h with
  | Some (c, _) => left = [c]
  | None => left = [listenConn] ∨ left = []
  end ∧
  Forall (λ x, x.1 ∈ listenConn :: openedConns h ∧
    (x.2 ∈ Rendezvous.CandidateAddrs m ∨ x.2 ∈ Rendezvous.AssistedAddrs m ∨
     x.2 ∈ rangeAddrs (Rendezvous.CandidateAddrs m) (Rendezvous.CandidatePorts (Rendezvous.DetectBehavior m)))) (sends h).
Proof. apply MakeHole_accounts. Qed.
End hole.

(** ** Preparation: [Discover], [Prepare], [PreCheck] and [ExchangeInfo] *)

(** [net.IP] of an interface: its text and what the filter asks for. *)
Record localIP := mkLocalIP { ipText : chars; isV4 : bool; isLoopback : bool; isLinkLocal : bool }.

Definition usable (ip : localIP) : bool := isV4 ip && negb (isLoopback ip || isLinkLocal ip).

(** The loop of [ListLocalIPsForNatHole]. *)
Fixpoint listLocal (maxItems : nat) (filtered : list chars) (ips : list localIP) : list chars :=
  match ips with
  | [] => filtered
  | ip :: ips =>
      if (maxItems <=? length filtered)%nat then filtered
      else listLocal maxItems (if usable ip then filtered ++ [ipText ip] else filtered) ips
  end.
Definition ListLocalIPsForNatHole (maxItems : Z) (all : option (list localIP)) : option (list chars) :=
  if maxItems <=? 0 then None else match all with None => None | Some ips => Some (listLocal (Z.to_nat maxItems) [] ips) end.

(** A STUN request gives the external and the other address, empty when absent. *)
Definition discoverFromStunServer (request : chars → option (chars * chars)) (addr : chars) : option (list chars) :=
  match request addr with
  | None => None
  | Some (external, other) =>
      if decide (external = []) then None
      else if decide (other = []) then Some [external]
      else match request other with
           | None => None
           | Some (external', _) => Some (external :: if decide (external' = []) then [] else [external'])
           end
  end.

Fixpoint discoverAll (request : chars → option (chars * chars)) (stunServers : list chars) : option (list chars) :=
  match stunServers with
  | [] => Some []
  | s :: ss =>
      match discoverFromStunServer request s with
      | None => None
      | Some l => match discoverAll request ss with None => None | Some l' => Some (l ++ l') end
      end
  end.

Record PrepareResult := mkPrepare { prAddrs : list chars; prAssistedAddrs : list chars; prConn : nat; prNatType : NatType; prBehavior : Behavior }.

(** What the host answers: the sockets that can be listened on, the port of the
    discovery, the interfaces, and whether the context has ended. *)
Record hostEnv := mkHost { canDiscover : bool; canListen : bool; localPort : Z; interfaces : option (list localIP); ended : bool }.

(** The result and the sockets left open. *)
Definition Prepare (h : hostEnv) (request : chars → option (chars * chars)) (stunServers : list chars) (DisableAssistedAddrs : bool) (next : nat)
    : option PrepareResult * list nat :=
  match (if canDiscover h then discoverAll request stunServers else None) with
  | None => (None, [])
  | Some addrs =>
      if (length addrs <? 2)%nat then (None, [])
      else
        let localIPs := default [] (ListLocalIPsForNatHole 10 (interfaces h)) in
        match ClassifyNATFeature addrs localIPs with
        | Err _ => (None, [])
        | Ok f =>
            if negb (canListen h) then (None, [])
            else if ended h then (None, [])
            else (Some (mkPrepare addrs (if DisableAssistedAddrs then [] else (λ ip, JoinHostPort ip (Itoa (localPort h))) <$> localIPs) next
                          (natType f) (behavior f)), [next])
        end
  end.

(** The answer of the transporter, [None] when there is none of the right type. *)
Definition PreCheck (answer : option Rendezvous.NatHoleResp) : bool :=
  match answer with None => false | Some r => bool_decide (Rendezvous.Error r = EmptyString) end.
Definition ExchangeInfo (answer : option Rendezvous.NatHoleResp) : option Rendezvous.NatHoleResp :=
  match answer with
  | None => None
  | Some r => if decide (Rendezvous.Error r ≠ EmptyString) then None else if decide (Rendezvous.CandidateAddrs r = []) then None else Some r
  end.

Lemma listLocal_spec n acc ips : (length acc ≤ n)%nat →
  (length (listLocal n acc ips) ≤ n)%nat ∧ ∃ l, listLocal n acc ips = acc ++ l ∧ l `prefix_of` (ipText <$> filter (λ ip, usable ip = true) ips).
Proof.
  revert acc. induction ips as [|ip ips IH]; intros acc Ha; cbn [listLocal].
  - split; [done|]. exists []. by rewrite app_nil_r.
  - destruct (Nat.leb_spec n (length acc)) as [Hn|Hn]; [split; [done|]; exists []; rewrite app_nil_r; split; [done|apply prefix_nil]|].
    rewrite filter_cons. destruct (usable ip) eqn:Hu.
    + destruct (IH (acc ++ [ipText ip])) as (Hl & l & Heq & Hp); [rewrite length_app; simpl; lia|]. split; [done|].
      exists (ipText ip :: l). rewrite Heq, decide_True by done. split; [by rewrite <-app_assoc|]. rewrite fmap_cons. by apply prefix_cons.
    + rewrite decide_False by done. by apply IH.
Qed.

(** what [Prepare] offers to the other side: at least two addresses that the
    STUN servers reported, the class of the NAT computed from them, and the
    first local IPv4 addresses that are neither loopback nor link-local, at most
    ten, with the port of the socket, none when assisted addresses are disabled;
    a socket is left open exactly when it succeeds. *)
Theorem prepare_offer h request servers disabled next r open_ :
  Prepare h request servers disabled next = (r, open_) →
  match r with
  | None => open_ = []
  | Some p => open_ = [prConn p] ∧ discoverAll request servers = Some (prAddrs p) ∧ (2 ≤ length (prAddrs p))%nat ∧ (length (prAssistedAddrs p) ≤ 10)%nat ∧
      (disabled = true → prAssistedAddrs p = []) ∧
      (∀ a, a ∈ prAssistedAddrs p → ∃ ips ip, interfaces h = Some ips ∧ ip ∈ ips ∧ usable ip = true ∧ a = JoinHostPort (ipText ip) (Itoa (localPort h))) ∧
      ∃ f, ClassifyNATFeature (prAddrs p) (default [] (ListLocalIPsForNatHole 10 (interfaces h))) = Ok f ∧ prNatType p = natType f ∧ prBehavior p = behavior f
  end.
Proof.
  unfold Prepare. destruct (canDiscover h); [|by intros [= <- <-]]. destruct (discoverAll request servers) as [addrs|]; [|by intros [= <- <-]].
  destruct (Nat.ltb_spec (length addrs) 2); [by intros [= <- <-]|]. set (ips := default [] _).
  destruct (ClassifyNATFeature addrs ips) as [f|] eqn:Hf; [|by intros [= <- <-]].
  destruct (canListen h); [|by intros [= <- <-]]. destruct (ended h); [by intros [= <- <-]|]. intros [= <- <-]. simpl.
  assert (Hips : (length ips ≤ 10)%nat ∧ ∀ t, t ∈ ips → ∃ all ip, interfaces h = Some all ∧ ip ∈ all ∧ usable ip = true ∧ t = ipText ip).
  { unfold ips, ListLocalIPsForNatHole. change (10 <=? 0) with false.
    destruct (interfaces h) as [all|]; cbn [default]; [|split; [simpl; lia|by intros t ?%elem_of_nil]].
    destruct (listLocal_spec (Z.to_nat 10) [] all) as (Hl & l & Heq & [k Hk]); [simpl; lia|]. unfold default, from_option, id. rewrite Heq in *. split; [done|]. intros t Ht. simpl in Ht.
    assert (Hin : t ∈ ipText <$> filter (λ ip, usable ip = true) all) by (rewrite Hk; apply elem_of_app; by left).
    apply list_elem_of_fmap in Hin as (ip & -> & [Hu Hin]%list_elem_of_filter). eauto 6. }
  split_and!; [done|done|lia|destruct disabled; simpl; [lia|rewrite length_fmap; apply Hips]|by intros ->| |eauto].
  intros a. destruct disabled; [by intros ?%elem_of_nil|]. intros (t & -> & Ht)%list_elem_of_fmap.
  destruct (proj2 Hips t Ht) as (all & ip & ? & ? & ? & ->). eauto 7.
Qed.

(** ** Concrete runs *)

Definition demoID : string := Eval vm_compute in hexEncode (replicate 32 x11).
Definition demoQuestion : NatHoleSid := mkSid "t1" demoID false demoID.
Definition demoAnswer : NatHoleSid := mkSid "t1" demoID true demoID.

Definition demoJson : SidJson := {|
  marshalSid m := if decide (m = demoQuestion) then Some [x01] else if decide (m = demoAnswer) then Some [x02] else None;
  fieldNames _ := Some [];
  decodeStrict b := if decide (b = [x01]) then Some (demoQuestion, true) else if decide (b = [x02]) then Some (demoAnswer, true) else None |}.

Lemma demoSidJson_ok : @SidJsonOk demoJson.
Proof.
  split. simpl. intros m b _. case_decide as H1; [intros [= <-]; subst m; split_and!; [done|done|done|exists []; by split; [|constructor]]|].
  case_decide; [|done]. intros [= <-]; subst m; split_and!; [done|done|done|exists []; by split; [|constructor]].
Qed.

(** A code of 32 bytes that depends on both inputs. *)
Definition demoCode (k d : bytes) : bytes := putBE 32 (getBE d + getBE k).
Lemma demoCode_length k d : length (demoCode k d) = 32%nat. Proof. apply length_putBE. Qed.

Definition demoQ : bytes := Eval vm_compute in match @EncodeMessage demoJson demoCode demoQuestion [x07] with Ok b => b | Err _ => [] end.
Definition demoR : bytes := Eval vm_compute in match @EncodeMessage demoJson demoCode demoAnswer [x07] with Ok b => b | Err _ => [] end.

Lemma sid_authenticated_witness : @DecodeMessageInto demoJson demoCode demoQ [x07] = Ok demoQuestion.
Proof. apply (proj1 (@sid_authenticated demoJson demoCode demoCode_length demoSidJson_ok) demoQuestion [x07] demoQ). by vm_compute. Defined.

(** The receiver is the peer at address 2; a datagram with a wrong code comes first. *)
Lemma hole_handshake_witness :
  ∃ answer, @waitDetectMessage demoJson demoCode nat demoID "t2" demoID [x07] DetectRoleReceiver [(demoQ ++ [x00], 9%nat); (demoQ, 1%nat)] = (Some 1%nat, [(answer, 1%nat)]) ∧
    @waitDetectMessage demoJson demoCode nat demoID "t1" demoID [x07] DetectRoleSender ([] ++ (answer, 2%nat) :: []) = (Some 2%nat, []).
Proof.
  apply (@hole_handshake demoJson demoCode demoCode_length nat demoSidJson_ok demoID "t1" demoID "t2" demoID [x07] demoQ
    [(demoQ ++ [x00], 9%nat)] [] [] [] 1%nat 2%nat).
  - by vm_compute.
  - done.
  - constructor; [|done]. intros out [m Hd|m b Hd]; vm_compute in Hd; done.
  - done.
  - exists demoR. by vm_compute.
Defined.

Lemma random_ports_distinct_witness :
  NoDup (randomPorts (λ k, Z.of_nat k mod 7) 20 ∅ 0) ∧ length (randomPorts (λ k, Z.of_nat k mod 7) 20 ∅ 0) = 7%nat.
Proof.
  split; [|by vm_compute]. refine (proj1 (proj2 (random_ports_distinct (λ k, Z.of_nat k mod 7) _ 20 ∅ 0))).
  intros k. pose proof (Z.mod_pos_bound (Z.of_nat k) 7). lia.
Defined.

(** A receiver with two sockets of its own; the second of them finds the peer. *)
Definition demoResp : Rendezvous.NatHoleResp :=
  Rendezvous.mkResp [] [] "t1" demoID "quic" [ofStr "203.0.113.9:7000"] [] (Rendezvous.mkDetect DetectRoleReceiver 2 7 0 0 [] 0 2) "".
Definition demoEnv : holeEnv nat := mkHoleEnv true false [true; true] (Some (2%nat, 5%nat)).

Lemma makehole_sockets_witness :
  holeResult (MakeHole demoEnv 0 10 demoResp) = Some (11%nat, 5%nat) ∧
  filter (λ c, c ∉ closedConns (MakeHole demoEnv 0 10 demoResp)) (0%nat :: openedConns (MakeHole demoEnv 0 10 demoResp)) = [11%nat].
Proof. split; [by vm_compute|]. refine (proj1 (proj2 (makehole_sockets demoEnv 0 10 demoResp _))). lia. Defined.

Definition demoHost : hostEnv := mkHost true true 4000 (Some [mkLocalIP (ofStr "127.0.0.1") true true false; mkLocalIP (ofStr "10.0.0.8") true false false]) false.
Definition demoStun (a : chars) : option (chars * chars) :=
  if decide (a = ofStr "stun:1") then Some (ofStr "203.0.113.9:7000", ofStr "stun:2") else Some (ofStr "203.0.113.9:7001", []).
Definition demoPrepared : option PrepareResult * list nat := Eval vm_compute in Prepare demoHost demoStun [ofStr "stun:1"] false 3.

Lemma prepare_offer_witness : match demoPrepared.1 with Some p => demoPrepared.2 = [prConn p] ∧ prAssistedAddrs p = [ofStr "10.0.0.8:4000"] | None => False end.
Proof. split; [|done]. refine (proj1 (prepare_offer demoHost demoStun [ofStr "stun:1"] false 3 demoPrepared.1 demoPrepared.2 _)). by vm_compute. Defined.
End HolePunch.
