(* ===== verification/XtcpPeer.v ===== *)
(** * The peers of a hole punching session: [client/visitor/xtcp.go], [client/proxy/xtcp.go]

    A visitor asks the server for a rendezvous, checks the manifest it gets,
    punches the hole and dials the provider over it; the provider does the same
    from the other side and waits for a peer that proves to hold the same
    manifest.  Both are functions of what the network, the clock and the other
    side do, with the requests they send and the sockets they leave open as
    results.  Signal proofs, manifests and certificates are those of [Binding],
    the messages those of [Rendezvous], the punching that of [HolePunch]. *)
From S2P Require Import Prelude Bytes Chars Nathole UdpBinary Binding Rendezvous ClientProxy HolePunch.

Module XtcpPeer.
Import Rendezvous HolePunch.

(** [xtcpbinding.Identity] without the private key. *)
Record Identity := mkIdentity { DER : bytes; SPKI : bytes; IdNonce : bytes }.

Section peers.
Context `{Lib} {Addr : Type}.

Definition PeerTLS := Binding.PeerTLS Sum256 ParseCertificate UnmarshalNames VerifyHostname CheckSignature VerifyChain.

(** The manifest in an answer of the server, when it names this session, this
    proxy and this peer. *)
Definition acceptManifest (role : byte) (resp : NatHoleResp) (sid target : string) (control : bytes) (id : Identity) (now : Z) : option Binding.Manifest :=
  match Binding.Decode (BindingManifest resp) (now mod 2 ^ 64), hexDecode sid with
  | Ok m, Some sidBytes =>
      if negb (bool_decide (sidBytes = Binding.SID m)) || negb (bool_decide (Binding.ProxyName m = ofString target)) then None
      else match Binding.CheckLocal m role control (IdNonce id) (SPKI id) with Ok _ => Some m | Err _ => None end
  | _, _ => None
  end.

(** Sockets of [MakeHole] that are left open. *)
Definition leftOpen (given : nat) (h : hole (Addr := Addr)) : list nat := filter (λ c, c ∉ closedConns h) (given :: openedConns h).

(** ** The visitor *)

Record visitorCfg := mkVisitorCfg {
  vcUser : string; vcServerUser : string; vcServerName : string; vcSecretKey : string; vcProtocol : string; vcFallbackTo : string;
  vcWireProtocol : string; vcControlID : bytes; vcStun : chars; vcDisableAssisted : bool }.

(** The check at the start of [Run]. *)
Definition runnable (c : visitorCfg) : bool :=
  bool_decide (vcProtocol c = "quic") && bool_decide (vcFallbackTo c = EmptyString) && bool_decide (vcWireProtocol c = "v2") && (length (vcControlID c) =? 32)%nat.

(** What happens around a call of [makeNatHole]: the answers of the server, the
    host, the new identity, the clock, the punching, and the QUIC connection:
    how dialling ends, the exporter, the number of the stream, what is read from it. *)
Record visitorEnv := mkVisitorEnv {
  vePreCheck : option NatHoleResp; veHost : hostEnv; veStun : chars → option (chars * chars); veIdentity : option Identity;
  veNow : Z; veTransactionID : string; veServer : NatHoleVisitor → option NatHoleResp; veNowResp : Z; veHole : holeEnv Addr;
  veNowInit : Z; veDial : Binding.Config → option Binding.ConnectionState;
  veExporter : res Binding.error bytes; veStream : res Binding.error Z; veInput : bytes; veCancelled : bool }.

(** [sockets] are those left open, [proofSent] what was written to stream 0,
    [tunnel] the session: its socket, manifest, identity and TLS configuration. *)
Record visitorRun := mkRun {
  request : option NatHoleVisitor; sockets : list nat; proofSent : bytes; tunnel : option (nat * Binding.Manifest * Identity * Binding.Config) }.

(** [QUICTunnelSession.Init] up to the assignment of the session: what it wrote,
    and the configuration it dialled with. *)
Definition tunnelInit (e : visitorEnv) (id : Identity) (m : Binding.Manifest) (peerCertificate : bytes) : bytes * option Binding.Config :=
  match Binding.DecodeMustCurrent m (veNowInit e mod 2 ^ 64) with
  | Err _ => ([], None)
  | Ok _ =>
      match PeerTLS (Some (DER id)) peerCertificate m Binding.Visitor with
      | Err _ => ([], None)
      | Ok cfg =>
          match veDial e cfg with
          | None => ([], None)
          | Some st =>
              match Binding.VerifyConnection cfg st with
              | Err _ => ([], None)
              | Ok _ =>
                  match Binding.ExchangeProof Sum256 hmacSum m Binding.Visitor (veExporter e) (veStream e) (veInput e) with
                  | (out, Err _) => (out, None)
                  | (out, Ok _) => (out, if veCancelled e then None else Some cfg)
                  end
              end
          end
      end
  end.

Definition visitorRequest (c : visitorCfg) (e : visitorEnv) (target : string) (p : PrepareResult) (id : Identity) : res Binding.error NatHoleVisitor :=
  let? proof := Binding.SignalProof hmacSum (ofString (vcSecretKey c)) Binding.Visitor (ofString target) (vcControlID c) (IdNonce id) (SPKI id) (veNow e) in
  Ok (mkVisitorMsg (vcControlID c) (IdNonce id) (SPKI id) (DER id) proof (veTransactionID e) target false (vcProtocol c) (veNow e)
        (prAddrs p) (prAssistedAddrs p)).

Definition targetName (c : visitorCfg) : string := Naming.BuildTargetServerProxyName (vcUser c) (vcServerUser c) (vcServerName c).

(** The socket of [Prepare] is number 0, those of [MakeHole] follow; when the
    function returns early it has closed the first. *)
Definition makeNatHole (c : visitorCfg) (e : visitorEnv) : visitorRun :=
  if negb (PreCheck (vePreCheck e)) then mkRun None [] [] None
  else match Prepare (veHost e) (veStun e) [vcStun c] (vcDisableAssisted c) 0 with
  | (None, open_) => mkRun None open_ [] None
  | (Some p, _) =>
      match veIdentity e with
      | None => mkRun None [] [] None
      | Some id =>
          match visitorRequest c e (targetName c) p id with
          | Err _ => mkRun None [] [] None
          | Ok r =>
              match ExchangeInfo (veServer e r) with
              | None => mkRun (Some r) [] [] None
              | Some resp =>
                  match acceptManifest Binding.Visitor resp (Sid resp) (targetName c) (vcControlID c) id (veNowResp e) with
                  | None => mkRun (Some r) [] [] None
                  | Some m =>
                      let h := MakeHole (veHole e) (prConn p) (S (prConn p)) resp in
                      match holeResult h with
                      | None => mkRun (Some r) (filter (λ s, s ≠ prConn p) (leftOpen (prConn p) h)) [] None
                      | Some (s, _) =>
                          match tunnelInit e id m (PeerCertificate resp) with
                          | (out, None) => mkRun (Some r) (filter (λ x, x ≠ s) (leftOpen (prConn p) h)) out None
                          | (out, Some cfg) => mkRun (Some r) (leftOpen (prConn p) h) out (Some (s, m, id, cfg))
                          end
                      end
                  end
              end
          end
      end
  end.

(** ** The provider *)

Record providerCfg := mkProviderCfg {
  pcUser : string; pcName : string; pcSecretKey : string; pcWireProtocol : string; pcControlID : bytes; pcStun : chars; pcDisableAssisted : bool }.

(** A connection the QUIC listener accepts: when, and how handshake and proof go. *)
Record candidate := mkCandidate {
  caNow : Z; caHandshake : bool; caExporter : res Binding.error bytes; caStream : res Binding.error Z; caInput : bytes }.

Record providerEnv := mkProviderEnv {
  peEnded : bool; peSid : option string; peHost : hostEnv; peStun : chars → option (chars * chars); peIdentity : option Identity;
  peNow : Z; peTransactionID : string; peServer : NatHoleClient → option NatHoleResp; peNowResp : Z; peHole : holeEnv Addr;
  peListen : bool; peCandidates : list candidate }.

(** The loop of [listenByQUIC]: the admitted connection (by its number) and the
    proof it got, and the connections closed. *)
Fixpoint admitPeer (m : Binding.Manifest) (cs : list candidate) (i : nat) : option (nat * candidate * bytes) * list nat :=
  match cs with
  | [] => (None, [])
  | c :: cs =>
      match Binding.DecodeMustCurrent m (caNow c mod 2 ^ 64) with
      | Err _ => (None, [i])
      | Ok _ =>
          match (if caHandshake c then Binding.ExchangeProof Sum256 hmacSum m Binding.Provider (caExporter c) (caStream c) (caInput c)
                 else ([], Err Binding.ErrStream)) with
          | (out, Ok _) => (Some (i, c, out), [])
          | (_, Err _) => let '(r, closed) := admitPeer m cs (S i) in (r, i :: closed)
          end
      end
  end.

(** [readNatHoleSid] *)
Definition sidOk (sid : string) : bool := match hexDecode sid with Some b => (length b =? 32)%nat | None => false end.

Record providerRun := mkPRun {
  pRequest : option NatHoleClient; reports : list NatHoleReport; serving : list nat;
  admitted : option (nat * candidate * bytes * Binding.Manifest * Identity) }.

Definition providerRequest (c : providerCfg) (e : providerEnv) (sid : string) (p : PrepareResult) (id : Identity) : res Binding.error NatHoleClient :=
  let target := Naming.AddUserPrefix (pcUser c) (pcName c) in
  let? proof := Binding.SignalProof hmacSum (ofString (pcSecretKey c)) Binding.Provider (ofString target) (pcControlID c) (IdNonce id) (SPKI id) (peNow e) in
  Ok (mkClientMsg (pcControlID c) (IdNonce id) (SPKI id) (DER id) proof (peNow e) (peTransactionID e) target sid (prAddrs p) (prAssistedAddrs p)).

(** [InWorkConn] and [listenByQUIC]; [serving] are the sockets open while the
    admitted peer is served, all are closed when the function returns. *)
Definition InWorkConn (c : providerCfg) (e : providerEnv) : providerRun :=
  let stop := mkPRun None [] [] None in
  if peEnded e then stop
  else if negb (bool_decide (pcWireProtocol c = "v2")) || negb (length (pcControlID c) =? 32)%nat then stop
  else match peSid e with
  | None => stop
  | Some sid =>
      if negb (sidOk sid) then stop
      else match Prepare (peHost e) (peStun e) [pcStun c] (pcDisableAssisted c) 0 with
      | (None, _) => stop
      | (Some p, _) =>
          match peIdentity e with
          | None => stop
          | Some id =>
              match providerRequest c e sid p id with
              | Err _ => stop
              | Ok r =>
                  match ExchangeInfo (peServer e r) with
                  | None => mkPRun (Some r) [] [] None
                  | Some resp =>
                      match acceptManifest Binding.Provider resp sid (cProxyName r) (pcControlID c) id (peNowResp e) with
                      | None => mkPRun (Some r) [] [] None
                      | Some m =>
                          let h := MakeHole (peHole e) (prConn p) (S (prConn p)) resp in
                          match holeResult h with
                          | None => mkPRun (Some r) [mkReport (Sid resp) false] [] None
                          | Some (s, _) =>
                              let reports := [mkReport (Sid resp) true] in
                              match PeerTLS (Some (DER id)) (PeerCertificate resp) m Binding.Provider with
                              | Err _ => mkPRun (Some r) reports [] None
                              | Ok _ =>
                                  if negb (peListen e) then mkPRun (Some r) reports [] None
                                  else match admitPeer m (peCandidates e) 0 with
                                       | (Some x, _) => mkPRun (Some r) reports (leftOpen (prConn p) h) (Some (x, m, id))
                                       | (None, _) => mkPRun (Some r) reports [] None
                                       end
                              end
                          end
                      end
                  end
              end
          end
      end
  end.

(** ** Lemmas *)

Lemma acceptManifest_Some role resp sid target control id now m : role = Binding.Provider ∨ role = Binding.Visitor →
  acceptManifest role resp sid target control id now = Some m →
  Binding.Decode (BindingManifest resp) (now mod 2 ^ 64) = Ok m ∧ hexDecode sid = Some (Binding.SID m) ∧ Binding.ProxyName m = ofString target ∧
  (role = Binding.Visitor → Binding.VisitorControl m = control ∧ Binding.VisitorNonce m = IdNonce id ∧ Binding.VisitorSPKI m = SPKI id) ∧
  (role = Binding.Provider → Binding.ProviderControl m = control ∧ Binding.ProviderNonce m = IdNonce id ∧ Binding.ProviderSPKI m = SPKI id).
Proof.
  intros Hrole. unfold acceptManifest. destruct (Binding.Decode _ _) as [m'|]; [|done]. destruct (hexDecode sid) as [sb|]; [|done].
  do 2 (case_bool_decide; [|done]). cbn [negb orb]. destruct (Binding.CheckLocal _ _ _ _ _) as [u|] eqn:Hc; [|done]. intros [= <-].
  split_and!; [done|by subst sb|done|..]; intros ->; unfold Binding.CheckLocal in Hc; destruct (Binding.Encode m'); try done; simpl in Hc;
    repeat (case_bool_decide; try done).
Qed.

Lemma leftOpen_made e given m : let h := MakeHole e given (S given) m in
  match holeResult h with Some (c, _) => leftOpen given h = [c] | None => leftOpen given h = [given] ∨ leftOpen given h = [] end.
Proof. destruct (MakeHole_accounts e given (S given) m) as (_ & Hm & _); [lia|]. exact Hm. Qed.

Lemma filter_self (s : nat) : filter (λ x, x ≠ s) [s] = [].
Proof. rewrite filter_cons_False; [done|]. tauto. Qed.

Lemma Prepare_open h st servers d next : (Prepare h st servers d next).1 = None → (Prepare h st servers d next).2 = [].
Proof. unfold Prepare. repeat (case_match; try done). Qed.

Lemma tunnelInit_Some e id m cert out cfg : tunnelInit e id m cert = (out, Some cfg) →
  is_Ok (Binding.DecodeMustCurrent m (veNowInit e mod 2 ^ 64)) ∧ PeerTLS (Some (DER id)) cert m Binding.Visitor = Ok cfg ∧
  (∃ st, veDial e cfg = Some st ∧ Binding.VerifyConnection cfg st = Ok ()) ∧
  Binding.ExchangeProof Sum256 hmacSum m Binding.Visitor (veExporter e) (veStream e) (veInput e) = (out, Ok ()).
Proof.
  unfold tunnelInit. destruct (Binding.DecodeMustCurrent _ _) eqn:H1; [|done]. destruct (PeerTLS _ _ _ _) as [cfg'|] eqn:H2; [|done].
  destruct (veDial e cfg') as [st|] eqn:H3; [|done]. destruct (Binding.VerifyConnection cfg' st) as [[]|] eqn:H4; [|done].
  destruct (Binding.ExchangeProof _ _ _ _ _ _ _) as [out' [[]|]] eqn:H5; [|done]. destruct (veCancelled e); [done|]. intros [= <- <-].
  split_and!; [by eexists|done|by exists st|done].
Qed.

(** What a visitor's run has come to when it has a tunnel. *)
Record tunnelled (c : visitorCfg) (e : visitorEnv) (s : nat) (m : Binding.Manifest) (id : Identity) (cfg : Binding.Config) (run : visitorRun) : Prop := {
  tu_sockets : sockets run = [s];
  tu_current : ∃ wire, Binding.Decode wire (veNowResp e mod 2 ^ 64) = Ok m;
  tu_init : is_Ok (Binding.DecodeMustCurrent m (veNowInit e mod 2 ^ 64));
  tu_proxy : Binding.ProxyName m = ofString (targetName c);
  tu_local : Binding.VisitorControl m = vcControlID c ∧ Binding.VisitorNonce m = IdNonce id ∧ Binding.VisitorSPKI m = SPKI id;
  tu_tls : ∃ cert, PeerTLS (Some (DER id)) cert m Binding.Visitor = Ok cfg;
  tu_peer : ∃ st, veDial e cfg = Some st ∧ Binding.VerifyConnection cfg st = Ok ();
  tu_proof : Binding.ExchangeProof Sum256 hmacSum m Binding.Visitor (veExporter e) (veStream e) (veInput e) = (proofSent run, Ok ()) }.

Lemma visitor_cases c e : let run := makeNatHole c e in
  match tunnel run with Some (s, m, id, cfg) => tunnelled c e s m id cfg run | None => sockets run = [] end.
Proof.
  unfold makeNatHole. destruct (PreCheck _); [|done]. cbn [negb].
  destruct (Prepare _ _ _ _ _) as [[p|] open_] eqn:Hp; [|simpl; pose proof (Prepare_open (veHost e) (veStun e) [vcStun c] (vcDisableAssisted c) 0) as Ho; rewrite Hp in Ho; by apply Ho].
  destruct (veIdentity e) as [id|]; [|done]. destruct (visitorRequest _ _ _ _ _) as [r|]; [|done]. destruct (ExchangeInfo _) as [resp|]; [|done].
  destruct (acceptManifest _ _ _ _ _ _ _) as [m|] eqn:Hm; [|done].
  pose proof (leftOpen_made (veHole e) (prConn p) resp) as Hl. cbv zeta in Hl. destruct (holeResult _) as [[s a]|].
  - destruct (tunnelInit e id m (PeerCertificate resp)) as [out [cfg|]] eqn:Hi; simpl; [|rewrite Hl; apply filter_self].
    apply tunnelInit_Some in Hi as (H1 & H2 & H3 & H4). apply acceptManifest_Some in Hm as (M1 & M2 & M3 & M4 & _); [|by right].
    split; simpl; try done; [by exists (BindingManifest resp)|by apply M4|by exists (PeerCertificate resp)].
  - simpl. destruct Hl as [-> | ->]; [apply filter_self|done].
Qed.

Lemma admitPeer_Some m cs i j c out closed : admitPeer m cs i = (Some (j, c, out), closed) →
  ∃ k, cs !! k = Some c ∧ j = (i + k)%nat ∧ closed = seq i k ∧ is_Ok (Binding.DecodeMustCurrent m (caNow c mod 2 ^ 64)) ∧
    Binding.ExchangeProof Sum256 hmacSum m Binding.Provider (caExporter c) (caStream c) (caInput c) = (out, Ok ()).
Proof.
  revert i closed. induction cs as [|c0 cs IH]; intros i closed; simpl; [done|]. destruct (Binding.DecodeMustCurrent m (caNow c0 mod 2 ^ 64)) eqn:Hd; [|done].
  destruct (if caHandshake c0 then _ else _) as [o [[]|]] eqn:He.
  - intros [= <- <- <- <-]. exists 0%nat. destruct (caHandshake c0); [|done]. split_and!; [done|lia|done|by eexists|done].
  - destruct (admitPeer m cs (S i)) as [r cl] eqn:Ha. intros [= -> <-]. destruct (IH _ _ Ha) as (k & H1 & -> & -> & H3 & H4).
    exists (S k). split_and!; [done|lia|done|done|done].
Qed.

(** What a provider's run has come to when it has admitted a peer. *)
Record admittedBy (c : providerCfg) (e : providerEnv) (x : candidate) (out : bytes) (m : Binding.Manifest) (id : Identity) (run : providerRun) : Prop := {
  ad_sockets : ∃ s, serving run = [s];
  ad_reports : ∃ sid, reports run = [mkReport sid true];
  ad_current : ∃ wire, Binding.Decode wire (peNowResp e mod 2 ^ 64) = Ok m;
  ad_live : is_Ok (Binding.DecodeMustCurrent m (caNow x mod 2 ^ 64));
  ad_proxy : Binding.ProxyName m = ofString (Naming.AddUserPrefix (pcUser c) (pcName c));
  ad_local : Binding.ProviderControl m = pcControlID c ∧ Binding.ProviderNonce m = IdNonce id ∧ Binding.ProviderSPKI m = SPKI id;
  ad_tls : ∃ cert cfg, PeerTLS (Some (DER id)) cert m Binding.Provider = Ok cfg;
  ad_proof : Binding.ExchangeProof Sum256 hmacSum m Binding.Provider (caExporter x) (caStream x) (caInput x) = (out, Ok ()) }.

Lemma provider_cases c e : let run := InWorkConn c e in
  match admitted run with Some (_, x, out, m, id) => admittedBy c e x out m id run | None => serving run = [] end.
Proof.
  unfold InWorkConn. destruct (peEnded e); [done|]. destruct (_ || _); [done|]. destruct (peSid e) as [sid|]; [|done]. destruct (negb _); [done|].
  destruct (Prepare _ _ _ _ _) as [[p|] ?]; [|done]. destruct (peIdentity e) as [id|]; [|done].
  destruct (providerRequest c e sid p id) as [r|] eqn:Hr; [|done]. destruct (ExchangeInfo _) as [resp|]; [|done].
  destruct (acceptManifest _ _ _ _ _ _ _) as [m|] eqn:Hm; [|done].
  pose proof (leftOpen_made (peHole e) (prConn p) resp) as Hl. cbv zeta in Hl. destruct (holeResult _) as [[s a]|]; [|done].
  destruct (PeerTLS _ _ _ _) as [cfg|] eqn:Ht; [|done]. destruct (peListen e); [|done]. cbn [negb].
  destruct (admitPeer m (peCandidates e) 0) as [[[[j x] out]|] closed] eqn:Ha; [|done]. simpl.
  apply admitPeer_Some in Ha as (k & _ & _ & _ & H1 & H2). apply acceptManifest_Some in Hm as (M1 & M2 & M3 & _ & M5); [|by left].
  assert (Hn : cProxyName r = Naming.AddUserPrefix (pcUser c) (pcName c)).
  { unfold providerRequest in Hr. destruct (Binding.SignalProof _ _ _ _ _ _ _ _); [|done]. by injection Hr as <-. }
  rewrite Hn in M3. split; simpl; eauto.
Qed.

(** ** Properties *)

(** a visitor opens a tunnel only to the provider the server has brought it
    together with.  The manifest was current when it came and again when the
    tunnel is set up, names the proxy the visitor wants, and the visitor's own
    control, nonce and key; the connection was checked against the provider's
    certificate, and the provider has proved to hold the manifest.  Then exactly
    the socket of the tunnel stays open; on every other path none does. *)
Theorem visitor_tunnel_bound c e : let run := makeNatHole c e in
  match tunnel run with Some (s, m, id, cfg) => tunnelled c e s m id cfg run | None => sockets run = [] end.
Proof. apply visitor_cases. Qed.

(** C3: the two ends of a tunnel agree.  A visitor that has a tunnel and a
    provider that has admitted a peer, joined by stream 0 of one connection, hold
    the same manifest, unless the encodings of just these two manifests collide under
    SHA-256; it names both
    controls, nonces and keys as the two sides have them, and the proxy both mean. *)
Theorem peers_agree vc ve pc pe s mv idv cfg j x out mp idp ev ep :
  (∀ w, length (Sum256 w) = 32%nat) → (∀ k w, length (hmacSum k w) = 32%nat) →
  tunnel (makeNatHole vc ve) = Some (s, mv, idv, cfg) → admitted (InWorkConn pc pe) = Some (j, x, out, mp, idp) →
  veExporter ve = Ok ev → veStream ve = Ok 0 → caExporter x = Ok ep → caStream x = Ok 0 →
  veInput ve = out → caInput x = proofSent (makeNatHole vc ve) →
  (mv = mp ∧ Binding.VisitorControl mp = vcControlID vc ∧ Binding.ProviderControl mv = pcControlID pc ∧
   Binding.VisitorSPKI mp = SPKI idv ∧ Binding.ProviderSPKI mv = SPKI idp ∧
   Binding.VisitorNonce mp = IdNonce idv ∧ Binding.ProviderNonce mv = IdNonce idp ∧
   ofString (targetName vc) = ofString (Naming.AddUserPrefix (pcUser pc) (pcName pc))) ∨
  Binding.manifestsCollide Sum256 mv mp.
Proof.
  intros HS HH Ht Ha Hev Hsv Hep Hsp Hin Hout.
  pose proof (visitor_cases vc ve) as Hv. cbv zeta in Hv. rewrite Ht in Hv. pose proof (provider_cases pc pe) as Hp. cbv zeta in Hp. rewrite Ha in Hp.
  destruct Hv as [_ [wv Dv] _ Nv (V1 & V2 & V3) _ _ Pv], Hp as [_ _ [wp Dp] _ Np (P1 & P2 & P3) _ Pp].
  rewrite Hev, Hsv, Hin in Pv. rewrite Hep, Hsp, Hout in Pp.
  assert (Sv : Binding.shaped mv) by (by apply Binding.Decode_sound in Dv as (? & _)).
  assert (Sp : Binding.shaped mp) by (by apply Binding.Decode_sound in Dp as (? & _)).
  destruct (Binding.exchange_same Sum256 hmacSum mv mp ev ep (proofSent (makeNatHole vc ve)) out (Ok ()) HS HH Sv Sp Pv Pp) as [->|Hc]; [left|by right].
  split_and!; congruence.
Qed.

(** the server can check what the peers send.  The requests of a visitor and
    of a provider carry a proof that the rendezvous accepts for the secret key of
    the proxy, its name, and the control, nonce, key and time of the message; they
    offer at least two addresses and the certificate of the key. *)
Theorem requests_verifiable vc ve pc pe :
  (∀ r, request (makeNatHole vc ve) = Some r →
     proofOk (vcSecretKey vc) Binding.Visitor (vProxyName r) (vControlID r) (vNonce r) (vSPKISHA256 r) (vSignalProof r) (vTimestamp r) = true ∧
     vProxyName r = targetName vc ∧ vPreCheck r = false ∧ vControlID r = vcControlID vc ∧ (2 ≤ length (vMappedAddrs r))%nat) ∧
  (∀ r, pRequest (InWorkConn pc pe) = Some r →
     proofOk (pcSecretKey pc) Binding.Provider (cProxyName r) (cControlID r) (cNonce r) (cSPKISHA256 r) (cSignalProof r) (cTimestamp r) = true ∧
     cProxyName r = Naming.AddUserPrefix (pcUser pc) (pcName pc) ∧ peSid pe = Some (cSid r) ∧ sidOk (cSid r) = true ∧ cControlID r = pcControlID pc ∧
     (2 ≤ length (cMappedAddrs r))%nat).
Proof.
  assert (Haddr : ∀ h st servers d n p open_, Prepare h st servers d n = (Some p, open_) → (2 ≤ length (prAddrs p))%nat).
  { intros h st servers d n p open_. unfold Prepare. repeat case_match; intros; simplify_eq/=; by apply Nat.ltb_ge. }
  split; intros r Hr.
  - unfold makeNatHole in Hr. destruct (PreCheck _); [|done]. cbn [negb] in Hr. destruct (Prepare _ _ _ _ _) as [[p|] open_] eqn:Hp; [|done].
    destruct (veIdentity ve) as [id|]; [|done]. destruct (visitorRequest _ _ _ _ _) as [r'|] eqn:Hq; [|done].
    assert (r' = r) as -> by (repeat case_match; simplify_eq/=; done). clear Hr. apply Haddr in Hp. unfold visitorRequest in Hq.
    destruct (Binding.SignalProof _ _ _ _ _ _ _ _) as [proof|] eqn:Hs; [|done]. injection Hq as <-. simpl. split_and!; try done.
    unfold proofOk. rewrite Hs. by rewrite bool_decide_eq_true_2.
  - unfold InWorkConn in Hr. destruct (peEnded pe); [done|]. destruct (_ || _); [done|]. destruct (peSid pe) as [sid|]; [|done].
    destruct (sidOk sid) eqn:Hsid; [|done]. cbn [negb] in Hr. destruct (Prepare _ _ _ _ _) as [[p|] open_] eqn:Hp; [|done].
    destruct (peIdentity pe) as [id|]; [|done]. destruct (providerRequest _ _ _ _ _) as [r'|] eqn:Hq; [|done].
    assert (r' = r) as -> by (repeat case_match; simplify_eq/=; done). clear Hr. apply Haddr in Hp. unfold providerRequest in Hq.
    destruct (Binding.SignalProof _ _ _ _ _ _ _ _) as [proof|] eqn:Hs; [|done]. injection Hq as <-. simpl. split_and!; try done.
    unfold proofOk. rewrite Hs. by rewrite bool_decide_eq_true_2.
Qed.
End peers.

(** ** The tunnel of a visitor over time: [QUICTunnelSession] and its events *)

(** A tunnel stands for its QUIC connection and its socket.  [current] are the
    fields of the session, [openTunnels] what is really open; [making]: the
    goroutine of [processTunnelStartEvents] is in [makeNatHole] or pauses after
    it, so a send on [startTunnelCh] has no receiver; [keepWaiting]:
    [keepTunnelOpenWorker] waits in its first send. *)
Record tunnels := mkTunnels {
  current : option nat; openTunnels : list nat; nextTunnel : nat; making : bool; keepWaiting : bool; cancelled : bool; ended : bool }.

Definition newTunnels (KeepTunnelOpen : bool) : tunnels := mkTunnels None [] 0 false KeepTunnelOpen false false.

(** [QUICTunnelSession.Close] *)
Definition closeSession (t : tunnels) : tunnels :=
  mkTunnels None (match current t with Some i => filter (λ x, x ≠ i) (openTunnels t) | None => openTunnels t end)
    (nextTunnel t) (making t) (keepWaiting t) (cancelled t) (ended t).

(** [getTunnelConn]: a stream of the session, or an end of the session and a try
    to start a new one; [stream] says whether the session can open one. *)
Definition getTunnelConn (stream : bool) (t : tunnels) : option nat * tunnels :=
  match current t with
  | Some i => if stream then (Some i, t)
              else let t := closeSession t in (None, mkTunnels (current t) (openTunnels t) (nextTunnel t) true (keepWaiting t) (cancelled t) (ended t))
  | None => let t := closeSession t in (None, mkTunnels (current t) (openTunnels t) (nextTunnel t) true (keepWaiting t) (cancelled t) (ended t))
  end.

(** The end of [makeNatHole]: [Init] sets the session unless the visitor has been closed. *)
Definition finishHole (success : bool) (t : tunnels) : tunnels :=
  if success && negb (cancelled t)
  then mkTunnels (Some (nextTunnel t)) (nextTunnel t :: openTunnels t) (S (nextTunnel t)) false (keepWaiting t) (cancelled t) (ended t)
  else mkTunnels (current t) (openTunnels t) (nextTunnel t) false (keepWaiting t) (cancelled t) (ended t).

Inductive tstep (t : tunnels) : tunnels → Prop :=
| t_get stream : tstep t (getTunnelConn stream t).2
| t_keep : keepWaiting t = true → making t = false →
    tstep t (mkTunnels (current t) (openTunnels t) (nextTunnel t) true false (cancelled t) (ended t))
| t_made success : making t = true → tstep t (finishHole success t)
| t_cancel : tstep t (mkTunnels (current t) (openTunnels t) (nextTunnel t) (making t) (keepWaiting t) true (ended t))
| t_close : cancelled t = true → tstep t (let t := closeSession t in mkTunnels (current t) (openTunnels t) (nextTunnel t) (making t) (keepWaiting t) true true).

(** No tunnel is open but the current one, and none while one is being made. *)
Definition tunnels_ok (t : tunnels) : Prop :=
  openTunnels t = option_list (current t) ∧ keepWaiting t = false ∧ (making t = true → current t = None) ∧ (ended t = true → current t = None ∧ cancelled t = true).

Lemma tunnels_ok_step t t' : tunnels_ok t → tstep t t' → tunnels_ok t'.
Proof.
  intros (Ho & Hk & Hm & He) [stream|Hk' Hm'|success Hm'| |Hc]; unfold tunnels_ok.
  - unfold getTunnelConn, closeSession. destruct (current t) as [i|] eqn:Hcur; [destruct stream|]; simpl; rewrite ?Hcur; split_and!; auto.
    + rewrite Ho. apply filter_self.
    + intros [? ?]%He. auto.
  - congruence.
  - unfold finishHole. destruct success; simpl; [|split_and!; auto; done]. destruct (cancelled t) eqn:Hca; simpl; [split_and!; auto; done|].
    rewrite Ho, (Hm Hm'). simpl. split_and!; auto; [done|]. intros [_ ?]%He. congruence.
  - simpl. split_and!; auto. intros [? _]%He. auto.
  - unfold closeSession. simpl. split_and!; auto. destruct (current t); simpl in *; rewrite Ho; [apply filter_self|done].
Qed.

(** tunnels are not leaked.  Without [keepTunnelOpen], after any sequence of
    requests, failures, new tunnels and the steps of a close, the open tunnels
    are exactly the current one, none while a new one is being made, and once the
    visitor is closed there is none and there will be none. *)
Theorem tunnels_not_leaked t : rtc tstep (newTunnels false) t →
  openTunnels t = option_list (current t) ∧ (making t = true → openTunnels t = []) ∧
  (ended t = true → openTunnels t = [] ∧ ∀ success, openTunnels (finishHole success t) = []).
Proof.
  intros H. assert (Hn : tunnels_ok (newTunnels false)) by (by split_and!). assert (Ht : tunnels_ok t).
  { revert Hn. induction H; [done|]. intros Hx. apply IHrtc. by eapply tunnels_ok_step. }
  destruct Ht as (Ho & _ & Hm & He). split_and!; [done|..].
  - intros Hmk. by rewrite Ho, (Hm Hmk).
  - intros [Hc Hca]%He. rewrite Ho, Hc. split; [done|]. intros []; unfold finishHole; rewrite ?Hca; simpl; by rewrite Ho, Hc.
Qed.

Lemma tunnels_not_leaked_witness :
  openTunnels (finishHole true (getTunnelConn true (newTunnels false)).2) = [0%nat].
Proof.
  refine (eq_trans (proj1 (tunnels_not_leaked (finishHole true (getTunnelConn true (newTunnels false)).2) _)) eq_refl).
  eapply rtc_l; [by eapply (t_get _ true)|]. eapply rtc_l; [by eapply (t_made _ true)|]. apply rtc_refl.
Defined.

(** With [keepTunnelOpen] a tunnel can be replaced while it is open: a request
    starts the first before the worker's own event is received, and [Init] then
    overwrites the session; the first tunnel stays open when the visitor is closed. *)
Example kept_tunnel_replaced :
  let t := (getTunnelConn true (newTunnels true)).2 in
  let t := finishHole true t in
  let t := mkTunnels (current t) (openTunnels t) (nextTunnel t) true false (cancelled t) (ended t) in
  let t := finishHole true t in
  rtc tstep (newTunnels true) t ∧ current t = Some 1%nat ∧ openTunnels (closeSession t) = [0%nat].
Proof.
  split; [|split; reflexivity]. eapply rtc_l; [by eapply (t_get _ true)|]. eapply rtc_l; [by eapply (t_made _ true)|].
  eapply rtc_l; [by apply t_keep|]. eapply rtc_l; [by eapply (t_made _ true)|]. apply rtc_refl.
Qed.

(** ** A concrete session, with the answers of the server of [Rendezvous] *)

#[local] Existing Instance demoLib.

Definition answerTo (tr : nat) : option NatHoleResp := snd <$> find (λ x, (x.1 =? tr)%nat) (sent (ctl demoWorld)).
Definition demoSid : string := Eval vm_compute in GenSid (Some (demoId x09)).
Definition demoHost : hostEnv := mkHost true true 5000 None false.
Definition demoStun (_ : chars) : option (chars * chars) := Some (ofStr "1.2.3.4:5000", ofStr "stun:2").
Definition demoFound : holeEnv nat := mkHoleEnv true false [] (Some (0%nat, 7%nat)).
Definition demoV : Identity := mkIdentity [x02] (Binding.demoSum [x02]) (demoId x05).
Definition demoP : Identity := mkIdentity [x01] (Binding.demoSum [x01]) (demoId x05).
Definition demoM : Binding.Manifest := Eval vm_compute in
  match answerTo 2 with
  | Some r => match Binding.Decode (BindingManifest r) 1005 with Ok m => m | Err _ => Binding.demoManifest end
  | None => Binding.demoManifest
  end.
Definition demoProofOf (role : byte) : bytes :=
  match Binding.Proof_ Binding.demoSum Binding.demoHmac demoM role Binding.demoKey with Ok x => x | Err _ => [] end.
Definition demoState : Binding.ConnectionState := Binding.mkState Binding.ALPN Binding.VersionTLS13 [[x01]].

Definition demoVCfg : visitorCfg := mkVisitorCfg "" "" "cam" "sk" "quic" "" "v2" (demoId x02) (ofStr "stun:1") false.
Definition demoVEnv : visitorEnv (Addr := nat) :=
  mkVisitorEnv (Some (GenNatHoleResponse "t" None "")) demoHost demoStun (Some demoV) 1000 "t1" (λ _, answerTo 2) 1005 demoFound
    1006 (λ _, Some demoState) (Ok Binding.demoKey) (Ok 0) (demoProofOf Binding.Provider) false.
Definition demoPCfg : providerCfg := mkProviderCfg "" "cam" "sk" "v2" (demoId x01) (ofStr "stun:1") false.
Definition demoPEnv : providerEnv (Addr := nat) :=
  mkProviderEnv false (Some demoSid) demoHost demoStun (Some demoP) 1000 "t2" (λ _, answerTo 1) 1005 demoFound true
    [mkCandidate 1006 false (Err Binding.ErrStream) (Ok 0) []; mkCandidate 1006 true (Ok Binding.demoKey) (Ok 0) (demoProofOf Binding.Visitor)].

Lemma peers_agree_witness :
  fst <$> tunnel (makeNatHole demoVCfg demoVEnv) = Some (0%nat, demoM, demoV) ∧
  Binding.VisitorSPKI demoM = SPKI demoV ∧ Binding.ProviderSPKI demoM = SPKI demoP.
Proof.
  assert (Ht : fst <$> tunnel (makeNatHole demoVCfg demoVEnv) = Some (0%nat, demoM, demoV)) by (vm_compute; reflexivity).
  split; [exact Ht|]. apply fmap_Some in Ht as ([x cfg] & Ht & Hx). simpl in Hx. subst x.
  destruct (peers_agree demoVCfg demoVEnv demoPCfg demoPEnv 0 demoM demoV cfg 1
    (mkCandidate 1006 true (Ok Binding.demoKey) (Ok 0) (demoProofOf Binding.Visitor)) (demoProofOf Binding.Provider) demoM demoP Binding.demoKey Binding.demoKey)
    as [(_ & _ & _ & H1 & H2 & _)|Hc]; [intros; apply length_putBE|intros; apply length_putBE|exact Ht|vm_compute; reflexivity
    |reflexivity|reflexivity|reflexivity|reflexivity|reflexivity|vm_compute; reflexivity|by split|].
  destruct Hc as (w & w' & H1 & H2 & Hne & _). pose proof (eq_trans (eq_sym H1) H2) as Hw. clear H1 H2. injection Hw as Hw. destruct (Hne Hw).
Defined.
End XtcpPeer.
