(* ===== verification/VNet.v ===== *)
(** * Virtual network: [pkg/vnet], [pkg/plugin/visitor/virtual_net.go], [pkg/plugin/client/virtual_net.go]

    A controller moves IP packets between a TUN device and connections.  On the
    visitor's side a connection is registered with the networks behind it, on
    the server's side a connection is found by the source addresses it has sent.
    The parser of packet headers and the text of an address are arguments; a
    connection is a number, its reading goroutine is part of the state, and the
    order in which Go visits the map of routes is an argument of the lookup. *)
From S2P Require Import Prelude Bytes UdpBinary.

(** ** Framing: [message.go] *)

Module VMessage.

Definition maxMessageSize : Z := 1024 * 1024.
Inductive error := EEmpty | ETooLarge | EShort.

Definition putLE32 (z : Z) : bytes := reverse (PutUint32 z).
Definition getLE (b : bytes) : Z := getBE (reverse b).

Definition WriteMessage (data : bytes) : res error bytes :=
  let length := Z.of_nat (length data) mod 2 ^ 32 in
  if length =? 0 then Err EEmpty else if maxMessageSize <? length then Err ETooLarge else Ok (putLE32 length ++ data).

(** The message and what is left of the input. *)
Definition ReadMessage (input : bytes) : res error (bytes * bytes) :=
  if (length input <? 4)%nat then Err EShort
  else
    let len := getLE (take 4 input) in
    if len =? 0 then Err EEmpty
    else if maxMessageSize <? len then Err ETooLarge
    else
      let rest := drop 4 input in
      if (length rest <? Z.to_nat len)%nat then Err EShort else Ok (take (Z.to_nat len) rest, drop (Z.to_nat len) rest).

Lemma getLE_put z : 0 ≤ z < 2 ^ 32 → getLE (putLE32 z) = z.
Proof. intros. unfold getLE, putLE32. rewrite reverse_involutive. apply getBE_putBE. lia. Qed.

(** Packets that are written are read back one by one, and what is read is
    between 1 byte and the limit. *)
Lemma message_roundtrip data b rest : Z.of_nat (length data) < 2 ^ 32 → WriteMessage data = Ok b → ReadMessage (b ++ rest) = Ok (data, rest).
Proof.
  intros Hl. unfold WriteMessage. rewrite Z.mod_small by lia. destruct (Z.eqb_spec (Z.of_nat (length data)) 0); [done|].
  destruct (Z.ltb_spec maxMessageSize (Z.of_nat (length data))); [done|]. intros Hb.
  assert (b = putLE32 (Z.of_nat (length data)) ++ data) as -> by congruence. clear Hb.
  assert (Hp : length (putLE32 (Z.of_nat (length data))) = 4%nat) by (unfold putLE32; rewrite length_reverse; apply length_putBE).
  unfold ReadMessage. rewrite <-app_assoc, length_app, Hp. destruct (Nat.ltb_spec (4 + length (data ++ rest)) 4); [lia|].
  rewrite take_app_length', drop_app_length' by done. rewrite getLE_put by lia.
  destruct (Z.eqb_spec (Z.of_nat (length data)) 0); [done|]. destruct (Z.ltb_spec maxMessageSize (Z.of_nat (length data))); [lia|].
  rewrite Nat2Z.id, length_app. destruct (Nat.ltb_spec (length data + length rest) (length data)); [lia|].
  by rewrite take_app_length, drop_app_length.
Qed.
End VMessage.

(** ** Routing: [controller.go] *)

Module VNet.
Import VMessage.

(** [net.IPNet] and [Contains]. *)
Record IPNet := mkIPNet { netIP : bytes; netMask : bytes }.

Definition networkNumberAndMask (n : IPNet) : option (bytes * bytes) :=
  let ip := match UdpBinary.To4 (netIP n) with
            | Some x => Some x
            | None => if (length (netIP n) =? 16)%nat then Some (netIP n) else None
            end in
  match ip with
  | None => None
  | Some ip =>
      if (length (netMask n) =? length ip)%nat then Some (ip, netMask n)
      else if (length (netMask n) =? 16)%nat && (length ip =? 4)%nat then Some (ip, drop 12 (netMask n))
      else None
  end.

Definition masked (a m : bytes) : list Z := zip_with (λ x y, Z.land (Zb x) (Zb y)) a m.

Definition Contains (n : IPNet) (ip : bytes) : bool :=
  match networkNumberAndMask n with
  | None => (length ip =? 0)%nat
  | Some (nn, m) =>
      let ip := default ip (UdpBinary.To4 ip) in
      (length ip =? length nn)%nat && bool_decide (masked nn m = masked ip m)
  end.

Section vnet.
(** [String] of an address; the source and destination of a packet, [None] when
    the version is unknown or the header cannot be parsed, and whether the first
    byte names a version at all. *)
Context (ipString : bytes → string) (parseHeader : bytes → option (bytes * bytes)) (isIP : bytes → bool).

Record routeElement := mkRoute { routes : list IPNet; conn : nat }.

(** [clientLoops] and [serverLoops] are the connections whose reading goroutine
    runs; [tunOut] and [sentTo] record the packets written to the device and to
    the connections. *)
Record Controller := mkController {
  clientRoutes : gmap string routeElement; srcIPConns : gmap string nat;
  clientLoops : list nat; serverLoops : list nat; nextConn : nat; tunOut : list bytes; sentTo : list (nat * bytes) }.

Definition NewController : Controller := mkController ∅ ∅ [] [] 0 [] [].

(** [addRoute], [delRoute], [removeConnRoute]; the latter deletes one entry. *)
Definition addRoute (name : string) (rs : list IPNet) (c : nat) (m : gmap string routeElement) : gmap string routeElement :=
  <[ name := mkRoute rs c ]> m.
Definition delRoute (name : string) (m : gmap string routeElement) : gmap string routeElement := delete name m.
Definition removeConnRoute (c : nat) (order : list string) (m : gmap string routeElement) : gmap string routeElement :=
  match find (λ n, match m !! n with Some re => (conn re =? c)%nat | None => false end) order with
  | Some n => delete n m
  | None => m
  end.

Definition findConn (dst : bytes) (order : list string) (m : gmap string routeElement) : option nat :=
  match find (λ n, match m !! n with Some re => existsb (λ r, Contains r dst) (routes re) | None => false end) order with
  | Some n => conn <$> m !! n
  | None => None
  end.

Definition findConnBySrc (src : bytes) (m : gmap string nat) : option nat := m !! ipString src.

(** The second look under the write lock sees what the first saw or newer. *)
Definition registerSrcIP (src : bytes) (c : nat) (m : gmap string nat) : gmap string nat :=
  if decide (m !! ipString src = Some c) then m else <[ ipString src := c ]> m.
Definition cleanupConnIPs (c : nat) (m : gmap string nat) : gmap string nat := filter (λ x, x.2 ≠ c) m.

(** [handlePacket]: where a packet of the device goes. *)
Definition handlePacket (buf : bytes) (order : list string) (k : Controller) : option nat :=
  match parseHeader buf with
  | None => None
  | Some (src, dst) =>
      match findConn dst order (clientRoutes k) with
      | Some c => Some c
      | None => findConnBySrc dst (srcIPConns k)
      end
  end.

Definition packetFromTun (buf : bytes) (order : list string) (k : Controller) : Controller :=
  match handlePacket buf order k with
  | Some c => mkController (clientRoutes k) (srcIPConns k) (clientLoops k) (serverLoops k) (nextConn k) (tunOut k) (sentTo k ++ [(c, buf)])
  | None => k
  end.

(** [RegisterClientRoute] and [StartServerConnReadLoop], with a new connection. *)
Definition RegisterClientRoute (name : string) (rs : list IPNet) (k : Controller) : Controller :=
  mkController (addRoute name rs (nextConn k) (clientRoutes k)) (srcIPConns k) (nextConn k :: clientLoops k) (serverLoops k) (S (nextConn k)) (tunOut k) (sentTo k).
Definition UnregisterClientRoute (name : string) (k : Controller) : Controller :=
  mkController (delRoute name (clientRoutes k)) (srcIPConns k) (clientLoops k) (serverLoops k) (nextConn k) (tunOut k) (sentTo k).
Definition StartServerConnReadLoop (k : Controller) : Controller :=
  mkController (clientRoutes k) (srcIPConns k) (clientLoops k) (nextConn k :: serverLoops k) (S (nextConn k)) (tunOut k) (sentTo k).

(** Turns of [readLoopClient] and [readLoopServer]: a message arrives, or reading
    fails and the deferred function cleans up. *)
Definition clientMessage (data : bytes) (k : Controller) : Controller :=
  match parseHeader data with
  | Some _ => mkController (clientRoutes k) (srcIPConns k) (clientLoops k) (serverLoops k) (nextConn k) (tunOut k ++ [data]) (sentTo k)
  | None => k
  end.
Definition serverMessage (c : nat) (data : bytes) (k : Controller) : Controller :=
  let m := if isIP data then match parseHeader data with Some (src, _) => registerSrcIP src c (srcIPConns k) | None => srcIPConns k end else srcIPConns k in
  mkController (clientRoutes k) m (clientLoops k) (serverLoops k) (nextConn k) (tunOut k ++ [data]) (sentTo k).
Definition clientEnd (c : nat) (order : list string) (k : Controller) : Controller :=
  mkController (removeConnRoute c order (clientRoutes k)) (srcIPConns k) (filter (λ x, x ≠ c) (clientLoops k)) (serverLoops k) (nextConn k) (tunOut k) (sentTo k).
Definition serverEnd (c : nat) (k : Controller) : Controller :=
  mkController (clientRoutes k) (cleanupConnIPs c (srcIPConns k)) (clientLoops k) (filter (λ x, x ≠ c) (serverLoops k)) (nextConn k) (tunOut k) (sentTo k).

(** [order] visits every name of the map. *)
Definition visits (order : list string) (m : gmap string routeElement) : Prop := ∀ n, is_Some (m !! n) → n ∈ order.

Inductive vstep (k : Controller) : Controller → Prop :=
| v_tun buf order : visits order (clientRoutes k) → vstep k (packetFromTun buf order k)
| v_register name rs : vstep k (RegisterClientRoute name rs k)
| v_unregister name : vstep k (UnregisterClientRoute name k)
| v_serve : vstep k (StartServerConnReadLoop k)
| v_client c data : c ∈ clientLoops k → vstep k (clientMessage data k)
| v_server c data : c ∈ serverLoops k → vstep k (serverMessage c data k)
| v_clientEnd c order : c ∈ clientLoops k → visits order (clientRoutes k) → vstep k (clientEnd c order k)
| v_serverEnd c : c ∈ serverLoops k → vstep k (serverEnd c k).

(** ** The tables and the connections *)

Record vnet_ok (k : Controller) : Prop := {
  vo_routes n re : clientRoutes k !! n = Some re → conn re ∈ clientLoops k;
  vo_once n n' re re' : clientRoutes k !! n = Some re → clientRoutes k !! n' = Some re' → conn re = conn re' → n = n';
  vo_ips ip c : srcIPConns k !! ip = Some c → c ∈ serverLoops k;
  vo_next c : c ∈ clientLoops k ∨ c ∈ serverLoops k → (c < nextConn k)%nat }.

Lemma removeConnRoute_gone c order m n re : visits order m →
  (∀ a b ra rb, m !! a = Some ra → m !! b = Some rb → conn ra = conn rb → a = b) →
  removeConnRoute c order m !! n = Some re → m !! n = Some re ∧ conn re ≠ c.
Proof.
  intros Hv Hone. unfold removeConnRoute. set (P := λ n, _). destruct (find P order) as [a|] eqn:Hf.
  - rewrite lookup_delete_Some. intros [Hne Hn]. split; [done|]. intros Hc.
    apply find_some in Hf as [_ Ha]. unfold P in Ha. destruct (m !! a) as [ra|] eqn:Hma; [|done]. apply Nat.eqb_eq in Ha.
    apply Hne. by eapply Hone; [done|done|congruence].
  - intros Hn. split; [done|]. intros Hc. assert (Hin : n ∈ order) by (apply Hv; eauto). apply list_elem_of_In in Hin.
    apply (find_none _ _ Hf) in Hin. unfold P in Hin. rewrite Hn, Hc, Nat.eqb_refl in Hin. done.
Qed.

Lemma removeConnRoute_sub c order m n re : removeConnRoute c order m !! n = Some re → m !! n = Some re.
Proof. unfold removeConnRoute. destruct (find _ _); [by intros [_ ?]%lookup_delete_Some|done]. Qed.

Lemma vnet_ok_step k k' : vnet_ok k → vstep k k' → vnet_ok k'.
Proof.
  intros Hk. pose proof Hk as [H1 H2 H3 H4]. intros [buf order Hv|name rs|name| |c data Hc|c data Hc|c order Hc Hv|c Hc].
  - unfold packetFromTun. destruct (handlePacket _ _ _); [by split|done].
  - assert (Hfresh : ∀ n re, clientRoutes k !! n = Some re → conn re ≠ nextConn k).
    { intros n re Hn Heq. pose proof (H4 (conn re) (or_introl (H1 _ _ Hn))). lia. }
    split; simpl; unfold addRoute.
    + intros n re [[<- <-]|[_ Hn]]%lookup_insert_Some; [by left|right; by eapply H1].
    + intros n n' re re' [[<- <-]|[_ Hn]]%lookup_insert_Some [[<- <-]|[_ Hn']]%lookup_insert_Some Heq; simpl in *; try done;
        [by destruct (Hfresh _ _ Hn')|by destruct (Hfresh _ _ Hn)|by eapply H2].
    + done.
    + intros c [[->|Hc]%elem_of_cons|Hc]; [lia|..]; [pose proof (H4 c (or_introl Hc))|pose proof (H4 c (or_intror Hc))]; lia.
  - split; simpl; unfold delRoute; try done.
    + intros n re [_ Hn]%lookup_delete_Some. by eapply H1.
    + intros n n' re re' [_ Hn]%lookup_delete_Some [_ Hn']%lookup_delete_Some. by eapply H2.
  - split; simpl; try done.
    + intros ip c Hip. right. by eapply H3.
    + intros c [Hc|[->|Hc]%elem_of_cons]; [|lia|]; [pose proof (H4 c (or_introl Hc))|pose proof (H4 c (or_intror Hc))]; lia.
  - unfold clientMessage. destruct (parseHeader data); [by split|done].
  - split; simpl; try done. intros ip c'. unfold registerSrcIP. destruct (isIP data); [|by apply H3].
    destruct (parseHeader data) as [[src ?]|]; [|by apply H3]. case_decide; [by apply H3|].
    intros [[_ <-]|[_ Hip]]%lookup_insert_Some; [done|by eapply H3].
  - split; simpl.
    + intros n re Hn. destruct (removeConnRoute_gone _ _ _ _ _ Hv H2 Hn) as [Hn' Hne]. apply list_elem_of_filter. eauto.
    + intros n n' re re' Hn%removeConnRoute_sub Hn'%removeConnRoute_sub. by eapply H2.
    + done.
    + intros c' [[_ Hc']%list_elem_of_filter|Hc']; auto.
  - split; simpl; try done.
    + intros ip c' [Hip Hne]%map_lookup_filter_Some. simpl in Hne. apply list_elem_of_filter. eauto.
    + intros c' [Hc'|[_ Hc']%list_elem_of_filter]; auto.
Qed.

Lemma vnet_ok_reached k : rtc vstep NewController k → vnet_ok k.
Proof.
  intros H. assert (Hn : vnet_ok NewController).
  { split; simpl; try (intros *; rewrite lookup_empty; done). intros c [?%elem_of_nil|?%elem_of_nil]; done. }
  revert Hn. induction H; [done|]. intros Hx. apply IHrtc. by eapply vnet_ok_step.
Qed.

(** a packet of the virtual network reaches the right connection.  At every
    time, whatever routes, connections and packets come and go, a packet of the
    device goes to a connection registered for a network that contains its
    destination, when there is one, and otherwise to the connection known for
    that address; the goroutine of the connection it goes to runs, so no
    route outlives its connection; and a packet without a route goes nowhere. *)
Theorem packets_routed k buf order : rtc vstep NewController k → visits order (clientRoutes k) →
  match handlePacket buf order k with
  | Some c => ∃ src dst, parseHeader buf = Some (src, dst) ∧
      ((∃ n re, clientRoutes k !! n = Some re ∧ conn re = c ∧ c ∈ clientLoops k ∧ existsb (λ r, Contains r dst) (routes re) = true) ∨
       (srcIPConns k !! ipString dst = Some c ∧ c ∈ serverLoops k ∧
        ∀ n re, clientRoutes k !! n = Some re → existsb (λ r, Contains r dst) (routes re) = false))
  | None => parseHeader buf = None ∨ ∃ src dst, parseHeader buf = Some (src, dst) ∧ srcIPConns k !! ipString dst = None ∧
      ∀ n re, clientRoutes k !! n = Some re → existsb (λ r, Contains r dst) (routes re) = false
  end.
Proof.
  intros Hk%vnet_ok_reached Hv. unfold handlePacket. destruct (parseHeader buf) as [[src dst]|]; [|by left].
  unfold findConn. set (P := λ n, _). destruct (find P order) as [n|] eqn:Hf.
  - apply find_some in Hf as [_ Hn]. unfold P in Hn. destruct (clientRoutes k !! n) as [re|] eqn:Hre; [|done]. simpl.
    exists src, dst. split; [done|]. left. exists n, re. split_and!; [done|done|by apply (vo_routes k Hk n)|done].
  - assert (Hno : ∀ n re, clientRoutes k !! n = Some re → existsb (λ r, Contains r dst) (routes re) = false).
    { intros n re Hre. assert (Hin : n ∈ order) by (apply Hv; eauto). apply list_elem_of_In, (find_none _ _ Hf) in Hin. unfold P in Hin. by rewrite Hre in Hin. }
    unfold findConnBySrc. destruct (srcIPConns k !! ipString dst) as [c|] eqn:Hc; [|eauto 8].
    exists src, dst. split; [done|]. right. split_and!; [done|by eapply (vo_ips k Hk)|done].
Qed.
End vnet.

(** A visitor's route for 10.0.0.0/8, and a connection that has sent from 9.9.9.9:
    bytes 0 to 3 of a packet are its source, 4 to 7 its destination. *)
Definition demoParse (b : bytes) : option (bytes * bytes) := if (length b <? 8)%nat then None else Some (take 4 b, take 4 (drop 4 b)).
Definition demoText (ip : bytes) : string := if decide (ip = [x09; x09; x09; x09]) then "9.9.9.9" else "?".
Definition demoNet : Controller :=
  serverMessage demoText demoParse (λ _, true) 1 [x09; x09; x09; x09; x01; x01; x01; x01]
    (StartServerConnReadLoop (RegisterClientRoute "v" [mkIPNet [x0a; x00; x00; x00] [xff; x00; x00; x00]] NewController)).

Lemma packets_routed_witness :
  handlePacket demoText demoParse [x01; x01; x01; x01; x0a; x02; x03; x04] ["v"%string] demoNet = Some 0%nat ∧
  ∃ src dst, demoParse [x01; x01; x01; x01; x09; x09; x09; x09] = Some (src, dst) ∧
    ((∃ n re, clientRoutes demoNet !! n = Some re ∧ conn re = 1%nat ∧ 1%nat ∈ clientLoops demoNet ∧ existsb (λ r, Contains r dst) (routes re) = true) ∨
     (srcIPConns demoNet !! demoText dst = Some 1%nat ∧ 1%nat ∈ serverLoops demoNet ∧
      ∀ n re, clientRoutes demoNet !! n = Some re → existsb (λ r, Contains r dst) (routes re) = false)).
Proof.
  split; [by vm_compute|].
  apply (packets_routed demoText demoParse (λ _, true) demoNet [x01; x01; x01; x01; x09; x09; x09; x09] ["v"%string]).
  - eapply rtc_l; [by apply (v_register _ _ _ _ "v" [mkIPNet [x0a; x00; x00; x00] [xff; x00; x00; x00]])|]. eapply rtc_l; [by apply v_serve|].
    eapply rtc_l; [by apply (v_server _ _ _ _ 1 [x09; x09; x09; x09; x01; x01; x01; x01]); left|]. apply rtc_refl.
  - intros n [re Hn]. unfold demoNet in Hn; simpl in Hn. unfold addRoute in Hn. apply lookup_insert_Some in Hn as [[<- _]|[_ Hn]]; [by left|by rewrite lookup_empty in Hn].
Defined.
End VNet.

(** ** The visitor's plugin: [pkg/plugin/visitor/virtual_net.go] *)

Module VNetPlugin.

Definition second : Z := 1000000000.

(** The delay after a connection that ended with an error, the [consecutiveErrors]th
    in a row; durations are nanoseconds in 64 bits. *)
Definition errorDelay (consecutiveErrors : Z) : Z :=
  Z.min (int64 (60 * second * int64 (Z.shiftl 1 (consecutiveErrors - 1)))) (300 * second).

(** One turn of [run]: the connection ended, with an error or not. *)
Definition afterClose (withError : bool) (consecutiveErrors : Z) : Z * Z :=
  if withError then (consecutiveErrors + 1, errorDelay (consecutiveErrors + 1)) else (0, 10 * second).

Fixpoint delays (ends : list bool) (consecutiveErrors : Z) : list Z :=
  match ends with
  | [] => []
  | e :: ends => let '(n, d) := afterClose e consecutiveErrors in d :: delays ends n
  end.

Lemma errorDelay_bounds n : 1 ≤ n ≤ 28 → 60 * second ≤ errorDelay n ≤ 300 * second.
Proof.
  intros Hn. assert (Hin : n ∈ seqZ 1 28) by (apply elem_of_seqZ; lia). clear Hn.
  assert (Hall : Forall (λ n, 60 * second ≤ errorDelay n ≤ 300 * second) (seqZ 1 28)).
  { apply (bool_decide_unpack _). vm_compute. exact I. }
  rewrite Forall_forall in Hall. by apply Hall.
Qed.

(** Errors in a row, counted from [n]. *)
Fixpoint errorRun (ends : list bool) (n : Z) : Z :=
  match ends with [] => n | e :: ends => Z.max n (errorRun ends (if e then n + 1 else 0)) end.

Lemma errorRun_ge ends n : n ≤ errorRun ends n.
Proof. destruct ends; simpl; lia. Qed.

(** the plugin waits before it connects again: 10 seconds after a connection
    that ended normally, and between one and five minutes after one that failed,
    as long as no more than 28 fail in a row. *)
Theorem reconnect_paced ends n : 0 ≤ n → errorRun ends n ≤ 28 →
  Forall (λ d, 10 * second ≤ d ≤ 300 * second) (delays ends n).
Proof.
  revert n. induction ends as [|e ends IH]; intros n Hn Hr; simpl; [constructor|]. unfold afterClose. simpl in Hr.
  destruct e; constructor.
  - pose proof (errorRun_ge ends (n + 1)). pose proof (errorDelay_bounds (n + 1) ltac:(lia)). unfold second in *. lia.
  - apply IH; lia.
  - unfold second. lia.
  - apply IH; lia.
Qed.

Lemma reconnect_paced_witness : Forall (λ d, 10 * second ≤ d ≤ 300 * second) (delays [true; true; false; true] 0).
Proof. apply reconnect_paced; [lia|by vm_compute]. Defined.

(** With more failures the product overflows: the 29th delay is negative and from
    the 54th failure on there is no delay at all, so the plugin connects again
    without a pause. *)
Example twenty_ninth_negative : errorDelay 29 < 0. Proof. reflexivity. Qed.

Lemma late_delays_vanish n : 54 ≤ n → errorDelay n = 0.
Proof.
  intros Hn. destruct (decide (n ≤ 64)) as [Hle|Hgt].
  - assert (Hin : n ∈ seqZ 54 11) by (apply elem_of_seqZ; lia).
    assert (Hall : Forall (λ n, errorDelay n = 0) (seqZ 54 11)) by (apply (bool_decide_unpack _); vm_compute; exact I).
    rewrite Forall_forall in Hall. by apply Hall.
  - unfold errorDelay. assert (int64 (Z.shiftl 1 (n - 1)) = 0) as ->; [|by vm_compute].
    rewrite Z.shiftl_mul_pow2, Z.mul_1_l by lia. unfold int64.
    replace (n - 1) with (64 + (n - 65)) by lia. rewrite Z.pow_add_r by lia.
    rewrite Z.add_comm, Z.mul_comm, Z.mod_add by lia. reflexivity.
Qed.
End VNetPlugin.
