(* ===== verification/SecretVisitor.v ===== *)
(** * Secret visitors of the client: [client/visitor/visitor.go], [stcp.go], [sudp.go]

    A visitor connects users on its machine with a secret proxy: for each user of
    an STCP visitor it opens a connection to the server, signs a request with the
    key of the proxy and joins the two; a SUDP visitor sends the datagrams of all
    users through one such connection at a time.  The first is a function of what
    the network does, with its effects as a list; the second runs in goroutines
    and is a step relation. *)
From S2P Require Import Prelude Bytes UdpBinary Registry Control Visitor ClientProxy.

(** ** STCP visitors *)

Module Stcp.

Record visitorCfg := mkCfg {
  clientUser : string; ServerUser : string; ServerName : string; SecretKey : string; cfgEncryption : bool; cfgCompression : bool }.

(** How the server connection goes: [connected] is the connection, [response]
    the error text of the response, [None] when none is read. *)
Record dialEnv := mkDial { connected : option nat; runID : string; now : Z; writeOk : bool; response : option string; encryptionOk : bool }.

Inductive error := ErrConnect | ErrSend | ErrReceive | ErrServer (text : string) | ErrEncryption.

Inductive effect :=
| ERequest (conn : nat) (m : Visitor.NewVisitorConn) | EJoin (conn : nat) | ECloseVisitor (conn : nat) | ECloseUser | ECloseUserWith (e : error).

Section stcp.
Context (md5hex : string → string).

Definition request (c : visitorCfg) (e : dialEnv) : Visitor.NewVisitorConn :=
  Visitor.mkVisitor (Naming.BuildTargetServerProxyName (clientUser c) (ServerUser c) (ServerName c)) (now e)
    (Visitor.GetAuthKey md5hex (SecretKey c) (now e)) (cfgEncryption c) (cfgCompression c) (runID e).

Definition dialRawVisitorConn (c : visitorCfg) (e : dialEnv) : res error nat * list effect :=
  match connected e with
  | None => (Err ErrConnect, [])
  | Some conn =>
      let sent := [ERequest conn (request c e)] in
      if negb (writeOk e) then (Err ErrSend, sent ++ [ECloseVisitor conn])
      else match response e with
      | None => (Err ErrReceive, sent ++ [ECloseVisitor conn])
      | Some text => if decide (text ≠ EmptyString) then (Err (ErrServer text), sent ++ [ECloseVisitor conn]) else (Ok conn, sent)
      end
  end.

Definition wrapVisitorConn (c : visitorCfg) (e : dialEnv) : res error unit :=
  if cfgEncryption c && negb (encryptionOk e) then Err ErrEncryption else Ok ().

(** [closesWithError]: the user's connection has [CloseWithError]. *)
Definition closeUser (closesWithError : bool) (err : option error) : effect :=
  match err with Some x => if closesWithError then ECloseUserWith x else ECloseUser | None => ECloseUser end.

Definition handleConn (closesWithError : bool) (c : visitorCfg) (e : dialEnv) : list effect :=
  match dialRawVisitorConn c e with
  | (Err x, es) => es ++ [closeUser closesWithError (Some x)]
  | (Ok conn, es) =>
      match wrapVisitorConn c e with
      | Err x => es ++ [ECloseVisitor conn; closeUser closesWithError (Some x)]
      | Ok _ => es ++ [EJoin conn; ECloseVisitor conn; closeUser closesWithError None]
      end
  end.

(** [getNewVisitorConn] of a SUDP visitor. *)
Definition getNewVisitorConn (c : visitorCfg) (e : dialEnv) : res error nat * list effect :=
  match dialRawVisitorConn c e with
  | (Err x, es) => (Err x, es)
  | (Ok conn, es) => match wrapVisitorConn c e with Err x => (Err x, es ++ [ECloseVisitor conn]) | Ok _ => (Ok conn, es) end
  end.

Definition isUserClose (x : effect) : bool := match x with ECloseUser | ECloseUserWith _ => true | _ => false end.

(** a user of an STCP visitor is handled completely on every path.  His
    connection is closed exactly once and last, with the reason when there is
    one and the connection takes it; the connection to the server is closed after
    its use, and no other; and the two are joined only after the server has
    accepted a request signed for the proxy. *)
Theorem stcp_user_handled closesWithError c e :
  let es := handleConn closesWithError c e in
  (∃ es', es = es' ++ [closeUser closesWithError (match getNewVisitorConn c e with (Err x, _) => Some x | _ => None end)] ∧ Forall (λ x, isUserClose x = false) es') ∧
  (∀ conn, connected e = Some conn → ECloseVisitor conn ∈ es) ∧
  (∀ conn, EJoin conn ∈ es → connected e = Some conn ∧ response e = Some EmptyString ∧ writeOk e = true ∧
     es = [ERequest conn (request c e); EJoin conn; ECloseVisitor conn; ECloseUser]) ∧
  (∀ conn, ECloseVisitor conn ∈ es → connected e = Some conn).
Proof.
  unfold handleConn, getNewVisitorConn, dialRawVisitorConn, wrapVisitorConn.
  destruct closesWithError, (connected e) as [conn|], (writeOk e); simpl; try destruct (response e) as [text|]; try case_decide as Ht; simpl;
    try destruct (cfgEncryption c && _); simpl; (split_and!;
      [first [exists []; by split; [|repeat constructor]|eexists [_; _]; by split; [|repeat constructor]|eexists [_; _; _]; by split; [|repeat constructor]]
      |intros ? Hc; rewrite ?elem_of_cons; naive_solver
      |intros ? Hin; rewrite ?elem_of_cons, ?elem_of_nil in Hin; naive_solver
      |intros ? Hin; rewrite ?elem_of_cons, ?elem_of_nil in Hin; naive_solver]).
Qed.

(** the server admits the request of a visitor that has the key.  When the
    proxy it means listens with this key, allows the user the visitor acts for
    and can set up the encryption, the connection is put into the queue of its
    listener, or dropped when the queue is full, and nothing else changes. *)
Theorem visitor_request_admitted c e conn encOk user wire codec vm b l :
  let target := Naming.BuildTargetServerProxyName (clientUser c) (ServerUser c) (ServerName c) in
  Visitor.listeners vm !! target = Some b → Visitor.sk b = SecretKey c →
  user ∈ Visitor.allowUsers b ∨ "*"%string ∈ Visitor.allowUsers b → (cfgEncryption c = true → encOk = true) →
  Visitor.store vm !! Visitor.l_ b = Some l → Visitor.lclosed l = false →
  Visitor.NewConn md5hex encOk (request c e) conn user wire codec vm =
    (Ok tt, Visitor.mkManager (Visitor.listeners vm)
       (<[ Visitor.l_ b := if (length (Visitor.acceptCh l) <? 128)%nat
             then Visitor.mkListener (Visitor.acceptCh l ++ [Visitor.mkConn conn (cfgEncryption c) (cfgCompression c) wire codec]) false else l ]> (Visitor.store vm))
       (Visitor.nextListener vm)).
Proof.
  intros target Hb Hk Hu He Hl Hc. unfold Visitor.NewConn, request. cbn [Visitor.ProxyName Visitor.Timestamp Visitor.SignKey Visitor.UseEncryption Visitor.UseCompression].
  fold target. rewrite Hb, Hk, bool_decide_eq_true_2 by done. cbn [negb].
  assert (Hallowed : negb (bool_decide (user ∈ Visitor.allowUsers b)) && negb (bool_decide ("*"%string ∈ Visitor.allowUsers b)) = false).
  { apply andb_false_iff. destruct Hu; [left|right]; by rewrite bool_decide_eq_true_2. }
  rewrite Hallowed. assert (Hen : cfgEncryption c && negb encOk = false) by (destruct (cfgEncryption c); [by rewrite He|done]).
  rewrite Hen, Hl. unfold Visitor.PutConn. rewrite Hc. by destruct (_ <? _)%nat.
Qed.
End stcp.

Definition demoCfg : visitorCfg := mkCfg "bob" "" "p" "key" false false.
Definition demoDial : dialEnv := mkDial (Some 4%nat) "" 7 true (Some ""%string) true.
Definition demoVm : Visitor.Manager := (Visitor.Listen "bob.p" "key" ["bob"%string] Visitor.NewManager).2.

Lemma visitor_request_admitted_witness :
  (Visitor.NewConn id true (request id demoCfg demoDial) 4 "bob" "v2" "" demoVm).1 = Ok tt.
Proof.
  erewrite (visitor_request_admitted id demoCfg demoDial 4 true "bob" "v2" "" demoVm (Visitor.mkBundle 0 "key" ["bob"%string]) Visitor.NewInternalListener);
    [reflexivity|by vm_compute|reflexivity|left; by left|done|by vm_compute|reflexivity].
Defined.
End Stcp.

(** ** SUDP visitors *)

Module Sudp.
Import UdpBinary.

Inductive message := MPacket (m : UDPPacket) | MPing.

Definition chanCap : nat := 1024.

(** A connection to the server with the two goroutines of [worker]; [toSend] is
    the first packet until it is written. *)
Record visitorConn := mkConn {
  toSend : option UDPPacket; written : list UDPPacket; incoming : list message; isOpen : bool; readerDone : bool; senderDone : bool }.

(** Where [dispatcher] is. *)
Inductive dispatching := DWaiting | DDialing (first : UDPPacket) | DWorking | DEnded.

(** [sent] logs the datagrams of the users that [ForwardUserConn] queued,
    [received] what was queued for them. *)
Record visitor := mkVisitor {
  sent : list UDPPacket; sendCh : list UDPPacket; readCh : list UDPPacket; closed : bool; at_ : dispatching;
  conns : list visitorConn; current : option visitorConn; received : list UDPPacket }.

Definition newVisitor : visitor := mkVisitor [] [] [] false DWaiting [] None [].

(** A datagram of a user is queued, or dropped when the channel is full or closed. *)
Definition userPacket (m : UDPPacket) (v : visitor) : visitor :=
  if closed v || negb (length (sendCh v) <? chanCap)%nat then v
  else mkVisitor (sent v ++ [m]) (sendCh v ++ [m]) (readCh v) (closed v) (at_ v) (conns v) (current v) (received v).

Definition setCurrent (c : visitorConn) (v : visitor) : visitor :=
  mkVisitor (sent v) (sendCh v) (readCh v) (closed v) (at_ v) (conns v) (Some c) (received v).

(** What the first packet leads to: no connection, one for which [worker] has no
    packet codec and which it closes at once, or one that works. *)
Inductive dialing := DialFails | CodecFails | Works.

(** [dispatcher]: the first packet starts a connection; without one it is lost.
    When both goroutines of the worker are done the connection is old. *)
Definition takeFirst (v : visitor) : option visitor :=
  match at_ v, sendCh v with
  | DWaiting, m :: rest => Some (mkVisitor (sent v) rest (readCh v) (closed v) (DDialing m) (conns v) (current v) (received v))
  | _, _ => None
  end.
Definition dialed (outcome : dialing) (v : visitor) : option visitor :=
  match at_ v with
  | DDialing m =>
      Some (match outcome with
            | DialFails => mkVisitor (sent v) (sendCh v) (readCh v) (closed v) DWaiting (conns v) (current v) (received v)
            | CodecFails =>
                mkVisitor (sent v) (sendCh v) (readCh v) (closed v) (if closed v then DEnded else DWaiting)
                  (conns v ++ [mkConn None [] [] false true true]) (current v) (received v)
            | Works =>
                mkVisitor (sent v) (sendCh v) (readCh v) (closed v) DWorking (conns v)
                  (Some (mkConn (Some m) [] [] true false false)) (received v)
            end)
  | _ => None
  end.
Definition workerDone (v : visitor) : option visitor :=
  match at_ v, current v with
  | DWorking, Some c =>
      if readerDone c && senderDone c
      then Some (mkVisitor (sent v) (sendCh v) (readCh v) (closed v) (if closed v then DEnded else DWaiting) (conns v ++ [c]) None (received v))
      else None
  | _, _ => None
  end.
Definition dispatcherEnds (v : visitor) : option visitor :=
  match at_ v with
  | DWaiting => if closed v then Some (mkVisitor (sent v) (sendCh v) (readCh v) true DEnded (conns v) (current v) (received v)) else None
  | _ => None
  end.

(** [workConnSenderFn]: the first packet, then those of the channel; a failed
    write, the end of the reader or of the channel ends it and closes the connection. *)
Definition sendFirst (success : bool) (v : visitor) : option visitor :=
  match current v with
  | Some c =>
      match toSend c with
      | Some m =>
          if senderDone c then None
          else Some (setCurrent (if success && isOpen c then mkConn None (written c ++ [m]) (incoming c) (isOpen c) (readerDone c) false
                                 else mkConn None (written c) (incoming c) false (readerDone c) true) v)
      | None => None
      end
  | None => None
  end.
Definition sendNext (success : bool) (v : visitor) : option visitor :=
  match current v, sendCh v with
  | Some c, m :: rest =>
      if senderDone c || bool_decide (is_Some (toSend c)) then None
      else Some (mkVisitor (sent v) rest (readCh v) (closed v) (at_ v) (conns v)
             (Some (if success && isOpen c then mkConn None (written c ++ [m]) (incoming c) (isOpen c) (readerDone c) false
                    else mkConn None (written c) (incoming c) false (readerDone c) true)) (received v))
  | _, _ => None
  end.
Definition senderEnds (v : visitor) : option visitor :=
  match current v with
  | Some c =>
      if negb (senderDone c) && negb (bool_decide (is_Some (toSend c))) && (readerDone c || (closed v && bool_decide (sendCh v = [])))
      then Some (setCurrent (mkConn (toSend c) (written c) (incoming c) false (readerDone c) true) v) else None
  | None => None
  end.

(** [workConnReaderFn]: what the server sends; pings are skipped, a closed
    channel or a failed read ends it and closes the connection. *)
Definition arrive (m : message) (v : visitor) : option visitor :=
  match current v with
  | Some c => if isOpen c then Some (setCurrent (mkConn (toSend c) (written c) (incoming c ++ [m]) true (readerDone c) (senderDone c)) v) else None
  | None => None
  end.
Definition readMsg (v : visitor) : option visitor :=
  match current v with
  | Some c =>
      if readerDone c then None else
      match incoming c with
      | [] => None
      | MPing :: rest => Some (setCurrent (mkConn (toSend c) (written c) rest (isOpen c) false (senderDone c)) v)
      | MPacket m :: rest =>
          if closed v then Some (setCurrent (mkConn (toSend c) (written c) rest false true (senderDone c)) v)
          else if (length (readCh v) <? chanCap)%nat
          then Some (mkVisitor (sent v) (sendCh v) (readCh v ++ [m]) (closed v) (at_ v) (conns v)
                 (Some (mkConn (toSend c) (written c) rest (isOpen c) false (senderDone c))) (received v ++ [m]))
          else None
      end
  | None => None
  end.
Definition readFails (v : visitor) : option visitor :=
  match current v with
  | Some c => if readerDone c then None else Some (setCurrent (mkConn (toSend c) (written c) (incoming c) false true (senderDone c)) v)
  | None => None
  end.

(** The goroutine of [ForwardUserConn] that writes to the users. *)
Definition writeUser (v : visitor) : option visitor :=
  match readCh v with
  | _ :: rest => Some (mkVisitor (sent v) (sendCh v) rest (closed v) (at_ v) (conns v) (current v) (received v))
  | [] => None
  end.

Definition Close (v : visitor) : visitor :=
  mkVisitor (sent v) (sendCh v) (readCh v) true (at_ v) (conns v) (current v) (received v).

Inductive step (v : visitor) : visitor → Prop :=
| s_user m : step v (userPacket m v)
| s_take v' : takeFirst v = Some v' → step v v'
| s_dialed outcome v' : dialed outcome v = Some v' → step v v'
| s_done v' : workerDone v = Some v' → step v v'
| s_ends v' : dispatcherEnds v = Some v' → step v v'
| s_first success v' : sendFirst success v = Some v' → step v v'
| s_next success v' : sendNext success v = Some v' → step v v'
| s_senderEnds v' : senderEnds v = Some v' → step v v'
| s_arrive m v' : arrive m v = Some v' → step v v'
| s_read v' : readMsg v = Some v' → step v v'
| s_fails v' : readFails v = Some v' → step v v'
| s_write v' : writeUser v = Some v' → step v v'
| s_close : step v (Close v).

(** The packets that are on their way to the server, oldest first. *)
Definition onTheWay (v : visitor) : list UDPPacket :=
  match current v with Some c => written c ++ option_list (toSend c) | None => match at_ v with DDialing m => [m] | _ => [] end end.

Record visitor_ok (v : visitor) : Prop := {
  vk_order : concat (written <$> conns v) ++ onTheWay v ++ sendCh v `sublist_of` sent v;
  vk_old c : c ∈ conns v → isOpen c = false;
  vk_current : is_Some (current v) ↔ at_ v = DWorking;
  vk_done c : current v = Some c → readerDone c = true → isOpen c = false;
  vk_cap : (length (sendCh v) ≤ chanCap)%nat ∧ (length (readCh v) ≤ chanCap)%nat }.

(** The connection in use changes, the channels do not. *)
Lemma visitor_ok_current v c c' : visitor_ok v → current v = Some c →
  written c' ++ option_list (toSend c') `sublist_of` written c ++ option_list (toSend c) →
  (readerDone c' = true → isOpen c' = false) → visitor_ok (setCurrent c' v).
Proof.
  intros [H1 H2 H3 H4 H5] Hc Hw Hd. unfold onTheWay in H1. rewrite Hc in H1, H3. split; simpl; try done.
  - unfold onTheWay; simpl. etrans; [|exact H1]. apply sublist_app; [done|]. by apply sublist_app.
  - rewrite <-H3. by split; intros _.
  - by intros x [= <-].
Qed.

Lemma lose_first {A} (a b c d : list A) : a ++ b ++ c `sublist_of` d → a ++ c `sublist_of` d.
Proof. intros H. etrans; [|exact H]. apply sublist_app; [done|]. by apply sublist_inserts_l. Qed.

Lemma visitor_ok_sendNext success v v' : visitor_ok v → sendNext success v = Some v' → visitor_ok v'.
Proof.
  intros [H1 H2 H3 H4 H5]. unfold sendNext. destruct (current v) as [c|] eqn:Hc; [|done]. destruct (sendCh v) as [|m rest] eqn:Hs; [done|].
  destruct (toSend c) as [x|] eqn:Ht; [by rewrite bool_decide_eq_true_2, orb_true_r|]. rewrite bool_decide_eq_false_2, orb_false_r by (by intros [? ?]).
  destruct (senderDone c); [done|]. intros [= <-]. unfold onTheWay in H1. rewrite Hc, Ht in H1. simpl in H1, H5. rewrite app_nil_r in H1.
  split; simpl; try done.
  - unfold onTheWay; simpl. destruct (success && isOpen c); simpl; rewrite app_nil_r.
    + by rewrite <-app_assoc.
    + rewrite app_assoc in H1 |- *. by apply (lose_first _ [m] rest).
  - rewrite <-H3. by split; intros _.
  - intros x [= <-]. destruct (success && isOpen c); simpl; [auto|done].
  - split; [lia|apply H5].
Qed.

Lemma visitor_ok_dialed outcome v v' : visitor_ok v → dialed outcome v = Some v' → visitor_ok v'.
Proof.
  intros [H1 H2 H3 H4 H5]. unfold dialed. destruct (at_ v) as [|m| |] eqn:Ha; try done. intros [= <-].
  assert (Hn : current v = None) by (apply eq_None_not_Some; rewrite H3; done). unfold onTheWay in H1. rewrite Hn, Ha in H1.
  pose proof (lose_first _ [m] _ _ H1) as Hlost. destruct outcome; split; simpl; rewrite ?Hn; try done.
  - unfold onTheWay; simpl. rewrite fmap_app, concat_app. simpl. rewrite app_nil_r. by destruct (closed v).
  - intros x [Hx|Hx%list_elem_of_singleton]%elem_of_app; [by apply H2|by subst].
  - split; [by intros [? ?]|by destruct (closed v)].
  - by intros x [= <-].
Qed.

Lemma visitor_ok_step v v' : visitor_ok v → step v v' → visitor_ok v'.
Proof.
  intros Hv. pose proof Hv as [H1 H2 H3 H4 H5].
  intros [m|v1 H|outcome v1 H|v1 H|v1 H|success v1 H|success v1 H|v1 H|m v1 H|v1 H|v1 H|v1 H|].
  - unfold userPacket. destruct (closed v); [done|]. destruct (Nat.ltb_spec (length (sendCh v)) chanCap) as [Hl|]; [|done]. simpl. split; simpl; try done.
    + change (onTheWay _) with (onTheWay v). rewrite app_assoc in H1 |- *. rewrite app_assoc. by apply sublist_app.
    + rewrite length_app; simpl. lia.
  - revert H. unfold takeFirst. destruct (at_ v) eqn:Ha; try done. destruct (sendCh v) as [|m rest] eqn:Hs; [done|]. intros [= <-].
    assert (Hn : current v = None) by (apply eq_None_not_Some; rewrite H3; done). unfold onTheWay in H1. rewrite Hn, Ha in H1.
    split; simpl in *; try done; [unfold onTheWay; simpl; by rewrite Hn|rewrite Hn; split; [by intros [? ?]|done]|split; [lia|apply H5]].
  - by eapply visitor_ok_dialed.
  - revert H. unfold workerDone. destruct (at_ v) eqn:Ha; try done. destruct (current v) as [c|] eqn:Hc; [|done].
    destruct (readerDone c) eqn:Hr; [|done]. destruct (senderDone c); [|done]. intros [= <-]. unfold onTheWay in H1. rewrite Hc in H1. split; simpl; try done.
    + assert (Hway : onTheWay (mkVisitor (sent v) (sendCh v) (readCh v) (closed v) (if closed v then DEnded else DWaiting) (conns v ++ [c]) None (received v)) = [])
        by (unfold onTheWay; simpl; by destruct (closed v)).
      rewrite Hway, fmap_app, concat_app; simpl. rewrite app_nil_r, <-app_assoc. rewrite <-app_assoc in H1. etrans; [|exact H1].
      apply sublist_app; [done|]. apply sublist_app; [done|]. by apply sublist_inserts_l.
    + intros x [Hx|Hx%list_elem_of_singleton]%elem_of_app; [by apply H2|]. subst x. by apply H4.
    + split; [by intros [? ?]|]. by destruct (closed v).
  - revert H. unfold dispatcherEnds. destruct (at_ v) eqn:Ha; try done. destruct (closed v); [|done]. intros [= <-].
    assert (Hn : current v = None) by (apply eq_None_not_Some; rewrite H3; done). unfold onTheWay in H1. rewrite Hn, Ha in H1.
    split; simpl; try done; [unfold onTheWay; simpl; by rewrite Hn|rewrite Hn; split; [by intros [? ?]|done]].
  - revert H. unfold sendFirst. destruct (current v) as [c|] eqn:Hc; [|done]. destruct (toSend c) as [m|] eqn:Ht; [|done]. destruct (senderDone c); [done|]. intros [= <-].
    apply (visitor_ok_current _ c); try done; destruct (success && isOpen c); simpl; rewrite ?Ht, ?app_nil_r; try done; [by apply sublist_inserts_r|by apply H4].
  - by eapply visitor_ok_sendNext.
  - revert H. unfold senderEnds. destruct (current v) as [c|] eqn:Hc; [|done]. destruct (_ && _); [|done]. intros [= <-]. by apply (visitor_ok_current _ c).
  - revert H. unfold arrive. destruct (current v) as [c|] eqn:Hc; [|done]. destruct (isOpen c) eqn:Ho; [|done]. intros [= <-].
    apply (visitor_ok_current _ c); try done. simpl. intros Hr. by rewrite (H4 c eq_refl Hr) in Ho.
  - revert H. unfold readMsg. destruct (current v) as [c|] eqn:Hc; [|done]. destruct (readerDone c); [done|].
    destruct (incoming c) as [|[m|] rest]; [done| |intros [= <-]; by apply (visitor_ok_current _ c)].
    destruct (closed v); [intros [= <-]; by apply (visitor_ok_current _ c)|]. destruct (Nat.ltb_spec (length (readCh v)) chanCap); [|done]. intros [= <-].
    unfold onTheWay in H1. rewrite Hc in H1. split; simpl; try done; [rewrite <-H3; by split; intros _|by intros x [= <-]|]. rewrite length_app; simpl. lia.
  - revert H. unfold readFails. destruct (current v) as [c|] eqn:Hc; [|done]. destruct (readerDone c); [done|]. intros [= <-]. by apply (visitor_ok_current _ c).
  - revert H. unfold writeUser. destruct (readCh v) as [|m rest] eqn:Hr; [done|]. intros [= <-]. split; simpl in *; try done. lia.
  - by split.
Qed.

(** a SUDP visitor sends the datagrams of its users in order and none twice,
    over all connections it opens one after the other: what was written is a part
    of what the users sent.  At any time at most one connection is open, the one
    its worker uses, and the channels keep their bounds. *)
Theorem sudp_order v : rtc step newVisitor v →
  concat (written <$> conns v ++ option_list (current v)) `sublist_of` sent v ∧
  (∀ c, c ∈ conns v → isOpen c = false) ∧ (is_Some (current v) ↔ at_ v = DWorking) ∧
  (length (sendCh v) ≤ chanCap)%nat ∧ (length (readCh v) ≤ chanCap)%nat.
Proof.
  intros H. assert (Hn : visitor_ok newVisitor) by (split; simpl; first [done|by intros c ?%elem_of_nil|by split; [intros [? ?]|]|unfold chanCap; lia]).
  assert (Hv : visitor_ok v) by (revert Hn; induction H; [done|]; intros Hx; apply IHrtc; by eapply visitor_ok_step). clear Hn H.
  destruct Hv as [H1 H2 H3 H4 H5]. split_and!; try done; try apply H5.
  rewrite fmap_app, concat_app. etrans; [|exact H1]. apply sublist_app; [done|]. apply sublist_inserts_r. unfold onTheWay.
  destruct (current v) as [c|]; simpl; [rewrite app_nil_r; by apply sublist_inserts_r|apply sublist_nil_l].
Qed.

Definition demoPacket : UDPPacket := mkUDPPacket [x68] None None.
Definition demoRun : option visitor :=
  v ← takeFirst (userPacket demoPacket newVisitor); v ← dialed Works v; sendFirst true v.
Definition demoV : visitor := Eval vm_compute in default newVisitor demoRun.

Lemma sudp_order_witness : concat (written <$> conns demoV ++ option_list (current demoV)) `sublist_of` [demoPacket] ∧ at_ demoV = DWorking.
Proof.
  split; [|reflexivity]. apply (sudp_order demoV).
  eapply rtc_l; [by apply (s_user _ demoPacket)|]. eapply rtc_l; [eapply s_take; reflexivity|].
  eapply rtc_l; [eapply (s_dialed _ Works); reflexivity|]. eapply rtc_l; [eapply (s_first _ true); reflexivity|]. apply rtc_refl.
Defined.
End Sudp.
