(* ===== verification/ClientWork.v ===== *)
(** * Work connections at the client: [client/control.go], [client/proxy/proxy.go], [client/proxy/sudp.go]

    When the server needs a connection for a user, the client opens one, names its
    run id, learns which proxy it is for and joins it with the local service of
    that proxy.  [handleReqWorkConn] is the whole way of one connection, as a
    function of what the network does; its effects are a list.  [Streams] has the
    layers both ends put on a work connection, [Heartbeat] the heartbeats of a
    control. *)
From S2P Require Import Prelude Bytes Chars Wire Messages Registry Control Visitor Service Config ClientProxy ServerProxy.

(** ** Layers of a work connection *)
Module Streams.

Inductive layer := LLimit (bytes : Z) | LEncryption (key : string) | LCompression.

(** When [NewProxy] of either end makes a limiter. *)
Definition limiter (mode : string) (t : Config.ProxyTransport) : list layer :=
  let limitBytes := Config.amount (Config.BandwidthLimit t) in
  if (0 <? limitBytes) && bool_decide (Config.BandwidthLimitMode t = mode) then [LLimit limitBytes] else [].

Definition encryption (key : string) (t : Config.ProxyTransport) : list layer := if Config.UseEncryption t then [LEncryption key] else [].
Definition compression (t : Config.ProxyTransport) : list layer := if Config.UseCompression t then [LCompression] else [].

(** [wrapWorkConn]: the layers from the connection to the user of it; [None] is
    the error, after which the connection is closed. *)
Definition wrapWorkConn (key : string) (encOk : bool) (t : Config.ProxyTransport) : option (list layer) :=
  if Config.UseEncryption t && negb encOk then None
  else Some (limiter Config.BandwidthLimitModeClient t ++ encryption key t ++ compression t).

(** The same at the server: [handleUserTCPConnection]. *)
Definition serverLayers (key : string) (t : Config.ProxyTransport) : list layer :=
  encryption key t ++ compression t ++ limiter Config.BandwidthLimitModeServer t.

(** What a layer does to the bytes, with the streams of the library as parameters. *)
Section streams.
Context (encrypt : string → bytes → bytes) (decrypt : string → bytes → option bytes).
Context (compress : bytes → bytes) (decompress : bytes → option bytes).

Definition writeLayer (l : layer) (b : bytes) : bytes :=
  match l with LLimit _ => b | LEncryption k => encrypt k b | LCompression => compress b end.
Definition readLayer (b : option bytes) (l : layer) : option bytes :=
  match l with LLimit _ => b | LEncryption k => b ≫= decrypt k | LCompression => b ≫= decompress end.

(** The bytes on the connection when [b] is written, and what is read from them. *)
Definition writeThrough (ls : list layer) (b : bytes) : bytes := foldr writeLayer b ls.
Definition readThrough (ls : list layer) (b : bytes) : option bytes := foldl readLayer (Some b) ls.

Definition isLimit (l : layer) : bool := match l with LLimit _ => true | _ => false end.

Lemma writeThrough_unlimited ls b : writeThrough ls b = writeThrough (filter (λ l, isLimit l = false) ls) b.
Proof. induction ls as [|[] ls IH]; simpl; [done|..]; by rewrite IH. Qed.

Lemma readThrough_unlimited ls b : readThrough ls b = readThrough (filter (λ l, isLimit l = false) ls) b.
Proof.
  unfold readThrough. generalize (Some b). induction ls as [|[] ls IH]; intros o; simpl; [done|..]; by rewrite IH.
Qed.

Hypothesis decrypt_encrypt : ∀ k b, decrypt k (encrypt k b) = Some b.
Hypothesis decompress_compress : ∀ b, decompress (compress b) = Some b.

Lemma read_write ls b : readThrough ls (writeThrough ls b) = Some b.
Proof using decrypt_encrypt decompress_compress.
  unfold readThrough. induction ls as [|[| |] ls IH]; simpl; rewrite ?decrypt_encrypt, ?decompress_compress; done.
Qed.

Lemma same_layers ls ls' b : filter (λ l, isLimit l = false) ls = filter (λ l, isLimit l = false) ls' → readThrough ls (writeThrough ls' b) = Some b.
Proof using decrypt_encrypt decompress_compress. intros H. by rewrite readThrough_unlimited, H, writeThrough_unlimited, read_write. Qed.
End streams.

Lemma limiter_filtered mode t : filter (λ l, isLimit l = false) (limiter mode t) = [].
Proof. unfold limiter. by destruct (_ && _). Qed.

Lemma layers_agree key ls t : wrapWorkConn key true t = Some ls →
  filter (λ l, isLimit l = false) ls = filter (λ l, isLimit l = false) (serverLayers key t).
Proof.
  unfold wrapWorkConn, serverLayers. rewrite andb_false_r. intros [= <-]. by rewrite !filter_app, !limiter_filtered, app_nil_r.
Qed.

Lemma server_transport c : Config.Transport (Config.GetBaseConfig (Config.serverView c)) =
  let t := Config.Transport (Config.GetBaseConfig c) in
  Config.mkTransport (Config.UseEncryption t) (Config.UseCompression t) (Config.BandwidthLimit t) (Config.BandwidthLimitMode t) EmptyString.
Proof. by destruct c. Qed.

(** both ends of a work connection put the same layers on it.  The client takes
    them from its configuration, the server from the one it rebuilt from the message
    of the client; with the same key each end reads exactly what the other wrote,
    and a bandwidth limit of a completed configuration is applied at one end only,
    the one its mode names. *)
Theorem work_streams_agree encrypt decrypt compress decompress key c ls b :
  (∀ k x, decrypt k (encrypt k x) = Some x) → (∀ x, decompress (compress x) = Some x) →
  let ct := Config.Transport (Config.GetBaseConfig (Config.Complete c)) in
  let st := Config.Transport (Config.GetBaseConfig (Config.serverView (Config.Complete c))) in
  wrapWorkConn key true ct = Some ls →
  readThrough decrypt decompress ls (writeThrough encrypt compress (serverLayers key st) b) = Some b ∧
  readThrough decrypt decompress (serverLayers key st) (writeThrough encrypt compress ls b) = Some b ∧
  (0 < Config.amount (Config.BandwidthLimit ct) → Config.BandwidthLimitMode ct = "client"%string ∨ Config.BandwidthLimitMode ct = "server"%string →
   length (filter (λ l, isLimit l = true) (ls ++ serverLayers key st)) = 1%nat).
Proof.
  intros He Hc ct st Hw. assert (Hs : serverLayers key st = serverLayers key ct) by (unfold st; by rewrite server_transport).
  rewrite Hs. pose proof (layers_agree _ _ _ Hw) as Ha. split; [by apply same_layers|]. split; [by apply same_layers|].
  intros Hpos Hmode. unfold wrapWorkConn in Hw. rewrite andb_false_r in Hw. injection Hw as <-.
  unfold serverLayers, limiter, encryption, compression. apply Z.ltb_lt in Hpos. rewrite Hpos.
  destruct Hmode as [-> | ->]; simpl; destruct (Config.UseEncryption ct), (Config.UseCompression ct); reflexivity.
Qed.

Definition demoBase : Config.ProxyBaseConfig :=
  Config.mkBase "web" "tcp" None ∅ (Config.mkTransport true true (Config.mkQuantity (ofStr "1KB") 1024) "client" "v1") ∅
    (Config.mkLoadBalancer "" "") (Config.HealthCheck Config.zeroBase) "127.0.0.1" 80 (Config.Plugin Config.zeroBase).
Definition demoProxy : Config.ProxyConfigurer := Config.TCPProxyConfig demoBase 6000.
Definition demoEncrypt (k : string) (b : bytes) : bytes := if decide (k = "key"%string) then reverse b else b.
Definition demoDecrypt (k : string) (b : bytes) : option bytes := Some (demoEncrypt k b).

Lemma work_streams_agree_witness :
  readThrough demoDecrypt Some [LLimit 1024; LEncryption "key"; LCompression]
    (writeThrough demoEncrypt id (serverLayers "key" (Config.Transport demoBase)) [x01; x02]) = Some [x01; x02].
Proof.
  apply (work_streams_agree demoEncrypt demoDecrypt id Some "key" demoProxy [LLimit 1024; LEncryption "key"; LCompression] [x01; x02]);
    [|done|reflexivity].
  intros k x. unfold demoDecrypt, demoEncrypt. case_decide; [by rewrite reverse_involutive|done].
Defined.
End Streams.

(** ** One work connection *)
Module ClientWork.
Import Streams.

Section work.
(** [resolve host port] is [net.ResolveTCPAddr]. *)
Context {A : Type} (resolve : chars → Z → option A).

(** The header of the PROXY protocol; the version is 1 for v1, else 2. *)
Record header := mkHeader { version : Z; hSrc : A; hDst : A }.

Definition BuildProxyProtocolHeaderStruct (src dst : A) (v : string) : header :=
  mkHeader (if decide (v = "v1"%string) then 1 else 2) src dst.

(** What happens to the connection and to the one to the local service, in
    order.  [EOwn]: the handler of UDP or XTCP proxies has it.  The connections of
    [EJoin] are closed when either ends. *)
Inductive effect :=
| ENew (conn : nat) (run : string) (m : Auth.signed)
| EClose (conn : nat)
| ECallback (conn : nat)
| EOwn (conn : nat)
| EForward (conn : nat) (ls : list layer) (c : Messages.codec)
| EPlugin (conn : nat) (ls : list layer) (addrs : option (A * A)) (h : option header)
| EDial (ip : string) (port : Z) (local : option nat)
| EHeader (local : nat) (h : header) (ok : bool)
| ECloseLocal (local : nat)
| EJoin (local conn : nat) (ls : list layer).

(** What the client finds: whether encryption can be set up, the local service,
    the write of the header, and the answer of the callback if one is set. *)
Record env := mkEnv { encOk : bool; local : option nat; headerOk : bool; callback : option bool }.

Definition hasSource (m : UserConn.StartWorkConn) : bool :=
  negb (bool_decide (UserConn.SrcAddr m = [])) && negb (bool_decide (UserConn.SrcPort m = 0)).

Definition dstHost (m : UserConn.StartWorkConn) : chars :=
  if decide (UserConn.DstAddr m = []) then ofStr "127.0.0.1" else UserConn.DstAddr m.

(** The addresses the handler resolves; [None] is an error. *)
Definition resolveAddrs (m : UserConn.StartWorkConn) : option (option (A * A)) :=
  if hasSource m then
    match resolve (UserConn.SrcAddr m) (UserConn.SrcPort m) with
    | None => None
    | Some src => match resolve (dstHost m) (UserConn.DstPort m) with None => None | Some dst => Some (Some (src, dst)) end
    end
  else Some None.

Definition proxyHeader (cfg : Config.ProxyBaseConfig) (addrs : option (A * A)) : option header :=
  let v := Config.ProxyProtocolVersion (Config.Transport cfg) in
  match addrs with
  | Some (src, dst) => if decide (v ≠ EmptyString) then Some (BuildProxyProtocolHeaderStruct src dst v) else None
  | None => None
  end.

(** [Run] has created the plugin when its type is set. *)
Definition hasPlugin (cfg : Config.ProxyBaseConfig) : bool := negb (bool_decide (Config.pluginType (Config.Plugin cfg) = EmptyString)).

Definition handleTCPWorkConnection (key : string) (cfg : Config.ProxyBaseConfig) (e : env) (m : UserConn.StartWorkConn) (conn : nat) : list effect :=
  match resolveAddrs m with
  | None => [EClose conn]
  | Some addrs =>
      match wrapWorkConn key (encOk e) (Config.Transport cfg) with
      | None => [EClose conn]
      | Some remote =>
          let h := proxyHeader cfg addrs in
          if hasPlugin cfg then [EPlugin conn remote addrs h]
          else
            EDial (Config.LocalIP cfg) (Config.LocalPort cfg) (local e) ::
            match local e with
            | None => [EClose conn]
            | Some l =>
                match h with
                | Some h =>
                    EHeader l h (headerOk e) :: if headerOk e then [EJoin l conn remote] else [EClose conn; ECloseLocal l]
                | None => [EJoin l conn remote]
                end
            end
      end
  end.

(** [BaseProxy.InWorkConn]: a callback may take the connection. *)
Definition baseInWorkConn (key : string) (cfg : Config.ProxyBaseConfig) (e : env) (m : UserConn.StartWorkConn) (conn : nat) : list effect :=
  match callback e with
  | Some false => [ECallback conn]
  | _ => handleTCPWorkConnection key cfg e m conn
  end.

(** [SUDPProxy.InWorkConn] up to its goroutines and the forwarder. *)
Definition sudpInWorkConn (key wireProtocol codec : string) (cfg : Config.ProxyBaseConfig) (e : env) (conn : nat) : list effect :=
  match wrapWorkConn key (encOk e) (Config.Transport cfg) with
  | None => [EClose conn]
  | Some remote =>
      match Messages.NewUDPPacketReadWriter wireProtocol codec with
      | Err _ => [EClose conn]
      | Ok c => [EForward conn remote c]
      end
  end.

Record session := mkSession { user : string; runID : string; encryptionKey : string; wireProtocol : string; udpPacketCodec : string }.

(** Each type of proxy has its [InWorkConn]. *)
Definition proxyInWorkConn (s : session) (c : Config.ProxyConfigurer) (e : env) (m : UserConn.StartWorkConn) (conn : nat) : list effect :=
  match c with
  | Config.UDPProxyConfig _ _ | Config.XTCPProxyConfig _ _ _ _ => [EOwn conn]
  | Config.SUDPProxyConfig b _ _ => sudpInWorkConn (encryptionKey s) (wireProtocol s) (udpPacketCodec s) b e conn
  | _ => baseInWorkConn (encryptionKey s) (Config.GetBaseConfig c) e m conn
  end.

(** [Manager.HandleWorkConn] with [Wrapper.InWorkConn]. *)
Definition handleWorkConn (s : session) (pm : Wrapper.Manager (Cfg := Config.ProxyConfigurer)) (e : env) (name : string)
    (m : UserConn.StartWorkConn) (conn : nat) : list effect :=
  match Wrapper.proxies pm !! name with
  | Some pw => if Wrapper.InWorkConn pw then proxyInWorkConn s (Wrapper.Cfg_ pw) e m conn else [EClose conn]
  | None => [EClose conn]
  end.

(** How the new connection goes: the connection, the message the authentication
    makes, the write of it and the answer of the server. *)
Record request := mkRequest { connected : option nat; signed_ : option Auth.signed; written : bool; answer : option UserConn.StartWorkConn }.

Definition handleReqWorkConn (s : session) (pm : Wrapper.Manager (Cfg := Config.ProxyConfigurer)) (e : env) (r : request) : list effect :=
  match connected r with
  | None => []
  | Some conn =>
      match signed_ r with
      | None => [EClose conn]
      | Some sm =>
          ENew conn (runID s) sm ::
          if negb (written r) then [EClose conn]
          else match answer r with
          | None => [EClose conn]
          | Some m =>
              if negb (bool_decide (UserConn.Error m = EmptyString)) then [EClose conn]
              else handleWorkConn s pm e (Naming.StripUserPrefix (user s) (UserConn.ProxyName m)) m conn
          end
      end
  end.

(** ** What is proved *)

(** The effects that end the client's care for the connection, or for the one to
    the local service. *)
Definition settles (conn : nat) (x : effect) : bool :=
  match x with
  | EClose k | ECallback k | EOwn k | EForward k _ _ | EPlugin k _ _ _ | EJoin _ k _ => bool_decide (k = conn)
  | _ => false
  end.
Definition settlesLocal (l : nat) (x : effect) : bool :=
  match x with ECloseLocal k | EJoin k _ _ => bool_decide (k = l) | _ => false end.

(** Exactly one of them. *)
Definition settled (conn : nat) (es : list effect) : Prop :=
  length (filter (λ x, settles conn x = true) es) = 1%nat ∧
  (∀ ip port l, EDial ip port (Some l) ∈ es → length (filter (λ x, settlesLocal l x = true) es) = 1%nat).
Ltac settle_one := split; [cbn; repeat (rewrite bool_decide_eq_true_2 by done); reflexivity|];
  intros ? ? ? Hin; repeat (apply elem_of_cons in Hin as [Hin|Hin]; [try done|]); try (by apply elem_of_nil in Hin);
  injection Hin as -> -> ->; cbn; by rewrite bool_decide_eq_true_2.

Lemma settled_new conn k run sm es : settled conn es → settled conn (ENew k run sm :: es).
Proof.
  intros [H1 H2]. split; [exact H1|]. intros ip port l Hin. apply elem_of_cons in Hin as [Hin|Hin]; [done|by apply (H2 ip port)].
Qed.

Lemma settled_tcp key cfg e m conn : settled conn (handleTCPWorkConnection key cfg e m conn).
Proof.
  unfold handleTCPWorkConnection. destruct (resolveAddrs m) as [addrs|]; [|settle_one].
  destruct (wrapWorkConn _ _ _) as [ls|]; [|settle_one]. destruct (hasPlugin cfg); [settle_one|].
  destruct (local e) as [l|]; [|settle_one]. destruct (proxyHeader cfg addrs) as [h|]; [destruct (headerOk e)|]; settle_one.
Qed.

Lemma settled_handle s pm e name m conn : settled conn (handleWorkConn s pm e name m conn).
Proof.
  unfold handleWorkConn. destruct (Wrapper.proxies pm !! name) as [pw|]; [|settle_one]. destruct (Wrapper.InWorkConn pw); [|settle_one].
  assert (Hb : ∀ b, settled conn (baseInWorkConn (encryptionKey s) b e m conn)).
  { intros b. unfold baseInWorkConn. destruct (callback e) as [[]|]; [apply settled_tcp|settle_one|apply settled_tcp]. }
  destruct (Wrapper.Cfg_ pw); simpl; try apply Hb; try settle_one. unfold sudpInWorkConn.
  destruct (wrapWorkConn _ _ _) as [ls|]; [|settle_one]. destruct (Messages.NewUDPPacketReadWriter _ _); settle_one.
Qed.

(** The way of a connection that is joined. *)
Definition joinedBy (cfg : Config.ProxyBaseConfig) (addrs : option (A * A)) (l conn : nat) (ls : list layer) : list effect :=
  EDial (Config.LocalIP cfg) (Config.LocalPort cfg) (Some l) ::
  option_list ((λ h, EHeader l h true) <$> proxyHeader cfg addrs) ++ [EJoin l conn ls].

Lemma tcp_join key cfg e m conn l k ls : EJoin l k ls ∈ handleTCPWorkConnection key cfg e m conn →
  k = conn ∧ hasPlugin cfg = false ∧ wrapWorkConn key (encOk e) (Config.Transport cfg) = Some ls ∧
  ∃ addrs, resolveAddrs m = Some addrs ∧ handleTCPWorkConnection key cfg e m conn = joinedBy cfg addrs l conn ls.
Proof.
  unfold handleTCPWorkConnection, joinedBy. destruct (resolveAddrs m) as [addrs|]; [|set_solver].
  destruct (wrapWorkConn _ _ _) as [ls'|]; [|set_solver]. destruct (hasPlugin cfg); [set_solver|].
  destruct (local e) as [l'|]; [|set_solver]. intros Hin.
  assert (Heq : l = l' ∧ k = conn ∧ ls = ls' ∧ (headerOk e = true ∨ proxyHeader cfg addrs = None)).
  { destruct (proxyHeader cfg addrs) as [h|]; [destruct (headerOk e)|]; set_solver. }
  destruct Heq as (-> & -> & -> & Hh). do 3 (split; [done|]). exists addrs. split; [done|].
  destruct Hh as [Hh|Hh]; rewrite Hh; [|done]. by destruct (proxyHeader cfg addrs).
Qed.

(** C38: the client takes care of every work connection it opens.  Whatever fails,
    the connection ends in exactly one way, closed or given to the one who uses it,
    and so does the connection to the local service.  It is joined with a local
    service only when the server accepted the request and named a proxy that runs
    here, with the address that proxy is configured with, through the layers of its
    configuration, and after the header of the PROXY protocol if one is due. *)
Theorem work_conn_settled s pm e r conn : connected r = Some conn →
  let es := handleReqWorkConn s pm e r in
  settled conn es ∧
  (∀ l k ls, EJoin l k ls ∈ es → k = conn ∧ ∃ sm m pw cfg addrs,
     signed_ r = Some sm ∧ answer r = Some m ∧ UserConn.Error m = EmptyString ∧
     Wrapper.proxies pm !! Naming.StripUserPrefix (user s) (UserConn.ProxyName m) = Some pw ∧ Wrapper.Phase pw = Wrapper.ProxyPhaseRunning ∧
     cfg = Config.GetBaseConfig (Wrapper.Cfg_ pw) ∧ hasPlugin cfg = false ∧ wrapWorkConn (encryptionKey s) (encOk e) (Config.Transport cfg) = Some ls ∧
     resolveAddrs m = Some addrs ∧ es = ENew conn (runID s) sm :: joinedBy cfg addrs l conn ls).
Proof.
  intros Hc. unfold handleReqWorkConn. rewrite Hc. destruct (signed_ r) as [sm|]; [|split; [settle_one|set_solver]].
  destruct (written r); cbn [negb]; [|split; [apply settled_new; settle_one|set_solver]].
  destruct (answer r) as [m|]; [|split; [apply settled_new; settle_one|set_solver]].
  destruct (bool_decide (UserConn.Error m = EmptyString)) eqn:Herr; cbn [negb]; [|split; [apply settled_new; settle_one|set_solver]].
  apply bool_decide_eq_true in Herr. split; [apply settled_new, settled_handle|]. intros l k ls Hin.
  apply elem_of_cons in Hin as [Hin|Hin]; [done|]. unfold handleWorkConn in *. set (name := Naming.StripUserPrefix _ _) in *.
  destruct (Wrapper.proxies pm !! name) as [pw|] eqn:Hpw; [|set_solver].
  unfold Wrapper.InWorkConn in *. destruct (bool_decide (Wrapper.Phase pw = _)) eqn:Hph; [|set_solver]. apply bool_decide_eq_true in Hph.
  assert (Hbase : proxyInWorkConn s (Wrapper.Cfg_ pw) e m conn = handleTCPWorkConnection (encryptionKey s) (Config.GetBaseConfig (Wrapper.Cfg_ pw)) e m conn ∧
    EJoin l k ls ∈ handleTCPWorkConnection (encryptionKey s) (Config.GetBaseConfig (Wrapper.Cfg_ pw)) e m conn).
  { unfold proxyInWorkConn, sudpInWorkConn, baseInWorkConn in *.
    destruct (Wrapper.Cfg_ pw), (callback e) as [[]|]; first [by split|exfalso; repeat case_match; set_solver]. }
  destruct Hbase as [-> Hj]. apply tcp_join in Hj as (-> & Hp & Hw & addrs & Ha & Heq). split; [done|].
  exists sm, m, pw, (Config.GetBaseConfig (Wrapper.Cfg_ pw)), addrs. split_and!; try done. by rewrite Heq.
Qed.
(** a user of a TCP proxy reaches the local service of that proxy.  When the
    server hands the work connection to the user at [src] of the proxy that the
    wrapper [pw] has registered, the client dials the address [pw] is configured
    with, tells it where the user comes from if the configuration asks for it, and
    joins the two; the name of the proxy is found again behind the prefix of the
    user of the client. *)
Theorem user_reaches_service s pm e conn sm pw n b port src dst addrs l ls :
  Wrapper.proxies pm !! n = Some pw → Wrapper.wireName pw = Naming.AddUserPrefix (user s) n → Wrapper.Phase pw = Wrapper.ProxyPhaseRunning →
  Wrapper.Cfg_ pw = Config.TCPProxyConfig b port → hasPlugin b = false → callback e ≠ Some false → local e = Some l → headerOk e = true →
  let m := UserConn.startMsg (Wrapper.wireName pw) (Some src) (Some dst) in
  resolveAddrs m = Some addrs → wrapWorkConn (encryptionKey s) (encOk e) (Config.Transport b) = Some ls →
  handleReqWorkConn s pm e (mkRequest (Some conn) (Some sm) true (Some m)) = ENew conn (runID s) sm :: joinedBy b addrs l conn ls.
Proof.
  intros Hpw Hn Hph Hcfg Hpl Hcb Hl Hh m Ha Hw. unfold handleReqWorkConn, handleWorkConn. cbn [connected signed_ written answer].
  assert (Hm : UserConn.ProxyName m = Wrapper.wireName pw ∧ UserConn.Error m = EmptyString) by done. destruct Hm as [-> ->].
  rewrite Hn, Naming.Strip_Add, Hpw. unfold Wrapper.InWorkConn. rewrite Hph, Hcfg, !bool_decide_eq_true_2 by done. cbn [negb].
  assert (Hb : baseInWorkConn (encryptionKey s) b e m conn = handleTCPWorkConnection (encryptionKey s) b e m conn)
    by (unfold baseInWorkConn; by destruct (callback e) as [[]|]).
  simpl. rewrite Hb. unfold handleTCPWorkConnection, joinedBy. rewrite Ha, Hw, Hpl, Hl, Hh. by destruct (proxyHeader b addrs).
Qed.
End work.

(** the server admits the work connections of its clients.  The request of a
    client that signs with the token of the server and the scopes it asks for, on a
    connection of the protocol of its session, puts the connection at the end of the
    pool of the control that runs under its run id, while the pool has room; nothing
    else changes. *)
Theorem work_conn_admitted {R : Type} md5hex now (client server : Auth.TokenAuth) (w : Control.World R) a sc c conn :
  Auth.token client = Auth.token server → (∀ x, x ∈ Auth.additionalAuthScopes server → x ∈ Auth.additionalAuthScopes client) →
  Service.installed a sc w → Control.closed w = false → Control.ctls w !! a = Some c → Control.state c = Control.controlStateRunning →
  Control.chClosed (Control.workConnCh c) = false → Z.of_nat (length (Control.buf (Control.workConnCh c))) < Control.cap (Control.workConnCh c) →
  Service.RegisterWorkConn md5hex (Auth.TokenVerifier server) [] (Control.RunID sc) (Auth.SetNewWorkConn md5hex now client (Auth.mkSigned 0 EmptyString))
    conn (Control.WireProtocol sc) false w =
  (Ok (), Control.putControl a (Control.withChan (Control.mkChan (Control.buf (Control.workConnCh c) ++ [conn]) (Control.cap (Control.workConnCh c)) false) c) w).
Proof.
  intros Ht Hs (e & en & c' & He & Hen & Hctl & Hc' & Hsc & Hid & _) Hw Hc Hst Hch Hroom. rewrite Hc in Hc'. injection Hc' as <-.
  assert (Hlock : Control.lockCurrentRun (Control.RunID sc) false w = Some e) by (eapply Service.lockCurrentRun_current; [done|done|by rewrite Hw]).
  assert (Hget : Control.GetByID (Control.RunID sc) w = Some a)
    by (unfold Control.GetByID, Control.getBody; by rewrite Hlock, Hen, Hctl, Hc, decide_True).
  unfold Service.RegisterWorkConn. rewrite Hget, Hc, Hsc, bool_decide_eq_true_2 by done. cbn [negb].
  change (Plugin.handleMutableContent [] _ ?x) with (@Ok string _ x). cbn [Auth.verifyNewWorkConn]. rewrite Auth.NewWorkConn_verified by done.
  unfold Control.RegisterWorkConn, Control.runID. rewrite Hc, Hsc, Hlock. unfold Control.workConnBody, Control.owns.
  rewrite Hc, Hen, Hctl, Hid, Z.eqb_refl, !bool_decide_eq_true_2, Hch by done. apply Z.ltb_lt in Hroom. cbn. by rewrite Hroom.
Qed.

Definition demoResolve (host : chars) (port : Z) : option (chars * Z) := Some (host, port).
Definition demoSession : session := mkSession "u" "run1" "key" "v2" "".
Definition demoWrapper : Wrapper.Wrapper (Cfg := Config.ProxyConfigurer) :=
  Wrapper.mkWrapper Wrapper.ProxyPhaseRunning "" demoProxy "" false 0 0 0 false "u.web".
Definition demoPm : Wrapper.Manager (Cfg := Config.ProxyConfigurer) := Wrapper.mkManager {[ "web"%string := demoWrapper ]} [] [] "u" false.
Definition demoEnv : env := mkEnv true (Some 9%nat) true None.
Definition demoStart : UserConn.StartWorkConn := UserConn.startMsg "u.web" (Some (ofStr "1.2.3.4:5000")) (Some (ofStr "5.6.7.8:80")).
Definition demoAddrs := Some ((ofStr "1.2.3.4", 5000), (ofStr "5.6.7.8", 80)).
Definition demoLayers : list layer := [LLimit 1024; LEncryption "key"; LCompression].
Definition demoSigned : Auth.signed := Auth.mkSigned 0 "".

Lemma work_conn_settled_witness :
  settled 4 (handleReqWorkConn demoResolve demoSession demoPm demoEnv (mkRequest (Some 4%nat) (Some demoSigned) true (Some demoStart))).
Proof. apply (work_conn_settled demoResolve demoSession demoPm demoEnv (mkRequest (Some 4%nat) (Some demoSigned) true (Some demoStart)) 4). reflexivity. Defined.

Lemma user_reaches_service_witness :
  handleReqWorkConn demoResolve demoSession demoPm demoEnv (mkRequest (Some 4%nat) (Some demoSigned) true (Some demoStart)) =
  [ENew 4 "run1" demoSigned; EDial "127.0.0.1" 80 (Some 9%nat);
   EHeader 9 (mkHeader 1 (ofStr "1.2.3.4", 5000) (ofStr "5.6.7.8", 80)) true; EJoin 9 4 demoLayers].
Proof.
  apply (user_reaches_service demoResolve demoSession demoPm demoEnv 4 demoSigned demoWrapper "web" demoBase 6000
    (ofStr "1.2.3.4:5000") (ofStr "5.6.7.8:80") demoAddrs 9 demoLayers); by vm_compute.
Defined.

Definition demoWorld : Control.World Registry.ClientRegistry := Service.demoHandle.2.

Lemma demo_entries : map_Forall (λ e _, e = 0%nat) (Control.entries demoWorld).
Proof. apply (bool_decide_unpack _). by vm_compute. Qed.
Lemma demo_runs : map_Forall (λ r _, r = "run1"%string) (Control.ctlsByRunID demoWorld).
Proof. apply (bool_decide_unpack _). by vm_compute. Qed.

Lemma work_conn_admitted_witness : ∃ c w',
  Control.ctls demoWorld !! 0%nat = Some c ∧
  Service.RegisterWorkConn id (Auth.TokenVerifier (Auth.mkTokenAuth [Auth.AuthScopeNewWorkConns] "t")) [] "run1"
    (Auth.SetNewWorkConn id 5 (Auth.mkTokenAuth [Auth.AuthScopeNewWorkConns] "t") (Auth.mkSigned 0 EmptyString)) 4 "v2" false demoWorld = (Ok (), w').
Proof.
  eexists _, _. split; [vm_compute; reflexivity|].
  eapply (work_conn_admitted id 5 (Auth.mkTokenAuth [Auth.AuthScopeNewWorkConns] "t") (Auth.mkTokenAuth [Auth.AuthScopeNewWorkConns] "t")
    demoWorld 0 (Service.sessionOf Service.demoCfg Service.demoPeer Service.demoLogin));
    [done|done| |by vm_compute|by vm_compute|reflexivity|reflexivity|by vm_compute].
  eexists 0%nat, _, _. split_and!; try (vm_compute; reflexivity).
  - intros e' en' He' _. exact (demo_entries _ _ He').
  - intros r Hr. exact (demo_runs _ _ Hr).
Defined.
End ClientWork.

(** ** Heartbeats: [server/control.go], [client/control.go] *)
Module Heartbeat.

Definition Second : Z := 10 ^ 9.

(** [time.Duration(seconds) * time.Second] *)
Definition limitOf (seconds : Z) : Z := int64 (seconds * Second).

(** At each check the last sign of life is not older than [limit]. *)
Definition kept {E} (check : Z → E) (lastSign : list E → Z) (limit : Z) (es : list E) : Prop :=
  ∀ pre now post, es = pre ++ check now :: post → now - lastSign pre ≤ limit.

Lemma checks_snoc {E} (check : Z → E) lastSign limit es x :
  (∀ pre now post, es ++ [x] = pre ++ check now :: post → now - lastSign pre ≤ limit) ↔
  kept check lastSign limit es ∧ (∀ now, x = check now → now - lastSign es ≤ limit).
Proof.
  split.
  - intros H. split; [intros pre now post ->; by apply (H pre now (post ++ [x])); rewrite <-app_assoc|].
    intros now ->. by apply (H es now []).
  - intros [H1 H2] pre now post E'. destruct post as [|y post _] using rev_ind.
    + apply app_inj_tail in E' as [-> ->]. by apply H2.
    + rewrite app_comm_cons, app_assoc in E'. apply app_inj_tail in E' as [-> _]. by eapply H1.
Qed.

(** *** The server *)

Inductive pingError := PingPlugin (reason : string) | PingAuth (e : Auth.error).

Record server := mkServer { lastPing : Z; open_ : bool; pongs : list (option pingError) }.

Section server.
Context (md5hex : string → string) (v : Auth.Verifier) (plugins : list (Plugin.Plugin Auth.signed)).

Definition judge (m : Auth.signed) : option pingError :=
  match Plugin.handleMutableContent plugins Plugin.OpPing m with
  | Err reason => Some (PingPlugin reason)
  | Ok m => match Auth.verifyPing md5hex v m with Err e => Some (PingAuth e) | Ok _ => None end
  end.

Definition handlePing (now : Z) (m : Auth.signed) (s : server) : server :=
  match judge m with
  | Some e => mkServer (lastPing s) (open_ s) (pongs s ++ [Some e])
  | None => mkServer now (open_ s) (pongs s ++ [None])
  end.

(** The body of [heartbeatWorker] at time [now]; it is not started without a timeout. *)
Definition serverCheck (timeout now : Z) (s : server) : server :=
  if timeout <=? 0 then s
  else if limitOf timeout <? now - lastPing s then mkServer (lastPing s) false (pongs s) else s.

Inductive event := APing (now : Z) (m : Auth.signed) | ACheck (now : Z).

Definition serverStep (timeout : Z) (s : server) (x : event) : server :=
  match x with APing now m => handlePing now m s | ACheck now => serverCheck timeout now s end.

Definition serverRun (timeout start : Z) (es : list event) : server := foldl (serverStep timeout) (mkServer start true []) es.

(** The time of the last ping that was accepted. *)
Definition lastAccepted (start : Z) (es : list event) : Z :=
  foldl (λ t x, match x with APing now m => match judge m with Some _ => t | None => now end | ACheck _ => t end) start es.

Lemma lastPing_run timeout start es : lastPing (serverRun timeout start es) = lastAccepted start es.
Proof.
  induction es as [|x es IH] using rev_ind; [done|]. unfold serverRun, lastAccepted in *. rewrite !foldl_app. simpl. rewrite <-IH.
  destruct x as [now m|now]; simpl; unfold handlePing, serverCheck; by repeat case_match.
Qed.

(** a control lives exactly as long as its heartbeats.  It is still open after any
    sequence of pings and checks if and only if heartbeats are not limited, or at each
    check the last ping that the plugins and the verifier accepted, or the start, was
    no longer ago than the timeout; and each ping is answered, without an error exactly
    when it was accepted, so that pings that are not authentic do not keep a control
    alive. *)
Theorem server_heartbeat_exact timeout start es :
  (open_ (serverRun timeout start es) = true ↔
   timeout ≤ 0 ∨ kept ACheck (lastAccepted start) (limitOf timeout) es) ∧
  pongs (serverRun timeout start es) = omap (λ x, match x with APing _ m => Some (judge m) | ACheck _ => None end) es.
Proof.
  induction es as [|x es IH] using rev_ind.
  { split; [|done]. split; [intros _; right; intros [|? ?] ? ? ?; done|done]. }
  pose proof (lastPing_run timeout start es) as Hlast. unfold serverRun in *. rewrite foldl_app, omap_app. simpl.
  destruct IH as [IH1 IH2]. set (s := foldl _ _ es) in *. clearbody s. split.
  - unfold kept in *. rewrite checks_snoc. destruct x as [now m|now]; simpl; unfold handlePing, serverCheck.
    + destruct (judge m); simpl; rewrite IH1; naive_solver.
    + destruct (Z.leb_spec timeout 0); [rewrite IH1; naive_solver|]. destruct (Z.ltb_spec (limitOf timeout) (now - lastPing s)); simpl.
      * split; [done|]. intros [|[_ Hx]]; [lia|]. specialize (Hx now eq_refl). lia.
      * rewrite IH1. split; [|naive_solver]. intros [|Ha]; [by left|]. right. split; [done|]. intros ? [= <-]. lia.
  - destruct x as [now m|now]; simpl; unfold handlePing, serverCheck; [rewrite <-IH2; by destruct (judge m)|].
    rewrite app_nil_r. by repeat case_match.
Qed.
End server.

(** *** The client *)

Record client := mkClient { lastPong : Z; copen : bool }.

(** [sendHeartBeat] with token authentication. *)
Definition sendHeartBeat (md5hex : string → string) (a : Auth.TokenAuth) (now : Z) : Auth.signed :=
  Auth.SetPing md5hex now a (Auth.mkSigned 0 EmptyString).

(** A pong with an error closes the session. *)
Definition handlePong (now : Z) (error : string) (c : client) : client :=
  if decide (error ≠ EmptyString) then mkClient (lastPong c) false else mkClient now (copen c).

Definition clientCheck (interval timeout now : Z) (c : client) : client :=
  if (0 <? interval) && (0 <? timeout) && (limitOf timeout <? now - lastPong c) then mkClient (lastPong c) false else c.

Inductive clientEvent := BPong (now : Z) (error : string) | BCheck (now : Z).

Definition clientStep (interval timeout : Z) (c : client) (x : clientEvent) : client :=
  match x with BPong now error => handlePong now error c | BCheck now => clientCheck interval timeout now c end.

Definition clientRun (interval timeout start : Z) (es : list clientEvent) : client := foldl (clientStep interval timeout) (mkClient start true) es.

Definition lastGood (start : Z) (es : list clientEvent) : Z :=
  foldl (λ t x, match x with BPong now error => if decide (error ≠ EmptyString) then t else now | BCheck _ => t end) start es.

Lemma lastPong_run interval timeout start es : lastPong (clientRun interval timeout start es) = lastGood start es.
Proof.
  induction es as [|x es IH] using rev_ind; [done|]. unfold clientRun, lastGood in *. rewrite !foldl_app. simpl. rewrite <-IH.
  destruct x as [now error|now]; simpl; unfold handlePong, clientCheck; by repeat case_match.
Qed.

(** a client keeps its session exactly as long as the server answers.  The session
    is open after any sequence of pongs and checks if and only if no pong had an error
    and, when heartbeats are sent and limited, at each check the last pong without an
    error, or the start, was no longer ago than the timeout. *)
Theorem client_heartbeat_exact interval timeout start es :
  copen (clientRun interval timeout start es) = true ↔
  Forall (λ x, match x with BPong _ error => error = EmptyString | BCheck _ => True end) es ∧
  (interval ≤ 0 ∨ timeout ≤ 0 ∨ kept BCheck (lastGood start) (limitOf timeout) es).
Proof.
  induction es as [|x es IH] using rev_ind.
  { split; [|done]. intros _. split; [done|]. do 2 right. intros [|? ?] ? ? ?; done. }
  pose proof (lastPong_run interval timeout start es) as Hlast. unfold clientRun in *. rewrite foldl_app, Forall_app, Forall_singleton. simpl.
  set (c := foldl _ _ es) in *. clearbody c. unfold kept in *. rewrite checks_snoc. destruct x as [now error|now]; simpl.
  - unfold handlePong. case_decide; simpl; [naive_solver|]. rewrite IH. naive_solver.
  - unfold clientCheck. destruct (Z.ltb_spec 0 interval), (Z.ltb_spec 0 timeout); simpl; try (rewrite IH; naive_solver).
    destruct (Z.ltb_spec (limitOf timeout) (now - lastPong c)); simpl.
    + split; [done|]. intros [_ [|[|[_ Hx]]]]; [lia|lia|]. specialize (Hx now eq_refl). lia.
    + rewrite IH. unfold kept. split; [|naive_solver]. intros [Hf [|[|Ha]]]; [lia|lia|]. split; [done|]. do 2 right.
      split; [done|]. intros ? [= <-]. lia.
Qed.

(** with one token the heartbeats of both ends fit.  The server accepts every ping
    a client with its token and at least its scopes sends, so it answers all of them
    without an error, and each is a sign of life. *)
Theorem heartbeats_mutual md5hex (c s : Auth.TokenAuth) timeout start es :
  Auth.token c = Auth.token s → (∀ x, x ∈ Auth.additionalAuthScopes s → x ∈ Auth.additionalAuthScopes c) →
  (∀ now m, APing now m ∈ es → ∃ sent, m = sendHeartBeat md5hex c sent) →
  let run := serverRun md5hex (Auth.TokenVerifier s) [] timeout start es in
  Forall (λ p, p = None) (pongs run) ∧
  lastPing run = foldl (λ t x, match x with APing now _ => now | ACheck _ => t end) start es.
Proof.
  intros Ht Hs Hes. assert (Hj : ∀ now m, APing now m ∈ es → judge md5hex (Auth.TokenVerifier s) [] m = None).
  { intros now m [sent ->]%Hes. unfold judge, sendHeartBeat. simpl. by rewrite Auth.Ping_verified. }
  clear Hes. unfold serverRun. induction es as [|x es IH] using rev_ind; [done|]. rewrite !foldl_app. simpl.
  destruct IH as [IH1 IH2]; [intros now m Hin; apply (Hj now); set_solver|]. destruct x as [now m|now]; simpl.
  - unfold handlePing. rewrite (Hj now m) by set_solver. simpl. split; [|done]. apply Forall_app. by split; [|apply Forall_singleton].
  - unfold serverCheck. repeat case_match; by split.
Qed.

Definition demoAuth : Auth.TokenAuth := Auth.mkTokenAuth [Auth.AuthScopeHeartBeats] "t".
Definition demoBeats : list event := [APing 5 (sendHeartBeat id demoAuth 4); ACheck 9].

Lemma heartbeats_mutual_witness : lastPing (serverRun id (Auth.TokenVerifier demoAuth) [] 3 0 demoBeats) = 5.
Proof.
  apply (heartbeats_mutual id demoAuth demoAuth 3 0 demoBeats); [done|done|].
  intros now m [Hin|[Hin|Hin%elem_of_nil]%elem_of_cons]%elem_of_cons; [|done|done]. injection Hin as -> ->. by exists 4.
Defined.
End Heartbeat.
