(* ===== verification/Dispatch.v ===== *)
(** * Accepted connections: [server/service.go], [pkg/util/net/tls.go], [dial.go]

    The server looks at the first byte of a connection to see whether it is TLS,
    reads the first message and hands the connection to the part it is for: a
    login becomes a control, a work connection goes into the pool of a control, a
    visitor's connection into the queue of a secret proxy.  [Sniff] is the first
    byte and the loop that looks at it, [Dispatch] the first message. *)
From S2P Require Import Prelude Bytes Wire Registry Control Visitor Service Bootstrap.

(** ** The first byte *)
Module Sniff.

Definition FRPTLSHeadByte : Byte.byte := x17.

Inductive error := ErrRead | ErrNotTLS.

(** What the server goes on with: TLS, with or without the byte of the client
    before it, or the plain connection. *)
Inductive secured := OverTLS (input : bytes) (custom : bool) | Plain (input : bytes).

(** [CheckAndEnableTLSServerConnWithTimeout]; no byte is a read that fails or
    times out. *)
Definition CheckAndEnableTLS (tlsOnly : bool) (input : bytes) : res error secured :=
  match input with
  | [] => Err ErrRead
  | b :: rest =>
      if decide (b = FRPTLSHeadByte) then Ok (OverTLS rest true)
      else if decide (b = x16) then Ok (OverTLS input false)
      else if tlsOnly then Err ErrNotTLS else Ok (Plain input)
  end.

(** [DialHookCustomTLSHeadByte], before the client starts TLS with [stream] or
    writes it as it is. *)
Definition DialHookCustomTLSHeadByte (enableTLS disableCustomTLSHeadByte : bool) (stream : bytes) : bytes :=
  if enableTLS && negb disableCustomTLSHeadByte then FRPTLSHeadByte :: stream else stream.

(** What a client writes first: a TLS handshake record, or without TLS the magic,
    the type of a version 1 message, or the version of a multiplexed stream. *)
Definition opening (enableTLS : bool) (stream : bytes) : Prop :=
  if enableTLS then head stream = Some x16
  else ∃ b, head stream = Some b ∧ (b = x00 ∨ Some b = head Wire.MagicV2 ∨ (48 ≤ Zb b ≤ 122)%Z).

(** the server sees from the first byte what the client means.  For each setting of
    TLS and of the custom byte it goes on with exactly the bytes the client wrote after
    it, over TLS if and only if the client uses TLS; a server that forces TLS refuses
    every connection without it and never goes on in the clear. *)
Theorem tls_detected enableTLS disableCustom tlsOnly stream : opening enableTLS stream →
  CheckAndEnableTLS tlsOnly (DialHookCustomTLSHeadByte enableTLS disableCustom stream) =
    (if enableTLS then Ok (OverTLS stream (negb disableCustom)) else if tlsOnly then Err ErrNotTLS else Ok (Plain stream)) ∧
  (∀ input out, CheckAndEnableTLS true input = Ok out → ∃ rest custom, out = OverTLS rest custom).
Proof.
  intros Ho. split.
  - unfold DialHookCustomTLSHeadByte. destruct enableTLS; simpl in Ho |- *.
    + destruct disableCustom; simpl; [|done]. destruct stream as [|b rest]; [done|]. injection Ho as ->. done.
    + destruct Ho as (b & Hb & Hc). destruct stream as [|b' rest]; [done|]. injection Hb as ->. simpl.
      assert (b ≠ FRPTLSHeadByte ∧ b ≠ x16) as [H1 H2].
      { split; intros ->; destruct Hc as [Hc|[Hc|Hc]]; try done; vm_compute in Hc; destruct Hc; done. }
      by rewrite !decide_False.
  - intros [|b rest] out; simpl; [done|]. repeat case_decide; intros [= <-]; eauto.
Qed.

Lemma tls_detected_witness : CheckAndEnableTLS true (DialHookCustomTLSHeadByte true false [x16; x03]) = Ok (OverTLS [x16; x03] true).
Proof. apply (tls_detected true false true [x16; x03]). reflexivity. Defined.

(** *** The loop of [HandleListener] *)

(** The loop itself waits for the first byte.  [delay] is when it comes after
    the connection is accepted, if it comes. *)
Record arrival := mkArrival { at_ : Z; delay : option Z; input : bytes }.

Definition connReadTimeout : Z := 10 * 10 ^ 9.

(** How long the loop looks at a connection. *)
Definition waits (a : arrival) : Z := match delay a with Some d => Z.min d connReadTimeout | None => connReadTimeout end.

Definition seen (a : arrival) : bytes :=
  match delay a with Some d => if d <? connReadTimeout then input a else [] | None => [] end.

(** When each connection is handled or dropped, from a loop that is free at [free]. *)
Fixpoint HandleListener (tlsOnly : bool) (free : Z) (as_ : list arrival) : list (Z * res error secured) :=
  match as_ with
  | [] => []
  | a :: as_ =>
      let done_ := Z.max free (at_ a) + waits a in
      (done_, CheckAndEnableTLS tlsOnly (seen a)) :: HandleListener tlsOnly done_ as_
  end.

(** the loop gets to every connection.  The [i]-th of the connections that
    arrive is handled or dropped, at the latest [i + 1] read timeouts after the last
    of them arrived and the loop was free, whatever the others do. *)
Theorem listener_serves_all tlsOnly free as_ i a latest :
  as_ !! i = Some a → free ≤ latest → Forall (λ x, at_ x ≤ latest) as_ →
  Forall (λ x, ∀ d, delay x = Some d → 0 ≤ d) as_ →
  ∃ t, HandleListener tlsOnly free as_ !! i = Some (t, CheckAndEnableTLS tlsOnly (seen a)) ∧
    at_ a ≤ t ≤ latest + (Z.of_nat i + 1) * connReadTimeout.
Proof.
  revert free i latest. induction as_ as [|x as_ IH]; intros free i latest Hi Hf Hl Hd; [done|].
  inversion_clear Hl as [|? ? Hx Hl']. inversion_clear Hd as [|? ? Hdx Hd'].
  assert (Hw : 0 ≤ waits x ≤ connReadTimeout).
  { unfold waits, connReadTimeout in *. destruct (delay x) as [d|]; [specialize (Hdx d eq_refl)|]; lia. }
  destruct i as [|i]; simpl in Hi |- *.
  - injection Hi as ->. eexists. split; [reflexivity|]. lia.
  - destruct (IH (Z.max free (at_ x) + waits x) i (latest + connReadTimeout) Hi) as (t & Ht & Hb); [lia| |done|].
    + eapply Forall_impl; [exact Hl'|]. simpl. unfold connReadTimeout. lia.
    + exists t. split; [done|]. lia.
Qed.

Definition silent (n : nat) : list arrival := replicate n (mkArrival 0 None []).
Definition honest : arrival := mkArrival 0 (Some 0) [x16].

Lemma listener_serves_all_witness : ∃ t, HandleListener false 0 (silent 2 ++ [honest]) !! 2%nat = Some (t, Ok (OverTLS [x16] false)) ∧ 0 ≤ t.
Proof.
  destruct (listener_serves_all false 0 (silent 2 ++ [honest]) 2 honest 0) as (t & Ht & Hb & _); [reflexivity|done| | |exists t; by split].
  - repeat constructor; done.
  - repeat constructor; intros d Hd; simpl in Hd; by simplify_eq.
Defined.

(** The bound is met: a connection that has sent everything waits for each silent
    one before it. *)
Example silent_clients_block : HandleListener false 0 (silent 3 ++ [honest]) !! 3%nat = Some (3 * connReadTimeout, Ok (OverTLS [x16] false)).
Proof. reflexivity. Qed.
End Sniff.

(** ** The first message *)
Module Dispatch.

Section dispatch.
Context {R : Type} `{OnlineRegistry R}.
Context (md5hex : string → string) (printable : string → bool).
(** The verifier in the session of the control at an address. *)
Context (verifierOf : nat → Auth.Verifier).


















End dispatch.



(** *** The answer to a visitor *)

(** [handleConnection] answers a visitor after [RegisterVisitorConn] has put the
    connection into the queue, where the proxy can take it at once and write what
    its service sends. *)
Inductive visitorStep := VRegister | VRespond | VTake | VData.
Inductive write := WResponse | WData.
Record visiting := mkVisiting { manager : Visitor.Manager; taken : bool; out : list write }.

Definition visitStep (l conn_ : nat) (m : Visitor.NewVisitorConn) (w : Control.World Registry.ClientRegistry) (v : visiting) (x : visitorStep) : option visiting :=
  match x with
  | VRegister =>
      match Visitor.RegisterVisitorConn id true m conn_ "v2" w (manager v) with
      | (Ok _, vm) => Some (mkVisiting vm (taken v) (out v))
      | (Err _, _) => None
      end
  | VRespond => Some (mkVisiting (manager v) (taken v) (out v ++ [WResponse]))
  | VTake =>
      match Visitor.store (manager v) !! l with
      | Some (Visitor.mkListener (c :: rest) cl) =>
          Some (mkVisiting (Visitor.mkManager (Visitor.listeners (manager v)) (<[ l := Visitor.mkListener rest cl ]> (Visitor.store (manager v)))
                              (Visitor.nextListener (manager v))) (bool_decide (Visitor.raw c = conn_)) (out v))
      | _ => None
      end
  | VData => if taken v then Some (mkVisiting (manager v) true (out v ++ [WData])) else None
  end.

Definition demoVisitor : Visitor.NewVisitorConn := Visitor.mkVisitor "p" 7 (Visitor.GetAuthKey id "key" 7) false false "".
Definition demoVisiting : visiting := mkVisiting (Visitor.Listen "p" "key" [""%string] Visitor.NewManager).2 false [].

(** Data of the service can reach the visitor before the response it waits for. *)
Example data_before_response :
  out <$> (foldl (λ v x, v ≫= λ v, visitStep 0 4 demoVisitor Service.demoW v x) (Some demoVisiting) [VRegister; VTake; VData; VRespond]) =
  Some [WData; WResponse].
Proof. by vm_compute. Qed.
End Dispatch.
