(* ===== verification/CommonConfig.v ===== *)
(** * Configurations of clients and servers: [pkg/config/v1], [pkg/config/v1/validation], [pkg/auth/auth.go]

    The common part of a client's configuration and the configuration of a server:
    their fields, the values [Complete] fills in, their validation, and what the
    authentication makes of them.  [Values] are the sources a token may be read
    from, among them commands, which are run only when the user allowed it. *)
From S2P Require Import Prelude Chars Ports PortsRange Visitor Service FeatureGate Config.

(** ** Values from files and commands: [value_source.go], [pkg/policy/security] *)
Module Values.

Record ExecEnvVar := mkEnvVar { envName : string; envValue : string }.
Record ExecSource := mkExec { Command : string; Args : list string; Env : list ExecEnvVar }.

(** [File] is the path of a [FileSource]. *)
Record ValueSource := mkSource { Type_ : string; File : option string; Exec : option ExecSource }.

Inductive error := ErrNoFile | ErrNoExec | ErrType | ErrPath | ErrCommand | ErrEnvEmpty | ErrEnvEq | ErrRead | ErrRun.

Definition validateFile (path : string) : res error unit := if decide (path = EmptyString) then Err ErrPath else Ok ().

Fixpoint validateEnv (env : list ExecEnvVar) : res error unit :=
  match env with
  | [] => Ok ()
  | v :: env =>
      if decide (envName v = EmptyString) then Err ErrEnvEmpty
      else if Config.ContainsChar "=" (envName v) then Err ErrEnvEq
      else validateEnv env
  end.

Definition validateExec (e : ExecSource) : res error unit :=
  if decide (Command e = EmptyString) then Err ErrCommand else validateEnv (Env e).

Definition Validate (v : ValueSource) : res error unit :=
  if decide (Type_ v = "file"%string) then
    match File v with None => Err ErrNoFile | Some path => validateFile path end
  else if decide (Type_ v = "exec"%string) then
    match Exec v with None => Err ErrNoExec | Some e => validateExec e end
  else Err ErrType.

(** What reading a source does: a file is read or a command run. *)
Inductive effect := EReadFile (path : string) | ERun (command : string) (args : list string) (env : option (list string)).

(** The world: the contents of files, the output of commands, the environment. *)
Record outside := mkOutside { readFile : string → option string; output : string → list string → option (list string) → option string; environ : list string }.

Definition trim (s : string) : string := String.string_of_list_ascii (TrimSpace (ofStr s)).

Definition resolveFile (o : outside) (path : string) : res error string * list effect :=
  match validateFile path with
  | Err e => (Err e, [])
  | Ok _ => (match readFile o path with None => Err ErrRead | Some content => Ok (trim content) end, [EReadFile path])
  end.

(** Without variables of its own the command gets the environment as it is. *)
Definition commandEnv (o : outside) (e : ExecSource) : option (list string) :=
  match Env e with
  | [] => None
  | env => Some (environ o ++ ((λ v, envName v +:+ "=" +:+ envValue v) <$> env))
  end.

Definition resolveExec (o : outside) (e : ExecSource) : res error string * list effect :=
  match validateExec e with
  | Err x => (Err x, [])
  | Ok _ =>
      let env := commandEnv o e in
      (match output o (Command e) (Args e) env with None => Err ErrRun | Some content => Ok (trim content) end,
       [ERun (Command e) (Args e) env])
  end.

Definition Resolve (o : outside) (v : ValueSource) : res error string * list effect :=
  match Validate v with
  | Err e => (Err e, [])
  | Ok _ =>
      if decide (Type_ v = "file"%string) then
        match File v with Some path => resolveFile o path | None => (Err ErrNoFile, []) end
      else if decide (Type_ v = "exec"%string) then
        match Exec v with Some e => resolveExec o e | None => (Err ErrNoExec, []) end
      else (Err ErrType, [])
  end.

(** *** Unsafe features *)

Definition TokenSourceExec : string := "TokenSourceExec".

(** A nil [UnsafeFeatures] has none. *)
Definition UnsafeFeatures := option (gset string).
Definition NewUnsafeFeatures (allowed : list string) : UnsafeFeatures := Some (list_to_set allowed).
Definition IsEnabled (feature : string) (u : UnsafeFeatures) : bool :=
  match u with None => false | Some features => bool_decide (feature ∈ features) end.

(** *** Lemmas *)

Lemma validateEnv_names env : validateEnv env = Ok () ↔ Forall (λ v, envName v ≠ EmptyString ∧ "="%char ∉ ofStr (envName v)) env.
Proof.
  induction env as [|v env IH]; simpl; [by split|]. rewrite Forall_cons, <-IH. unfold Config.ContainsChar.
  destruct (decide (envName v = EmptyString)); [naive_solver|]. destruct (bool_decide _) eqn:E; bool_to_prop; naive_solver.
Qed.

(** A source that is valid is read, and in no other way than it says. *)
Lemma Resolve_effects o v r es : Resolve o v = (r, es) →
  (Validate v = Ok () → length es = 1%nat) ∧ (Validate v ≠ Ok () → es = []) ∧
  (∀ command args env, ERun command args env ∈ es → Type_ v = "exec"%string ∧ ∃ e, Exec v = Some e ∧ Command e = command ∧ Args e = args ∧ env = commandEnv o e).
Proof.
  unfold Resolve, Validate. destruct (decide (Type_ v = "file"%string)) as [Hf|Hf].
  - destruct (File v) as [path|]; [|intros [= <- <-]; set_solver]. unfold resolveFile.
    destruct (validateFile path) as [[]|]; intros [= <- <-]; set_solver.
  - destruct (decide (Type_ v = "exec"%string)) as [He|He]; [|intros [= <- <-]; set_solver].
    destruct (Exec v) as [e|]; [|intros [= <- <-]; set_solver]. unfold resolveExec.
    destruct (validateExec e) as [[]|]; intros [= <- <-]; [|set_solver]. split_and!; try done.
    intros command args env [= -> -> ->]%list_elem_of_singleton. split; [done|]. by exists e.
Qed.
End Values.

(** ** Fields and defaults: [common.go], [client.go], [server.go] *)
Module CommonConfig.
Import Values.

Definition or {A} `{EqDecision A} (zero v fallback : A) : A := Config.EmptyOr zero v fallback.

Record QUICOptions := mkQUIC { KeepalivePeriod : Z; MaxIdleTimeout : Z; MaxIncomingStreams : Z }.
Definition completeQUIC (c : QUICOptions) : QUICOptions :=
  mkQUIC (or 0 (KeepalivePeriod c) 10) (or 0 (MaxIdleTimeout c) 30) (or 0 (MaxIncomingStreams c) 100000).

Record TLSConfig := mkTLS { CertFile : string; KeyFile : string; TrustedCaFile : string; tServerName : string }.

Record WebServerConfig := mkWeb {
  Addr : string; Port : Z; wUser : string; wPassword : string; AssetsDir : string; PprofEnable : bool; wTLS : option TLSConfig }.
Definition setAddr (a : string) (c : WebServerConfig) : WebServerConfig :=
  mkWeb a (Port c) (wUser c) (wPassword c) (AssetsDir c) (PprofEnable c) (wTLS c).
Definition completeWeb (c : WebServerConfig) : WebServerConfig := setAddr (or EmptyString (Addr c) "127.0.0.1"%string) c.

Record LogConfig := mkLog { To : string; Level : string; MaxDays : Z; DisablePrintColor : bool }.
Definition completeLog (c : LogConfig) : LogConfig :=
  mkLog (or EmptyString (To c) "console"%string) (or EmptyString (Level c) "info"%string) (or 0 (MaxDays c) 3) (DisablePrintColor c).

Definition AuthMethodToken : string := "token".
Definition AuthMethodOIDC : string := "oidc".

(** *** Clients *)

Record AuthOIDCClientConfig := mkOIDC {
  oClientID : string; ClientSecret : string; oAudience : string; Scope : string; TokenEndpointURL : string;
  AdditionalEndpointParams : Config.smap; oTrustedCaFile : string; InsecureSkipVerify : bool; oProxyURL : string; oTokenSource : option ValueSource }.

Record AuthClientConfig := mkAuth {
  Method : string; AdditionalScopes : list string; Token : string; TokenSource : option ValueSource; OIDC : AuthOIDCClientConfig }.
Definition completeAuth (c : AuthClientConfig) : AuthClientConfig :=
  mkAuth (or EmptyString (Method c) AuthMethodToken) (AdditionalScopes c) (Token c) (TokenSource c) (OIDC c).

Record TLSClientConfig := mkTLSClient { Enable : option bool; DisableCustomTLSFirstByte : option bool; clientTLS : TLSConfig }.
Definition completeTLSClient (c : TLSClientConfig) : TLSClientConfig :=
  mkTLSClient (or None (Enable c) (Some true)) (or None (DisableCustomTLSFirstByte c) (Some true)) (clientTLS c).

Record ClientTransportConfig := mkTransport {
  Protocol : string; WireProtocol : string; DialServerTimeout : Z; DialServerKeepAlive : Z; ConnectServerLocalIP : string; ProxyURL : string;
  PoolCount : Z; TCPMux : option bool; TCPMuxKeepaliveInterval : Z; QUIC : QUICOptions; HeartbeatInterval : Z; HeartbeatTimeout : Z; TLS : TLSClientConfig }.

(** [lo.FromPtr] of a bool. *)
Definition fromPtr (b : option bool) : bool := default false b.

(** [httpProxy] is the environment variable [http_proxy]. *)
Definition completeTransport (httpProxy : string) (c : ClientTransportConfig) : ClientTransportConfig :=
  let mux := or None (TCPMux c) (Some true) in
  mkTransport (or EmptyString (Protocol c) "tcp"%string) (or EmptyString (WireProtocol c) "v1"%string) (or 0 (DialServerTimeout c) 10)
    (or 0 (DialServerKeepAlive c) 7200) (ConnectServerLocalIP c) (or EmptyString (ProxyURL c) httpProxy) (or 0 (PoolCount c) 1) mux
    (or 0 (TCPMuxKeepaliveInterval c) 30) (completeQUIC (QUIC c))
    (or 0 (HeartbeatInterval c) (if fromPtr mux then -1 else 30)) (or 0 (HeartbeatTimeout c) (if fromPtr mux then -1 else 90)) (completeTLSClient (TLS c)).

(** [FeatureGates] in the order the map is visited; [VirtualNet] is its address,
    [Store] its path. *)
Record ClientCommonConfig := mkClient {
  Auth_ : AuthClientConfig; User : string; ClientID : string; ServerAddr : string; ServerPort : Z; NatHoleSTUNServer : string; DNSServer : string;
  LoginFailExit : option bool; Start : list string; Log : LogConfig; WebServer : WebServerConfig; Transport : ClientTransportConfig;
  VirtualNet : string; FeatureGates : list (string * bool); UDPPacketSize : Z; Metadatas : Config.smap; IncludeConfigFiles : list string; Store : string }.

Definition completeClient (httpProxy : string) (c : ClientCommonConfig) : ClientCommonConfig :=
  mkClient (completeAuth (Auth_ c)) (User c) (ClientID c) (or EmptyString (ServerAddr c) "0.0.0.0"%string) (or 0 (ServerPort c) 7000)
    (or EmptyString (NatHoleSTUNServer c) "stun.easyvoip.com:3478"%string) (DNSServer c) (or None (LoginFailExit c) (Some true)) (Start c)
    (completeLog (Log c)) (completeWeb (WebServer c)) (completeTransport httpProxy (Transport c)) (VirtualNet c) (FeatureGates c)
    (or 0 (UDPPacketSize c) 1500) (Metadatas c) (IncludeConfigFiles c) (Store c).

(** *** Servers *)

Record AuthOIDCServerConfig := mkOIDCServer { Issuer : string; sAudience : string; SkipExpiryCheck : bool; SkipIssuerCheck : bool }.
Record AuthServerConfig := mkAuthServer {
  sMethod : string; sAdditionalScopes : list string; sToken : string; sTokenSource : option ValueSource; sOIDC : AuthOIDCServerConfig }.
Definition completeAuthServer (c : AuthServerConfig) : AuthServerConfig :=
  mkAuthServer (or EmptyString (sMethod c) AuthMethodToken) (sAdditionalScopes c) (sToken c) (sTokenSource c) (sOIDC c).

Record TLSServerConfig := mkTLSServer { Force : bool; serverTLS : TLSConfig }.

Record ServerTransportConfig := mkServerTransport {
  sTCPMux : option bool; sTCPMuxKeepaliveInterval : Z; TCPKeepAlive : Z; MaxPoolCount : Z; sHeartbeatTimeout : Z; sQUIC : QUICOptions; sTLS : TLSServerConfig }.
Definition completeServerTransport (c : ServerTransportConfig) : ServerTransportConfig :=
  let mux := or None (sTCPMux c) (Some true) in
  mkServerTransport mux (or 0 (sTCPMuxKeepaliveInterval c) 30) (or 0 (TCPKeepAlive c) 7200) (or 0 (MaxPoolCount c) 5)
    (or 0 (sHeartbeatTimeout c) (if fromPtr mux then -1 else 90)) (completeQUIC (sQUIC c))
    (mkTLSServer (if decide (TrustedCaFile (serverTLS (sTLS c)) = EmptyString) then Force (sTLS c) else true) (serverTLS (sTLS c))).

Record SSHTunnelGateway := mkSSH { gBindPort : Z; PrivateKeyFile : string; AutoGenPrivateKeyPath : string; AuthorizedKeysFile : string }.
Definition completeSSH (c : SSHTunnelGateway) : SSHTunnelGateway :=
  mkSSH (gBindPort c) (PrivateKeyFile c) (or EmptyString (AutoGenPrivateKeyPath c) "./.autogen_ssh_key"%string) (AuthorizedKeysFile c).

Record HTTPPluginOptions := mkHTTPPlugin { pName : string; pAddr : string; pPath : string; Ops : list string; TLSVerify : bool }.

Record ServerConfig := mkServer {
  sAuth : AuthServerConfig; BindAddr : string; BindPort : Z; KCPBindPort : Z; QUICBindPort : Z; ProxyBindAddr : string; VhostHTTPPort : Z;
  VhostHTTPTimeout : Z; VhostHTTPSPort : Z; TCPMuxHTTPConnectPort : Z; TCPMuxPassthrough : bool; SubDomainHost : string; Custom404Page : string;
  SSH : SSHTunnelGateway; sWebServer : WebServerConfig; EnablePrometheus : bool; sLog : LogConfig; sTransport : ServerTransportConfig;
  DetailedErrorsToClient : option bool; MaxPortsPerClient : Z; UserConnTimeout : Z; sUDPPacketSize : Z; NatHoleAnalysisDataReserveHours : Z;
  AllowPorts : list Ports.PortsRange; HTTPPlugins : list HTTPPluginOptions }.

Definition completeServer (c : ServerConfig) : ServerConfig :=
  let web := completeWeb (sWebServer c) in
  let bindAddr := or EmptyString (BindAddr c) "0.0.0.0"%string in
  mkServer (completeAuthServer (sAuth c)) bindAddr (or 0 (BindPort c) 7000) (KCPBindPort c) (QUICBindPort c)
    (if decide (ProxyBindAddr c = EmptyString) then bindAddr else ProxyBindAddr c) (VhostHTTPPort c) (or 0 (VhostHTTPTimeout c) 60) (VhostHTTPSPort c)
    (TCPMuxHTTPConnectPort c) (TCPMuxPassthrough c) (SubDomainHost c) (Custom404Page c) (completeSSH (SSH c))
    (if 0 <? Port web then setAddr (or EmptyString (Addr web) "0.0.0.0"%string) web else web)
    (EnablePrometheus c) (completeLog (sLog c)) (completeServerTransport (sTransport c)) (or None (DetailedErrorsToClient c) (Some true))
    (MaxPortsPerClient c) (or 0 (UserConnTimeout c) 10) (or 0 (sUDPPacketSize c) 1500) (or 0 (NatHoleAnalysisDataReserveHours c) (7 * 24))
    (AllowPorts c) (HTTPPlugins c).

(** *** Zero values *)
Definition zeroTLS : TLSConfig := mkTLS "" "" "" "".
Definition zeroQUIC : QUICOptions := mkQUIC 0 0 0.
Definition zeroWeb : WebServerConfig := mkWeb "" 0 "" "" "" false None.
Definition zeroLog : LogConfig := mkLog "" "" 0 false.
Definition zeroOIDC : AuthOIDCClientConfig := mkOIDC "" "" "" "" "" ∅ "" false "" None.
Definition zeroClient : ClientCommonConfig :=
  mkClient (mkAuth "" [] "" None zeroOIDC) "" "" "" 0 "" "" None [] zeroLog zeroWeb
    (mkTransport "" "" 0 0 "" "" 0 None 0 zeroQUIC 0 0 (mkTLSClient None None zeroTLS)) "" [] 0 ∅ [] "".
Definition zeroServer : ServerConfig :=
  mkServer (mkAuthServer "" [] "" None (mkOIDCServer "" "" false false)) "" 0 0 0 "" 0 0 0 0 false "" "" (mkSSH 0 "" "" "") zeroWeb false zeroLog
    (mkServerTransport None 0 0 0 0 zeroQUIC (mkTLSServer false zeroTLS)) None 0 0 0 0 [] [].
End CommonConfig.

(** ** Validation: [pkg/config/v1/validation] *)
Module Validation.
Import Values CommonConfig.

Definition SupportedTransportProtocols : list string := ["tcp"; "kcp"; "quic"; "websocket"; "wss"].
Definition SupportedWireProtocols : list string := ["v1"; "v2"].
Definition SupportedAuthMethods : list string := ["token"; "oidc"].
Definition SupportedAuthAdditionalScopes : list string := ["HeartBeats"; "NewWorkConns"].
Definition SupportedLogLevels : list string := ["trace"; "debug"; "info"; "warn"; "error"].
Definition SupportedHTTPPluginOps : list string :=
  Plugin.opName <$> [Plugin.OpLogin; Plugin.OpNewProxy; Plugin.OpCloseProxy; Plugin.OpPing; Plugin.OpNewWorkConn; Plugin.OpNewUserConn].

Inductive error :=
| EGate (e : FeatureGate.error) | EVirtualNet | EMethod | EScopes | EBoth | EUnsafe (feature : string) | ESource (e : Values.error)
| EOIDCBoth | EOIDCSource (e : Values.error) | EOIDC (missing : list string) | ELevel | ECert | EKey | EPort (field : string) | EHeartbeat
| EProtocol | EWire | EIncludeParse (file : string) | EIncludeDir (file : string) | EMaxPool | EOps
| EProxy (name : string) (e : Config.error) | EVisitor (name : string) (e : Config.error).

(** Errors are collected: [AppendError] leaves out those that are nil. *)
Definition unless (ok : bool) (e : error) : list error := if ok then [] else [e].
Definition lift {E A} (f : E → error) (r : res E A) : list error := match r with Ok _ => [] | Err e => [f e] end.

(** [lo.Every] *)
Definition Every (all these : list string) : bool := forallb (λ x, bool_decide (x ∈ all)) these.

Definition ValidatePort (port : Z) (field : string) : list error := unless ((0 <=? port) && (port <=? 65535)) (EPort field).

Definition validateLogConfig (c : LogConfig) : list error := unless (bool_decide (Level c ∈ SupportedLogLevels)) ELevel.

(** The first error is the only one. *)
Definition validateWebServerConfig (c : WebServerConfig) : list error :=
  match wTLS c with
  | Some t =>
      if decide (CertFile t = EmptyString) then [ECert]
      else if decide (KeyFile t = EmptyString) then [EKey]
      else ValidatePort (Port c) "webServer.port"
  | None => ValidatePort (Port c) "webServer.port"
  end.

Definition ValidateUnsafeFeature (u : UnsafeFeatures) (feature : string) : list error := unless (IsEnabled feature u) (EUnsafe feature).

Definition validateAuthTokenSource (u : UnsafeFeatures) (token : string) (source : option ValueSource) : list error :=
  match source with
  | None => []
  | Some s =>
      unless (bool_decide (token = EmptyString)) EBoth
      ++ (if decide (Type_ s = "exec"%string) then ValidateUnsafeFeature u TokenSourceExec else [])
      ++ lift ESource (Values.Validate s)
  end.

Section validation.
(** [url.Parse]: scheme and host; directories of included files; [IsQualifiedName]. *)
Context (parseURL : string → option (string * string)) (absDir : string → option string) (notExist : string → bool).
Context (isQualifiedName : string → list string).

Definition ValidateOIDCClientCredentialsConfig (c : AuthOIDCClientConfig) : list string :=
  (if decide (oClientID c = EmptyString) then ["auth.oidc.clientID is required"%string] else [])
  ++ (if decide (TokenEndpointURL c = EmptyString) then ["auth.oidc.tokenEndpointURL is required"%string]
      else match parseURL (TokenEndpointURL c) with
           | None => ["auth.oidc.tokenEndpointURL must be an absolute http or https URL"%string]
           | Some (scheme, host) =>
               if decide (scheme = EmptyString ∨ host = EmptyString) then ["auth.oidc.tokenEndpointURL must be an absolute http or https URL"%string]
               else if decide (scheme ≠ "http"%string ∧ scheme ≠ "https"%string) then ["auth.oidc.tokenEndpointURL must use http or https"%string]
               else []
           end)
  ++ (if decide (is_Some (AdditionalEndpointParams c !! "scope"%string))
      then ["auth.oidc.additionalEndpointParams.scope is not allowed; use auth.oidc.scope instead"%string] else [])
  ++ (if decide (oAudience c ≠ EmptyString ∧ is_Some (AdditionalEndpointParams c !! "audience"%string))
      then ["cannot specify both auth.oidc.audience and auth.oidc.additionalEndpointParams.audience"%string] else []).

(** All other fields of the OIDC settings are empty. *)
Definition onlySource (c : AuthOIDCClientConfig) : bool :=
  bool_decide (oClientID c = EmptyString) && bool_decide (ClientSecret c = EmptyString) && bool_decide (oAudience c = EmptyString)
  && bool_decide (Scope c = EmptyString) && bool_decide (TokenEndpointURL c = EmptyString) && bool_decide (AdditionalEndpointParams c = ∅)
  && bool_decide (oTrustedCaFile c = EmptyString) && negb (InsecureSkipVerify c) && bool_decide (oProxyURL c = EmptyString).

Definition validateOIDCConfig (u : UnsafeFeatures) (c : AuthOIDCClientConfig) : list error :=
  match oTokenSource c with
  | None => []
  | Some s =>
      unless (onlySource c) EOIDCBoth
      ++ (if decide (Type_ s = "exec"%string) then ValidateUnsafeFeature u TokenSourceExec else [])
      ++ lift EOIDCSource (Values.Validate s)
  end.

Definition validateAuthConfig (u : UnsafeFeatures) (c : AuthClientConfig) : list error :=
  unless (bool_decide (Method c ∈ SupportedAuthMethods)) EMethod
  ++ unless (Every SupportedAuthAdditionalScopes (AdditionalScopes c)) EScopes
  ++ validateAuthTokenSource u (Token c) (TokenSource c)
  ++ validateOIDCConfig u (OIDC c)
  ++ (if decide (Method c = AuthMethodOIDC ∧ oTokenSource (OIDC c) = None)
      then match ValidateOIDCClientCredentialsConfig (OIDC c) with [] => [] | msgs => [EOIDC msgs] end else []).

Definition validateFeatureGates (c : ClientCommonConfig) : list error :=
  match FeatureGate.SetFromMap (FeatureGates c) FeatureGate.NewFeatureGate with
  | (Err e, _) => [EGate e]
  | (Ok _, gates) =>
      if decide (VirtualNet c = EmptyString) then [] else unless (FeatureGate.Enabled "VirtualNet" gates) EVirtualNet
  end.

(** The warnings are the names of the settings that have no effect. *)
Definition tlsWarnings (c : TLSClientConfig) : list string :=
  if fromPtr (Enable c) then []
  else (if decide (CertFile (clientTLS c) = EmptyString) then [] else ["transport.tls.certFile"%string])
       ++ (if decide (KeyFile (clientTLS c) = EmptyString) then [] else ["transport.tls.keyFile"%string])
       ++ (if decide (TrustedCaFile (clientTLS c) = EmptyString) then [] else ["transport.tls.trustedCaFile"%string]).

Definition validateTransportConfig (c : ClientTransportConfig) : list error :=
  unless (negb ((0 <? HeartbeatTimeout c) && (0 <? HeartbeatInterval c) && (HeartbeatTimeout c <? HeartbeatInterval c))) EHeartbeat
  ++ unless (bool_decide (Protocol c ∈ SupportedTransportProtocols)) EProtocol
  ++ unless (bool_decide (WireProtocol c ∈ SupportedWireProtocols)) EWire.

Definition validateIncludeFiles (files : list string) : list error :=
  files ≫= λ f, match absDir f with None => [EIncludeParse f] | Some d => unless (negb (notExist d)) (EIncludeDir f) end.

Definition ValidateClientCommonConfig (u : UnsafeFeatures) (c : ClientCommonConfig) : list string * list error :=
  (tlsWarnings (TLS (Transport c)),
   validateFeatureGates c ++ validateAuthConfig u (Auth_ c) ++ validateLogConfig (Log c) ++ validateWebServerConfig (WebServer c)
   ++ validateTransportConfig (Transport c) ++ validateIncludeFiles (IncludeConfigFiles c)).

(** The first item that fails. *)
Fixpoint firstError {A} (check : A → list error) (l : list A) : list error :=
  match l with [] => [] | x :: l => match check x with [] => firstError check l | es => es end end.

Definition ValidateAllClientConfig (u : UnsafeFeatures) (c : option ClientCommonConfig) (proxyCfgs : list Config.ProxyConfigurer)
    (visitorCfgs : list Config.VisitorConfigurer) : list string * list error :=
  let '(warnings, errs) := match c with Some c => ValidateClientCommonConfig u c | None => ([], []) end in
  (warnings,
   match errs with
   | [] =>
       match firstError (λ p, lift (EProxy (Config.Name (Config.GetBaseConfig p))) (Config.ValidateProxyConfigurerForClient isQualifiedName p)) proxyCfgs with
       | [] => firstError (λ v, lift (EVisitor (Config.vName (Config.vBase v))) (Config.ValidateVisitorConfigurer v)) visitorCfgs
       | es => es
       end
   | errs => errs
   end).

Definition ValidateServerConfig (u : UnsafeFeatures) (c : ServerConfig) : list error :=
  unless (bool_decide (sMethod (sAuth c) ∈ SupportedAuthMethods)) EMethod
  ++ unless (Every SupportedAuthAdditionalScopes (sAdditionalScopes (sAuth c))) EScopes
  ++ validateAuthTokenSource u (sToken (sAuth c)) (sTokenSource (sAuth c))
  ++ validateLogConfig (sLog c) ++ validateWebServerConfig (sWebServer c)
  ++ ValidatePort (BindPort c) "bindPort" ++ ValidatePort (KCPBindPort c) "kcpBindPort" ++ ValidatePort (QUICBindPort c) "quicBindPort"
  ++ ValidatePort (VhostHTTPPort c) "vhostHTTPPort" ++ ValidatePort (VhostHTTPSPort c) "vhostHTTPSPort"
  ++ ValidatePort (TCPMuxHTTPConnectPort c) "tcpMuxHTTPConnectPort"
  ++ unless (0 <=? MaxPoolCount (sTransport c)) EMaxPool
  ++ (HTTPPlugins c ≫= λ p, unless (Every SupportedHTTPPluginOps (Ops p)) EOps).

(** [GetClientConfigRequirements]: whether the virtual network is needed. *)
Definition GetClientConfigRequirements (common : option ClientCommonConfig) (proxyCfgs : list Config.ProxyConfigurer)
    (visitorCfgs : list Config.VisitorConfigurer) : bool :=
  match common with Some c => negb (bool_decide (VirtualNet c = EmptyString)) | None => false end
  || existsb (λ p, bool_decide (Config.pluginType (Config.Plugin (Config.GetBaseConfig p)) = "virtual_net"%string)) proxyCfgs
  || existsb (λ v, bool_decide (Config.vPluginType (Config.vPlugin (Config.vBase v)) = "virtual_net"%string)) visitorCfgs.
End validation.

(** *** What a valid configuration is *)

Lemma and_iff {P Q P' Q' : Prop} : (P ↔ P') → (Q ↔ Q') → P ∧ Q ↔ P' ∧ Q'.
Proof. tauto. Qed.
Lemma unless_nil ok e : unless ok e = [] ↔ ok = true.
Proof. by destruct ok. Qed.
Lemma lift_nil {E} (f : E → error) (r : res E unit) : lift f r = [] ↔ r = Ok ().
Proof. by destruct r as [[]|]. Qed.
Lemma Every_subset all these : Every all these = true ↔ ∀ x, x ∈ these → x ∈ all.
Proof. unfold Every. rewrite forallb_forall. setoid_rewrite bool_decide_eq_true. split; intros H x Hx; apply H; by apply list_elem_of_In. Qed.
Lemma bind_nil {A B} (f : A → list B) l : l ≫= f = [] ↔ ∀ x, x ∈ l → f x = [].
Proof.
  induction l as [|y l IH]; simpl; [set_solver|]. rewrite app_nil, IH. split.
  - intros [H1 H2] x [->|Hx]%elem_of_cons; auto.
  - intros H. split; [apply H; by left|]. intros x Hx. apply H. by right.
Qed.

Definition portOk (p : Z) : Prop := 0 ≤ p ≤ 65535.
Lemma ValidatePort_nil p field : ValidatePort p field = [] ↔ portOk p.
Proof. unfold ValidatePort, portOk. rewrite unless_nil, andb_true_iff, !Z.leb_le. done. Qed.

Definition webOk (c : WebServerConfig) : Prop :=
  portOk (Port c) ∧ ∀ t, wTLS c = Some t → CertFile t ≠ EmptyString ∧ KeyFile t ≠ EmptyString.
Lemma validateWeb_nil c : validateWebServerConfig c = [] ↔ webOk c.
Proof.
  unfold validateWebServerConfig, webOk. destruct (wTLS c) as [t|]; [|rewrite ValidatePort_nil; naive_solver].
  repeat case_decide; rewrite ?ValidatePort_nil; naive_solver.
Qed.

(** A source of values that may be used. *)
Definition sourceOk (u : UnsafeFeatures) (v : ValueSource) : Prop :=
  (Type_ v = "exec"%string → IsEnabled TokenSourceExec u = true) ∧ Values.Validate v = Ok ().

Lemma source_nil u (f : Values.error → error) v :
  (if decide (Type_ v = "exec"%string) then ValidateUnsafeFeature u TokenSourceExec else []) ++ lift f (Values.Validate v) = [] ↔ sourceOk u v.
Proof. unfold sourceOk, ValidateUnsafeFeature. rewrite app_nil, lift_nil. case_decide; rewrite ?unless_nil; naive_solver. Qed.

Definition tokenOk (u : UnsafeFeatures) (token : string) (source : option ValueSource) : Prop :=
  ∀ v, source = Some v → token = EmptyString ∧ sourceOk u v.
Lemma validateTokenSource_nil u token source : validateAuthTokenSource u token source = [] ↔ tokenOk u token source.
Proof.
  unfold validateAuthTokenSource, tokenOk. destruct source as [v|]; [|naive_solver].
  rewrite app_nil, source_nil, unless_nil, bool_decide_eq_true. naive_solver.
Qed.

Section spec.
Context (parseURL : string → option (string * string)) (absDir : string → option string) (notExist : string → bool).

Definition credentialsOk (c : AuthOIDCClientConfig) : Prop :=
  oClientID c ≠ EmptyString ∧
  (TokenEndpointURL c ≠ EmptyString ∧ ∃ scheme host, parseURL (TokenEndpointURL c) = Some (scheme, host) ∧ host ≠ EmptyString ∧ (scheme = "http"%string ∨ scheme = "https"%string)) ∧
  AdditionalEndpointParams c !! "scope"%string = None ∧ (oAudience c ≠ EmptyString → AdditionalEndpointParams c !! "audience"%string = None).

Lemma credentials_nil c : ValidateOIDCClientCredentialsConfig parseURL c = [] ↔ credentialsOk c.
Proof.
  clear absDir notExist. unfold ValidateOIDCClientCredentialsConfig, credentialsOk. rewrite !app_nil. apply and_iff; [by case_decide|].
  apply and_iff.
  - case_decide; [naive_solver|]. destruct (parseURL _) as [[scheme host]|]; [|naive_solver].
    destruct (decide (scheme = "http"%string)), (decide (scheme = "https"%string)); repeat case_decide; naive_solver.
  - rewrite eq_None_not_Some. apply and_iff; [by case_decide|]. case_decide as Ha; rewrite eq_None_not_Some; naive_solver.
Qed.

(** The settings of a client that fit together. *)
Record clientOk (u : UnsafeFeatures) (c : ClientCommonConfig) : Prop := {
  co_gates : (FeatureGate.SetFromMap (FeatureGates c) FeatureGate.NewFeatureGate).1 = Ok ();
  co_vnet : VirtualNet c ≠ EmptyString → FeatureGate.Enabled "VirtualNet" (FeatureGate.SetFromMap (FeatureGates c) FeatureGate.NewFeatureGate).2 = true;
  co_method : Method (Auth_ c) = AuthMethodToken ∨ Method (Auth_ c) = AuthMethodOIDC;
  co_scopes x : x ∈ AdditionalScopes (Auth_ c) → x ∈ SupportedAuthAdditionalScopes;
  co_token : tokenOk u (Token (Auth_ c)) (TokenSource (Auth_ c));
  co_oidc v : oTokenSource (OIDC (Auth_ c)) = Some v → onlySource (OIDC (Auth_ c)) = true ∧ sourceOk u v;
  co_credentials : Method (Auth_ c) = AuthMethodOIDC → oTokenSource (OIDC (Auth_ c)) = None → credentialsOk (OIDC (Auth_ c));
  co_level : Level (Log c) ∈ SupportedLogLevels;
  co_web : webOk (WebServer c);
  co_heartbeat : 0 < HeartbeatTimeout (Transport c) → 0 < HeartbeatInterval (Transport c) → HeartbeatInterval (Transport c) ≤ HeartbeatTimeout (Transport c);
  co_protocol : Protocol (Transport c) ∈ SupportedTransportProtocols;
  co_wire : WireProtocol (Transport c) ∈ SupportedWireProtocols;
  co_includes f : f ∈ IncludeConfigFiles c → ∃ d, absDir f = Some d ∧ notExist d = false }.
Lemma gates_nil c : validateFeatureGates c = [] ↔
  (FeatureGate.SetFromMap (FeatureGates c) FeatureGate.NewFeatureGate).1 = Ok () ∧
  (VirtualNet c ≠ EmptyString → FeatureGate.Enabled "VirtualNet" (FeatureGate.SetFromMap (FeatureGates c) FeatureGate.NewFeatureGate).2 = true).
Proof.
  clear. unfold validateFeatureGates. destruct (FeatureGate.SetFromMap _ _) as [[[]|] gates]; [|naive_solver].
  simpl. case_decide; rewrite ?unless_nil; naive_solver.
Qed.

Lemma oidc_nil u c : validateOIDCConfig u c = [] ↔ ∀ v, oTokenSource c = Some v → onlySource c = true ∧ sourceOk u v.
Proof. clear. unfold validateOIDCConfig. destruct (oTokenSource c) as [v|]; [|naive_solver]. rewrite app_nil, source_nil, unless_nil. naive_solver. Qed.

Lemma auth_nil u c : validateAuthConfig parseURL u c = [] ↔
  (Method c = AuthMethodToken ∨ Method c = AuthMethodOIDC) ∧ (∀ x, x ∈ AdditionalScopes c → x ∈ SupportedAuthAdditionalScopes) ∧
  tokenOk u (Token c) (TokenSource c) ∧ (∀ v, oTokenSource (OIDC c) = Some v → onlySource (OIDC c) = true ∧ sourceOk u v) ∧
  (Method c = AuthMethodOIDC → oTokenSource (OIDC c) = None → credentialsOk (OIDC c)).
Proof.
  clear absDir notExist. unfold validateAuthConfig. rewrite !app_nil, !unless_nil, Every_subset, validateTokenSource_nil, oidc_nil, bool_decide_eq_true.
  apply and_iff; [unfold SupportedAuthMethods; rewrite !elem_of_cons, elem_of_nil; naive_solver|]. do 3 (apply and_iff; [done|]).
  case_decide as Hc; [|naive_solver]. rewrite <-credentials_nil. destruct (ValidateOIDCClientCredentialsConfig _ _); naive_solver.
Qed.

Lemma transport_nil c : validateTransportConfig c = [] ↔
  (0 < HeartbeatTimeout c → 0 < HeartbeatInterval c → HeartbeatInterval c ≤ HeartbeatTimeout c) ∧
  Protocol c ∈ SupportedTransportProtocols ∧ WireProtocol c ∈ SupportedWireProtocols.
Proof.
  clear. unfold validateTransportConfig. rewrite !app_nil, !unless_nil, !bool_decide_eq_true, negb_true_iff. apply and_iff; [|done].
  destruct (Z.ltb_spec 0 (HeartbeatTimeout c)), (Z.ltb_spec 0 (HeartbeatInterval c)), (Z.ltb_spec (HeartbeatTimeout c) (HeartbeatInterval c));
    simpl; split; intros; try done; lia.
Qed.

Lemma includes_nil files : validateIncludeFiles absDir notExist files = [] ↔ ∀ f, f ∈ files → ∃ d, absDir f = Some d ∧ notExist d = false.
Proof.
  clear parseURL. unfold validateIncludeFiles. rewrite bind_nil. apply forall_proper; intros f. apply imp_iff_compat_l.
  destruct (absDir f) as [d|]; [rewrite unless_nil, negb_true_iff|]; naive_solver.
Qed.

(** the validation of a client's settings is exact.  It reports no error if and
    only if the settings fit together: known feature gates, the one of the virtual
    network when it has an address, a known method and known scopes, one source of
    the token that is well formed and no command unless commands are allowed, complete
    OIDC settings when they are used, a known log level, a usable web server, a
    heartbeat timeout that is not below the interval, known protocols, and included
    files whose directories exist. *)
Theorem client_valid_iff u c : (ValidateClientCommonConfig parseURL absDir notExist u c).2 = [] ↔ clientOk u c.
Proof.
  unfold ValidateClientCommonConfig. cbn [snd]. rewrite !app_nil, gates_nil, auth_nil, validateWeb_nil, transport_nil, includes_nil.
  unfold validateLogConfig. rewrite unless_nil, bool_decide_eq_true. split.
  - intros ((? & ?) & (? & ? & ? & ? & ?) & ? & ? & (? & ? & ?) & ?). by split.
  - intros []. by split_and!.
Qed.
End spec.

(** *** Servers *)

Record serverOk (u : UnsafeFeatures) (c : ServerConfig) : Prop := {
  so_method : sMethod (sAuth c) ∈ SupportedAuthMethods;
  so_scopes x : x ∈ sAdditionalScopes (sAuth c) → x ∈ SupportedAuthAdditionalScopes;
  so_token : tokenOk u (sToken (sAuth c)) (sTokenSource (sAuth c));
  so_level : Level (sLog c) ∈ SupportedLogLevels;
  so_web : webOk (sWebServer c);
  so_ports : Forall portOk [BindPort c; KCPBindPort c; QUICBindPort c; VhostHTTPPort c; VhostHTTPSPort c; TCPMuxHTTPConnectPort c];
  so_pool : 0 ≤ MaxPoolCount (sTransport c);
  so_ops p x : p ∈ HTTPPlugins c → x ∈ Ops p → ∃ op, x = Plugin.opName op }.

Lemma op_names x : x ∈ SupportedHTTPPluginOps ↔ ∃ op, x = Plugin.opName op.
Proof.
  unfold SupportedHTTPPluginOps. rewrite list_elem_of_fmap. split; [intros (op & -> & _); by eexists|].
  intros [op ->]. exists op. split; [done|]. destruct op; set_solver.
Qed.

(** the validation of a server's settings is exact.  It reports no error if and
    only if method and scopes are known, the token has one well-formed source and no
    command unless commands are allowed, the log level is known, the web server is
    usable, all ports are ports, the pool has no negative size, and the plugins handle
    operations that exist. *)
Theorem server_valid_iff u c : ValidateServerConfig u c = [] ↔ serverOk u c.
Proof.
  unfold ValidateServerConfig. rewrite !app_nil, !unless_nil, Every_subset, validateTokenSource_nil, validateWeb_nil, !ValidatePort_nil, bind_nil, Z.leb_le.
  unfold validateLogConfig. rewrite unless_nil, !bool_decide_eq_true.
  assert (Hops : (∀ p, p ∈ HTTPPlugins c → unless (Every SupportedHTTPPluginOps (Ops p)) EOps = []) ↔
    (∀ p x, p ∈ HTTPPlugins c → x ∈ Ops p → ∃ op, x = Plugin.opName op)).
  { setoid_rewrite unless_nil. setoid_rewrite Every_subset. setoid_rewrite op_names. naive_solver. }
  rewrite Hops. split.
  - intros (? & ? & ? & ? & ? & ? & ? & ? & ? & ? & ? & ? & ?). split; try done. by rewrite !Forall_cons, Forall_nil.
  - intros [H1 H2 H3 H4 H5 H6 H7 H8]. rewrite !Forall_cons in H6. naive_solver.
Qed.
End Validation.

(** ** Defaults *)
Module Defaults.
Import Values CommonConfig Validation.

Lemma or_or {A} `{EqDecision A} (z v f : A) : or z (or z v f) f = or z v f.
Proof. unfold or, Config.EmptyOr. repeat case_decide; done. Qed.
Lemma or_zero {A} `{EqDecision A} (z f : A) : or z z f = f.
Proof. unfold or, Config.EmptyOr. by rewrite decide_True. Qed.

Lemma completeQUIC_idemp c : completeQUIC (completeQUIC c) = completeQUIC c.
Proof. unfold completeQUIC; simpl. by rewrite !or_or. Qed.
Lemma completeWeb_idemp c : completeWeb (completeWeb c) = completeWeb c.
Proof. unfold completeWeb, setAddr; simpl. by rewrite or_or. Qed.
Lemma completeLog_idemp c : completeLog (completeLog c) = completeLog c.
Proof. unfold completeLog; simpl. by rewrite !or_or. Qed.
Lemma completeTransport_idemp hp c : completeTransport hp (completeTransport hp c) = completeTransport hp c.
Proof. unfold completeTransport, completeTLSClient; simpl. by rewrite completeQUIC_idemp, !or_or. Qed.
Lemma completeServerTransport_idemp c : completeServerTransport (completeServerTransport c) = completeServerTransport c.
Proof. unfold completeServerTransport; simpl. rewrite completeQUIC_idemp, !or_or. by case_decide. Qed.

(** The address of the web server is set before the server looks at its port. *)
Lemma completeWeb_addr c d : or EmptyString (Addr (completeWeb c)) d = Addr (completeWeb c).
Proof. unfold completeWeb, setAddr, or, Config.EmptyOr; simpl. by repeat case_decide. Qed.
Lemma setAddr_same c : setAddr (Addr c) c = c.
Proof. by destruct c. Qed.

Lemma web_default c :
  (if 0 <? Port (completeWeb c) then setAddr (or EmptyString (Addr (completeWeb c)) "0.0.0.0"%string) (completeWeb c) else completeWeb c) = completeWeb c.
Proof. rewrite completeWeb_addr, setAddr_same. by destruct (0 <? _). Qed.

(** [Complete] is a closure.  Completing a configuration twice is completing it once,
    for clients and servers, so configurations may be completed again whenever they are
    loaded or changed; and an empty configuration becomes one that the validation accepts
    without any unsafe feature, whatever the environment holds. *)
Theorem complete_closed httpProxy parseURL absDir notExist c s :
  completeClient httpProxy (completeClient httpProxy c) = completeClient httpProxy c ∧
  completeServer (completeServer s) = completeServer s ∧
  (ValidateClientCommonConfig parseURL absDir notExist None (completeClient httpProxy zeroClient)).2 = [] ∧
  ValidateServerConfig None (completeServer zeroServer) = [].
Proof.
  split_and!; [| |reflexivity|reflexivity].
  - unfold completeClient; simpl. rewrite !or_or, completeLog_idemp, completeWeb_idemp, completeTransport_idemp. unfold completeAuth; simpl. by rewrite or_or.
  - unfold completeServer. cbv zeta. rewrite !web_default. cbn [sWebServer]. rewrite completeWeb_idemp. simpl.
    rewrite !or_or, completeLog_idemp, completeServerTransport_idemp. unfold completeAuthServer, completeSSH; simpl. rewrite !or_or.
    f_equal. by repeat case_decide.
Qed.

(** The comments promise [0.0.0.0] for a dashboard with a port and no address. *)
Example dashboard_addr : Addr (sWebServer (completeServer
  (mkServer (sAuth zeroServer) "" 0 0 0 "" 0 0 0 0 false "" "" (SSH zeroServer) (mkWeb "" 7500 "" "" "" false None) false zeroLog
    (sTransport zeroServer) None 0 0 0 0 [] []))) = "127.0.0.1"%string.
Proof. reflexivity. Qed.
End Defaults.
