(* ===== verification/AuthRuntime.v ===== *)
(** * Authentication at run time: [pkg/auth/auth.go], [pkg/auth/oidc.go]

    What clients and servers make of their authentication settings: tokens, which
    may be read from files or commands, and OIDC, where the client gets tokens from
    a provider and the server verifies them and remembers who has logged in.
    [Build] constructs both ends, [Oidc] follows the tokens of a client and the
    subjects of a server.  The libraries for OAuth2 and OIDC are parameters. *)
From S2P Require Import Prelude Chars Visitor Service Config CommonConfig.

(** ** Construction *)
Module Build.
Import Values CommonConfig Validation.

Definition scopeOf (s : string) : option Auth.AuthScope :=
  if decide (s = "HeartBeats"%string) then Some Auth.AuthScopeHeartBeats
  else if decide (s = "NewWorkConns"%string) then Some Auth.AuthScopeNewWorkConns else None.

(** [clientcredentials.Config] *)
Record Credentials := mkCredentials {
  cClientID : string; cClientSecret : string; Scopes : list string; TokenURL : string; EndpointParams : gmap string (list string) }.

(** [CustomClient]: whether the requests use a client of their own. *)
Inductive Setter :=
| TokenSetter (a : Auth.TokenAuth)
| OidcSetter (scopes : list Auth.AuthScope) (c : Credentials) (customClient : bool)
| OidcSourceSetter (scopes : list Auth.AuthScope) (source : ValueSource).

(** [PanicDiscovery] is a panic and no error: the provider of the tokens cannot be asked. *)
Inductive error := ErrSource (e : Values.error) | ErrMethod | ErrOIDC (msgs : list string) | ErrHTTPClient | PanicDiscovery.

Section build.
(** [url.Parse], and whether [createOIDCHTTPClient] succeeds. *)
Context (parseURL : string → option (string * string)) (httpClientOk : AuthOIDCClientConfig → bool).

Definition endpointParams (c : AuthOIDCClientConfig) : gmap string (list string) :=
  let eps := (λ v, [v]) <$> AdditionalEndpointParams c in
  if decide (oAudience c = EmptyString) then eps else <[ "audience"%string := [oAudience c] ]> eps.

Definition NewOidcAuthSetter (scopes : list Auth.AuthScope) (c : AuthOIDCClientConfig) : res error Setter :=
  match ValidateOIDCClientCredentialsConfig parseURL c with
  | [] =>
      let custom := negb (bool_decide (oTrustedCaFile c = EmptyString)) || InsecureSkipVerify c || negb (bool_decide (oProxyURL c = EmptyString)) in
      if custom && negb (httpClientOk c) then Err ErrHTTPClient
      else Ok (OidcSetter scopes (mkCredentials (oClientID c) (ClientSecret c) [Scope c] (TokenEndpointURL c) (endpointParams c)) custom)
  | msgs => Err (ErrOIDC msgs)
  end.

Definition NewAuthSetter (c : AuthClientConfig) : res error Setter :=
  let scopes := omap scopeOf (AdditionalScopes c) in
  if decide (Method c = AuthMethodToken) then Ok (TokenSetter (Auth.mkTokenAuth scopes (Token c)))
  else if decide (Method c = AuthMethodOIDC) then
    match oTokenSource (OIDC c) with
    | Some s => Ok (OidcSourceSetter scopes s)
    | None => NewOidcAuthSetter scopes (OIDC c)
    end
  else Err ErrMethod.

(** The token of the settings, or of its source when the method is token. *)
Definition resolveToken (o : outside) (method token : string) (source : option ValueSource) : res error string * list effect :=
  match source with
  | Some s =>
      if decide (method = AuthMethodToken) then
        match Values.Resolve o s with (Ok t, es) => (Ok t, es) | (Err e, es) => (Err (ErrSource e), es) end
      else (Ok token, [])
  | None => (Ok token, [])
  end.

(** The setter and the encryption key. *)
Definition BuildClientAuth (o : outside) (c : AuthClientConfig) : res error (Setter * string) * list effect :=
  match resolveToken o (Method c) (Token c) (TokenSource c) with
  | (Err e, es) => (Err e, es)
  | (Ok token, es) =>
      (match NewAuthSetter (mkAuth (Method c) (AdditionalScopes c) token (TokenSource c) (OIDC c)) with
       | Err e => Err e
       | Ok setter => Ok (setter, token)
       end, es)
  end.

Inductive Verifier := TokenVerifier (a : Auth.TokenAuth) | OidcVerifier (scopes : list Auth.AuthScope) (c : AuthOIDCServerConfig) | NilVerifier.

(** [NewTokenVerifier]: [discovers] is whether [oidc.NewProvider] reaches the issuer. *)
Definition NewTokenVerifier (discovers : AuthOIDCServerConfig → bool) (scopes : list Auth.AuthScope) (c : AuthOIDCServerConfig) : res error Verifier :=
  if discovers c then Ok (OidcVerifier scopes c) else Err PanicDiscovery.

(** A method that is unknown leaves the verifier nil. *)
Definition NewAuthVerifier (discovers : AuthOIDCServerConfig → bool) (c : AuthServerConfig) : res error Verifier :=
  let scopes := omap scopeOf (sAdditionalScopes c) in
  if decide (sMethod c = AuthMethodToken) then Ok (TokenVerifier (Auth.mkTokenAuth scopes (sToken c)))
  else if decide (sMethod c = AuthMethodOIDC) then NewTokenVerifier discovers scopes (sOIDC c)
  else Ok NilVerifier.

Definition BuildServerAuth (discovers : AuthOIDCServerConfig → bool) (o : outside) (c : AuthServerConfig) : res error (Verifier * string) * list effect :=
  match resolveToken o (sMethod c) (sToken c) (sTokenSource c) with
  | (Err e, es) => (Err e, es)
  | (Ok token, es) =>
      (match NewAuthVerifier discovers (mkAuthServer (sMethod c) (sAdditionalScopes c) token (sTokenSource c) (sOIDC c)) with
       | Err e => Err e
       | Ok verifier => Ok (verifier, token)
       end, es)
  end.

Lemma resolveToken_runs u o method token source r es command args env :
  tokenOk u token source → resolveToken o method token source = (r, es) → ERun command args env ∈ es → IsEnabled TokenSourceExec u = true.
Proof using Type.
  intros Ht. unfold resolveToken. destruct source as [s|]; [|by intros [= <- <-] ?%elem_of_nil].
  destruct (Ht s eq_refl) as [_ [Hexec _]]. case_decide; [|by intros [= <- <-] ?%elem_of_nil].
  destruct (Values.Resolve o s) as [r' es'] eqn:Hr. intros Heq Hin.
  assert (es = es') as -> by (destruct r'; by injection Heq). apply Resolve_effects in Hr as (_ & _ & Hr).
  apply Hexec. by eapply Hr.
Qed.

(** settings that were validated can be used, and run no command that was not
    allowed.  From valid settings of a client the setter is built, unless the token
    cannot be read or the provider's HTTP client not be made; from those of a server a
    verifier, which is never nil, unless the token cannot be read or the provider of OIDC
    tokens not be reached, which panics.  A command is run only when the user enabled the
    feature for it. *)
Theorem validated_auth_builds absDir notExist discovers o u c s r es r' es' :
  clientOk parseURL absDir notExist u c → serverOk u s →
  BuildClientAuth o (Auth_ c) = (r, es) → BuildServerAuth discovers o (sAuth s) = (r', es') →
  (∀ e, r = Err e → (∃ x, e = ErrSource x) ∨ e = ErrHTTPClient) ∧
  (∀ e, r' = Err e → (∃ x, e = ErrSource x) ∨ e = PanicDiscovery ∧ sMethod (sAuth s) = AuthMethodOIDC ∧ discovers (sOIDC (sAuth s)) = false) ∧
  (∀ v key, r' = Ok (v, key) → v ≠ NilVerifier) ∧
  (∀ command args env, ERun command args env ∈ es ++ es' → IsEnabled TokenSourceExec u = true).
Proof.
  intros Hc Hs Hr Hr'. unfold BuildClientAuth in Hr. unfold BuildServerAuth in Hr'.
  destruct (resolveToken o (Method (Auth_ c)) _ _) as [t es1] eqn:Ht. destruct (resolveToken o (sMethod (sAuth s)) _ _) as [t' es2] eqn:Ht'.
  assert (es = es1) as -> by (destruct t; by injection Hr). assert (es' = es2) as -> by (destruct t'; [destruct (NewAuthVerifier _ _)|]; by injection Hr').
  assert (Hsource : ∀ m tk src e l, resolveToken o m tk src = (Err e, l) → ∃ x, e = ErrSource x).
  { intros m tk src e l. unfold resolveToken. destruct src as [v|]; [|done]. case_decide; [|done]. destruct (Values.Resolve o v) as [[]]; [done|].
    intros [= <- <-]. by eexists. }
  split_and!.
  - intros e ->. destruct t as [token|e']; [|injection Hr as ->; left; by eapply Hsource]. right. unfold NewAuthSetter in Hr. cbn in Hr.
    destruct (co_method _ _ _ _ _ Hc) as [Hm|Hm]; rewrite Hm in Hr; [done|]. simpl in Hr.
    destruct (oTokenSource (OIDC (Auth_ c))) eqn:Ho; [done|]. pose proof (co_credentials _ _ _ _ _ Hc Hm Ho) as Hcr.
    apply credentials_nil in Hcr. unfold NewOidcAuthSetter in Hr. rewrite Hcr in Hr. destruct (_ && _); [by injection Hr as ->|done].
  - intros e ->. destruct t' as [token|e']; [|injection Hr' as ->; left; by eapply Hsource]. right. unfold NewAuthVerifier, NewTokenVerifier in Hr'. cbn in Hr'.
    case_decide; [done|]. case_decide; [|done]. destruct (discovers _) eqn:Hd; [done|]. injection Hr' as <-. by split_and!.
  - intros v key ->. destruct t' as [token|e']; [|done]. unfold NewAuthVerifier, NewTokenVerifier in Hr'. cbn in Hr'.
    pose proof (so_method _ _ Hs) as Hm. apply elem_of_cons in Hm as [Hm|Hm]; [|apply list_elem_of_singleton in Hm]; rewrite Hm in Hr'; simpl in Hr'.
    + by injection Hr' as <- <-.
    + destruct (discovers _); [by injection Hr' as <- <-|done].
  - intros command args env [Hin|Hin]%elem_of_app.
    + exact (resolveToken_runs u _ _ _ _ _ _ _ _ _ (co_token _ _ _ _ _ Hc) Ht Hin).
    + exact (resolveToken_runs u _ _ _ _ _ _ _ _ _ (so_token _ _ Hs) Ht' Hin).
Qed.

(** the two ends of a token agree.  A client and a server that are configured for
    tokens and read the same token, each from its settings or its source, encrypt with
    the same key; the server accepts the login of the client, and its heartbeats and
    work connections when the client signs at least what the server asks for. *)
Theorem configured_tokens_agree md5hex discovers o o' c s setter verifier key key' es es' now m :
  Method c = AuthMethodToken → sMethod s = AuthMethodToken →
  BuildClientAuth o c = (Ok (setter, key), es) → BuildServerAuth discovers o' s = (Ok (verifier, key'), es') → key = key' →
  (∀ x, x ∈ sAdditionalScopes s → x ∈ AdditionalScopes c) →
  ∃ a b, setter = TokenSetter a ∧ verifier = TokenVerifier b ∧ Auth.token a = key ∧ Auth.token b = key ∧
    Auth.VerifyLogin md5hex b (Auth.SetLogin md5hex a m) = Ok () ∧
    Auth.VerifyPing md5hex b (Auth.SetPing md5hex now a m) = Ok () ∧
    Auth.VerifyNewWorkConn md5hex b (Auth.SetNewWorkConn md5hex now a m) = Ok ().
Proof.
  intros Hm Hm' Hb Hb' <- Hsub. unfold BuildClientAuth in Hb. unfold BuildServerAuth in Hb'. rewrite Hm in Hb. rewrite Hm' in Hb'.
  destruct (resolveToken o _ _ _) as [[token|] ?]; [|done]. destruct (resolveToken o' _ _ _) as [[token'|] ?]; [|done].
  unfold NewAuthSetter in Hb. unfold NewAuthVerifier in Hb'. simpl in Hb, Hb'. simplify_eq.
  assert (Hscopes : ∀ x, x ∈ omap scopeOf (sAdditionalScopes s) → x ∈ omap scopeOf (AdditionalScopes c)).
  { intros x. rewrite !list_elem_of_omap. naive_solver. }
  eexists _, _. do 4 (split; [reflexivity|]). split_and!.
  - unfold Auth.VerifyLogin, Auth.SetLogin. simpl. by rewrite bool_decide_eq_true_2.
  - by apply Auth.Ping_verified.
  - by apply Auth.NewWorkConn_verified.
Qed.
End build.

Definition demoURL (u : string) : option (string * string) := Some ("https", "idp")%string.
Definition demoOutside : outside := mkOutside (λ _, None) (λ _ _ _, Some " secret "%string) [].
Definition demoSource : ValueSource := mkSource "exec" None (Some (mkExec "pass" ["frp"%string] [])).
Definition demoClient : ClientCommonConfig :=
  completeClient "" (mkClient (mkAuth "" ["HeartBeats"%string] "" (Some demoSource) zeroOIDC) "" "" "" 0 "" "" None [] zeroLog zeroWeb
    (Transport zeroClient) "" [] 0 ∅ [] "").
Definition demoServer : ServerConfig := completeServer
  (mkServer (mkAuthServer "" ["HeartBeats"%string] "secret" None (sOIDC (sAuth zeroServer))) "" 0 0 0 "" 0 0 0 0 false "" "" (SSH zeroServer) zeroWeb false zeroLog
    (sTransport zeroServer) None 0 0 0 0 [] []).
Definition demoAllowed : UnsafeFeatures := NewUnsafeFeatures [TokenSourceExec].

Lemma validated_auth_builds_witness : IsEnabled TokenSourceExec demoAllowed = true.
Proof.
  destruct (validated_auth_builds demoURL (λ _, true) (λ _, None) (λ _, false) (λ _, false) demoOutside demoAllowed demoClient demoServer
    (BuildClientAuth demoURL (λ _, true) demoOutside (Auth_ demoClient)).1 (BuildClientAuth demoURL (λ _, true) demoOutside (Auth_ demoClient)).2
    (BuildServerAuth (λ _, false) demoOutside (sAuth demoServer)).1 (BuildServerAuth (λ _, false) demoOutside (sAuth demoServer)).2) as (_ & _ & _ & H);
    [by apply client_valid_iff; vm_compute|by apply server_valid_iff; vm_compute|by vm_compute|by vm_compute|].
  apply (H "pass"%string ["frp"%string] None). vm_compute. left.
Defined.

Lemma configured_tokens_agree_witness : ∃ a b,
  BuildClientAuth demoURL (λ _, true) demoOutside (Auth_ demoClient) = (Ok (TokenSetter a, "secret"%string), [ERun "pass" ["frp"%string] None]) ∧
  BuildServerAuth (λ _, false) demoOutside (sAuth demoServer) = (Ok (TokenVerifier b, "secret"%string), []) ∧
  Auth.VerifyLogin id b (Auth.SetLogin id a (Auth.mkSigned 5 "")) = Ok ().
Proof.
  eexists _, _. split; [by vm_compute|]. split; [by vm_compute|].
  edestruct (configured_tokens_agree demoURL (λ _, true) id (λ _, false) demoOutside demoOutside (Auth_ demoClient) (sAuth demoServer)) with (now := 0) (m := Auth.mkSigned 5 EmptyString) as (a & b & Ha & Hb & _ & _ & H & _);
    [reflexivity|reflexivity|by vm_compute|by vm_compute|reflexivity|by vm_compute|]. injection Ha as <-. injection Hb as <-. exact H.
Defined.
End Build.

(** ** OIDC *)
Module Oidc.

(** *** Tokens of the client *)

(** [Expiry] is [None] for the zero time. *)
Record token := mkToken { AccessToken : string; Expiry : option Z }.

Section client.
(** The caching source of the library with its state, and its errors. *)
Context {S Err_ : Type} (cachingToken : Z → S → res Err_ token * S).

(** [oidcTokenSource]; [caching] says which source it uses. *)
Record oidcTokenSource := mkTokenSource { initialized : bool; caching : bool; inner : S }.
Definition newTokenSource (s : S) : oidcTokenSource := mkTokenSource false true s.

(** [Token] at time [now]; [fetched] is the provider's answer when it is asked
    without a cache. *)
Definition Token (now : Z) (fetched : res Err_ token) (ts : oidcTokenSource) : res Err_ token * oidcTokenSource :=
  let '(r, s) := if caching ts then cachingToken now (inner ts) else (fetched, inner ts) in
  if initialized ts then (r, mkTokenSource true (caching ts) s)
  else match r with
       | Err e => (Err e, mkTokenSource false (caching ts) s)
       | Ok t => (Ok t, mkTokenSource true (match Expiry t with None => false | Some _ => caching ts end) s)
       end.

Fixpoint Tokens (calls : list (Z * res Err_ token)) (ts : oidcTokenSource) : list (res Err_ token) :=
  match calls with
  | [] => []
  | (now, fetched) :: calls => let '(r, ts) := Token now fetched ts in r :: Tokens calls ts
  end.

(** The library returns tokens that have not expired. *)
Hypothesis caching_valid : ∀ now s t s' e, cachingToken now s = (Ok t, s') → Expiry t = Some e → now < e.

Lemma tokens_uncached calls ts : initialized ts = true → caching ts = false → Tokens calls ts = calls.*2.
Proof using Type.
  revert ts. induction calls as [|[now fetched] calls IH]; intros ts Hi Hc; simpl; [done|].
  unfold Token. rewrite Hc, Hi. f_equal. by apply IH.
Qed.

Lemma tokens_cached calls ts i t : caching ts = true → initialized ts = true → Tokens calls ts !! i = Some (Ok t) →
  ∃ now fetched, calls !! i = Some (now, fetched) ∧ ∀ e, Expiry t = Some e → now < e.
Proof using caching_valid.
  revert ts i. induction calls as [|[now fetched] calls IH]; intros ts i Hc Hi; [done|]. simpl. unfold Token. rewrite Hc, Hi.
  destruct (cachingToken now (inner ts)) as [r s] eqn:Hr. destruct i as [|i]; simpl.
  - intros [= ->]. exists now, fetched. split; [done|]. intros e He. by eapply caching_valid.
  - by apply IH.
Qed.

(** a client does not use a token that may be out of date.  Calls that fail change
    nothing, so the first success decides: when the provider gives no expiry, every
    later call asks the provider again and returns its answer of that moment; when it
    gives one, every token that is returned has not expired at the time it is
    returned. *)
Theorem oidc_tokens_fresh calls s i t now fetched :
  let rs := Tokens calls (newTokenSource s) in
  rs !! i = Some (Ok t) → calls !! i = Some (now, fetched) →
  (∀ e, Expiry t = Some e → now < e ∨ fetched = Ok t) ∧
  (∀ j t0, (j < i)%nat → rs !! j = Some (Ok t0) → (∀ k x, (k < j)%nat → rs !! k ≠ Some (Ok x)) → Expiry t0 = None → fetched = Ok t).
Proof using caching_valid.
  unfold newTokenSource. revert s i. induction calls as [|[now' fetched'] calls IH]; intros s i; [done|]. cbn [Tokens]. unfold Token. cbn [caching inner initialized].
  destruct (cachingToken now' s) as [r s'] eqn:Hr. destruct r as [t0|e0]; cbn zeta iota.
  - destruct i as [|i]; simpl.
    + intros [= <-] [= <- <-]. split; [intros e He; left; by eapply caching_valid|]. intros j t0' Hj. lia.
    + intros Hi Hc. destruct (Expiry t0) as [e0|] eqn:He0.
      * apply tokens_cached in Hi as (now1 & fetched1 & Hc1 & Hv); [|done|done]. rewrite Hc in Hc1. injection Hc1 as <- <-.
        split; [intros e He; left; by apply Hv|]. intros [|j] t1 Hj; simpl; [intros [= <-]; congruence|].
        intros _ Hnone. by destruct (Hnone 0%nat t0); [lia|].
      * rewrite tokens_uncached in Hi by done. rewrite list_lookup_fmap, Hc in Hi. injection Hi as ->. split; [by right|done].
  - destruct i as [|i]; simpl; [done|]. intros Hi Hc. destruct (IH s' i Hi Hc) as [H1 H2]. split; [done|].
    intros [|j] t1 Hj; simpl; [done|]. intros Hj1 Hnone. apply (H2 j t1); [lia|done|]. intros k x Hk. apply (Hnone (Datatypes.S k) x). lia.
Qed.
End client.

(** A source that keeps its token until it expires. *)
Definition demoCaching (now : Z) (s : option token) : res unit token * option token :=
  match s with
  | Some (mkToken a (Some e)) => if now <? e then (Ok (mkToken a (Some e)), s) else (Ok (mkToken "new" (Some (now + 5))), Some (mkToken "new" (Some (now + 5))))
  | _ => (Ok (mkToken "new" (Some (now + 5))), Some (mkToken "new" (Some (now + 5))))
  end.

Lemma oidc_tokens_fresh_witness : Tokens demoCaching [(1, Err ()); (9, Err ())] (newTokenSource None) !! 1%nat = Some (Ok (mkToken "new" (Some 14))) ∧ (9 < 14 ∨ @Err unit token () = Ok (mkToken "new" (Some 14))).
Proof.
  split; [reflexivity|].
  apply (oidc_tokens_fresh demoCaching) with (calls := [(1, Err ()); (9, Err ())]) (s := None) (i := 1%nat) (t := mkToken "new" (Some 14)); [|reflexivity|reflexivity|reflexivity].
  intros now [[a [e|]]|] t s' e'; simpl; try (intros [= <- <-] [= <-]; lia). destruct (Z.ltb_spec now e); intros [= <- <-] [= <-]; lia.
Defined.

(** *** Setters of the client *)

(** [SetLogin], [SetPing] and [SetNewWorkConn] of either provider; [access] is the
    outcome of [generateAccessToken], which is asked for only when it is needed. *)
Definition SetLogin {E} (access : res E string) (m : Auth.signed) : res E Auth.signed :=
  match access with Err e => Err e | Ok t => Ok (Auth.mkSigned (Auth.Timestamp m) t) end.
Definition setScoped {E} (scope : Auth.AuthScope) (scopes : list Auth.AuthScope) (access : res E string) (m : Auth.signed) : res E Auth.signed :=
  if negb (bool_decide (scope ∈ scopes)) then Ok m else SetLogin access m.
Definition SetPing {E} : list Auth.AuthScope → res E string → Auth.signed → res E Auth.signed := setScoped Auth.AuthScopeHeartBeats.
Definition SetNewWorkConn {E} : list Auth.AuthScope → res E string → Auth.signed → res E Auth.signed := setScoped Auth.AuthScopeNewWorkConns.

(** *** Subjects of the server *)

Inductive error := ErrToken | ErrSubject (subject : string).

Record OidcAuthConsumer := mkConsumer { additionalAuthScopes : list Auth.AuthScope; subjectsFromLogin : gset string }.
Definition NewOidcAuthVerifier (scopes : list Auth.AuthScope) : OidcAuthConsumer := mkConsumer scopes ∅.

Section server.
(** [TokenVerifier.Verify] at a time: the subject of a token that is valid then. *)
Context (verify : Z → string → option string).

Definition VerifyLogin (now : Z) (m : Auth.signed) (a : OidcAuthConsumer) : res error unit * OidcAuthConsumer :=
  match verify now (Auth.PrivilegeKey m) with
  | None => (Err ErrToken, a)
  | Some subject => (Ok (), mkConsumer (additionalAuthScopes a) ({[ subject ]} ∪ subjectsFromLogin a))
  end.

Definition verifyPostLoginToken (now : Z) (privilegeKey : string) (a : OidcAuthConsumer) : res error unit :=
  match verify now privilegeKey with
  | None => Err ErrToken
  | Some subject => if bool_decide (subject ∈ subjectsFromLogin a) then Ok () else Err (ErrSubject subject)
  end.

Definition VerifyPing (now : Z) (m : Auth.signed) (a : OidcAuthConsumer) : res error unit :=
  if negb (bool_decide (Auth.AuthScopeHeartBeats ∈ additionalAuthScopes a)) then Ok () else verifyPostLoginToken now (Auth.PrivilegeKey m) a.
Definition VerifyNewWorkConn (now : Z) (m : Auth.signed) (a : OidcAuthConsumer) : res error unit :=
  if negb (bool_decide (Auth.AuthScopeNewWorkConns ∈ additionalAuthScopes a)) then Ok () else verifyPostLoginToken now (Auth.PrivilegeKey m) a.

(** The requests of all clients, in the order the server verifies them, and when. *)
Inductive request := RLogin (now : Z) (m : Auth.signed) | RPing (now : Z) (m : Auth.signed) | RWork (now : Z) (m : Auth.signed).

Definition handle (a : OidcAuthConsumer) (r : request) : OidcAuthConsumer := match r with RLogin now m => (VerifyLogin now m a).2 | _ => a end.
Definition after (scopes : list Auth.AuthScope) (rs : list request) : OidcAuthConsumer := foldl handle (NewOidcAuthVerifier scopes) rs.

Lemma after_subjects scopes rs : additionalAuthScopes (after scopes rs) = scopes ∧
  ∀ subject, subject ∈ subjectsFromLogin (after scopes rs) ↔ ∃ t m, RLogin t m ∈ rs ∧ verify t (Auth.PrivilegeKey m) = Some subject.
Proof.
  induction rs as [|r rs [IH1 IH2]] using rev_ind; [split; [done|set_solver]|]. unfold after in *. rewrite foldl_app. simpl.
  destruct r as [t m|t m|t m]; simpl; [|split; [done|]; intros x; rewrite IH2; set_solver..]. unfold VerifyLogin.
  destruct (verify t (Auth.PrivilegeKey m)) as [s|] eqn:Hs; simpl; (split; [done|]); intros x; [|rewrite IH2; set_solver].
  rewrite elem_of_union, elem_of_singleton, IH2. set_solver.
Qed.

(** C33: after any requests of any clients, the server accepts a ping or a work connection
    exactly when its scope is not among those to be authenticated, or its token is valid at
    that time and its subject is one that some client has logged in with before, with a token
    that was valid then.  A login is accepted exactly when its token is valid at that time.
    (The subject need not be that of the login of the same client: [other_subject_accepted].) *)
Theorem oidc_subjects_exact scopes rs now m :
  let known k := ∃ subject t login, verify now k = Some subject ∧ RLogin t login ∈ rs ∧ verify t (Auth.PrivilegeKey login) = Some subject in
  (VerifyPing now m (after scopes rs) = Ok () ↔ Auth.AuthScopeHeartBeats ∉ scopes ∨ known (Auth.PrivilegeKey m)) ∧
  (VerifyNewWorkConn now m (after scopes rs) = Ok () ↔ Auth.AuthScopeNewWorkConns ∉ scopes ∨ known (Auth.PrivilegeKey m)) ∧
  ((VerifyLogin now m (after scopes rs)).1 = Ok () ↔ is_Some (verify now (Auth.PrivilegeKey m))).
Proof.
  intros known. destruct (after_subjects scopes rs) as [Hs Hsub].
  assert (Hpost : ∀ k, verifyPostLoginToken now k (after scopes rs) = Ok () ↔ known k).
  { intros k. unfold verifyPostLoginToken, known. destruct (verify now k) as [s|]; [|naive_solver]. destruct (bool_decide _) eqn:E; bool_to_prop; rewrite Hsub in E; naive_solver. }
  unfold VerifyPing, VerifyNewWorkConn, VerifyLogin. rewrite Hs. split_and!.
  - destruct (bool_decide _) eqn:E; bool_to_prop; simpl; rewrite ?Hpost; naive_solver.
  - destruct (bool_decide _) eqn:E; bool_to_prop; simpl; rewrite ?Hpost; naive_solver.
  - destruct (verify now (Auth.PrivilegeKey m)); simpl; [|rewrite is_Some_alt]; naive_solver.
Qed.
End server.

(** The subjects are those of all clients: a ping with the token of another user who
    logged in is accepted, although the error of a refused one speaks of different
    subjects in login and ping. *)
Example other_subject_accepted :
  VerifyPing (λ _, Some) 3 (Auth.mkSigned 0 "bob") (after (λ _, Some) [Auth.AuthScopeHeartBeats] [RLogin 1 (Auth.mkSigned 0 "bob"); RLogin 2 (Auth.mkSigned 0 "alice")]) = Ok ().
Proof. by vm_compute. Qed.

(** A token is valid until 5: its subject pings until then, also after a login of before. *)
Definition demoVerify (now : Z) (k : string) : option string := if now <? 5 then Some k else None.
Example expired_ping_refused :
  let a := after demoVerify [Auth.AuthScopeHeartBeats] [RLogin 1 (Auth.mkSigned 0 "bob")] in
  VerifyPing demoVerify 4 (Auth.mkSigned 0 "bob") a = Ok () ∧ VerifyPing demoVerify 6 (Auth.mkSigned 0 "bob") a = Err ErrToken.
Proof. by vm_compute. Qed.
End Oidc.
