(* ===== verification/ConnectMux.v ===== *)
(** * Connections by host name: [pkg/util/tcpmux/httpconnect.go], [pkg/util/vhost/https.go], [server/proxy/tcpmux.go], [https.go]

    A connection to one of the shared ports says in its first bytes where it wants to
    go: with an HTTP CONNECT request, or with the server name of a TLS hello.  [Peek]
    reads those bytes, lets the muxer of [Vhost] find the listener, answers, and hands
    on the stream.  [MuxProxy] are the proxies that listen there, alone or in a group. *)
From S2P Require Import Prelude Chars Bytes Vhost MuxGroup ReverseProxy.

(** ** The first bytes of a connection *)
Module Peek.
Import Vhost.

(** What a parser of a library says about the bytes read so far; [used] is the length
    of what it parsed. *)
Inductive parsed (A : Type) := More | Bad | Done (a : A) (used : nat).
#[global] Arguments More {A}.
#[global] Arguments Bad {A}.
#[global] Arguments Done {A} a used.

(** [reads] is what the calls of [Read] return one after the other.  The parser reads
    through [NewSharedConn] until it is done: the result, what was read, and what the
    connection still has. *)
Fixpoint readFrom {A} (parse : bytes → parsed A) (seen : bytes) (reads : list bytes) : option A * bytes * list bytes :=
  match parse seen with
  | Bad => (None, seen, reads)
  | Done a _ => (Some a, seen, reads)
  | More => match reads with [] => (None, seen, []) | c :: reads => readFrom parse (seen ++ c) reads end
  end.

(** The shared connection: what was read, then the rest. *)
Definition shared (seen : bytes) (reads : list bytes) : list bytes := seen :: reads.

(** *** CONNECT *)

Record Request := mkRequest { Method : string; Host : string; ProxyAuthorization : string }.

Inductive response := RespOK | RespProxyUnauthorized | RespNotFound | RespAlert.

(** User and password, both empty without credentials that can be parsed. *)
Definition proxyAuth (h : string) : string * string :=
  if decide (h = EmptyString) then (EmptyString, EmptyString)
  else match ReverseProxy.authOf (Some h) with
       | Some (u, p) => (ReverseProxy.toStr u, ReverseProxy.toStr p)
       | None => (EmptyString, EmptyString)
       end.

Section connect.
Context (readRequest : bytes → parsed Request).

Definition readHTTPConnectRequest (reads : list bytes) : option (string * string * string) * bytes * list bytes :=
  match readFrom readRequest [] reads with
  | (Some req, seen, rest) =>
      (if decide (Method req ≠ "CONNECT"%string) then None
       else let '(u, p) := proxyAuth (ProxyAuthorization req) in Some (ReverseProxy.canonical (Host req), u, p), seen, rest)
  | (None, seen, rest) => (None, seen, rest)
  end.

(** The connection that is handed on and what is known about the request. *)
Definition getHostFromHTTPConnect (passthrough : bool) (reads : list bytes) : option (list bytes * gmap string string) :=
  match readHTTPConnectRequest reads with
  | (Some (host, u, p), seen, rest) =>
      Some (if passthrough then shared seen rest else rest,
            {[ "Host" := host; "Scheme" := "tcp"; "HTTPUser" := u; "HTTPPwd" := p ]}%string)
  | (None, _, _) => None
  end.

(** The answer with [writeOk] whether it can be written. *)
Definition sendConnectResponse (passthrough writeOk : bool) : bool * list response :=
  if passthrough then (true, []) else (writeOk, if writeOk then [RespOK] else []).

Definition auth (username password : string) (info : gmap string string) : bool * list response :=
  if decide (username = reqField "HTTPUser" info ∧ password = reqField "HTTPPwd" info) then (true, []) else (false, [RespProxyUnauthorized]).

(** The outcomes of the calls on the connection. *)
Record calls := mkCalls { deadlineOk : bool; writeOk : bool; clearOk : bool }.

(** [Muxer.handle] with the functions of [NewHTTPConnectTCPMuxer]: what becomes of the
    connection, the responses to the client, and the stream the listener gets. *)
Definition handleConnect (passthrough : bool) (k : calls) (reads : list bytes) (v : Muxer) : outcome * list response * list bytes :=
  if negb (deadlineOk k) then (Closed, [], []) else
  match getHostFromHTTPConnect passthrough reads with
  | None => (Closed, [], [])
  | Some (out, info) =>
      match getListener (ToLower (reqField "Host" info)) (ToLower (reqField "Path" info)) (reqField "HTTPUser" info) v with
      | None => (FailHook, [RespNotFound], [])
      | Some l =>
          let '(sent, ws) := sendConnectResponse passthrough (writeOk k) in
          if negb sent then (Closed, ws, [])
          else
            let '(ok, ws') := if decide (ln_username l = EmptyString) then (true, []) else auth (ln_username l) (ln_password l) info in
            if negb ok then (Closed, ws ++ ws', [])
            else if negb (clearOk k) then (Closed, ws ++ ws', [])
            else if decide (ln_id l ∈ closedListeners v) then (Ignored, ws ++ ws', [])
            else (Delivered l, ws ++ ws', out)
      end
  end.

(** The functions set on the muxer. *)
Definition connectHooks (passthrough : bool) (k : calls) (reads : list bytes) : Hooks :=
  mkHooks (deadlineOk k) (snd <$> getHostFromHTTPConnect passthrough reads) (Some (λ _, (sendConnectResponse passthrough (writeOk k)).1))
    (Some (λ u p info, (auth u p info).1)) (clearOk k).
End connect.

(** *** HTTPS *)

Section https.
(** The server name of a TLS hello. *)
Context (readClientHello : bytes → parsed string).

Definition GetHTTPSHostname (reads : list bytes) : option (list bytes * gmap string string) :=
  match readFrom readClientHello [] reads with
  | (Some name, seen, rest) => Some (shared seen rest, {[ "Host" := name; "Scheme" := "https" ]}%string)
  | (None, _, _) => None
  end.

Definition handleHTTPS (k : calls) (reads : list bytes) (v : Muxer) : outcome * list response * list bytes :=
  if negb (deadlineOk k) then (Closed, [], []) else
  match GetHTTPSHostname reads with
  | None => (Closed, [], [])
  | Some (out, info) =>
      match getListener (ToLower (reqField "Host" info)) (ToLower (reqField "Path" info)) (reqField "HTTPUser" info) v with
      | None => (FailHook, [RespAlert], [])
      | Some l =>
          if negb (clearOk k) then (Closed, [], [])
          else if decide (ln_id l ∈ closedListeners v) then (Ignored, [], [])
          else (Delivered l, [], out)
      end
  end.

Definition httpsHooks (k : calls) (reads : list bytes) : Hooks :=
  mkHooks (deadlineOk k) (snd <$> GetHTTPSHostname reads) None None (clearOk k).
End https.

(** *** Lemmas *)

Lemma readFrom_parts {A} (parse : bytes → parsed A) seen reads r seen' rest : readFrom parse seen reads = (r, seen', rest) →
  seen' ++ concat rest = seen ++ concat reads ∧ (∀ a, r = Some a → ∃ used, parse seen' = Done a used).
Proof.
  revert seen. induction reads as [|c reads IH]; intros seen; simpl; destruct (parse seen) eqn:Hp; try (intros [= <- <- <-]; naive_solver).
  intros H. destruct (IH _ H) as [H1 H2]. split; [|done]. rewrite H1. by rewrite <-app_assoc.
Qed.

Lemma handleConnect_handle readRequest passthrough k reads v :
  (handleConnect readRequest passthrough k reads v).1.1 = handle (connectHooks readRequest passthrough k reads) v.
Proof.
  unfold handleConnect, handle, connectHooks; simpl. destruct (deadlineOk k); simpl; [|done].
  destruct (getHostFromHTTPConnect _ _ _) as [[out info]|]; simpl; [|done]. destruct (getListener _ _ _ _) as [l|]; simpl; [|done].
  destruct (sendConnectResponse passthrough (writeOk k)) as [[] ws]; simpl; [|done]. unfold authOk; simpl.
  case_decide; simpl.
  - destruct (clearOk k); simpl; [|done]. by case_decide.
  - destruct (auth (ln_username l) (ln_password l) info) as [[] ws']; simpl; [|done]. destruct (clearOk k); simpl; [|done]. by case_decide.
Qed.

Lemma handleHTTPS_handle readClientHello k reads v :
  (handleHTTPS readClientHello k reads v).1.1 = handle (httpsHooks readClientHello k reads) v.
Proof.
  unfold handleHTTPS, handle, httpsHooks; simpl. destruct (deadlineOk k); simpl; [|done].
  destruct (GetHTTPSHostname _ _) as [[out info]|]; simpl; [|done]. destruct (getListener _ _ _ _) as [l|]; simpl; [|done].
  unfold authOk; simpl. destruct (clearOk k); simpl; [|done]. by case_decide.
Qed.

Lemma connect_fields host u p :
  let info : gmap string string := {[ "Host" := host; "Scheme" := "tcp"; "HTTPUser" := u; "HTTPPwd" := p ]}%string in
  reqField "Host" info = host ∧ reqField "HTTPUser" info = u ∧ reqField "HTTPPwd" info = p.
Proof. unfold reqField. by simplify_map_eq. Qed.

Section tunnels.
Context (readRequest : bytes → parsed Request) (readClientHello : bytes → parsed string).
(** A parser parses no more than it was given. *)
Context (readRequest_used : ∀ seen req used, readRequest seen = Done req used → (used ≤ length seen)%nat).

(** C24: a CONNECT tunnel leads where the client asked and where it may go.  A connection
    that is handed to a listener of a reachable muxer began with a CONNECT request; the
    domain of the listener is a candidate for its host, its user the one of the request or
    none, and a listener with a user name has the credentials of the request.  With
    passthrough nothing was answered and the listener gets every byte of the client;
    without, the client got one 200, and the listener gets what follows the bytes that
    were read: exactly what follows the request if and only if no more than the request
    was read.  Data that a client sends right behind its request is lost when it was read
    together with it ([pipelined_data_lost]). *)
Theorem connect_tunnel passthrough k reads v l ws out :
  rtc mux_step NewMuxer v → handleConnect readRequest passthrough k reads v = (Delivered l, ws, out) →
  (ln_id l ∉ closedListeners v) ∧
  ∃ req used seen rest,
    readRequest seen = Done req used ∧ concat reads = seen ++ concat rest ∧ Method req = "CONNECT"%string ∧
    ToLower (ln_name l) ∈ candidates (ToLower (ReverseProxy.canonical (Host req))) ∧
    (ln_routeByHTTPUser l = (proxyAuth (ProxyAuthorization req)).1 ∨ ln_routeByHTTPUser l = EmptyString) ∧
    (ln_username l ≠ EmptyString → proxyAuth (ProxyAuthorization req) = (ln_username l, ln_password l)) ∧
    (if passthrough then ws = [] ∧ concat out = concat reads
     else ws = [RespOK] ∧ out = rest ∧ (concat out = drop used (concat reads) ↔ length seen = used)).
Proof using readRequest_used.
  clear readClientHello. intros Hr Hh. pose proof (mux_wf_steps _ _ mux_wf_new Hr) as W. pose proof (handleConnect_handle readRequest passthrough k reads v) as Hd.
  rewrite Hh in Hd. unfold handleConnect in Hh. destruct (deadlineOk k); [|done]. simpl in Hh.
  destruct (getHostFromHTTPConnect readRequest passthrough reads) as [[out0 info]|] eqn:Hg; [|done].
  destruct (handle_delivered v (connectHooks readRequest passthrough k reads) info l W) as (Hopen & Hhost & _ & Huser & Hauth);
    [simpl; by rewrite Hg|done|]. split; [done|]. specialize (Hauth _ eq_refl).
  unfold getHostFromHTTPConnect, readHTTPConnectRequest in Hg. destruct (readFrom readRequest [] reads) as [[[req|] seen] rest] eqn:Hread; [|done].
  destruct (readFrom_parts _ _ _ _ _ _ Hread) as [Hparts Hdone]. destruct (Hdone req eq_refl) as [used Hused]. simpl in Hparts.
  destruct (decide (Method req ≠ "CONNECT"%string)) as [|Hm]; [done|]. apply dec_stable in Hm. destruct (proxyAuth (ProxyAuthorization req)) as [u p] eqn:Hpa.
  injection Hg as Hout Hinfo. subst info out0. destruct (connect_fields (ReverseProxy.canonical (Host req)) u p) as (F1 & F2 & F3).
  rewrite F1 in Hhost. rewrite F2 in Huser. exists req, used, seen, rest. rewrite Hpa. do 3 (split; [done|]). do 2 (split; [done|]). split.
  - intros Hn. specialize (Hauth Hn). unfold auth in Hauth. rewrite F2, F3 in Hauth. case_decide as Hc; [|done]. by destruct Hc as [-> ->].
  - destruct (getListener _ _ _ _) as [l0|]; [|done]. destruct (sendConnectResponse passthrough (writeOk k)) as [sent ws0] eqn:Hs. destruct sent; [|done]. simpl in Hh.
    assert (l0 = l ∧ ws = ws0 ∧ out = if passthrough then shared seen rest else rest) as (-> & -> & ->).
    { destruct (decide (ln_username l0 = EmptyString)).
      - simpl in Hh. rewrite app_nil_r in Hh. destruct (clearOk k); [|done]. simpl in Hh. case_decide; [done|]. by injection Hh.
      - unfold auth in Hh. case_decide; [|done]. simpl in Hh. rewrite app_nil_r in Hh. destruct (clearOk k); [|done]. simpl in Hh.
        case_decide; [done|]. by injection Hh. }
    unfold sendConnectResponse in Hs. destruct passthrough; [by injection Hs as <-|]. destruct (writeOk k); [|done]. injection Hs as <-.
    do 2 (split; [done|]). rewrite <-Hparts. pose proof (readRequest_used _ _ _ Hused). split.
    + intros E%(f_equal length). rewrite length_drop, length_app in E. lia.
    + intros <-. by rewrite drop_app_length.
Qed.

(** an HTTPS connection is passed on untouched.  When it is handed to a listener, the
    domain of the listener is a candidate for the server name of its TLS hello, the
    listener gets every byte of the client, and the client has got none. *)
Theorem https_intact k reads v l ws out :
  rtc mux_step NewMuxer v → handleHTTPS readClientHello k reads v = (Delivered l, ws, out) →
  (ln_id l ∉ closedListeners v) ∧ ws = [] ∧ concat out = concat reads ∧
  ∃ name used seen rest, readClientHello seen = Done name used ∧ concat reads = seen ++ concat rest ∧
    ToLower (ln_name l) ∈ candidates (ToLower name).
Proof using Type.
  clear readRequest_used readRequest. intros Hr Hh. pose proof (mux_wf_steps _ _ mux_wf_new Hr) as W. pose proof (handleHTTPS_handle readClientHello k reads v) as Hd.
  rewrite Hh in Hd. unfold handleHTTPS in Hh. destruct (deadlineOk k); [|done]. simpl in Hh.
  destruct (GetHTTPSHostname readClientHello reads) as [[out0 info]|] eqn:Hg; [|done].
  destruct (handle_delivered v (httpsHooks readClientHello k reads) info l W) as (Hopen & Hhost & _);
    [simpl; by rewrite Hg|done|]. split; [done|].
  unfold GetHTTPSHostname in Hg. destruct (readFrom readClientHello [] reads) as [[[name|] seen] rest] eqn:Hread; [|done].
  destruct (readFrom_parts _ _ _ _ _ _ Hread) as [Hparts Hdone]. destruct (Hdone name eq_refl) as [used Hused]. simpl in Hparts.
  injection Hg as <- <-. destruct (getListener _ _ _ _); [|done]. destruct (clearOk k); [|done]. simpl in Hh. case_decide; [done|]. injection Hh as <- <- <-.
  do 2 (split; [done|]). exists name, used, seen, rest. by split_and!.
Qed.
End tunnels.

(** *** Concrete runs *)

(** A parser for [Request]s of one byte: [x01] is a request to [www.example.com] with
    credentials, [x02] one without. *)
Definition demoRequest (b : bytes) : parsed Request :=
  match b with
  | [] => More
  | x01 :: _ => Done (mkRequest "CONNECT" "www.example.com:80" "Basic YWRtaW46cHc=") 1
  | x02 :: _ => Done (mkRequest "CONNECT" "www.example.com:80" "") 1
  | _ => Bad
  end.
Definition demoCalls : calls := mkCalls true true true.
Definition demoListener : Listener := mkListener "*.example.com" "" "" "" "admin" "pw" 0.

Lemma demoMux_reachable : rtc mux_step NewMuxer demoMux.
Proof. apply rtc_once. constructor. Qed.

Lemma demoRequest_used seen req used : demoRequest seen = Done req used → (used ≤ length seen)%nat.
Proof. destruct seen as [|b seen]; [done|]. simpl. destruct b; try done; intros [= <- <-]; lia. Qed.

Lemma connect_tunnel_witness :
  handleConnect demoRequest false demoCalls [[x01]; [x05]] demoMux = (Delivered demoListener, [RespOK], [[x05]]) ∧
  (ln_id demoListener ∉ closedListeners demoMux).
Proof.
  assert (H : handleConnect demoRequest false demoCalls [[x01]; [x05]] demoMux = (Delivered demoListener, [RespOK], [[x05]])) by (vm_compute; reflexivity).
  split; [exact H|]. apply (connect_tunnel demoRequest demoRequest_used _ _ _ _ _ _ _ demoMux_reachable H).
Defined.

Definition demoHelloName (b : bytes) : parsed string := match b with [] => More | x16 :: _ => Done "www.example.com"%string 1 | _ => Bad end.

Lemma https_intact_witness :
  handleHTTPS demoHelloName demoCalls [[x16; x03]; [x01]] demoMux = (Delivered demoListener, [], [[x16; x03]; [x01]]) ∧
  concat [[x16; x03]; [x01]] = concat [[x16; x03]; [x01]].
Proof.
  assert (H : handleHTTPS demoHelloName demoCalls [[x16; x03]; [x01]] demoMux = (Delivered demoListener, [], [[x16; x03]; [x01]])) by (vm_compute; reflexivity).
  split; [exact H|]. by destruct (https_intact demoHelloName _ _ _ _ _ _ demoMux_reachable H) as (_ & _ & Hc & _).
Defined.

(** A client that sends data with its request loses the data. *)
Example pipelined_data_lost :
  handleConnect demoRequest false demoCalls [[x01; x05]; [x06]] demoMux = (Delivered demoListener, [RespOK], [[x06]]).
Proof. by vm_compute. Qed.

(** A client without credentials is told 200 before it is told 407. *)
Example ok_before_unauthorized :
  handleConnect demoRequest false demoCalls [[x02]; [x05]] demoMux = (Closed, [RespOK; RespProxyUnauthorized], []).
Proof. by vm_compute. Qed.
End Peek.

(** ** The proxies that listen by host name *)
Module MuxProxy.
Import Vhost MuxGroup.

Inductive kind := HTTPS | TCPMux (multiplexer httpUser httpPassword routeByHTTPUser : string).
Record Proxy := mkProxy { proxyKind : kind; domains : list string; lbGroup : string; lbKey : string; port : Z }.

#[global] Instance agreementOf (k : kind) : Agreement := match k with HTTPS => HTTPSAgreement | TCPMux _ _ _ _ => TCPMuxAgreement end.

(** A listener of the proxy: its own on the muxer, or a member of a group. *)
Inductive handle := HDirect (i : nat) | HGroup (g ln : nat).
#[global] Instance handle_eq_dec : EqDecision handle. Proof. solve_decision. Defined.

Definition routeFor (k : kind) (domain : string) : RouteConfig :=
  match k with
  | HTTPS => mkRouteConfig domain "" "" "" "" ""
  | TCPMux _ u p r => mkRouteConfig domain "" "" u p r
  end.

(** [HTTPSProxy.listenForDomain] *)
Definition httpsListen (p : Proxy) (domain : string) (ctl : Ctl) : res MuxGroup.error handle * Ctl :=
  if decide (lbGroup p = EmptyString) then
    match directListen (routeFor HTTPS domain) ctl with (Ok i, ctl) => (Ok (HDirect i), ctl) | (Err e, ctl) => (Err e, ctl) end
  else
    match Listen (H := HTTPSAgreement) (lbGroup p) (lbKey p) (routeFor HTTPS domain) ctl with
    | (Ok (g, ln), ctl) => (Ok (HGroup g ln), ctl)
    | (Err e, ctl) => (Err e, ctl)
    end.

(** [TCPMuxProxy.httpConnectListen] *)
Definition httpConnectListen (p : Proxy) (mux httpUser httpPwd routeByHTTPUser domain : string) (ctl : Ctl) : res MuxGroup.error handle * Ctl :=
  let rc := routeFor (TCPMux mux httpUser httpPwd routeByHTTPUser) domain in
  if decide (lbGroup p = EmptyString) then
    match directListen rc ctl with (Ok i, ctl) => (Ok (HDirect i), ctl) | (Err e, ctl) => (Err e, ctl) end
  else
    match TCPMuxListen (H := TCPMuxAgreement) mux (lbGroup p) (lbKey p) rc ctl with
    | (Ok (g, ln), ctl) => (Ok (HGroup g ln), ctl)
    | (Err e, ctl) => (Err e, ctl)
    end.

Definition listenForDomain (p : Proxy) (domain : string) (ctl : Ctl) : res MuxGroup.error handle * Ctl :=
  match proxyKind p with
  | HTTPS => httpsListen p domain ctl
  | TCPMux mux u q r => httpConnectListen p mux u q r domain ctl
  end.

(** [CanonicalAddr]; a host with a colon is written in brackets. *)
Definition CanonicalAddr (host : string) (port : Z) : string :=
  if decide (port = 80 ∨ port = 443) then host
  else ReverseProxy.toStr ((if bool_decide (":"%char ∈ ofStr host) then "["%char :: ofStr host ++ ["]"%char] else ofStr host) ++ ":"%char :: Itoa port).

(** The loop over the domains: listeners and addresses so far. *)
Fixpoint listenAll (p : Proxy) (ds : list string) (hs : list handle) (addrs : list string) (ctl : Ctl)
    : res MuxGroup.error (list string) * list handle * Ctl :=
  match ds with
  | [] => (Ok addrs, hs, ctl)
  | d :: ds =>
      match listenForDomain p d ctl with
      | (Err e, ctl) => (Err e, hs, ctl)
      | (Ok h, ctl) => listenAll p ds (hs ++ [h]) (addrs ++ [CanonicalAddr d (port p)]) ctl
      end
  end.

(** [BaseProxy.Close]: the listeners in the order they were opened. *)
Definition closeHandle (ctl : Ctl) (h : handle) : Ctl :=
  match h with HDirect i => directClose i ctl | HGroup g ln => closeListener g ln ctl end.
Definition Close (hs : list handle) (ctl : Ctl) : Ctl := foldl closeHandle ctl hs.

(** [HTTPSProxy.Run], and [TCPMuxProxy.httpConnectRun] with the [Close] of its caller: the
    addresses and listeners, and the state after the [Close] of a failure. *)
Definition listenOrClose (p : Proxy) (ctl : Ctl) : res MuxGroup.error (list string * list handle) * Ctl :=
  match listenAll p (domains p) [] [] ctl with
  | (Ok addrs, hs, ctl) => (Ok (addrs, hs), ctl)
  | (Err e, hs, ctl) => (Err e, Close hs ctl)
  end.

(** [TCPMuxProxy.Run] *)
Definition tcpmuxRun (p : Proxy) (mux : string) (ctl : Ctl) : res MuxGroup.error (list string * list handle) * Ctl :=
  if decide (mux = "httpconnect"%string) then listenOrClose p ctl else (Err ErrMultiplexer, ctl).

Definition Run (p : Proxy) (ctl : Ctl) : res MuxGroup.error (list string * list handle) * Ctl :=
  match proxyKind p with
  | HTTPS => listenOrClose p ctl
  | TCPMux mux _ _ _ => tcpmuxRun p mux ctl
  end.

(** One equation for both kinds. *)
Lemma listenForDomain_eq p domain ctl :
  listenForDomain p domain ctl =
  if decide (lbGroup p = EmptyString) then
    match directListen (routeFor (proxyKind p) domain) ctl with (Ok i, ctl) => (Ok (HDirect i), ctl) | (Err e, ctl) => (Err e, ctl) end
  else
    match match proxyKind p with
          | HTTPS => Listen (H := HTTPSAgreement) (lbGroup p) (lbKey p) (routeFor HTTPS domain) ctl
          | TCPMux mux u q r => TCPMuxListen (H := TCPMuxAgreement) mux (lbGroup p) (lbKey p) (routeFor (TCPMux mux u q r) domain) ctl
          end with
    | (Ok (g, ln), ctl) => (Ok (HGroup g ln), ctl)
    | (Err e, ctl) => (Err e, ctl)
    end.
Proof. unfold listenForDomain, httpsListen, httpConnectListen. by destruct (proxyKind p). Qed.

(** *** What a proxy has opened *)

Definition lnsOf (ctl : Ctl) (g : nat) : list nat := match objs ctl !! g with Some x => lns x | None => [] end.
Definition memberOf (g : nat) (hs : list handle) : list nat := omap (λ h, match h with HGroup g' ln => if decide (g' = g) then Some ln else None | _ => None end) hs.

(** Compared with [ctl0] the proxy has the listeners [hs] and nothing else. *)
Record opened (ctl0 : Ctl) (hs : list handle) (ctl : Ctl) : Prop := {
  op_wf : wf ctl;
  op_groups g : lnsOf ctl g = lnsOf ctl0 g ++ memberOf g hs;
  op_direct i : HDirect i ∉ hs → direct ctl !! i = direct ctl0 !! i;
  op_new i : HDirect i ∈ hs → direct ctl0 !! i = None }.

Lemma opened_nil ctl : wf ctl → opened ctl [] ctl.
Proof. intros W. split; try done; [intros g; by rewrite app_nil_r|set_solver]. Qed.

Lemma memberOf_app g hs hs' : memberOf g (hs ++ hs') = memberOf g hs ++ memberOf g hs'.
Proof. unfold memberOf. apply omap_app. Qed.

Lemma lnsOf_get key ctl g : wf ctl → lnsOf (getOrCreate key ctl).2 g = lnsOf ctl g.
Proof.
  intros W. unfold getOrCreate. destruct (groups ctl !! key); [done|]. unfold lnsOf. simpl.
  destruct (decide (g = nextObj ctl)) as [->|]; [|by rewrite lookup_insert_ne].
  by rewrite lookup_insert, decide_True, (wf_objs _ W) by done.
Qed.
Lemma direct_get key ctl : direct (getOrCreate key ctl).2 = direct ctl.
Proof. unfold getOrCreate. by destruct (groups ctl !! key). Qed.

Lemma lnsOf_put g x ctl v next h :
  lnsOf (putObj g x v next ctl) h = if decide (h = g) then lns x else lnsOf ctl h.
Proof. unfold lnsOf, putObj. simpl. rewrite lookup_insert. repeat case_decide; naive_solver. Qed.

Lemma listen_group `{Agreement} g grp key rc ctl r ctl' : wf ctl → groupListen g grp key rc ctl = (r, ctl') →
  wf ctl' ∧ direct ctl' = direct ctl ∧
  ∀ h, lnsOf ctl' h = lnsOf ctl h ++ match r with Ok (g', ln) => if decide (h = g') then [ln] else [] | Err _ => [] end.
Proof.
  intros W Hl. split; [pose proof (mg_listen g grp key rc ctl W) as HW; by rewrite Hl in HW|].
  assert (Hsame : ∀ h : nat, lnsOf ctl h = lnsOf ctl h ++ []) by (intros; by rewrite app_nil_r).
  unfold groupListen in Hl. destruct (objs ctl !! g) as [x|] eqn:Hg; [|by injection Hl as <- <-].
  assert (Hx : lnsOf ctl g = lns x) by (unfold lnsOf; by rewrite Hg).
  destruct (isCurrent grp g ctl); [|by injection Hl as <- <-]. simpl in Hl. destruct (lns x) as [|l0 ls] eqn:Hls.
  - destruct (Vhost.Listen rc (muxer ctl)) as [[l|e] v]; injection Hl as <- <-; (split; [done|]); intros h; rewrite lnsOf_put; case_decide; subst; rewrite ?Hx, ?app_nil_r; done.
  - rewrite <-Hls in *. repeat (case_decide || destruct (agrees _ _)); injection Hl as <- <-; try done.
    split; [done|]. intros h. rewrite lnsOf_put; simpl. case_decide; subst; by rewrite ?Hx, ?app_nil_r.
Qed.

(** A group listener of either kind. *)
Lemma listen_any p d ctl r ctl' : wf ctl → lbGroup p ≠ EmptyString → listenForDomain p d ctl = (r, ctl') →
  wf ctl' ∧ direct ctl' = direct ctl ∧
  match r with
  | Ok h => ∃ g ln, h = HGroup g ln ∧ ∀ h, lnsOf ctl' h = lnsOf ctl h ++ if decide (h = g) then [ln] else []
  | Err _ => ∀ h, lnsOf ctl' h = lnsOf ctl h
  end.
Proof.
  intros W Hg. rewrite listenForDomain_eq. rewrite decide_False by done.
  destruct (proxyKind p) as [|mux u q ru].
  - unfold Listen. pose proof (mg_get (lbGroup p) ctl W) as W1. pose proof (λ h, lnsOf_get (lbGroup p) ctl h W) as L1.
    pose proof (direct_get (lbGroup p) ctl) as D1. destruct (getOrCreate (lbGroup p) ctl) as [g ctl1]. simpl in *.
    destruct (groupListen (H := HTTPSAgreement) _ _ _ _ _) as [r1 ctl2] eqn:Hl. destruct (listen_group (H := HTTPSAgreement) _ _ _ _ _ _ _ W1 Hl) as (W2 & D2 & L2).
    destruct r1 as [[g' ln]|e]; intros [= <- <-]; (split_and!; [done|congruence|]); [exists g', ln; split; [done|]|]; intros h; by rewrite L2, L1, ?app_nil_r.
  - unfold TCPMuxListen. pose proof (mg_get (lbGroup p) ctl W) as W1. pose proof (λ h, lnsOf_get (lbGroup p) ctl h W) as L1.
    pose proof (direct_get (lbGroup p) ctl) as D1. destruct (getOrCreate (lbGroup p) ctl) as [g ctl1]. simpl in *.
    case_decide; [|by intros [= <- <-]].
    destruct (groupListen (H := TCPMuxAgreement) _ _ _ _ _) as [r1 ctl2] eqn:Hl. destruct (listen_group (H := TCPMuxAgreement) _ _ _ _ _ _ _ W1 Hl) as (W2 & D2 & L2).
    destruct r1 as [[g' ln]|e]; intros [= <- <-]; (split_and!; [done|congruence|]); [exists g', ln; split; [done|]|]; intros h; by rewrite L2, L1, ?app_nil_r.
Qed.

Lemma opened_listen p d ctl0 hs ctl r ctl' : opened ctl0 hs ctl → listenForDomain p d ctl = (r, ctl') →
  match r with Ok h => opened ctl0 (hs ++ [h]) ctl' | Err _ => opened ctl0 hs ctl' end.
Proof.
  intros [W Hg Hd Hn] Hl. destruct (decide (lbGroup p = EmptyString)) as [He|He].
  - rewrite listenForDomain_eq in Hl. rewrite decide_True in Hl by done.
    pose proof (wf_directListen (routeFor (proxyKind p) d) ctl W) as W'. unfold directListen in *.
    destruct (Vhost.Listen _ (muxer ctl)) as [[l|e] v] eqn:HL; injection Hl as <- <-; simpl in *; [|by split].
    destruct (listen_ok _ _ _ _ (wf_mux _ W) HL) as (_ & Hid & _).
    assert (Hnone : direct ctl !! ln_id l = None).
    { destruct (direct ctl !! ln_id l) as [m|] eqn:Hm; [|done]. destruct (wf_direct _ W _ _ Hm) as [E Hr]. destruct (registered_id _ _ (wf_mux _ W) Hr). lia. }
    split; [done|..].
    + intros g. rewrite memberOf_app. simpl. rewrite app_nil_r. apply Hg.
    + intros i Hi. simpl. rewrite lookup_insert_ne by set_solver. apply Hd. set_solver.
    + intros i [Hi|Hi%list_elem_of_singleton]%elem_of_app; [auto|]. injection Hi as ->.
      destruct (decide (HDirect (ln_id l) ∈ hs)); [auto|]. by rewrite <-Hd.
  - destruct (listen_any p d ctl r ctl' W He Hl) as (W' & Hdir & Hr). destruct r as [h|e].
    + destruct Hr as (g & ln & -> & Hlns). split; [done|..].
      * intros h. rewrite Hlns, Hg, memberOf_app, <-app_assoc. f_equal. f_equal. simpl. by repeat case_decide.
      * intros i Hi. rewrite Hdir. apply Hd. set_solver.
      * intros i Hi. apply Hn. set_solver.
    + split; [done|..]; intros; rewrite ?Hr, ?Hdir; auto.
Qed.

Lemma opened_close ctl0 h hs ctl : opened ctl0 (h :: hs) ctl → opened ctl0 hs (closeHandle ctl h).
Proof.
  intros [W Hg Hd Hn]. destruct h as [i|g ln]; simpl.
  - assert (Hdir : direct (directClose i ctl) = delete i (direct ctl) ∧ objs (directClose i ctl) = objs ctl).
    { unfold directClose. destruct (direct ctl !! i) eqn:Hi; [by destruct (CloseListener _ _)|]. by rewrite delete_id. }
    destruct Hdir as [Hdir Hobjs]. split; [by apply wf_directClose|..].
    + intros g. unfold lnsOf at 1. rewrite Hobjs. apply Hg.
    + intros j Hj. rewrite Hdir. destruct (decide (i = j)) as [<-|]; [rewrite lookup_delete, decide_True by done; symmetry; apply Hn; by left|].
      rewrite lookup_delete_ne by done. apply Hd. set_solver.
    + intros j Hj. apply Hn. by right.
  - assert (Hlns : lnsOf ctl g = lnsOf ctl0 g ++ ln :: memberOf g hs) by (rewrite Hg; simpl; by rewrite decide_True).
    unfold lnsOf in Hlns at 1. destruct (objs ctl !! g) as [x|] eqn:Hx; [|by destruct (lnsOf ctl0 g)].
    assert (Hnot : ln ∉ lnsOf ctl0 g).
    { pose proof (wf_nodup _ W g x Hx) as Hnd. rewrite Hlns in Hnd. apply NoDup_app in Hnd as (_ & Hnd & _). intros Hin. by apply (Hnd ln Hin); left. }
    assert (Hc : direct (closeListener g ln ctl) = direct ctl ∧ ∀ h, lnsOf (closeListener g ln ctl) h = if decide (h = g) then removeFirst ln (lns x) else lnsOf ctl h).
    { unfold closeListener. rewrite Hx. destruct (removeFirst ln (lns x)) as [|y ys] eqn:Hr; (split; [done|]); intros h; [|by rewrite lnsOf_put].
      unfold lnsOf; simpl. rewrite lookup_insert. repeat case_decide; naive_solver. }
    destruct Hc as [Hdir Hl]. split; [eapply mg_close; eauto; rewrite Hlns; set_solver|..].
    + intros h. rewrite Hl. case_decide; subst; [by rewrite Hlns, removeFirst_app|]. rewrite Hg. simpl. by rewrite decide_False by done.
    + intros j Hj. rewrite Hdir. apply Hd. set_solver.
    + intros j Hj. apply Hn. by right.
Qed.

Lemma opened_Close ctl0 hs ctl : opened ctl0 hs ctl → opened ctl0 [] (Close hs ctl).
Proof. revert ctl. induction hs as [|h hs IH]; intros ctl H; simpl; [done|]. by apply IH, opened_close. Qed.

(** A listener that serves a domain. *)
Definition serving (ctl : Ctl) (d : string) (h : handle) : Prop :=
  match h with
  | HDirect i => ∃ l, direct ctl !! i = Some l ∧ ln_name l = d
  | HGroup g ln => ∃ x, objs ctl !! g = Some x ∧ ln ∈ lns x ∧ Domain (route x) = d
  end.

(** Listening keeps what others serve. *)
Definition extends (ctl ctl' : Ctl) : Prop :=
  (∀ i l, direct ctl !! i = Some l → direct ctl' !! i = Some l) ∧
  (∀ g x, objs ctl !! g = Some x → lns x ≠ [] → ∃ x', objs ctl' !! g = Some x' ∧ route x' = route x ∧ ∀ ln, ln ∈ lns x → ln ∈ lns x').

Lemma serving_extends ctl ctl' d h : extends ctl ctl' → serving ctl d h → serving ctl' d h.
Proof.
  intros [Hd Hg]. destruct h as [i|g ln]; simpl; [naive_solver|]. intros (x & Hx & Hin & Hdom).
  destruct (Hg g x Hx) as (x' & Hx' & Hr & Hl); [intros E; rewrite E in Hin; set_solver|]. exists x'. rewrite Hr. auto.
Qed.

Lemma extends_get key ctl : wf ctl → extends ctl (getOrCreate key ctl).2.
Proof.
  intros W. unfold getOrCreate. destruct (groups ctl !! key); simpl; split; try done; simpl; [naive_solver|].
  intros g x Hx Hn. exists x. split_and!; try done. rewrite lookup_insert_ne; [done|]. intros <-. by rewrite (wf_objs _ W) in Hx.
Qed.

Lemma extends_trans ctl1 ctl2 ctl3 : extends ctl1 ctl2 → extends ctl2 ctl3 → extends ctl1 ctl3.
Proof.
  intros [A1 A2] [B1 B2]. split; [auto|]. intros g x Hx Hn. destruct (A2 g x Hx Hn) as (y & Hy & Ry & Ly).
  destruct (B2 g y Hy) as (z & Hz & Rz & Lz); [intros E; destruct (lns x) as [|a]; [done|]; specialize (Ly a); rewrite E in Ly; set_solver|].
  exists z. split_and!; [done|congruence|auto].
Qed.

Section listen.
Context `{Agreement} (agrees_domain : ∀ a b, agrees a b = true → Domain a = Domain b).

Lemma serving_group g grp key rc ctl r ctl' : groupListen g grp key rc ctl = (r, ctl') →
  extends ctl ctl' ∧ ∀ g' ln, r = Ok (g', ln) → serving ctl' (Domain rc) (HGroup g' ln).
Proof using agrees_domain.
  unfold groupListen. assert (Hsame : extends ctl ctl) by (split; naive_solver).
  destruct (objs ctl !! g) as [x|] eqn:Hx; [|by intros [= <- <-]]. destruct (isCurrent grp g ctl); [|by intros [= <- <-]]. simpl.
  assert (Hput : ∀ x' v next, route x' = route x ∨ lns x = [] → (∀ ln, ln ∈ lns x → ln ∈ lns x') → extends ctl (putObj g x' v next ctl)).
  { intros x' v next Hr Hl. split; [done|]. intros h y Hy Hn. simpl. destruct (decide (g = h)) as [<-|]; [|rewrite lookup_insert_ne by done; eauto].
    rewrite lookup_insert, decide_True by done. exists x'. simplify_eq. naive_solver. }
  destruct (lns x) as [|l0 ls] eqn:Hls.
  - destruct (Vhost.Listen rc (muxer ctl)) as [[l|e] v]; intros [= <- <-].
    + split; [apply Hput; [by right|set_solver]|]. intros g' ln [= <- <-]. simpl. eexists. rewrite lookup_insert, decide_True by done. split; [done|]. simpl. set_solver.
    + split; [apply Hput; [by left|by rewrite Hls]|done].
  - rewrite <-Hls in *. repeat case_decide; destruct (agrees (route x) rc) eqn:Ha; simpl; intros [= <- <-]; try done.
    split; [apply Hput; simpl; [by left|set_solver]|]. intros g' ln [= <- <-]. simpl. eexists. rewrite lookup_insert, decide_True by done.
    split; [done|]. simpl. split; [set_solver|auto].
Qed.
End listen.

Lemma agrees_HTTPS a b : @agrees HTTPSAgreement a b = true → Domain a = Domain b.
Proof. simpl. by rewrite bool_decide_eq_true. Qed.
Lemma agrees_TCPMux a b : @agrees TCPMuxAgreement a b = true → Domain a = Domain b.
Proof. simpl. rewrite !andb_true_iff, !bool_decide_eq_true. tauto. Qed.
Lemma routeFor_domain k d : Domain (routeFor k d) = d.
Proof. by destruct k. Qed.

Lemma serving_listen p d ctl r ctl' : wf ctl → listenForDomain p d ctl = (r, ctl') →
  extends ctl ctl' ∧ ∀ h, r = Ok h → serving ctl' d h.
Proof.
  intros W. rewrite listenForDomain_eq. case_decide.
  - unfold directListen. destruct (Vhost.Listen _ (muxer ctl)) as [[l|e] v] eqn:HL; intros [= <- <-]; (split; [split; simpl; [|naive_solver]|]); try done.
    + destruct (listen_ok _ _ _ _ (wf_mux _ W) HL) as (_ & Hid & _). intros i m Hi. rewrite lookup_insert_ne; [done|].
      intros <-. destruct (wf_direct _ W _ _ Hi) as [_ Hr]. destruct (wf_direct _ W _ _ Hi) as [E _]. destruct (registered_id _ _ (wf_mux _ W) Hr). lia.
    + intros h [= <-]. simpl. exists l. rewrite lookup_insert, decide_True by done. split; [done|].
      destruct (listen_ok _ _ _ _ (wf_mux _ W) HL) as (_ & _ & _ & E). injection E as -> _. apply routeFor_domain.
  - pose proof (extends_get (lbGroup p) ctl W) as He. destruct (proxyKind p) as [|mux u q ru].
    + unfold Listen. destruct (getOrCreate (lbGroup p) ctl) as [g ctl1]. simpl in He.
      destruct (groupListen (H := HTTPSAgreement) _ _ _ _ _) as [r1 ctl2] eqn:Hl. destruct (serving_group agrees_HTTPS _ _ _ _ _ _ _ Hl) as [H1 H2].
      destruct r1 as [[g' ln]|e]; intros [= <- <-]; (split; [by eapply extends_trans|]); [|done]. intros h [= <-]. by apply H2.
    + unfold TCPMuxListen. destruct (getOrCreate (lbGroup p) ctl) as [g ctl1]. simpl in He. case_decide; [|by intros [= <- <-]].
      destruct (groupListen (H := TCPMuxAgreement) _ _ _ _ _) as [r1 ctl2] eqn:Hl. destruct (serving_group agrees_TCPMux _ _ _ _ _ _ _ Hl) as [H1 H2].
      destruct r1 as [[g' ln]|e]; intros [= <- <-]; (split; [by eapply extends_trans|]); [|done]. intros h [= <-]. by apply H2.
Qed.

Lemma listenAll_opened p ctl0 ds done_ : ∀ hs addrs ctl r hs' ctl',
  opened ctl0 hs ctl → Forall2 (serving ctl) done_ hs → listenAll p ds hs addrs ctl = (r, hs', ctl') →
  opened ctl0 hs' ctl' ∧
  ∀ l, r = Ok l → Forall2 (serving ctl') (done_ ++ ds) hs' ∧ l = addrs ++ ((λ d, CanonicalAddr d (port p)) <$> ds).
Proof.
  revert done_. induction ds as [|d ds IH]; intros done_ hs addrs ctl r hs' ctl' Ho Hs; simpl.
  - intros [= <- <- <-]. split; [done|]. intros l [= <-]. by rewrite !app_nil_r.
  - destruct (listenForDomain p d ctl) as [[h|e] ctl1] eqn:Hl.
    + destruct (serving_listen _ _ _ _ _ (op_wf _ _ _ Ho) Hl) as [He Hh]. intros Hr.
      assert (Hs' : Forall2 (serving ctl1) (done_ ++ [d]) (hs ++ [h])).
      { apply Forall2_app; [|by constructor; [apply Hh|]]. eapply Forall2_impl; [exact Hs|]. intros x y. by apply serving_extends. }
      destruct (IH (done_ ++ [d]) _ _ _ _ _ _ (opened_listen _ _ _ _ _ _ _ Ho Hl) Hs' Hr) as [H1 H2].
      split; [done|]. intros l E. destruct (H2 l E) as [H3 ->]. by rewrite <-!app_assoc in *.
    + intros [= <- <- <-]. split; [by apply (opened_listen _ _ _ _ _ _ _ Ho Hl)|done].
Qed.

(** a proxy by host name is registered for all its domains or for none.  From every
    reachable state, when [Run] succeeds the proxy has one listener per domain, in order,
    that the muxer or a group has for it, and its addresses are those of the domains; when
    it fails, the listeners of the muxer and the members of all groups are those there were
    before.  [Close] of a running proxy also gives those back.  Nothing is closed twice. *)
Theorem mux_proxy_run p ctl r ctl' :
  rtc (step (H := agreementOf (proxyKind p))) NewCtl ctl → Run p ctl = (r, ctl') →
  wf ctl' ∧
  match r with
  | Ok (addrs, hs) =>
      Forall2 (serving ctl') (domains p) hs ∧ addrs = (λ d, CanonicalAddr d (port p)) <$> domains p ∧
      (∀ i, direct (Close hs ctl') !! i = direct ctl !! i) ∧ (∀ g, lnsOf (Close hs ctl') g = lnsOf ctl g) ∧ panicked (Close hs ctl') = false
  | Err _ => (∀ i, direct ctl' !! i = direct ctl !! i) ∧ (∀ g, lnsOf ctl' g = lnsOf ctl g)
  end.
Proof.
  intros Hr. pose proof (muxgroup_wf_steps _ _ muxgroup_wf_new Hr) as W. assert (Hback : ∀ ctl1, opened ctl [] ctl1 → (∀ i, direct ctl1 !! i = direct ctl !! i) ∧ (∀ g, lnsOf ctl1 g = lnsOf ctl g)).
  { intros ctl1 [_ Hg Hd _]. split; [intros i; apply Hd; set_solver|]. intros g. rewrite Hg. simpl. by rewrite app_nil_r. }
  assert (Hrun : match listenAll p (domains p) [] [] ctl with (Ok addrs, hs, ctl) => (Ok (addrs, hs), ctl) | (Err e, hs, ctl) => (Err e, Close hs ctl) end = (r, ctl') →
    wf ctl' ∧ match r with
      | Ok (addrs, hs) => Forall2 (serving ctl') (domains p) hs ∧ addrs = (λ d, CanonicalAddr d (port p)) <$> domains p ∧
          (∀ i, direct (Close hs ctl') !! i = direct ctl !! i) ∧ (∀ g, lnsOf (Close hs ctl') g = lnsOf ctl g) ∧ panicked (Close hs ctl') = false
      | Err _ => (∀ i, direct ctl' !! i = direct ctl !! i) ∧ (∀ g, lnsOf ctl' g = lnsOf ctl g)
      end).
  { destruct (listenAll p (domains p) [] [] ctl) as [[r1 hs] ctl1] eqn:Hl.
    destruct (listenAll_opened p ctl (domains p) [] [] [] ctl r1 hs ctl1 (opened_nil _ W) ltac:(constructor) Hl) as [Ho Hok].
    pose proof (opened_Close _ _ _ Ho) as Hc. destruct r1 as [addrs|e]; intros [= <- <-].
    - split; [apply Ho|]. destruct (Hok addrs eq_refl) as [Hs Ha]. destruct (Hback _ Hc). split_and!; try done. apply (wf_calm _ (op_wf _ _ _ Hc)).
    - split; [apply Hc|]. by apply Hback. }
  unfold Run, tcpmuxRun. destruct (proxyKind p) as [|mux u q ru]; [done|]. case_decide; [done|]. intros [= <- <-]. split; [done|]. done.
Qed.

(** Two domains and a group do not go together: the second domain does not fit the group. *)
Lemma grouped_domains_refused d1 d2 ds key port ctl grp : wf ctl → grp ≠ EmptyString → d1 ≠ d2 →
  ∃ e, (Run (mkProxy HTTPS (d1 :: d2 :: ds) grp key port) ctl).1 = Err e.
Proof.
  intros W Hg Hne. unfold Run, listenOrClose. cbn [proxyKind domains]. cbn [listenAll].
  destruct (listenForDomain _ d1 ctl) as [[h|e] ctl1] eqn:H1; [|by eexists].
  destruct (serving_listen _ _ _ _ _ W H1) as [_ Hs]. specialize (Hs h eq_refl).
  assert (Hh : ∃ g ln, h = HGroup g ln ∧ groups ctl1 !! grp = Some g).
  { rewrite listenForDomain_eq in H1. cbn in H1. rewrite decide_False in H1 by done. unfold Listen in H1.
    destruct (getOrCreate grp ctl) as [g ctl0] eqn:Hget. assert (groups ctl0 !! grp = Some g) as Hcur.
    { unfold getOrCreate in Hget. destruct (groups ctl !! grp) eqn:E; injection Hget as <- <-; [done|]. simpl. by rewrite lookup_insert, decide_True. }
    unfold groupListen in H1. repeat case_match; simplify_eq; by eexists _, _. }
  destruct Hh as (g & ln & -> & Hcur). destruct Hs as (x & Hx & Hin & Hd).
  rewrite listenForDomain_eq. cbn. rewrite decide_False by done. unfold Listen, getOrCreate. rewrite Hcur. unfold groupListen. rewrite Hx.
  unfold isCurrent. rewrite bool_decide_eq_true_2 by done. simpl. destruct (lns x) as [|l0 ls]; [set_solver|]. case_decide; [by eexists|].
  simpl. rewrite Hd, bool_decide_eq_false_2 by done. by eexists.
Qed.

(** *** Concrete runs *)

Definition demoDirect : Proxy := mkProxy HTTPS ["x.com"; "y.com"]%string "" "" 8443.
Definition demoGroup : Proxy := mkProxy (TCPMux "httpconnect" "u" "p" "") ["a.com"; "b.com"]%string "web" "k" 443.

Lemma mux_proxy_run_witness :
  (Run demoDirect NewCtl).1 = Ok (["x.com:8443"; "y.com:8443"]%string, [HDirect 0; HDirect 1]) ∧ wf (Run demoDirect NewCtl).2 ∧
  (Run demoGroup NewCtl).1 = Err ErrGroupParamsInvalid ∧ lnsOf (Run demoGroup NewCtl).2 0 = lnsOf NewCtl 0.
Proof.
  split; [by vm_compute|]. split.
  - destruct (mux_proxy_run demoDirect NewCtl (Run demoDirect NewCtl).1 (Run demoDirect NewCtl).2) as [H _]; [constructor|by destruct (Run demoDirect NewCtl)|exact H].
  - split; [by vm_compute|].
    destruct (mux_proxy_run demoGroup NewCtl (Err ErrGroupParamsInvalid) (Run demoGroup NewCtl).2) as [_ [_ H]]; [constructor|by vm_compute|apply H].
Defined.
End MuxProxy.
