(* ===== verification/ConnWrap.v ===== *)
(** * Connection wrappers: [pkg/util/net/conn.go], and the control channel of [server/service.go], [client/control_session.go]

    [Channel] encrypts the control connection after the login: with wire protocol v2
    both ends derive a key for each direction from the token, the negotiated cipher and
    the transcript of the hellos.  [Closing] is the connection that tells its owner once
    that it was closed, [Stats] the one that counts its bytes.  HKDF and the streams of
    the cipher are parameters. *)
From S2P Require Import Prelude Chars Bytes Wire Bootstrap.

(** ** The encrypted control channel *)
Module Channel.

Inductive AEADCryptoRole := AEADCryptoRoleClient | AEADCryptoRoleServer.

Definition aeadControlHKDFInfoPrefix : string := "frp wire v2 control aead".
Definition aeadDirectionClientToServer : string := "client-to-server".
Definition aeadDirectionServerToClient : string := "server-to-client".
Definition AEADKeySize : nat := 32.

Inductive error := ErrHKDF | ErrStream | ErrMissing | ErrV1.

(** What HKDF is given: secret, salt, info and length. *)
Record hkdfInput := mkInput { secret : bytes; salt : bytes; info : string; size : nat }.

Definition keyInput (key : bytes) (algorithm : string) (transcriptHash : bytes) (direction : string) : hkdfInput :=
  mkInput key transcriptHash (aeadControlHKDFInfoPrefix +:+ " " +:+ algorithm +:+ " " +:+ direction) AEADKeySize.

(** The two ends of an encrypted connection: reader and writer. *)
Inductive ReadWriter := AEAD (algorithm : string) (readKey writeKey : bytes) | Stream (key : bytes).

Section channel.
(** [hkdf.Key]; whether a stream of the cipher can be made; whether the v1 writer can be. *)
Context (hkdf : hkdfInput → option bytes) (streamOk : string → bytes → bool) (v1Ok : bytes → bool).

Definition deriveAEADControlKey (key : bytes) (algorithm : string) (transcriptHash : bytes) (direction : string) : res error bytes :=
  match hkdf (keyInput key algorithm transcriptHash direction) with Some k => Ok k | None => Err ErrHKDF end.

(** The keys from client to server and from server to client. *)
Definition deriveAEADControlKeys (key : bytes) (algorithm : string) (transcriptHash : bytes) : res error (bytes * bytes) :=
  let? c2s := deriveAEADControlKey key algorithm transcriptHash aeadDirectionClientToServer in
  let? s2c := deriveAEADControlKey key algorithm transcriptHash aeadDirectionServerToClient in
  Ok (c2s, s2c).

Definition NewAEADCryptoReadWriter (key : bytes) (role : AEADCryptoRole) (algorithm : string) (transcriptHash : bytes) : res error ReadWriter :=
  let? (c2s, s2c) := deriveAEADControlKeys key algorithm transcriptHash in
  let '(readKey, writeKey) := match role with AEADCryptoRoleClient => (s2c, c2s) | AEADCryptoRoleServer => (c2s, s2c) end in
  if negb (streamOk algorithm readKey) then Err ErrStream
  else if negb (streamOk algorithm writeKey) then Err ErrStream
  else Ok (AEAD algorithm readKey writeKey).

Definition NewCryptoReadWriter (key : bytes) : res error ReadWriter := if v1Ok key then Ok (Stream key) else Err ErrV1.

(** [newControlReadWriter] of server and client, which differ in the role. *)
Definition newControlReadWriter (role : AEADCryptoRole) (wireProtocol : string) (crypto : option Bootstrap.CryptoContext) (key : bytes) : res error ReadWriter :=
  if decide (wireProtocol = Wire.ProtocolV2) then
    match crypto with
    | None => Err ErrMissing
    | Some cc => NewAEADCryptoReadWriter key role (Bootstrap.cAlgorithm cc) (Bootstrap.TranscriptHash cc)
    end
  else NewCryptoReadWriter key.

(** *** The streams of the library *)

(** Encrypting the writes of one end and decrypting them at the other. *)
Context (seal : string → bytes → list bytes → bytes) (open : string → bytes → bytes → option (list bytes)).
Context (sealV1 : bytes → list bytes → bytes) (openV1 : bytes → bytes → option (list bytes)).

Definition write (rw : ReadWriter) (ps : list bytes) : bytes :=
  match rw with AEAD alg _ k => seal alg k ps | Stream k => sealV1 k ps end.
Definition read (rw : ReadWriter) (b : bytes) : option (list bytes) :=
  match rw with AEAD alg k _ => open alg k b | Stream k => openV1 k b end.

(** A stream is read with the key it was written with. *)
Context (open_seal : ∀ alg k ps, streamOk alg k = true → open alg k (seal alg k ps) = Some ps).
Context (openV1_seal : ∀ k ps, v1Ok k = true → openV1 k (sealV1 k ps) = Some ps).

(** the two ends of the control channel fit.  With the same token and the context both
    have after the login, the client can make its end exactly when the server can, each
    reads what the other writes, and both encrypt: a v2 connection without a negotiated
    cipher is refused, never left in the clear. *)
Theorem control_channel wireProtocol crypto key :
  (∀ e, newControlReadWriter AEADCryptoRoleClient wireProtocol crypto key = Err e →
        ∃ e', newControlReadWriter AEADCryptoRoleServer wireProtocol crypto key = Err e') ∧
  (wireProtocol = Wire.ProtocolV2 → crypto = None → newControlReadWriter AEADCryptoRoleServer wireProtocol crypto key = Err ErrMissing) ∧
  ∀ c, newControlReadWriter AEADCryptoRoleClient wireProtocol crypto key = Ok c →
  ∃ s, newControlReadWriter AEADCryptoRoleServer wireProtocol crypto key = Ok s ∧
    ∀ ps, read s (write c ps) = Some ps ∧ read c (write s ps) = Some ps.
Proof using open_seal openV1_seal.
  unfold newControlReadWriter, NewCryptoReadWriter. case_decide as Hw.
  - destruct crypto as [cc|]; [|naive_solver]. unfold NewAEADCryptoReadWriter.
    destruct (deriveAEADControlKeys _ _ _) as [[c2s s2c]|e]; [|naive_solver]. simpl.
    destruct (streamOk (Bootstrap.cAlgorithm cc) s2c) eqn:H1, (streamOk (Bootstrap.cAlgorithm cc) c2s) eqn:H2; simpl; naive_solver.
  - destruct (v1Ok key) eqn:Hk; naive_solver.
Qed.
End channel.

(** *** What the keys are bound to *)

Lemma info_inj alg alg' dir dir' : length (ofStr dir) = length (ofStr dir') →
  aeadControlHKDFInfoPrefix +:+ " " +:+ alg +:+ " " +:+ dir = aeadControlHKDFInfoPrefix +:+ " " +:+ alg' +:+ " " +:+ dir' → alg = alg' ∧ dir = dir'.
Proof.
  intros Hl H. apply (f_equal ofStr) in H. rewrite !ofStr_app in H. do 2 apply app_inv_head in H.
  apply app_inj_2 in H as [H1 H]; [|by rewrite !length_app, Hl]. apply app_inv_head in H. split; by apply ofStr_inj.
Qed.

Definition directions : list string := [aeadDirectionClientToServer; aeadDirectionServerToClient].

(** the keys of the control channel are bound to what was negotiated.  Two keys, of
    either end and either direction, are derived from the same input of HKDF only if the
    direction, the token and the cipher are the same and the two ends saw the same hellos,
    or just their two transcripts collide under SHA-256: a hello changed on the way, or a stream sent back to its sender,
    meets another key. *)
Theorem control_keys_bound sha256 key key' alg alg' c s c' s' dir dir' :
  Z.of_nat (length c) < 2 ^ 64 → Z.of_nat (length c') < 2 ^ 64 → dir ∈ directions → dir' ∈ directions →
  keyInput key alg (Bootstrap.TranscriptHash (Bootstrap.NewCryptoContext sha256 alg c s)) dir =
  keyInput key' alg' (Bootstrap.TranscriptHash (Bootstrap.NewCryptoContext sha256 alg' c' s')) dir' →
  dir = dir' ∧ key = key' ∧ alg = alg' ∧ ((c = c' ∧ s = s') ∨
    Wire.cryptoTranscript c s ≠ Wire.cryptoTranscript c' s' ∧ sha256 (Wire.cryptoTranscript c s) = sha256 (Wire.cryptoTranscript c' s')).
Proof.
  intros Hc Hc' Hd Hd' H. pose proof (f_equal secret H) as Hkey. pose proof (f_equal salt H) as Hhash. pose proof (f_equal info H) as Hinfo.
  simpl in Hkey, Hhash. apply info_inj in Hinfo as [-> ->].
  - do 3 (split; [done|]). unfold Wire.HashCryptoTranscript in Hhash.
    destruct (decide (Wire.cryptoTranscript c s = Wire.cryptoTranscript c' s')) as [E|E]; [left; by apply Wire.cryptoTranscript_inj|right; eauto].
  - unfold directions in *. rewrite !elem_of_cons, elem_of_nil in *. by destruct Hd as [->|[->|[]]], Hd' as [->|[->|[]]].
Qed.

(** *** Concrete runs *)

Definition demoCtx : Bootstrap.CryptoContext := Bootstrap.mkCrypto "aes" [x01].
(** A cipher that writes its key, and then marks bytes and ends of writes. *)
Definition demoMark (p : bytes) : bytes := (p ≫= λ b, [x01; b]) ++ [x00].
Fixpoint demoUnmark (b cur : bytes) : option (list bytes) :=
  match b with
  | [] => Some []
  | x00 :: r => (λ ps, cur :: ps) <$> demoUnmark r []
  | _ :: r => match r with x :: r' => demoUnmark r' (cur ++ [x]) | [] => None end
  end.
Definition demoSeal (alg : string) (k : bytes) (ps : list bytes) : bytes := k ++ (ps ≫= demoMark).
Definition demoOpen (alg : string) (k b : bytes) : option (list bytes) := if decide (take (length k) b = k) then demoUnmark (drop (length k) b) [] else None.

Lemma demoUnmark_mark p rest cur : demoUnmark (demoMark p ++ rest) cur = (λ ps, (cur ++ p) :: ps) <$> demoUnmark rest [].
Proof.
  revert cur. unfold demoMark. induction p as [|b p IH]; intros cur; simpl; [by rewrite app_nil_r|].
  rewrite IH. by rewrite <-app_assoc.
Qed.
Lemma demoOpen_seal alg k ps : demoOpen alg k (demoSeal alg k ps) = Some ps.
Proof.
  unfold demoOpen, demoSeal. rewrite take_app_length, decide_True, drop_app_length by done.
  induction ps as [|p ps IH]; [done|]. rewrite bind_cons, demoUnmark_mark, IH. done.
Qed.

Definition demoHkdf (i : hkdfInput) : option bytes := Some (secret i ++ salt i ++ [if decide (info i = EmptyString) then x00 else x01]).

Lemma control_channel_witness :
  newControlReadWriter demoHkdf (λ _ _, true) (λ _, true) AEADCryptoRoleClient Wire.ProtocolV2 (Some demoCtx) [x05] = Ok (AEAD "aes" [x05; x01; x01] [x05; x01; x01]) ∧
  ∃ s, newControlReadWriter demoHkdf (λ _ _, true) (λ _, true) AEADCryptoRoleServer Wire.ProtocolV2 (Some demoCtx) [x05] = Ok s ∧
    ∀ ps, read demoOpen (demoOpen EmptyString) s (write demoSeal (demoSeal EmptyString) (AEAD "aes" [x05; x01; x01] [x05; x01; x01]) ps) = Some ps.
Proof.
  split; [by vm_compute|].
  destruct (control_channel demoHkdf (λ _ _, true) (λ _, true) demoSeal demoOpen (demoSeal EmptyString) (demoOpen EmptyString)) with (wireProtocol := Wire.ProtocolV2) (crypto := Some demoCtx) (key := [x05])
    as (_ & _ & H); [intros; apply demoOpen_seal|intros; apply demoOpen_seal|].
  destruct (H (AEAD "aes" [x05; x01; x01] [x05; x01; x01])) as (s & Hs & Hp); [by vm_compute|]. exists s. split; [exact Hs|]. intros ps. apply Hp.
Defined.

Lemma control_keys_bound_witness : aeadDirectionClientToServer = aeadDirectionClientToServer ∧ [x05] = [x05] ∧
  Wire.AEADAlgorithmAES256GCM = Wire.AEADAlgorithmAES256GCM ∧ (([x01] = [x01] ∧ [x02] = [x02]) ∨
    Wire.cryptoTranscript [x01] [x02] ≠ Wire.cryptoTranscript [x01] [x02] ∧ id (Wire.cryptoTranscript [x01] [x02]) = id (Wire.cryptoTranscript [x01] [x02])).
Proof. apply (control_keys_bound id [x05] [x05] _ _ [x01] [x02] [x01] [x02]); try reflexivity; left. Defined.
End Channel.

(** ** The connection that tells that it was closed: [CloseNotifyConn] *)
Module Closing.

(** Where a call of [Close] or [CloseWithError] is: before the swap of the flag, before
    closing the connection, before the callback, returned. *)
Inductive pc := PSwap | PClose | PNotify | PDone.

Section closing.
Context {E : Type}.

Inductive event := ECloseConn | ENotify (err : option E).

(** The calls, with [None] for [Close] and the error of [CloseWithError]; [log] is what
    happened to the connection, in order. *)
Record CloseNotifyConn := mkConn { closeFlag : bool; calls : list (option E * pc); log : list event }.
Definition WrapCloseNotifyConn : CloseNotifyConn := mkConn false [] [].

(** One step of the call [i]; goroutines may stop between any two. *)
Definition advance (i : nat) (c : CloseNotifyConn) : CloseNotifyConn :=
  match calls c !! i with
  | Some (err, PSwap) => mkConn true (<[ i := (err, if closeFlag c then PDone else PClose) ]> (calls c)) (log c)
  | Some (err, PClose) => mkConn (closeFlag c) (<[ i := (err, PNotify) ]> (calls c)) (log c ++ [ECloseConn])
  | Some (err, PNotify) => mkConn (closeFlag c) (<[ i := (err, PDone) ]> (calls c)) (log c ++ [ENotify err])
  | _ => c
  end.

Inductive step (c : CloseNotifyConn) : CloseNotifyConn → Prop :=
| step_call err : step c (mkConn (closeFlag c) (calls c ++ [(err, PSwap)]) (log c))
| step_advance i : step c (advance i c).

(** What the call that won the swap has done. *)
Definition doneSoFar (err : option E) (p : pc) : list event :=
  match p with PNotify => [ECloseConn] | PDone => [ECloseConn; ENotify err] | _ => [] end.

Definition owned (c : CloseNotifyConn) : Prop :=
  if closeFlag c then
    ∃ i err p, calls c !! i = Some (err, p) ∧ p ≠ PSwap ∧ log c = doneSoFar err p ∧
      ∀ j err' q, j ≠ i → calls c !! j = Some (err', q) → q = PSwap ∨ q = PDone
  else log c = [] ∧ ∀ j err' q, calls c !! j = Some (err', q) → q = PSwap.

Lemma owned_advance i c : owned c → owned (advance i c).
Proof.
  unfold owned, advance. intros H. destruct (calls c !! i) as [[err p]|] eqn:Hi; [|done].
  assert (Hlt : (i < length (calls c))%nat) by by eapply lookup_lt_Some.
  destruct (closeFlag c) eqn:Hf.
  - destruct H as (w & e & q & Hw & Hq & Hlog & Hothers). destruct (decide (i = w)) as [->|Hne].
    + simplify_eq. destruct q; [done|..]; simpl; rewrite ?Hf; [| |by exists w, e, PDone].
      * exists w, e, PNotify. split_and!; [by rewrite list_lookup_insert by lia; rewrite decide_True by auto|done|by rewrite Hlog|].
        intros j e' q' Hj. rewrite list_lookup_insert_ne by done. by apply Hothers.
      * exists w, e, PDone. split_and!; [by rewrite list_lookup_insert by lia; rewrite decide_True by auto|done|by rewrite Hlog|].
        intros j e' q' Hj. rewrite list_lookup_insert_ne by done. by apply Hothers.
    + destruct (Hothers i err p Hne Hi) as [->| ->]; simpl; rewrite ?Hf; exists w, e, q; [|by split_and!].
      split_and!; try done; [by rewrite list_lookup_insert_ne|]. intros j e' q' Hj. rewrite list_lookup_insert_Some. naive_solver.
  - destruct H as [Hlog Hall]. rewrite (Hall _ _ _ Hi). simpl. exists i, err, PClose. split_and!; try done.
    + rewrite list_lookup_insert by lia. by rewrite decide_True.
    + intros j e' q' Hj. rewrite list_lookup_insert_ne by done. left. by eapply Hall.
Qed.

Lemma owned_call err c : owned c → owned (mkConn (closeFlag c) (calls c ++ [(err, PSwap)]) (log c)).
Proof.
  unfold owned; simpl. destruct (closeFlag c).
  - intros (w & e & q & Hw & Hq & Hlog & Hothers). exists w, e, q. split_and!; try done; [by apply lookup_app_l_Some|].
    intros j e' q' Hj [Hl|[_ Hl]]%lookup_app_Some; [by eapply Hothers|]. apply list_lookup_singleton_Some in Hl as [_ [= _ <-]]. by left.
  - intros [Hlog Hall]. split; [done|]. intros j e' q' [Hl|[_ Hl]]%lookup_app_Some; [by eapply Hall|]. by apply list_lookup_singleton_Some in Hl as [_ [= _ <-]].
Qed.

Lemma owned_steps c c' : owned c → rtc step c c' → owned c'.
Proof. intros H Hs. induction Hs as [|? ? ? []]; eauto using owned_call, owned_advance. Qed.

(** the owner of a connection is told exactly once that it was closed.  However many
    goroutines close it and however they interleave, the connection is closed at most once
    and the callback runs at most once and after that; when all calls have returned, and
    there was one, both have happened, and the callback got the error of one of the
    calls. *)
Theorem close_notified_once c :
  rtc step WrapCloseNotifyConn c →
  (log c = [] ∨ log c = [ECloseConn] ∨ ∃ err p, log c = [ECloseConn; ENotify err] ∧ (err, p) ∈ calls c) ∧
  (calls c ≠ [] → (∀ x, x ∈ calls c → x.2 = PDone) → ∃ err, log c = [ECloseConn; ENotify err] ∧ (err, PDone) ∈ calls c).
Proof.
  intros Hs. assert (Ho : owned c) by (by eapply owned_steps; [|exact Hs]; split).
  unfold owned in Ho. destruct (closeFlag c).
  - destruct Ho as (w & e & q & Hw & Hq & Hlog & _). apply list_elem_of_lookup_2 in Hw. split.
    + destruct q; simpl in Hlog; eauto 10.
    + intros _ Hall. specialize (Hall _ Hw). simpl in Hall. subst. eauto.
  - destruct Ho as [Hlog Hall]. split; [by left|]. intros Hn Hd. destruct (calls c) as [|[e q] l]; [done|].
    pose proof (Hall 0%nat e q eq_refl) as ->. by specialize (Hd (e, PSwap) (list_elem_of_here _ _)).
Qed.
End closing.

(** Two goroutines, one with an error: the other wins the swap and is slower. *)
Definition demoCalls : CloseNotifyConn (E := string) := mkConn false [(Some "reset"%string, PSwap); (None, PSwap)] [].
Definition demoClosed : CloseNotifyConn (E := string) := advance 1 (advance 1 (advance 0 (advance 1 demoCalls))).

Lemma close_notified_once_witness : calls demoClosed = [(Some "reset"%string, PDone); (None, PDone)] ∧ ∃ err, log demoClosed = [ECloseConn; ENotify err] ∧ (err, PDone) ∈ calls demoClosed.
Proof.
  split; [reflexivity|]. apply (close_notified_once demoClosed); [|done|].
  - unfold demoClosed. do 4 (eapply rtc_r; [|apply step_advance]).
    eapply rtc_l; [apply (step_call _ (Some "reset"%string))|]. apply rtc_once. exact (step_call (mkConn false [(Some "reset"%string, PSwap)] []) None).
  - apply list.Forall_forall. repeat constructor.
Defined.
End Closing.

(** ** The connection that counts: [StatsConn] *)
Module Stats.

Definition int64 (n : Z) : Z := (n + 2 ^ 63) mod 2 ^ 64 - 2 ^ 63.

Record StatsConn := mkStats { closed : bool; totalRead : Z; totalWrite : Z; closes : nat; reports : list (Z * Z) }.
Definition WrapStatsConn : StatsConn := mkStats false 0 0 0 [].

(** The calls of the users, with what the wrapped connection returned: the bytes read or
    written, also of a call that failed. *)
Inductive op := Read (n : Z) | Write (n : Z) | Close.

Definition apply_ (c : StatsConn) (o : op) : StatsConn :=
  match o with
  | Read n => mkStats (closed c) (int64 (totalRead c + n)) (totalWrite c) (closes c) (reports c)
  | Write n => mkStats (closed c) (totalRead c) (int64 (totalWrite c + n)) (closes c) (reports c)
  | Close =>
      if closed c then c
      else mkStats true (totalRead c) (totalWrite c) (S (closes c)) (reports c ++ [(totalRead c, totalWrite c)])
  end.
Definition run (os : list op) : StatsConn := foldl apply_ WrapStatsConn os.

Definition total (f : op → Z) (os : list op) : Z := foldr (λ o n, f o + n) 0 os.
Definition bytesRead : list op → Z := total (λ o, match o with Read n => n | _ => 0 end).
Definition bytesWritten : list op → Z := total (λ o, match o with Write n => n | _ => 0 end).

Lemma int64_add a b : int64 (int64 a + b) = int64 (a + b).
Proof.
  unfold int64. f_equal. replace ((a + 2 ^ 63) mod 2 ^ 64 - 2 ^ 63 + b + 2 ^ 63) with ((a + 2 ^ 63) mod 2 ^ 64 + b) by lia.
  rewrite Zplus_mod_idemp_l. f_equal. lia.
Qed.

Lemma run_open os r w : Close ∉ os →
  foldl apply_ (mkStats false (int64 r) (int64 w) 0 []) os = mkStats false (int64 (r + bytesRead os)) (int64 (w + bytesWritten os)) 0 [].
Proof.
  revert r w. induction os as [|o os IH]; intros r w Hn; simpl; [by rewrite !Z.add_0_r|]. apply not_elem_of_cons in Hn as [Ho Hn].
  destruct o as [n|n|]; [| |done]; simpl; rewrite int64_add, IH by done; by rewrite ?Z.add_0_l, ?Z.add_assoc.
Qed.

Lemma run_closed os c : closed c = true → reports (foldl apply_ c os) = reports c ∧ closes (foldl apply_ c os) = closes c.
Proof.
  revert c. induction os as [|o os IH]; intros c Hc; simpl; [done|].
  destruct (IH (apply_ c o)) as [-> ->]; destruct o; simpl; by rewrite ?Hc.
Qed.

(** the traffic of a connection is reported once, and no byte of it is lost.  The report
    is made by the first [Close] and holds the bytes that were read and written before it,
    as 64-bit numbers, also those of calls that failed; the connection is closed once, and
    whatever comes later changes neither. *)
Theorem stats_reported before after :
  Close ∉ before →
  reports (run before) = [] ∧ closes (run before) = 0%nat ∧
  reports (run (before ++ Close :: after)) = [(int64 (bytesRead before), int64 (bytesWritten before))] ∧
  closes (run (before ++ Close :: after)) = 1%nat.
Proof.
  intros Hn. pose proof (run_open before 0 0 Hn) as Hb. change (mkStats false (int64 0) (int64 0) 0 []) with WrapStatsConn in Hb.
  unfold run. rewrite foldl_app, Hb. simpl. split_and!; try done; by apply run_closed.
Qed.

Lemma stats_reported_witness : reports (run [Read 3; Write 5; Read 4; Close; Read 9; Close]) = [(7, 5)].
Proof. destruct (stats_reported [Read 3; Write 5; Read 4] [Read 9; Close]) as (_ & _ & H & _); [set_solver|exact H]. Defined.
End Stats.
