(* ===== verification/SSHGateway.v ===== *)
(** * The SSH gateway: [pkg/ssh], [pkg/virtual], and the dialer of [client/control_session.go]

    Users without a client of their own connect with SSH: the gateway authenticates them
    by their keys, reads from the command of their session which proxy they want, and runs
    a client for them that is connected to the server by a pipe.  [Dialer] is the login of
    every client, [Gateway] the keys, [Tunnel] the life of one SSH connection.  The SSH
    library, the file system and the parser of flags are parameters. *)
From S2P Require Import Prelude Chars Bytes Wire Control Visitor Binding Service Config ClientService CommonConfig Bootstrap AuthRuntime ConnWrap.

(** ** Logging in: [controlSessionDialer] *)
Module Dialer.
Import CommonConfig.

Record ClientSpec := mkSpec { specType : string; AlwaysAuthPass : bool }.

Definition sshTunnel : string := "ssh-tunnel".
Definition isTunnel (spec : option ClientSpec) : bool := match spec with Some s => bool_decide (specType s = sshTunnel) | None => false end.

(** The fields [canRequestXTCPBinding] looks at. *)
Definition commonOf (c : ClientCommonConfig) : ClientService.Common :=
  ClientService.mkCommon (User c) (WireProtocol (Transport c)) (Method (Auth_ c)) (TrustedCaFile (clientTLS (TLS (Transport c))))
    (Enable (TLS (Transport c))) (Protocol (Transport c)) (Start c) (VirtualNet c).

Record LoginResp := mkResp { respRunID : string; respError : string; respControlID : bytes }.
Record exchange := mkExchange { xResp : LoginResp; xCrypto : option Bootstrap.CryptoContext; xCodec : string }.

Inductive error := ErrOpen | ErrConnect | ErrTransport | ErrSetter | ErrExchange | ErrServer (text : string) | ErrCrypto (e : Channel.error) | ErrIdentity | ErrUnexpected.

(** [controlRW] is [None] when the connection stays as it is. *)
Record Session := mkSession { sRunID : string; controlRW : option Channel.ReadWriter; sControlID : bytes; sCodec : string }.

Inductive effect := EOpen | EConnect | ELogin (m : Service.Login) | ECloseConn | ECloseConnector.

Section dialer.
Context (md5hex : string → string) (hkdf : Channel.hkdfInput → option bytes) (streamOk : string → bytes → bool) (v1Ok : bytes → bool).
(** The machine: host name, version and clock; the access token of an OIDC provider. *)
Context (hostname version : string) (now : Z) (access : option string).

Definition setLogin (setter : Build.Setter) (m : Auth.signed) : option Auth.signed :=
  match setter with
  | Build.TokenSetter a => Some (Auth.SetLogin md5hex a m)
  | _ => match access with Some t => Some (Auth.mkSigned (Auth.Timestamp m) t) | None => None end
  end.

(** [key] is the encryption key of the authentication. *)
Definition buildLoginMsg (common : ClientCommonConfig) (setter : Build.Setter) (key : bytes) (spec : option ClientSpec) (xtcpRequired : bool)
    (previousRunID : string) : res error Service.Login :=
  if xtcpRequired && negb (ClientService.canRequestXTCPBinding (commonOf common) key (specType <$> spec)) then Err ErrTransport
  else match setLogin setter (Auth.mkSigned now EmptyString) with
  | None => Err ErrSetter
  | Some sig =>
      Ok (Service.mkLogin version hostname (User common) (Auth.PrivilegeKey sig) (Auth.Timestamp sig) previousRunID (ClientID common)
            (PoolCount (Transport common)) (match spec with Some s => AlwaysAuthPass s | None => false end)
            (if xtcpRequired then Control.ALPN else EmptyString))
  end.

(** [Dial]: with [openOk] and [connectOk] the connector, and what the exchange of the
    login gives. *)
Definition Dial (openOk connectOk : bool) (exchangeLogin : Service.Login → option exchange) (common : ClientCommonConfig) (setter : Build.Setter)
    (key : bytes) (spec : option ClientSpec) (xtcpRequired : bool) (previousRunID : string) : res error Session * list effect :=
  if negb openOk then (Err ErrOpen, [])
  else if negb connectOk then (Err ErrConnect, [EOpen; ECloseConnector])
  else
    let fail e es := (Err e, [EOpen; EConnect] ++ es ++ [ECloseConn; ECloseConnector]) in
    match buildLoginMsg common setter key spec xtcpRequired previousRunID with
    | Err e => fail e []
    | Ok m =>
        match exchangeLogin m with
        | None => fail ErrExchange [ELogin m]
        | Some x =>
            if negb (bool_decide (respError (xResp x) = EmptyString)) then fail (ErrServer (respError (xResp x))) [ELogin m]
            else
              match (if isTunnel spec then Ok None
                     else match Channel.newControlReadWriter hkdf streamOk v1Ok Channel.AEADCryptoRoleClient (WireProtocol (Transport common)) (xCrypto x) key with
                          | Ok rw => Ok (Some rw) | Err e => Err e end) with
              | Err e => fail (ErrCrypto e) [ELogin m]
              | Ok rw =>
                  if negb (bool_decide (Service.lXTCPBindingProtocol m = EmptyString)) then
                    match Binding.ID (respControlID (xResp x)) with
                    | Err _ => fail ErrIdentity [ELogin m]
                    | Ok _ => (Ok (mkSession (respRunID (xResp x)) rw (respControlID (xResp x)) (xCodec x)), [EOpen; EConnect; ELogin m])
                    end
                  else if negb (bool_decide (respControlID (xResp x) = [])) then fail ErrUnexpected [ELogin m]
                  else (Ok (mkSession (respRunID (xResp x)) rw [] (xCodec x)), [EOpen; EConnect; ELogin m])
              end
        end
    end.

(** a login leaves a session or nothing.  When [Dial] succeeds, connection and connector
    are open, the server accepted the login it sent, the control connection is encrypted
    unless the client is a tunnel of the gateway, and there is an identity for hole
    punching exactly when it was asked for; when it fails, all it opened is closed, the
    connection before the connector. *)
Theorem dial_settled openOk connectOk exchangeLogin common setter key spec xtcpRequired previousRunID r es :
  Dial openOk connectOk exchangeLogin common setter key spec xtcpRequired previousRunID = (r, es) →
  match r with
  | Ok s =>
      ∃ m x, es = [EOpen; EConnect; ELogin m] ∧ exchangeLogin m = Some x ∧ respError (xResp x) = EmptyString ∧ sRunID s = respRunID (xResp x) ∧
        (controlRW s = None ↔ isTunnel spec = true) ∧
        (if xtcpRequired then isTunnel spec = false ∧ ∃ i, Binding.ID (sControlID s) = Ok i else sControlID s = [])
  | Err _ => es = [] ∨ es = [EOpen; ECloseConnector] ∨ ∃ l, es = [EOpen; EConnect] ++ l ++ [ECloseConn; ECloseConnector] ∧ (length l ≤ 1)%nat
  end.
Proof.
  unfold Dial. destruct openOk; [|intros [= <- <-]; by left]. destruct connectOk; [|intros [= <- <-]; by right; left]. simpl.
  assert (Hfail : ∀ e l, (length l ≤ 1)%nat → (Err e : res error Session, EOpen :: EConnect :: l ++ [ECloseConn; ECloseConnector]) = (r, es) →
    match r with Ok s => False | Err _ => es = [] ∨ es = [EOpen; ECloseConnector] ∨ ∃ l, es = [EOpen; EConnect] ++ l ++ [ECloseConn; ECloseConnector] ∧ (length l ≤ 1)%nat end).
  { intros e l Hl [= <- <-]. right; right. by exists l. }
  destruct (buildLoginMsg _ _ _ _ _ _) as [m|e] eqn:Hb; [|intros H; apply (Hfail e []) in H; [by destruct r|simpl; lia]].
  destruct (exchangeLogin m) as [x|] eqn:Hx; [|intros H; apply (Hfail _ [ELogin m]) in H; [by destruct r|simpl; lia]].
  destruct (bool_decide (respError _ = _)) eqn:He; bool_to_prop; simpl; [|intros H; apply (Hfail _ [ELogin m]) in H; [by destruct r|simpl; lia]].
  assert (Hreq : Service.lXTCPBindingProtocol m = if xtcpRequired then Control.ALPN else EmptyString).
  { unfold buildLoginMsg in Hb. destruct (_ && _); [done|]. destruct (setLogin _ _); [|done]. by injection Hb as <-. }
  assert (Htun : xtcpRequired = true → isTunnel spec = false).
  { intros ->. unfold buildLoginMsg in Hb. simpl in Hb. destruct (ClientService.canRequestXTCPBinding _ _ _) eqn:Hc; [|done].
    unfold ClientService.canRequestXTCPBinding in Hc. rewrite !andb_true_iff in Hc. destruct Hc as [_ Hc]. destruct spec as [sp|]; [|done].
    simpl in Hc. unfold isTunnel, sshTunnel. by destruct (bool_decide _). }
  destruct (if isTunnel spec then _ else _) as [rw|e] eqn:Hrw; [|intros H; apply (Hfail _ [ELogin m]) in H; [by destruct r|simpl; lia]].
  assert (Hplain : rw = None ↔ isTunnel spec = true).
  { destruct (isTunnel spec); [naive_solver|]. destruct (Channel.newControlReadWriter _ _ _ _ _ _ _); naive_solver. }
  destruct xtcpRequired; rewrite Hreq; simpl.
  - destruct (Binding.ID _) as [i|e] eqn:Hid; [|intros H; apply (Hfail _ [ELogin m]) in H; [by destruct r|simpl; lia]].
    intros [= <- <-]. exists m, x. split_and!; eauto.
  - destruct (bool_decide (respControlID _ = _)) eqn:Hc; simpl; [|intros H; apply (Hfail _ [ELogin m]) in H; [by destruct r|simpl; lia]].
    intros [= <- <-]. by exists m, x.
Qed.
End dialer.
End Dialer.

(** ** Keys: [gateway.go] *)
Module Gateway.
Import CommonConfig.

Inductive error := ErrRead | ErrRandom | ErrWrite | ErrParse | ErrListen | ErrInternal | ErrUnknownKey.

Abbreviation files := (gmap string chars).

Section gateway.
(** [ssh.ParsePrivateKey]; [ssh.ParseAuthorizedKey]: the next key of a file as it is
    marshalled, its comment, and the rest of the file. *)
Context {K : Type} (ParsePrivateKey : chars → option K) (ParseAuthorizedKey : chars → option (string * string * chars)).

(** The bytes of the host key, and the files afterwards. *)
Definition hostKeyBytes (cfg : SSHTunnelGateway) (random : option chars) (writeOk : bool) (fs : files) : res error chars * files :=
  if decide (PrivateKeyFile cfg = EmptyString) then
    let stored : chars := if decide (AutoGenPrivateKeyPath cfg = EmptyString) then [] else default ([] : chars) (fs !! AutoGenPrivateKeyPath cfg) in
    match stored with
    | [] =>
        match random with
        | None => (Err ErrRandom, fs)
        | Some b =>
            if decide (AutoGenPrivateKeyPath cfg = EmptyString) then (Ok b, fs)
            else if writeOk then (Ok b, <[ AutoGenPrivateKeyPath cfg := b ]> fs) else (Err ErrWrite, fs)
        end
    | _ => (Ok stored, fs)
    end
  else match fs !! PrivateKeyFile cfg with Some b => (Ok b, fs) | None => (Err ErrRead, fs) end.

Record ServerConfig := mkServerConfig { hostKey : K; NoClientAuth : bool; keysFile : string }.

Definition NewGateway (cfg : SSHTunnelGateway) (random : option chars) (writeOk listenOk : bool) (fs : files) : res error ServerConfig * files :=
  match hostKeyBytes cfg random writeOk fs with
  | (Err e, fs) => (Err e, fs)
  | (Ok b, fs) =>
      match ParsePrivateKey b with
      | None => (Err ErrParse, fs)
      | Some k =>
          if listenOk then (Ok (mkServerConfig k (bool_decide (AuthorizedKeysFile cfg = EmptyString)) (AuthorizedKeysFile cfg)), fs)
          else (Err ErrListen, fs)
      end
  end.

(** The loop of [loadAuthorizedKeysFromFile]; [None] when the fuel is used up. *)
Fixpoint loadKeys (fuel : nat) (b : chars) (m : gmap string string) : option (res error (gmap string string)) :=
  match b with
  | [] => Some (Ok m)
  | _ =>
      match fuel with
      | O => None
      | S fuel =>
          match ParseAuthorizedKey b with
          | None => Some (Err ErrParse)
          | Some (key, comment, rest) => loadKeys fuel rest (<[ key := Values.trim comment ]> m)
          end
      end
  end.

(** From each key to its user. *)
Definition loadAuthorizedKeysFromFile (path : string) (fs : files) : option (res error (gmap string string)) :=
  match (fs !! path : option chars) with
  | None => Some (Err ErrRead)
  | Some b => loadKeys (length b) b ∅
  end.

(** [PublicKeyCallback]: the user of a key. *)
Definition publicKey (cfg : ServerConfig) (fs : files) (key : string) : res error string :=
  match loadAuthorizedKeysFromFile (keysFile cfg) fs with
  | Some (Ok m) => match m !! key with Some user => Ok user | None => Err ErrUnknownKey end
  | _ => Err ErrInternal
  end.

(** [ssh.NewServerConn] with the keys a client can prove: without client authentication
    there are no permissions, with it the first key the callback accepts gives them. *)
Fixpoint firstAccepted (cfg : ServerConfig) (fs : files) (keys : list string) : option string :=
  match keys with
  | [] => None
  | k :: keys => match publicKey cfg fs k with Ok user => Some user | Err _ => firstAccepted cfg fs keys end
  end.
Definition handshake (cfg : ServerConfig) (fs : files) (keys : list string) : option (option string) :=
  if NoClientAuth cfg then Some None else Some <$> firstAccepted cfg fs keys.

(** The parser gets on, and refuses an empty private key. *)
Context (authorized_shrinks : ∀ b k c rest, ParseAuthorizedKey b = Some (k, c, rest) → (length rest < length b)%nat).
Context (private_nonempty : ParsePrivateKey [] = None).

Lemma loadKeys_total fuel b m : (length b ≤ fuel)%nat → is_Some (loadKeys fuel b m).
Proof using authorized_shrinks.
  revert b m. induction fuel as [|fuel IH]; intros [|x b] m Hl; simpl in *; try done; [lia|].
  destruct (ParseAuthorizedKey (x :: b)) as [[[k c] rest]|] eqn:Hp; [|done]. apply IH.
  apply authorized_shrinks in Hp. simpl in Hp. lia.
Qed.

(** the host key of the gateway does not change.  After a start that succeeded without a
    key file of its own but with a path for a generated key, every later start with the
    files it left has the same host key, whatever is drawn or can be written then, and
    changes no file. *)
Theorem host_key_stable cfg random writeOk listenOk fs g fs' random' writeOk' :
  PrivateKeyFile cfg = EmptyString → AutoGenPrivateKeyPath cfg ≠ EmptyString →
  NewGateway cfg random writeOk listenOk fs = (Ok g, fs') →
  ∃ g', NewGateway cfg random' writeOk' true fs' = (Ok g', fs') ∧ hostKey g' = hostKey g.
Proof using private_nonempty.
  clear ParseAuthorizedKey authorized_shrinks. intros Hp Ha. unfold NewGateway at 1. destruct (hostKeyBytes cfg random writeOk fs) as [[b|e] fs1] eqn:Hb; [|done].
  destruct (ParsePrivateKey b) as [k|] eqn:Hk; [|done]. destruct listenOk; [|done]. intros [= <- <-].
  assert (Hs : fs1 !! AutoGenPrivateKeyPath cfg = Some b ∧ b ≠ []).
  { split; [|intros ->; congruence]. unfold hostKeyBytes in Hb. rewrite decide_True in Hb by done. rewrite decide_False in Hb by done.
    destruct (fs !! AutoGenPrivateKeyPath cfg) as [[|x l]|] eqn:Hf; simpl in Hb.
    - destruct random; [|done]. rewrite decide_False in Hb by done. destruct writeOk; [|done]. injection Hb as <- <-. by rewrite lookup_insert, decide_True.
    - by injection Hb as <- <-.
    - destruct random; [|done]. rewrite decide_False in Hb by done. destruct writeOk; [|done]. injection Hb as <- <-. by rewrite lookup_insert, decide_True. }
  destruct Hs as [Hs Hn]. unfold NewGateway, hostKeyBytes. rewrite (decide_True (P := PrivateKeyFile cfg = EmptyString)) by done.
  rewrite (decide_False (P := AutoGenPrivateKeyPath cfg = EmptyString)), Hs by done. simpl.
  destruct b as [|x l]; [done|]. rewrite Hk. by eexists.
Qed.

Lemma firstAccepted_Some cfg fs keys user : firstAccepted cfg fs keys = Some user →
  ∃ k m, k ∈ keys ∧ loadAuthorizedKeysFromFile (keysFile cfg) fs = Some (Ok m) ∧ m !! k = Some user.
Proof using Type.
  clear authorized_shrinks private_nonempty ParsePrivateKey. induction keys as [|k keys IH]; simpl; [done|]. unfold publicKey.
  destruct (loadAuthorizedKeysFromFile (keysFile cfg) fs) as [[m|e]|]; [destruct (m !! k) as [u|] eqn:Hm|..].
  - intros [= <-]. exists k, m. split_and!; [by left|done|done].
  - intros (k' & m' & ? & ? & ?)%IH. exists k', m'. split_and!; [by right|done|done].
  - intros (k' & m' & _ & ? & _)%IH. done.
  - intros (k' & m' & _ & ? & _)%IH. done.
Qed.

(** One line that is no key, the last one too, and no key of the file is accepted. *)
Lemma bad_line_locks_out cfg (fs : files) (b b' : chars) k c key :
  fs !! keysFile cfg = Some b → ParseAuthorizedKey b = Some (k, c, b') → b' ≠ [] → ParseAuthorizedKey b' = None → NoClientAuth cfg = false →
  handshake cfg fs [key] = None.
Proof using authorized_shrinks.
  intros Hf Hp Hn Hp' Ha. unfold handshake. rewrite Ha. simpl. unfold publicKey, loadAuthorizedKeysFromFile. rewrite Hf.
  pose proof (authorized_shrinks _ _ _ _ Hp) as Hl. destruct b as [|x b]; [simpl in Hl; lia|]. simpl. rewrite Hp. simpl in Hl.
  destruct (length b) as [|n] eqn:Hlen; [destruct b'; [done|simpl in Hl; lia]|]. simpl. destruct b' as [|y b']; [done|]. by rewrite Hp'.
Qed.
End gateway.
End Gateway.

(** ** One SSH connection: [server.go] *)
Module Tunnel.
Import CommonConfig.

Record tcpipForward := mkForward { Host : string; Port : Z }.
Record forwardedTCPPayload := mkForwarded { Addr : string; fPort : Z; OriginAddr : string; OriginPort : Z }.

(** The payload of [openConn]: the address of the client stands for the origin, too. *)
Definition openPayload (a : tcpipForward) : forwardedTCPPayload := mkForwarded (Host a) (Port a) (Host a) (Port a).

Definition RequestTypeForward : string := "tcpip-forward".

(** *** What the client asks for: [waitForwardAddrAndExtraPayload] *)

(** What happens, in order: a request of the connection, with its payload when it can be
    unmarshalled; a request of a channel; the two receives of the loop; its timer. *)
Inductive event :=
| Request (type : string) (payload : option tcpipForward)
| ChannelRequest (type : string) (command : option string)
| RecvAddr | RecvExtra | Timeout.

Inductive result := Waiting | Got (a : tcpipForward) (payload : string) | TimedOut.

(** The goroutine of the requests with [addrGot], and whether it has ended; the two
    channels with room for one value; the variables of the loop. *)
Record wait := mkWait {
  addrGot : bool; ended : bool; addrCh : option tcpipForward; extraPayloadCh : option string;
  addr : option tcpipForward; extraPayload : string; outcome : result }.
Definition waitStart : wait := mkWait false false None None None EmptyString Waiting.

(** The end of a turn of the loop. *)
Definition settle (a : option tcpipForward) (extra : string) : result :=
  match a with Some a => if decide (extra = EmptyString) then Waiting else Got a extra | None => Waiting end.

Definition waitStep (s : wait) (e : event) : wait :=
  match e with
  | Request type payload =>
      if ended s then s
      else if bool_decide (type = RequestTypeForward) && negb (addrGot s) then
        match payload with
        | None => mkWait (addrGot s) true (addrCh s) (extraPayloadCh s) (addr s) (extraPayload s) (outcome s)
        | Some a => mkWait true (ended s) (Some a) (extraPayloadCh s) (addr s) (extraPayload s) (outcome s)
        end
      else s
  | ChannelRequest type command =>
      if decide (type = "exec"%string) then
        match command, extraPayloadCh s with
        | Some c, None => mkWait (addrGot s) (ended s) (addrCh s) (Some c) (addr s) (extraPayload s) (outcome s)
        | _, _ => s
        end
      else s
  | RecvAddr =>
      match outcome s, addrCh s with
      | Waiting, Some a => mkWait (addrGot s) (ended s) None (extraPayloadCh s) (Some a) (extraPayload s) (settle (Some a) (extraPayload s))
      | _, _ => s
      end
  | RecvExtra =>
      match outcome s, extraPayloadCh s with
      | Waiting, Some c => mkWait (addrGot s) (ended s) (addrCh s) None (addr s) c (settle (addr s) c)
      | _, _ => s
      end
  | Timeout =>
      match outcome s with
      | Waiting => mkWait (addrGot s) (ended s) (addrCh s) (extraPayloadCh s) (addr s) (extraPayload s) TimedOut
      | _ => s
      end
  end.
Definition waitRun (es : list event) : wait := foldl waitStep waitStart es.

(** The first request to forward. *)
Fixpoint firstForward (es : list event) : option (option tcpipForward) :=
  match es with
  | [] => None
  | Request type payload :: es => if decide (type = RequestTypeForward) then Some payload else firstForward es
  | _ :: es => firstForward es
  end.

Record waiting (es : list event) (s : wait) : Prop := {
  w_none : addrGot s = false → ended s = false → firstForward es = None;
  w_addr a : addrCh s = Some a ∨ addr s = Some a → addrGot s = true ∧ firstForward es = Some (Some a);
  w_some : addrGot s = true ∨ ended s = true → is_Some (firstForward es);
  w_ch c : extraPayloadCh s = Some c → ChannelRequest "exec" (Some c) ∈ es;
  w_extra : extraPayload s ≠ EmptyString → ChannelRequest "exec" (Some (extraPayload s)) ∈ es;
  w_out a p : outcome s = Got a p → firstForward es = Some (Some a) ∧ ChannelRequest "exec" (Some p) ∈ es ∧ p ≠ EmptyString }.

Lemma firstForward_app es es' : firstForward (es ++ es') = match firstForward es with Some x => Some x | None => firstForward es' end.
Proof. induction es as [|e es IH]; [done|]. destruct e; simpl; [case_decide|..]; done. Qed.

Lemma firstForward_more es e : is_Some (firstForward es) ∨ firstForward [e] = None → firstForward (es ++ [e]) = firstForward es.
Proof. rewrite firstForward_app. destruct (firstForward es); [done|]. intros [[]|]; done. Qed.

Lemma waiting_more es s e : waiting es s → is_Some (firstForward es) ∨ firstForward [e] = None → waiting (es ++ [e]) s.
Proof. intros [] He. split; rewrite ?firstForward_more by done; set_solver. Qed.

#[local] Arguments settle : simpl never.
Lemma settle_Got a extra b p : settle a extra = Got b p → a = Some b ∧ extra = p ∧ p ≠ EmptyString.
Proof. unfold settle. destruct a; [|done]. case_decide; [done|]. by intros [= <- <-]. Qed.

Lemma waiting_request es s type payload : waiting es s → waiting (es ++ [Request type payload]) (waitStep s (Request type payload)).
Proof.
  intros W. simpl. destruct (ended s) eqn:He; [apply waiting_more; [done|]; left; apply (w_some _ _ W); by right|].
  destruct (bool_decide (type = RequestTypeForward)) eqn:Ht; bool_to_prop; simpl; [|apply waiting_more; [done|]; right; simpl; by rewrite decide_False].
  destruct (addrGot s) eqn:Ha; simpl; [apply waiting_more; [done|]; left; apply (w_some _ _ W); by left|].
  assert (Hf : firstForward (es ++ [Request type payload]) = Some payload).
  { rewrite firstForward_app, (w_none _ _ W) by done. simpl. by rewrite decide_True. }
  pose proof (w_none _ _ W Ha He) as Hn. destruct W as [_ Wa _ Wc We Wo].
  assert (Hno : ∀ a, addrCh s = Some a ∨ addr s = Some a → False) by (intros a [? _]%Wa; congruence).
  assert (Hout : ∀ a p, outcome s = Got a p → False) by (intros a p [? _]%Wo; congruence).
  destruct payload as [a|]; split; simpl; rewrite ?Hf; try done; try (intros; exfalso; by eauto); try (intros; apply elem_of_app; left; by auto).
  - intros b [[= <-]|Hb]; [done|]. exfalso. eauto.
Qed.

Lemma waiting_step es s e : waiting es s → waiting (es ++ [e]) (waitStep s e).
Proof.
  intros W. destruct e as [type payload|type command| | |]; [by apply waiting_request|..];
    [pose proof (waiting_more _ _ (ChannelRequest type command) W (or_intror eq_refl)) as W'|pose proof (waiting_more _ _ RecvAddr W (or_intror eq_refl)) as W'
    |pose proof (waiting_more _ _ RecvExtra W (or_intror eq_refl)) as W'|pose proof (waiting_more _ _ Timeout W (or_intror eq_refl)) as W']; simpl.
  - case_decide; [|done]. subst. destruct command as [c|]; [|done]. destruct (extraPayloadCh s) eqn:Hc; [done|].
    destruct W'. split; simpl; try done. intros c' [= <-]. set_solver.
  - destruct (outcome s) eqn:Ho; try done. destruct (addrCh s) as [a|] eqn:Ha; [|done]. destruct W' as [H1 H2 H3 H4 H5 H6]. split; simpl; try done.
    + intros b [|[= <-]]; [done|]. apply H2. by left.
    + intros b p (Hb & <- & Hp)%settle_Got. injection Hb as <-. split_and!; [apply H2; by left|by apply H5|done].
  - destruct (outcome s) eqn:Ho; try done. destruct (extraPayloadCh s) as [c|] eqn:Hc; [|done]. destruct W' as [H1 H2 H3 H4 H5 H6]. split; simpl; try done.
    + intros _. by apply H4.
    + intros b p (Hb & <- & Hp)%settle_Got. split_and!; [apply H2; by right|by apply H4|done].
  - destruct (outcome s) eqn:Ho; try done. destruct W' as [H1 H2 H3 H4 H5 H6]. by split.
Qed.

Lemma waiting_run es : waiting es (waitRun es).
Proof.
  induction es as [|e es IH] using rev_ind; [by split; simpl; try done; intros; destruct_or?|].
  unfold waitRun. rewrite foldl_app. by apply waiting_step.
Qed.

(** a tunnel is for what the client asked.  In every order of the requests, the receives
    and the timer, when the gateway goes on it has the address of the first request to
    forward, which could be unmarshalled, and a command, not empty, of a session; until
    then the timer ends it. *)
Theorem tunnel_request es :
  (∀ a p, outcome (waitRun es) = Got a p → firstForward es = Some (Some a) ∧ ChannelRequest "exec" (Some p) ∈ es ∧ p ≠ EmptyString) ∧
  (outcome (waitRun es) = Waiting → outcome (waitRun (es ++ [Timeout])) = TimedOut).
Proof.
  split; [apply (w_out _ _ (waiting_run es))|]. unfold waitRun. rewrite foldl_app. simpl. intros ->. done.
Qed.

(** *** What the command means: [parseClientAndProxyConfigurer] *)

Definition supportTypes : list string := ["tcp"; "http"; "https"; "tcpmux"; "stcp"].

(** The flags of the command on a configuration of the type. *)
Inductive flags := FlagHelp (usage : string) | FlagError (text : string) | FlagOk (client : ClientCommonConfig) (proxy : Config.ProxyConfigurer).

Inductive parseError := ErrType (type : string) | ErrConfigurer | ErrFlags (text : string) | ErrHelp (usage : string) | ErrRandomID.

Definition setName (n : string) (b : Config.ProxyBaseConfig) : Config.ProxyBaseConfig :=
  Config.mkBase n (Config.Type_ b) (Config.Enabled b) (Config.Annotations b) (Config.Transport b) (Config.Metadatas b) (Config.LoadBalancer b)
    (Config.HealthCheck b) (Config.LocalIP b) (Config.LocalPort b) (Config.Plugin b).

Section tunnel.
(** [cmd.ParseFlags] for a configuration of the type; [RandIDWithLen]. *)
Context (parseFlags : string → list chars → flags) (randID : option string).

Definition parseClientAndProxyConfigurer (payload : string) : res parseError (ClientCommonConfig * Config.ProxyConfigurer) :=
  let args := Split " "%char (ofStr payload) in
  let proxyType := String.string_of_list_ascii (TrimSpace (default [] (head args))) in
  if negb (bool_decide (proxyType ∈ supportTypes)) then Err (ErrType proxyType)
  else match Config.NewProxyConfigurerByType proxyType with
  | None => Err ErrConfigurer
  | Some _ =>
      match parseFlags proxyType args with
      | FlagHelp usage => Err (ErrHelp usage)
      | FlagError text => Err (ErrFlags text)
      | FlagOk client pc =>
          if decide (Config.Name (Config.GetBaseConfig pc) = EmptyString) then
            match randID with
            | None => Err ErrRandomID
            | Some id => Ok (client, Config.setBase (setName ("sshtunnel-" +:+ proxyType +:+ "-" +:+ id) (Config.GetBaseConfig pc)) pc)
            end
          else Ok (client, pc)
      end
  end.

(** *** The client of the tunnel *)

Definition setUser (u : string) (c : ClientCommonConfig) : ClientCommonConfig :=
  mkClient (Auth_ c) u (ClientID c) (ServerAddr c) (ServerPort c) (NatHoleSTUNServer c) (DNSServer c) (LoginFailExit c) (Start c) (Log c) (WebServer c)
    (Transport c) (VirtualNet c) (FeatureGates c) (UDPPacketSize c) (Metadatas c) (IncludeConfigFiles c) (Store c).

(** The user of the key goes before the one of the flags. *)
Definition tunnelCommon (httpProxy : string) (permissions : option string) (c : ClientCommonConfig) : ClientCommonConfig :=
  let c := completeClient httpProxy c in
  completeClient httpProxy (match permissions with Some user => setUser (or EmptyString user (User c)) c | None => c end).

Definition tunnelSpec {K} (cfg : Gateway.ServerConfig (K := K)) : Dialer.ClientSpec := Dialer.mkSpec Dialer.sshTunnel (negb (Gateway.NoClientAuth cfg)).

(** *** [Run] and [handleConn] *)

Inductive effect :=
| TWrite (text : string) | TStart (common : ClientCommonConfig) (spec : Dialer.ClientSpec) | TUpdate (pc : Config.ProxyConfigurer)
| TServe | TCloseClient | TCloseDone | TCloseConn.

Definition errorText (e : parseError) : string :=
  match e with
  | ErrType t => "invalid proxy type: " +:+ t +:+ ", support types: [tcp http https tcpmux stcp]"
  | ErrConfigurer => "new proxy configurer error"
  | ErrFlags text | ErrHelp text => text
  | ErrRandomID => "generate random id error"
  end.

(** The text [createSuccessInfo] shows. *)
Definition newline : string := String.String (ascii_of_nat 10) EmptyString.
Definition createSuccessInfo (user : string) (pc : Config.ProxyConfigurer) (remoteAddr : string) : string :=
  let b := Config.GetBaseConfig pc in
  newline +:+ "frp (via SSH) (Ctrl+C to quit)" +:+ newline +:+ newline +:+ "User: " +:+ user +:+ newline +:+ "ProxyName: " +:+ Config.Name b +:+ newline
  +:+ "Type: " +:+ Config.Type_ b +:+ newline +:+ "RemoteAddress: " +:+ remoteAddr +:+ newline.

(** [waitProxyStatusReady] on what the ticker finds; the last tick is followed by the
    timer or the end of the tunnel. *)
Inductive status := SRunning (remoteAddr : string) | SFailed (err : string) | SOther.
Fixpoint waitProxyStatusReady (ticks : list (option status)) (end_ : string) : res string string :=
  match ticks with
  | [] => Err end_
  | Some (SRunning remote) :: _ => Ok remote
  | Some (SFailed e) :: _ => Err e
  | _ :: ticks => waitProxyStatusReady ticks end_
  end.

(** The result of waiting, the start of the client, and the ticks. *)
Definition Run {K} (cfg : Gateway.ServerConfig (K := K)) (httpProxy : string) (handshake : option (option string)) (waited : result) (newClientOk : bool)
    (ticks : list (option status)) (end_ : string) : list effect :=
  match handshake with
  | None => []
  | Some permissions =>
      match waited with
      | Got a payload =>
          match parseClientAndProxyConfigurer payload with
          | Err e => [TWrite (errorText e)]
          | Ok (client, pc) =>
              let common := tunnelCommon httpProxy permissions client in
              let pc := Config.Complete pc in
              if negb newClientOk then []
              else
                [TStart common (tunnelSpec cfg); TUpdate pc]
                ++ (match waitProxyStatusReady ticks end_ with
                    | Err e => [TWrite e]
                    | Ok remote => [TWrite (createSuccessInfo (User common) pc remote); TServe]
                    end)
                ++ [TCloseClient; TCloseDone]
          end
      | _ => []
      end
  end.

Definition handleConn {K} (cfg : Gateway.ServerConfig (K := K)) (httpProxy : string) (handshake : option (option string)) (waited : result) (newClientOk : bool)
    (ticks : list (option status)) (end_ : string) : list effect :=
  Run cfg httpProxy handshake waited newClientOk ticks end_ ++ [TCloseConn].

(** an SSH connection is served only as it may be, and always cleaned up.  A client is
    started only after the handshake, for a command with one of the supported types, with
    the exemption from authentication exactly when keys are required; its users are served
    only after its proxy runs; it is closed when the tunnel ends; and the connection is
    closed in any case, at the end and once. *)
Theorem tunnel_settled {K} (cfg : Gateway.ServerConfig (K := K)) httpProxy handshake waited newClientOk ticks end_ :
  let es := handleConn cfg httpProxy handshake waited newClientOk ticks end_ in
  (∃ body, es = body ++ [TCloseConn] ∧ TCloseConn ∉ body) ∧
  (∀ common spec, TStart common spec ∈ es →
     ∃ permissions a payload client pc, handshake = Some permissions ∧ waited = Got a payload ∧
       parseClientAndProxyConfigurer payload = Ok (client, pc) ∧ common = tunnelCommon httpProxy permissions client ∧
       Dialer.AlwaysAuthPass spec = negb (Gateway.NoClientAuth cfg) ∧ TCloseClient ∈ es ∧
       (TServe ∈ es ↔ ∃ remote, waitProxyStatusReady ticks end_ = Ok remote)).
Proof.
  simpl. unfold handleConn, Run. split.
  - eexists. split; [reflexivity|]. repeat case_match; set_solver.
  - intros common spec. destruct handshake as [permissions|]; [|set_solver]. destruct waited as [|a payload|]; [set_solver| |set_solver].
    destruct (parseClientAndProxyConfigurer payload) as [[client pc]|e] eqn:Hp; [|set_solver]. destruct newClientOk; [|set_solver]. simpl.
    intros Hin. exists permissions, a, payload, client, pc.
    assert (common = tunnelCommon httpProxy permissions client ∧ spec = tunnelSpec cfg) as [-> ->].
    { destruct (waitProxyStatusReady ticks end_); set_solver. }
    split_and!; try done; destruct (waitProxyStatusReady ticks end_) as [remote|]; set_solver.
Qed.

(** C40: nobody gets through the gateway unauthenticated.  When the server accepts the login of
    a tunnel's client over its internal connection, either keys are required and the SSH
    client has proved one that the file of authorized keys has at that moment, and logs in
    as the user of the key if the key has one, whatever user the flags name; or no keys are
    required and the login carries what the verifier of the server accepts.  (When keys are
    required the token is not checked: the witness logs in with a wrong one.) *)
Theorem tunnel_authenticated {K} ParseAuthorizedKey (cfg : Gateway.ServerConfig (K := K)) fs keys permissions
    md5hex printable hostname version now access httpProxy client setter key previousRunID svr peer entropy m m' :
  Gateway.handshake ParseAuthorizedKey cfg fs keys = Some permissions →
  Dialer.buildLoginMsg md5hex hostname version now access (tunnelCommon httpProxy permissions client) setter key (Some (tunnelSpec cfg)) false previousRunID = Ok m →
  Service.internal peer = true → Service.checkLogin md5hex printable svr peer entropy m = Ok m' →
  (Gateway.NoClientAuth cfg = false ∧ ∃ k users user, k ∈ keys ∧
     Gateway.loadAuthorizedKeysFromFile ParseAuthorizedKey (Gateway.keysFile cfg) fs = Some (Ok users) ∧ users !! k = Some user ∧
     (user ≠ EmptyString → Service.lUser m' = user)) ∨
  (Gateway.NoClientAuth cfg = true ∧ Auth.verifyLogin md5hex (Service.verifier svr) (Auth.mkSigned (Service.lTimestamp m') (Service.lPrivilegeKey m')) = Ok ()).
Proof.
  clear parseFlags randID. intros Hh Hb Hi Hc. apply Service.checkLogin_Ok in Hc as (Hrun & _ & Hauth & _).
  assert (Hm : Service.lUser m = User (tunnelCommon httpProxy permissions client) ∧ Service.lAlwaysAuthPass m = negb (Gateway.NoClientAuth cfg)).
  { unfold Dialer.buildLoginMsg in Hb. simpl in Hb. destruct (Dialer.setLogin _ _ _ _); [|done]. by injection Hb as <-. }
  assert (Hm' : Service.lUser m' = Service.lUser m ∧ Service.lAlwaysAuthPass m' = Service.lAlwaysAuthPass m).
  { destruct Hrun as [[_ ->]|(_ & r & _ & ->)]; done. }
  destruct Hm as [Hu Ha], Hm' as [Hu' Ha']. unfold Gateway.handshake in Hh. destruct (Gateway.NoClientAuth cfg) eqn:Hn.
  - right. split; [done|]. destruct Hauth as [[_ Hp]|Hv]; [|done]. rewrite Ha', Ha in Hp. done.
  - left. split; [done|]. destruct (Gateway.firstAccepted _ _ _ _) as [user|] eqn:Hf; [|done]. injection Hh as <-.
    apply Gateway.firstAccepted_Some in Hf as (k & users & Hk & Hl & Hx). exists k, users, user. split_and!; try done.
    intros Hne. rewrite Hu', Hu. simpl. unfold or, Config.EmptyOr. by rewrite decide_False.
Qed.
End tunnel.

(** *** Concrete runs *)

(** A file of authorized keys: one character per key, the comment is always [bob]. *)
Definition demoParse (b : chars) : option (string * string * chars) :=
  match b with x :: rest => Some (String.String x EmptyString, " bob"%string, rest) | [] => None end.
Definition demoFiles : gmap string chars := {[ "keys"%string := ofStr "ab" ]}.
Definition demoGate : Gateway.ServerConfig (K := nat) := Gateway.mkServerConfig 0%nat false "keys".
Definition demoServer : Service.Config := Service.mkConfig (Auth.TokenVerifier (Auth.mkTokenAuth [] "secret")) true [x01] false 5 [] true.
Definition demoPeer : Service.Peer := Service.mkPeer true false Wire.ProtocolV1 "" "".
Definition demoFlags : ClientCommonConfig := setUser "alice" zeroClient.
Definition demoSetter : Build.Setter := Build.TokenSetter (Auth.mkTokenAuth [] "wrong").
Definition demoLogin : Service.Login :=
  Service.mkLogin "v" "h" "bob" (Visitor.GetAuthKey id "wrong" 7) 7 "run" "" 1 true "".

(** The token of the client is wrong and the login is accepted: the key is enough. *)
Lemma tunnel_authenticated_witness :
  Service.checkLogin id (λ _, true) demoServer demoPeer None demoLogin = Ok demoLogin ∧
  ((Gateway.NoClientAuth demoGate = false ∧ ∃ k users user, k ∈ ["b"%string] ∧
     Gateway.loadAuthorizedKeysFromFile demoParse (Gateway.keysFile demoGate) demoFiles = Some (Ok users) ∧ users !! k = Some user ∧
     (user ≠ EmptyString → Service.lUser demoLogin = user)) ∨
   (Gateway.NoClientAuth demoGate = true ∧ Auth.verifyLogin id (Service.verifier demoServer) (Auth.mkSigned 7 (Visitor.GetAuthKey id "wrong" 7)) = Ok ())).
Proof.
  split; [by vm_compute|].
  apply (tunnel_authenticated demoParse demoGate demoFiles ["b"%string] (Some "bob"%string) id (λ _, true) "h" "v" 7 None "" demoFlags demoSetter [] "run"
    demoServer demoPeer None demoLogin demoLogin); vm_compute; reflexivity.
Defined.

Lemma demoParse_shrinks b k c rest : demoParse b = Some (k, c, rest) → (length rest < length b)%nat.
Proof. destruct b; [done|]. intros [= <- <- <-]. simpl. lia. Qed.

Definition demoSSH : SSHTunnelGateway := mkSSH 2222 "" "./.autogen_ssh_key" "keys".
Definition demoPrivate (b : chars) : option nat := match b with [] => None | _ => Some (length b) end.

Lemma host_key_stable_witness : ∃ g',
  Gateway.NewGateway demoPrivate demoSSH None false true (Gateway.NewGateway demoPrivate demoSSH (Some (ofStr "key")) true true ∅).2 =
    (Ok g', (Gateway.NewGateway demoPrivate demoSSH (Some (ofStr "key")) true true ∅).2) ∧ Gateway.hostKey g' = 3%nat.
Proof.
  destruct (Gateway.host_key_stable demoPrivate eq_refl demoSSH (Some (ofStr "key")) true true ∅ (Gateway.mkServerConfig 3%nat false "keys")
    (Gateway.NewGateway demoPrivate demoSSH (Some (ofStr "key")) true true ∅).2 None false) as (g' & H1 & H2); [reflexivity|discriminate|vm_compute; reflexivity|].
  exists g'. split; [exact H1|exact H2].
Defined.

(** A login over a pipe: the connection is not encrypted. *)
Definition demoExchange (m : Service.Login) : option Dialer.exchange := Some (Dialer.mkExchange (Dialer.mkResp "run" "" []) None "").
Definition demoDial : res Dialer.error Dialer.Session * list Dialer.effect :=
  Dialer.Dial id (λ _, None) (λ _ _, true) (λ _, true) "h" "v" 7 None true true demoExchange (tunnelCommon "" (Some "bob"%string) demoFlags) demoSetter []
    (Some (tunnelSpec demoGate)) false "run".

Lemma dial_settled_witness : ∃ s, demoDial.1 = Ok s ∧ Dialer.controlRW s = None ∧ demoDial.2 = [Dialer.EOpen; Dialer.EConnect; Dialer.ELogin demoLogin].
Proof.
  exists (Dialer.mkSession "run" None [] ""). split; [by vm_compute|].
  pose proof (Dialer.dial_settled id (λ _, None) (λ _ _, true) (λ _, true) "h" "v" 7 None true true demoExchange (tunnelCommon "" (Some "bob"%string) demoFlags) demoSetter []
    (Some (tunnelSpec demoGate)) false "run" (Ok (Dialer.mkSession "run" None [] "")) demoDial.2) as H.
  destruct H as (m & x & _ & _ & _ & _ & [_ H] & _); [by vm_compute|]. split; [by apply H|by vm_compute].
Defined.
End Tunnel.
