(* ===== verification/Legacy.v ===== *)
(** * Files of settings: [pkg/config/load.go] and the INI format of [pkg/config/legacy]

    Settings are read from files in two formats.  [Legacy] has the records of the old
    format and their conversion to those of [CommonConfig] and [Config]; [Ini] makes them
    from the sections of a file, among them ranges that stand for one proxy per port;
    [Load] is what a client and a server read at their start, with the store and the sources
    a client runs with ([cmd/frpc/sub/root.go]).  The INI library, its mapping
    of keys to fields, and the decoders of the current format are parameters. *)
From S2P Require Import Prelude Bytes Chars Ports PortsRange ClientProxy Config Source ClientService CommonConfig.

Module Legacy.
Import Config.

(** ** Clients *)

(** [legacyauth.BaseConfig] and [TokenConfig]. *)
Record AuthBase := mkAuthBase { AuthenticationMethod : string; AuthenticateHeartBeats : bool; AuthenticateNewWorkConns : bool; lToken : string }.

Record OidcClientConfig := mkOidcClient {
  OidcClientID : string; OidcClientSecret : string; OidcAudience : string; OidcScope : string; OidcTokenEndpointURL : string; OidcAdditionalEndpointParams : smap }.

Record ClientCommonConf := mkClientConf {
  cAuth : AuthBase; cOidc : OidcClientConfig; cServerAddr : string; cServerPort : Z; cNatHoleSTUNServer : string; cDialServerTimeout : Z;
  cDialServerKeepAlive : Z; cConnectServerLocalIP : string; HTTPProxy : string; LogFile : string; LogWay : string; LogLevel : string; LogMaxDays : Z;
  DisableLogColor : bool; AdminAddr : string; AdminPort : Z; AdminUser : string; AdminPwd : string; cAssetsDir : string; cPoolCount : Z; cTCPMux : bool;
  cTCPMuxKeepaliveInterval : Z; cUser : string; cDNSServer : string; cLoginFailExit : bool; cStart : list string; cProtocol : string;
  QUICKeepalivePeriod : Z; QUICMaxIdleTimeout : Z; QUICMaxIncomingStreams : Z; TLSEnable : bool; TLSCertFile : string; TLSKeyFile : string;
  TLSTrustedCaFile : string; TLSServerName : string; cDisableCustomTLSFirstByte : bool; cHeartbeatInterval : Z; cHeartbeatTimeout : Z; cMetas : smap;
  cUDPPacketSize : Z; cIncludeConfigFiles : list string; cPprofEnable : bool }.

Definition defaultAuth : AuthBase := mkAuthBase "token" false false "".
Definition GetDefaultClientConf : ClientCommonConf :=
  mkClientConf defaultAuth (mkOidcClient "" "" "" "" "" ∅) "" 0 "" 0 0 "" "" "" "" "" 0 false "" 0 "" "" "" 0 true 0 "" "" true [] "tcp" 0 0 0 true "" "" ""
    "" true 0 0 ∅ 0 [] false.

Inductive error := ErrHeartbeat | ErrProtocol | ErrIncludeParse (file : string) | ErrIncludeDir (file : string).

(** [Validate]; its warnings are printed. *)
Section validate.
Context (absDir : string → option string) (notExist : string → bool).
Fixpoint validateIncludes (files : list string) : res error unit :=
  match files with
  | [] => Ok ()
  | f :: files => match absDir f with None => Err (ErrIncludeParse f) | Some d => if notExist d then Err (ErrIncludeDir f) else validateIncludes files end
  end.
Definition Validate (c : ClientCommonConf) : res error unit :=
  if (0 <? cHeartbeatTimeout c) && (0 <? cHeartbeatInterval c) && (cHeartbeatTimeout c <? cHeartbeatInterval c) then Err ErrHeartbeat
  else if negb (bool_decide (cProtocol c ∈ ["tcp"; "kcp"; "quic"; "websocket"; "wss"]%string)) then Err ErrProtocol
  else validateIncludes (cIncludeConfigFiles c).
End validate.

Definition scopes (a : AuthBase) : list string :=
  (if AuthenticateHeartBeats a then ["HeartBeats"%string] else []) ++ (if AuthenticateNewWorkConns a then ["NewWorkConns"%string] else []).

Definition Convert_ClientCommonConf_To_v1 (c : ClientCommonConf) : CommonConfig.ClientCommonConfig :=
  let o := cOidc c in
  CommonConfig.mkClient
    (CommonConfig.mkAuth (AuthenticationMethod (cAuth c)) (scopes (cAuth c)) (lToken (cAuth c)) None
       (CommonConfig.mkOIDC (OidcClientID o) (OidcClientSecret o) (OidcAudience o) (OidcScope o) (OidcTokenEndpointURL o) (OidcAdditionalEndpointParams o) "" false "" None))
    (cUser c) "" (cServerAddr c) (cServerPort c) (cNatHoleSTUNServer c) (cDNSServer c) (Some (cLoginFailExit c)) (cStart c)
    (CommonConfig.mkLog (LogFile c) (LogLevel c) (LogMaxDays c) (DisableLogColor c))
    (CommonConfig.mkWeb (AdminAddr c) (AdminPort c) (AdminUser c) (AdminPwd c) (cAssetsDir c) (cPprofEnable c) None)
    (CommonConfig.mkTransport (cProtocol c) "" (cDialServerTimeout c) (cDialServerKeepAlive c) (cConnectServerLocalIP c) (HTTPProxy c) (cPoolCount c)
       (Some (cTCPMux c)) (cTCPMuxKeepaliveInterval c) (CommonConfig.mkQUIC (QUICKeepalivePeriod c) (QUICMaxIdleTimeout c) (QUICMaxIncomingStreams c))
       (cHeartbeatInterval c) (cHeartbeatTimeout c)
       (CommonConfig.mkTLSClient (Some (TLSEnable c)) (Some (cDisableCustomTLSFirstByte c))
          (CommonConfig.mkTLS (TLSCertFile c) (TLSKeyFile c) (TLSTrustedCaFile c) (TLSServerName c))))
    "" [] (cUDPPacketSize c) (cMetas c) (cIncludeConfigFiles c) "".

(** ** Servers *)

Record OidcServerConfig := mkOidcServer { OidcIssuer : string; sOidcAudience : string; OidcSkipExpiryCheck : bool; OidcSkipIssuerCheck : bool }.
Record HTTPPluginOptions := mkPluginOpt { pName : string; pAddr : string; pPath : string; pOps : list string; pTLSVerify : bool }.

(** [HTTPPlugins] is a map: the list is one order of its visit. *)
Record ServerCommonConf := mkServerConf {
  sAuth : AuthBase; sOidc : OidcServerConfig; sBindAddr : string; sBindPort : Z; sKCPBindPort : Z; sQUICBindPort : Z; sQUICKeepalivePeriod : Z;
  sQUICMaxIdleTimeout : Z; sQUICMaxIncomingStreams : Z; sProxyBindAddr : string; sVhostHTTPPort : Z; sVhostHTTPSPort : Z; sTCPMuxHTTPConnectPort : Z;
  sTCPMuxPassthrough : bool; sVhostHTTPTimeout : Z; DashboardAddr : string; DashboardPort : Z; DashboardTLSCertFile : string;
  DashboardTLSKeyFile : string; DashboardTLSMode : bool; DashboardUser : string; DashboardPwd : string; sEnablePrometheus : bool; sAssetsDir : string;
  sLogFile : string; sLogWay : string; sLogLevel : string; sLogMaxDays : Z; sDisableLogColor : bool; sDetailedErrorsToClient : bool; sSubDomainHost : string;
  sTCPMux : bool; sTCPMuxKeepaliveInterval : Z; sTCPKeepAlive : Z; sCustom404Page : string; AllowPortsStr : chars; sMaxPoolCount : Z; sMaxPortsPerClient : Z;
  TLSOnly : bool; sTLSCertFile : string; sTLSKeyFile : string; sTLSTrustedCaFile : string; sHeartbeatTimeout : Z; sUserConnTimeout : Z;
  sHTTPPlugins : list HTTPPluginOptions; sUDPPacketSize : Z; sPprofEnable : bool; sNatHoleAnalysisDataReserveHours : Z }.

Definition GetDefaultServerConf : ServerCommonConf :=
  mkServerConf defaultAuth (mkOidcServer "" "" false false) "" 0 0 0 0 0 0 "" 0 0 0 false 0 "0.0.0.0" 0 "" "" false "" "" false "" "console" "console" "" 0
    false true "" true 0 0 "" [] 0 0 false "" "" "" 0 0 [] 0 false 0.

(** The error of the port ranges is dropped. *)
Definition Convert_ServerCommonConf_To_v1 (c : ServerCommonConf) : CommonConfig.ServerConfig :=
  CommonConfig.mkServer
    (CommonConfig.mkAuthServer (AuthenticationMethod (sAuth c)) (scopes (sAuth c)) (lToken (sAuth c)) None
       (CommonConfig.mkOIDCServer (OidcIssuer (sOidc c)) (sOidcAudience (sOidc c)) (OidcSkipExpiryCheck (sOidc c)) (OidcSkipIssuerCheck (sOidc c))))
    (sBindAddr c) (sBindPort c) (sKCPBindPort c) (sQUICBindPort c) (sProxyBindAddr c) (sVhostHTTPPort c) (sVhostHTTPTimeout c) (sVhostHTTPSPort c)
    (sTCPMuxHTTPConnectPort c) (sTCPMuxPassthrough c) (sSubDomainHost c) (sCustom404Page c) (CommonConfig.mkSSH 0 "" "" "")
    (CommonConfig.mkWeb (DashboardAddr c) (DashboardPort c) (DashboardUser c) (DashboardPwd c) (sAssetsDir c)
       (if DashboardTLSMode c then sPprofEnable c else false)
       (if DashboardTLSMode c then Some (CommonConfig.mkTLS (DashboardTLSCertFile c) (DashboardTLSKeyFile c) "" "") else None))
    (sEnablePrometheus c) (CommonConfig.mkLog (sLogFile c) (sLogLevel c) (sLogMaxDays c) (sDisableLogColor c))
    (CommonConfig.mkServerTransport (Some (sTCPMux c)) (sTCPMuxKeepaliveInterval c) (sTCPKeepAlive c) (sMaxPoolCount c) (sHeartbeatTimeout c)
       (CommonConfig.mkQUIC (sQUICKeepalivePeriod c) (sQUICMaxIdleTimeout c) (sQUICMaxIncomingStreams c))
       (CommonConfig.mkTLSServer (TLSOnly c) (CommonConfig.mkTLS (sTLSCertFile c) (sTLSKeyFile c) (sTLSTrustedCaFile c) "")))
    (Some (sDetailedErrorsToClient c)) (sMaxPortsPerClient c) (sUserConnTimeout c) (sUDPPacketSize c) (sNatHoleAnalysisDataReserveHours c)
    (match PortsRange.NewPortsRangeSliceFromString (AllowPortsStr c) with Ok l => l | Err _ => [] end)
    ((λ p, CommonConfig.mkHTTPPlugin (pName p) (pAddr p) (pPath p) (pOps p) (pTLSVerify p)) <$> sHTTPPlugins c).

(** ** Proxies and visitors *)

(** [BaseProxyConf] with [LocalSvrConf] and [HealthCheckConf]. *)
Record BaseProxyConf := mkBaseConf {
  ProxyName : string; ProxyType : string; lUseEncryption : bool; lUseCompression : bool; lGroup : string; lGroupKey : string;
  lProxyProtocolVersion : string; lBandwidthLimit : BandwidthQuantity; lBandwidthLimitMode : string; Metas : smap;
  lLocalIP : string; lLocalPort : Z; lPlugin : string; PluginParams : smap;
  HealthCheckType : string; HealthCheckTimeoutS : Z; HealthCheckMaxFailed : Z; HealthCheckIntervalS : Z; HealthCheckURL : string; HealthCheckAddr : string }.

Definition zeroBaseConf : BaseProxyConf := mkBaseConf "" "" false false "" "" "" zeroQuantity "" ∅ "" 0 "" ∅ "" 0 0 0 "" "".

Record DomainConf := mkDomainConf { lCustomDomains : list string; lSubDomain : string }.
Record RoleServerCommonConf := mkRoleConf { Role : string; Sk : string; lAllowUsers : list string }.

Inductive ProxyConf :=
| TCPProxyConf (b : BaseProxyConf) (remotePort : Z)
| UDPProxyConf (b : BaseProxyConf) (remotePort : Z)
| HTTPProxyConf (b : BaseProxyConf) (d : DomainConf) (locations : list string) (httpUser httpPwd hostHeaderRewrite : string) (headers : smap)
    (routeByHTTPUser : string)
| HTTPSProxyConf (b : BaseProxyConf) (d : DomainConf)
| TCPMuxProxyConf (b : BaseProxyConf) (d : DomainConf) (httpUser httpPwd routeByHTTPUser multiplexer : string)
| STCPProxyConf (b : BaseProxyConf) (r : RoleServerCommonConf)
| XTCPProxyConf (b : BaseProxyConf) (r : RoleServerCommonConf)
| SUDPProxyConf (b : BaseProxyConf) (r : RoleServerCommonConf).

Definition GetBaseConf (c : ProxyConf) : BaseProxyConf :=
  match c with
  | TCPProxyConf b _ | UDPProxyConf b _ | HTTPProxyConf b _ _ _ _ _ _ _ | HTTPSProxyConf b _ | TCPMuxProxyConf b _ _ _ _ _
  | STCPProxyConf b _ | XTCPProxyConf b _ | SUDPProxyConf b _ => b
  end.
Definition setBaseConf (b : BaseProxyConf) (c : ProxyConf) : ProxyConf :=
  match c with
  | TCPProxyConf _ p => TCPProxyConf b p
  | UDPProxyConf _ p => UDPProxyConf b p
  | HTTPProxyConf _ d l u p h hs r => HTTPProxyConf b d l u p h hs r
  | HTTPSProxyConf _ d => HTTPSProxyConf b d
  | TCPMuxProxyConf _ d u p r m => TCPMuxProxyConf b d u p r m
  | STCPProxyConf _ r => STCPProxyConf b r
  | XTCPProxyConf _ r => XTCPProxyConf b r
  | SUDPProxyConf _ r => SUDPProxyConf b r
  end.

(** [NewConfByType] *)
Definition DefaultProxyConf (t : string) : option ProxyConf :=
  let b := zeroBaseConf in let d := mkDomainConf [] "" in let r := mkRoleConf "" "" [] in
  assoc t [ (ProxyTypeTCP, TCPProxyConf b 0); (ProxyTypeUDP, UDPProxyConf b 0); (ProxyTypeTCPMUX, TCPMuxProxyConf b d "" "" "" "");
            (ProxyTypeHTTP, HTTPProxyConf b d [] "" "" "" ∅ ""); (ProxyTypeHTTPS, HTTPSProxyConf b d); (ProxyTypeSTCP, STCPProxyConf b r);
            (ProxyTypeXTCP, XTCPProxyConf b r); (ProxyTypeSUDP, SUDPProxyConf b r) ].

Definition headerPrefix : string := "plugin_header_".
(** The keys after the prefix, those that are empty left out. *)
Definition withoutPrefix (prefix : string) (params : smap) : smap :=
  list_to_map (omap (λ kv, (λ k, (k, kv.2)) <$> Naming.CutPrefix kv.1 prefix) (map_to_list params)).
Definition transformHeadersFromPluginParams (params : smap) : HeaderOperations :=
  mkHeaderOperations (delete EmptyString (withoutPrefix headerPrefix params)).

Definition param (k : string) (params : smap) : string := default EmptyString (params !! k).

(** The options of a plugin; their own [Type] stays empty. *)
Definition convertPlugin (plugin : string) (ps : smap) : option ClientPluginOptions :=
  if decide (plugin = "http2https"%string) then
    Some (HTTP2HTTPSPluginOptions "" (param "plugin_local_addr" ps) (param "plugin_host_header_rewrite" ps) (transformHeadersFromPluginParams ps))
  else if decide (plugin = "http_proxy"%string) then Some (HTTPProxyPluginOptions "" (param "plugin_http_user" ps) (param "plugin_http_passwd" ps))
  else if decide (plugin = "https2http"%string) then
    Some (HTTPS2HTTPPluginOptions "" (param "plugin_local_addr" ps) (param "plugin_host_header_rewrite" ps) (transformHeadersFromPluginParams ps) None
            (param "plugin_crt_path" ps) (param "plugin_key_path" ps))
  else if decide (plugin = "https2https"%string) then
    Some (HTTPS2HTTPSPluginOptions "" (param "plugin_local_addr" ps) (param "plugin_host_header_rewrite" ps) (transformHeadersFromPluginParams ps) None
            (param "plugin_crt_path" ps) (param "plugin_key_path" ps))
  else if decide (plugin = "socks5"%string) then Some (Socks5PluginOptions "" (param "plugin_user" ps) (param "plugin_passwd" ps))
  else if decide (plugin = "static_file"%string) then
    Some (StaticFilePluginOptions "" (param "plugin_local_path" ps) (param "plugin_strip_prefix" ps) (param "plugin_http_user" ps) (param "plugin_http_passwd" ps))
  else if decide (plugin = "unix_domain_socket"%string) then Some (UnixDomainSocketPluginOptions "" (param "plugin_unix_path" ps))
  else None.

Definition Convert_ProxyConf_To_v1_Base (c : ProxyConf) : ProxyBaseConfig :=
  let b := GetBaseConf c in
  mkBase (ProxyName b) (ProxyType b) None ∅
    (mkTransport (lUseEncryption b) (lUseCompression b) (lBandwidthLimit b) (lBandwidthLimitMode b) (lProxyProtocolVersion b)) (Metas b)
    (mkLoadBalancer (lGroup b) (lGroupKey b))
    (mkHealthCheck (HealthCheckType b) (HealthCheckTimeoutS b) (HealthCheckMaxFailed b) (HealthCheckIntervalS b) (HealthCheckURL b) [])
    (lLocalIP b) (lLocalPort b) (mkPlugin (lPlugin b) (convertPlugin (lPlugin b) (PluginParams b))).

Definition Convert_ProxyConf_To_v1 (c : ProxyConf) : ProxyConfigurer :=
  let b := Convert_ProxyConf_To_v1_Base c in
  let dom (d : DomainConf) := mkDomain (lCustomDomains d) (lSubDomain d) in
  match c with
  | TCPProxyConf _ p => TCPProxyConfig b p
  | UDPProxyConf _ p => UDPProxyConfig b p
  | HTTPProxyConf _ d l u p h hs r => HTTPProxyConfig b (dom d) l u p h (mkHeaderOperations hs) (mkHeaderOperations ∅) r
  | HTTPSProxyConf _ d => HTTPSProxyConfig b (dom d)
  | TCPMuxProxyConf _ d u p r m => TCPMuxProxyConfig b (dom d) u p r m
  | STCPProxyConf _ r => STCPProxyConfig b (Sk r) (lAllowUsers r)
  | SUDPProxyConf _ r => SUDPProxyConfig b (Sk r) (lAllowUsers r)
  | XTCPProxyConf _ r => XTCPProxyConfig b (Sk r) (lAllowUsers r) None
  end.

Record BaseVisitorConf := mkVisitorConf {
  vProxyName : string; vProxyType : string; vUseEncryption : bool; vUseCompression : bool; vRole : string; vSk : string; vServerUser : string;
  vServerName : string; vBindAddr : string; vBindPort : Z }.
Inductive VisitorConf :=
| STCPVisitorConf (b : BaseVisitorConf)
| SUDPVisitorConf (b : BaseVisitorConf)
| XTCPVisitorConf (b : BaseVisitorConf) (protocol : string) (keepTunnelOpen : bool) (maxRetriesAnHour minRetryInterval : Z) (fallbackTo : string)
    (fallbackTimeoutMs : Z).
Definition GetBaseVisitorConf (c : VisitorConf) : BaseVisitorConf :=
  match c with STCPVisitorConf b | SUDPVisitorConf b | XTCPVisitorConf b _ _ _ _ _ _ => b end.

Definition Convert_VisitorConf_To_v1_Base (c : VisitorConf) : VisitorBaseConfig :=
  let b := GetBaseVisitorConf c in
  mkVisitorBase (vProxyName b) (vProxyType b) None (mkVisitorTransport (vUseEncryption b) (vUseCompression b)) (vSk b) (vServerUser b) (vServerName b)
    (vBindAddr b) (vBindPort b) (mkVisitorPlugin "" None).
Definition Convert_VisitorConf_To_v1 (c : VisitorConf) : VisitorConfigurer :=
  let b := Convert_VisitorConf_To_v1_Base c in
  match c with
  | STCPVisitorConf _ => STCPVisitorConfig b
  | SUDPVisitorConf _ => SUDPVisitorConfig b
  | XTCPVisitorConf _ p k r i f t => XTCPVisitorConfig b p k r i f t None
  end.

(** ** What the conversion keeps *)

(** Without the settings that have no counterpart. *)
Definition keptClient (c : ClientCommonConf) : ClientCommonConf :=
  mkClientConf (cAuth c) (cOidc c) (cServerAddr c) (cServerPort c) (cNatHoleSTUNServer c) (cDialServerTimeout c) (cDialServerKeepAlive c)
    (cConnectServerLocalIP c) (HTTPProxy c) (LogFile c) "" (LogLevel c) (LogMaxDays c) (DisableLogColor c) (AdminAddr c) (AdminPort c) (AdminUser c)
    (AdminPwd c) (cAssetsDir c) (cPoolCount c) (cTCPMux c) (cTCPMuxKeepaliveInterval c) (cUser c) (cDNSServer c) (cLoginFailExit c) (cStart c) (cProtocol c)
    (QUICKeepalivePeriod c) (QUICMaxIdleTimeout c) (QUICMaxIncomingStreams c) (TLSEnable c) (TLSCertFile c) (TLSKeyFile c) (TLSTrustedCaFile c)
    (TLSServerName c) (cDisableCustomTLSFirstByte c) (cHeartbeatInterval c) (cHeartbeatTimeout c) (cMetas c) (cUDPPacketSize c) (cIncludeConfigFiles c)
    (cPprofEnable c).
Definition keptBase (b : BaseProxyConf) : BaseProxyConf :=
  mkBaseConf (ProxyName b) (ProxyType b) (lUseEncryption b) (lUseCompression b) (lGroup b) (lGroupKey b) (lProxyProtocolVersion b) (lBandwidthLimit b)
    (lBandwidthLimitMode b) (Metas b) (lLocalIP b) (lLocalPort b) (lPlugin b) ∅ (HealthCheckType b) (HealthCheckTimeoutS b) (HealthCheckMaxFailed b)
    (HealthCheckIntervalS b) (HealthCheckURL b) "".
Definition keptProxy (c : ProxyConf) : ProxyConf :=
  match setBaseConf (keptBase (GetBaseConf c)) c with
  | STCPProxyConf b r => STCPProxyConf b (mkRoleConf "" (Sk r) (lAllowUsers r))
  | XTCPProxyConf b r => XTCPProxyConf b (mkRoleConf "" (Sk r) (lAllowUsers r))
  | SUDPProxyConf b r => SUDPProxyConf b (mkRoleConf "" (Sk r) (lAllowUsers r))
  | c => c
  end.

Lemma scopes_inj a b : scopes a = scopes b → AuthenticateHeartBeats a = AuthenticateHeartBeats b ∧ AuthenticateNewWorkConns a = AuthenticateNewWorkConns b.
Proof. unfold scopes. by destruct (AuthenticateHeartBeats a), (AuthenticateNewWorkConns a), (AuthenticateHeartBeats b), (AuthenticateNewWorkConns b). Qed.

Lemma auth_inj (a b : AuthBase) :
  AuthenticationMethod a = AuthenticationMethod b → scopes a = scopes b → lToken a = lToken b → a = b.
Proof. intros H1 H2%scopes_inj H3. destruct a, b; simpl in *. by destruct H2; subst. Qed.

Lemma client_kept a b : Convert_ClientCommonConf_To_v1 a = Convert_ClientCommonConf_To_v1 b → keptClient a = keptClient b.
Proof.
  destruct a as [au oi], b as [au' oi']; destruct oi, oi'. unfold Convert_ClientCommonConf_To_v1, keptClient; simpl. intros E.
  injection E; intros; simplify_eq. f_equal. by apply auth_inj.
Qed.

Definition keptServer (c : ServerCommonConf) : ServerCommonConf :=
  let tls := DashboardTLSMode c in
  mkServerConf (sAuth c) (sOidc c) (sBindAddr c) (sBindPort c) (sKCPBindPort c) (sQUICBindPort c) (sQUICKeepalivePeriod c) (sQUICMaxIdleTimeout c)
    (sQUICMaxIncomingStreams c) (sProxyBindAddr c) (sVhostHTTPPort c) (sVhostHTTPSPort c) (sTCPMuxHTTPConnectPort c) (sTCPMuxPassthrough c)
    (sVhostHTTPTimeout c) (DashboardAddr c) (DashboardPort c) (if tls then DashboardTLSCertFile c else "") (if tls then DashboardTLSKeyFile c else "") tls
    (DashboardUser c) (DashboardPwd c) (sEnablePrometheus c) (sAssetsDir c) (sLogFile c) "" (sLogLevel c) (sLogMaxDays c) (sDisableLogColor c)
    (sDetailedErrorsToClient c) (sSubDomainHost c) (sTCPMux c) (sTCPMuxKeepaliveInterval c) (sTCPKeepAlive c) (sCustom404Page c) [] (sMaxPoolCount c)
    (sMaxPortsPerClient c) (TLSOnly c) (sTLSCertFile c) (sTLSKeyFile c) (sTLSTrustedCaFile c) (sHeartbeatTimeout c) (sUserConnTimeout c) (sHTTPPlugins c)
    (sUDPPacketSize c) (if tls then sPprofEnable c else false) (sNatHoleAnalysisDataReserveHours c).

Lemma plugins_inj (l l' : list HTTPPluginOptions) :
  ((λ p, CommonConfig.mkHTTPPlugin (pName p) (pAddr p) (pPath p) (pOps p) (pTLSVerify p)) <$> l) =
  ((λ p, CommonConfig.mkHTTPPlugin (pName p) (pAddr p) (pPath p) (pOps p) (pTLSVerify p)) <$> l') → l = l'.
Proof. apply list_fmap_eq_inj. intros [] []; simpl. intros [= -> -> -> -> ->]. done. Qed.

Lemma server_kept a b : Convert_ServerCommonConf_To_v1 a = Convert_ServerCommonConf_To_v1 b → keptServer a = keptServer b.
Proof.
  intros E. assert (Ha : sAuth a = sAuth b) by (injection E; intros; by apply auth_inj).
  assert (Ho : sOidc a = sOidc b) by (injection E; intros; destruct (sOidc a), (sOidc b); simpl in *; congruence).
  assert (Hp : sHTTPPlugins a = sHTTPPlugins b) by (injection E; intros; by apply plugins_inj).
  injection E; intros. unfold keptServer. destruct (DashboardTLSMode a), (DashboardTLSMode b); simplify_eq; by f_equal.
Qed.

Lemma base_kept a b : Convert_ProxyConf_To_v1_Base a = Convert_ProxyConf_To_v1_Base b → keptBase (GetBaseConf a) = keptBase (GetBaseConf b).
Proof. unfold Convert_ProxyConf_To_v1_Base, keptBase. intros E. injection E; intros. by f_equal. Qed.

Lemma proxy_kept a b : Convert_ProxyConf_To_v1 a = Convert_ProxyConf_To_v1 b → keptProxy a = keptProxy b.
Proof.
  intros E. assert (Hb : keptBase (GetBaseConf a) = keptBase (GetBaseConf b)).
  { apply base_kept. apply (f_equal GetBaseConfig) in E. by destruct a, b. }
  unfold keptProxy. rewrite Hb. clear Hb. generalize (keptBase (GetBaseConf b)); intros kb.
  destruct a, b; simpl in *; try discriminate; injection E; intros; clear E; repeat match goal with d : DomainConf |- _ => destruct d end; simpl in *; congruence.
Qed.

(** converting old settings loses none that has a counterpart.  Two configurations in the
    old format with the same conversion agree: clients and servers in every setting but the
    way of logging, which the log file replaced, the text of the port ranges, and the
    settings of the dashboard's TLS and of profiling when that TLS is off; proxies in their
    type and every setting but the role, which their type says, and the parameters their
    plugin does not use. *)
Theorem legacy_settings_kept :
  (∀ a b, Convert_ClientCommonConf_To_v1 a = Convert_ClientCommonConf_To_v1 b → keptClient a = keptClient b) ∧
  (∀ a b, Convert_ServerCommonConf_To_v1 a = Convert_ServerCommonConf_To_v1 b → keptServer a = keptServer b) ∧
  (∀ a b, Convert_ProxyConf_To_v1 a = Convert_ProxyConf_To_v1 b → keptProxy a = keptProxy b).
Proof. split_and!; [apply client_kept|apply server_kept|apply proxy_kept]. Qed.

(** Profiling of the server is lost without TLS. *)
Example pprof_lost c : DashboardTLSMode c = false → CommonConfig.PprofEnable (CommonConfig.sWebServer (Convert_ServerCommonConf_To_v1 c)) = false.
Proof. intros H. simpl. by rewrite H. Qed.

(** Port ranges with an error allow every port. *)
Example bad_ranges_allow_all c : AllowPortsStr c = ofStr "2000-3000,4o00" →
  Ports.allowedPorts (CommonConfig.AllowPorts (Convert_ServerCommonConf_To_v1 c)) = Ports.allowedPorts [].
Proof.
  intros H. f_equal. unfold Convert_ServerCommonConf_To_v1. cbn [CommonConfig.AllowPorts]. rewrite H.
  replace (PortsRange.NewPortsRangeSliceFromString _) with (@Err PortsRange.error (list Ports.PortsRange) PortsRange.ErrNumber) by (symmetry; vm_compute; reflexivity).
  reflexivity.
Qed.
End Legacy.

(** ** Sections of a file: [client.go], [proxy.go], [visitor.go], [utils.go] *)
Module Ini.
Import Config Legacy.

(** A section with its keys, as [KeysHash] has them; a file is its sections in order. *)
Record section := mkSection { sName : string; keys : smap }.
Definition file := list section.
Definition key (k : string) (s : section) : string := default EmptyString (keys s !! k).

Definition GetMapWithoutPrefix (set : smap) (prefix : string) : smap := withoutPrefix prefix set.
Definition GetMapByPrefix (set : smap) (prefix : string) : smap := filter (λ kv, is_Some (Naming.CutPrefix kv.1 prefix)) set.

Inductive error := ErrPortsEmpty | ErrNumbers | ErrLength | ErrNoPorts | ErrNewSection | ErrType (t : string) | ErrMap | ErrBandwidth | ErrRole (name : string).

(** *** [util.ParseRangeNumbers] *)

Definition parseNumbers (l : chars) : res error (list Z) :=
  match Split "-"%char l with
  | [x] => match Atoi (TrimSpace x) with Some n => Ok [n] | None => Err ErrNumbers end
  | [x; y] =>
      match Atoi (TrimSpace x), Atoi (TrimSpace y) with
      | Some lo, Some hi => if hi <? lo then Err ErrNumbers else Ok (seqZ lo (hi - lo + 1))
      | _, _ => Err ErrNumbers
      end
  | _ => Err ErrNumbers
  end.
Fixpoint parseAllNumbers (ls : list chars) : res error (list Z) :=
  match ls with
  | [] => Ok []
  | l :: ls => let? ns := parseNumbers l in let? rest := parseAllNumbers ls in Ok (ns ++ rest)
  end.
Definition ParseRangeNumbers (s : string) : res error (list Z) := parseAllNumbers (Split ","%char (TrimSpace (ofStr s))).

(** *** Ranges: [renderRangeProxyTemplates] *)

Definition rangePrefix : string := "range:".
Definition isRange (name : string) : bool := match Naming.CutPrefix name rangePrefix with Some _ => true | None => false end.
Definition str (l : chars) : string := String.string_of_list_ascii l.
Definition rangeName (prefix : string) (i : nat) : string := prefix +:+ "_" +:+ str (Itoa (Z.of_nat i)).

Section ini.
(** [File.NewSection] *)
Context (NewSection : string → file → option file).

(** [NewKey] on the section of a name; a key that is there gets the value. *)
Definition setKeys (name : string) (more : smap) (f : file) : file :=
  (λ s, if decide (sName s = name) then mkSection (sName s) (more ∪ keys s) else s) <$> f.

(** The keys of a section that is made from a range: those of the range, then its ports. *)
Definition rangeKeys (src : smap) (localPort remotePort : Z) : smap :=
  <[ "remote_port"%string := str (Itoa remotePort) ]> (<[ "local_port"%string := str (Itoa localPort) ]> src).

Fixpoint renderPorts (prefix : string) (src : smap) (i : nat) (ports : list (Z * Z)) (f : file) : res error file :=
  match ports with
  | [] => Ok f
  | (l, r) :: ports =>
      match NewSection (rangeName prefix i) f with
      | None => Err ErrNewSection
      | Some f => renderPorts prefix src (S i) ports (setKeys (rangeName prefix i) (rangeKeys src l r) f)
      end
  end.

Definition renderRangeProxyTemplates (s : section) (f : file) : res error file :=
  let localPortStr := key "local_port" s in
  let remotePortStr := key "remote_port" s in
  if decide (localPortStr = EmptyString ∨ remotePortStr = EmptyString) then Err ErrPortsEmpty
  else
    let? localPorts := ParseRangeNumbers localPortStr in
    let? remotePorts := ParseRangeNumbers remotePortStr in
    if negb (length localPorts =? length remotePorts)%nat then Err ErrLength
    else if (length localPorts =? 0)%nat then Err ErrNoPorts
    else
      let prefix := str (TrimSpace (ofStr (default (sName s) (Naming.CutPrefix (sName s) rangePrefix)))) in
      renderPorts prefix (keys s) 0 (zip localPorts remotePorts) f.

Fixpoint renderAll (ranges : list section) (f : file) : res error file :=
  match ranges with [] => Ok f | s :: ranges => let? f := renderRangeProxyTemplates s f in renderAll ranges f end.

(** *** Proxies and visitors *)

(** [Section.MapTo] on a configuration; [strconv.ParseFloat] for quantities. *)
Context (mapProxy : section → ProxyConf → option ProxyConf) (mapVisitor : section → VisitorConf → option VisitorConf).
Context (parseQuantity : chars → Z → option Z).

Definition decorate (name : string) (s : section) (b : BaseProxyConf) : res error BaseProxyConf :=
  let? q := match keys s !! "bandwidth_limit"%string with
            | None => Ok (lBandwidthLimit b)
            | Some v => match NewBandwidthQuantity parseQuantity (ofStr v) with Ok q => Ok q | Err _ => Err ErrBandwidth end
            end in
  Ok (mkBaseConf name (ProxyType b) (lUseEncryption b) (lUseCompression b) (lGroup b) (lGroupKey b) (lProxyProtocolVersion b) q
        (lBandwidthLimitMode b) (GetMapWithoutPrefix (keys s) "meta_") (lLocalIP b) (lLocalPort b) (lPlugin b) (GetMapByPrefix (keys s) "plugin_")
        (HealthCheckType b) (HealthCheckTimeoutS b) (HealthCheckMaxFailed b) (HealthCheckIntervalS b) (HealthCheckURL b) (HealthCheckAddr b)).

Definition preUnmarshalFromIni (name : string) (s : section) (c : ProxyConf) : res error ProxyConf :=
  match mapProxy s c with
  | None => Err ErrMap
  | Some c => let? b := decorate name s (GetBaseConf c) in Ok (setBaseConf b c)
  end.

Definition serverRole (r : RoleServerCommonConf) : RoleServerCommonConf :=
  mkRoleConf (if decide (Role r = EmptyString) then "server"%string else Role r) (Sk r) (lAllowUsers r).

(** [UnmarshalFromIni] of the types. *)
Definition UnmarshalFromIni (name : string) (s : section) (c : ProxyConf) : res error ProxyConf :=
  let? c := preUnmarshalFromIni name s c in
  Ok match c with
     | HTTPProxyConf b d l u p h _ r => HTTPProxyConf b d l u p h (GetMapWithoutPrefix (keys s) "header_") r
     | STCPProxyConf b r => STCPProxyConf b (serverRole r)
     | XTCPProxyConf b r => XTCPProxyConf b (serverRole r)
     | c => c
     end.

Definition NewProxyConfFromIni (name : string) (s : section) : res error ProxyConf :=
  let t := if decide (key "type" s = EmptyString) then ProxyTypeTCP else key "type" s in
  match DefaultProxyConf t with None => Err (ErrType t) | Some c => UnmarshalFromIni name s c end.

Definition zeroVisitorConf : BaseVisitorConf := mkVisitorConf "" "" false false "" "" "" "" "" 0.
Definition DefaultVisitorConf (t : string) : option VisitorConf :=
  assoc t [ ("stcp", STCPVisitorConf zeroVisitorConf); ("xtcp", XTCPVisitorConf zeroVisitorConf "" false 0 0 "" 0); ("sudp", SUDPVisitorConf zeroVisitorConf) ]%string.

Definition visitorBase (name : string) (b : BaseVisitorConf) : BaseVisitorConf :=
  mkVisitorConf name (vProxyType b) (vUseEncryption b) (vUseCompression b) (vRole b) (vSk b) (vServerUser b) (vServerName b)
    (if decide (vBindAddr b = EmptyString) then "127.0.0.1"%string else vBindAddr b) (vBindPort b).

Definition positiveOr (v fallback : Z) : Z := if v <=? 0 then fallback else v.

Definition visitorFromIni (name : string) (s : section) (c : VisitorConf) : res error VisitorConf :=
  match mapVisitor s c with
  | None => Err ErrMap
  | Some (STCPVisitorConf b) => Ok (STCPVisitorConf (visitorBase name b))
  | Some (SUDPVisitorConf b) => Ok (SUDPVisitorConf (visitorBase name b))
  | Some (XTCPVisitorConf b p k r i f t) =>
      Ok (XTCPVisitorConf (visitorBase name b) (if decide (p = EmptyString) then "quic"%string else p) k (positiveOr r 8) (positiveOr i 90) f (positiveOr t 1000))
  end.

Definition NewVisitorConfFromIni (name : string) (s : section) : res error VisitorConf :=
  let t := key "type" s in
  if decide (t = EmptyString) then Err (ErrType t)
  else match DefaultVisitorConf t with
  | None => Err (ErrType t)
  | Some c => match visitorFromIni name s c with Ok c => Ok c | Err _ => Err (ErrType t) end
  end.

(** *** [LoadAllProxyConfsFromIni] *)

Definition wanted (start : list string) (s : section) : bool :=
  negb (bool_decide (sName s = "DEFAULT"%string) || bool_decide (sName s = "common"%string) || isRange (sName s))
  && (bool_decide (start = []) || bool_decide (sName s ∈ start)).
Definition role (s : section) : string := if decide (key "role" s = EmptyString) then "server"%string else key "role" s.

Abbreviation confs := (gmap string ProxyConf * gmap string VisitorConf)%type.

Fixpoint loadSections (prefix : string) (start : list string) (f : file) (acc : confs) : res error confs :=
  match f with
  | [] => Ok acc
  | s :: f =>
      if negb (wanted start s) then loadSections prefix start f acc
      else if decide (role s = "server"%string) then
        let? c := NewProxyConfFromIni (sName s) s in loadSections prefix start f (<[ prefix +:+ sName s := c ]> acc.1, acc.2)
      else if decide (role s = "visitor"%string) then
        let? c := NewVisitorConfFromIni (sName s) s in loadSections prefix start f (acc.1, <[ prefix +:+ sName s := c ]> acc.2)
      else Err (ErrRole (sName s))
  end.

Definition LoadAllProxyConfsFromIni (prefix : string) (f : file) (start : list string) : res error confs :=
  let prefix := if decide (prefix = EmptyString) then EmptyString else prefix +:+ "." in
  let? f := renderAll (filter (λ s, isRange (sName s) = true) f) f in
  loadSections prefix start f (∅, ∅).

(** A section that is not there is made empty, at the end. *)
Context (new_absent : ∀ name f, name ∉ sName <$> f → NewSection name f = Some (f ++ [mkSection name ∅])).

Lemma setKeys_absent name more f : name ∉ sName <$> f → setKeys name more (f ++ [mkSection name ∅]) = f ++ [mkSection name more].
Proof using Type.
  clear. intros Hn. unfold setKeys. rewrite fmap_app. simpl. rewrite decide_True by done. rewrite (right_id_L ∅ (∪)). f_equal.
  rewrite <-(list_fmap_id f) at 2. apply list_fmap_ext. intros i s Hs. rewrite decide_False; [done|]. intros <-. apply Hn.
  apply list_elem_of_fmap. exists s. split; [done|]. by eapply list_elem_of_lookup_2.
Qed.

Lemma rangeName_inj prefix i j : rangeName prefix i = rangeName prefix j → i = j.
Proof using Type.
  clear. unfold rangeName. intros H%(f_equal ofStr). rewrite !ofStr_app in H. do 2 apply app_inv_head in H. unfold ofStr, str in H.
  rewrite !String.list_ascii_of_string_of_list_ascii in H. apply (f_equal (digits 0)) in H.
  destruct (Itoa_digits (Z.of_nat i)) as [Hi _]; [lia|]. rewrite Hi in H. destruct (Itoa_digits (Z.of_nat j)) as [Hj _]; [lia|]. rewrite Hj in H. injection H. lia.
Qed.

Definition rangeSection (prefix : string) (src : smap) (i : nat) (p : Z * Z) : section := mkSection (rangeName prefix i) (rangeKeys src p.1 p.2).

Lemma renderPorts_absent prefix src ports : ∀ i f,
  (∀ j, (i ≤ j < i + length ports)%nat → rangeName prefix j ∉ sName <$> f) →
  renderPorts prefix src i ports f = Ok (f ++ imap (λ j, rangeSection prefix src (i + j)) ports).
Proof using new_absent.
  clear mapProxy mapVisitor parseQuantity. induction ports as [|[l r] ports IH]; intros i f Hn; simpl; [by rewrite app_nil_r|].
  rewrite new_absent by (apply Hn; simpl; lia). rewrite setKeys_absent by (apply Hn; simpl; lia). rewrite IH.
  - rewrite <-app_assoc. simpl. f_equal. f_equal. f_equal; [by rewrite Nat.add_0_r|]. apply imap_ext. intros j x _. simpl. f_equal. lia.
  - intros j Hj. rewrite fmap_app, elem_of_app. simpl. intros [Hin|Hin%list_elem_of_singleton].
    + by apply (Hn j); [simpl; lia|].
    + apply rangeName_inj in Hin. lia.
Qed.

(** a range stands for one proxy per port.  When its local and remote ports can be read
    and are equally many, and no section has one of the names, the file gets one section
    for each pair of ports, in order and numbered from 0, with the keys of the range except
    that its ports are the pair; otherwise the range is refused. *)
Theorem range_expanded s f :
  let prefix := str (TrimSpace (ofStr (default (sName s) (Naming.CutPrefix (sName s) rangePrefix)))) in
  match ParseRangeNumbers (key "local_port" s), ParseRangeNumbers (key "remote_port" s) with
  | Ok ls, Ok rs =>
      length ls = length rs → ls ≠ [] → (∀ i, (i < length ls)%nat → rangeName prefix i ∉ sName <$> f) →
      renderRangeProxyTemplates s f = Ok (f ++ imap (rangeSection prefix (keys s)) (zip ls rs))
  | _, _ => ∃ e, renderRangeProxyTemplates s f = Err e
  end.
Proof using new_absent.
  clear mapProxy mapVisitor parseQuantity. cbv zeta. unfold renderRangeProxyTemplates.
  assert (Hempty : ParseRangeNumbers EmptyString = Err ErrNumbers) by by vm_compute.
  destruct (decide (key "local_port" s = EmptyString ∨ key "remote_port" s = EmptyString)) as [He|He].
  { destruct He as [He|He]; rewrite He, Hempty; [by eexists|]. destruct (ParseRangeNumbers (key "local_port" s)); by eexists. }
  destruct (ParseRangeNumbers (key "local_port" s)) as [ls|e]; [|by eexists]. simpl.
  destruct (ParseRangeNumbers (key "remote_port" s)) as [rs|e]; [|by eexists]. simpl. intros Hl Hne Hn.
  rewrite (proj2 (Nat.eqb_eq _ _) Hl). simpl. destruct (Nat.eqb_spec (length ls) 0); [by destruct ls|].
  rewrite renderPorts_absent; [by rewrite Nat.add_0_l || done|]. intros j Hj. apply Hn. rewrite length_zip in Hj. lia.
Qed.

Lemma proxy_named name s c : NewProxyConfFromIni name s = Ok c → ProxyName (GetBaseConf c) = name.
Proof using Type.
  clear NewSection mapVisitor new_absent. unfold NewProxyConfFromIni, UnmarshalFromIni, preUnmarshalFromIni, decorate.
  destruct (DefaultProxyConf _) as [c0|]; [|done]. destruct (mapProxy s c0) as [c1|]; [|done]. simpl.
  destruct (match keys s !! "bandwidth_limit"%string with Some _ => _ | None => _ end) as [q|]; [|done]. simpl. intros [= <-]. by destruct c1.
Qed.
Lemma visitor_named name s c : NewVisitorConfFromIni name s = Ok c → vProxyName (GetBaseVisitorConf c) = name.
Proof using Type.
  clear NewSection mapProxy parseQuantity new_absent. unfold NewVisitorConfFromIni, visitorFromIni. case_decide; [done|].
  destruct (DefaultVisitorConf _) as [c0|]; [|done]. destruct (mapVisitor s c0) as [[]|]; try done; by intros [= <-].
Qed.

(** What holds of the rest of the file holds of the whole one. *)
Ltac from_rest H := intros ?k ?c [?Hk|(?t & ?Ht & ?Hrest)]%H; [by left|right; exists t; split; [by right|exact Hrest]].

(** the sections of an old file become proxies and visitors one by one.  When a file is
    loaded, the proxies are those of the sections that are wanted and have the role of a
    server, each under its name with the prefix of the user and with the name of its
    section, and every such section has one; the same for visitors; and every wanted
    section has one of the two roles. *)
Theorem sections_loaded prefix start f : ∀ acc ps vs,
  loadSections prefix start f acc = Ok (ps, vs) →
  (∀ k c, ps !! k = Some c → acc.1 !! k = Some c ∨
     ∃ s, s ∈ f ∧ wanted start s = true ∧ role s = "server"%string ∧ k = prefix +:+ sName s ∧ ProxyName (GetBaseConf c) = sName s) ∧
  (∀ k c, vs !! k = Some c → acc.2 !! k = Some c ∨
     ∃ s, s ∈ f ∧ wanted start s = true ∧ role s = "visitor"%string ∧ k = prefix +:+ sName s ∧ vProxyName (GetBaseVisitorConf c) = sName s) ∧
  (∀ s, s ∈ f → wanted start s = true →
     role s = "server"%string ∧ is_Some (ps !! (prefix +:+ sName s)) ∨ role s = "visitor"%string ∧ is_Some (vs !! (prefix +:+ sName s))) ∧
  (∀ k, is_Some (acc.1 !! k) → is_Some (ps !! k)) ∧ (∀ k, is_Some (acc.2 !! k) → is_Some (vs !! k)).
Proof using Type.
  clear NewSection new_absent. induction f as [|s f IH]; intros acc ps vs; simpl; [intros [= ->]; split_and!; auto; set_solver|].
  destruct (wanted start s) eqn:Hw; simpl; [|intros H; destruct (IH _ _ _ H) as (H1 & H2 & H3 & H4 & H5); split_and!; auto; [from_rest H1|from_rest H2|]; intros t [->|]%elem_of_cons; [congruence|auto]].
  case_decide as Hr; [|case_decide as Hr'; [|done]].
  - destruct (NewProxyConfFromIni _ s) as [c|] eqn:Hc; [|done]. simpl. intros H. destruct (IH _ _ _ H) as (H1 & H2 & H3 & H4 & H5). simpl in *.
    apply proxy_named in Hc. split_and!; auto.
    + intros k c'. intros [Hk|(t & ? & ?)]%H1; [|right; exists t; split; [by right|done]]. rewrite lookup_insert in Hk. case_decide; [|by left].
      simplify_eq. right. exists s. split_and!; try done. by left.
    + from_rest H2.
    + intros t [->|Ht]%elem_of_cons Htw; [|auto]. left. split; [done|]. apply H4. by rewrite lookup_insert, decide_True.
    + intros k Hk. apply H4. rewrite lookup_insert. by case_decide.
  - destruct (NewVisitorConfFromIni _ s) as [c|] eqn:Hc; [|done]. simpl. intros H. destruct (IH _ _ _ H) as (H1 & H2 & H3 & H4 & H5). simpl in *.
    apply visitor_named in Hc. split_and!; auto.
    + from_rest H1.
    + intros k c'. intros [Hk|(t & ? & ?)]%H2; [|right; exists t; split; [by right|done]]. rewrite lookup_insert in Hk. case_decide; [|by left].
      simplify_eq. right. exists s. split_and!; try done. by left.
    + intros t [->|Ht]%elem_of_cons Htw; [|auto]. right. split; [done|]. apply H5. by rewrite lookup_insert, decide_True.
    + intros k Hk. apply H5. rewrite lookup_insert. by case_decide.
Qed.
End ini.

(** *** Concrete runs *)

Definition demoNew (name : string) (f : file) : option file := if decide (name ∈ sName <$> f) then Some f else Some (f ++ [mkSection name ∅]).
Lemma demoNew_absent name f : name ∉ sName <$> f → demoNew name f = Some (f ++ [mkSection name ∅]).
Proof. intros H. unfold demoNew. by rewrite decide_False. Qed.

Definition demoRange : section := mkSection "range:ssh" {[ "local_port" := "22,80-81"; "remote_port" := "6000-6002"; "type" := "tcp" ]}%string.

Lemma range_expanded_witness : renderRangeProxyTemplates demoNew demoRange [demoRange] = Ok ([demoRange] ++ imap (rangeSection "ssh" (keys demoRange)) [(22, 6000); (80, 6001); (81, 6002)]).
Proof.
  pose proof (range_expanded demoNew demoNew_absent demoRange [demoRange]) as H.
  replace (ParseRangeNumbers (key "local_port" demoRange)) with (@Ok error _ [22; 80; 81]) in H by (symmetry; vm_compute; reflexivity).
  replace (ParseRangeNumbers (key "remote_port" demoRange)) with (@Ok error _ [6000; 6001; 6002]) in H by (symmetry; vm_compute; reflexivity).
  apply H; [reflexivity|discriminate|]. intros i Hi. simpl. rewrite list_elem_of_singleton. unfold rangeName. intros E. apply (f_equal (String.get 0)) in E. discriminate E.
Defined.

Definition demoLoaded : res error (gmap string ProxyConf * gmap string VisitorConf) := loadSections (λ _ c, Some c) (λ _ c, Some c) (λ _ _, None) "u." [] [mkSection "a" ∅; mkSection "common" ∅] (∅, ∅).

Lemma sections_loaded_witness : match demoLoaded with Ok (ps, _) => is_Some (ps !! "u.a"%string) | Err _ => False end.
Proof.
  destruct demoLoaded as [[ps vs]|] eqn:E; [|vm_compute in E; discriminate E].
  destruct (sections_loaded (λ _ c, Some c) (λ _ c, Some c) (λ _ _, None) "u." [] [mkSection "a" ∅; mkSection "common" ∅] (∅, ∅) ps vs E) as (_ & _ & H & _).
  destruct (H (mkSection "a" ∅)) as [[_ Ha]|[Hr _]]; [left|reflexivity|exact Ha|discriminate].
Defined.
End Ini.

(** ** What is read at the start: [load.go] *)
Module Load.
Import Config Source ClientService.

Record ClientConfig := mkClientConfig { ccCommon : CommonConfig.ClientCommonConfig; ccProxies : list ProxyConfigurer; ccVisitors : list VisitorConfigurer }.

Inductive error := ErrRead | ErrLegacy | ErrDecode (file : string) | ErrDir | ErrDuplicateProxy (name : string) | ErrDuplicateVisitor (name : string) | ErrSources (e : Source.error).

(** [detectFormatFromPath] on the extension in lower case. *)
Definition detectFormatFromPath (ext : string) : string :=
  if decide (ext = ".toml"%string) then "toml"
  else if decide (ext = ".yaml"%string ∨ ext = ".yml"%string) then "yaml"
  else if decide (ext = ".json"%string) then "json" else "".

(** [validateNoDuplicateNames]: the first name that was there before. *)
Fixpoint firstDuplicate (seen : gset string) (names : list string) : option string :=
  match names with
  | [] => None
  | n :: names => if decide (n ∈ seen) then Some n else firstDuplicate ({[ n ]} ∪ seen) names
  end.
Definition validateNoDuplicateNames (ps : list ProxyConfigurer) (vs : list VisitorConfigurer) : res error unit :=
  match firstDuplicate ∅ (cfgName <$> ps) with
  | Some n => Err (ErrDuplicateProxy n)
  | None => match firstDuplicate ∅ (cfgName <$> vs) with Some n => Err (ErrDuplicateVisitor n) | None => Ok () end
  end.

Section load.
(** Directories: of a path, whether it is missing, its files without the directories, and
    whether a file matches a path; decoding of a file in the current format; whether a file
    is in the old format, and what is read from it, with the proxies in the order of the map. *)
Context (absDir : string → option string) (notExist : string → bool) (readDir : string → option (list string)) (matches : string → string → bool).
Context (loadConfigure : string → option ClientConfig) (isLegacy : string → bool).
Context (parseLegacy : string → option (Legacy.ClientCommonConf * list Legacy.ProxyConf * list Legacy.VisitorConf)).
Context (loadServer : string → option CommonConfig.ServerConfig) (parseLegacyServer : string → option Legacy.ServerCommonConf).

Fixpoint loadFiles (files : list string) (acc : list ProxyConfigurer * list VisitorConfigurer) : res error (list ProxyConfigurer * list VisitorConfigurer) :=
  match files with
  | [] => Ok acc
  | f :: files =>
      match loadConfigure f with
      | None => Err (ErrDecode f)
      | Some c => loadFiles files (acc.1 ++ ccProxies c, acc.2 ++ ccVisitors c)
      end
  end.
Fixpoint LoadAdditionalClientConfigs (paths : list string) (acc : list ProxyConfigurer * list VisitorConfigurer)
    : res error (list ProxyConfigurer * list VisitorConfigurer) :=
  match paths with
  | [] => Ok acc
  | path :: paths =>
      match absDir path with
      | None => Err ErrDir
      | Some d =>
          if notExist d then Err ErrDir
          else match readDir d with
          | None => Err ErrDir
          | Some files => let? acc := loadFiles (filter (λ f, matches path f = true) files) acc in LoadAdditionalClientConfigs paths acc
          end
      end
  end.

Record ClientConfigLoadResult := mkResult {
  rCommon : CommonConfig.ClientCommonConfig; rProxies : list ProxyConfigurer; rVisitors : list VisitorConfigurer; IsLegacyFormat : bool }.

Definition LoadClientConfigResult (httpProxy path : string) : res error ClientConfigLoadResult :=
  let? (common, ps, vs) :=
    (if isLegacy path then
       match parseLegacy path with
       | None => Err ErrLegacy
       | Some (c, ps, vs) => Ok (Legacy.Convert_ClientCommonConf_To_v1 c, Legacy.Convert_ProxyConf_To_v1 <$> ps, Legacy.Convert_VisitorConf_To_v1 <$> vs)
       end
     else match loadConfigure path with None => Err (ErrDecode path) | Some c => Ok (ccCommon c, ccProxies c, ccVisitors c) end) in
  let? (eps, evs) :=
    (if (0 <? length (CommonConfig.IncludeConfigFiles common))%nat && negb (isLegacy path)
     then LoadAdditionalClientConfigs (CommonConfig.IncludeConfigFiles common) ([], []) else Ok ([], [])) in
  let? _ := validateNoDuplicateNames (ps ++ eps) (vs ++ evs) in
  Ok (mkResult (CommonConfig.completeClient httpProxy common) (ps ++ eps) (vs ++ evs) (isLegacy path)).

Definition LoadClientConfig (httpProxy path : string) : res error (CommonConfig.ClientCommonConfig * list ProxyConfigurer * list VisitorConfigurer) :=
  let? r := LoadClientConfigResult httpProxy path in
  let start := CommonConfig.Start (rCommon r) in
  Ok (rCommon r, Complete <$> startFilter start (rProxies r), completeVisitor <$> startFilter start (rVisitors r)).

Definition LoadServerConfig (path : string) : res error (CommonConfig.ServerConfig * bool) :=
  if isLegacy path then
    match parseLegacyServer path with
    | None => Err ErrLegacy
    | Some c => Ok (CommonConfig.completeServer (Legacy.Convert_ServerCommonConf_To_v1 c), true)
    end
  else match loadServer path with None => Err (ErrDecode path) | Some c => Ok (CommonConfig.completeServer c, false) end.

Lemma firstDuplicate_None seen names : firstDuplicate seen names = None ↔ NoDup names ∧ ∀ n, n ∈ names → n ∉ seen.
Proof using Type.
  clear. revert seen. induction names as [|n names IH]; intros seen; simpl; [split; [|done]; intros _; split; [constructor|set_solver]|].
  case_decide as Hn; [split; [done|]; intros [_ H]; exfalso; apply (H n); [by left|done]|]. rewrite IH, NoDup_cons. set_solver.
Qed.

Lemma no_duplicates ps vs : validateNoDuplicateNames ps vs = Ok () → NoDup (cfgName <$> ps) ∧ NoDup (cfgName <$> vs).
Proof using Type.
  clear. unfold validateNoDuplicateNames. destruct (firstDuplicate ∅ (cfgName <$> ps)) eqn:H1; [done|]. destruct (firstDuplicate ∅ (cfgName <$> vs)) eqn:H2; [done|].
  apply firstDuplicate_None in H1 as [? _], H2 as [? _]. done.
Qed.

(** A file that an include names. *)
Definition included (paths : list string) (f : string) : Prop :=
  ∃ p d files, p ∈ paths ∧ absDir p = Some d ∧ readDir d = Some files ∧ f ∈ files ∧ matches p f = true.

Lemma loadFiles_exact files : ∀ acc ps vs, loadFiles files acc = Ok (ps, vs) →
  (∀ c, c ∈ ps ↔ c ∈ acc.1 ∨ ∃ f cfg, f ∈ files ∧ loadConfigure f = Some cfg ∧ c ∈ ccProxies cfg) ∧
  (∀ c, c ∈ vs ↔ c ∈ acc.2 ∨ ∃ f cfg, f ∈ files ∧ loadConfigure f = Some cfg ∧ c ∈ ccVisitors cfg) ∧
  (∀ f, f ∈ files → is_Some (loadConfigure f)).
Proof using Type.
  clear absDir notExist readDir matches isLegacy parseLegacy loadServer parseLegacyServer. induction files as [|f files IH]; intros acc ps vs; simpl; [intros [= ->]; set_solver|].
  destruct (loadConfigure f) as [cfg|] eqn:Hf; [|done]. intros H. destruct (IH _ _ _ H) as (H1 & H2 & H3). simpl in *. split_and!.
  - intros c. rewrite H1, elem_of_app. setoid_rewrite elem_of_cons. naive_solver.
  - intros c. rewrite H2, elem_of_app. setoid_rewrite elem_of_cons. naive_solver.
  - intros g [->|Hg]%elem_of_cons; [by rewrite Hf|auto].
Qed.

Lemma additional_exact paths : ∀ acc ps vs, LoadAdditionalClientConfigs paths acc = Ok (ps, vs) →
  (∀ c, c ∈ ps ↔ c ∈ acc.1 ∨ ∃ f cfg, included paths f ∧ loadConfigure f = Some cfg ∧ c ∈ ccProxies cfg) ∧
  (∀ c, c ∈ vs ↔ c ∈ acc.2 ∨ ∃ f cfg, included paths f ∧ loadConfigure f = Some cfg ∧ c ∈ ccVisitors cfg).
Proof using Type.
  clear isLegacy parseLegacy loadServer parseLegacyServer. unfold included. induction paths as [|p paths IH]; intros acc ps vs; simpl; [intros [= ->]; split; intros c; set_solver|].
  destruct (absDir p) as [d|] eqn:Hd; [|done]. destruct (notExist d); [done|]. destruct (readDir d) as [files|] eqn:Hr; [|done].
  destruct (loadFiles _ acc) as [[ps1 vs1]|] eqn:Hl; [|done]. simpl. intros H.
  destruct (loadFiles_exact _ _ _ _ Hl) as (L1 & L2 & _). destruct (IH _ _ _ H) as [H1 H2]. simpl in *.
  assert (Hsplit : ∀ f, (f ∈ filter (λ f, matches p f = true) files ∨ (∃ q d files, q ∈ paths ∧ absDir q = Some d ∧ readDir d = Some files ∧ f ∈ files ∧ matches q f = true)) ↔
    ∃ q d files, q ∈ p :: paths ∧ absDir q = Some d ∧ readDir d = Some files ∧ f ∈ files ∧ matches q f = true).
  { intros f. rewrite list_elem_of_filter. setoid_rewrite elem_of_cons. split; [intros [[? ?]|(q & d' & fs & ? & ?)]; [exists p, d, files|exists q, d', fs]; naive_solver|].
    intros (q & d' & fs & [->|Hq] & Hd' & Hfs & Hin & Hm); [left; split; [done|]; rewrite Hd in Hd'; injection Hd' as <-; rewrite Hr in Hfs; by injection Hfs as <-|right; eauto 10]. }
  split; intros c; [rewrite H1, L1|rewrite H2, L2]; split.
  all: try (intros [Ha|(f & cfg & [Hf|Hf]%Hsplit & Hc)]; [by left; left|left; right; by exists f, cfg|right; by exists f, cfg]).
  all: intros [[Ha|(f & cfg & Hf & Hc)]|(f & cfg & Hf & Hc)]; [by left|..]; right; exists f, cfg; (split; [apply Hsplit; by auto|done]).
Qed.

Lemma startFilter_sublist {A} `{Configurer A} start (l : list A) : startFilter start l `sublist_of` l.
Proof using Type. clear. unfold startFilter. etrans; [apply sublist_filter|]. destruct start; [done|]. apply sublist_filter. Qed.
Lemma startFilter_elem {A} `{Configurer A} start (l : list A) c : c ∈ startFilter start l ↔ c ∈ l ∧ enabled c ∧ (start = [] ∨ cfgName c ∈ start).
Proof using Type. clear. unfold startFilter. rewrite list_elem_of_filter. destruct start as [|s start]; [naive_solver|]. rewrite list_elem_of_filter. naive_solver. Qed.

Lemma complete_names (l : list ProxyConfigurer) : cfgName <$> (Complete <$> l) = cfgName <$> l.
Proof using Type. clear. rewrite <-list_fmap_compose. apply list_fmap_ext. intros _ c _. by destruct c. Qed.
Lemma complete_visitor_names (l : list VisitorConfigurer) : cfgName <$> (completeVisitor <$> l) = cfgName <$> l.
Proof using Type. clear. rewrite <-list_fmap_compose. apply list_fmap_ext. intros _ c _. by destruct c. Qed.

(** What a loaded configuration consists of. *)
Lemma result_exact httpProxy path r : LoadClientConfigResult httpProxy path = Ok r →
  NoDup (cfgName <$> rProxies r) ∧ NoDup (cfgName <$> rVisitors r) ∧
  if isLegacy path then ∃ c ps vs, parseLegacy path = Some (c, ps, vs) ∧ rCommon r = CommonConfig.completeClient httpProxy (Legacy.Convert_ClientCommonConf_To_v1 c) ∧
    rProxies r = Legacy.Convert_ProxyConf_To_v1 <$> ps ∧ rVisitors r = Legacy.Convert_VisitorConf_To_v1 <$> vs
  else ∃ main, loadConfigure path = Some main ∧ rCommon r = CommonConfig.completeClient httpProxy (ccCommon main) ∧
    let from (f : string) := f = path ∨ included (CommonConfig.IncludeConfigFiles (ccCommon main)) f in
    (∀ c, c ∈ rProxies r ↔ ∃ f cfg, from f ∧ loadConfigure f = Some cfg ∧ c ∈ ccProxies cfg) ∧
    (∀ c, c ∈ rVisitors r ↔ ∃ f cfg, from f ∧ loadConfigure f = Some cfg ∧ c ∈ ccVisitors cfg).
Proof using Type.
  clear loadServer parseLegacyServer. unfold LoadClientConfigResult. destruct (if isLegacy path then _ else _) as [[[common0 ps0] vs0]|] eqn:H0; [|done]. simpl.
  destruct (if _ && _ then _ else _) as [[eps evs]|] eqn:He; [|done]. simpl. destruct (validateNoDuplicateNames _ _) as [[]|] eqn:Hv; [|done].
  simpl. intros [= <-]. apply no_duplicates in Hv as [Hp Hvn]. cbn [rProxies rVisitors rCommon]. split; [done|]. split; [done|].
  destruct (isLegacy path) eqn:Hleg; rewrite ?andb_false_r, ?andb_true_r in He.
  - destruct (parseLegacy path) as [[[c ps] vs]|]; [|done]. injection H0 as <- <- <-. injection He as <- <-. exists c, ps, vs. by rewrite !app_nil_r.
  - destruct (loadConfigure path) as [main|] eqn:Hmain; [|done]. injection H0 as <- <- <-. exists main. split; [done|]. split; [done|].
    assert (Hext : (∀ c, c ∈ eps ↔ ∃ f cfg, included (CommonConfig.IncludeConfigFiles (ccCommon main)) f ∧ loadConfigure f = Some cfg ∧ c ∈ ccProxies cfg) ∧
      (∀ c, c ∈ evs ↔ ∃ f cfg, included (CommonConfig.IncludeConfigFiles (ccCommon main)) f ∧ loadConfigure f = Some cfg ∧ c ∈ ccVisitors cfg)).
    { destruct (Nat.ltb_spec 0 (length (CommonConfig.IncludeConfigFiles (ccCommon main)))) as [Hl|Hl].
      - destruct (additional_exact _ _ _ _ He) as [H1 H2]. simpl in *. split; intros c; [rewrite H1|rewrite H2]; set_solver.
      - injection He as <- <-. destruct (CommonConfig.IncludeConfigFiles (ccCommon main)); [|simpl in Hl; lia]. unfold included. split; intros c; set_solver. }
    destruct Hext as [E1 E2]. cbv zeta. split; intros c; rewrite elem_of_app; [rewrite E1|rewrite E2]; naive_solver.
Qed.

(** *** Running a client: [cmd/frpc/sub/root.go] *)

(** [filepath.IsAbs], the join of the directory of a file with a path, and what is on the
    disk under a path, which can be read or not. *)
Context (isAbs : string → bool) (joinDir : string → string → string) (diskAt : string → Disk) (readable : string → bool).
Context {json : Json}.

Definition storePath (cfgFile p : string) : string :=
  if negb (bool_decide (p = EmptyString)) && negb (bool_decide (cfgFile = EmptyString)) && negb (isAbs p) then joinDir cfgFile p else p.

Definition openStore (cfgFile : string) (c : CommonConfig.ClientCommonConfig) : res error (option StoreSource) :=
  if decide (CommonConfig.Store c = EmptyString) then Ok None
  else let p := storePath cfgFile (CommonConfig.Store c) in
    match NewStoreSource p (readable p) (diskAt p) with Err e => Err (ErrSources e) | Ok st => Ok (Some st) end.

(** The two sources and the configuration merged from them. *)
Record running := mkRunning { fileSource : baseSource; store_ : option StoreSource; runProxies : list ProxyConfigurer; runVisitors : list VisitorConfigurer }.

(** [runClientWithAggregator] up to the validation of what it has. *)
Definition runClientWithAggregator (o : order) (cfgFile : string) (r : ClientConfigLoadResult) : res error running :=
  match ReplaceAll (Some <$> rProxies r) (Some <$> rVisitors r) newBaseSource with
  | (Err e, _) => Err (ErrSources e)
  | (Ok _, cs) =>
      let? st := openStore cfgFile (rCommon r) in
      match LoadAll o (mkAggregator (Some cs) (mem <$> st)) with
      | Err e => Err (ErrSources e)
      | Ok (ps, vs) =>
          let start := CommonConfig.Start (rCommon r) in
          Ok (mkRunning cs st (Complete <$> startFilter start ps) (completeVisitor <$> startFilter start vs))
      end
  end.

Definition runClient (o : order) (httpProxy path : string) : res error (ClientConfigLoadResult * running) :=
  let? r := LoadClientConfigResult httpProxy path in
  let? x := runClientWithAggregator o path r in Ok (r, x).

(** The configuration of a name in the two sources. *)
Definition inStore {A} (sel : baseSource → gmap string A) (x : running) (k : string) (c : A) : Prop := ∃ st, store_ x = Some st ∧ sel (mem st) !! k = Some c.

(** An entry runs if it is enabled and in the store, or in the files while the store has no
    enabled one of its name. *)
Definition effective {A} `{Configurer A} (sel : baseSource → gmap string A) (files : list A) (x : running) (c : A) : Prop :=
  enabled c ∧ (inStore sel x (cfgName c) c ∨ c ∈ files ∧ ∀ c', inStore sel x (cfgName c) c' → ~ enabled c').

Lemma enabledAt_Some {A} `{Configurer A} (sel : baseSource → gmap string A) o k c :
  enabledAt sel o k = Some c ↔ ∃ s, o = Some s ∧ sel s !! k = Some c ∧ enabled c.
Proof using Type.
  clear. unfold enabledAt. destruct o as [s|]; [|naive_solver]. destruct (sel s !! k) as [c0|] eqn:E; [|naive_solver]. case_decide; naive_solver.
Qed.

Lemma merged_effective {A} `{Configurer A} (sel : baseSource → gmap string A) (files : list A) (x : running) c :
  (∀ c, sel (fileSource x) !! cfgName c = Some c ↔ c ∈ files) →
  merged sel (mkAggregator (Some (fileSource x)) (mem <$> store_ x)) !! cfgName c = Some c ↔ effective sel files x c.
Proof using Type.
  clear. intros Hf. rewrite lookup_merged. unfold effective. cbn [Source.storeSource Source.configSource].
  assert (Hst : ∀ c', enabledAt sel (mem <$> store_ x) (cfgName c) = Some c' ↔ inStore sel x (cfgName c) c' ∧ enabled c').
  { intros c'. rewrite enabledAt_Some. unfold inStore. destruct (store_ x) as [st|]; simpl; naive_solver. }
  destruct (enabledAt sel (mem <$> store_ x) (cfgName c)) as [c1|].
  - destruct (proj1 (Hst c1) eq_refl) as [H1 H2]. split; [intros E; injection E as <-; auto|]. intros [Hc [Hin|[_ Hno]]]; [|by destruct (Hno c1)].
    by apply Hst.
  - rewrite enabledAt_Some. split.
    + intros (s & [= <-] & Hs & Hc). split; [done|]. right. split; [by apply Hf|]. intros c' Hin He. by assert (None = Some c') by by apply Hst.
    + intros [Hc [Hin|[Hin _]]]; [by assert (None = Some c) by by apply Hst|]. exists (fileSource x). split_and!; [done|by apply Hf|done].
Qed.

Lemma collect_exact {A} `{Configurer A} (l : list A) : NoDup (cfgName <$> l) →
  keyed cfgName (collect ∅ l) ∧ ∀ c, collect ∅ l !! cfgName c = Some c ↔ c ∈ l.
Proof using Type.
  clear. intros Hnd. unfold collect.
  assert (Hl : ∀ n c, foldl (λ m c, <[cfgName c:=c]> m) (∅ : gmap string A) l !! n = Some c ↔ c ∈ l ∧ cfgName c = n).
  { intros n c. rewrite lookup_keyed_fold by (done || intros; apply lookup_empty). rewrite lookup_empty. naive_solver. }
  split; [intros n c; rewrite Hl; by intros [_ ?]|]. intros c. rewrite Hl. naive_solver.
Qed.

Lemma sorted_elem {A} `{Configurer A} (m : gmap string A) c : keyed cfgName m → c ∈ sortByName (values m) ↔ m !! cfgName c = Some c.
Proof using Type. clear. intros Hk. unfold sortByName. rewrite (merge_sort_Permutation byName). by apply elem_of_values. Qed.

(** What the two sources of a client that runs are, and what is merged from them. *)
Lemma selected_NoDup {A} `{Configurer A} start (m : gmap string A) : keyed cfgName m → NoDup (cfgName <$> startFilter start (sortByName (values m))).
Proof using Type.
  clear. intros Hk. eapply sublist_NoDup; [|apply fmap_sublist, startFilter_sublist]. unfold sortByName. rewrite (merge_sort_Permutation byName).
  unfold values. rewrite keyed_values by done. apply NoDup_fst_map_to_list.
Qed.

Lemma run_sources o cfgFile r x : orderOk o → NoDup (cfgName <$> rProxies r) → NoDup (cfgName <$> rVisitors r) →
  runClientWithAggregator o cfgFile r = Ok x →
  let a := mkAggregator (Some (fileSource x)) (mem <$> store_ x) in
  let start := CommonConfig.Start (rCommon r) in
  openStore cfgFile (rCommon r) = Ok (store_ x) ∧
  (∀ s, s ∈ getSourcesLocked a → keyed cfgName (proxies s) ∧ keyed cfgName (visitors s)) ∧
  (∀ c, proxies (fileSource x) !! cfgName c = Some c ↔ c ∈ rProxies r) ∧ (∀ c, visitors (fileSource x) !! cfgName c = Some c ↔ c ∈ rVisitors r) ∧
  runProxies x = Complete <$> startFilter start (sortByName (values (merged proxies a))) ∧
  runVisitors x = completeVisitor <$> startFilter start (sortByName (values (merged visitors a))).
Proof using Type.
  clear absDir notExist readDir matches loadConfigure isLegacy parseLegacy loadServer parseLegacyServer. intros Ho Hp Hv. unfold runClientWithAggregator.
  destruct (ReplaceAll _ _ _) as [[[]|e] cs] eqn:Er; [|done]. apply ReplaceAll_outcome in Er as (lp & lv & Elp & Elv & ->).
  apply list_fmap_eq_inj in Elp as <-; [|by intros ? ? [= ->]]. apply list_fmap_eq_inj in Elv as <-; [|by intros ? ? [= ->]].
  destruct (openStore cfgFile (rCommon r)) as [st|] eqn:Es; [|done]. simpl.
  destruct (collect_exact (rProxies r) Hp) as [Kp Ep], (collect_exact (rVisitors r) Hv) as [Kv Ev].
  set (cs := mkSource (collect ∅ (rProxies r)) (collect ∅ (rVisitors r))).
  assert (Hk : ∀ s, s ∈ getSourcesLocked (mkAggregator (Some cs) (mem <$> st)) → keyed cfgName (proxies s) ∧ keyed cfgName (visitors s)).
  { intros s. unfold getSourcesLocked. simpl. intros [->|Hs]%elem_of_cons; [done|]. destruct st as [st|]; simpl in Hs; [|by apply elem_of_nil in Hs].
    apply list_elem_of_singleton in Hs as ->. unfold openStore in Es. case_decide; [done|]. destruct (NewStoreSource _ _ _) as [st'|] eqn:En; [|done]. injection Es as ->.
    apply opened_keyed in En as [[? _] [? _]]. done. }
  rewrite LoadAll_merged by done. intros [= <-]. cbn [fileSource store_ runProxies runVisitors]. by split_and!.
Qed.

(** C36: a client runs exactly what its files and its store say.  When it has loaded its
    configuration and merged it with its store, its proxies are the completed ones, each name
    once, that are enabled, that the list of names to start selects, and that are in the store,
    or in its files under a name for which the store has no enabled one; the same for visitors.
    The files are the main file and all files that its includes name, or for the old format
    what its parser returns, converted.  The service that is created from these sources
    starts with these proxies and visitors, in whatever order it walks its maps. *)
Theorem config_loaded o httpProxy path r x :
  orderOk o → runClient o httpProxy path = Ok (r, x) →
  let start := CommonConfig.Start (rCommon r) in
  let selected {A} `{Configurer A} (c : A) := start = [] ∨ cfgName c ∈ start in
  NoDup (cfgName <$> runProxies x) ∧ NoDup (cfgName <$> runVisitors x) ∧
  (∀ c, c ∈ runProxies x ↔ ∃ c0, effective proxies (rProxies r) x c0 ∧ selected c0 ∧ c = Complete c0) ∧
  (∀ c, c ∈ runVisitors x ↔ ∃ c0, effective visitors (rVisitors r) x c0 ∧ selected c0 ∧ c = completeVisitor c0) ∧
  openStore path (rCommon r) = Ok (store_ x) ∧
  (if isLegacy path then ∃ c ps vs, parseLegacy path = Some (c, ps, vs) ∧ rCommon r = CommonConfig.completeClient httpProxy (Legacy.Convert_ClientCommonConf_To_v1 c) ∧
     rProxies r = Legacy.Convert_ProxyConf_To_v1 <$> ps ∧ rVisitors r = Legacy.Convert_VisitorConf_To_v1 <$> vs
   else ∃ main, loadConfigure path = Some main ∧ rCommon r = CommonConfig.completeClient httpProxy (ccCommon main) ∧
     let from (f : string) := f = path ∨ included (CommonConfig.IncludeConfigFiles (ccCommon main)) f in
     (∀ c, c ∈ rProxies r ↔ ∃ f cfg, from f ∧ loadConfigure f = Some cfg ∧ c ∈ ccProxies cfg) ∧
     (∀ c, c ∈ rVisitors r ↔ ∃ f cfg, from f ∧ loadConfigure f = Some cfg ∧ c ∈ ccVisitors cfg)) ∧
  (∀ common key spec o' svc, ClientService.Start common = start → orderOk o' →
     ClientService.NewService common key spec o' (Some (fileSource x)) (store_ x) = Ok svc →
     ClientService.proxyCfgs svc = runProxies x ∧ ClientService.visitorCfgs svc = runVisitors x).
Proof using Type.
  clear loadServer parseLegacyServer. intros Ho Hrun start selected. unfold runClient in Hrun. destruct (LoadClientConfigResult httpProxy path) as [r'|] eqn:Hr; [|done]. simpl in Hrun.
  destruct (runClientWithAggregator o path r') as [x'|] eqn:Hx; [|done]. simpl in Hrun. injection Hrun as -> ->.
  destruct (result_exact _ _ _ Hr) as (Np & Nv & Hfiles). destruct (run_sources _ _ _ _ Ho Np Nv Hx) as (Hst & Hk & Hp & Hv & Ep & Ev).
  set (a := mkAggregator _ _) in *. pose proof (merged_keyed proxies a (λ s Hs, proj1 (Hk s Hs))) as Mp. pose proof (merged_keyed visitors a (λ s Hs, proj2 (Hk s Hs))) as Mv.
  split_and!; [..|done|exact Hfiles|].
  - rewrite Ep, complete_names. by apply selected_NoDup.
  - rewrite Ev, complete_visitor_names. by apply selected_NoDup.
  - intros c. rewrite Ep, list_elem_of_fmap. setoid_rewrite startFilter_elem.
    assert (Hin : ∀ c0, c0 ∈ sortByName (values (merged proxies a)) ↔ effective proxies (rProxies r) x c0) by (intros c0; rewrite sorted_elem by done; by apply merged_effective).
    setoid_rewrite Hin. unfold effective, selected. naive_solver.
  - intros c. rewrite Ev, list_elem_of_fmap. setoid_rewrite startFilter_elem.
    assert (Hin : ∀ c0, c0 ∈ sortByName (values (merged visitors a)) ↔ effective visitors (rVisitors r) x c0) by (intros c0; rewrite sorted_elem by done; by apply merged_effective).
    setoid_rewrite Hin. unfold effective, selected. naive_solver.
  - intros common key spec o' svc Hc Ho'. unfold ClientService.NewService. fold a. rewrite LoadAll_merged; [|done..|]; [|by unfold a, getSourcesLocked].
    rewrite Hc. unfold start. rewrite <-Ep, <-Ev. destruct (_ && _); [done|]. by intros [= <-].
Qed.
End load.

(** *** Concrete runs *)

(** A main file that includes the directory [d], where one of two files matches. *)
Definition demoTCP (name : string) : ProxyConfigurer :=
  TCPProxyConfig (mkBase name "tcp" None ∅ zeroTransport ∅ (mkLoadBalancer "" "") (mkHealthCheck "" 0 0 0 "" []) "" 80 (mkPlugin "" None)) 6000.
Definition demoCommon : CommonConfig.ClientCommonConfig :=
  CommonConfig.mkClient (CommonConfig.Auth_ CommonConfig.zeroClient) "" "" "" 0 "" "" None ["web"; "ssh"]%string CommonConfig.zeroLog CommonConfig.zeroWeb
    (CommonConfig.Transport CommonConfig.zeroClient) "" [] 0 ∅ ["d/*.toml"%string] "s.json".
Definition demoConfigure (f : string) : option ClientConfig :=
  if decide (f = "main"%string) then Some (mkClientConfig demoCommon [demoTCP "ssh"] [])
  else Some (mkClientConfig CommonConfig.zeroClient [demoTCP "web"] []).
(** The store is in [s.json]. *)
#[local] Existing Instance demoJson.
Definition demoRun (d : string → Disk) : res error (ClientConfigLoadResult * running) :=
  runClient (λ _, Some "d"%string) (λ _, false) (λ _, Some ["a.toml"; "b.txt"]%string) (λ _ f, bool_decide (f = "a.toml"%string)) demoConfigure (λ _, false)
    (λ _, None) (λ _, false) (λ _ p, p) d (λ _, true) demoOrder "" "main".

Lemma config_loaded_witness : match demoRun (λ _, mkDisk None None) with Ok (_, x) => runProxies x = [Complete (demoTCP "ssh"); Complete (demoTCP "web")] ∧ NoDup (cfgName <$> runProxies x) | Err _ => False end.
Proof.
  destruct (demoRun (λ _, mkDisk None None)) as [[r x]|] eqn:E; [|vm_compute in E; discriminate E].
  destruct (config_loaded _ _ _ _ _ _ _ _ _ _ _ _ _ _ _ _ demoOrder_ok E) as [H _]. split; [|exact H]. vm_compute in E. injection E as _ <-. reflexivity.
Defined.
(** A proxy of the store takes the place of the one of the file. *)
Example store_first : match demoRun (λ _, mkDisk (Some (ofString "s")) None) with Ok (_, x) => runProxies x = [Complete (demoProxy "ssh" true); Complete (demoTCP "web")] | Err _ => False end.
Proof. vm_compute. reflexivity. Qed.
End Load.
