(* ===== verification/Endpoints.v ===== *)
(** * Both ends of a connection: [server/service.go], [client/connector.go], [pkg/transport/tls.go]

    How a server starts and which sockets it opens and closes ([Setup]), how a client
    dials it ([Connector]), and that the two fit: on the one port that clients, web
    sockets and virtual hosts may share, a connection of a client gets to the listener
    it is for ([Meeting]).  [TLSConf] is the construction of the TLS settings of both.
    The libraries for TLS, web sockets, dialling and for the multiplexing of the port
    are parameters. *)
From S2P Require Import Prelude Bytes Chars Wire Vhost Service Dispatch CommonConfig AuthRuntime SSHGateway.

(** ** TLS settings *)
Module TLSConf.

Section tls.
(** Key pairs and pools of certificates. *)
Context {Cert Pool : Type} (randomPair : option Cert) (loadPair : string → string → option Cert) (readFile : string → option chars) (parsePool : chars → option Pool).

Record Config := mkConfig {
  Certificates : option Cert; RequireAndVerifyClientCert : bool; CAs : option Pool; ServerName : string; InsecureSkipVerify : bool }.

Inductive error := ErrPair | ErrPool.

Definition newCertPool (caPath : string) : res error Pool :=
  match readFile caPath with None => Err ErrPool | Some b => match parsePool b with None => Err ErrPool | Some p => Ok p end end.

Definition NewServerTLSConfig (certPath keyPath caPath : string) : res error Config :=
  let pair := if decide (certPath = EmptyString ∨ keyPath = EmptyString) then randomPair else loadPair certPath keyPath in
  match pair with
  | None => Err ErrPair
  | Some cert =>
      if decide (caPath = EmptyString) then Ok (mkConfig (Some cert) false None "" false)
      else let? pool := newCertPool caPath in Ok (mkConfig (Some cert) true (Some pool) "" false)
  end.

Definition NewClientTLSConfig (certPath keyPath caPath serverName : string) : res error Config :=
  let? cert :=
    (if decide (certPath ≠ EmptyString ∧ keyPath ≠ EmptyString)
     then match loadPair certPath keyPath with None => Err ErrPair | Some c => Ok (Some c) end else Ok None) in
  if decide (caPath = EmptyString) then Ok (mkConfig cert false None serverName true)
  else let? pool := newCertPool caPath in Ok (mkConfig cert false (Some pool) serverName false).
End tls.
End TLSConf.

(** ** The server: [NewService] and [Close] *)
Module Setup.
Import CommonConfig.

(** The parts of a server that listen on a socket of their own. *)
Inductive part := PDashboard | PTCPMux | PBind | PKCP | PQUIC | PSSH | PHTTP | PHTTPS.
#[global] Instance part_eq_dec : EqDecision part. Proof. solve_decision. Defined.

Inductive socket := STCP (addr : string) (port : Z) | SUDP (addr : string) (port : Z).
#[global] Instance socket_eq_dec : EqDecision socket. Proof. solve_decision. Defined.

Inductive error := ErrTLS | ErrListen (p : part) | ErrWebTLS | ErrAuth (e : Build.error) | ErrGateway (e : Gateway.error).

(** Where the multiplexer of the bind port sends a connection. *)
Inductive target := TWebsocket | THTTP | THTTPS | TTLS | TDefault.
Record route := mkRoute { priority : Z; matches : bytes → bool; target_ : target }.

(** What changes while the server starts: the open sockets and the files. *)
Record state := mkState { sockets : list (part * socket); files : gmap string chars }.

(** Start-up steps: they may fail, and what they have opened stays open. *)
Definition start (A : Type) : Type := state → res error A * state.
#[global] Instance start_ret : MRet start := λ A a st, (Ok a, st).
#[global] Instance start_bind : MBind start := λ A B k m st, match m st with (Ok a, st) => k a st | (Err e, st) => (Err e, st) end.
#[global] Instance start_fmap : FMap start := λ A B f m st, match m st with (Ok a, st) => (Ok (f a), st) | (Err e, st) => (Err e, st) end.

Section setup.
Context {Cert Pool K : Type} (randomPair : option Cert) (loadPair : string → string → option Cert) (readFile : string → option chars) (parsePool : chars → option Pool).
Context (ParsePrivateKey : chars → option K) (randomKey : option chars) (writeOk : bool) (outside : Values.outside).
(** Whether the issuer of OIDC tokens answers; whether the system lets the server open a
    socket beside the ones it has open; the matchers of the library. *)
Context (discovers : AuthOIDCServerConfig → bool) (free : list socket → socket → bool) (isHTTP isHTTPS : bytes → bool).

Definition available (s : socket) (st : state) : bool := free (sockets st).*2 s.

(** An open socket, with the part that opened it. *)
Abbreviation handle := (part * socket)%type.

Definition listen (p : part) (s : socket) : start handle := λ st,
  if available s st then (Ok (p, s), mkState (sockets st ++ [(p, s)]) (files st)) else (Err (ErrListen p), st).
Definition lift {A} (e : error) (r : option A) : start A := λ st, (match r with Some a => Ok a | None => Err e end, st).
Definition when {A} (b : bool) (m : start A) : start (option A) := if b then Some <$> m else mret None.

(** [httppkg.NewServer] *)
Definition NewServer (c : WebServerConfig) : start handle :=
  listen PDashboard (STCP (Addr c) (Port c)) ≫= λ h,
  match wTLS c with None => mret h | Some t => lift ErrWebTLS (loadPair (CertFile t) (KeyFile t)) ≫= λ _, mret h end.

Definition openGateway (cfg : ServerConfig) : start (Gateway.ServerConfig (K := K) * handle) := λ st,
  let s := STCP (BindAddr cfg) (gBindPort (SSH cfg)) in
  match Gateway.NewGateway ParsePrivateKey (SSH cfg) randomKey writeOk (available s st) (files st) with
  | (Ok g, fs) => (Ok (g, (PSSH, s)), mkState (sockets st ++ [(PSSH, s)]) fs)
  | (Err e, fs) => (Err (ErrGateway e), mkState (sockets st) fs)
  end.

Definition httpMuxOn (cfg : ServerConfig) : bool := bool_decide (BindAddr cfg = ProxyBindAddr cfg) && (BindPort cfg =? VhostHTTPPort cfg).
Definition httpsMuxOn (cfg : ServerConfig) : bool := bool_decide (BindAddr cfg = ProxyBindAddr cfg) && (BindPort cfg =? VhostHTTPSPort cfg).

Definition FrpWebsocketPath : string := "/~!frp".
Definition websocketPrefix : bytes := ofString "GET " ++ ofString FrpWebsocketPath.
Definition isWebsocket (data : bytes) : bool := bool_decide (take (length websocketPrefix) data = websocketPrefix).
Definition isTLS (data : bytes) : bool := match data with [] => false | b :: _ => bool_decide (b = Sniff.FRPTLSHeadByte) || bool_decide (b = x16) end.

(** What [NewService] registers with the multiplexer of the bind port. *)
Definition routes (cfg : ServerConfig) : list route :=
  [mkRoute 0 isWebsocket TWebsocket] ++
  (if (0 <? VhostHTTPPort cfg) && httpMuxOn cfg then [mkRoute 1 isHTTP THTTP] else []) ++
  (if (0 <? VhostHTTPSPort cfg) && httpsMuxOn cfg then [mkRoute 1 isHTTPS THTTPS] else []) ++
  [mkRoute 2 isTLS TTLS].

(** The fields that hold a listener on a socket of its own; [bound] is the socket below the
    multiplexer, and [VhostHTTPSMuxer] has none when it shares it.  The listener for
    virtual HTTP hosts is in no field. *)
Record Service := mkService {
  tlsConfig : TLSConf.Config (Cert := Cert) (Pool := Pool); svAuth : Build.Verifier * string;
  webServer : option handle; TCPMuxHTTPConnectMuxer : option handle; bound : handle; kcpListener : option handle; quicListener : option handle;
  sshTunnelGateway : option (Gateway.ServerConfig (K := K) * handle); VhostHTTPSMuxer : option handle; muxer : list route }.

(** [NewService]: plugins, group controllers and the controller of hole punching are
    constructed in between and cannot fail. *)
Definition NewService (cfg : ServerConfig) : start Service :=
  let t := serverTLS (sTLS (sTransport cfg)) in
  tls ← lift ErrTLS (match TLSConf.NewServerTLSConfig randomPair loadPair readFile parsePool (CertFile t) (KeyFile t) (TrustedCaFile t) with Ok c => Some c | Err _ => None end);
  web ← when (0 <? Port (sWebServer cfg)) (NewServer (sWebServer cfg));
  auth ← (λ st, (match (Build.BuildServerAuth discovers outside (sAuth cfg)).1 with Ok a => Ok a | Err e => Err (ErrAuth e) end, st));
  tcpmux ← when (0 <? TCPMuxHTTPConnectPort cfg) (listen PTCPMux (STCP (ProxyBindAddr cfg) (TCPMuxHTTPConnectPort cfg)));
  ln ← listen PBind (STCP (BindAddr cfg) (BindPort cfg));
  kcp ← when (0 <? KCPBindPort cfg) (listen PKCP (SUDP (BindAddr cfg) (KCPBindPort cfg)));
  quic ← when (0 <? QUICBindPort cfg) (listen PQUIC (SUDP (BindAddr cfg) (QUICBindPort cfg)));
  gw ← when (0 <? gBindPort (SSH cfg)) (openGateway cfg);
  _ ← when ((0 <? VhostHTTPPort cfg) && negb (httpMuxOn cfg)) (listen PHTTP (STCP (ProxyBindAddr cfg) (VhostHTTPPort cfg)));
  https ← when ((0 <? VhostHTTPSPort cfg) && negb (httpsMuxOn cfg)) (listen PHTTPS (STCP (ProxyBindAddr cfg) (VhostHTTPSPort cfg)));
  mret (mkService tls auth web tcpmux ln kcp quic gw https (routes cfg)).

Definition closeOne (st : state) (h : handle) : state := mkState (filter (λ x, x ≠ h) (sockets st)) (files st).

(** [ResourceController.Close] and [Service.Close]; the multiplexer closes the socket it was
    made on, and the other listeners on it have none of their own. *)
Definition rcCloses (svr : Service) : list handle := option_list (VhostHTTPSMuxer svr) ++ option_list (TCPMuxHTTPConnectMuxer svr).
Definition closes (svr : Service) : list handle :=
  option_list (kcpListener svr) ++ option_list (quicListener svr) ++ option_list (webServer svr) ++ option_list (snd <$> sshTunnelGateway svr) ++
  rcCloses svr ++ [bound svr].
Definition Close (svr : Service) (st : state) : state := foldl closeOne st (closes svr).

Lemma Close_sockets svr st h : h ∈ sockets (Close svr st) ↔ h ∈ sockets st ∧ h ∉ closes svr.
Proof using Type.
  unfold Close. generalize (closes svr). intros l. revert st. induction l as [|x l IH]; intros st; simpl; [set_solver|].
  rewrite IH. simpl. rewrite list_elem_of_filter. set_solver.
Qed.

(** *** What the steps open *)

Definition succeeds {A} (r : res error A) : Prop := ∃ a, r = Ok a.

(** Each socket can be opened beside those that are open and those before it. *)
Fixpoint openable (open_ ws : list socket) : Prop :=
  match ws with [] => True | s :: ws => free open_ s = true ∧ openable (open_ ++ [s]) ws end.

Lemma openable_app o a b : openable o (a ++ b) ↔ openable o a ∧ openable (o ++ a) b.
Proof using Type.
  revert o. induction a as [|s a IH]; intros o; simpl; [rewrite app_nil_r; tauto|].
  rewrite IH, <-app_assoc. simpl. tauto.
Qed.

(** [m] opens [ws]: it succeeds exactly when [C] holds of the files and [ws] can be opened
    beside what is open; then [F] are the files and [P] holds of the result. *)
Record opens {A} (m : start A) (ws : list (part * socket)) (C : gmap string chars → Prop) (F : gmap string chars → gmap string chars) (P : A → Prop) : Prop := {
  op_iff st : succeeds (m st).1 ↔ C (files st) ∧ openable (sockets st).*2 ws.*2;
  op_post st a : (m st).1 = Ok a → sockets (m st).2 = sockets st ++ ws ∧ files (m st).2 = F (files st) ∧ P a }.

Lemma opens_pure {A} (m : start A) (C : gmap string chars → Prop) (P : A → Prop) :
  (∀ st, (m st).2 = st) → (∀ st, succeeds (m st).1 ↔ C (files st)) → (∀ st a, (m st).1 = Ok a → P a) → opens m [] C (λ fs, fs) P.
Proof using Type.
  intros H2 H1 HP. split; intros st; [rewrite H1; simpl; tauto|]. intros a Ha. rewrite H2, app_nil_r. eauto.
Qed.

Lemma opens_listen p s : opens (listen p s) [(p, s)] (λ _, True) (λ fs, fs) (λ h, h = (p, s)).
Proof using Type.
  split; intros st; unfold listen, available; simpl; destruct (free _ s); simpl; [split; [done|by eexists]|split; [by intros [? [=]]|naive_solver]| |done].
  intros a [= <-]. done.
Qed.

Lemma opens_bind {A B} (m : start A) (k : A → start B) ws ws' C C' F F' P P' :
  opens m ws C F P → (∀ a, P a → opens (k a) ws' C' F' P') → opens (m ≫= k) (ws ++ ws') (λ fs, C fs ∧ C' (F fs)) (λ fs, F' (F fs)) P'.
Proof using Type.
  intros Hm Hk. split; intros st; unfold mbind, start_bind; pose proof (op_iff _ _ _ _ _ Hm st) as Hi; pose proof (op_post _ _ _ _ _ Hm st) as Hp.
  - rewrite fmap_app, openable_app. destruct (m st) as [[a|e] st1]; simpl in *.
    + destruct (Hp a eq_refl) as (Hs & Hf & Ha). assert (Hc : C (files st) ∧ openable (sockets st).*2 ws.*2) by (apply Hi; by eexists).
      rewrite (op_iff _ _ _ _ _ (Hk a Ha) st1), Hf, Hs, fmap_app. tauto.
    + split; [by intros [a [=]]|]. intros ((Hc & _) & Hw & _). destruct Hi as [_ Hi]. by destruct Hi as [a [=]].
  - intros b. destruct (m st) as [[a|e] st1]; simpl in *; [|done]. destruct (Hp a eq_refl) as (Hs & Hf & Ha). intros Hb.
    destruct (op_post _ _ _ _ _ (Hk a Ha) st1 b Hb) as (Hs' & Hf' & HP). by rewrite Hs', Hs, Hf', Hf, <-app_assoc.
Qed.

Lemma opens_when {A} b (m : start A) ws C F P : opens m ws C F P →
  opens (when b m) (if b then ws else []) (λ fs, b = true → C fs) (λ fs, if b then F fs else fs) (λ o, if b then ∃ a, o = Some a ∧ P a else o = None).
Proof using Type.
  intros Hm. destruct b; simpl; [|apply opens_pure; [done|intros st; split; [done|by eexists]|by intros st a [= <-]]].
  split; intros st; unfold fmap, start_fmap; pose proof (op_iff _ _ _ _ _ Hm st) as Hi; pose proof (op_post _ _ _ _ _ Hm st) as Hp;
    destruct (m st) as [[a|e] st1]; simpl in *.
  - split; [intros _; destruct Hi as [Hi _]; destruct Hi as [? ?]; [by eexists|auto]|by eexists].
  - split; [by intros [? [=]]|]. intros [Hc Hw]. destruct Hi as [_ Hi]. destruct Hi as [? [=]]. split; [by apply Hc|done].
  - intros o [= <-]. destruct (Hp a eq_refl) as (? & ? & ?). split_and!; [done..|]. by exists a.
  - done.
Qed.

Lemma opens_server c : opens (NewServer c) [(PDashboard, STCP (Addr c) (Port c))] (λ _, ∀ t, wTLS c = Some t → is_Some (loadPair (CertFile t) (KeyFile t))) (λ fs, fs)
  (λ h, h = (PDashboard, STCP (Addr c) (Port c))).
Proof using Type.
  assert (H : opens (NewServer c) ([(PDashboard, STCP (Addr c) (Port c))] ++ []) (λ fs, True ∧ ∀ t, wTLS c = Some t → is_Some (loadPair (CertFile t) (KeyFile t))) (λ fs, fs)
    (λ h, h = (PDashboard, STCP (Addr c) (Port c)))).
  { refine (opens_bind _ _ _ _ (λ _, True) (λ _, _) _ (λ fs, fs) _ _ (opens_listen _ _) _). intros h ->. apply opens_pure; [intros st; destruct (wTLS c) as [t|]; [|done]; simpl; unfold lift, mbind, start_bind; by destruct (loadPair _ _)| |].
    - intros st. destruct (wTLS c) as [t|]; [|split; [done|by eexists]]. unfold lift, mbind, start_bind. destruct (loadPair _ _) as [x|] eqn:Hx.
      + split; [intros _ t' [= <-]; by rewrite Hx|by eexists].
      + split; [by intros [a [=]]|]. intros Ht. destruct (Ht t eq_refl) as [y Hy]. congruence.
    - intros st a. destruct (wTLS c) as [t|]; [|by intros [= <-]]. unfold lift, mbind, start_bind. destruct (loadPair _ _); [by intros [= <-]|done]. }
  split; intros st; [rewrite (op_iff _ _ _ _ _ H st); simpl; naive_solver|apply (op_post _ _ _ _ _ H)].
Qed.

Abbreviation gatewayOf cfg ok fs := (Gateway.NewGateway ParsePrivateKey (SSH cfg) randomKey writeOk ok fs).

Lemma gateway_listens cfg ok fs : (gatewayOf cfg ok fs).2 = (gatewayOf cfg true fs).2 ∧
  ((∃ g, (gatewayOf cfg ok fs).1 = Ok g) ↔ ok = true ∧ ∃ g, (gatewayOf cfg true fs).1 = Ok g).
Proof using Type.
  clear - ParsePrivateKey. unfold Gateway.NewGateway. destruct (Gateway.hostKeyBytes _ _ _ _) as [[b|e] fs']; simpl; [|naive_solver].
  destruct (ParsePrivateKey b), ok; simpl; naive_solver.
Qed.

Lemma opens_gateway cfg :
  opens (openGateway cfg) [(PSSH, STCP (BindAddr cfg) (gBindPort (SSH cfg)))] (λ fs, ∃ g, (gatewayOf cfg true fs).1 = Ok g) (λ fs, (gatewayOf cfg true fs).2)
    (λ g, g.2 = (PSSH, STCP (BindAddr cfg) (gBindPort (SSH cfg)))).
Proof using Type.
  split; intros st; unfold openGateway; set (s := STCP _ _); destruct (gateway_listens cfg (available s st) (files st)) as [Hf Hi];
    destruct (gatewayOf cfg (available s st) (files st)) as [[g|e] fs'] eqn:Hg; simpl in *.
  - destruct Hi as [Hi _]. destruct Hi as [Ha Hok]; [by eexists|]. split; [intros _; by split_and!|by eexists].
  - split; [by intros [? [=]]|]. intros (Hok & Ha & _). destruct Hi as [_ Hi]. by destruct Hi as [g [=]].
  - intros a [= <-]. by rewrite <-Hf.
  - done.
Qed.

(** *** When a server starts *)

(** The sockets the settings ask for. *)
Definition wanted (cfg : ServerConfig) : list (part * socket) :=
  (if 0 <? Port (sWebServer cfg) then [(PDashboard, STCP (Addr (sWebServer cfg)) (Port (sWebServer cfg)))] else []) ++
  (if 0 <? TCPMuxHTTPConnectPort cfg then [(PTCPMux, STCP (ProxyBindAddr cfg) (TCPMuxHTTPConnectPort cfg))] else []) ++
  [(PBind, STCP (BindAddr cfg) (BindPort cfg))] ++
  (if 0 <? KCPBindPort cfg then [(PKCP, SUDP (BindAddr cfg) (KCPBindPort cfg))] else []) ++
  (if 0 <? QUICBindPort cfg then [(PQUIC, SUDP (BindAddr cfg) (QUICBindPort cfg))] else []) ++
  (if 0 <? gBindPort (SSH cfg) then [(PSSH, STCP (BindAddr cfg) (gBindPort (SSH cfg)))] else []) ++
  (if (0 <? VhostHTTPPort cfg) && negb (httpMuxOn cfg) then [(PHTTP, STCP (ProxyBindAddr cfg) (VhostHTTPPort cfg))] else []) ++
  (if (0 <? VhostHTTPSPort cfg) && negb (httpsMuxOn cfg) then [(PHTTPS, STCP (ProxyBindAddr cfg) (VhostHTTPSPort cfg))] else []).

(** Certificates, token and keys can be had, and the issuer of OIDC tokens answers. *)
Definition ready (cfg : ServerConfig) (fs : gmap string chars) : Prop :=
  (∃ c, TLSConf.NewServerTLSConfig randomPair loadPair readFile parsePool (CertFile (serverTLS (sTLS (sTransport cfg)))) (KeyFile (serverTLS (sTLS (sTransport cfg))))
          (TrustedCaFile (serverTLS (sTLS (sTransport cfg)))) = Ok c) ∧
  (0 < Port (sWebServer cfg) → ∀ t, wTLS (sWebServer cfg) = Some t → is_Some (loadPair (CertFile t) (KeyFile t))) ∧
  (∃ a, (Build.BuildServerAuth discovers outside (sAuth cfg)).1 = Ok a) ∧
  (0 < gBindPort (SSH cfg) → ∃ g, (gatewayOf cfg true fs).1 = Ok g).

(** What the fields of the service hold. *)
Definition held (cfg : ServerConfig) (svr : Service) : Prop :=
  muxer svr = routes cfg ∧ ∀ h, h ∈ closes svr ↔ h ∈ wanted cfg ∧ h.1 ≠ PHTTP.

Lemma field_held (b : bool) (x : handle) o : (if b then ∃ a, o = Some a ∧ a = x else o = None) → option_list o = if b then [x] else [].
Proof using Type. destruct b; [by intros (a & -> & ->)|by intros ->]. Qed.
Lemma gateway_held (b : bool) (x : handle) (o : option (Gateway.ServerConfig (K := K) * handle)) :
  (if b then ∃ a, o = Some a ∧ a.2 = x else o = None) → option_list (snd <$> o) = if b then [x] else [].
Proof using Type. destruct b; [by intros (a & -> & <-)|by intros ->]. Qed.
Lemma elem_if (b : bool) (h x : handle) : h ∈ (if b then [x] else []) ↔ b = true ∧ h = x.
Proof using Type. destruct b; [rewrite list_elem_of_singleton; tauto|]. split; [by intros ?%elem_of_nil|by intros [? _]]. Qed.

Lemma opens_service cfg : ∃ C F, opens (NewService cfg) (wanted cfg) C F (held cfg) ∧ ∀ fs, C fs ↔ ready cfg fs.
Proof using Type.
  unfold NewService, ready. set (tls := TLSConf.NewServerTLSConfig _ _ _ _ _ _ _). set (auth := Build.BuildServerAuth _ _ _). eexists _, _. split.
  - rewrite <-(app_nil_l (wanted cfg)). unfold wanted.
    eapply opens_bind; [apply (opens_pure _ (λ _, ∃ c, tls = Ok c) (λ _, True)); [done|intros st; unfold lift, succeeds; simpl; destruct tls; naive_solver|done]|]. intros c _.
    eapply opens_bind; [eapply opens_when, opens_server|]. intros web Hweb.
    rewrite <-(app_nil_l (_ ++ [(PBind, _)] ++ _)).
    eapply opens_bind; [apply (opens_pure _ (λ _, ∃ a, auth.1 = Ok a) (λ _, True)); [done|intros st; unfold succeeds; simpl; destruct auth.1; naive_solver|done]|]. intros a _.
    eapply opens_bind; [eapply opens_when, opens_listen|]. intros tcpmux Htcpmux.
    eapply opens_bind; [apply opens_listen|]. intros ln Hln.
    eapply opens_bind; [eapply opens_when, opens_listen|]. intros kcp Hkcp.
    eapply opens_bind; [eapply opens_when, opens_listen|]. intros quic Hquic.
    eapply opens_bind; [eapply opens_when, opens_gateway|]. intros gw Hgw.
    eapply opens_bind; [eapply opens_when, opens_listen|]. intros http Hhttp.
    rewrite <-(app_nil_r (if _ && negb (httpsMuxOn cfg) then _ else _)).
    eapply opens_bind; [eapply opens_when, opens_listen|]. intros https Hhttps.
    apply (opens_pure _ (λ _, True) (held cfg)); [done|intros st; split; [done|by eexists]|]. intros st x [= <-].
    split; [done|]. intros h. unfold closes, rcCloses, wanted. cbn [kcpListener quicListener webServer sshTunnelGateway VhostHTTPSMuxer TCPMuxHTTPConnectMuxer bound].
    apply field_held in Hweb as ->, Htcpmux as ->, Hkcp as ->, Hquic as ->, Hhttps as ->. apply gateway_held in Hgw as ->. rewrite Hln.
    rewrite !elem_of_app, !elem_if, !list_elem_of_singleton. clear. destruct h as [p s]. simpl. split; [intuition congruence|].
    intros [Hw Hp]. repeat destruct Hw as [Hw|Hw]; try tauto. destruct Hw as [_ [= -> _]]. done.
  - intros fs. simpl. assert (Hif : ∀ (b : bool) (x : gmap string chars), (if b then x else x) = x) by by intros []. rewrite !Hif, !Z.ltb_lt. tauto.
Qed.

Lemma service_opened cfg fs svr : (NewService cfg (mkState [] fs)).1 = Ok svr → sockets (NewService cfg (mkState [] fs)).2 = wanted cfg ∧ held cfg svr.
Proof using Type. intros Hs. destruct (opens_service cfg) as (C & F & Ho & _). by destruct (op_post _ _ _ _ _ Ho _ _ Hs) as (? & _ & ?). Qed.

(** C35: a server starts exactly when its settings can be had, and then has what they ask
    for.  [NewService] succeeds if and only if certificates, token and host key can be
    loaded, the issuer of OIDC tokens answers if they are used, and the system opens each
    of the sockets the settings name beside those before it; then exactly these
    are open, one for each part, and the port of the clients tells web sockets, virtual
    hosts that share it, TLS and other clients apart in this order.  [Close] of the service
    closes all of them but the one of HTTP, which stays open when it is not shared. *)
Theorem service_starts cfg fs :
  ((∃ svr, (NewService cfg (mkState [] fs)).1 = Ok svr) ↔ ready cfg fs ∧ openable [] (wanted cfg).*2) ∧
  (∀ svr, (NewService cfg (mkState [] fs)).1 = Ok svr →
     sockets (NewService cfg (mkState [] fs)).2 = wanted cfg ∧ muxer svr = routes cfg ∧
     ∀ p s, (p, s) ∈ sockets (Close svr (NewService cfg (mkState [] fs)).2) ↔ p = PHTTP ∧ (p, s) ∈ wanted cfg).
Proof using Type.
  destruct (opens_service cfg) as (C & F & Ho & HC). split.
  - pose proof (op_iff _ _ _ _ _ Ho (mkState [] fs)) as Hi. simpl in Hi. rewrite HC in Hi. exact Hi.
  - intros svr Hs. apply service_opened in Hs as [Hw [Hm Hc]]. split_and!; [done..|].
    intros p s. rewrite Close_sockets, Hw, Hc. simpl. destruct (decide (p = PHTTP)); naive_solver.
Qed.
End setup.

(** *** Concrete runs *)

Definition demoKey (b : chars) : option () := match b with [] => None | _ => Some () end.
(** A system on which two sockets of one protocol and port clash when their addresses are
    the same or one of them is the wildcard; [taken] are sockets of others. *)
Definition wildcard (addr : string) : bool := bool_decide (addr ∈ [""; "0.0.0.0"; "::"]%string).
Definition overlaps (a b : string) : bool := bool_decide (a = b) || wildcard a || wildcard b.
Definition clash (x y : socket) : bool :=
  match x, y with
  | STCP a p, STCP b q | SUDP a p, SUDP b q => (p =? q) && overlaps a b
  | _, _ => false
  end.
Definition demoFree (taken open_ : list socket) (s : socket) : bool := forallb (λ x, negb (clash x s)) (taken ++ open_).

Definition demoStart (taken : list socket) (cfg : ServerConfig) : res error (Service (Cert := ()) (Pool := ()) (K := ())) * state :=
  NewService (Some ()) (λ _ _, Some ()) (λ _, None) (λ _, None) demoKey (Some (ofStr "key")) true Build.demoOutside (λ _, false) (demoFree taken) (λ _, false) (λ _, false) cfg (mkState [] ∅).
(** HTTP and HTTPS hosts, HTTPS on the port of the clients, and a dashboard. *)
Definition demoServerWith (auth : AuthServerConfig) (web : WebServerConfig) : ServerConfig :=
  mkServer auth "0.0.0.0" 7000 0 7001 "0.0.0.0" 8080 60 7000 0 false "" "" (mkSSH 2200 "" "./key" "") web false zeroLog (sTransport zeroServer) None 0 0 0 0 [] [].
Definition demoServer : ServerConfig := demoServerWith (sAuth zeroServer) zeroWeb.

Lemma service_starts_witness : ∃ svr, (demoStart [] demoServer).1 = Ok svr ∧ sockets (demoStart [] demoServer).2 = wanted demoServer.
Proof.
  destruct (service_starts (Cert := ()) (Pool := ()) (K := ()) (Some ()) (λ _ _, Some ()) (λ _, None) (λ _, None) demoKey (Some (ofStr "key")) true Build.demoOutside (λ _, false) (demoFree []) (λ _, false) (λ _, false) demoServer ∅) as [_ H].
  destruct (demoStart [] demoServer).1 as [svr|e] eqn:E; [|vm_compute in E; discriminate E]. exists svr. split; [reflexivity|]. apply (H svr E).
Defined.

(** The port of HTTP stays open after [Close]. *)
Example http_left_open : match demoStart [] demoServer with (Ok svr, st) => sockets (Close svr st) = [(PHTTP, STCP "0.0.0.0" 8080)] | _ => False end.
Proof. vm_compute. reflexivity. Qed.
(** A server that does not start leaves open what it has opened. *)
Example failed_start_leaves : (demoStart [STCP "0.0.0.0" 8080] demoServer).1 = Err (ErrListen PHTTP) ∧
  (sockets (demoStart [STCP "0.0.0.0" 8080] demoServer).2).*1 = [PBind; PQUIC; PSSH].
Proof. split; vm_compute; reflexivity. Qed.
(** A dashboard on one address keeps the port from clients on all addresses. *)
Example wildcard_clashes : (demoStart [] (demoServerWith (sAuth zeroServer) (mkWeb "127.0.0.1" 7000 "" "" "" false None))).1 = Err (ErrListen PBind).
Proof. vm_compute. reflexivity. Qed.
(** A server for OIDC tokens does not start, and panics, when the issuer does not answer. *)
Example discovery_panics : (demoStart [] (demoServerWith (mkAuthServer "oidc" [] "" None (sOIDC (sAuth zeroServer))) zeroWeb)).1 = Err (ErrAuth Build.PanicDiscovery).
Proof. vm_compute. reflexivity. Qed.
End Setup.

(** ** The client: [connector.go] *)
Module Connector.
Import CommonConfig.

(** What a hook does to a new connection. *)
Inductive action := AWebsocket (protocol host : string) | AHeadByte (enableTLS disable : bool) | ATLS (on : bool).
(** With the priority it is added with, if it is not the default one. *)
Record hook := mkHook { hPriority : option Z; hAction : action }.

Section connector.
Context {Cert Pool : Type} (loadPair : string → string → option Cert) (readFile : string → option chars) (parsePool : chars → option Pool).
(** [libnet.ParseProxyURL] *)
Context {Proxy : Type} (ParseProxyURL : string → option Proxy).

Abbreviation TLSConfig := (TLSConf.Config (Cert := Cert) (Pool := Pool)).

Record dialOptions := mkDial {
  dHooks : list hook; dTLS : option TLSConfig; dLocalAddr : string; dProtocol : string; dTimeout : Z; dKeepAlive : Z; dProxy : Proxy; dAddr : string; dPort : Z }.

Inductive error := ErrTLS (e : TLSConf.error) | ErrProxyURL | ErrDial | ErrSession | ErrStream | ErrMagic.

Definition serverNameOf (cfg : ClientCommonConfig) : string :=
  let sn := tServerName (clientTLS (TLS (Transport cfg))) in if decide (sn = EmptyString) then ServerAddr cfg else sn.

Definition clientTLSConfig (cfg : ClientCommonConfig) : res error TLSConfig :=
  let t := clientTLS (TLS (Transport cfg)) in
  match TLSConf.NewClientTLSConfig loadPair readFile parsePool (CertFile t) (KeyFile t) (TrustedCaFile t) (serverNameOf cfg) with
  | Ok c => Ok c
  | Err e => Err (ErrTLS e)
  end.

(** [realConnect] up to the call of [DialContext]; for [wss] TLS is always on, and
    the protocol has been set to [tcp] when the hook of the web socket gets it. *)
Definition realConnect (cfg : ClientCommonConfig) : res error dialOptions :=
  let tr := Transport cfg in
  let tlsEnable := bool_decide (Protocol tr = "wss"%string) || fromPtr (Enable (TLS tr)) in
  let? tls := (if tlsEnable then match clientTLSConfig cfg with Ok c => Ok (Some c) | Err e => Err e end else Ok None) in
  match ParseProxyURL (ProxyURL tr) with
  | None => Err ErrProxyURL
  | Some proxy =>
      let on := bool_decide (is_Some tls) in
      let headByte := mkHook None (AHeadByte on (fromPtr (DisableCustomTLSFirstByte (TLS tr)))) in
      let '(hooks, protocol) :=
        if decide (Protocol tr = "websocket"%string) then ([mkHook None (AWebsocket "tcp" ""); headByte; mkHook None (ATLS on)], "tcp"%string)
        else if decide (Protocol tr = "wss"%string) then
          ([mkHook (Some 100) (ATLS on); mkHook (Some 110) (AWebsocket "tcp" (match tls with Some c => TLSConf.ServerName c | None => EmptyString end))], "tcp"%string)
        else ([headByte; mkHook None (ATLS on)], Protocol tr) in
      Ok (mkDial hooks tls (ConnectServerLocalIP tr) protocol (DialServerTimeout tr * 10 ^ 9) (DialServerKeepAlive tr * 10 ^ 9) proxy (ServerAddr cfg) (ServerPort cfg))
  end.

(** What the connector does, with numbers for the connections. *)
Inductive effect := EDial (o : dialOptions) | EDialQUIC (tls : TLSConfig) | ECloseConn | EQUICStream | EMuxStream | ECloseQUIC | ECloseMux.

Record connector := mkConnector { muxSession : bool; quicConn : bool; closedOnce : bool }.
Definition NewConnector : connector := mkConnector false false false.

Definition isQUIC (cfg : ClientCommonConfig) : bool := bool_decide (Vhost.ToLower (Protocol (Transport cfg)) = "quic"%string).

(** Results of the library calls. *)
Record calls := mkCalls { dialOk : bool; sessionOk : bool; streamOk : bool }.
#[global] Instance calls_eq_dec : EqDecision calls. Proof. clear. solve_decision. Defined.

Definition dial (k : calls) (cfg : ClientCommonConfig) : res error unit * list effect :=
  match realConnect cfg with
  | Err e => (Err e, [])
  | Ok o => if dialOk k then (Ok (), [EDial o]) else (Err ErrDial, [])
  end.

(** [Open] *)
Definition Open (cfg : ClientCommonConfig) (k : calls) (c : connector) : res error unit * list effect * connector :=
  if isQUIC cfg then
    let tls :=
      if fromPtr (Enable (TLS (Transport cfg))) then clientTLSConfig cfg
      else match TLSConf.NewClientTLSConfig loadPair readFile parsePool "" "" "" (serverNameOf cfg) with Ok t => Ok t | Err e => Err (ErrTLS e) end in
    match tls with
    | Err e => (Err e, [], c)
    | Ok t => if dialOk k then (Ok (), [EDialQUIC t], mkConnector (muxSession c) true (closedOnce c)) else (Err ErrDial, [], c)
    end
  else if negb (fromPtr (TCPMux (Transport cfg))) then (Ok (), [], c)
  else match dial k cfg with
  | (Err e, es) => (Err e, es, c)
  | (Ok _, es) =>
      if sessionOk k then (Ok (), es, mkConnector true (quicConn c) (closedOnce c))
      else (Err ErrSession, es ++ [ECloseConn], c)
  end.

(** [Connect] *)
Definition Connect (cfg : ClientCommonConfig) (k : calls) (c : connector) : res error unit * list effect :=
  if quicConn c then (if streamOk k then (Ok (), [EQUICStream]) else (Err ErrStream, []))
  else if muxSession c then (if streamOk k then (Ok (), [EMuxStream]) else (Err ErrStream, []))
  else dial k cfg.

(** [Close], the body once *)
Definition Close (c : connector) : list effect * connector :=
  if closedOnce c then ([], c)
  else ((if quicConn c then [ECloseQUIC] else []) ++ (if muxSession c then [ECloseMux] else []), mkConnector (muxSession c) (quicConn c) true).

(** [messageConnector.Connect]: the magic is written first, or the connection closed. *)
Definition messageConnect (cfg : ClientCommonConfig) (k : calls) (magicOk : bool) (c : connector) : res error bytes * list effect :=
  match Connect cfg k c with
  | (Err e, es) => (Err e, es)
  | (Ok _, es) => if magicOk then (Ok (Wire.WriteMagicIfV2 (WireProtocol (Transport cfg))), es) else (Err ErrMagic, es ++ [ECloseConn])
  end.

Inductive op := OConnect (k : calls) | OClose.
#[global] Instance op_eq_dec : EqDecision op. Proof. clear. solve_decision. Defined.
Definition apply_ (cfg : ClientCommonConfig) (s : list effect * connector) (o : op) : list effect * connector :=
  match o with
  | OConnect k => (s.1 ++ (Connect cfg k s.2).2, s.2)
  | OClose => let '(es, c) := Close s.2 in (s.1 ++ es, c)
  end.

(** Connections of their own, and the carriers that streams go over. *)
Definition isCarrierClose (e : effect) : bool := match e with ECloseQUIC | ECloseMux => true | _ => false end.
Definition carrier (cfg : ClientCommonConfig) : bool := isQUIC cfg || fromPtr (TCPMux (Transport cfg)).
Lemma apply_keeps cfg ops : ∀ es c, closedOnce c = true ∨ OClose ∉ ops →
  quicConn (foldl (apply_ cfg) (es, c) ops).2 = quicConn c ∧ muxSession (foldl (apply_ cfg) (es, c) ops).2 = muxSession c ∧
  filter (λ e, isCarrierClose e = true) (foldl (apply_ cfg) (es, c) ops).1 = filter (λ e, isCarrierClose e = true) es.
Proof using Type.
  induction ops as [|o ops IH]; intros es c Hc; simpl; [done|]. destruct o as [k|]; simpl.
  - destruct (IH (es ++ (Connect cfg k c).2) c) as (-> & -> & ->); [set_solver|]. split_and!; [done..|]. rewrite filter_app.
    assert (Hn : filter (λ e, isCarrierClose e = true) (Connect cfg k c).2 = []); [|by rewrite Hn, app_nil_r]. unfold Connect, dial.
    destruct (quicConn c), (muxSession c), (streamOk k), (realConnect cfg), (dialOk k); done.
  - destruct Hc as [Hc|Hc]; [|destruct Hc; by left]. unfold Close. rewrite Hc. rewrite app_nil_r. by apply IH; left.
Qed.

Lemma run_streams cfg ops : ∀ es c e, e ∈ (foldl (apply_ cfg) (es, c) ops).1 →
  e ∈ es ∨ isCarrierClose e = true ∨ e = (if quicConn c then EQUICStream else EMuxStream) ∧ (quicConn c || muxSession c) = true ∨
  (quicConn c || muxSession c) = false ∧ ∃ o, e = EDial o ∧ realConnect cfg = Ok o.
Proof using Type.
  induction ops as [|o ops IH]; intros es c e; simpl; [by left|]. destruct o as [k|]; simpl.
  - intros He. apply IH in He as [He|He]; [|by right]. apply elem_of_app in He as [He|He]; [by left|]. right. right. revert He. unfold Connect, dial.
    destruct (quicConn c), (muxSession c), (streamOk k), (realConnect cfg) as [o|], (dialOk k); simpl; rewrite ?elem_of_nil, ?list_elem_of_singleton; try done; intros ->; naive_solver.
  - destruct (Close c) as [es' c'] eqn:Hc. intros He. apply IH in He as [He|He].
    + apply elem_of_app in He as [He|He]; [by left|]. right. left. unfold Close in Hc. destruct (closedOnce c), (quicConn c), (muxSession c); injection Hc as <- <-; set_solver.
    + right. assert (quicConn c' = quicConn c ∧ muxSession c' = muxSession c) as [<- <-]; [|done]. unfold Close in Hc. destruct (closedOnce c); by injection Hc as <- <-.
Qed.

(** a connector owns its carrier.  When [Open] fails nothing is left open: a connection
    without a session is closed.  When it succeeds there is a carrier, QUIC or a session,
    exactly if the settings ask for one; however [Connect] and [Close] follow, all streams
    go over it, without one each is a connection of its own with the options of the
    settings; and the carrier is closed once if [Close] is ever called, and not before. *)
Theorem connector_settled cfg k r es c :
  Open cfg k NewConnector = (r, es, c) →
  match r with
  | Err _ => c = NewConnector ∧ (es = [] ∨ ∃ o, es = [EDial o; ECloseConn])
  | Ok _ =>
      (quicConn c || muxSession c) = carrier cfg ∧
      ∀ ops, let es' := (foldl (apply_ cfg) ([], c) ops).1 in
        length (filter (λ e, isCarrierClose e = true) es') = (if bool_decide (OClose ∈ ops) && carrier cfg then 1 else 0)%nat ∧
        ∀ e, e ∈ es' → isCarrierClose e = true ∨
          if carrier cfg then e = (if isQUIC cfg then EQUICStream else EMuxStream) else ∃ o, e = EDial o ∧ realConnect cfg = Ok o
  end.
Proof using Type.
  intros Ho. assert (Hopen : match r with Err _ => c = NewConnector ∧ (es = [] ∨ ∃ o, es = [EDial o; ECloseConn])
    | Ok _ => quicConn c = isQUIC cfg ∧ muxSession c = negb (isQUIC cfg) && fromPtr (TCPMux (Transport cfg)) ∧ closedOnce c = false end).
  { revert Ho. unfold Open, dial. destruct (isQUIC cfg).
    - destruct (if fromPtr _ then _ else _) as [t|e]; [destruct (dialOk k)|]; intros [= <- <- <-]; simpl; eauto.
    - destruct (fromPtr (TCPMux (Transport cfg))); simpl; [|by intros [= <- <- <-]].
      destruct (realConnect cfg) as [o|e]; [destruct (dialOk k), (sessionOk k)|]; intros [= <- <- <-]; simpl; eauto. }
  destruct r as [[]|e]; [|done]. destruct Hopen as (Hq & Hm & Hc).
  assert (Hcar : (quicConn c || muxSession c) = carrier cfg) by (unfold carrier; rewrite Hq, Hm; by destruct (isQUIC cfg)).
  split; [done|]. intros ops. split.
  - case_bool_decide as Hin; simpl; [|by destruct (apply_keeps cfg ops [] c (or_intror Hin)) as (_ & _ & ->)].
    apply list_elem_of_split_l in Hin as (before & after & -> & Hb). rewrite foldl_app. destruct (apply_keeps cfg before [] c (or_intror Hb)) as (Hq' & Hm' & Hf).
    destruct (foldl (apply_ cfg) ([], c) before) as [es1 c1] eqn:E. simpl in *. unfold Close.
    assert (Hc1 : closedOnce c1 = false).
    { clear -E Hc Hb. revert es1 c1 E. assert (Hg : ∀ l es0, OClose ∉ l → closedOnce (foldl (apply_ cfg) (es0, c) l).2 = false).
      { induction l as [|[k'|] l IH]; intros es0 Hl; simpl; [done|apply IH; set_solver|set_solver]. }
      intros es1 c1 E. specialize (Hg before [] Hb). by rewrite E in Hg. }
    rewrite Hc1. match goal with |- context [foldl _ (?x, ?y) after] => destruct (apply_keeps cfg after x y (or_introl eq_refl)) as (_ & _ & ->) end.
    rewrite !filter_app, Hf. simpl. rewrite <-Hcar, <-Hq', <-Hm'. clear -Hq Hm Hq' Hm'. rewrite Hq', Hq, Hm', Hm. by destruct (isQUIC cfg), (fromPtr _).
  - intros e He. apply run_streams in He as [He|[He|[[-> Hx]|[Hx He]]]]; [by apply elem_of_nil in He|by left|right..]; rewrite Hcar in Hx; rewrite Hx; [by rewrite Hq|done].
Qed.
End connector.

(** *** A concrete run *)

Definition demoOpen : res error () * list (effect (Cert := ()) (Pool := ()) (Proxy := ())) * connector :=
  Open (λ _ _, Some ()) (λ _, None) (λ _, None) (λ _, Some ()) (completeClient "" zeroClient) (mkCalls true true true) NewConnector.

Lemma connector_settled_witness : (quicConn demoOpen.2 || muxSession demoOpen.2) = true.
Proof.
  pose proof (connector_settled (Cert := ()) (Pool := ()) (Proxy := ()) (λ _ _, Some ()) (λ _, None) (λ _, None) (λ _, Some ()) (completeClient "" zeroClient) (mkCalls true true true) (Ok ()) demoOpen.1.2 demoOpen.2) as H.
  destruct H as [H _]; [vm_compute; reflexivity|]. rewrite H. vm_compute. reflexivity.
Defined.
End Connector.

(** ** Where a connection of a client ends up *)
Module Meeting.
Import CommonConfig Setup Connector.

(** What a client writes first without TLS: the version of a multiplexed stream, the
    magic, or a message of version 1: a login, a work connection or a visitor. *)
Definition plainOpening (stream : bytes) : Prop := ∃ b, head stream = Some b ∧ b ∈ [x00; x46; x6f; x77; x76].

Section meeting.
Context {Cert Pool K Proxy : Type} (loadPair : string → string → option Cert) (readFile : string → option chars) (parsePool : chars → option Pool) (ParseProxyURL : string → option Proxy).
Context (randomPair : option Cert) (ParsePrivateKey : chars → option K) (randomKey : option chars) (writeOk : bool) (outside : Values.outside) (discovers : AuthOIDCServerConfig → bool) (free : list socket → socket → bool).

(** The multiplexer of a port: its matchers for HTTP (a method) and HTTPS (a handshake
    record), and the choice of a route of the least priority among those that match. *)
Context (isHTTP isHTTPS : bytes → bool) (pick : list route → bytes → target).
Context (https_handshake : ∀ d, isHTTPS d = bool_decide (head d = Some x16)).
Context (http_method : ∀ d, isHTTP d = true → ∃ b, head d = Some b ∧ b ∈ [x43; x44; x47; x48; x4f; x50; x54]).
Context (pick_least : ∀ rs d,
  (∃ r, r ∈ rs ∧ matches r d = true ∧ target_ r = pick rs d ∧ ∀ r', r' ∈ rs → matches r' d = true → priority r ≤ priority r') ∨
  (pick rs d = TDefault ∧ ∀ r, r ∈ rs → matches r d = false)).

Definition sharesHTTPS (cfg : ServerConfig) : bool := (0 <? VhostHTTPSPort cfg) && httpsMuxOn cfg.

Lemma pick_first cfg d r : r ∈ routes isHTTP isHTTPS cfg → matches r d = true →
  (∀ r', r' ∈ routes isHTTP isHTTPS cfg → matches r' d = true → priority r' ≤ priority r → r' = r) → pick (routes isHTTP isHTTPS cfg) d = target_ r.
Proof using pick_least.
  intros Hr Hm Hu. destruct (pick_least (routes isHTTP isHTTPS cfg) d) as [(r' & Hr' & Hm' & <- & Hl)|[_ Hn]]; [|by rewrite (Hn r Hr) in Hm].
  by rewrite (Hu r' Hr' Hm' (Hl r Hr Hm)).
Qed.

Lemma routes_cases cfg r : r ∈ routes isHTTP isHTTPS cfg →
  r = mkRoute 0 isWebsocket TWebsocket ∨ r = mkRoute 1 isHTTP THTTP ∨ (sharesHTTPS cfg = true ∧ r = mkRoute 1 isHTTPS THTTPS) ∨ r = mkRoute 2 isTLS TTLS.
Proof using Type.
  clear. unfold routes, sharesHTTPS. destruct (_ && httpMuxOn cfg), (_ && httpsMuxOn cfg); simpl; rewrite !elem_of_cons, elem_of_nil; naive_solver.
Qed.

Lemma websocket_head d : isWebsocket d = true → head d = Some x47.
Proof using Type. clear. unfold isWebsocket. intros H. bool_to_prop. destruct d as [|b d]; [done|]. by injection H as ->. Qed.

(** Requests for web sockets come first. *)
Lemma pick_websocket cfg d : take (length websocketPrefix) d = websocketPrefix → pick (routes isHTTP isHTTPS cfg) d = TWebsocket.
Proof using pick_least.
  intros Hd. apply (pick_first cfg d (mkRoute 0 isWebsocket TWebsocket)); [by left|by apply bool_decide_eq_true|].
  intros r' [->|[->|[[_ ->]| ->]]]%routes_cases _; simpl; [done|lia..].
Qed.

Lemma pick_tls cfg d b : head d = Some b → b = x16 ∨ b = x17 → b = x17 ∨ sharesHTTPS cfg = false → pick (routes isHTTP isHTTPS cfg) d = TTLS.
Proof using pick_least http_method https_handshake.
  intros Hd Hb Hs. apply (pick_first cfg d (mkRoute 2 isTLS TTLS)).
  - unfold routes. rewrite !elem_of_app. right. right. right. by left.
  - destruct d as [|b' d]; [done|]. injection Hd as ->. by destruct Hb as [->| ->].
  - intros r' [->|[->|[[Hx ->]| ->]]]%routes_cases Hm _; simpl in *.
    + apply websocket_head in Hm. rewrite Hm in Hd. injection Hd as <-. by destruct Hb.
    + apply http_method in Hm as (b' & Hb' & Hin). rewrite Hb' in Hd. injection Hd as ->. destruct Hb as [->| ->]; set_solver.
    + rewrite https_handshake in Hm. bool_to_prop. rewrite Hm in Hd. injection Hd as <-. destruct Hs as [Hs|Hs]; [done|]. by rewrite Hs in Hx.
    + done.
Qed.

Lemma pick_https cfg d : head d = Some x16 → sharesHTTPS cfg = true → pick (routes isHTTP isHTTPS cfg) d = THTTPS.
Proof using pick_least http_method https_handshake.
  intros Hd Hs. apply (pick_first cfg d (mkRoute 1 isHTTPS THTTPS)).
  - unfold routes, sharesHTTPS in *. rewrite Hs, !elem_of_app. right. right. left. by left.
  - simpl. rewrite https_handshake. by apply bool_decide_eq_true.
  - intros r' [->|[->|[[_ ->]| ->]]]%routes_cases Hm Hle; simpl in *; [| |done|lia].
    + apply websocket_head in Hm. congruence.
    + apply http_method in Hm as (b' & Hb' & Hin). rewrite Hb' in Hd. injection Hd as ->. set_solver.
Qed.

Lemma pick_plain cfg d : plainOpening d → pick (routes isHTTP isHTTPS cfg) d = TDefault.
Proof using pick_least http_method https_handshake.
  intros (b & Hd & Hb). destruct (pick_least (routes isHTTP isHTTPS cfg) d) as [(r & Hr & Hm & _ & _)|[? _]]; [exfalso|done].
  apply routes_cases in Hr as [->|[->|[[_ ->]| ->]]]; simpl in Hm.
  - apply websocket_head in Hm. rewrite Hm in Hd. injection Hd as <-. set_solver.
  - apply http_method in Hm as (b' & Hb' & Hin). rewrite Hb' in Hd. injection Hd as ->. set_solver.
  - rewrite https_handshake in Hm. bool_to_prop. rewrite Hm in Hd. injection Hd as <-. set_solver.
  - destruct d as [|b' d]; [done|]. injection Hd as ->. simpl in Hm. destruct (bool_decide (b = Sniff.FRPTLSHeadByte)) eqn:E1; simpl in Hm; bool_to_prop; subst; set_solver.
Qed.

Lemma plain_opening s : plainOpening s → Sniff.opening false s.
Proof using Type.
  clear. intros (b & Hs & Hb). exists b. split; [done|].
  repeat (apply elem_of_cons in Hb as [->|Hb]; [first [by left|by right; left|right; right; vm_compute; split; discriminate]|]). by apply elem_of_nil in Hb.
Qed.

(** The library that dials runs hooks of the default priority in the order in which they
    are added. *)
Context (runOrder : list hook → list hook) (run_default : ∀ hs, Forall (λ h, hPriority h = None) hs → runOrder hs = hs).
(** TLS starts with a handshake record.  A web socket starts with the request for its
    path, and gives its peer what is written to it. *)
Context (tlsRecords : bytes → bytes) (tls_handshake : ∀ s, head (tlsRecords s) = Some x16).
Context (wsOpen : string → string → bytes → bytes) (wsAccept : bytes → option bytes).
Context (ws_request : ∀ p h s, take (length websocketPrefix) (wsOpen p h s) = websocketPrefix) (ws_accept : ∀ p h s, wsAccept (wsOpen p h s) = Some s).

(** What is on the wire when the client writes [s]: each hook goes under the ones run
    after it. *)
Definition act (a : action) (s : bytes) : bytes :=
  match a with
  | AWebsocket p h => wsOpen p h s
  | AHeadByte on disable => Sniff.DialHookCustomTLSHeadByte on disable s
  | ATLS on => if on then tlsRecords s else s
  end.
Definition onWire (hs : list hook) (s : bytes) : bytes := foldr (λ h, act (hAction h)) s (runOrder hs).

(** [HandleListener] on the three listeners for clients; the others do not serve them. *)
Definition serve (force : bool) (t : target) (w : bytes) : option (res Sniff.error Sniff.secured) :=
  match t with
  | TDefault | TTLS => Some (Sniff.CheckAndEnableTLS force w)
  | TWebsocket => Sniff.CheckAndEnableTLS force <$> wsAccept w
  | THTTP | THTTPS => None
  end.

(** What the client means. *)
Definition meant (force on disable : bool) (s : bytes) : res Sniff.error Sniff.secured :=
  if on then Ok (Sniff.OverTLS (tlsRecords s) (negb disable)) else if force then Err Sniff.ErrNotTLS else Ok (Sniff.Plain s).

Lemma websocket_dial cfg o : Protocol (Transport cfg) = "websocket"%string → realConnect loadPair readFile parsePool ParseProxyURL cfg = Ok o →
  let on := fromPtr (Enable (TLS (Transport cfg))) in
  dHooks o = [mkHook None (AWebsocket "tcp" ""); mkHook None (AHeadByte on (fromPtr (DisableCustomTLSFirstByte (TLS (Transport cfg))))); mkHook None (ATLS on)].
Proof using Type.
  unfold realConnect. intros ->. simpl. destruct (fromPtr (Enable _)); simpl; [destruct (clientTLSConfig _ _ _ cfg); simpl; [|done]|]; destruct (ParseProxyURL _); simpl; by intros [= <-].
Qed.

Lemma tcp_dial cfg o : Protocol (Transport cfg) = "tcp"%string → realConnect loadPair readFile parsePool ParseProxyURL cfg = Ok o →
  let on := fromPtr (Enable (TLS (Transport cfg))) in
  dHooks o = [mkHook None (AHeadByte on (fromPtr (DisableCustomTLSFirstByte (TLS (Transport cfg))))); mkHook None (ATLS on)].
Proof using Type.
  unfold realConnect. intros ->. simpl. destruct (fromPtr (Enable _)); simpl; [destruct (clientTLSConfig _ _ _ cfg); simpl; [|done]|]; destruct (ParseProxyURL _); simpl; by intros [= <-].
Qed.

Lemma meant_sniffed force on disable s : (on = false → plainOpening s) →
  Sniff.CheckAndEnableTLS force (Sniff.DialHookCustomTLSHeadByte on disable (if on then tlsRecords s else s)) = meant force on disable s.
Proof using tls_handshake.
  intros Hs. assert (Ho : Sniff.opening on (if on then tlsRecords s else s)) by (destruct on; [apply tls_handshake|by apply plain_opening, Hs]).
  rewrite (proj1 (Sniff.tls_detected on disable force _ Ho)). by destruct on.
Qed.

(** C25: clients and servers meet.  A client that dials the port of a server over TCP or as a
    web socket, with any settings for TLS, gets to a listener for clients, which goes on
    with exactly what the client wrote, over TLS if and only if the client uses it, or
    refuses a client without TLS when it is forced: other parts that share the port do
    not take its connections.  The one exception is a client that starts TLS without the
    byte of its own on a port that HTTPS hosts share, whose connection they take. *)
Theorem client_reaches_server scfg fs svr cfg o s :
  (NewService randomPair loadPair readFile parsePool ParsePrivateKey randomKey writeOk outside discovers free isHTTP isHTTPS scfg (mkState [] fs)).1 = Ok svr →
  Protocol (Transport cfg) ∈ ["tcp"; "websocket"]%string →
  realConnect loadPair readFile parsePool ParseProxyURL cfg = Ok o →
  let on := fromPtr (Enable (TLS (Transport cfg))) in
  let disable := fromPtr (DisableCustomTLSFirstByte (TLS (Transport cfg))) in
  let force := Force (sTLS (sTransport scfg)) in
  (on = false → plainOpening s) →
  let w := onWire (dHooks o) s in
  if bool_decide (Protocol (Transport cfg) = "tcp"%string) && on && disable && sharesHTTPS scfg
  then pick (muxer svr) w = THTTPS
  else serve force (pick (muxer svr) w) w = Some (meant force on disable s).
Proof using run_default tls_handshake ws_request ws_accept pick_least http_method https_handshake.
  intros Hsvr Hp Ho on disable force Hs w.
  apply service_opened in Hsvr as [_ [-> _]]. pose proof (meant_sniffed force on disable s Hs) as Hm.
  apply elem_of_cons in Hp as [Hp|[Hp|[]%elem_of_nil]%elem_of_cons]; rewrite Hp; simpl.
  - assert (w = Sniff.DialHookCustomTLSHeadByte on disable (if on then tlsRecords s else s)) as Hw.
    { subst w. rewrite (tcp_dial cfg o Hp Ho). unfold onWire. rewrite run_default by (repeat constructor). done. }
    rewrite Hw in *. clear w Hw. destruct on; simpl in *.
    + pose proof (tls_handshake s) as Ht. destruct disable; simpl in *.
      * destruct (sharesHTTPS scfg) eqn:Hx; [by apply pick_https|]. rewrite (pick_tls scfg _ x16) by auto. simpl. by rewrite Hm.
      * rewrite (pick_tls scfg _ x17) by auto. simpl. by f_equal.
    + rewrite pick_plain by (by apply Hs). simpl. by f_equal.
  - assert (w = wsOpen "tcp" "" (Sniff.DialHookCustomTLSHeadByte on disable (if on then tlsRecords s else s))) as Hw.
    { subst w. rewrite (websocket_dial cfg o Hp Ho). unfold onWire. rewrite run_default by (repeat constructor). done. }
    rewrite Hw, pick_websocket by apply ws_request. simpl. rewrite ws_accept. simpl. by rewrite Hm.
Qed.
End meeting.

(** *** A concrete meeting *)

Fixpoint demoBest (rs : list route) (d : bytes) : option route :=
  match rs with
  | [] => None
  | r :: rs =>
      match demoBest rs d with
      | Some r' => if matches r d && (priority r <=? priority r') then Some r else Some r'
      | None => if matches r d then Some r else None
      end
  end.
Definition demoPick (rs : list route) (d : bytes) : target := match demoBest rs d with Some r => target_ r | None => TDefault end.

Lemma demoBest_least rs d : match demoBest rs d with
  | Some r => r ∈ rs ∧ matches r d = true ∧ ∀ r', r' ∈ rs → matches r' d = true → priority r ≤ priority r'
  | None => ∀ r, r ∈ rs → matches r d = false end.
Proof.
  induction rs as [|r rs IH]; simpl; [by intros r ?%elem_of_nil|]. destruct (demoBest rs d) as [b|].
  - destruct IH as (Hb & Hm & Hl). destruct (matches r d) eqn:Hr; simpl.
    + destruct (Z.leb_spec (priority r) (priority b)) as [H|H]; (split_and!; [by constructor|done|]); intros r' [->|Hr']%elem_of_cons Hm'; try lia; specialize (Hl r' Hr' Hm'); lia.
    + split_and!; [by constructor|done|]. intros r' [->|Hr']%elem_of_cons Hm'; [congruence|auto].
  - destruct (matches r d) eqn:Hr; [split_and!; [by constructor|done|]|]; intros r' [->|Hr']%elem_of_cons; try done; [|by apply IH]. intros Hm. by rewrite (IH r' Hr') in Hm.
Qed.
Lemma demoPick_least rs d :
  (∃ r, r ∈ rs ∧ matches r d = true ∧ target_ r = demoPick rs d ∧ ∀ r', r' ∈ rs → matches r' d = true → priority r ≤ priority r') ∨
  (demoPick rs d = TDefault ∧ ∀ r, r ∈ rs → matches r d = false).
Proof. pose proof (demoBest_least rs d) as H. unfold demoPick. destruct (demoBest rs d) as [r|]; [left|by right]. destruct H as (? & ? & ?). by exists r. Qed.

Definition demoHTTP (d : bytes) : bool := match d with [] => false | b :: _ => bool_decide (b ∈ [x43; x44; x47; x48; x4f; x50; x54]) end.
Lemma demoHTTP_method d : demoHTTP d = true → ∃ b, head d = Some b ∧ b ∈ [x43; x44; x47; x48; x4f; x50; x54].
Proof. destruct d as [|b d]; simpl; [done|]. intros H. bool_to_prop. by exists b. Qed.
Definition demoHTTPS (d : bytes) : bool := bool_decide (head d = Some x16).
Definition demoTLS (s : bytes) : bytes := x16 :: s.
Definition demoWs (p h : string) (s : bytes) : bytes := websocketPrefix ++ s.

Definition demoMuxer : list route := routes demoHTTP demoHTTPS demoServer.
Definition demoClient (protocol : string) (disable : bool) : ClientCommonConfig :=
  mkClient (Auth_ zeroClient) "" "" "h" 7000 "" "" None [] zeroLog zeroWeb
    (mkTransport protocol "" 0 0 "" "" 0 None 0 zeroQUIC 0 0 (mkTLSClient (Some true) (Some disable) zeroTLS)) "" [] 0 ∅ [] "".
Definition demoDial (c : ClientCommonConfig) : res Connector.error (dialOptions (Cert := ()) (Pool := ()) (Proxy := ())) := realConnect (λ _ _, Some ()) (λ _, None) (λ _, None) (λ _, Some ()) c.

(** With HTTPS hosts on its port a server serves the clients that write a byte of their own. *)
Lemma client_reaches_server_witness : ∃ o, demoDial (demoClient "tcp" false) = Ok o ∧
  let w := onWire id demoTLS demoWs (dHooks o) [x01] in
  serve (λ w, Some (drop (length websocketPrefix) w)) false (demoPick demoMuxer w) w = Some (Ok (Sniff.OverTLS [x16; x01] true)).
Proof.
  destruct (demoDial (demoClient "tcp" false)) as [o|e] eqn:E; [|vm_compute in E; discriminate E]. exists o. split; [reflexivity|].
  destruct (NewService (Pool := ()) (Some ()) (λ _ _, Some ()) (λ _, None) (λ _, None) demoKey (Some (ofStr "key")) true Build.demoOutside (λ _, false) (λ _ _, true) demoHTTP demoHTTPS demoServer (mkState [] ∅)).1
    as [svr|e] eqn:S; [|vm_compute in S; discriminate S].
  replace demoMuxer with (muxer svr) by (symmetry; by destruct (service_opened _ _ _ _ _ _ _ _ _ _ _ _ _ _ _ S) as [_ [? _]]).
  exact (client_reaches_server (Cert := ()) (Pool := ()) (Proxy := ()) (λ _ _, Some ()) (λ _, None) (λ _, None) (λ _, Some ()) (Some ()) demoKey (Some (ofStr "key")) true Build.demoOutside (λ _, false) (λ _ _, true)
    demoHTTP demoHTTPS demoPick ltac:(reflexivity) demoHTTP_method demoPick_least id ltac:(reflexivity) demoTLS ltac:(reflexivity) demoWs
    (λ w, Some (drop (length websocketPrefix) w)) ltac:(reflexivity) ltac:(reflexivity)
    demoServer ∅ svr (demoClient "tcp" false) o [x01] S ltac:(left) E ltac:(discriminate)).
Defined.

(** Without it the hosts take the connection. *)
Example taken_by_https : demoPick demoMuxer (onWire id demoTLS demoWs [mkHook None (AHeadByte true true); mkHook None (ATLS true)] [x01]) = THTTPS.
Proof. vm_compute. reflexivity. Qed.
End Meeting.
